(* ===== verification/_CoqProject ===== *)
-Q . S2P
Prelude.v
Effects.v
GoStrings.v
GoTime.v
Regex.v
Sha256.v
Budget.v
Branch.v
Run.v
StatusPatch.v
Lane.v
Kube.v
Backoff.v
Reap.v
Retry.v
World.v
Logic.v
Pods.v
Report.v
Capacity.v
Terminal.v
Checks.v
CIPark.v
Liveness.v
Observe.v
Reconcile.v
Protocol.v
ProtocolTerminal.v
ProtocolPark.v
ProtocolObserve.v
ProtocolRun.v
Contract.v
Admission.v
Handoff.v
Discovery.v
Zlib.v
Pack.v
Linkage.v
Criteria.v
Policy.v
Forge.v
Binding.v
SecureAdmission.v
ForgeAdapter.v
GitTransport.v
BrokerAuth.v
HarnessStatus.v
BrokerServer.v
TrustedStatus.v
HarnessErrors.v
Session.v
HarnessLedger.v
Devenv.v
HarnessWorld.v
HarnessSkills.v
WorkerDispatch.v
HarnessLogic.v
Coordinator.v
CoordinatorProtocol.v
CoordinatorContract.v
WorkerWire.v
WorkerTask.v
Worker.v
WorkerSafety.v
GoPath.v
GitTree.v
Integrator.v
BrokerClient.v
Publisher.v
