(* ===== verification/Prelude.v ===== *)
(** * Courier: a verification development

    Courier is a Kubernetes operator that runs autonomous coding coordinators.
    A source (a queue, a label, a schedule) offers work items; the operator
    materializes each as a [CoderRun], admits it on a lane, launches it, follows
    it through its phases and reports its ending.  What a run publishes goes
    through a broker, the only holder of write credentials, which checks every
    push and pull request against a policy pinned when the run was admitted.
    The run itself is a coordinator in a trusted control pod: it drives the
    models' turns, sends their commands to an untrusted worker pod in signed
    envelopes, integrates what delegated sessions return, publishes it through
    the broker and ends the run.

    This library models the parts of that program that decide: what may be
    published, what work becomes a run, every step of the reconciler that drives
    a run from Pending to its ending, what is written to a run's status, when a
    run is retried or deleted, and, inside the run, the whole loop of the
    coordinator with its sessions, its worker operations and its endings, the
    worker that verifies, runs and stops them, and the tree and engine that
    integrate and publish what comes back.
    Definitions keep the names of the Go code and follow it branch by branch;
    the code that performs I/O is an environment that may answer anything.

    ** How code is modelled

    - A function that returns [(T, error)] is a function into [result E T]; a
      nil pointer is [None]; a struct is a record and an enumeration that Go
      keeps as a string stays a string with the source's constants.
    - A handler that talks to the API server, the forge, a source or the clock
      is a [prog E A] (Effects.v): a finite tree of typed requests.  [exec]
      gives its executions, [wp p Q] says that [Q] holds of the trace and the
      result whatever every request answers, errors included, and [run]
      interprets it against a concrete environment, so every handler is
      executable.  A theorem about a [wp] is a theorem about all environments.
    - Mutable state is threaded: an operation returns the engine, the run or the
      runner it leaves.  A pointer whose address the code compares keeps its
      address ([TimePtr] in Run.v).
    - [int] is 64-bit where overflow matters (Budget.v, Backoff.v); times are
      nanoseconds since the epoch and durations saturate as [time.Sub] does.
    - Recursion follows the code's own bounds.  Fuel appears where a loop is not
      structural, and each bound is the loop's own: one step per input byte for
      the scan of all regular-expression matches (Regex.v, [find_all_complete]),
      the bit length for decimal printing (GoStrings.v, [digits_fuel_value]),
      the coordinator's three loops without a bound of their own (polling an
      operation, a delegate's turns, the run's turns) take fuel and issue the
      unanswerable request [StillGoing] when it is spent, so that a theorem for
      every fuel and every [partial] execution is about every moment of every
      run, those that never end included (HarnessWorld.v, [still_going]); the
      worker's three loops against a deadline on the clock do the same with
      [passes] and [TaskStillGoing] (WorkerTask.v), and its traversal of the
      process tree takes one step per entry of the stack ([visit_exact]);
      eight doublings for the backoff delay, which reaches its cap by the sixth
      (Backoff.v, [delay_loop_small]), one step per 64-byte block for SHA-256
      (Sha256.v), one per bit for zlib streams (Zlib.v), and four steps per queued acknowledgement for the drain
      (Discovery.v, [drain_loop_spec]).
    - Library code is modelled as far as the sources use it: strings and UTF-8
      (GoStrings.v), RFC 3339 times (GoTime.v), RE2 matching (Regex.v), SHA-256
      (Sha256.v), zlib (Zlib.v).  [apimeta]'s condition helpers are the class [ConditionOps]
      (Run.v), with its documented laws and an instance; the sign of a
      [resource.Quantity] is a parameter (Lane.v).

    ** The files

    - Prelude.v: results, 64-bit integers, boolean automation, list lemmas.
    - Effects.v, GoStrings.v, GoTime.v, Regex.v, Sha256.v: the language and its
      standard library.
    - Budget.v: internal/harness/budget.go.  [PlanCompaction] implements a
      declarative contract, compacts with hysteresis, and budgets are sound.
    - Branch.v: internal/branch/branch.go.  Work branches never collide.
    - Run.v: the types of api/v1alpha1/coderun_types.go and telemetry_types.go.
    - StatusPatch.v: the operator's half of internal/status/status.go and the
      difference [patchStatus] computes (internal/controller/
      coderun_controller.go).  A patch is exact, leaves everything else alone,
      and is never empty once a run has entered a phase.
    - Lane.v: api/v1alpha1/laneprofile_types.go and resources.go.
    - Kube.v: the requests of a reconciler, [patchStatus], and phase_machine.go
      and admission.go of internal/controller.
    - Backoff.v, Reap.v, Retry.v: preflight_backoff.go, reap.go and retry.go of
      internal/controller.  The preflight gate is bounded and fails open; a run
      is deleted only past its window, its audit floor and a fresh check for
      retry intent; a retry is committed by the source at most once over any
      history of crashes and lost answers.
    - World.v, Logic.v: the world of the CoderRun reconciler (requests to the
      API server, the source adapter, the forge and the launchers) and handlers
      that mutate the run they are given; a program logic [spec] that runs an
      automaton beside a handler, over all executions or over those a class
      [Assume] selects.
    - Pods.v: coordinator pods, termination handoffs and diagnostics
      (coderun_controller.go, diagnostics.go, legacy_workspace_observation.go;
      the run labels of internal/executor/pod.go).  The trusted result and the
      exit code route alike, with one exception.
    - Report.v, Terminal.v: terminal transitions, source reports and the
      already-done close (coderun_controller.go, alreadydone.go).  The intent of
      a report is recovered from the condition that recorded it.
    - Capacity.v: capacity_recovery.go.  Checks.v, CIPark.v: observer.go,
      mechanical.go and cipark.go, the park-and-resume loop on CI; a park wakes
      exactly when it should and its evidence is bounded.
    - Liveness.v: liveness.go and the topology round of secure_launcher.go.
      Observe.v: the observation of Running, Verifying and AwaitingReview runs.
      Reconcile.v: [Reconcile] itself, with admission, launch and dispatch.
    - Protocol.v: the abstract specification of a reconcile, an automaton over
      its requests: the phase machine ([edge]), which request belongs to which
      phase, what a report may say, what a write of a repair attempt owes.
      ProtocolTerminal.v, ProtocolPark.v, ProtocolObserve.v, ProtocolRun.v: the
      handlers, one after the other, are accepted by it.
    - Contract.v: what follows for the executions of [Reconcile], stated on
      traces.  Admission.v and Handoff.v: two gates proved on automata of their
      own, the claim of work and the fenced capacity handoff.
    - Discovery.v: internal/source/runner.go.  A poll of a paused lane does
      nothing; otherwise every well-formed item it is offered ends up owned by
      exactly one run, and acknowledgements come last and are bounded, whatever
      order their goroutines run in.
    - Zlib.v: zlib streams, as the pack scanner reads them.
    - Pack.v: internal/git/packbudget.go.  The scan of an untrusted bundle
      accepts exactly the packs within budget, whatever the decompressor does,
      inflates no more than its budget and twenty bytes, and names only bounds
      that are broken.
    - Linkage.v, Criteria.v: linkage.go, criteria.go and the grammar leaf of
      internal/broker.  What a pull request body must say, decided exactly.
    - Policy.v: internal/broker/policy.go.  [Publish] meets its contract against
      any forge; nothing is pushed over a foreign tip or to the base; success
      means the proposed commit was observed live; over a process's whole life
      the confirmed tip is the process's own.
    - Forge.v: the provider boundary and its registry (internal/forge).
      SecureAdmission.v: [ResolveAdmission] (internal/controller/
      secure_control.go), which pins a run's publication policy.  Binding.v:
      internal/broker/binding.go, which turns the pinned policy into the
      engine's.  What admission pins, the broker binds to; a bound policy is
      valid, names the run's own repositories and branch, and two runs' branches
      are apart; a changed criterion set is noticed.
    - ForgeAdapter.v, GitTransport.v: forge_adapter.go, git_transport.go and
      snapshot.go of internal/broker with the broker half of internal/git.  The
      engine's safety, restated on provider calls and on git command lines.
    - BrokerAuth.v: internal/broker/auth.go.  Who is let in: the one live control
      pod of the run this broker serves.
    - HarnessStatus.v, TrustedStatus.v: status.go and trusted_status.go of
      internal/broker.  A write under optimistic concurrency happens at most
      once, changes what its patch names and nothing the operator owns, and an
      answer to the caller is true of the API server.
    - BrokerServer.v: server.go and capabilities.go of internal/broker.  Every
      request is authenticated before anything else happens; over any sequence
      of requests the git command lines and provider writes of the process stay
      within the bound policy; a bundle is imported only after the pinned refs
      were observed; a denial that claims to be definite has sent nothing.

    - HarnessErrors.v: the errors of internal/harness, the prerequisite
      classifier and its latch (prerequisite.go) and the provider classifier
      (availability.go, broker.go).  The latch trips once, on the failure it
      reports from then on.
    - Session.v: session.go, events.go and the lane's context policy.  A
      compaction replaces one interval of the transcript and nothing else; a turn
      is retried a bounded number of times.
    - HarnessLedger.v: brief.go and the check ledger of checks.go.  An ID is
      registered once and a tombstone is final.
    - Devenv.v: internal/devenv.  A contract is approved only when it is
      unchanged; a captured environment never overrides a protected name.
    - HarnessWorld.v: the world of the control pod, with the status reporter
      (status.go), the soft-stop watcher (softstop.go) and the reconciliation of
      an ambiguous dispatch (delegate.go).  HarnessSkills.v: skills.go.
    - WorkerDispatch.v: one worker operation from its persisted entry to its
      verified end, the development bootstrap and the workspace snapshot;
      Coordinator.v: sessions, tools, delegation, endings and the run itself
      (coordinator.go, checks.go).
    - HarnessLogic.v: the program logic of the control pod, [triple] and [keeps].
      CoordinatorProtocol.v: an automaton over the coordinator's requests, its
      abstract specification, and the proof that every handler respects it.
      CoordinatorContract.v: what follows, stated on traces: one live operation
      at a time, persisted before it is sent; a soft stop binds; a brief enters
      the branch once; the ending says what happened.
    - WorkerWire.v: envelopes, the client that signs and delivers them and the
      delegator (internal/protocol/envelope.go, control.go; delegate.go).
      WorkerTask.v: one task on the worker and the containment of its processes
      (worker.go, containment.go).  A result that reports nothing left running
      was preceded by a listing of the task's group and a sweep of the adopted
      trees that found nothing.
    - Worker.v: the listener, every handler a program whose atomic steps are its
      critical sections.  What control signs, the worker it names accepts.
      WorkerSafety.v: arbitrary schedules of handlers and tasks, and a
      rely-guarantee logic over them.  Only what control signed runs, and an
      operation runs once; nothing runs once it is entombed; a reply that says
      an operation is over is true.
    - GoPath.v: lexical paths (path/filepath).  GitTree.v: the control side of
      internal/git (bundle.go, hardened.go and the workspace operations of
      git.go) as the git command lines it issues.
    - Integrator.v: artifact.go and integrator.go of internal/harness, the private
      tree that takes in what delegates return.  A head reaches the tree only
      after every check of its bundle; no text of a model, a worker or a bundle
      is ever a git argument; the path policy is containment of elements.
    - BrokerClient.v: broker.go and brokertoken.go, the client of the broker.
      Publisher.v: publisher.go.  Over the life of an engine only heads of its own
      tree are offered, over tips it can vouch for, and what it reports published
      the broker confirmed; a publication asks the broker a bounded number of
      times.

    The reporter in the control pod and the broker's status writer exchange one
    type, [HarnessPatch] (HarnessStatus.v).

    The broker's layers compose: a request enters [serve_server] (BrokerServer.v),
    runs an engine operation (Policy.v), whose forge requests the adapter serves
    ([serve], ForgeAdapter.v) and whose git requests the transport serves
    (GitTransport.v), so that [broker_server_safe] is about the provider calls
    and git commands of the whole process.

    Interfaces between components: each environment is a signature of requests,
    [brokerE], [providerE], [gitE], [authE] and [serverE] for the broker,
    [sessionE] and [harnessE] for the control pod (a session's requests are
    served inside the coordinator's by [interp]), [clientE] for its side of the
    worker protocol, [workerE] for the worker's handlers and [taskE] for the
    system calls below them, [treeE] for the integration tree and [brokerCallE]
    for the broker client, which [pubE] puts together for the engine,
    [kubeE], [worldE] and [runnerE] for the operator ([worldE] contains [kubeE],
    so the retry and reap handlers run inside a reconcile through [lift]); [ConditionOps] is the class the handlers that write conditions are
    proved against, [Codec] the decoding and redaction they call; [ToolCodec], [ErrorBody] and
    [Quoted] are what the control pod uses of [encoding/json], [net/http] and
    [strconv]; [Ed25519] and [Wire] what both ends of the worker protocol use of
    the signature scheme and of [encoding/json]; [BrokerCodec] is what the broker
    client uses of it; Policy.v uses
    Linkage.v and Criteria.v through their validators' characterizations, and
    Retry.v, Reap.v and the reconciler use Kube.v's [patchStatus] through its
    specifications ([wp_patchStatus], [spec_patch]).

    ** What the reconcile theorems assume

    Contract.v starts from a run whose status is [admissible]: its phase is one
    of the API type's, an attempt in flight is tied to the recorded park, and
    the settlement it still owes is not that of the attempt in flight (a source
    issues a fence once).  Everything else is arbitrary: the rest of the status,
    every answer of the API server, the source, the forge and the launchers,
    and where an execution stops, since the theorems hold of every prefix.  A
    write that failed leaves the persisted phase unknown, and the automaton
    allows nothing that needs it.  [Launch] and [LaunchSecure] are requests that
    leave the run's status to the caller, as their code does.

    ** What is not modelled, and what comes next

    Not modelled: network clients (forge, gateway, dispatch), the git and process
    execution below the command lines of GitTransport.v and GitTree.v, Kubernetes object
    rendering and probes (launcher.go, preflight.go and the provisioning half of
    secure_launcher.go), URL and JSON parsing (the check of a remote URL is an
    argument, a decoded body an answer of the environment), TLS and deadlines,
    prompts, file capture and metrics; the theorems quantify over what they
    answer.  Execution observations and evidence Secrets are single requests of
    a reconcile.  Error texts drop the operands that quote foreign values, and
    log lines carry their message only.  Logging, metrics and events of a
    handler are requests of its environment, kept where the code orders them
    against a write.

    In the control pod: the wire formats of the model providers and the
    concurrency of the reporter's heartbeats.  The coordinator sees the worker,
    the integration tree and the publication engine as requests of [harnessE],
    so its theorems hold of any that answer anything; those of the engine and of
    the worker are proved on their own.  The tool pump is serial in the code, and so
    in the model.  On the worker: the kernel, the generation of keys and the
    arming of the reaper at start-up; test hooks are nil.

    Next, in order: the history of a run over many reconciles and stale reads; the
    coordinator over the engine of Publisher.v; the dispatch adapter (internal/source/dispatch); the cron
    schedule and the dependency cache. *)

From stdpp Require Export base tactics option list numbers strings gmap.
From Stdlib Require Export ZArith Lia Ascii.

Open Scope Z_scope.

(** ** Fallible computations

    A Go function that returns [(T, error)] is a function into [result E T]:
    [Ok v] is [(v, nil)] and [Err e] is a non-nil error.  (Where the source
    also returns a meaningful value beside the error, the component's own
    definition keeps both.) *)

Inductive result (E A : Type) : Type :=
| Ok (a : A)
| Err (e : E).

Arguments Ok {E A} a.
Arguments Err {E A} e.

#[export] Instance result_ret {E} : MRet (result E) := fun A a => Ok a.
#[export] Instance result_bind {E} : MBind (result E) :=
  fun A B f m => match m with Ok a => f a | Err e => Err e end.
Definition is_ok {E A} (r : result E A) : bool :=
  match r with Ok _ => true | Err _ => false end.

(** ** Machine integers

    Go's [int] and [int64] are 64-bit two's complement (the targets of this
    repository are 64-bit); arithmetic wraps silently. *)

Definition int64_min : Z := - 2 ^ 63.
Definition int64_max : Z := 2 ^ 63 - 1.

Definition wrap64 (z : Z) : Z := (z + 2 ^ 63) mod 2 ^ 64 - 2 ^ 63.

Definition in_int64 (z : Z) : Prop := int64_min <= z <= int64_max.

Definition int_add (a b : Z) : Z := wrap64 (a + b).
Definition int_sub (a b : Z) : Z := wrap64 (a - b).
Definition int_mul (a b : Z) : Z := wrap64 (a * b).

Lemma wrap64_id z : in_int64 z -> wrap64 z = z.
Proof.
  unfold in_int64, int64_min, int64_max, wrap64. intros ?.
  rewrite Z.mod_small; lia.
Qed.

(** [uint64] arithmetic. *)
Definition u64 (z : Z) : Z := z mod 2 ^ 64.

Lemma u64_id z : 0 <= z < 2 ^ 64 -> u64 z = z.
Proof. apply Z.mod_small. Qed.

(** [binary.BigEndian.Uint32]. *)
Definition word_be (b0 b1 b2 b3 : Z) : Z :=
  Z.lor (Z.shiftl b0 24) (Z.lor (Z.shiftl b1 16) (Z.lor (Z.shiftl b2 8) b3)).

(** ** Boolean reflection *)

Create HintDb courier.
Create Rewrite HintDb courier_bool.

#[export] Hint Rewrite andb_true_iff orb_true_iff andb_false_iff orb_false_iff
  negb_true_iff negb_false_iff Z.eqb_eq Z.eqb_neq Z.ltb_lt Z.ltb_ge Z.leb_le
  Z.leb_gt Z.gtb_lt Z.geb_le bool_decide_eq_true bool_decide_eq_false : courier_bool.

(** [bprop]: turn boolean equations in the context into propositions. *)
Ltac bprop := autorewrite with courier_bool in *.

(** ** Lists *)

Lemma fmap_eq_nil {A B} (f : A -> B) (l : list A) : f <$> l = [] <-> l = [].
Proof. by destruct l. Qed.

Lemma app_eq_nil_iff {A} (l1 l2 : list A) : l1 ++ l2 = [] <-> l1 = [] /\ l2 = [].
Proof. destruct l1; simpl; split; [auto|by intros [_ ->]|done|by intros [? _]]. Qed.

Lemma filter_all {A} (f : A -> bool) l : Forall (fun x => f x = true) l -> List.filter f l = l.
Proof. induction 1 as [|x l Hx _ IH]; cbn; [done|]. by rewrite Hx, IH. Qed.

Lemma filter_none {A} (f : A -> bool) l : Forall (fun x => f x = false) l -> List.filter f l = [].
Proof. induction 1 as [|x l Hx _ IH]; cbn; [done|]. by rewrite Hx, IH. Qed.

Lemma existsb_false_iff {A} (f : A -> bool) l : existsb f l = false <-> forall x, In x l -> f x = false.
Proof.
  induction l as [|y l IH]; simpl; [done|]. rewrite orb_false_iff, IH. split.
  - intros [Hy Hl] x [->|Hx]; auto.
  - intros H. split; [by apply H; left|]. intros x Hx. by apply H; right.
Qed.

Lemma existsb_none {A} (f : A -> bool) l : existsb f l = false -> forall x, x ∈ l -> f x = false.
Proof.
  intros H x Hx. destruct (f x) eqn:Hf; [|done]. exfalso. apply not_true_iff_false in H. apply H.
  apply existsb_exists. exists x. split; [by apply list_elem_of_In|done].
Qed.
