(* ===== verification/Effects.v ===== *)
(** * Effectful Go code as finite interaction trees

    A handler that talks to the forge, the API server or a source adapter is a
    tree of requests: each node issues one typed request and continues with
    whatever the environment answers, errors included.  Handlers have no
    unbounded loop, so the trees are inductive and every definition stays
    executable: [run] interprets a tree against a concrete environment.

    [wp p Q] says that [Q] holds of the trace of requests and answers and of
    the returned value, whatever the environment answers at every node. *)

From S2P Require Import Prelude.

Section Tree.
Context {E : Type -> Type}.

Inductive prog (A : Type) : Type :=
| Ret (a : A)
| Vis (X : Type) (e : E X) (k : X -> prog A).

End Tree.

Arguments prog E A : clear implicits.
Arguments Ret {E A} a.
Arguments Vis {E A X} e k.

Fixpoint bind_prog {E A B} (p : prog E A) (f : A -> prog E B) : prog E B :=
  match p with
  | Ret a => f a
  | Vis e k => Vis e (fun x => bind_prog (k x) f)
  end.

Definition call {E X} (e : E X) : prog E X := Vis e Ret.

#[export] Instance prog_ret {E} : MRet (prog E) := fun A a => Ret a.
#[export] Instance prog_bind {E} : MBind (prog E) := fun A B f p => bind_prog p f.

(** The early return on a non-nil error: [Err e] ends the handler. *)
Definition bind_err {E Er A B} (p : prog E (result Er A)) (f : A -> prog E (result Er B)) :
    prog E (result Er B) :=
  r ← p; match r with Ok a => f a | Err e => Ret (Err e) end.

Notation "x ←? p ; q" := (bind_err p (fun x => q))
  (at level 20, p at level 100, q at level 200, only parsing).
Notation "' pat ←? p ; q" := (bind_err p (fun x => match x with pat => q end))
  (at level 20, pat pattern, p at level 100, q at level 200, only parsing).

(** One request with the answer it got. *)
Record event (E : Type -> Type) := Ev { ev_ty : Type; ev_op : E ev_ty; ev_ans : ev_ty }.
Arguments Ev {E ev_ty} ev_op ev_ans.
Arguments ev_ty {E} _.
Arguments ev_op {E} _.
Arguments ev_ans {E} _.

Definition trace (E : Type -> Type) : Type := list (event E).

(** ** Semantics: the executions of a tree *)

Fixpoint exec {E A} (p : prog E A) (t : trace E) (a : A) : Prop :=
  match p with
  | Ret b => t = [] /\ a = b
  | Vis e k => exists x t', t = Ev e x :: t' /\ exec (k x) t' a
  end.

(** The trace of an execution up to any moment of it. *)
Fixpoint partial {E A} (p : prog E A) (t : trace E) : Prop :=
  t = [] \/ match p with Ret _ => False | Vis e k => exists x t', t = Ev e x :: t' /\ partial (k x) t' end.

Lemma exec_partial {E A} (p : prog E A) t a : exec p t a -> partial p t.
Proof.
  revert t. induction p as [b|X e k IH]; intros t; simpl; [intros [-> _]; by left|].
  intros (x & t' & -> & Hex). right. eauto.
Qed.

(** An execution of a sequence is one of each part, one after the other. *)
Lemma exec_bind {E A B} (p : prog E A) (f : A -> prog E B) t b :
  exec (p ≫= f) t b -> exists t1 t2 a, t = (t1 ++ t2)%list /\ exec p t1 a /\ exec (f a) t2 b.
Proof.
  revert t. induction p as [a|X e k IH]; intros t; simpl; [intros Hex; by exists [], t, a|].
  intros (x & t' & -> & Hex). apply IH in Hex as (t1 & t2 & a & -> & H1 & H2).
  exists (Ev e x :: t1), t2, a. split; [done|]. split; [|done]. by exists x, t1.
Qed.

Lemma exec_call {E X} (e : E X) t x : exec (call e) t x -> t = [Ev e x].
Proof. intros (y & t' & -> & -> & ->). done. Qed.

Lemma exec_mret {E A} (a : A) (t : trace E) b : exec (mret a : prog E A) t b -> t = [] /\ b = a.
Proof. done. Qed.

(** The first part of a sequence: its value, its trace, its execution; the rest
    stays in [H].  [ecall] is for one request. *)
Tactic Notation "ebind" hyp(H) "as" ident(a) ident(t1) ident(Hn) :=
  let t2 := fresh "rest" in apply exec_bind in H as (t1 & t2 & a & -> & Hn & H).
Tactic Notation "ecall" hyp(H) "as" ident(a) :=
  let t1 := fresh "t" in let t2 := fresh "rest" in let Hn := fresh "He" in
  apply exec_bind in H as (t1 & t2 & a & -> & Hn & H); apply exec_call in Hn as ->.

(** ** Weakest precondition over all answers *)

Fixpoint wp {E A} (p : prog E A) (Q : trace E -> A -> Prop) : Prop :=
  match p with
  | Ret a => Q [] a
  | Vis e k => forall x, wp (k x) (fun t a => Q (Ev e x :: t) a)
  end.

Lemma wp_mono {E A} (p : prog E A) (Q Q' : trace E -> A -> Prop) :
  (forall t a, Q t a -> Q' t a) -> wp p Q -> wp p Q'.
Proof.
  revert Q Q'. induction p as [a|X e k IH]; simpl; intros Q Q' HQ Hp; [auto|].
  intros x. eapply IH; [|apply Hp]. auto.
Qed.

Lemma wp_bind {E A B} (p : prog E A) (f : A -> prog E B) Q :
  wp p (fun t a => wp (f a) (fun t' b => Q (t ++ t') b)) -> wp (p ≫= f) Q.
Proof.
  revert Q. induction p as [a|X e k IH]; simpl; intros Q Hp; [done|].
  intros x. apply IH. apply Hp.
Qed.

(** [wp] is exactly "for every execution". *)
Lemma wp_exec {E A} (p : prog E A) Q : wp p Q <-> forall t a, exec p t a -> Q t a.
Proof.
  revert Q. induction p as [a|X e k IH]; intros Q; simpl.
  - split; [by intros ? t b [-> ->]|]. intros H. by apply H.
  - split.
    + intros Hw t a (x & t' & -> & Hex). exact (proj1 (IH x _) (Hw x) t' a Hex).
    + intros H x. apply IH. intros t a Hex. apply H. eauto.
Qed.

Lemma wp_true {E A} (p : prog E A) : wp p (fun _ _ => True).
Proof. apply wp_exec. done. Qed.

(** ** Interpretation against a concrete environment *)

Section Run.
Context {E : Type -> Type} {W : Type}.
Variable handler : forall X, E X -> W -> W * X.

Fixpoint run {A} (p : prog E A) (w : W) : W * trace E * A :=
  match p with
  | Ret a => (w, [], a)
  | Vis e k =>
      let '(w', x) := handler _ e w in
      let '(w'', t, a) := run (k x) w' in
      (w'', Ev e x :: t, a)
  end.

(** A run is one of the executions, so what [wp] proves holds of it. *)
Lemma run_exec {A} (p : prog E A) w : exec p (run p w).1.2 (run p w).2.
Proof.
  revert w. induction p as [a|X e k IH]; intros w; simpl; [done|].
  destruct (handler X e w) as [w' x]. specialize (IH x w').
  destruct (run (k x) w') as [[w'' t] a]. simpl in *. eauto.
Qed.

End Run.

Lemma wp_run {E W A} (handler : forall X, E X -> W -> W * X) (p : prog E A) Q w :
  wp p Q -> Q (run handler p w).1.2 (run handler p w).2.
Proof. intros Hw. apply (proj1 (wp_exec p Q) Hw). apply run_exec. Qed.

(** [wp_cbn]: reduce the program of the goal to its next request, and nothing
    else. *)
Ltac wp_cbn := cbn [wp bind_prog bind_err call mbind prog_bind mret prog_ret].

(** ** Monitors

    A temporal property of a handler is an automaton that reads its trace:
    [step s ev] is the next state, or [None] when the event violates the
    property.  [mon p s Q] says that no execution of [p] from [s] whose
    events satisfy [ok] is ever refused, and that [Q] holds of the final state
    and the result. *)

Section Monitor.
Context {E : Type -> Type} {S : Type}.
Variable step : S -> event E -> option S.
Variable ok : event E -> Prop.

Fixpoint accepts (s : S) (t : trace E) : option S :=
  match t with
  | [] => Some s
  | ev :: t' => match step s ev with Some s' => accepts s' t' | None => None end
  end.

Fixpoint mon {A} (p : prog E A) (s : S) (Q : S -> A -> Prop) : Prop :=
  match p with
  | Ret a => Q s a
  | Vis e k => forall x, ok (Ev e x) -> match step s (Ev e x) with Some s' => mon (k x) s' Q | None => False end
  end.

Lemma mon_mono {A} (p : prog E A) s (Q Q' : S -> A -> Prop) :
  (forall s a, Q s a -> Q' s a) -> mon p s Q -> mon p s Q'.
Proof.
  intros HQ. revert s. induction p as [a|X e k IH]; simpl; intros s Hp; [auto|].
  intros x Hx. specialize (Hp x Hx). destruct (step s (Ev e x)); [by apply IH|done].
Qed.

Lemma mon_bind {A B} (p : prog E A) (f : A -> prog E B) s Q :
  mon p s (fun s' a => mon (f a) s' Q) -> mon (p ≫= f) s Q.
Proof.
  revert s. induction p as [a|X e k IH]; simpl; intros s Hp; [done|].
  intros x Hx. specialize (Hp x Hx). destruct (step s (Ev e x)); [by apply IH|done].
Qed.

(** Every execution of a monitored program is accepted. *)
Lemma mon_exec {A} (p : prog E A) s Q :
  mon p s Q -> forall t a, exec p t a -> Forall ok t -> exists s', accepts s t = Some s' /\ Q s' a.
Proof.
  revert s. induction p as [a|X e k IH]; intros s; simpl; [intros HQ t b [-> ->]; eauto|].
  intros Hm t a (x & t' & -> & Hex) [Hx Hok]%Forall_cons. simpl. specialize (Hm x Hx).
  destruct (step s (Ev e x)) as [s'|]; [|done]. by apply (IH x s').
Qed.

(** A prefix of an execution is accepted when its own events satisfy [ok]. *)
Lemma mon_prefix {A} (p : prog E A) s Q :
  mon p s Q -> forall t1 t2 a, exec p (t1 ++ t2) a -> Forall ok t1 -> is_Some (accepts s t1).
Proof.
  revert s. induction p as [a|X e k IH]; intros s; simpl.
  - intros _ t1 t2 b [Ht _] _. apply app_eq_nil in Ht as [-> _]. by eexists.
  - intros Hm [|ev t1] t2 a (x & t' & Ht & Hex) Hok; [by eexists|]. injection Ht as -> <-.
    apply Forall_cons in Hok as [Hx Hok]. specialize (Hm x Hx). simpl.
    destruct (step s (Ev e x)) as [s'|]; [|done]. by eapply (IH x s').
Qed.

(** Every moment of every execution is accepted, also of executions that never
    end. *)
Lemma mon_partial {A} (p : prog E A) s Q :
  mon p s Q -> forall t, partial p t -> Forall ok t -> is_Some (accepts s t).
Proof.
  revert s. induction p as [a|X e k IH]; intros s; simpl; intros Hm t [->|Ht] Hok; [by eexists|done|by eexists|].
  destruct Ht as (x & t' & -> & Hp). apply Forall_cons in Hok as [Hx Hok]. specialize (Hm x Hx). simpl.
  destruct (step s (Ev e x)) as [s'|]; [|done]. by eapply (IH x s').
Qed.

Lemma accepts_app s t t' :
  accepts s (t ++ t') = match accepts s t with Some s' => accepts s' t' | None => None end.
Proof.
  revert s. induction t as [|ev t IH]; intros s; simpl; [done|]. by destruct (step s ev).
Qed.

End Monitor.

(** The execution of a program against a world, as far as the world answers. *)
Fixpoint play {E S A} (world : forall X, E X -> S -> option (S * X)) (p : prog E A) (s : S) : trace E * option A :=
  match p with
  | Ret a => ([], Some a)
  | Vis e k => match world _ e s with
               | Some (s, x) => let '(t, a) := play world (k x) s in (Ev e x :: t, a)
               | None => ([], None)
               end
  end.

Lemma play_exec {E S A} (world : forall X, E X -> S -> option (S * X)) (p : prog E A) s a :
  (play world p s).2 = Some a -> exec p (play world p s).1 a.
Proof.
  revert s. induction p as [b|X e k IH]; intros s; simpl; [by intros [= ->]|]. destruct (world X e s) as [[s' x]|]; [|done].
  specialize (IH x s'). destruct (play world (k x) s') as [t o]. simpl in *. intros Ho. exists x, t. split; [done|]. by apply IH.
Qed.

Lemma play_partial {E S A} (world : forall X, E X -> S -> option (S * X)) (p : prog E A) s : partial p (play world p s).1.
Proof.
  revert s. induction p as [b|X e k IH]; intros s; simpl; [by left|]. destruct (world X e s) as [[s' x]|]; [|by left].
  specialize (IH x s'). destruct (play world (k x) s') as [t o]. right. by exists x, t.
Qed.

(** ** Signature embeddings

    A handler written against a smaller signature runs in a larger one. *)
Section Lift.
Context {E F : Type -> Type}.
Variable inj : forall X, E X -> F X.

Fixpoint lift {A} (p : prog E A) : prog F A :=
  match p with
  | Ret a => Ret a
  | Vis e k => Vis (inj _ e) (fun x => lift (k x))
  end.

Definition inj_event (ev : event E) : event F := Ev (inj _ (ev_op ev)) (ev_ans ev).

(** The executions of a lifted program are the lifted executions. *)
Lemma lift_exec {A} (p : prog E A) t a :
  exec (lift p) t a <-> exists t', t = inj_event <$> t' /\ exec p t' a.
Proof.
  revert t. induction p as [b|X e k IH]; intros t; simpl.
  - split; [intros [-> ->]; by exists []|]. intros (t' & -> & -> & ->). done.
  - split.
    + intros (x & t' & -> & Hex). apply IH in Hex as (u & -> & Hu).
      exists (Ev e x :: u). split; [done|]. eauto.
    + intros (u & -> & x & u' & -> & Hu). exists x, (inj_event <$> u'). split; [done|]. apply IH. eauto.
Qed.

(** A lifted handler is monitored by reading its own events through [inj]. *)
Lemma mon_lift {A S} (step : S -> event F -> option S) ok (p : prog E A) s (Q : S -> A -> Prop) :
  mon (fun s ev => step s (inj_event ev)) (fun ev => ok (inj_event ev)) p s Q -> mon step ok (lift p) s Q.
Proof.
  revert s. induction p as [a|X e k IH]; intros s; simpl; [done|].
  intros Hm x Hx. specialize (Hm x Hx). unfold inj_event in Hm; simpl in Hm.
  destruct (step s (Ev (inj X e) x)); [by apply IH|done].
Qed.

End Lift.

(** ** Layers

    A component that answers the requests of [E] by a program over [F], keeping
    a state of its own: [interp] runs a client on top of it. *)
Section Interp.
Context {E F : Type -> Type} {S : Type}.
Variable serve : forall X, E X -> S -> prog F (S * X).

Fixpoint interp {A} (p : prog E A) (s : S) : prog F (S * A) :=
  match p with
  | Ret a => Ret (s, a)
  | Vis e k => bind_prog (serve _ e s) (fun r => interp (k r.2) r.1)
  end.

(** The requests of the client, each with the execution that answered it. *)
Inductive served : S -> trace E -> trace F -> S -> Prop :=
| served_nil s : served s [] [] s
| served_cons s X (e : E X) x t s' hi t' s'' :
    exec (serve X e s) t (s', x) -> served s' hi t' s'' -> served s (Ev e x :: hi) (t ++ t')%list s''.

(** What runs on top of the layer is an execution of the client. *)
Lemma interp_exec {A} (p : prog E A) s t s' a :
  exec (interp p s) t (s', a) -> exists hi, exec p hi a /\ served s hi t s'.
Proof.
  revert s t. induction p as [b|X e k IH]; intros s t; simpl.
  - intros [-> [= -> ->]]. exists []. split; [done|]. constructor.
  - intros (t1 & t2 & [s1 x] & -> & H1 & H2)%exec_bind. apply IH in H2 as (hi & Hk & Hs).
    exists (Ev e x :: hi). split; [eauto|]. by econstructor.
Qed.

Lemma served_app s hi t s' hi' t' s'' :
  served s hi t s' -> served s' hi' t' s'' -> served s (hi ++ hi')%list (t ++ t')%list s''.
Proof.
  induction 1 as [|s X e x t s1 hi t1 s2 Hex _ IH]; [done|]. intros H. rewrite <- app_assoc. simpl.
  econstructor; [exact Hex|auto].
Qed.

(** What every answer guarantees of its own events, given an invariant of the
    state, holds of all events. *)
Lemma served_inv (I : S -> Prop) (P : event F -> Prop) :
  (forall X (e : E X) s t s' x, I s -> exec (serve X e s) t (s', x) -> Forall P t /\ I s') ->
  forall s hi t s', served s hi t s' -> I s -> Forall P t /\ I s'.
Proof.
  intros Hstep. induction 1 as [|s X e x t s' hi t' s'' Hex _ IH]; [done|]. intros HI.
  destruct (Hstep _ _ _ _ _ _ HI Hex) as [H1 H2]. destruct (IH H2) as [H3 H4]. split; [by apply Forall_app|done].
Qed.
End Interp.

(** ** Guarded programs

    Every event of every execution satisfies [P], and the result [post]. *)
Section Guarded.
Context {E : Type -> Type}.
Variable P : event E -> Prop.

Definition guarded {A} (p : prog E A) (post : A -> Prop) : Prop :=
  wp p (fun t a => Forall P t /\ post a).

Lemma guarded_ret {A} (a : A) (post : A -> Prop) : post a -> guarded (Ret a) post.
Proof. by split. Qed.

Lemma guarded_call {X A} (e : E X) (k : X -> prog E A) post :
  (forall x, P (Ev e x)) -> (forall x, guarded (k x) post) -> guarded (Vis e k) post.
Proof. intros He Hk x. eapply wp_mono; [|apply Hk]. intros t a [Ht Ha]. split; [by constructor|done]. Qed.

Lemma guarded_mono {A} (p : prog E A) (post post' : A -> Prop) :
  (forall a, post a -> post' a) -> guarded p post -> guarded p post'.
Proof. intros H. apply wp_mono. intros t a [? ?]. auto. Qed.

Lemma guarded_bind {A B} (p : prog E A) (f : A -> prog E B) (mid : A -> Prop) post :
  guarded p mid -> (forall a, mid a -> guarded (f a) post) -> guarded (p ≫= f) post.
Proof.
  intros Hp Hf. apply wp_bind. eapply wp_mono; [|exact Hp]. intros t a [Ht Ha].
  eapply wp_mono; [|exact (Hf a Ha)]. intros t' b [Ht' Hb]. split; [by apply Forall_app|done].
Qed.

(** [post] of the value; an error has no obligation of its own. *)
Definition on_ok {Er A} (post : A -> Prop) (r : result Er A) : Prop :=
  match r with Ok a => post a | Err _ => True end.

Lemma guarded_bind_err {Er A B} (p : prog E (result Er A)) (f : A -> prog E (result Er B)) (mid : A -> Prop) post :
  guarded p (on_ok mid) -> (forall a, mid a -> guarded (f a) (on_ok post)) -> guarded (bind_err p f) (on_ok post).
Proof.
  intros Hp Hf. eapply guarded_bind; [exact Hp|]. intros [a|e]; [apply Hf|]. intros _. by apply guarded_ret.
Qed.
End Guarded.

(** A lifted program is guarded by what its own events satisfy. *)
Lemma guarded_lift {E F A} (inj : forall X, E X -> F X) (P : event F -> Prop) (p : prog E A) post :
  guarded (fun ev => P (inj_event inj ev)) p post -> guarded P (lift inj p) post.
Proof.
  unfold guarded. rewrite !wp_exec. intros H t a (t' & -> & Hex)%lift_exec. destruct (H t' a Hex) as [H1 H2].
  split; [by apply Forall_fmap|done].
Qed.

Lemma guarded_exec {E A} (P : event E -> Prop) (p : prog E A) post t a :
  guarded P p post -> exec p t a -> Forall P t /\ post a.
Proof. intros H. exact (proj1 (wp_exec _ _) H t a). Qed.
