(* ===== verification/GoStrings.v ===== *)
(** * The parts of Go's [strings], [strconv] and [unicode/utf8] the sources use

    A Go string is a byte sequence, here a Rocq [string] whose characters are
    the bytes.  Functions that Go defines on runes are defined on the UTF-8
    byte sequences of those runes; since the lead bytes of the encodings below
    never occur as continuation bytes, reading them byte by byte is exact. *)

From S2P Require Import Prelude.
Local Open Scope string_scope.
Local Open Scope Z_scope.

Definition byte_of (c : ascii) : Z := Z.of_N (N_of_ascii c).
Definition chr (z : Z) : ascii := ascii_of_N (Z.to_N z).
Definition str1 (z : Z) : string := String (chr z) "".

Definition newline : ascii := chr 10.
Definition nl : string := str1 10.

Definition slen (s : string) : Z := Z.of_nat (String.length s).

(** ** Prefixes and suffixes *)

Definition HasPrefix (s pre : string) : bool := String.prefix pre s.

Fixpoint sdrop (n : nat) (s : string) : string :=
  match n, s with
  | O, _ => s
  | S _, "" => ""
  | S n, String _ r => sdrop n r
  end.

Fixpoint stake (n : nat) (s : string) : string :=
  match n, s with
  | O, _ => ""
  | S _, "" => ""
  | S n, String c r => String c (stake n r)
  end.

Definition TrimPrefix (s pre : string) : string :=
  if HasPrefix s pre then sdrop (String.length pre) s else s.

Definition CutPrefix (s pre : string) : string * bool :=
  if HasPrefix s pre then (sdrop (String.length pre) s, true) else (s, false).

Definition HasSuffix (s suf : string) : bool :=
  Nat.leb (String.length suf) (String.length s) &&
  String.eqb (sdrop (String.length s - String.length suf) s) suf.

Definition TrimSuffix (s suf : string) : string :=
  if HasSuffix s suf then stake (String.length s - String.length suf) s else s.

(** ** White space: [unicode.IsSpace] *)

Definition ascii_space (c : ascii) : bool :=
  let b := byte_of c in (b =? 32) || ((9 <=? b) && (b <=? 13)).

(** The length in bytes of the white-space rune at the head of a string, zero
    when its first rune is not white space: the ASCII spaces, U+0085, U+00A0,
    U+1680, U+2000..U+200A, U+2028, U+2029, U+202F, U+205F and U+3000. *)
Definition space_len (s : string) : nat :=
  match s with
  | "" => O
  | String a r =>
      if ascii_space a then 1%nat else
      match r with
      | "" => O
      | String b r' =>
          let a := byte_of a in let b := byte_of b in
          if (a =? 0xC2) && ((b =? 0x85) || (b =? 0xA0)) then 2%nat else
          match r' with
          | "" => O
          | String c _ =>
              let c := byte_of c in
              if ((a =? 0xE1) && (b =? 0x9A) && (c =? 0x80)) ||
                 ((a =? 0xE2) && (b =? 0x80) &&
                    (((0x80 <=? c) && (c <=? 0x8A)) || (c =? 0xA8) || (c =? 0xA9) || (c =? 0xAF))) ||
                 ((a =? 0xE2) && (b =? 0x81) && (c =? 0x9F)) ||
                 ((a =? 0xE3) && (b =? 0x80) && (c =? 0x80))
              then 3%nat else O
          end
      end
  end.

(** Left trim: [skip] counts the bytes of the white-space rune being removed. *)
Fixpoint trim_left (skip : nat) (s : string) : string :=
  match s with
  | "" => ""
  | String _ r =>
      match skip with
      | S k => trim_left k r
      | O => match space_len s with O => s | S k => trim_left k r end
      end
  end.

Definition all_space (s : string) : bool := String.eqb (trim_left 0 s) "".

Fixpoint trim_right (s : string) : string :=
  if all_space s then "" else
  match s with "" => "" | String c r => String c (trim_right r) end.

(** [strings.TrimSpace] *)
Definition TrimSpace (s : string) : string := trim_right (trim_left 0 s).

(** [strings.Fields]: [cur] is the field being read. *)
Fixpoint fields (skip : nat) (cur : string) (s : string) : list string :=
  match s with
  | "" => if String.eqb cur "" then [] else [cur]
  | String c r =>
      match skip with
      | S k => fields k cur r
      | O => match space_len s with
             | O => fields 0 (cur ++ String c "") r
             | S k => ((if String.eqb cur "" then [] else [cur]) ++ fields k "" r)%list
             end
      end
  end.

Definition Fields (s : string) : list string := fields 0 "" s.

(** ** Cut sets, splitting, joining, replacing *)

Fixpoint in_set (c : ascii) (set : string) : bool :=
  match set with "" => false | String d r => Ascii.eqb c d || in_set c r end.

(** [strings.ContainsAny] for an ASCII set. *)
Fixpoint ContainsAny (s set : string) : bool :=
  match s with "" => false | String c r => in_set c set || ContainsAny r set end.

(** [strings.TrimLeft] and [strings.TrimRight] for an ASCII cut set. *)
Fixpoint TrimLeft (s set : string) : string :=
  match s with "" => "" | String c r => if in_set c set then TrimLeft r set else s end.

Fixpoint TrimRight (s set : string) : string :=
  match s with
  | "" => ""
  | String c r =>
      match TrimRight r set with
      | "" => if in_set c set then "" else String c ""
      | r' => String c r'
      end
  end.

(** [strings.Split] on a one-byte separator; never empty. *)
Fixpoint Split (s : string) (sep : ascii) : list string :=
  match s with
  | "" => [""]
  | String c r =>
      if Ascii.eqb c sep then "" :: Split r sep
      else match Split r sep with
           | [] => [String c ""]
           | p :: ps => String c p :: ps
           end
  end.

Fixpoint Join (parts : list string) (sep : string) : string :=
  match parts with
  | [] => ""
  | [p] => p
  | p :: ps => p ++ sep ++ Join ps sep
  end.

(** [strings.ReplaceAll] for a non-empty [old]. *)
Fixpoint replace_all (old new : string) (skip : nat) (s : string) : string :=
  match s with
  | "" => ""
  | String c r =>
      match skip with
      | S k => replace_all old new k r
      | O => if String.prefix old s
             then new ++ replace_all old new (String.length old - 1) r
             else String c (replace_all old new 0 r)
      end
  end.

Definition ReplaceAll (s old new : string) : string := replace_all old new 0 s.

(** The index of the first byte of [s] in the set: [strings.IndexAny] with an
    ASCII set, and [strings.Index] with a one-byte pattern; [None] is -1. *)
Fixpoint IndexAny (s set : string) : option nat :=
  match s with
  | "" => None
  | String c r => if in_set c set then Some O else S <$> IndexAny r set
  end.

(** [strings.LastIndex] with a one-byte pattern; [None] is -1. *)
Fixpoint LastIndexByte (s : string) (c : ascii) : option nat :=
  match s with
  | "" => None
  | String d r =>
      match LastIndexByte r c with
      | Some i => Some (S i)
      | None => if Ascii.eqb d c then Some O else None
      end
  end.

(** ** Case folding *)

Definition ascii_lower (c : ascii) : ascii :=
  let b := byte_of c in if (65 <=? b) && (b <=? 90) then chr (b + 32) else c.

(** [strings.ToLower] on ASCII strings; bytes outside ASCII are left alone. *)
Fixpoint ToLower (s : string) : string :=
  match s with "" => "" | String c r => String (ascii_lower c) (ToLower r) end.

(** Simple case folding of the runes that fold with an ASCII letter: the ASCII
    letters themselves, U+017F (long s) and U+212A (Kelvin sign). *)
Fixpoint fold_case (s : string) : string :=
  match s with
  | "" => ""
  | String a r =>
      match r with
      | String b r' =>
          if (byte_of a =? 0xC5) && (byte_of b =? 0xBF) then String "s" (fold_case r') else
          match r' with
          | String c r'' =>
              if (byte_of a =? 0xE2) && (byte_of b =? 0x84) && (byte_of c =? 0xAA)
              then String "k" (fold_case r'')
              else String (ascii_lower a) (fold_case r)
          | "" => String (ascii_lower a) (fold_case r)
          end
      | "" => String (ascii_lower a) (fold_case r)
      end
  end.

(** [strings.EqualFold], exact whenever one argument is ASCII, as it is at
    every use in the sources modelled here. *)
Definition EqualFold (s t : string) : bool := String.eqb (fold_case s) (fold_case t).

(** ** Numbers *)

Definition is_digit (c : ascii) : bool := (48 <=? byte_of c) && (byte_of c <=? 57).

Definition digit_char (d : Z) : ascii := chr (48 + d).

(** Decimal digits of a non-negative number, most significant first. *)
Fixpoint digits_fuel (fuel : nat) (n : Z) (acc : string) : string :=
  match fuel with
  | O => acc
  | S f => let acc := String (digit_char (n mod 10)) acc in
           if n <? 10 then acc else digits_fuel f (n / 10) acc
  end.

(** [strconv.Itoa]; the fuel is the bit length, which bounds the digits. *)
Definition Itoa (n : Z) : string :=
  let m := Z.abs n in
  (if n <? 0 then "-" else "") ++ digits_fuel (S (Z.to_nat (Z.log2 m))) m "".

Fixpoint all_digits (s : string) : bool :=
  match s with "" => true | String c r => is_digit c && all_digits r end.

Fixpoint digits_value (acc : Z) (s : string) : Z :=
  match s with
  | "" => acc
  | String c r => digits_value (acc * 10 + (byte_of c - 48)) r
  end.

(** [strconv.Atoi]: the value and whether the error is nil.  A syntax error
    yields 0, a range error the nearest representable value. *)
Definition Atoi (s : string) : Z * bool :=
  let '(neg, body) :=
    match s with
    | String c r => if Ascii.eqb c "-" then (true, r) else if Ascii.eqb c "+" then (false, r) else (false, s)
    | "" => (false, s)
    end in
  if String.eqb body "" || negb (all_digits body) then (0, false) else
  let v := digits_value 0 body in
  let v := if neg : bool then - v else v in
  if v <? int64_min then (int64_min, false) else
  if int64_max <? v then (int64_max, false) else (v, true).

(** ** UTF-8 *)

Definition cont_byte (c : ascii) : bool := (0x80 <=? byte_of c) && (byte_of c <=? 0xBF).
Definition in_range (lo hi : Z) (c : ascii) : bool := (lo <=? byte_of c) && (byte_of c <=? hi).

(** [utf8.DecodeRuneInString]: the width of the first rune and whether it is a
    valid encoding; an invalid byte has width 1. *)
Definition decode_rune (s : string) : nat * bool :=
  match s with
  | "" => (0%nat, false)
  | String a r =>
      let a' := byte_of a in
      if a' <? 0x80 then (1%nat, true) else
      if (0xC2 <=? a') && (a' <=? 0xDF) then
        match r with String b _ => if cont_byte b then (2%nat, true) else (1%nat, false) | _ => (1%nat, false) end
      else if (0xE0 <=? a') && (a' <=? 0xEF) then
        match r with
        | String b (String c _) =>
            let lo := if a' =? 0xE0 then 0xA0 else 0x80 in
            let hi := if a' =? 0xED then 0x9F else 0xBF in
            if in_range lo hi b && cont_byte c then (3%nat, true) else (1%nat, false)
        | _ => (1%nat, false)
        end
      else if (0xF0 <=? a') && (a' <=? 0xF4) then
        match r with
        | String b (String c (String d _)) =>
            let lo := if a' =? 0xF0 then 0x90 else 0x80 in
            let hi := if a' =? 0xF4 then 0x8F else 0xBF in
            if in_range lo hi b && cont_byte c && cont_byte d then (4%nat, true) else (1%nat, false)
        | _ => (1%nat, false)
        end
      else (1%nat, false)
  end.

(** [utf8.ValidString] and [utf8.RuneCountInString]; [skip] counts the
    remaining bytes of the rune being read. *)
Fixpoint valid_utf8 (skip : nat) (s : string) : bool :=
  match s with
  | "" => true
  | String _ r =>
      match skip with
      | S k => valid_utf8 k r
      | O => let '(w, ok) := decode_rune s in ok && valid_utf8 (w - 1) r
      end
  end.

Definition ValidString (s : string) : bool := valid_utf8 0 s.

Fixpoint rune_count (skip : nat) (s : string) : Z :=
  match s with
  | "" => 0
  | String _ r =>
      match skip with
      | S k => rune_count k r
      | O => let '(w, _) := decode_rune s in 1 + rune_count (w - 1) r
      end
  end.

Definition RuneCountInString (s : string) : Z := rune_count 0 s.

(** ** Hex *)

Definition hex_digit (d : Z) : ascii := if d <? 10 then chr (48 + d) else chr (87 + d).

Definition hex_byte (b : Z) : string :=
  String (hex_digit (b / 16)) (String (hex_digit (b mod 16)) "").

Fixpoint EncodeToString (bytes : list Z) : string :=
  match bytes with [] => "" | b :: r => hex_byte b ++ EncodeToString r end.

Definition is_hex (c : ascii) : bool :=
  is_digit c || ((97 <=? byte_of c) && (byte_of c <=? 102)).

Fixpoint bytes_of_string (s : string) : list Z :=
  match s with "" => [] | String c r => byte_of c :: bytes_of_string r end.

(** ** Printing and reading numbers *)

Lemma chr_byte z : 0 <= z < 256 -> byte_of (chr z) = z.
Proof.
  intros Hz. unfold byte_of, chr. rewrite N_ascii_embedding; lia.
Qed.

Lemma digit_char_digit d : 0 <= d < 10 -> is_digit (digit_char d) = true /\ byte_of (digit_char d) = 48 + d.
Proof.
  intros Hd. unfold is_digit, digit_char. rewrite chr_byte by lia. split; [|done].
  apply andb_true_intro. split; apply Z.leb_le; lia.
Qed.

Lemma digits_fuel_value fuel n acc :
  0 <= n < 2 ^ Z.of_nat fuel -> (0 < fuel)%nat ->
  digits_value 0 (digits_fuel fuel n acc) = digits_value n acc.
Proof.
  revert n acc. induction fuel as [|f IH]; intros n acc Hn Hf; [lia|]. cbn [digits_fuel].
  destruct (digit_char_digit (n mod 10) (Z.mod_pos_bound n 10 ltac:(lia))) as [_ Hb].
  destruct (Z.ltb_spec n 10) as [Hs|Hs].
  - cbn [digits_value]. rewrite Hb, Z.mod_small by lia. f_equal. lia.
  - rewrite Nat2Z.inj_succ, Z.pow_succ_r in Hn by lia.
    assert (Hd : n = 10 * (n / 10) + n mod 10) by (apply Z.div_mod; lia).
    assert (0 <= n mod 10 < 10) by (apply Z.mod_pos_bound; lia).
    rewrite IH.
    + cbn [digits_value]. rewrite Hb. f_equal. lia.
    + lia.
    + destruct f; [simpl in Hn; lia|lia].
Qed.

Lemma digits_fuel_all fuel n acc :
  0 <= n -> all_digits acc = true -> all_digits (digits_fuel fuel n acc) = true.
Proof.
  revert n acc. induction fuel as [|f IH]; intros n acc Hn Ha; [done|]. cbn [digits_fuel].
  assert (Hacc : all_digits (String (digit_char (n mod 10)) acc) = true).
  { cbn [all_digits]. rewrite Ha, (proj1 (digit_char_digit _ (Z.mod_pos_bound n 10 ltac:(lia)))). done. }
  destruct (n <? 10); [done|]. apply IH; [apply Z.div_pos; lia|done].
Qed.

Lemma digits_fuel_nonempty fuel n acc : (0 < fuel)%nat -> digits_fuel fuel n acc <> "".
Proof.
  revert n acc. induction fuel as [|f IH]; intros n acc Hf; [lia|]. cbn [digits_fuel].
  destruct (n <? 10); [done|]. destruct f; [done|]. apply IH. lia.
Qed.

Lemma log2_fuel m : 0 <= m -> m < 2 ^ Z.of_nat (S (Z.to_nat (Z.log2 m))).
Proof.
  intros Hm. rewrite Nat2Z.inj_succ, Z2Nat.id by apply Z.log2_nonneg.
  destruct (decide (m = 0)) as [->|]; [done|]. apply Z.log2_spec. lia.
Qed.

(** A non-negative number prints as its digits. *)
Lemma Itoa_digits n :
  0 <= n -> all_digits (Itoa n) = true /\ Itoa n <> "" /\ digits_value 0 (Itoa n) = n.
Proof.
  intros Hn. unfold Itoa. destruct (Z.ltb_spec n 0); [lia|]. rewrite Z.abs_eq by done. cbn [String.append].
  split_and!.
  - by apply digits_fuel_all.
  - apply digits_fuel_nonempty. lia.
  - apply digits_fuel_value; [split; [done|by apply log2_fuel]|lia].
Qed.

Lemma Itoa_inj n m : 0 <= n -> 0 <= m -> Itoa n = Itoa m -> n = m.
Proof.
  intros Hn Hm H. destruct (Itoa_digits n Hn) as (_ & _ & <-).
  destruct (Itoa_digits m Hm) as (_ & _ & <-). by rewrite H.
Qed.

Lemma digit_not_sign c : is_digit c = true -> Ascii.eqb c "-" = false /\ Ascii.eqb c "+" = false.
Proof.
  intros H. split; [destruct (Ascii.eqb_spec c "-") as [->|]|destruct (Ascii.eqb_spec c "+") as [->|]]; done.
Qed.

Lemma Atoi_Itoa n : 0 <= n <= int64_max -> Atoi (Itoa n) = (n, true).
Proof.
  intros [Hn Hmax]. destruct (Itoa_digits n Hn) as (Hd & Hne & Hv).
  unfold Atoi. destruct (Itoa n) as [|c r] eqn:Hi; [done|].
  pose proof Hd as Hd'. cbn [all_digits] in Hd'. apply andb_true_iff in Hd' as [Hc _].
  destruct (digit_not_sign c Hc) as [-> ->]. cbn [String.eqb orb]. rewrite Hd, Hv. cbn [negb].
  unfold int64_min. destruct (Z.ltb_spec n (- 2 ^ 63)); [lia|].
  destruct (Z.ltb_spec int64_max n); [lia|done].
Qed.

Lemma sapp_inj_l (s t u : string) : s ++ t = s ++ u -> t = u.
Proof. induction s as [|c s IH]; simpl; [done|]. intros [= ?]. auto. Qed.

(** ** Splitting and joining *)

Lemma sapp_cons c s t : String c s ++ t = String c (s ++ t).
Proof. reflexivity. Qed.

Lemma Split_cons s sep : exists p ps, Split s sep = p :: ps.
Proof.
  destruct s as [|c r]; cbn; [eauto|]. destruct (Ascii.eqb c sep); [eauto|].
  destruct (Split r sep); eauto.
Qed.

Lemma Split_app s r sep : Split (s ++ String sep r) sep = (Split s sep ++ Split r sep)%list.
Proof.
  induction s as [|c s IH].
  - change ("" ++ String sep r) with (String sep r). cbn [Split]. by rewrite Ascii.eqb_refl.
  - rewrite sapp_cons. cbn [Split]. destruct (Ascii.eqb c sep); [by rewrite IH|].
    rewrite IH. destruct (Split_cons s sep) as (p & ps & ->). done.
Qed.

Fixpoint no_byte (sep : ascii) (s : string) : bool :=
  match s with "" => true | String c r => negb (Ascii.eqb c sep) && no_byte sep r end.

Lemma Split_single s sep : no_byte sep s = true -> Split s sep = [s].
Proof.
  induction s as [|c s IH]; cbn [no_byte Split]; [done|]. intros [Hc Hs]%andb_true_iff.
  apply negb_true_iff in Hc. by rewrite Hc, IH.
Qed.

Lemma no_byte_app sep s t : no_byte sep (s ++ t) = no_byte sep s && no_byte sep t.
Proof. induction s as [|c s IH]; [done|]. rewrite sapp_cons. cbn [no_byte]. by rewrite IH, andb_assoc. Qed.

Lemma all_digits_no_byte sep s : is_digit sep = false -> all_digits s = true -> no_byte sep s = true.
Proof.
  intros Hsep. induction s as [|c s IH]; [done|]. cbn [all_digits no_byte].
  intros [Hc Hs]%andb_true_iff. rewrite IH by done. rewrite andb_true_r. apply negb_true_iff.
  destruct (Ascii.eqb_spec c sep) as [->|]; [congruence|done].
Qed.

Lemma Join_Split s sep : Join (Split s sep) (String sep "") = s.
Proof.
  induction s as [|c s IH]; [done|]. cbn [Split].
  destruct (Split_cons s sep) as (p & ps & Hs). rewrite Hs in *.
  destruct (Ascii.eqb_spec c sep) as [->|].
  - change (Join ("" :: p :: ps) (String sep "")) with (String sep (Join (p :: ps) (String sep ""))).
    by rewrite IH.
  - destruct ps as [|q ps]; [cbn in *; by subst|].
    change (Join (String c p :: q :: ps) (String sep "")) with (String c (Join (p :: q :: ps) (String sep ""))).
    by rewrite IH.
Qed.

Lemma Split_inj s t sep : Split s sep = Split t sep -> s = t.
Proof. intros H. by rewrite <- (Join_Split s sep), H, Join_Split. Qed.

Lemma sapp_assoc (a b c : string) : (a ++ b) ++ c = a ++ (b ++ c).
Proof. induction a as [|x a IH]; [done|]. rewrite !sapp_cons. by rewrite IH. Qed.

Lemma digit_space_len c r : is_digit c = true -> space_len (String c r) = 0%nat.
Proof.
  intros Hd. unfold is_digit in Hd. bprop. cbn [space_len].
  assert (Hs : ascii_space c = false) by (unfold ascii_space; bprop; lia). rewrite Hs.
  destruct r as [|b [|d r]]; [done|..];
    assert (H : byte_of c <> 0xC2 /\ byte_of c <> 0xE1 /\ byte_of c <> 0xE2 /\ byte_of c <> 0xE3) by lia;
    destruct H as (H1 & H2 & H3 & H4); apply Z.eqb_neq in H1, H2, H3, H4; rewrite ?H1, ?H2, ?H3, ?H4; done.
Qed.

Lemma digits_trim_left s : all_digits s = true -> trim_left 0 s = s.
Proof. destruct s as [|c s]; [done|]. cbn [all_digits]. intros [Hc _]%andb_true_iff. cbn [trim_left]. by rewrite digit_space_len. Qed.

Lemma digits_trim s : all_digits s = true -> TrimSpace s = s.
Proof.
  intros Hs. unfold TrimSpace. rewrite (digits_trim_left s Hs).
  induction s as [|c s IH]; [done|]. cbn [trim_right]. unfold all_space. rewrite (digits_trim_left _ Hs).
  cbn [String.eqb]. f_equal. apply IH. cbn [all_digits] in Hs. by apply andb_true_iff in Hs as [_ ?].
Qed.

(** ** Sorting *)

(** [sort.Strings]. *)
Fixpoint insert_string (s : string) (l : list string) : list string :=
  match l with
  | [] => [s]
  | x :: r => if String.leb s x then s :: l else x :: insert_string s r
  end.

Definition sort_strings (l : list string) : list string := foldr insert_string [] l.

Lemma insert_string_perm s l : insert_string s l ≡ₚ s :: l.
Proof.
  induction l as [|x l IH]; simpl; [done|]. destruct (String.leb s x); [done|].
  rewrite IH. apply Permutation_swap.
Qed.

Lemma sort_strings_perm l : sort_strings l ≡ₚ l.
Proof. induction l as [|x l IH]; simpl; [done|]. by rewrite insert_string_perm, IH. Qed.

Lemma sort_strings_nil l : sort_strings l = [] <-> l = [].
Proof.
  split; [|by intros ->]. intros H. apply Permutation_nil_r. by rewrite <- H, sort_strings_perm.
Qed.

(** ** Ordering *)

(** Go compares strings by bytes. *)
Definition string_gtb (a b : string) : bool :=
  match String.compare a b with Gt => true | _ => false end.

Lemma string_gtb_asym a b : string_gtb a b = true -> string_gtb b a = false.
Proof. unfold string_gtb. intros H. rewrite (String.compare_antisym b a). by destruct (String.compare a b). Qed.

(** Not being greater is transitive. *)
Lemma string_gtb_trans a b c : string_gtb a b = false -> string_gtb b c = false -> string_gtb a c = false.
Proof.
  unfold string_gtb. revert b c. induction a as [|x a IH]; intros [|y b] [|z c]; cbn [String.compare]; try done.
  unfold Ascii.compare. specialize (IH b c).
  destruct (N.compare_spec (N_of_ascii x) (N_of_ascii y)), (N.compare_spec (N_of_ascii y) (N_of_ascii z)),
    (N.compare_spec (N_of_ascii x) (N_of_ascii z)); try done; try lia; exact IH.
Qed.

Lemma leb_gtb a b : String.leb a b = negb (string_gtb a b).
Proof. unfold String.leb, string_gtb. by destruct (String.compare a b). Qed.

Lemma string_gtb_antisym a b : string_gtb a b = false -> string_gtb b a = false -> a = b.
Proof.
  unfold string_gtb. rewrite (String.compare_antisym b a). destruct (String.compare a b) eqn:E; try done.
  intros _ _. by apply String.compare_eq_iff.
Qed.

Lemma insert_string_comm a b l : insert_string a (insert_string b l) = insert_string b (insert_string a l).
Proof.
  induction l as [|x l IH]; cbn [insert_string]; rewrite ?leb_gtb.
  - destruct (string_gtb a b) eqn:Hab, (string_gtb b a) eqn:Hba; cbn; try done.
    + apply string_gtb_asym in Hab. congruence.
    + by rewrite (string_gtb_antisym a b).
  - destruct (string_gtb a x) eqn:Ha, (string_gtb b x) eqn:Hb; cbn [negb insert_string]; rewrite ?leb_gtb, ?Ha, ?Hb; cbn [negb].
    + by rewrite IH.
    + destruct (string_gtb a b) eqn:Hab; cbn [negb]; [by rewrite ?Ha|].
      by rewrite (string_gtb_trans a b x Hab Hb) in Ha.
    + destruct (string_gtb b a) eqn:Hba; cbn [negb]; [by rewrite ?Hb|].
      by rewrite (string_gtb_trans b a x Hba Ha) in Hb.
    + destruct (string_gtb a b) eqn:Hab, (string_gtb b a) eqn:Hba; cbn [negb]; rewrite ?Ha, ?Hb; cbn [negb]; try done.
      * apply string_gtb_asym in Hab. congruence.
      * by rewrite (string_gtb_antisym a b).
Qed.

(** Sorting forgets the order of its input. *)
#[export] Instance sort_strings_proper : Proper (Permutation ==> eq) sort_strings.
Proof.
  intros l l' Hp. induction Hp as [|x l l' _ IH|x y l|l1 l2 l3 _ IH1 _ IH2]; simpl; [done|by rewrite IH| |congruence].
  apply insert_string_comm.
Qed.

(** ** Lengths *)

Lemma slen_app s t : slen (s ++ t) = slen s + slen t.
Proof.
  unfold slen. induction s as [|c s IH]; [by change ("" ++ t) with t|]. rewrite sapp_cons. cbn [String.length]. lia.
Qed.

Lemma slen_nonneg s : 0 <= slen s.
Proof. unfold slen. lia. Qed.

Lemma slen_stake n s : slen (stake n s) <= Z.of_nat n.
Proof. unfold slen. revert s. induction n as [|n IH]; intros [|c s]; cbn [stake String.length]; try lia. specialize (IH s). lia. Qed.

(** ** Prefixes and joins *)

Lemma CutPrefix_app p s : CutPrefix (p ++ s) p = (s, true).
Proof.
  assert (H : String.prefix p (p ++ s) = true /\ sdrop (String.length p) (p ++ s) = s).
  { induction p as [|c p IH]; [by destruct s|]. rewrite sapp_cons. cbn [String.prefix String.length sdrop].
    by destruct (ascii_dec c c). }
  unfold CutPrefix, HasPrefix. destruct H as [-> ->]. done.
Qed.

Lemma Split_Join l : l <> [] -> Forall (fun s => no_byte "," s = true) l -> Split (Join l ",") "," = l.
Proof.
  intros Hne H. induction H as [|s l Hs _ IH]; [done|]. destruct l as [|p l]; [by apply Split_single|].
  change (Join (s :: p :: l) ",") with (s ++ String "," (Join (p :: l) ",")).
  by rewrite Split_app, Split_single, IH.
Qed.

(** The last separator: what precedes it, and what follows, which has none. *)
Lemma LastIndexByte_none s c : LastIndexByte s c = None <-> no_byte c s = true.
Proof.
  induction s as [|d s IH]; cbn; [done|]. destruct (LastIndexByte s c) as [i|].
  - split; [done|]. intros [_ H]%andb_true_iff. by apply IH in H.
  - rewrite (proj1 IH eq_refl), andb_true_r. destruct (Ascii.eqb d c); done.
Qed.

Lemma LastIndexByte_some s c i :
  LastIndexByte s c = Some i ->
  s = stake i s ++ String c (sdrop (S i) s) /\ no_byte c (sdrop (S i) s) = true /\ slen (stake i s) = Z.of_nat i.
Proof.
  revert i. induction s as [|d s IH]; intros i; cbn [LastIndexByte]; [done|].
  destruct (LastIndexByte s c) as [j|] eqn:Hl.
  - intros [= <-]. destruct (IH j eq_refl) as (Hs & Hn & Hlen). split_and!; [|exact Hn|].
    + exact (f_equal (String d) Hs).
    + unfold slen in *. cbn [String.length stake]. lia.
  - destruct (Ascii.eqb_spec d c) as [->|]; [|done]. intros [= <-]. cbn.
    by apply LastIndexByte_none in Hl.
Qed.

Lemma LastIndexByte_app s c t : no_byte c t = true -> LastIndexByte (s ++ String c t) c = Some (String.length s).
Proof.
  intros Ht. apply LastIndexByte_none in Ht. induction s as [|d s IH].
  - change ("" ++ String c t) with (String c t). cbn [LastIndexByte]. rewrite Ht, Ascii.eqb_refl. done.
  - rewrite sapp_cons. cbn [LastIndexByte String.length]. by rewrite IH.
Qed.

Lemma stake_app_length s t : stake (String.length s) (s ++ t) = s.
Proof. induction s as [|c s IH]; [by destruct t|]. rewrite sapp_cons. cbn [stake String.length]. by rewrite IH. Qed.

Lemma sdrop_app_length s t : sdrop (String.length s) (s ++ t) = t.
Proof. induction s as [|c s IH]; [by destruct t|]. rewrite sapp_cons. exact IH. Qed.

(** The parts of a split hold no separator. *)
Lemma Split_no_byte s sep p : p ∈ Split s sep -> no_byte sep p = true.
Proof.
  revert p. induction s as [|c s IH]; intros p; cbn [Split].
  - by intros ->%list_elem_of_singleton.
  - destruct (Ascii.eqb c sep) eqn:Hc.
    + by intros [->|Hp]%elem_of_cons; [|apply IH].
    + destruct (Split s sep) as [|q qs].
      * intros ->%list_elem_of_singleton. cbn. by rewrite Hc.
      * intros [->|Hp]%elem_of_cons; [|apply IH; by right]. cbn [no_byte]. rewrite Hc. apply IH. left.
Qed.

(** Equal concatenations with first parts of the same length. *)
Lemma sapp_inj_length (a b s t : string) : String.length a = String.length b -> a ++ s = b ++ t -> a = b /\ s = t.
Proof.
  revert b. induction a as [|c a IH]; intros [|d b] Hlen; cbn [String.length] in Hlen; try lia; [by intros H|].
  rewrite !sapp_cons. intros [= -> H]. destruct (IH b ltac:(lia) H) as [-> ->]. done.
Qed.
