(* ===== verification/GoTime.v ===== *)
(** * Go's time instants, durations and RFC 3339 text

    What the controller uses of package [time]: instants (nanoseconds since
    the Unix epoch, UTC), [Sub] and [Add], and [Parse]/[Format] with the
    [RFC3339] layout.  [Parse] follows the general layout parser, which accepts
    more than the standard: a one-digit hour, a fraction introduced by a comma
    or a period, and offsets up to 24 hours and 60 minutes. *)

From S2P Require Import Prelude GoStrings.
Local Open Scope string_scope.
Local Open Scope Z_scope.

(** ** Instants and durations *)

Definition Time : Type := Z.          (* nanoseconds since 1970-01-01T00:00:00Z *)
Definition Duration : Type := Z.      (* nanoseconds, 64-bit *)

Definition Second : Z := 1000000000.
Definition Minute : Z := 60 * Second.
Definition Hour : Z := 60 * Minute.

(** [t.After(u)]. *)
Definition After (t u : Time) : bool := u <? t.

(** The zero [time.Time] is 1 January of year 1. *)
Definition zero_time : Time := -62135596800 * Second.

(** [t.Sub(u)] saturates at the ends of the duration range. *)
Definition Sub (t u : Time) : Duration :=
  let d := t - u in
  if d <? int64_min then int64_min else if int64_max <? d then int64_max else d.

Definition Add (t : Time) (d : Duration) : Time := t + d.

(** ** Durations *)

(** The digits of a fraction of [prec] places, without trailing zeros. *)
Fixpoint frac_text (prec : nat) (v : Z) : string :=
  match prec with
  | O => ""
  | S p =>
      let unit := 10 ^ Z.of_nat p in
      if v =? 0 then "" else String (digit_char (v / unit)) (frac_text p (v mod unit))
  end.

Definition point_frac (prec : nat) (v : Z) : string := if v =? 0 then "" else "." ++ frac_text prec v.

(** [time.Duration.String]. *)
Definition DurationString (d : Duration) : string :=
  let u := Z.abs d in
  let sign := if d <? 0 then "-" else "" in
  if u =? 0 then "0s" else
  if u <? Second then
    let '(prec, unit) := if u <? 1000 then (0%nat, "ns") else if u <? 1000000 then (3%nat, "µs") else (6%nat, "ms") in
    let base := 10 ^ Z.of_nat prec in
    sign ++ Itoa (u / base) ++ point_frac prec (u mod base) ++ unit
  else
    let s := u / Second in
    let m := s / 60 in
    let h := m / 60 in
    sign ++ (if h =? 0 then "" else Itoa h ++ "h") ++ (if m =? 0 then "" else Itoa (m mod 60) ++ "m") ++
    Itoa (s mod 60) ++ point_frac 9 (u mod Second) ++ "s".

Example duration_examples :
  map DurationString [6 * Hour; 90 * Second; 1500 * 1000000; 2 * 1000000; -1100; 5; Hour + 30 * Second; 0] =
  ["6h0m0s"; "1m30s"; "1.5s"; "2ms"; "-1.1µs"; "5ns"; "1h0m30s"; "0s"].
Proof. vm_compute. reflexivity. Qed.

(** ** The civil calendar *)

Definition is_leap (y : Z) : bool := (y mod 4 =? 0) && (negb (y mod 100 =? 0) || (y mod 400 =? 0)).

Definition days_in (y m : Z) : Z :=
  if m =? 2 then (if is_leap y then 29 else 28) else
  if (m =? 4) || (m =? 6) || (m =? 9) || (m =? 11) then 30 else 31.

(** Days since the epoch of a date, and the date of a day, in eras of 400
    years that start on 1 March. *)
Definition days_from_civil (y m d : Z) : Z :=
  let y := if m <=? 2 then y - 1 else y in
  let era := y / 400 in
  let yoe := y - era * 400 in
  let mp := (m + 9) mod 12 in
  let doy := (153 * mp + 2) / 5 + d - 1 in
  let doe := yoe * 365 + yoe / 4 - yoe / 100 + doy in
  era * 146097 + doe - 719468.

Definition civil_of_doe (doe : Z) : Z * Z * Z :=
  let yoe := (doe - doe / 1460 + doe / 36524 - doe / 146096) / 365 in
  let doy := doe - (365 * yoe + yoe / 4 - yoe / 100) in
  let mp := (5 * doy + 2) / 153 in
  let d := doy - (153 * mp + 2) / 5 + 1 in
  let m := if mp <? 10 then mp + 3 else mp - 9 in
  (if m <=? 2 then yoe + 1 else yoe, m, d).

Definition civil_from_days (z : Z) : Z * Z * Z :=
  let z := z + 719468 in
  let era := z / 146097 in
  let '(y, m, d) := civil_of_doe (z - era * 146097) in
  (y + era * 400, m, d).

(** ** Formatting *)

Definition pad2 (n : Z) : string := String (digit_char (n / 10 mod 10)) (String (digit_char (n mod 10)) "").

(** The year, zero-padded to four digits. *)
Definition pad4 (n : Z) : string :=
  if n <? 0 then "-" ++ (if - n <? 10000 then pad2 (- n / 100) ++ pad2 (- n) else Itoa (- n)) else
  if n <? 10000 then pad2 (n / 100) ++ pad2 n else Itoa n.

(** [t.UTC().Format(time.RFC3339)]: the fraction of a second is dropped. *)
Definition FormatRFC3339 (t : Time) : string :=
  let secs := t / Second in
  let day := secs / 86400 in
  let sod := secs mod 86400 in
  let '(y, m, d) := civil_from_days day in
  pad4 y ++ "-" ++ pad2 m ++ "-" ++ pad2 d ++ "T" ++
  pad2 (sod / 3600) ++ ":" ++ pad2 (sod / 60 mod 60) ++ ":" ++ pad2 (sod mod 60) ++ "Z".

(** ** Parsing *)

Definition digit_of (c : ascii) : option Z := if is_digit c then Some (byte_of c - 48) else None.

(** Exactly two digits. *)
Definition get2 (s : string) : option (Z * string) :=
  match s with
  | String a (String b r) => x ← digit_of a; y ← digit_of b; Some (10 * x + y, r)
  | _ => None
  end.

(** One or two digits, as the hour of the layout allows. *)
Definition get12 (s : string) : option (Z * string) :=
  match s with
  | String a (String b r) =>
      x ← digit_of a; Some (match digit_of b with Some y => (10 * x + y, r) | None => (x, String b r) end)
  | String a r => x ← digit_of a; Some (x, r)
  | "" => None
  end.

Definition lit (c : ascii) (s : string) : option string :=
  match s with String d r => if Ascii.eqb c d then Some r else None | "" => None end.

Definition in_bounds (lo hi v : Z) : option unit := if (lo <=? v) && (v <=? hi) then Some tt else None.

(** The leading digits of a fraction: the first nine, scaled to nanoseconds;
    further digits are read and dropped. *)
Fixpoint frac_digits (s : string) (scale acc : Z) : Z * string :=
  match s with
  | String c r => match digit_of c with Some v => frac_digits r (scale / 10) (acc + v * scale) | None => (acc, s) end
  | "" => (acc, s)
  end.

Definition get_fraction (s : string) : Z * string :=
  match s with
  | String c (String d r) =>
      if (Ascii.eqb c "." || Ascii.eqb c ",") && is_digit d
      then frac_digits (String d r) 100000000 0 else (0, s)
  | _ => (0, s)
  end.

(** "Z" or a signed offset, in seconds. *)
Definition get_zone (s : string) : option (Z * string) :=
  match s with
  | String c r =>
      if Ascii.eqb c "Z" then Some (0, r) else
      if Ascii.eqb c "+" || Ascii.eqb c "-" then
        '(hh, r) ← get2 r; r ← lit ":" r; '(mm, r) ← get2 r;
        _ ← in_bounds 0 24 hh; _ ← in_bounds 0 60 mm;
        let off := hh * 3600 + mm * 60 in
        Some (if Ascii.eqb c "-" then - off else off, r)
      else None
  | "" => None
  end.

(** [time.Parse(time.RFC3339, s)]. *)
Definition ParseRFC3339 (s : string) : option Time :=
  '(hi, s) ← get2 s; '(lo, s) ← get2 s; let y := 100 * hi + lo in
  s ← lit "-" s; '(m, s) ← get2 s; _ ← in_bounds 1 12 m;
  s ← lit "-" s; '(d, s) ← get2 s;
  s ← lit "T" s; '(hh, s) ← get12 s; _ ← in_bounds 0 23 hh;
  s ← lit ":" s; '(mi, s) ← get2 s; _ ← in_bounds 0 59 mi;
  s ← lit ":" s; '(ss, s) ← get2 s; _ ← in_bounds 0 59 ss;
  let '(ns, s) := get_fraction s in
  '(off, s) ← get_zone s;
  match s with
  | "" => _ ← in_bounds 1 (days_in y m) d;
          Some ((days_from_civil y m d * 86400 + hh * 3600 + mi * 60 + ss - off) * Second + ns)
  | _ => None
  end.

(** ** The calendar round trip *)

(** The year of an era and the day of that year. *)
Lemma yoe_bounds doe :
  0 <= doe < 146097 ->
  let yoe := (doe - doe / 1460 + doe / 36524 - doe / 146096) / 365 in
  0 <= yoe <= 399 /\ 0 <= doe - (365 * yoe + yoe / 4 - yoe / 100) <= 365.
Proof. intros H yoe. subst yoe. Z.to_euclidean_division_equations. lia. Qed.

(** The last day of a March-based year exists only before a leap day's year
    ends: it is 29 February. *)
Lemma yoe_leap doe :
  0 <= doe < 146097 ->
  let yoe := (doe - doe / 1460 + doe / 36524 - doe / 146096) / 365 in
  doe - (365 * yoe + yoe / 4 - yoe / 100) = 365 -> is_leap (yoe + 1) = true.
Proof.
  intros H yoe. subst yoe. unfold is_leap. set (yoe := (doe - doe / 1460 + doe / 36524 - doe / 146096) / 365).
  intros Hd. apply andb_true_intro. split; [|apply orb_true_intro; destruct (Z.eq_dec ((yoe + 1) mod 100) 0); [right|left]];
    bprop; subst yoe; Z.to_euclidean_division_equations; lia.
Qed.

(** The month and day of each day of a March-based year, by evaluation. *)
Definition doy_ok (doy : Z) : bool :=
  let mp := (5 * doy + 2) / 153 in
  let d := doy - (153 * mp + 2) / 5 + 1 in
  let m := if mp <? 10 then mp + 3 else mp - 9 in
  (1 <=? m) && (m <=? 12) && (1 <=? d) && ((153 * ((m + 9) mod 12) + 2) / 5 + d - 1 =? doy) &&
  (d <=? days_in 1 m + (if doy =? 365 then 1 else 0)) && ((negb (doy =? 365)) || (m =? 2)).

Fixpoint all_below (n : nat) (f : Z -> bool) (z : Z) : bool :=
  match n with O => true | S n => f z && all_below n f (z + 1) end.

Lemma all_below_spec n f z : all_below n f z = true -> forall x, z <= x < z + Z.of_nat n -> f x = true.
Proof.
  revert z. induction n as [|n IH]; intros z; cbn [all_below]; [lia|].
  intros [Hz Hr]%andb_true_iff x Hx. destruct (decide (x = z)) as [->|]; [done|]. apply (IH _ Hr). lia.
Qed.

Lemma doy_all doy : 0 <= doy <= 365 -> doy_ok doy = true.
Proof. intros H. apply (all_below_spec 366 doy_ok 0); [vm_compute; reflexivity|lia]. Qed.

Lemma days_in_leap y m : days_in 1 m <= days_in y m /\ (is_leap y = true -> days_in y 2 = 29).
Proof. unfold days_in. split; [repeat case_match; cbn; try lia; discriminate|by intros ->]. Qed.

(** Every day of an era has a valid date that names it. *)
Lemma doe_roundtrip doe y m d :
  0 <= doe < 146097 -> civil_of_doe doe = (y, m, d) ->
  1 <= m <= 12 /\ 1 <= d <= days_in y m /\ days_from_civil y m d = doe - 719468.
Proof.
  intros Hdoe. pose proof (yoe_bounds doe Hdoe) as [Hy Hdoy]. pose proof (yoe_leap doe Hdoe) as Hleap.
  unfold civil_of_doe. cbv zeta in *. set (yoe := (doe - doe / 1460 + doe / 36524 - doe / 146096) / 365) in *.
  set (doy := doe - (365 * yoe + yoe / 4 - yoe / 100)) in *.
  pose proof (doy_all doy Hdoy) as Hok. unfold doy_ok in Hok.
  set (m0 := if (5 * doy + 2) / 153 <? 10 then _ else _) in *.
  set (d0 := doy - (153 * ((5 * doy + 2) / 153) + 2) / 5 + 1) in *. intros [= <- <- <-]. bprop.
  destruct Hok as (((((Hm1 & Hm2) & Hd1) & Hn) & Hd2) & Hf). split; [lia|]. split.
  - split; [lia|]. revert Hd2 Hf. destruct (Z.eqb_spec doy 365) as [H365|]; [|intros; pose proof (days_in_leap (if m0 <=? 2 then yoe + 1 else yoe) m0); lia].
    intros Hd2 [?|Hm]; [lia|]. rewrite Hm in *. cbn [Z.leb Z.compare Pos.compare Pos.compare_cont].
    rewrite (proj2 (days_in_leap _ 2) (Hleap H365)). change (days_in 1 2) with 28 in Hd2. lia.
  - unfold days_from_civil. replace (if m0 <=? 2 then (if m0 <=? 2 then yoe + 1 else yoe) - 1 else if m0 <=? 2 then yoe + 1 else yoe)
      with yoe by (destruct (m0 <=? 2); lia).
    rewrite (Z.div_small yoe 400) by lia. replace (yoe - 0 * 400) with yoe by lia. subst doy. lia.
Qed.

Lemma is_leap_era y e : is_leap (y + e * 400) = is_leap y.
Proof.
  unfold is_leap. replace (y + e * 400) with (y + (e * 100) * 4) at 1 by lia. rewrite Z.mod_add by lia.
  replace (y + e * 400) with (y + (e * 4) * 100) at 1 by lia. rewrite Z.mod_add by lia.
  by rewrite Z.mod_add by lia.
Qed.

Lemma days_from_civil_era y m d e : days_from_civil (y + e * 400) m d = days_from_civil y m d + e * 146097.
Proof.
  unfold days_from_civil. set (y0 := if m <=? 2 then y - 1 else y).
  replace (if m <=? 2 then y + e * 400 - 1 else y + e * 400) with (y0 + e * 400) by (subst y0; case_match; lia).
  rewrite Z.div_add by lia.
  replace (y0 + e * 400 - (y0 / 400 + e) * 400) with (y0 - y0 / 400 * 400) by lia. lia.
Qed.

(** A day's date is a valid one and names that day. *)
Lemma civil_roundtrip z y m d :
  civil_from_days z = (y, m, d) ->
  1 <= m <= 12 /\ 1 <= d <= days_in y m /\ days_from_civil y m d = z.
Proof.
  unfold civil_from_days. set (era := (z + 719468) / 146097). set (doe := z + 719468 - era * 146097).
  assert (Hdoe : 0 <= doe < 146097).
  { subst doe era. pose proof (Z.mod_pos_bound (z + 719468) 146097 ltac:(lia)).
    pose proof (Z.div_mod (z + 719468) 146097 ltac:(lia)). lia. }
  destruct (civil_of_doe doe) as [[y0 m0] d0] eqn:Hc. intros [= <- <- <-].
  destruct (doe_roundtrip doe y0 m0 d0 Hdoe Hc) as (Hm & Hd & He).
  rewrite days_from_civil_era. unfold days_in in *. rewrite is_leap_era. lia.
Qed.

(** ** The text round trip *)

Lemma digit_of_char d : 0 <= d < 10 -> digit_of (digit_char d) = Some d.
Proof. intros Hd. unfold digit_of. destruct (digit_char_digit d Hd) as [-> ->]. f_equal. lia. Qed.

Lemma pad2_app n r : pad2 n ++ r = String (digit_char (n / 10 mod 10)) (String (digit_char (n mod 10)) r).
Proof. reflexivity. Qed.

Lemma lit_app c s : lit c (String c "" ++ s) = Some s.
Proof. change (String c "" ++ s) with (String c s). unfold lit. by rewrite Ascii.eqb_refl. Qed.

Lemma get2_pad2 n r : 0 <= n < 100 -> get2 (pad2 n ++ r) = Some (n, r).
Proof.
  intros Hn. rewrite pad2_app. unfold get2.
  rewrite !digit_of_char by (apply Z.mod_pos_bound; lia). cbn [mbind option_bind].
  f_equal. f_equal. rewrite (Z.mod_small (n / 10)); [|split; [apply Z.div_pos; lia|apply Z.div_lt_upper_bound; lia]].
  pose proof (Z.div_mod n 10 ltac:(lia)). lia.
Qed.

Lemma get12_pad2 n r : 0 <= n < 100 -> get12 (pad2 n ++ r) = Some (n, r).
Proof.
  intros Hn. rewrite pad2_app. unfold get12.
  rewrite !digit_of_char by (apply Z.mod_pos_bound; lia). cbn [mbind option_bind].
  f_equal. f_equal. rewrite (Z.mod_small (n / 10)); [|split; [apply Z.div_pos; lia|apply Z.div_lt_upper_bound; lia]].
  pose proof (Z.div_mod n 10 ltac:(lia)). lia.
Qed.

Lemma in_bounds_ok lo hi v : lo <= v <= hi -> in_bounds lo hi v = Some tt.
Proof. intros H. unfold in_bounds. destruct (Z.leb_spec lo v), (Z.leb_spec v hi); [done|lia..]. Qed.

Lemma days_in_bound y m : days_in y m <= 31.
Proof. unfold days_in. repeat case_match; lia. Qed.


Lemma pad2_mod100 n : pad2 n = pad2 (n mod 100).
Proof.
  unfold pad2. assert (H : n / 10 mod 10 = (n mod 100) / 10 mod 10 /\ n mod 10 = (n mod 100) mod 10)
    by (split; Z.to_euclidean_division_equations; lia).
  by destruct H as [<- <-].
Qed.

Lemma pad4_split y : 0 <= y <= 9999 -> pad4 y = pad2 (y / 100) ++ pad2 (y mod 100).
Proof.
  intros Hy. unfold pad4. destruct (Z.ltb_spec y 0); [lia|]. destruct (Z.ltb_spec y 10000); [|lia].
  by rewrite (pad2_mod100 y).
Qed.

Definition year_of (t : Time) : Z := (civil_from_days (t / Second / 86400)).1.1.

(** Formatting and parsing loses exactly the fraction of a second. *)
Lemma parse_format t :
  0 <= year_of t <= 9999 -> ParseRFC3339 (FormatRFC3339 t) = Some (t / Second * Second).
Proof.
  unfold year_of, FormatRFC3339. set (secs := t / Second). set (sod := secs mod 86400).
  destruct (civil_from_days (secs / 86400)) as [[y m] d] eqn:Hc. cbn [fst]. intros Hy.
  destruct (civil_roundtrip _ _ _ _ Hc) as (Hm & Hd & Hdays). pose proof (days_in_bound y m) as Hd31.
  assert (Hsod : 0 <= sod < 86400) by (apply Z.mod_pos_bound; lia).
  assert (Hh : 0 <= sod / 3600 <= 23) by (Z.to_euclidean_division_equations; lia).
  assert (Hmi : 0 <= sod / 60 mod 60 < 60) by (apply Z.mod_pos_bound; lia).
  assert (Hs : 0 <= sod mod 60 < 60) by (apply Z.mod_pos_bound; lia).
  assert (Hy1 : 0 <= y / 100 < 100) by (Z.to_euclidean_division_equations; lia).
  assert (Hy2 : 0 <= y mod 100 < 100) by (apply Z.mod_pos_bound; lia).
  rewrite pad4_split, sapp_assoc by done. unfold ParseRFC3339.
  repeat (first [rewrite get2_pad2 by lia | rewrite get12_pad2 by lia | rewrite lit_app];
    cbn [mbind option_bind]).
  cbn [get_fraction get_zone Ascii.eqb Bool.eqb mbind option_bind andb orb].
  replace (100 * (y / 100) + y mod 100) with y by (pose proof (Z.div_mod y 100); lia).
  rewrite (in_bounds_ok 1 12), (in_bounds_ok 0 23), !(in_bounds_ok 0 59), (in_bounds_ok 1 (days_in y m)) by lia.
  cbn [mbind option_bind]. rewrite Hdays. subst sod.
  assert (secs mod 86400 = secs mod 86400 / 3600 * 3600 + secs mod 86400 / 60 mod 60 * 60 + (secs mod 86400) mod 60)
    by (Z.to_euclidean_division_equations; lia).
  pose proof (Z.div_mod secs 86400 ltac:(lia)). f_equal. lia.
Qed.
