(* ===== verification/Regex.v ===== *)
(** * The regular expressions of the sources (Go's [regexp], leftmost-first)

    A backtracking matcher with capture groups and leftmost-first priority,
    the semantics of [regexp.FindStringSubmatch] and
    [FindAllStringSubmatchIndex], over the constructs the sources' patterns
    use.  [den] is the declarative meaning of a pattern; [match_re_sound] and
    [match_re_complete] say the matcher finds a match exactly when the
    meaning has one. *)

From S2P Require Import Prelude GoStrings.
Local Open Scope string_scope.
Local Open Scope Z_scope.

(** ** Patterns *)

Inductive re : Type :=
| REps
| RSet (f : ascii -> bool)          (* one byte of a class *)
| RSeq (r1 r2 : re)
| RAlt (r1 r2 : re)                 (* r1 preferred *)
| RStar (r : re)                    (* greedy *)
| RGroup (i : nat) (r : re)         (* capture group i *)
| RWordB                            (* \b, ASCII *)
| RBegin                            (* ^ *)
| REnd.                             (* $ *)

Definition RPlus (r : re) : re := RSeq r (RStar r).
Definition ROpt (r : re) : re := RAlt r REps.

Fixpoint RTimes (n : nat) (r : re) : re :=
  match n with O => REps | S O => r | S n => RSeq r (RTimes n r) end.

(** [r{lo,lo+n}], greedy. *)
Fixpoint RUpTo (n : nat) (r : re) : re :=
  match n with O => REps | S n => ROpt (RSeq r (RUpTo n r)) end.

Definition RChar (c : ascii) : re := RSet (Ascii.eqb c).

Fixpoint RLit (s : string) : re :=
  match s with
  | "" => REps
  | String c "" => RChar c
  | String c r => RSeq (RChar c) (RLit r)
  end.

Fixpoint RAlts (rs : list re) : re :=
  match rs with [] => RSet (fun _ => false) | [r] => r | r :: rs => RAlt r (RAlts rs) end.

Fixpoint RSeqs (rs : list re) : re :=
  match rs with [] => REps | [r] => r | r :: rs => RSeq r (RSeqs rs) end.

(** ** States *)

Record mstate := MState {
  st_pos : nat;                        (* byte offset *)
  st_prev : option ascii;              (* the byte before it *)
  st_rest : string;                    (* the text after it *)
  st_caps : list (nat * (nat * nat))   (* groups, latest first *)
}.

Definition start_state (s : string) : mstate := MState 0 None s [].

Definition advance (st : mstate) (c : ascii) (r : string) : mstate :=
  MState (S (st_pos st)) (Some c) r (st_caps st).

Definition set_cap (i : nat) (b : nat) (st : mstate) : mstate :=
  MState (st_pos st) (st_prev st) (st_rest st) ((i, (b, st_pos st)) :: st_caps st).

Definition word_char (c : ascii) : bool :=
  let b := byte_of c in
  ((48 <=? b) && (b <=? 57)) || ((65 <=? b) && (b <=? 90)) || ((97 <=? b) && (b <=? 122)) || (b =? 95).

Definition head_char (s : string) : option ascii :=
  match s with "" => None | String c _ => Some c end.

Definition is_word (o : option ascii) : bool := match o with Some c => word_char c | None => false end.

Definition at_boundary (st : mstate) : bool :=
  xorb (is_word (st_prev st)) (is_word (head_char (st_rest st))).

(** ** Matcher *)

Fixpoint m_re (r : re) (k : mstate -> option mstate) (st : mstate) : option mstate :=
  match r with
  | REps => k st
  | RSet f =>
      match st_rest st with
      | "" => None
      | String c rest => if f c then k (advance st c rest) else None
      end
  | RSeq r1 r2 => m_re r1 (m_re r2 k) st
  | RAlt r1 r2 => match m_re r1 k st with Some x => Some x | None => m_re r2 k st end
  | RStar r =>
      (fix loop (n : nat) (st : mstate) : option mstate :=
         match n with
         | O => k st
         | S n =>
             match m_re r (fun st' => if Nat.ltb (st_pos st) (st_pos st') then loop n st' else None) st with
             | Some x => Some x
             | None => k st
             end
         end) (String.length (st_rest st)) st
  | RGroup i r => m_re r (fun st' => k (set_cap i (st_pos st) st')) st
  | RWordB => if at_boundary st then k st else None
  | RBegin => if Nat.eqb (st_pos st) 0 then k st else None
  | REnd => match st_rest st with "" => k st | _ => None end
  end.

(** An anchored match at the current position. *)
Definition match_at (r : re) (st : mstate) : option mstate := m_re r Some st.

(** The leftmost match at or after the current position: the state where the
    match starts (its groups cleared) and the state where it ends. *)
Fixpoint find_from (r : re) (s : string) (pos : nat) (prev : option ascii) : option (mstate * mstate) :=
  let st := MState pos prev s [] in
  match match_at r st with
  | Some st' => Some (st, st')
  | None => match s with
            | "" => None
            | String c rest => find_from r rest (S pos) (Some c)
            end
  end.

(** [FindStringSubmatch]: the end state of the leftmost match. *)
Definition FindStringSubmatch (r : re) (s : string) : option mstate :=
  snd <$> find_from r s 0 None.

Definition MatchString (r : re) (s : string) : bool :=
  match find_from r s 0 None with Some _ => true | None => false end.

(** [FindAllStringSubmatchIndex(s, -1)] for patterns that never match the
    empty string; the fuel is the length of the text. *)
Fixpoint find_all (fuel : nat) (r : re) (s : string) (pos : nat) (prev : option ascii) :
    list (mstate * mstate) :=
  match fuel with
  | O => []
  | S n =>
      match find_from r s pos prev with
      | None => []
      | Some (b, e) => (b, e) :: find_all n r (st_rest e) (st_pos e) (st_prev e)
      end
  end.

Definition FindAll (r : re) (s : string) : list (mstate * mstate) :=
  find_all (S (String.length s)) r s 0 None.

(** The text of a byte range, and of a capture group. *)
Definition substr (s : string) (b e : nat) : string := stake (e - b) (sdrop b s).

Fixpoint lookup_cap (i : nat) (caps : list (nat * (nat * nat))) : option (nat * nat) :=
  match caps with
  | [] => None
  | (j, be) :: r => if Nat.eqb i j then Some be else lookup_cap i r
  end.

Definition group (s : string) (i : nat) (st : mstate) : string :=
  match lookup_cap i (st_caps st) with Some (b, e) => substr s b e | None => "" end.

Definition group_set (i : nat) (st : mstate) : bool :=
  match lookup_cap i (st_caps st) with Some _ => true | None => false end.

Definition full_match (s : string) (be : mstate * mstate) : string :=
  substr s (st_pos be.1) (st_pos be.2).

(** ** Declarative meaning *)

Inductive star_den (R : mstate -> mstate -> Prop) : mstate -> mstate -> Prop :=
| star_done st : star_den R st st
| star_more st st1 st2 :
    R st st1 -> (st_pos st < st_pos st1)%nat -> star_den R st1 st2 -> star_den R st st2.

Fixpoint den (r : re) (st st' : mstate) : Prop :=
  match r with
  | REps => st' = st
  | RSet f => exists c rest, st_rest st = String c rest /\ f c = true /\ st' = advance st c rest
  | RSeq r1 r2 => exists st1, den r1 st st1 /\ den r2 st1 st'
  | RAlt r1 r2 => den r1 st st' \/ den r2 st st'
  | RStar r => star_den (den r) st st'
  | RGroup i r => exists st1, den r st st1 /\ st' = set_cap i (st_pos st) st1
  | RWordB => at_boundary st = true /\ st' = st
  | RBegin => st_pos st = 0%nat /\ st' = st
  | REnd => st_rest st = "" /\ st' = st
  end.

(** A match consumes text and never moves back. *)
Lemma den_length r st st' :
  den r st st' ->
  (st_pos st' + String.length (st_rest st') = st_pos st + String.length (st_rest st))%nat /\
  (st_pos st <= st_pos st')%nat.
Proof.
  revert st st'. induction r as [|f|r1 IH1 r2 IH2|r1 IH1 r2 IH2|r IH|i r IH| | |];
    simpl; intros st st'.
  - intros ->. lia.
  - intros (c & rest & Hr & _ & ->). rewrite Hr. simpl. lia.
  - intros (st1 & [? ?]%IH1 & [? ?]%IH2). lia.
  - intros [?%IH1|?%IH2]; done.
  - induction 1 as [st|st st1 st2 [? ?]%IH ? _ [? ?]]; [lia|]. lia.
  - intros (st1 & [? ?]%IH & ->). simpl. lia.
  - intros [_ ->]. lia.
  - intros [_ ->]. lia.
  - intros [_ ->]. lia.
Qed.

Lemma m_re_sound r k st x : m_re r k st = Some x -> exists st', den r st st' /\ k st' = Some x.
Proof.
  revert k st x. induction r as [|f|r1 IH1 r2 IH2|r1 IH1 r2 IH2|r IH|i r IH| | |];
    simpl; intros k st x.
  - eauto.
  - destruct (st_rest st) as [|c rest] eqn:Hr; [done|]. destruct (f c) eqn:Hf; [|done]. eauto 8.
  - intros (st1 & ? & (st2 & ? & ?)%IH2)%IH1. eauto.
  - destruct (m_re r1 k st) eqn:H1.
    + intros [= ->]. apply IH1 in H1 as (st' & ? & ?). eauto.
    + intros (st' & ? & ?)%IH2. eauto.
  - generalize (String.length (st_rest st)) as n. intros n. revert st.
    induction n as [|n IHn]; intros st; [eauto using star_den|].
    destruct (m_re r _ st) eqn:H1; [|eauto using star_den].
    intros [= ->]. apply IH in H1 as (st1 & Hd & H1).
    destruct (Nat.ltb_spec (st_pos st) (st_pos st1)); [|done].
    apply IHn in H1 as (st2 & ? & ?). eauto using star_den.
  - intros (st1 & ? & ?)%IH. eauto.
  - destruct (at_boundary st); [eauto|done].
  - destruct (Nat.eqb_spec (st_pos st) 0); [eauto|done].
  - destruct (st_rest st); [eauto|done].
Qed.

Lemma m_re_complete r k st st' :
  den r st st' -> is_Some (k st') -> is_Some (m_re r k st).
Proof.
  revert k st st'. induction r as [|f|r1 IH1 r2 IH2|r1 IH1 r2 IH2|r IH|i r IH| | |];
    simpl; intros k st st'.
  - by intros ->.
  - intros (c & rest & -> & -> & ->). done.
  - intros (st1 & H1 & H2) Hk. eapply IH1; [done|]. by eapply IH2.
  - intros [H1|H2] Hk.
    + destruct (IH1 k st st' H1 Hk) as [y ->]. done.
    + destruct (m_re r1 k st); [done|]. by eapply IH2.
  - intros Hs Hk.
    assert (Hn : (String.length (st_rest st) <= String.length (st_rest st))%nat) by done.
    revert Hn. generalize (String.length (st_rest st)) at 2 3 as n.
    induction Hs as [st|st st1 st2 Hd Hlt Hs IHs]; intros n Hn.
    + destruct n as [|n]; [done|]. destruct (m_re r _ st); done.
    + destruct (den_length r st st1 Hd) as [Hlen _].
      destruct n as [|n]; [exfalso; lia|].
      destruct (m_re r _ st) eqn:Hm; [done|]. exfalso.
      match type of Hm with m_re r ?kk st = None =>
        destruct (IH kk st st1 Hd) as [y Hy]; [|congruence] end.
      destruct (Nat.ltb_spec (st_pos st) (st_pos st1)); [|lia].
      apply IHs; [done|lia].
  - intros (st1 & H1 & ->) Hk. by eapply IH.
  - intros [-> ->]. done.
  - intros [-> ->]. done.
  - intros [-> ->]. done.
Qed.

Lemma match_re_sound r st st' : match_at r st = Some st' -> den r st st'.
Proof. intros (st1 & ? & [= ->])%m_re_sound. done. Qed.

Lemma match_re_complete r st st' : den r st st' -> is_Some (match_at r st).
Proof. intros H. by eapply m_re_complete. Qed.

(** The text from byte [n] on, as a state of a scan over [s]. *)
Fixpoint scan_prev (prev : option ascii) (s : string) (n : nat) {struct n} : option ascii :=
  match n, s with
  | S n, String c r => scan_prev (Some c) r n
  | _, _ => prev
  end.

Definition scan_state (s : string) (n : nat) : mstate :=
  MState n (scan_prev None s n) (sdrop n s) [].

(** A pattern occurs in a text when it matches at some position. *)
Definition occurs (r : re) (s : string) : Prop :=
  exists n st', (n <= String.length s)%nat /\ den r (scan_state s n) st'.

Lemma find_from_spec r s pos prev :
  match find_from r s pos prev with
  | Some (b, e) => exists n, (n <= String.length s)%nat /\
      b = MState (pos + n) (scan_prev prev s n) (sdrop n s) [] /\ den r b e /\
      forall n' e', (n' < n)%nat ->
        ~ den r (MState (pos + n') (scan_prev prev s n') (sdrop n' s) []) e'
  | None => forall n e, (n <= String.length s)%nat ->
      ~ den r (MState (pos + n) (scan_prev prev s n) (sdrop n s) []) e
  end.
Proof.
  revert pos prev. induction s as [|c s IH]; intros pos prev; cbn [find_from];
    destruct (match_at r _) as [e|] eqn:Hm.
  1, 3: apply match_re_sound in Hm; exists 0%nat; rewrite Nat.add_0_r; repeat split; [lia|done|lia].
  - intros n e Hn Hd. simpl in Hn. assert (n = 0%nat) as -> by lia.
    rewrite Nat.add_0_r in Hd. apply match_re_complete in Hd as [? Hd]. simpl in Hd. congruence.
  - assert (H0 : forall e', ~ den r (MState (pos + 0) prev (String c s) []) e').
    { intros e' Hd. rewrite Nat.add_0_r in Hd. apply match_re_complete in Hd as [? ?]. congruence. }
    specialize (IH (S pos) (Some c)). destruct (find_from r s (S pos) (Some c)) as [[b e]|].
    + destruct IH as (n & Hn & -> & Hd & Hmin). exists (S n). simpl.
      rewrite Nat.add_succ_r. repeat split; [lia|done|].
      intros [|n'] e' Hn'; [apply H0|]. simpl. rewrite Nat.add_succ_r. apply Hmin. lia.
    + intros [|n] e Hn; [apply H0|]. simpl in *. rewrite Nat.add_succ_r. apply IH. lia.
Qed.

Lemma MatchString_spec r s : MatchString r s = true <-> occurs r s.
Proof.
  unfold MatchString, occurs, scan_state. pose proof (find_from_spec r s 0 None) as H.
  destruct (find_from r s 0 None) as [[b e]|]; split; try done.
  - intros _. destruct H as (n & Hn & -> & Hd & _). eauto.
  - intros (n & e & Hn & Hd). by apply H in Hd.
Qed.

(** ** Where a match sits in the text *)

Lemma sdrop_sdrop a b s : sdrop a (sdrop b s) = sdrop (b + a) s.
Proof. revert s. induction b as [|b IH]; intros s; simpl; [done|]. destruct s; [|apply IH]. by destruct a. Qed.

Lemma sdrop_length n s : String.length (sdrop n s) = (String.length s - n)%nat.
Proof. revert s. induction n; intros [|c s]; simpl; auto; lia. Qed.

Lemma get_sdrop k i s : String.get i (sdrop k s) = String.get (k + i) s.
Proof. revert s. induction k as [|k IH]; intros s; [done|]. destruct s; simpl; [by destruct i|apply IH]. Qed.

Lemma scan_prev_add p s a b : scan_prev (scan_prev p s a) (sdrop a s) b = scan_prev p s (a + b).
Proof.
  revert p s. induction a as [|a IH]; intros p s; [done|].
  destruct s; simpl; [by destruct b|apply IH].
Qed.

(** A match from [st] consumes [k] bytes of the text that follows [st]. *)
Definition consumed (k : nat) (st st' : mstate) : Prop :=
  st_pos st' = (st_pos st + k)%nat /\ st_rest st' = sdrop k (st_rest st) /\
  st_prev st' = scan_prev (st_prev st) (st_rest st) k /\ (k <= String.length (st_rest st))%nat.

Lemma consumed_0 st st' :
  st_pos st' = st_pos st -> st_rest st' = st_rest st -> st_prev st' = st_prev st -> consumed 0 st st'.
Proof. unfold consumed. intros -> -> ->. simpl. repeat split; lia. Qed.

Lemma consumed_trans a b st st1 st2 :
  consumed a st st1 -> consumed b st1 st2 -> consumed (a + b) st st2.
Proof.
  intros (Hp & Hr & Hv & Hl) (Hp' & Hr' & Hv' & Hl'). unfold consumed.
  rewrite Hp', Hp, Hr', Hr, Hv', Hv, Hr, sdrop_sdrop, scan_prev_add.
  rewrite Hr, sdrop_length in Hl'. repeat split; lia.
Qed.

Lemma den_consumed r st st' : den r st st' -> exists k, consumed k st st'.
Proof.
  revert st st'. induction r as [|f|r1 IH1 r2 IH2|r1 IH1 r2 IH2|r IH|i r IH| | |];
    simpl; intros st st'.
  - intros ->. exists 0%nat. by apply consumed_0.
  - intros (c & rest & Hr & _ & ->). exists 1%nat. unfold consumed. rewrite Hr. simpl. repeat split; lia.
  - intros (st1 & [a Ha]%IH1 & [b Hb]%IH2). exists (a + b)%nat. by eapply consumed_trans.
  - intros [?%IH1|?%IH2]; done.
  - induction 1 as [st|st st1 st2 [a Ha]%IH _ _ [b Hb]].
    + exists 0%nat. by apply consumed_0.
    + exists (a + b)%nat. by eapply consumed_trans.
  - intros (st1 & [a (?&?&?&?)]%IH & ->). exists a. by repeat split.
  - intros [_ ->]. exists 0%nat. by apply consumed_0.
  - intros [_ ->]. exists 0%nat. by apply consumed_0.
  - intros [_ ->]. exists 0%nat. by apply consumed_0.
Qed.

(** Every byte the pattern can consume is in [P]. *)
Fixpoint re_bytes (P : ascii -> bool) (r : re) : Prop :=
  match r with
  | RSet f => forall c, f c = true -> P c = true
  | RSeq r1 r2 | RAlt r1 r2 => re_bytes P r1 /\ re_bytes P r2
  | RStar r | RGroup _ r => re_bytes P r
  | REps | RWordB | RBegin | REnd => True
  end.

Definition bytes_in (P : ascii -> bool) (lo : nat) (st st' : mstate) : Prop :=
  forall i c, (lo <= i < st_pos st' - st_pos st)%nat -> String.get i (st_rest st) = Some c -> P c = true.

Lemma bytes_in_trans P lo st st1 st2 a b :
  consumed a st st1 -> consumed b st1 st2 -> bytes_in P lo st st1 -> bytes_in P 0 st1 st2 ->
  bytes_in P lo st st2.
Proof.
  intros (Hp & Hr & _ & _) (Hp' & _ & _ & _) H1 H2 i c Hi Hc.
  destruct (decide (i < a)%nat).
  - apply (H1 i); [lia|done].
  - apply (H2 (i - a)%nat); [lia|]. rewrite Hr, get_sdrop. by replace (a + (i - a))%nat with i by lia.
Qed.

Lemma re_bytes_in P r st st' : re_bytes P r -> den r st st' -> bytes_in P 0 st st'.
Proof.
  revert st st'. induction r as [|f|r1 IH1 r2 IH2|r1 IH1 r2 IH2|r IH|i r IH| | |];
    simpl; intros st st' HP.
  - intros -> ? ? ?. lia.
  - intros (c & rest & Hr & Hf & ->) i c' Hi. simpl in Hi. assert (i = 0%nat) as -> by lia.
    rewrite Hr. intros [= <-]. auto.
  - intros (st1 & H1 & H2). destruct HP as [HP1 HP2].
    destruct (den_consumed _ _ _ H1) as [a Ha]. destruct (den_consumed _ _ _ H2) as [b Hb].
    eapply bytes_in_trans; eauto.
  - destruct HP. intros [?|?]; eauto.
  - induction 1 as [st|st st1 st2 Hd Hlt Hs IHs]; [intros ? ? ?; lia|].
    destruct (den_consumed _ _ _ Hd) as [a Ha].
    destruct (den_consumed (RStar r) _ _ Hs) as [b Hb]. eapply bytes_in_trans; eauto.
  - intros (st1 & H1 & ->). exact (IH _ _ HP H1).
  - intros [_ ->] ? ? ?. lia.
  - intros [_ ->] ? ? ?. lia.
  - intros [_ ->] ? ? ?. lia.
Qed.

(** A pattern whose matches start with a byte of [P] and hold none later: its
    matches cannot overlap, so scanning finds every occurrence. *)
Definition head_only (P : ascii -> bool) (st st' : mstate) : Prop :=
  (st_pos st < st_pos st')%nat /\
  (exists c, String.get 0 (st_rest st) = Some c /\ P c = true) /\
  bytes_in (fun c => negb (P c)) 1 st st'.

Lemma head_only_seq P r1 r2 st st' :
  (forall s s', den r1 s s' -> head_only P s s') -> re_bytes (fun c => negb (P c)) r2 ->
  den (RSeq r1 r2) st st' -> head_only P st st'.
Proof.
  intros H1 H2 (st1 & Hd1 & Hd2). destruct (H1 _ _ Hd1) as (Hlt & Hc & Hb).
  destruct (den_consumed _ _ _ Hd1) as [a Ha]. destruct (den_consumed _ _ _ Hd2) as [b Hb'].
  split; [|split; [done|]].
  - destruct (den_length _ _ _ Hd2). lia.
  - eapply bytes_in_trans; eauto. by eapply re_bytes_in.
Qed.

Lemma head_only_set P f st st' :
  (forall c, f c = true -> P c = true) -> den (RSet f) st st' -> head_only P st st'.
Proof.
  intros HP (c & rest & Hr & Hf & ->). unfold head_only, advance. simpl. rewrite Hr. repeat split; [lia|eauto|].
  intros i c' Hi. simpl in Hi. lia.
Qed.

Lemma head_only_alts P rs st st' :
  Forall (fun r => forall s s', den r s s' -> head_only P s s') rs ->
  den (RAlts rs) st st' -> head_only P st st'.
Proof.
  induction 1 as [|r rs Hr Hrs IH]; simpl.
  - by intros (? & ? & _ & ? & _).
  - destruct rs; [apply Hr|]. intros [?|?]; [by apply Hr|by apply IH].
Qed.

Lemma find_all_complete P r fuel s pos prev n e' :
  (forall st st', den r st st' -> head_only P st st') ->
  (String.length s < fuel)%nat -> (n <= String.length s)%nat ->
  den r (MState (pos + n) (scan_prev prev s n) (sdrop n s) []) e' ->
  exists e, (MState (pos + n) (scan_prev prev s n) (sdrop n s) [], e) ∈ find_all fuel r s pos prev.
Proof.
  intros Hr. revert s pos prev n. induction fuel as [|fuel IH]; intros s pos prev n Hf Hn Hd; [lia|].
  cbn [find_all]. pose proof (find_from_spec r s pos prev) as Hff.
  destruct (find_from r s pos prev) as [[b e]|]; [|exfalso; by eapply Hff].
  destruct Hff as (n0 & Hn0 & Hb & Hde & Hmin).
  destruct (decide (n = n0)) as [->|Hne]; [exists e; rewrite Hb; left|].
  assert (n0 < n)%nat by (destruct (decide (n < n0)%nat) as [Hlt|]; [by apply Hmin in Hd|lia]).
  destruct (Hr _ _ Hde) as (Hlt & _ & Hbytes). destruct (den_consumed _ _ _ Hde) as [k (Hp & Hrest & Hprev & Hk)].
  rewrite Hb in Hp, Hrest, Hprev, Hk, Hlt, Hbytes. simpl in *.
  destruct (decide (n < n0 + k)%nat) as [Hin|Hout].
  { exfalso. destruct (Hr _ _ Hd) as (_ & (c & Hc & HP) & _). simpl in Hc.
    specialize (Hbytes (n - n0)%nat c ltac:(simpl; lia)). simpl in Hbytes.
    rewrite get_sdrop in Hbytes, Hc. replace (n0 + (n - n0))%nat with (n + 0)%nat in Hbytes by lia.
    rewrite HP in Hbytes. by specialize (Hbytes Hc). }
  rewrite sdrop_sdrop in Hrest. rewrite scan_prev_add in Hprev.
  destruct (IH (st_rest e) (st_pos e) (st_prev e) (n - (n0 + k))%nat) as [e2 He2].
  - rewrite Hrest, sdrop_length. rewrite sdrop_length in Hk. lia.
  - rewrite Hrest, sdrop_length. lia.
  - rewrite Hrest, Hprev, Hp, sdrop_sdrop, scan_prev_add.
    replace (n0 + k + (n - (n0 + k)))%nat with n by lia.
    replace (pos + n0 + k + (n - (n0 + k)))%nat with (pos + n)%nat by lia. done.
  - exists e2. right. rewrite Hrest, Hprev, Hp, sdrop_sdrop, scan_prev_add in He2.
    replace (n0 + k + (n - (n0 + k)))%nat with n in He2 by lia.
    replace (pos + n0 + k + (n - (n0 + k)))%nat with (pos + n)%nat in He2 by lia.
    rewrite Hrest, Hprev, Hp. done.
Qed.

Lemma FindAll_nil r s : FindAll r s = [] <-> ~ occurs r s.
Proof.
  unfold FindAll. cbn [find_all]. rewrite <- MatchString_spec. unfold MatchString.
  destruct (find_from r s 0 None) as [[b e]|]; split; done.
Qed.
