(* ===== verification/Sha256.v ===== *)
(** * SHA-256 (Go's [crypto/sha256]), FIPS 180-4

    Executable, so that digests, branch suffixes and idempotency keys of the
    model are the ones the program computes. *)

From S2P Require Import Prelude GoStrings.
Local Open Scope Z_scope.

Definition w32 (z : Z) : Z := Z.land z (Z.ones 32).
Definition rotr (n x : Z) : Z := Z.lor (Z.shiftr x n) (w32 (Z.shiftl x (32 - n))).
Definition add32 (a b : Z) : Z := w32 (a + b).

Definition Ch (x y z : Z) : Z := Z.lxor (Z.land x y) (Z.land (Z.lxor x (Z.ones 32)) z).
Definition Maj (x y z : Z) : Z := Z.lxor (Z.lxor (Z.land x y) (Z.land x z)) (Z.land y z).
Definition S0 (x : Z) : Z := Z.lxor (Z.lxor (rotr 2 x) (rotr 13 x)) (rotr 22 x).
Definition S1 (x : Z) : Z := Z.lxor (Z.lxor (rotr 6 x) (rotr 11 x)) (rotr 25 x).
Definition s0 (x : Z) : Z := Z.lxor (Z.lxor (rotr 7 x) (rotr 18 x)) (Z.shiftr x 3).
Definition s1 (x : Z) : Z := Z.lxor (Z.lxor (rotr 17 x) (rotr 19 x)) (Z.shiftr x 10).

(** The constants of FIPS 180-4, section 4.2.2 and 5.3.3, from their definition:
    the first 32 bits of the fractional parts of the cube roots of the first 64
    primes, and of the square roots of the first eight. *)
Definition is_prime (n : nat) : bool :=
  (2 <=? n)%nat && forallb (fun d => negb (n mod d =? 0)%nat) (seq 2 (n - 2)).

Definition primes64 : list Z := map Z.of_nat (filter (fun n => is_prime n = true) (seq 0 312)).

(** The largest [r] with [r ^ 3 <= n], for [n < 2 ^ 108], bit by bit. *)
Definition cube_root (n : Z) : Z :=
  fold_left (fun r i => let c := r + 2 ^ Z.of_nat i in if c * c * c <=? n then c else r) (rev (seq 0 36)) 0.

Definition K256 : list Z := Eval vm_compute in
  map (fun p => w32 (cube_root (Z.shiftl p 96))) primes64.

Definition H256 : list Z := Eval vm_compute in
  map (fun p => w32 (Z.sqrt (Z.shiftl p 64))) (take 8 primes64).

Fixpoint words_be (bytes : list Z) : list Z :=
  match bytes with
  | b0 :: b1 :: b2 :: b3 :: r => word_be b0 b1 b2 b3 :: words_be r
  | _ => []
  end.

Definition bytes_be (n : nat) (w : Z) : list Z :=
  map (fun i => Z.land (Z.shiftr w (8 * Z.of_nat i)) 255) (rev (seq 0 n)).

(** Message schedule: [ws] holds the words so far, most recent first. *)
Fixpoint schedule (n : nat) (ws : list Z) : list Z :=
  match n with
  | O => rev ws
  | S n =>
      let w i := nth i ws 0 in
      schedule n (w32 (s1 (w 1%nat) + w 6%nat + s0 (w 14%nat) + w 15%nat) :: ws)
  end.

Definition round256 (h : list Z) (kw : Z * Z) : list Z :=
  match h with
  | [a; b; c; d; e; f; g; hh] =>
      let t1 := w32 (hh + S1 e + Ch e f g + fst kw + snd kw) in
      let t2 := w32 (S0 a + Maj a b c) in
      [add32 t1 t2; a; b; c; add32 d t1; e; f; g]
  | _ => h
  end.

Definition block256 (h : list Z) (block : list Z) : list Z :=
  let ws := schedule 48 (rev (words_be block)) in
  zip_with add32 h (fold_left round256 (zip K256 ws) h).

Fixpoint blocks256 (fuel : nat) (h : list Z) (bytes : list Z) : list Z :=
  match fuel with
  | O => h
  | S n => match bytes with
           | [] => h
           | _ => blocks256 n (block256 h (take 64 bytes)) (drop 64 bytes)
           end
  end.

Definition pad256 (bytes : list Z) : list Z :=
  let n := Z.of_nat (length bytes) in
  let zeros := Z.to_nat ((55 - n) mod 64) in
  bytes ++ [128] ++ replicate zeros 0 ++ bytes_be 8 (8 * n).

Definition sha256_bytes (bytes : list Z) : list Z :=
  let p := pad256 bytes in
  flat_map (bytes_be 4) (blocks256 (S (length p / 64)) H256 p).

(** [sha256.Sum256] of a string's bytes. *)
Definition Sum256 (s : string) : list Z := sha256_bytes (bytes_of_string s).

(** [hex.EncodeToString(sum[:])]. *)
Definition sha256_hex (s : string) : string := EncodeToString (Sum256 s).

(** ** Shape of a digest *)

Definition is_byte (b : Z) : Prop := 0 <= b < 256.

Lemma bytes_be_bytes n w : Forall is_byte (bytes_be n w).
Proof.
  unfold bytes_be. apply Forall_map, Forall_forall. intros i _. unfold is_byte.
  change 255 with (Z.ones 8). rewrite Z.land_ones by lia. apply Z.mod_pos_bound. lia.
Qed.

Lemma round256_length h kw : length h = 8%nat -> length (round256 h kw) = 8%nat.
Proof. intros H. unfold round256. repeat case_match; simpl in *; lia. Qed.

Lemma rounds_length kws h : length h = 8%nat -> length (fold_left round256 kws h) = 8%nat.
Proof. revert h. induction kws; simpl; intros h H; [done|]. apply IHkws. by apply round256_length. Qed.

Lemma block256_length h b : length h = 8%nat -> length (block256 h b) = 8%nat.
Proof.
  intros H. unfold block256. rewrite length_zip_with, rounds_length by done. lia.
Qed.

Lemma blocks256_length n h b : length h = 8%nat -> length (blocks256 n h b) = 8%nat.
Proof.
  revert h b. induction n as [|n IH]; intros h b H; [done|]. cbn [blocks256].
  case_match; [done|]. apply IH. by apply block256_length.
Qed.

(** A digest is 32 bytes, whatever the input. *)
Lemma Sum256_shape s : length (Sum256 s) = 32%nat /\ Forall is_byte (Sum256 s).
Proof.
  unfold Sum256, sha256_bytes. set (p := pad256 _). clearbody p.
  pose proof (blocks256_length (S (length p / 64)) H256 p eq_refl) as H.
  set (h := blocks256 _ _ _) in *. clearbody h. split.
  - do 8 (destruct h as [|? h]; [discriminate|]). destruct h; [|discriminate]. reflexivity.
  - clear H. induction h as [|w h IH]; cbn [flat_map]; [done|]. apply Forall_app. split; [apply bytes_be_bytes|done].
Qed.

(** The first test vector of FIPS 180-4. *)
Example sha256_abc : sha256_hex "abc" = "ba7816bf8f01cfea414140de5dae2223b00361a396177a9cb410ff61f20015ad".
Proof. vm_compute. reflexivity. Qed.

(** A hexadecimal digest is 64 bytes long. *)
Lemma EncodeToString_length l : String.length (EncodeToString l) = (2 * length l)%nat.
Proof.
  induction l as [|b l IH]; [done|]. change (EncodeToString (b :: l)) with (hex_byte b ++ EncodeToString l)%string.
  cbn [length]. unfold hex_byte. rewrite !sapp_cons. change ("" ++ EncodeToString l)%string with (EncodeToString l).
  cbn [String.length]. lia.
Qed.

Lemma sha256_hex_length s : String.length (sha256_hex s) = 64%nat.
Proof. unfold sha256_hex. rewrite EncodeToString_length, (proj1 (Sum256_shape s)). reflexivity. Qed.
