(* ===== verification/Budget.v ===== *)
(** * Context budget and step-boundary compaction (internal/harness/budget.go)

    The effective input limit of a role, the trigger that decides at a step
    boundary whether the transcript must be compacted, and the planner that
    selects the oldest unprotected turns to replace by one digest.  Token
    counts are Go [int]s: additions and the compact-point product wrap at 64
    bits, and the theorems say under which bounds they do not. *)

From S2P Require Import Prelude.
Local Open Scope Z_scope.

(** ** Data *)

Definition DefaultCompactAtPercent : Z := 75.
Definition MinCompactAtPercent : Z := 1.
Definition MaxCompactAtPercent : Z := 99.

Definition StateConfigured : string := "configured".
Definition StateHealthy : string := "healthy".
Definition StateUnavailable : string := "unavailable".

Record ContextBudgetInput := {
  in_Role : string;
  DeclaredMaxInputTokens : Z;
  ProbedMaxInputTokens : Z;
  in_CompactAtPercent : Z;
  in_OutputReservation : Z
}.

Record ContextBudget := {
  Role : string;
  State : string;
  EffectiveLimit : Z;
  CompactPoint : Z;
  OutputReservation : Z;
  Detail : string
}.

(** One constructor per error return; the payload is what the message prints. *)
Inductive budget_error :=
| ENegativeTokenLimit (role : string)
| ENegativeReservation (role : string)
| EPercentOutside (role : string) (percent : Z)
| ErrNoContextCapacity (role : string)
| ErrContextReservation (role : string) (reserved effective : Z)
| ENegativeFixed
| ENegativeMessage
| ENegativeDigest
| ErrCompactionCannotFit (before digest protected effective reservation : Z).

(** ** Resolution *)

Definition ResolveContextBudget (inp : ContextBudgetInput) : result budget_error ContextBudget :=
  if (DeclaredMaxInputTokens inp <? 0) || (ProbedMaxInputTokens inp <? 0)
  then Err (ENegativeTokenLimit (in_Role inp)) else
  if in_OutputReservation inp <? 0
  then Err (ENegativeReservation (in_Role inp)) else
  let percent := if in_CompactAtPercent inp =? 0 then DefaultCompactAtPercent
                 else in_CompactAtPercent inp in
  if (percent <? MinCompactAtPercent) || (MaxCompactAtPercent <? percent)
  then Err (EPercentOutside (in_Role inp) percent) else
  '(effective, state, detail) ←
    (if (0 <? DeclaredMaxInputTokens inp) && (0 <? ProbedMaxInputTokens inp) then
       Ok (Z.min (DeclaredMaxInputTokens inp) (ProbedMaxInputTokens inp), StateHealthy,
           "effective limit is the lower of the declared budget and the gateway-verified model input limit")
     else if 0 <? ProbedMaxInputTokens inp then
       Ok (ProbedMaxInputTokens inp, StateHealthy,
           "effective limit is the gateway-verified model input limit")
     else if 0 <? DeclaredMaxInputTokens inp then
       Ok (DeclaredMaxInputTokens inp, StateConfigured,
           "effective limit is the declared budget; the gateway did not verify the model input limit")
     else Err (ErrNoContextCapacity (in_Role inp)));
  if effective <=? in_OutputReservation inp
  then Err (ErrContextReservation (in_Role inp) (in_OutputReservation inp) effective) else
  let point := Z.quot (int_mul effective percent) 100 in
  let point := if point <? 1 then 1 else point in
  Ok {| Role := in_Role inp;
        State := state;
        EffectiveLimit := effective;
        CompactPoint := point;
        OutputReservation := in_OutputReservation inp;
        Detail := detail |}.

Definition ShouldCompact (b : ContextBudget) (promptTokens : Z) : bool :=
  if EffectiveLimit b <=? 0 then false else
  if CompactPoint b <=? promptTokens then true else
  EffectiveLimit b <? int_add promptTokens (OutputReservation b).

Definition FitsAfterCompaction (b : ContextBudget) (promptTokens : Z) : bool :=
  int_add promptTokens (OutputReservation b) <=? EffectiveLimit b.

(** ** Planning *)

Record CompactionInput := {
  MessageTokens : list Z;
  Protected : list bool;
  DigestTokens : Z;
  FixedTokens : Z;
  Budget : ContextBudget
}.

Record CompactionPlan := {
  Compacted : bool;
  Digested : list nat;
  Retained : list nat;
  Before : Z;
  After : Z;
  DigestedTokens : Z;
  NetSaved : Z;
  BudgetAfter : ContextBudget
}.

Definition protectedAt (protected : list bool) (i : nat) : bool :=
  default false (protected !! i).

Fixpoint protectedIndexes_from (i : nat) (protected : list bool) : list nat :=
  match protected with
  | [] => []
  | p :: rest => (if p : bool then [i] else []) ++ protectedIndexes_from (S i) rest
  end.

Definition protectedIndexes (protected : list bool) : list nat :=
  protectedIndexes_from 0 protected.

(** The summation loop, with its early return on a negative count. *)
Fixpoint sumTokens (before : Z) (tokens : list Z) : result budget_error Z :=
  match tokens with
  | [] => Ok before
  | t :: rest =>
      if t <? 0 then Err ENegativeMessage else sumTokens (int_add before t) rest
  end.

Definition withCompactPoint (b : ContextBudget) (point : Z) : ContextBudget :=
  {| Role := Role b; State := State b; EffectiveLimit := EffectiveLimit b;
     CompactPoint := point; OutputReservation := OutputReservation b;
     Detail := Detail b |}.

(** The selection loop from index [i] on: [digested] and [digestedTokens] are
    the loop's accumulators.  [inl] carries the final [digestedTokens] of a
    loop that ran off the end without returning. *)
Fixpoint selectSpan (inp : CompactionInput) (before : Z) (i : nat)
    (tokens : list Z) (digested : list nat) (digestedTokens : Z) : Z + CompactionPlan :=
  match tokens with
  | [] => inl digestedTokens
  | t :: rest =>
      if protectedAt (Protected inp) i
      then selectSpan inp before (S i) rest digested digestedTokens
      else
        let digested := digested ++ [i] in
        let digestedTokens := int_add digestedTokens t in
        let after := int_add (int_sub before digestedTokens) (DigestTokens inp) in
        if (after <? before) && FitsAfterCompaction (Budget inp) after then
          let point := if CompactPoint (Budget inp) <? int_add after 1
                       then int_add after 1 else CompactPoint (Budget inp) in
          inr {| Compacted := true;
                 Digested := digested;
                 Retained := protectedIndexes (Protected inp);
                 Before := before;
                 After := after;
                 DigestedTokens := digestedTokens;
                 NetSaved := int_sub before after;
                 BudgetAfter := withCompactPoint (Budget inp) point |}
        else selectSpan inp before (S i) rest digested digestedTokens
  end.

Definition PlanCompaction (inp : CompactionInput) : result budget_error CompactionPlan :=
  if FixedTokens inp <? 0 then Err ENegativeFixed else
  before ← sumTokens (FixedTokens inp) (MessageTokens inp);
  if DigestTokens inp <? 0 then Err ENegativeDigest else
  let plan := {| Compacted := false; Digested := [];
                 Retained := protectedIndexes (Protected inp);
                 Before := before; After := before;
                 DigestedTokens := 0; NetSaved := 0;
                 BudgetAfter := Budget inp |} in
  if negb (ShouldCompact (Budget inp) before) then Ok plan else
  match selectSpan inp before 0 (MessageTokens inp) [] 0 with
  | inr plan => Ok plan
  | inl digestedTokens =>
      Err (ErrCompactionCannotFit before (DigestTokens inp)
             (int_sub before digestedTokens)
             (EffectiveLimit (Budget inp)) (OutputReservation (Budget inp)))
  end.

(** ** Reference definitions

    What the planner promises, stated without its loop: cutting at an
    unprotected message [j] digests every unprotected message up to [j]. *)

Definition total_tokens (tokens : list Z) : Z := foldr Z.add 0 tokens.

Definition request_tokens (inp : CompactionInput) : Z :=
  FixedTokens inp + total_tokens (MessageTokens inp).

Definition unprotected (inp : CompactionInput) (i : nat) : bool :=
  negb (protectedAt (Protected inp) i).

(** The unprotected indexes below [n], oldest first. *)
Definition digest_below (inp : CompactionInput) (n : nat) : list nat :=
  filter (fun i => unprotected inp i = true) (seq 0 n).

Definition span_tokens (inp : CompactionInput) (span : list nat) : Z :=
  total_tokens ((fun i => default 0 (MessageTokens inp !! i)) <$> span).

Definition after_cut (inp : CompactionInput) (j : nat) : Z :=
  request_tokens inp - span_tokens inp (digest_below inp (S j)) + DigestTokens inp.

(** The post-condition of a compaction: it reclaims and it fits. *)
Definition acceptable_cut (inp : CompactionInput) (j : nat) : Prop :=
  after_cut inp j < request_tokens inp /\
  after_cut inp j + OutputReservation (Budget inp) <= EffectiveLimit (Budget inp).

(** Inputs whose token counts are non-negative and fit a machine integer, so
    no addition of the planner wraps. *)
Definition plan_bounded (inp : CompactionInput) : Prop :=
  0 <= FixedTokens inp /\ Forall (fun t => 0 <= t) (MessageTokens inp) /\
  0 <= DigestTokens inp /\ 0 <= OutputReservation (Budget inp) /\
  request_tokens inp + DigestTokens inp + OutputReservation (Budget inp) < int64_max.

(** ** Lemmas *)

Lemma total_tokens_app l1 l2 : total_tokens (l1 ++ l2) = total_tokens l1 + total_tokens l2.
Proof. unfold total_tokens. induction l1; simpl; lia. Qed.

Lemma total_tokens_nonneg l : Forall (fun t => 0 <= t) l -> 0 <= total_tokens l.
Proof. unfold total_tokens. induction 1; simpl; lia. Qed.

Lemma sumTokens_ok acc l :
  0 <= acc -> Forall (fun t => 0 <= t) l -> acc + total_tokens l <= int64_max ->
  sumTokens acc l = Ok (acc + total_tokens l).
Proof.
  intros Hacc Hl. revert acc Hacc. unfold total_tokens.
  induction Hl as [|t l Ht Hl IH]; intros acc Hacc Hb; simpl in *; [f_equal; lia|].
  pose proof (total_tokens_nonneg l Hl). unfold total_tokens in *.
  replace (t <? 0) with false by (symmetry; apply Z.ltb_ge; lia).
  unfold int_add. rewrite wrap64_id by (unfold in_int64, int64_min, int64_max in *; lia).
  rewrite IH by lia. f_equal; lia.
Qed.

Lemma digest_below_S inp i :
  digest_below inp (S i) =
  digest_below inp i ++ (if unprotected inp i then [i] else []).
Proof.
  unfold digest_below. rewrite seq_S, filter_app. f_equal. simpl.
  unfold filter, list_filter. case_decide as H.
  - by rewrite H.
  - by destruct (unprotected inp i).
Qed.

Lemma span_tokens_snoc inp span i :
  span_tokens inp (span ++ [i]) = span_tokens inp span + default 0 (MessageTokens inp !! i).
Proof.
  unfold span_tokens. rewrite fmap_app, total_tokens_app.
  unfold total_tokens. simpl. lia.
Qed.

Lemma total_tokens_take_S i l :
  total_tokens (take (S i) l) = total_tokens (take i l) + default 0 (l !! i).
Proof.
  destruct (l !! i) as [t|] eqn:Hi; simpl.
  - rewrite (take_S_r _ _ _ Hi), total_tokens_app. unfold total_tokens. simpl. lia.
  - pose proof (lookup_ge_None_1 _ _ Hi). rewrite !take_ge by lia. lia.
Qed.

Lemma default_nonneg i l : Forall (fun t => 0 <= t) l -> 0 <= default 0 (l !! i).
Proof.
  intros Hf. destruct (l !! i) as [t|] eqn:Hi; simpl; [|lia].
  exact (Forall_lookup_1 _ _ _ _ Hf Hi).
Qed.

(** The tokens digested below [i] never exceed the tokens up to [i]. *)
Lemma span_tokens_bounds inp i :
  Forall (fun t => 0 <= t) (MessageTokens inp) ->
  0 <= span_tokens inp (digest_below inp i) <= total_tokens (take i (MessageTokens inp)).
Proof.
  intros Hf. induction i as [|i IH].
  - unfold digest_below, span_tokens, total_tokens. simpl. lia.
  - rewrite digest_below_S, total_tokens_take_S.
    pose proof (default_nonneg i _ Hf).
    destruct (unprotected inp i); rewrite ?span_tokens_snoc, ?app_nil_r; lia.
Qed.

Lemma total_tokens_take_le i l :
  Forall (fun t => 0 <= t) l -> total_tokens (take i l) <= total_tokens l.
Proof.
  intros Hf. rewrite <- (take_drop i l) at 2. rewrite total_tokens_app.
  pose proof (total_tokens_nonneg (drop i l) (Forall_drop _ _ _ Hf)). lia.
Qed.

(** What the loop body computes at an unprotected message: under the bounds,
    its machine arithmetic is the reference arithmetic. *)
Lemma after_cut_range inp i :
  plan_bounded inp ->
  0 <= after_cut inp i /\ 0 <= request_tokens inp < int64_max /\
  0 <= span_tokens inp (digest_below inp i) <= request_tokens inp /\
  after_cut inp i + OutputReservation (Budget inp) < int64_max /\ after_cut inp i < int64_max.
Proof.
  intros (Hf & Hm & Hd & Hr & Hmax). unfold after_cut, request_tokens in *.
  pose proof (span_tokens_bounds inp i Hm). pose proof (total_tokens_take_le i _ Hm).
  pose proof (span_tokens_bounds inp (S i) Hm). pose proof (total_tokens_take_le (S i) _ Hm).
  lia.
Qed.

Lemma after_cut_machine inp i t :
  plan_bounded inp -> MessageTokens inp !! i = Some t -> unprotected inp i = true ->
  int_add (span_tokens inp (digest_below inp i)) t = span_tokens inp (digest_below inp (S i)) /\
  int_add (int_sub (request_tokens inp) (span_tokens inp (digest_below inp (S i)))) (DigestTokens inp)
    = after_cut inp i.
Proof.
  intros Hb Ht Hu. pose proof (after_cut_range inp i Hb). pose proof (after_cut_range inp (S i) Hb).
  pose proof Hb as (_ & _ & Hd & _ & _).
  assert (Hs : span_tokens inp (digest_below inp (S i)) = span_tokens inp (digest_below inp i) + t).
  { rewrite digest_below_S, Hu, span_tokens_snoc, Ht. done. }
  unfold after_cut in *. unfold int_add, int_sub. rewrite Hs in *.
  split; rewrite !wrap64_id; unfold in_int64, int64_min, int64_max in *; try lia.
  rewrite wrap64_id; unfold in_int64, int64_min, int64_max; lia.
Qed.

Lemma acceptable_cut_reflect inp i :
  plan_bounded inp ->
  (after_cut inp i <? request_tokens inp) && FitsAfterCompaction (Budget inp) (after_cut inp i) = true
  <-> acceptable_cut inp i.
Proof.
  intros Hb. pose proof (after_cut_range inp i Hb). pose proof Hb as (_ & _ & _ & Hr & _).
  unfold FitsAfterCompaction, acceptable_cut, int_add.
  rewrite wrap64_id by (unfold in_int64, int64_min, int64_max in *; lia). lia.
Qed.

(** The plan of a cut at [j]. *)
Definition plan_at (inp : CompactionInput) (j : nat) : CompactionPlan :=
  let after := after_cut inp j in
  {| Compacted := true;
     Digested := digest_below inp (S j);
     Retained := protectedIndexes (Protected inp);
     Before := request_tokens inp;
     After := after;
     DigestedTokens := span_tokens inp (digest_below inp (S j));
     NetSaved := request_tokens inp - after;
     BudgetAfter := withCompactPoint (Budget inp)
                      (Z.max (CompactPoint (Budget inp)) (after + 1)) |}.

(** [j] is the first acceptable cut at or after [i]. *)
Definition first_cut (inp : CompactionInput) (i j : nat) : Prop :=
  (i <= j < length (MessageTokens inp))%nat /\ unprotected inp j = true /\ acceptable_cut inp j /\
  forall j', (i <= j' < j)%nat -> unprotected inp j' = true -> ~ acceptable_cut inp j'.

Definition no_cut (inp : CompactionInput) (i : nat) : Prop :=
  forall j, (i <= j < length (MessageTokens inp))%nat -> unprotected inp j = true -> ~ acceptable_cut inp j.

Definition selected (inp : CompactionInput) (i : nat) (r : Z + CompactionPlan) : Prop :=
  match r with
  | inr plan => exists j, first_cut inp i j /\ plan = plan_at inp j
  | inl digested =>
      digested = span_tokens inp (digest_below inp (length (MessageTokens inp))) /\ no_cut inp i
  end.

Lemma selected_skip inp i r :
  (unprotected inp i = true -> ~ acceptable_cut inp i) ->
  selected inp (S i) r -> selected inp i r.
Proof.
  intros Hi. destruct r as [d|plan]; simpl.
  - intros [-> Hno]. split; [done|]. intros j Hj Hu.
    destruct (decide (j = i)) as [->|]; [auto|]. apply Hno; [lia|done].
  - intros (j & (Hj & Hu & Ha & Hmin) & ->). exists j. split; [|done].
    split; [lia|]. split; [done|]. split; [done|]. intros j' Hj' Hu'.
    destruct (decide (j' = i)) as [->|]; [auto|]. apply Hmin; [lia|done].
Qed.

Lemma plan_at_machine inp i :
  plan_bounded inp -> acceptable_cut inp i ->
  int_sub (request_tokens inp) (after_cut inp i) = request_tokens inp - after_cut inp i /\
  (if CompactPoint (Budget inp) <? int_add (after_cut inp i) 1
   then int_add (after_cut inp i) 1 else CompactPoint (Budget inp))
  = Z.max (CompactPoint (Budget inp)) (after_cut inp i + 1).
Proof.
  intros Hb [Hlt _]. pose proof (after_cut_range inp i Hb).
  unfold int_sub, int_add.
  rewrite !wrap64_id by (unfold in_int64, int64_min, int64_max in *; lia).
  split; [done|]. case_match; lia.
Qed.

(** The selection loop returns the plan of the first acceptable cut, and runs
    off the end only when no unprotected message is an acceptable cut. *)
Lemma selectSpan_spec inp i :
  plan_bounded inp -> (i <= length (MessageTokens inp))%nat ->
  selected inp i
    (selectSpan inp (request_tokens inp) i (drop i (MessageTokens inp))
       (digest_below inp i) (span_tokens inp (digest_below inp i))).
Proof.
  intros Hb. remember (length (MessageTokens inp) - i)%nat as n eqn:Hn.
  revert i Hn. induction n as [|n IH]; intros i Hn Hi.
  { assert (i = length (MessageTokens inp)) as -> by lia.
    rewrite drop_ge by lia. simpl. split; [done|]. intros ?; lia. }
  destruct (lookup_lt_is_Some_2 (MessageTokens inp) i ltac:(lia)) as [t Ht].
  rewrite (drop_S _ _ _ Ht). cbn [selectSpan].
  specialize (IH (S i) ltac:(lia) ltac:(lia)).
  pose proof (digest_below_S inp i) as HS.
  destruct (protectedAt (Protected inp) i) eqn:Hp.
  - assert (Hu : unprotected inp i = false) by (unfold unprotected; by rewrite Hp).
    rewrite Hu, app_nil_r in HS. rewrite HS in IH.
    apply selected_skip; [congruence|done].
  - assert (Hu : unprotected inp i = true) by (unfold unprotected; by rewrite Hp).
    rewrite Hu in HS. destruct (after_cut_machine inp i t Hb Ht Hu) as [-> ->].
    rewrite <- HS. pose proof (acceptable_cut_reflect inp i Hb) as Hacc.
    destruct (_ && _).
    + exists i. split; [|unfold plan_at].
      * split; [lia|]. split; [done|]. split; [by apply Hacc|]. intros; lia.
      * destruct (plan_at_machine inp i Hb (proj1 Hacc eq_refl)) as [-> ->]. done.
    + apply selected_skip; [|done]. intros _ Ha. by apply Hacc in Ha.
Qed.

(** The plan returned for a request that is already within budget. *)
Definition plan_unchanged (inp : CompactionInput) : CompactionPlan :=
  {| Compacted := false; Digested := [];
     Retained := protectedIndexes (Protected inp);
     Before := request_tokens inp; After := request_tokens inp;
     DigestedTokens := 0; NetSaved := 0; BudgetAfter := Budget inp |}.

(** The planner on bounded inputs, branch by branch. *)
Lemma PlanCompaction_cases inp :
  plan_bounded inp ->
  (ShouldCompact (Budget inp) (request_tokens inp) = false /\
     PlanCompaction inp = Ok (plan_unchanged inp)) \/
  (ShouldCompact (Budget inp) (request_tokens inp) = true /\
     exists j, first_cut inp 0 j /\ PlanCompaction inp = Ok (plan_at inp j)) \/
  (ShouldCompact (Budget inp) (request_tokens inp) = true /\ no_cut inp 0 /\
     exists e, PlanCompaction inp = Err e).
Proof.
  intros Hb. pose proof (selectSpan_spec inp 0 Hb ltac:(lia)) as Hsel.
  pose proof Hb as (Hf & Hm & Hd & Hr & Hmax). unfold PlanCompaction.
  replace (FixedTokens inp <? 0) with false by lia.
  rewrite (sumTokens_ok _ _ Hf Hm) by (unfold request_tokens in Hmax; lia). simpl.
  replace (DigestTokens inp <? 0) with false by lia.
  fold (request_tokens inp). destruct (ShouldCompact _ _); simpl; [|by left].
  rewrite drop_0 in Hsel. change (digest_below inp 0) with (@nil nat) in Hsel.
  change (span_tokens inp []) with 0 in Hsel. right. destruct (selectSpan _ _ _ _ _ _) as [d|plan]; simpl in Hsel.
  - right. destruct Hsel as [_ ?]. eauto.
  - left. destruct Hsel as (j & ? & ->). eauto.
Qed.

Lemma digest_below_unprotected inp n i :
  i ∈ digest_below inp n <-> (i < n)%nat /\ unprotected inp i = true.
Proof. unfold digest_below. rewrite list_elem_of_filter, elem_of_seq. split; intros []; split; auto; lia. Qed.

Lemma protectedAt_lookup protected i :
  protectedAt protected i = true <-> protected !! i = Some true.
Proof. unfold protectedAt. destruct (protected !! i) as [[]|]; simpl; split; congruence. Qed.

Lemma protectedIndexes_from_spec protected i k :
  k ∈ protectedIndexes_from i protected <-> exists n, k = (i + n)%nat /\ protected !! n = Some true.
Proof.
  revert i. induction protected as [|p rest IH]; intros i; simpl.
  - split; [by intros ?%not_elem_of_nil|]. intros (n & _ & H). by destruct n.
  - rewrite elem_of_app, IH. split.
    + intros [Hp|(n & -> & Hn)].
      * destruct p; [|by apply not_elem_of_nil in Hp].
        apply list_elem_of_singleton in Hp as ->. exists 0%nat. split; [lia|done].
      * exists (S n). split; [lia|done].
    + intros ([|n] & -> & Hn); simpl in Hn.
      * left. injection Hn as ->. rewrite Nat.add_0_r. by apply list_elem_of_singleton.
      * right. exists n. split; [lia|done].
Qed.

(** Under the no-wrap bounds the compact point is the exact percentage. *)
Lemma compact_point_exact effective percent :
  0 < effective -> MinCompactAtPercent <= percent <= MaxCompactAtPercent ->
  effective * 99 <= int64_max ->
  Z.quot (int_mul effective percent) 100 = effective * percent / 100.
Proof.
  unfold MinCompactAtPercent, MaxCompactAtPercent. intros.
  unfold int_mul. rewrite wrap64_id by (unfold in_int64, int64_min, int64_max in *; nia).
  apply Z.quot_div_nonneg; nia.
Qed.

(** ** Properties *)

(** C33: The compaction planner implements its contract on every bounded
    input.  A plan is returned exactly when the request needs none or some
    unprotected message is an acceptable cut; the compacting plan is the one
    of the first acceptable cut, so it digests the oldest unprotected messages
    only, as few as possible, keeps every protected message, reclaims tokens
    and fits the effective limit with its accounting exact; and the planner
    fails closed only when no cut is acceptable. *)
Theorem plan_compaction_correct (inp : CompactionInput) (Hb : plan_bounded inp) :
  match PlanCompaction inp with
  | Ok plan =>
      Before plan = request_tokens inp /\
      (Compacted plan = ShouldCompact (Budget inp) (request_tokens inp)) /\
      (forall i, i ∈ Retained plan <-> Protected inp !! i = Some true) /\
      (Compacted plan = false -> After plan = Before plan /\ Digested plan = [] /\
                                BudgetAfter plan = Budget inp) /\
      (Compacted plan = true -> exists j,
         first_cut inp 0 j /\
         Digested plan = digest_below inp (S j) /\
         (forall i, i ∈ Digested plan -> Protected inp !! i <> Some true) /\
         DigestedTokens plan = span_tokens inp (Digested plan) /\
         After plan = Before plan - DigestedTokens plan + DigestTokens inp /\
         NetSaved plan = Before plan - After plan /\ 0 < NetSaved plan /\
         After plan + OutputReservation (Budget inp) <= EffectiveLimit (Budget inp))
  | Err _ => ShouldCompact (Budget inp) (request_tokens inp) = true /\ no_cut inp 0
  end.
Proof.
  assert (Hret : forall i, i ∈ protectedIndexes (Protected inp) <-> Protected inp !! i = Some true).
  { intros i. unfold protectedIndexes. rewrite protectedIndexes_from_spec. split.
    - by intros (n & -> & ?).
    - intros ?. by exists i. }
  destruct (PlanCompaction_cases inp Hb) as [[Hs ->]|[(Hs & j & Hj & ->)|(Hs & Hno & e & ->)]];
    cbn -[digest_below]; [..|done]; rewrite Hs; repeat split; auto; try discriminate; try apply Hret.
  intros _. exists j. pose proof Hj as (_ & _ & (Hlt & Hfit) & _).
  repeat split; auto; try (unfold after_cut in *; lia); try apply Hj.
  intros i Hi Hp. apply digest_below_unprotected in Hi as [_ Hi].
  unfold unprotected in Hi. apply protectedAt_lookup in Hp. by rewrite Hp in Hi.
Qed.

(** Hysteresis.  After a successful compaction the calibrated budget does
    not fire again on the state the compaction produced. *)
Theorem plan_compaction_hysteresis (inp : CompactionInput) (plan : CompactionPlan)
    (Hb : plan_bounded inp) (Hok : PlanCompaction inp = Ok plan) (Hc : Compacted plan = true) :
  ShouldCompact (BudgetAfter plan) (After plan) = false.
Proof.
  pose proof Hb as (_ & _ & _ & Hr & _).
  destruct (PlanCompaction_cases inp Hb) as [[Hs HP]|[(Hs & j & Hj & HP)|(Hs & Hno & e & HP)]];
    rewrite HP in Hok; simplify_eq/=.
  pose proof Hj as (_ & _ & (Hlt & Hfit) & _). pose proof (after_cut_range inp j Hb).
  unfold ShouldCompact, int_add. cbn -[digest_below after_cut].
  rewrite wrap64_id by (unfold in_int64, int64_min, int64_max in *; lia).
  repeat case_match; lia.
Qed.

(** Budget resolution.  A resolved budget never exceeds a declared or a
    gateway-verified limit, is [healthy] exactly when the gateway verified
    one, leaves room for input beside the reservation, and its compact point
    is the declared fraction of the limit, between one token and the limit. *)
Theorem resolve_budget_sound (inp : ContextBudgetInput) (b : ContextBudget)
    (Hbound : EffectiveLimit b * 99 <= int64_max)
    (Hok : ResolveContextBudget inp = Ok b) :
  0 < EffectiveLimit b /\
  (0 < DeclaredMaxInputTokens inp -> EffectiveLimit b <= DeclaredMaxInputTokens inp) /\
  (0 < ProbedMaxInputTokens inp -> EffectiveLimit b <= ProbedMaxInputTokens inp) /\
  (State b = StateHealthy <-> 0 < ProbedMaxInputTokens inp) /\
  (State b = StateConfigured <-> ProbedMaxInputTokens inp = 0) /\
  0 <= OutputReservation b < EffectiveLimit b /\
  1 <= CompactPoint b <= EffectiveLimit b /\
  CompactPoint b = Z.max 1 (EffectiveLimit b *
     (if in_CompactAtPercent inp =? 0 then DefaultCompactAtPercent else in_CompactAtPercent inp) / 100).
Proof.
  unfold ResolveContextBudget in Hok.
  destruct (_ || _) eqn:Hneg in Hok; [done|].
  destruct (in_OutputReservation inp <? 0) eqn:Hres; [done|].
  set (percent := if in_CompactAtPercent inp =? 0 then _ else _) in *. clearbody percent.
  destruct ((percent <? _) || _) eqn:Hpct in Hok; [done|].
  apply orb_false_iff in Hpct as [?%Z.ltb_ge ?%Z.ltb_ge].
  apply orb_false_iff in Hneg as [?%Z.ltb_ge ?%Z.ltb_ge].
  assert (Hp : MinCompactAtPercent <= percent <= MaxCompactAtPercent) by done.
  destruct (if (0 <? DeclaredMaxInputTokens inp) && (0 <? ProbedMaxInputTokens inp) then _ else _)
    as [[[effective state] detail]|] eqn:Hsw; [|done].
  simpl in Hok. destruct (effective <=? in_OutputReservation inp) eqn:Hroom; [done|].
  injection Hok as <-. cbn [EffectiveLimit State OutputReservation CompactPoint] in *.
  assert (Hpos : 0 < effective) by lia.
  rewrite (compact_point_exact effective percent Hpos Hp Hbound).
  assert (effective * percent / 100 <= effective)
    by (apply Z.div_le_upper_bound; unfold MaxCompactAtPercent in Hp; nia).
  replace (if effective * percent / 100 <? 1 then 1 else effective * percent / 100)
    with (Z.max 1 (effective * percent / 100)) by (destruct (Z.ltb_spec (effective * percent / 100) 1); lia).
  unfold StateHealthy, StateConfigured in *.
  repeat case_match; simplify_eq; repeat split; intros; first [lia | done | discriminate].
Qed.

(** ** Witnesses *)

Definition example_budget : ContextBudget :=
  {| Role := "coder"; State := StateHealthy; EffectiveLimit := 100; CompactPoint := 75;
     OutputReservation := 10; Detail := EmptyString |}.

(** Six turns, the first and the last protected. *)
Definition example_input : CompactionInput :=
  {| MessageTokens := [20; 15; 15; 10; 20; 5]; Protected := [true; false; false; false; false; true];
     DigestTokens := 4; FixedTokens := 12; Budget := example_budget |}.

Lemma example_bounded : plan_bounded example_input.
Proof.
  unfold plan_bounded. cbn. repeat split; try lia; repeat constructor; lia.
Qed.

Lemma plan_compaction_correct_witness :
  match PlanCompaction example_input with
  | Ok plan => Digested plan = [1%nat] /\ Compacted plan = true /\ After plan = 86
  | Err _ => False
  end /\
  (exists j, first_cut example_input 0 j).
Proof.
  split; [vm_compute; repeat split; reflexivity|].
  pose proof (plan_compaction_correct example_input example_bounded) as H.
  destruct (PlanCompaction example_input) as [plan|e] eqn:HP; [|by vm_compute in HP].
  destruct H as (_ & _ & _ & _ & H). destruct H as (j & Hj & _); [|by exists j].
  vm_compute in HP. by injection HP as <-.
Defined.

Lemma plan_compaction_hysteresis_witness :
  exists plan, PlanCompaction example_input = Ok plan /\
               ShouldCompact (BudgetAfter plan) (After plan) = false.
Proof.
  eexists. split; [reflexivity|].
  apply (plan_compaction_hysteresis example_input _ example_bounded); reflexivity.
Defined.

Definition example_budget_input : ContextBudgetInput :=
  {| in_Role := "coder"; DeclaredMaxInputTokens := 200; ProbedMaxInputTokens := 128;
     in_CompactAtPercent := 0; in_OutputReservation := 10 |}.

Lemma resolve_budget_sound_witness :
  exists b, ResolveContextBudget example_budget_input = Ok b /\ CompactPoint b = 96 /\
            EffectiveLimit b <= 128.
Proof.
  eexists. split; [reflexivity|]. split; [reflexivity|].
  eapply (resolve_budget_sound example_budget_input); [vm_compute; discriminate|reflexivity|].
  reflexivity.
Defined.
