(* ===== verification/Branch.v ===== *)
(** * Work branch names (internal/branch/branch.go)

    The pure derivation of a run's work branch from its repository and issue
    number or idempotency key, shared by the operator and the harness. *)

From S2P Require Import Prelude GoStrings Regex Sha256.
Local Open Scope string_scope.
Local Open Scope Z_scope.

Definition validRepo (repo : string) : bool :=
  if negb (String.eqb (TrimSpace repo) repo) then false else
  match Split repo "/" with
  | [a; b] => negb (String.eqb a "") && negb (String.eqb b "") &&
              negb (ContainsAny repo (" " ++ str1 9 ++ str1 13 ++ nl))
  | _ => false
  end.

Definition ResolveIssueBranch (repo : string) (issue : Z) : string :=
  if negb (validRepo repo) || (issue <? 1) then "" else
  "courier/" ++ repo ++ "/issue-" ++ Itoa issue.

Definition mintedKeyPattern : re :=
  RSeqs [RBegin; RLit "adhoc-"; RGroup 1 (RTimes 12 (RSet is_hex)); REnd].

Definition goalKeyHex (key : string) : string :=
  match FindStringSubmatch mintedKeyPattern key with
  | Some m => group key 1 m
  | None => stake 12 (sha256_hex key)
  end.

Definition ResolveGoalBranch (baseRepo key : string) : string :=
  if negb (validRepo baseRepo) || String.eqb (TrimSpace key) "" then "" else
  "courier/" ++ baseRepo ++ "/goal-" ++ goalKeyHex key.

(** ** Lemmas *)

(** A valid repository is two path components. *)
Lemma validRepo_parts repo : validRepo repo = true -> exists a b, Split repo "/" = [a; b].
Proof.
  unfold validRepo. destruct (negb _); [done|]. destruct (Split repo "/") as [|a [|b [|]]]; try done. eauto.
Qed.

(** The path components of a work branch. *)
Lemma branch_parts repo last a b :
  Split repo "/" = [a; b] -> no_byte "/" last = true ->
  Split ("courier/" ++ repo ++ "/" ++ last) "/" = ["courier"; a; b; last].
Proof.
  intros Hr Hl. change ("courier/" ++ repo ++ "/" ++ last) with ("courier" ++ String "/" (repo ++ String "/" last)).
  rewrite Split_app, Split_app, Hr, (Split_single last) by done. reflexivity.
Qed.

Lemma issue_suffix_no_slash n : 0 <= n -> no_byte "/" ("issue-" ++ Itoa n) = true.
Proof.
  intros Hn. rewrite no_byte_app. cbn [no_byte]. destruct (Itoa_digits n Hn) as (Hd & _).
  by rewrite (all_digits_no_byte "/").
Qed.

Lemma ResolveIssueBranch_nonempty repo n :
  ResolveIssueBranch repo n <> "" ->
  exists a b, Split repo "/" = [a; b] /\ 1 <= n /\
    Split (ResolveIssueBranch repo n) "/" = ["courier"; a; b; "issue-" ++ Itoa n].
Proof.
  unfold ResolveIssueBranch. destruct (validRepo repo) eqn:Hr; [|done].
  destruct (Z.ltb_spec n 1); [done|]. cbn [negb orb]. intros _.
  destruct (validRepo_parts repo Hr) as (a & b & Hab). exists a, b. split_and!; [done|lia|].
  apply (branch_parts repo ("issue-" ++ Itoa n) a b Hab). apply issue_suffix_no_slash. lia.
Qed.

(** Bytes a sub-pattern consumed are free of the separator. *)
Lemma substr_no_byte P sep r s st st' k :
  (forall c, P c = true -> negb (Ascii.eqb c sep) = true) -> re_bytes P r -> den r st st' ->
  consumed k (start_state s) st -> no_byte sep (substr s (st_pos st) (st_pos st')) = true.
Proof.
  intros HP Hre Hden (Hpos & Hrest & _ & _). unfold substr. rewrite Hpos. cbn [start_state st_pos Nat.add] in *.
  assert (Hb := re_bytes_in P r st st' Hre Hden). cbn in Hrest. rewrite <- Hrest.
  unfold bytes_in in Hb. rewrite Hpos in Hb. cbn in Hb.
  revert Hb. generalize (st_pos st' - k)%nat as n. generalize (st_rest st) as t. clear -HP.
  intros t n. revert t. induction n as [|n IH]; intros [|c t] Hb; cbn; try done.
  rewrite (HP c), IH; [done| |apply (Hb 0%nat); [lia|done]].
  intros i d Hi Hd. apply (Hb (S i)); [lia|done].
Qed.

Lemma hex_no_slash c : is_hex c = true -> negb (Ascii.eqb c "/") = true.
Proof. intros H. destruct (Ascii.eqb_spec c "/") as [->|]; done. Qed.

Lemma re_bytes_times P n r : re_bytes P r -> re_bytes P (RTimes n r).
Proof. intros H. induction n as [|[|n] IH]; cbn; auto. Qed.

Lemma stake_no_byte sep n s : no_byte sep s = true -> no_byte sep (stake n s) = true.
Proof.
  revert n. induction s as [|c s IH]; intros [|n]; cbn; try done.
  intros [Hc Hs]%andb_true_iff. by rewrite Hc, IH.
Qed.

Lemma hex_digit_not_slash d : 0 <= d < 16 -> negb (Ascii.eqb (hex_digit d) "/") = true.
Proof.
  intros Hd. apply negb_true_iff, Ascii.eqb_neq. intros H. apply (f_equal byte_of) in H.
  change (byte_of "/") with 47 in H.
  unfold hex_digit in H. destruct (Z.ltb_spec d 10); rewrite chr_byte in H by lia; lia.
Qed.

Lemma EncodeToString_no_slash l : Forall (fun b => 0 <= b < 256) l -> no_byte "/" (EncodeToString l) = true.
Proof.
  induction 1 as [|b l Hb _ IH]; [done|].
  change (EncodeToString (b :: l)) with (hex_byte b ++ EncodeToString l). rewrite no_byte_app, IH. cbn [hex_byte no_byte].
  rewrite !hex_digit_not_slash; [done|apply Z.mod_pos_bound; lia|].
  split; [apply Z.div_pos; lia|apply Z.div_lt_upper_bound; lia].
Qed.

(** The suffix of a goal branch is one path component. *)
Lemma goalKeyHex_no_slash key : no_byte "/" (goalKeyHex key) = true.
Proof.
  unfold goalKeyHex. destruct (FindStringSubmatch mintedKeyPattern key) as [m|] eqn:Hm.
  - unfold FindStringSubmatch in Hm. pose proof (find_from_spec mintedKeyPattern key 0 None) as Hs.
    destruct (find_from mintedKeyPattern key 0 None) as [[b e]|]; [|done]. injection Hm as ->.
    destruct Hs as (n & _ & -> & Hd & _).
    destruct Hd as (s1 & [Hpos ->] & s2 & Hlit & s3 & (s4 & Hhex & ->) & _ & ->). cbn [Nat.add st_pos] in Hpos. subst n.
    unfold group. cbn [set_cap st_caps lookup_cap Nat.eqb st_pos].
    destruct (den_consumed _ _ _ Hlit) as [k Hk].
    apply (substr_no_byte is_hex "/" (RTimes 12 (RSet is_hex)) key s2 s4 k);
      [apply hex_no_slash|apply re_bytes_times; by intros ? ?|done|exact Hk].
  - apply stake_no_byte, EncodeToString_no_slash. apply Sum256_shape.
Qed.

Lemma ResolveGoalBranch_nonempty repo key :
  ResolveGoalBranch repo key <> "" ->
  exists a b, Split repo "/" = [a; b] /\
    Split (ResolveGoalBranch repo key) "/" = ["courier"; a; b; "goal-" ++ goalKeyHex key].
Proof.
  unfold ResolveGoalBranch. destruct (validRepo repo) eqn:Hr; [|done].
  destruct (String.eqb (TrimSpace key) ""); [done|]. cbn [negb orb]. intros _.
  destruct (validRepo_parts repo Hr) as (a & b & Hab). exists a, b. split; [done|].
  apply (branch_parts repo ("goal-" ++ goalKeyHex key) a b Hab).
  rewrite no_byte_app, goalKeyHex_no_slash. reflexivity.
Qed.

(** ** Properties *)

(** Work branches never collide: two issue branches are equal only for the
    same repository and issue, two goal branches only for the same repository
    and key suffix, and an issue branch is never a goal branch. *)
Theorem branches_disjoint (r1 r2 : string) (n1 n2 : Z) (k1 k2 : string) :
  (ResolveIssueBranch r1 n1 <> "" -> ResolveIssueBranch r1 n1 = ResolveIssueBranch r2 n2 -> r1 = r2 /\ n1 = n2) /\
  (ResolveGoalBranch r1 k1 <> "" -> ResolveGoalBranch r1 k1 = ResolveGoalBranch r2 k2 ->
   r1 = r2 /\ goalKeyHex k1 = goalKeyHex k2) /\
  (ResolveIssueBranch r1 n1 <> "" -> ResolveIssueBranch r1 n1 <> ResolveGoalBranch r2 k2).
Proof.
  split_and!.
  - intros Hne Heq. destruct (ResolveIssueBranch_nonempty r1 n1 Hne) as (a & b & Hr1 & Hn1 & H1).
    rewrite Heq in Hne. destruct (ResolveIssueBranch_nonempty r2 n2 Hne) as (c & d & Hr2 & Hn2 & H2).
    rewrite Heq, H2 in H1. injection H1 as -> -> Hs. apply (Itoa_inj n2 n1) in Hs; [|lia..].
    split; [|done]. apply (Split_inj _ _ "/"). congruence.
  - intros Hne Heq. destruct (ResolveGoalBranch_nonempty r1 k1 Hne) as (a & b & Hr1 & H1).
    rewrite Heq in Hne. destruct (ResolveGoalBranch_nonempty r2 k2 Hne) as (c & d & Hr2 & H2).
    rewrite Heq, H2 in H1. injection H1 as -> -> Hs. 
    split; [|exact (eq_sym Hs)]. apply (Split_inj _ _ "/"). congruence.
  - intros Hne Heq. destruct (ResolveIssueBranch_nonempty r1 n1 Hne) as (a & b & Hr1 & Hn1 & H1).
    rewrite Heq in Hne. destruct (ResolveGoalBranch_nonempty r2 k2 Hne) as (c & d & Hr2 & H2).
    rewrite Heq, H2 in H1. discriminate H1.
Qed.

(** ** Witnesses *)

Lemma branches_disjoint_witness :
  ResolveIssueBranch "misospace/courier" 12 = "courier/misospace/courier/issue-12" /\
  ResolveGoalBranch "misospace/courier" "adhoc-0123456789ab" = "courier/misospace/courier/goal-0123456789ab" /\
  ResolveIssueBranch "misospace/courier" 12 <> ResolveGoalBranch "misospace/courier" "adhoc-0123456789ab".
Proof.
  split; [vm_compute; reflexivity|]. split; [vm_compute; reflexivity|].
  apply (branches_disjoint "misospace/courier" "misospace/courier" 12 0 "" "adhoc-0123456789ab").
  vm_compute. discriminate.
Defined.
