(* ===== verification/Run.v ===== *)
(** * The CoderRun resource (api/v1alpha1/coderun_types.go, telemetry_types.go)

    The types of a run as the controller reads and writes them: the immutable
    spec, the status with every record it carries, and the object metadata the
    controller uses.  A [*T] field is an [option]; [metav1.Time] is an instant.
    Phase, Mode and the other enumerations are Go string types and stay
    strings, with the source's constants. *)

From S2P Require Import Prelude GoStrings GoTime.
Local Open Scope string_scope.
Local Open Scope Z_scope.

(** *** Modes *)

Definition Mode_ResolveIssue : string := "resolve-issue".
Definition Mode_FixPR : string := "fix-pr".
Definition Mode_Contribute : string := "contribute".
Definition Mode_Rebase : string := "rebase".

(** *** Phases *)

Definition PhasePending : string := "Pending".
Definition PhaseClaimed : string := "Claimed".
Definition PhaseRunning : string := "Running".
Definition PhaseVerifying : string := "Verifying".
Definition PhaseAwaitingReview : string := "AwaitingReview".
Definition PhaseHandedOff : string := "HandedOff".
Definition PhaseNeedsHuman : string := "NeedsHuman".
Definition PhaseDone : string := "Done".
Definition PhaseAlreadyDone : string := "AlreadyDone".
Definition PhaseFailed : string := "Failed".
Definition PhaseBlockedExternal : string := "BlockedExternal".

(** *** Retry states, refusal reasons and condition reasons *)

Definition RetryRequestStateRequested : string := "Requested".
Definition RetryRequestStateRequeued : string := "Requeued".
Definition RetryRequestStateMoot : string := "Moot".
Definition RetryRequestStateRefused : string := "Refused".
Definition RetryRefusalNotRetryablePhase : string := "not-retryable-phase".
Definition RetryRefusalAutomaticRecoveryChannel : string := "automatic-recovery-channel".
Definition RetryRefusalActiveOwnerExists : string := "active-owner-exists".
Definition RetryRefusalAlreadyRequeued : string := "already-requeued".
Definition RetryRefusalUpstreamClosed : string := "upstream-closed".
Definition RetryRefusalUnsupportedSource : string := "unsupported-source".
Definition RetryRefusalStaleGeneration : string := "stale-generation".
Definition RetryRefusalSourceRefused : string := "source-refused".
Definition RetryRefusalHeldForHuman : string := "held-for-human".
Definition ConditionReasonRetryRequested : string := "Requested".
Definition ConditionReasonRetryRequeued : string := "Requeued".
Definition ConditionReasonRetryMoot : string := "Moot".
Definition ConditionReasonRetryRefused : string := "Refused".
Definition ConditionRetryRequest : string := "RetryRequest".
Definition ConditionLifecycleReported : string := "LifecycleReported".
Definition ConditionCapacityRecovery : string := "CapacityRecovery".
Definition ConditionTrue : string := "True".
Definition ConditionFalse : string := "False".
Definition ConditionUnknown : string := "Unknown".

(** *** Annotations *)

Definition SoftStopAnnotation : string := "courier.misospace.dev/soft-stop".
Definition RetryAnnotation : string := "courier.misospace.dev/retry".

Definition RetryRequestMaxAttemptIDLength : Z := 256.

(** ** Nested status records *)

Record ControlRequest := {
  cr_ID : string;
  cr_Kind : string;
  cr_TargetPodUID : string;
  cr_RequestedAt : Time
}.
#[export] Instance ControlRequest_eq_dec : EqDecision ControlRequest.
Proof. solve_decision. Defined.

Record ControlRequestAck := {
  ack_ID : string;
  ack_At : Time
}.
#[export] Instance ControlRequestAck_eq_dec : EqDecision ControlRequestAck.
Proof. solve_decision. Defined.

Record RetryRequest := {
  rr_ID : string;
  rr_RequestedAt : Time;
  rr_State : string;
  rr_Reason : string;
  rr_AttemptID : string;
  rr_SettledAt : option Time
}.
#[export] Instance RetryRequest_eq_dec : EqDecision RetryRequest.
Proof. solve_decision. Defined.

Record Brief := {
  br_ID : string;
  br_Summary : string;
  br_Commit : string
}.
#[export] Instance Brief_eq_dec : EqDecision Brief.
Proof. solve_decision. Defined.

Record Checkpoint := {
  Plan : string;
  CompletedBriefs : list Brief
}.
#[export] Instance Checkpoint_eq_dec : EqDecision Checkpoint.
Proof. solve_decision. Defined.

Record Heartbeat := {
  hb_At : Time;
  hb_Kind : string;
  hb_CoordinatorPodUID : string
}.
#[export] Instance Heartbeat_eq_dec : EqDecision Heartbeat.
Proof. solve_decision. Defined.

Record CIParkState := {
  park_Head : string;
  ParkedAt : Time;
  park_Attempts : Z;
  LastOutcome : string
}.
#[export] Instance CIParkState_eq_dec : EqDecision CIParkState.
Proof. solve_decision. Defined.

Record CIRepairContext := {
  rep_Head : string;
  rep_Attempt : Z;
  FailedChecks : list string;
  rep_Logs : string;
  rep_FenceToken : string;
  rep_MaxAttempts : Z
}.
#[export] Instance CIRepairContext_eq_dec : EqDecision CIRepairContext.
Proof. solve_decision. Defined.

Record WorkspaceSafetyEvidence := {
  ws_State : string;
  ws_Branch : string;
  ws_Head : string;
  ws_RemoteHead : string
}.
#[export] Instance WorkspaceSafetyEvidence_eq_dec : EqDecision WorkspaceSafetyEvidence.
Proof. solve_decision. Defined.

Record TerminalContainerDiagnostic := {
  tc_PodName : string;
  tc_PodUID : string;
  tc_Namespace : string;
  tc_ContainerName : string;
  tc_ContainerID : string;
  tc_Image : string;
  tc_NodeName : string;
  tc_RestartCount : Z;
  tc_TerminationReason : string
}.
#[export] Instance TerminalContainerDiagnostic_eq_dec : EqDecision TerminalContainerDiagnostic.
Proof. solve_decision. Defined.

Record TerminalDiagnostic := {
  td_Category : string;
  td_ExitCode : option Z;
  td_Reason : string;
  td_Outcome : string;
  td_Container : option TerminalContainerDiagnostic;
  td_ObservedAt : option Time
}.
#[export] Instance TerminalDiagnostic_eq_dec : EqDecision TerminalDiagnostic.
Proof. solve_decision. Defined.

Record NativeResult := {
  nr_Kind : string;
  nr_Reason : string;
  nr_CoordinatorPodUID : string;
  nr_At : Time
}.
#[export] Instance NativeResult_eq_dec : EqDecision NativeResult.
Proof. solve_decision. Defined.

Record NoChangeCloseCriterion := {
  ncc_Criterion : string;
  ncc_Path : string;
  ncc_Excerpt : string
}.
#[export] Instance NoChangeCloseCriterion_eq_dec : EqDecision NoChangeCloseCriterion.
Proof. solve_decision. Defined.

Record NoChangeClose := {
  nc_Criteria : list NoChangeCloseCriterion;
  nc_Evidence : string;
  nc_CoordinatorPodUID : string;
  nc_At : Time
}.
#[export] Instance NoChangeClose_eq_dec : EqDecision NoChangeClose.
Proof. solve_decision. Defined.

Record ActiveOperation := {
  op_BriefID : string;
  op_CoordinatorPodUID : string;
  op_WorkerPodUID : string;
  DispatchedAt : Time
}.
#[export] Instance ActiveOperation_eq_dec : EqDecision ActiveOperation.
Proof. solve_decision. Defined.

Record SourceIssueRef := {
  sir_Owner : string;
  sir_Name : string;
  sir_Number : Z
}.
#[export] Instance SourceIssueRef_eq_dec : EqDecision SourceIssueRef.
Proof. solve_decision. Defined.

Record PinnedCriterion := {
  pc_ID : string;
  pc_Text : string;
  pc_Digest : string
}.
#[export] Instance PinnedCriterion_eq_dec : EqDecision PinnedCriterion.
Proof. solve_decision. Defined.

Record SkillPin := {
  sp_Name : string;
  sp_Digest : string
}.
#[export] Instance SkillPin_eq_dec : EqDecision SkillPin.
Proof. solve_decision. Defined.

Record PublicationPolicy := {
  pp_RunUID : string;
  pp_ProviderConfigRef : string;
  pp_ProviderEndpoint : string;
  pp_CredentialRefDigest : string;
  pp_BaseRepo : string;
  pp_BaseRef : string;
  pp_BaseOID : string;
  pp_WorkRepo : string;
  pp_WorkRef : string;
  pp_WorkInitiallyAbsent : bool;
  pp_WorkOID : string;
  pp_PRNumber : Z;
  pp_HeadAnchorOID : string;
  pp_SourceIssue : option SourceIssueRef;
  AcceptanceCriteria : list PinnedCriterion;
  AcceptanceCriteriaDigest : string
}.
#[export] Instance PublicationPolicy_eq_dec : EqDecision PublicationPolicy.
Proof. solve_decision. Defined.

Record ModelSurfaceProvenance := {
  ms_SchemaVersion : Z;
  ms_Digest : string;
  ms_CoordinatorPodUID : string;
  ms_At : Time
}.
#[export] Instance ModelSurfaceProvenance_eq_dec : EqDecision ModelSurfaceProvenance.
Proof. solve_decision. Defined.

Record CISettlement := {
  cs_FenceToken : string;
  cs_IdempotencyKey : string;
  cs_Result : string;
  cs_Head : string
}.
#[export] Instance CISettlement_eq_dec : EqDecision CISettlement.
Proof. solve_decision. Defined.

Record CIParkDeferral := {
  pd_Head : string;
  pd_IdempotencyKey : string
}.
#[export] Instance CIParkDeferral_eq_dec : EqDecision CIParkDeferral.
Proof. solve_decision. Defined.

Record CIParkRelease := {
  pl_Head : string;
  pl_IdempotencyKey : string
}.
#[export] Instance CIParkRelease_eq_dec : EqDecision CIParkRelease.
Proof. solve_decision. Defined.

Record TokenUsage := {
  tu_Input : Z;
  tu_Output : Z;
  tu_Reasoning : Z;
  tu_CacheRead : Z;
  tu_CacheWrite : Z;
  tu_Total : Z
}.
#[export] Instance TokenUsage_eq_dec : EqDecision TokenUsage.
Proof. solve_decision. Defined.

Record SubagentTally := {
  sa_Agent : string;
  sa_Model : string;
  sa_Calls : Z;
  sa_Errors : Z;
  sa_RuntimeMillis : Z
}.
#[export] Instance SubagentTally_eq_dec : EqDecision SubagentTally.
Proof. solve_decision. Defined.

Record RunTelemetry := {
  ModelCalls : Z;
  ToolCalls : Z;
  Sessions : Z;
  MaxContext : Z;
  Tokens : option TokenUsage;
  Subagents : list SubagentTally;
  DurationMillis : Z;
  Continuations : Z
}.
#[export] Instance RunTelemetry_eq_dec : EqDecision RunTelemetry.
Proof. solve_decision. Defined.

(** [metav1.Condition]. *)
Record Condition := {
  c_Type : string;
  c_Status : string;
  c_ObservedGeneration : Z;
  c_LastTransitionTime : Time;
  c_Reason : string;
  c_Message : string
}.
#[export] Instance Condition_eq_dec : EqDecision Condition.
Proof. solve_decision. Defined.

(** [*metav1.Time] where the code compares the pointers themselves: the
    address and the instant it points to. *)
Record TimePtr := { addr : Z; pointee : Time }.

(** ** The run *)

Record CoderRunSpec := {
  sp_Mode : string;
  sp_Source : string;
  sp_SourceAgent : string;
  sp_SourceContext : string;
  sp_WorkItemID : string;
  sp_AssignmentKind : string;
  sp_AssignmentReasons : list string;
  sp_Repo : string;
  sp_WorkRepo : string;
  sp_Ref : Z;
  sp_Lane : string;
  sp_Debug : bool
}.

Record CoderRunStatus := {
  SourceReceipt : string;
  Phase : string;
  st_PublicationPolicy : option PublicationPolicy;
  SkillPins : option (list SkillPin);
  st_Branch : string;
  HeadRepo : string;
  HeadSHA : string;
  PR : string;
  AdmittedAt : option Time;
  StartedAt : option Time;
  FinishedAt : option Time;
  PhaseEnteredAt : option TimePtr;
  WaitDuration : string;
  RunDuration : string;
  LastCommit : string;
  CheckFingerprint : string;
  FailedCheckFingerprint : string;
  DeclaredNoChange : bool;
  NoChange : option NoChangeClose;
  LifecycleReportRetryToken : string;
  LifecycleReportActiveRetryToken : string;
  st_Checkpoint : option Checkpoint;
  st_Heartbeat : option Heartbeat;
  ActiveOperations : gmap string ActiveOperation;
  st_ControlRequest : option ControlRequest;
  st_ControlRequestAck : option ControlRequestAck;
  Restarts : Z;
  Telemetry : option RunTelemetry;
  WorkspaceSafety : option WorkspaceSafetyEvidence;
  st_TerminalDiagnostic : option TerminalDiagnostic;
  st_NativeResult : option NativeResult;
  ModelSurface : option ModelSurfaceProvenance;
  CIPark : option CIParkState;
  CIRepair : option CIRepairContext;
  st_CISettlement : option CISettlement;
  st_CIParkDeferral : option CIParkDeferral;
  st_CIParkRelease : option CIParkRelease;
  st_RetryRequest : option RetryRequest;
  Conditions : list Condition
}.

(** The object metadata the controller reads, the spec and the status. *)
Record CoderRun := {
  Namespace : string;
  run_Name : string;
  UID : string;
  ResourceVersion : string;
  Generation : Z;
  CreationTimestamp : Time;
  DeletionTimestamp : option Time;
  Finalizers : list string;
  Annotations : gmap string string;
  Spec : CoderRunSpec;
  Status : CoderRunStatus
}.

(** ** Assignments to fields *)

(** [with_field p]: the status [s] with the field [p] replaced by [v]. *)
Ltac with_field p :=
  match goal with
  | s : CoderRunStatus, v : _ |- _ =>
    let t := constr:(Build_CoderRunStatus
      (SourceReceipt s) (Phase s) (st_PublicationPolicy s) (SkillPins s) (st_Branch s) (HeadRepo s)
      (HeadSHA s) (PR s) (AdmittedAt s) (StartedAt s) (FinishedAt s) (PhaseEnteredAt s)
      (WaitDuration s) (RunDuration s) (LastCommit s) (CheckFingerprint s) (FailedCheckFingerprint
      s) (DeclaredNoChange s) (NoChange s) (LifecycleReportRetryToken s)
      (LifecycleReportActiveRetryToken s) (st_Checkpoint s) (st_Heartbeat s) (ActiveOperations s)
      (st_ControlRequest s) (st_ControlRequestAck s) (Restarts s) (Telemetry s) (WorkspaceSafety s)
      (st_TerminalDiagnostic s) (st_NativeResult s) (ModelSurface s) (CIPark s) (CIRepair s)
      (st_CISettlement s) (st_CIParkDeferral s) (st_CIParkRelease s) (st_RetryRequest s) (Conditions
      s)) in
    let f := eval pattern (p s) in t in
    match f with ?g _ => let r := eval cbv beta in (g v) in exact r end
  end.

Definition set_SourceReceipt (s : CoderRunStatus) (v : string) : CoderRunStatus := ltac:(with_field SourceReceipt).
Definition set_Phase (s : CoderRunStatus) (v : string) : CoderRunStatus := ltac:(with_field Phase).
Definition set_st_PublicationPolicy (s : CoderRunStatus) (v : option PublicationPolicy) : CoderRunStatus := ltac:(with_field st_PublicationPolicy).
Definition set_SkillPins (s : CoderRunStatus) (v : option (list SkillPin)) : CoderRunStatus := ltac:(with_field SkillPins).
Definition set_st_Branch (s : CoderRunStatus) (v : string) : CoderRunStatus := ltac:(with_field st_Branch).
Definition set_HeadRepo (s : CoderRunStatus) (v : string) : CoderRunStatus := ltac:(with_field HeadRepo).
Definition set_HeadSHA (s : CoderRunStatus) (v : string) : CoderRunStatus := ltac:(with_field HeadSHA).
Definition set_PR (s : CoderRunStatus) (v : string) : CoderRunStatus := ltac:(with_field PR).
Definition set_AdmittedAt (s : CoderRunStatus) (v : option Time) : CoderRunStatus := ltac:(with_field AdmittedAt).
Definition set_StartedAt (s : CoderRunStatus) (v : option Time) : CoderRunStatus := ltac:(with_field StartedAt).
Definition set_FinishedAt (s : CoderRunStatus) (v : option Time) : CoderRunStatus := ltac:(with_field FinishedAt).
Definition set_PhaseEnteredAt (s : CoderRunStatus) (v : option TimePtr) : CoderRunStatus := ltac:(with_field PhaseEnteredAt).
Definition set_WaitDuration (s : CoderRunStatus) (v : string) : CoderRunStatus := ltac:(with_field WaitDuration).
Definition set_RunDuration (s : CoderRunStatus) (v : string) : CoderRunStatus := ltac:(with_field RunDuration).
Definition set_CheckFingerprint (s : CoderRunStatus) (v : string) : CoderRunStatus := ltac:(with_field CheckFingerprint).
Definition set_FailedCheckFingerprint (s : CoderRunStatus) (v : string) : CoderRunStatus := ltac:(with_field FailedCheckFingerprint).
Definition set_DeclaredNoChange (s : CoderRunStatus) (v : bool) : CoderRunStatus := ltac:(with_field DeclaredNoChange).
Definition set_NoChange (s : CoderRunStatus) (v : option NoChangeClose) : CoderRunStatus := ltac:(with_field NoChange).
Definition set_LifecycleReportRetryToken (s : CoderRunStatus) (v : string) : CoderRunStatus := ltac:(with_field LifecycleReportRetryToken).
Definition set_LifecycleReportActiveRetryToken (s : CoderRunStatus) (v : string) : CoderRunStatus := ltac:(with_field LifecycleReportActiveRetryToken).
Definition set_st_ControlRequest (s : CoderRunStatus) (v : option ControlRequest) : CoderRunStatus := ltac:(with_field st_ControlRequest).
Definition set_st_ControlRequestAck (s : CoderRunStatus) (v : option ControlRequestAck) : CoderRunStatus := ltac:(with_field st_ControlRequestAck).
Definition set_Restarts (s : CoderRunStatus) (v : Z) : CoderRunStatus := ltac:(with_field Restarts).
Definition set_Telemetry (s : CoderRunStatus) (v : option RunTelemetry) : CoderRunStatus := ltac:(with_field Telemetry).
Definition set_WorkspaceSafety (s : CoderRunStatus) (v : option WorkspaceSafetyEvidence) : CoderRunStatus := ltac:(with_field WorkspaceSafety).
Definition set_st_TerminalDiagnostic (s : CoderRunStatus) (v : option TerminalDiagnostic) : CoderRunStatus := ltac:(with_field st_TerminalDiagnostic).
Definition set_CIPark (s : CoderRunStatus) (v : option CIParkState) : CoderRunStatus := ltac:(with_field CIPark).
Definition set_CIRepair (s : CoderRunStatus) (v : option CIRepairContext) : CoderRunStatus := ltac:(with_field CIRepair).
Definition set_st_CISettlement (s : CoderRunStatus) (v : option CISettlement) : CoderRunStatus := ltac:(with_field st_CISettlement).
Definition set_st_CIParkDeferral (s : CoderRunStatus) (v : option CIParkDeferral) : CoderRunStatus := ltac:(with_field st_CIParkDeferral).
Definition set_st_CIParkRelease (s : CoderRunStatus) (v : option CIParkRelease) : CoderRunStatus := ltac:(with_field st_CIParkRelease).
Definition set_st_RetryRequest (s : CoderRunStatus) (v : option RetryRequest) : CoderRunStatus := ltac:(with_field st_RetryRequest).
Definition set_Conditions (s : CoderRunStatus) (v : list Condition) : CoderRunStatus := ltac:(with_field Conditions).

Definition set_Annotations (s : CoderRun) (v : gmap string string) : CoderRun :=
  {| Namespace := Namespace s; run_Name := run_Name s; UID := UID s; ResourceVersion := ResourceVersion s;
     Generation := Generation s; CreationTimestamp := CreationTimestamp s; DeletionTimestamp :=
     DeletionTimestamp s; Finalizers := Finalizers s; Annotations := v; Spec := Spec s;
     Status := Status s |}.

Definition set_Status (s : CoderRun) (v : CoderRunStatus) : CoderRun :=
  {| Namespace := Namespace s; run_Name := run_Name s; UID := UID s; ResourceVersion := ResourceVersion s;
     Generation := Generation s; CreationTimestamp := CreationTimestamp s; DeletionTimestamp :=
     DeletionTimestamp s; Finalizers := Finalizers s; Annotations := Annotations s; Spec
     := Spec s; Status := v |}.

Definition annotation (run : CoderRun) (key : string) : string := default "" (Annotations run !! key).

(** [run.DeepCopy()]: every pointer is fresh; only the address of
    [PhaseEnteredAt] is observable. *)
Definition DeepCopy (fresh : Z) (run : CoderRun) : CoderRun :=
  set_Status run (set_PhaseEnteredAt (Status run)
    ((fun p => {| addr := fresh; pointee := pointee p |}) <$> PhaseEnteredAt (Status run))).

(** A new object: the zero status and the metadata its creator sets. *)
Definition zero_status : CoderRunStatus :=
  {| SourceReceipt := ""; Phase := ""; st_PublicationPolicy := None; SkillPins := None;
     st_Branch := ""; HeadRepo := ""; HeadSHA := ""; PR := ""; AdmittedAt := None; StartedAt := None;
     FinishedAt := None; PhaseEnteredAt := None; WaitDuration := ""; RunDuration := ""; LastCommit := "";
     CheckFingerprint := ""; FailedCheckFingerprint := ""; DeclaredNoChange := false; NoChange := None;
     LifecycleReportRetryToken := ""; LifecycleReportActiveRetryToken := ""; st_Checkpoint := None;
     st_Heartbeat := None; ActiveOperations := ∅; st_ControlRequest := None; st_ControlRequestAck := None;
     Restarts := 0; Telemetry := None; WorkspaceSafety := None; st_TerminalDiagnostic := None;
     st_NativeResult := None; ModelSurface := None; CIPark := None; CIRepair := None; st_CISettlement := None;
     st_CIParkDeferral := None; st_CIParkRelease := None; st_RetryRequest := None; Conditions := [] |}.

Definition new_run (ns name : string) (spec : CoderRunSpec) : CoderRun :=
  {| Namespace := ns; run_Name := name; UID := ""; ResourceVersion := ""; Generation := 0;
     CreationTimestamp := zero_time; DeletionTimestamp := None; Finalizers := []; Annotations := ∅; Spec := spec; Status := zero_status |}.

(** ** Conditions

    [apimeta.FindStatusCondition] and [apimeta.SetStatusCondition] are library
    code; the controller relies on their documented behaviour. *)
Class ConditionOps := {
  FindStatusCondition : list Condition -> string -> option Condition;
  SetStatusCondition : list Condition -> Condition -> list Condition;
  RemoveStatusCondition : list Condition -> string -> list Condition;
  find_set_same : forall cs c, exists c',
    FindStatusCondition (SetStatusCondition cs c) (c_Type c) = Some c' /\
    c_Status c' = c_Status c /\ c_Reason c' = c_Reason c /\ c_Message c' = c_Message c;
  find_set_other : forall cs c t, t <> c_Type c ->
    FindStatusCondition (SetStatusCondition cs c) t = FindStatusCondition cs t;
  find_remove_same : forall cs t, FindStatusCondition (RemoveStatusCondition cs t) t = None;
  find_remove_other : forall cs t t', t' <> t ->
    FindStatusCondition (RemoveStatusCondition cs t) t' = FindStatusCondition cs t'
}.

(** One implementation, to evaluate examples: a keyed list that keeps the
    transition time while the status does not change. *)
Fixpoint set_condition (cs : list Condition) (c : Condition) : list Condition :=
  match cs with
  | [] => [c]
  | x :: rest =>
      if String.eqb (c_Type x) (c_Type c) then
        {| c_Type := c_Type c; c_Status := c_Status c; c_ObservedGeneration := c_ObservedGeneration c;
           c_LastTransitionTime := if String.eqb (c_Status x) (c_Status c) then c_LastTransitionTime x
                                   else c_LastTransitionTime c;
           c_Reason := c_Reason c; c_Message := c_Message c |} :: rest
      else x :: set_condition rest c
  end.

Definition find_condition (cs : list Condition) (t : string) : option Condition :=
  List.find (fun c => String.eqb (c_Type c) t) cs.

Lemma find_set_condition_same cs c : exists c',
  find_condition (set_condition cs c) (c_Type c) = Some c' /\
  c_Status c' = c_Status c /\ c_Reason c' = c_Reason c /\ c_Message c' = c_Message c.
Proof.
  induction cs as [|x cs IH]; cbn; [rewrite String.eqb_refl; eauto 10|].
  destruct (String.eqb (c_Type x) (c_Type c)) eqn:Hx; cbn; [rewrite String.eqb_refl; eauto 10|].
  rewrite Hx. exact IH.
Qed.

Lemma find_set_condition_other cs c t :
  t <> c_Type c -> find_condition (set_condition cs c) t = find_condition cs t.
Proof.
  intros Ht. induction cs as [|x cs IH]; cbn.
  - by destruct (String.eqb_spec (c_Type c) t).
  - destruct (String.eqb_spec (c_Type x) (c_Type c)) as [Hx|]; cbn.
    + rewrite Hx. by destruct (String.eqb_spec (c_Type c) t).
    + unfold find_condition in IH. by rewrite IH.
Qed.

Definition remove_condition (cs : list Condition) (t : string) : list Condition :=
  List.filter (fun c => negb (String.eqb (c_Type c) t)) cs.

Lemma find_remove_condition_same cs t : find_condition (remove_condition cs t) t = None.
Proof.
  induction cs as [|c cs IH]; cbn; [done|].
  destruct (String.eqb (c_Type c) t) eqn:Hc; cbn; [exact IH|]. rewrite Hc. exact IH.
Qed.

Lemma find_remove_condition_other cs t t' :
  t' <> t -> find_condition (remove_condition cs t) t' = find_condition cs t'.
Proof.
  intros Ht. induction cs as [|c cs IH]; cbn; [done|].
  destruct (String.eqb_spec (c_Type c) t) as [Hc|]; cbn.
  - rewrite Hc. destruct (String.eqb_spec t t') as [->|]; [done|exact IH].
  - destruct (String.eqb (c_Type c) t'); [done|exact IH].
Qed.

Definition keyed_conditions : ConditionOps :=
  {| FindStatusCondition := find_condition; SetStatusCondition := set_condition;
     RemoveStatusCondition := remove_condition;
     find_set_same := find_set_condition_same; find_set_other := find_set_condition_other;
     find_remove_same := find_remove_condition_same; find_remove_other := find_remove_condition_other |}.
