(* ===== verification/StatusPatch.v ===== *)
(** * Status patches (internal/status/status.go and [patchStatus] of
      internal/controller/coderun_controller.go)

    The operator writes a run's status as a narrow JSON merge patch: the
    difference between the copy it read and the copy it mutated.  [apply_patch]
    is the merge the API server performs (RFC 7386 over the Go encoding): an
    omitted key is left alone, null removes, a nested object is merged key by
    key, so a key its encoding omits keeps the persisted value. *)

From S2P Require Import Prelude Effects GoStrings GoTime Run.
Local Open Scope string_scope.
Local Open Scope Z_scope.

(** ** The operator's patch *)

(** A field that can be omitted, explicitly null, or set. *)
Inductive raw (A : Type) := Omit | Null | Value (a : A).
Arguments Omit {A}. Arguments Null {A}. Arguments Value {A} a.

Record OperatorPatch := {
  op_Phase : string;
  op_Branch : option string;
  op_HeadRepo : option string;
  op_HeadSHA : option string;
  op_PR : string;
  op_WorkspaceSafety : option WorkspaceSafetyEvidence;
  op_SourceReceipt : option string;
  op_AdmittedAt : option Time;
  op_StartedAt : option Time;
  op_FinishedAt : option Time;
  op_PhaseEnteredAt : option TimePtr;
  op_WaitDuration : string;
  op_RunDuration : string;
  op_CheckFingerprint : option string;
  op_FailedCheckFingerprint : option string;
  op_DeclaredNoChange : option bool;
  op_LifecycleReportRetryToken : option string;
  op_LifecycleReportActiveRetryToken : option string;
  op_Restarts : option Z;
  op_PublicationPolicy : option PublicationPolicy;
  op_SkillPins : option (list SkillPin);
  op_Telemetry : option RunTelemetry;
  op_TerminalDiagnostic : option TerminalDiagnostic;
  op_ControlRequest : raw ControlRequest;
  op_ControlRequestAck : raw ControlRequestAck;
  op_Conditions : raw (list Condition);
  op_CIPark : raw CIParkState;
  op_CIRepair : raw CIRepairContext;
  op_CISettlement : raw CISettlement;
  op_CIParkDeferral : raw CIParkDeferral;
  op_CIParkRelease : raw CIParkRelease;
  op_RetryRequest : option RetryRequest
}.

(** [reflect.DeepEqual(fields, status.OperatorPatch{})]. *)
Definition omitted_s (s : string) : bool := String.eqb s "".
Definition omitted {A} (o : option A) : bool := match o with None => true | Some _ => false end.
Definition omitted_r {A} (r : raw A) : bool := match r with Omit => true | _ => false end.

Definition is_empty_patch (p : OperatorPatch) : bool :=
  omitted_s (op_Phase p) &&
  omitted (op_Branch p) &&
  omitted (op_HeadRepo p) &&
  omitted (op_HeadSHA p) &&
  omitted_s (op_PR p) &&
  omitted (op_WorkspaceSafety p) &&
  omitted (op_SourceReceipt p) &&
  omitted (op_AdmittedAt p) &&
  omitted (op_StartedAt p) &&
  omitted (op_FinishedAt p) &&
  omitted (op_PhaseEnteredAt p) &&
  omitted_s (op_WaitDuration p) &&
  omitted_s (op_RunDuration p) &&
  omitted (op_CheckFingerprint p) &&
  omitted (op_FailedCheckFingerprint p) &&
  omitted (op_DeclaredNoChange p) &&
  omitted (op_LifecycleReportRetryToken p) &&
  omitted (op_LifecycleReportActiveRetryToken p) &&
  omitted (op_Restarts p) &&
  omitted (op_PublicationPolicy p) &&
  omitted (op_SkillPins p) &&
  omitted (op_Telemetry p) &&
  omitted (op_TerminalDiagnostic p) &&
  omitted_r (op_ControlRequest p) &&
  omitted_r (op_ControlRequestAck p) &&
  omitted_r (op_Conditions p) &&
  omitted_r (op_CIPark p) &&
  omitted_r (op_CIRepair p) &&
  omitted_r (op_CISettlement p) &&
  omitted_r (op_CIParkDeferral p) &&
  omitted_r (op_CIParkRelease p) &&
  omitted (op_RetryRequest p).

(** ** The difference of two copies *)

(** A replaceable field is emitted when it changed. *)
Definition changed {A} `{EqDecision A} (b a : A) : option A := if decide (b = a) then None else Some a.

(** A set-once pointer is emitted only when it goes from nil to set. *)
Definition set_once {A} (b a : option A) : option A := match b with None => a | Some _ => None end.

(** A set-once string. *)
Definition set_once_s (b a : string) : string := if String.eqb b "" then a else "".

(** A clearable record: emitted when changed, null when cleared. *)
Definition clearable {A} `{EqDecision A} (b a : option A) : raw A :=
  if decide (b = a) then Omit else match a with None => Null | Some v => Value v end.

(** A pointer comparison: two non-nil pointers are equal when their addresses are. *)
Definition same_pointer (b a : option TimePtr) : bool :=
  match b, a with
  | None, None => true
  | Some x, Some y => addr x =? addr y
  | _, _ => false
  end.

(** [SetConditions] turns an empty set into null. *)
Definition conditions_raw (b a : list Condition) : raw (list Condition) :=
  if decide (b = a) then Omit else match a with [] => Null | _ => Value a end.

(** The fields of the patch, in the order of [patchStatus]. *)
Definition operator_fields (before after : CoderRunStatus) : OperatorPatch :=
  {| op_Phase := if String.eqb (Phase before) (Phase after) then "" else Phase after;
     op_PhaseEnteredAt := if same_pointer (PhaseEnteredAt before) (PhaseEnteredAt after) then None
                          else PhaseEnteredAt after;
     op_Branch := changed (st_Branch before) (st_Branch after);
     op_HeadRepo := changed (HeadRepo before) (HeadRepo after);
     op_HeadSHA := changed (HeadSHA before) (HeadSHA after);
     op_PR := if String.eqb (PR before) (PR after) then "" else PR after;
     op_WorkspaceSafety := if decide (WorkspaceSafety before = WorkspaceSafety after) then None
                           else WorkspaceSafety after;
     op_SourceReceipt := if negb (String.eqb (SourceReceipt before) (SourceReceipt after)) &&
                            negb (String.eqb (SourceReceipt after) "") then Some (SourceReceipt after) else None;
     op_AdmittedAt := set_once (AdmittedAt before) (AdmittedAt after);
     op_StartedAt := set_once (StartedAt before) (StartedAt after);
     op_FinishedAt := set_once (FinishedAt before) (FinishedAt after);
     op_WaitDuration := set_once_s (WaitDuration before) (WaitDuration after);
     op_RunDuration := set_once_s (RunDuration before) (RunDuration after);
     op_CheckFingerprint := changed (CheckFingerprint before) (CheckFingerprint after);
     op_FailedCheckFingerprint := changed (FailedCheckFingerprint before) (FailedCheckFingerprint after);
     op_DeclaredNoChange := changed (DeclaredNoChange before) (DeclaredNoChange after);
     op_LifecycleReportRetryToken := changed (LifecycleReportRetryToken before) (LifecycleReportRetryToken after);
     op_LifecycleReportActiveRetryToken :=
       changed (LifecycleReportActiveRetryToken before) (LifecycleReportActiveRetryToken after);
     op_Restarts := changed (Restarts before) (Restarts after);
     op_PublicationPolicy := set_once (st_PublicationPolicy before) (st_PublicationPolicy after);
     op_SkillPins := set_once (SkillPins before) (SkillPins after);
     op_TerminalDiagnostic := set_once (st_TerminalDiagnostic before) (st_TerminalDiagnostic after);
     op_CIPark := clearable (CIPark before) (CIPark after);
     op_CIRepair := clearable (CIRepair before) (CIRepair after);
     op_CISettlement := clearable (st_CISettlement before) (st_CISettlement after);
     op_CIParkDeferral := clearable (st_CIParkDeferral before) (st_CIParkDeferral after);
     op_CIParkRelease := clearable (st_CIParkRelease before) (st_CIParkRelease after);
     op_RetryRequest := if decide (st_RetryRequest before = st_RetryRequest after) then None
                        else st_RetryRequest after;
     op_ControlRequest := clearable (st_ControlRequest before) (st_ControlRequest after);
     op_ControlRequestAck := clearable (st_ControlRequestAck before) (st_ControlRequestAck after);
     op_Conditions := conditions_raw (Conditions before) (Conditions after);
     op_Telemetry := if decide (Telemetry before = Telemetry after) then None else Telemetry after |}.

(** The restamp of the phase marker; [fresh] is the new pointer's address. *)
Definition stamp_phase (fresh : Z) (now : Time) (before after : CoderRunStatus) : CoderRunStatus :=
  if String.eqb (Phase before) (Phase after) then after
  else set_PhaseEnteredAt after (Some {| addr := fresh; pointee := now |}).

(** The write [patchStatus] issues, if any, and the mutated copy. *)
Definition status_write (fresh : Z) (now : Time) (before after : CoderRunStatus) :
    CoderRunStatus * option OperatorPatch :=
  let after := stamp_phase fresh now before after in
  let fields := operator_fields before after in
  (after, if is_empty_patch fields then None else Some fields).

(** ** The merge *)

(** [keep]: an omitted key keeps the persisted value. *)
Definition keep (old new : string) : string := if String.eqb new "" then old else new.
Definition keep_z (old new : Z) : Z := if new =? 0 then old else new.
Definition keep_l {A} (old new : list A) : list A := match new with [] => old | _ => new end.
Definition keep_o {A} (old new : option A) : option A := match new with None => old | _ => new end.

(** A nested object is merged into the persisted one. *)
Definition merge_o {A} (merge : A -> A -> A) (old new : option A) : option A :=
  match old, new with Some o, Some n => Some (merge o n) | None, _ => new | _, None => old end.

Definition merge_raw {A} (merge : A -> A -> A) (old : option A) (new : raw A) : option A :=
  match new with Omit => old | Null => None | Value n => merge_o merge old (Some n) end.

Definition replace {A} (_ new : A) : A := new.

Definition merge_ws (o n : WorkspaceSafetyEvidence) : WorkspaceSafetyEvidence :=
  {| ws_State := keep (ws_State o) (ws_State n); ws_Branch := keep (ws_Branch o) (ws_Branch n);
     ws_Head := keep (ws_Head o) (ws_Head n); ws_RemoteHead := keep (ws_RemoteHead o) (ws_RemoteHead n) |}.

Definition merge_park (o n : CIParkState) : CIParkState :=
  {| park_Head := park_Head n; ParkedAt := ParkedAt n; park_Attempts := park_Attempts n;
     LastOutcome := keep (LastOutcome o) (LastOutcome n) |}.

Definition merge_repair (o n : CIRepairContext) : CIRepairContext :=
  {| rep_Head := rep_Head n; rep_Attempt := rep_Attempt n; FailedChecks := keep_l (FailedChecks o) (FailedChecks n);
     rep_Logs := keep (rep_Logs o) (rep_Logs n); rep_FenceToken := keep (rep_FenceToken o) (rep_FenceToken n);
     rep_MaxAttempts := keep_z (rep_MaxAttempts o) (rep_MaxAttempts n) |}.

Definition merge_settlement (o n : CISettlement) : CISettlement :=
  {| cs_FenceToken := cs_FenceToken n; cs_IdempotencyKey := keep (cs_IdempotencyKey o) (cs_IdempotencyKey n);
     cs_Result := cs_Result n; cs_Head := keep (cs_Head o) (cs_Head n) |}.

Definition merge_retry (o n : RetryRequest) : RetryRequest :=
  {| rr_ID := rr_ID n; rr_RequestedAt := rr_RequestedAt n; rr_State := rr_State n; rr_Reason := rr_Reason n;
     rr_AttemptID := keep (rr_AttemptID o) (rr_AttemptID n); rr_SettledAt := rr_SettledAt n |}.

Definition merge_policy (o n : PublicationPolicy) : PublicationPolicy :=
  {| pp_RunUID := pp_RunUID n; pp_ProviderConfigRef := pp_ProviderConfigRef n;
     pp_ProviderEndpoint := keep (pp_ProviderEndpoint o) (pp_ProviderEndpoint n);
     pp_CredentialRefDigest := keep (pp_CredentialRefDigest o) (pp_CredentialRefDigest n);
     pp_BaseRepo := pp_BaseRepo n; pp_BaseRef := pp_BaseRef n; pp_BaseOID := pp_BaseOID n;
     pp_WorkRepo := pp_WorkRepo n; pp_WorkRef := pp_WorkRef n; pp_WorkInitiallyAbsent := pp_WorkInitiallyAbsent n;
     pp_WorkOID := keep (pp_WorkOID o) (pp_WorkOID n); pp_PRNumber := keep_z (pp_PRNumber o) (pp_PRNumber n);
     pp_HeadAnchorOID := keep (pp_HeadAnchorOID o) (pp_HeadAnchorOID n);
     pp_SourceIssue := keep_o (pp_SourceIssue o) (pp_SourceIssue n);
     AcceptanceCriteria := keep_l (AcceptanceCriteria o) (AcceptanceCriteria n);
     AcceptanceCriteriaDigest := keep (AcceptanceCriteriaDigest o) (AcceptanceCriteriaDigest n) |}.

Definition merge_container (o n : TerminalContainerDiagnostic) : TerminalContainerDiagnostic :=
  {| tc_PodName := keep (tc_PodName o) (tc_PodName n); tc_PodUID := keep (tc_PodUID o) (tc_PodUID n);
     tc_Namespace := keep (tc_Namespace o) (tc_Namespace n);
     tc_ContainerName := keep (tc_ContainerName o) (tc_ContainerName n);
     tc_ContainerID := keep (tc_ContainerID o) (tc_ContainerID n); tc_Image := keep (tc_Image o) (tc_Image n);
     tc_NodeName := keep (tc_NodeName o) (tc_NodeName n); tc_RestartCount := keep_z (tc_RestartCount o) (tc_RestartCount n);
     tc_TerminationReason := keep (tc_TerminationReason o) (tc_TerminationReason n) |}.

Definition merge_diagnostic (o n : TerminalDiagnostic) : TerminalDiagnostic :=
  {| td_Category := td_Category n; td_ExitCode := keep_o (td_ExitCode o) (td_ExitCode n);
     td_Reason := keep (td_Reason o) (td_Reason n); td_Outcome := keep (td_Outcome o) (td_Outcome n);
     td_Container := merge_o merge_container (td_Container o) (td_Container n);
     td_ObservedAt := keep_o (td_ObservedAt o) (td_ObservedAt n) |}.

Definition merge_usage (o n : TokenUsage) : TokenUsage :=
  {| tu_Input := keep_z (tu_Input o) (tu_Input n); tu_Output := keep_z (tu_Output o) (tu_Output n);
     tu_Reasoning := keep_z (tu_Reasoning o) (tu_Reasoning n); tu_CacheRead := keep_z (tu_CacheRead o) (tu_CacheRead n);
     tu_CacheWrite := keep_z (tu_CacheWrite o) (tu_CacheWrite n); tu_Total := keep_z (tu_Total o) (tu_Total n) |}.

Definition merge_telemetry (o n : RunTelemetry) : RunTelemetry :=
  {| ModelCalls := keep_z (ModelCalls o) (ModelCalls n); ToolCalls := keep_z (ToolCalls o) (ToolCalls n);
     Sessions := keep_z (Sessions o) (Sessions n); MaxContext := keep_z (MaxContext o) (MaxContext n);
     Tokens := merge_o merge_usage (Tokens o) (Tokens n); Subagents := keep_l (Subagents o) (Subagents n);
     DurationMillis := keep_z (DurationMillis o) (DurationMillis n);
     Continuations := keep_z (Continuations o) (Continuations n) |}.

(** The persisted status after the merge. *)
Definition apply_patch (s : CoderRunStatus) (p : OperatorPatch) : CoderRunStatus :=
  {| SourceReceipt := default (SourceReceipt s) (op_SourceReceipt p);
     Phase := keep (Phase s) (op_Phase p);
     st_PublicationPolicy := merge_o merge_policy (st_PublicationPolicy s) (op_PublicationPolicy p);
     SkillPins := keep_o (SkillPins s) (op_SkillPins p);
     st_Branch := default (st_Branch s) (op_Branch p);
     HeadRepo := default (HeadRepo s) (op_HeadRepo p);
     HeadSHA := default (HeadSHA s) (op_HeadSHA p);
     PR := keep (PR s) (op_PR p);
     AdmittedAt := keep_o (AdmittedAt s) (op_AdmittedAt p);
     StartedAt := keep_o (StartedAt s) (op_StartedAt p);
     FinishedAt := keep_o (FinishedAt s) (op_FinishedAt p);
     PhaseEnteredAt := keep_o (PhaseEnteredAt s) (op_PhaseEnteredAt p);
     WaitDuration := keep (WaitDuration s) (op_WaitDuration p);
     RunDuration := keep (RunDuration s) (op_RunDuration p);
     LastCommit := LastCommit s;
     CheckFingerprint := default (CheckFingerprint s) (op_CheckFingerprint p);
     FailedCheckFingerprint := default (FailedCheckFingerprint s) (op_FailedCheckFingerprint p);
     DeclaredNoChange := default (DeclaredNoChange s) (op_DeclaredNoChange p);
     NoChange := NoChange s;
     LifecycleReportRetryToken := default (LifecycleReportRetryToken s) (op_LifecycleReportRetryToken p);
     LifecycleReportActiveRetryToken :=
       default (LifecycleReportActiveRetryToken s) (op_LifecycleReportActiveRetryToken p);
     st_Checkpoint := st_Checkpoint s;
     st_Heartbeat := st_Heartbeat s;
     ActiveOperations := ActiveOperations s;
     st_ControlRequest := merge_raw replace (st_ControlRequest s) (op_ControlRequest p);
     st_ControlRequestAck := merge_raw replace (st_ControlRequestAck s) (op_ControlRequestAck p);
     Restarts := default (Restarts s) (op_Restarts p);
     Telemetry := merge_o merge_telemetry (Telemetry s) (op_Telemetry p);
     WorkspaceSafety := merge_o merge_ws (WorkspaceSafety s) (op_WorkspaceSafety p);
     st_TerminalDiagnostic := merge_o merge_diagnostic (st_TerminalDiagnostic s) (op_TerminalDiagnostic p);
     st_NativeResult := st_NativeResult s;
     ModelSurface := ModelSurface s;
     CIPark := merge_raw merge_park (CIPark s) (op_CIPark p);
     CIRepair := merge_raw merge_repair (CIRepair s) (op_CIRepair p);
     st_CISettlement := merge_raw merge_settlement (st_CISettlement s) (op_CISettlement p);
     st_CIParkDeferral := merge_raw replace (st_CIParkDeferral s) (op_CIParkDeferral p);
     st_CIParkRelease := merge_raw replace (st_CIParkRelease s) (op_CIParkRelease p);
     st_RetryRequest := merge_o merge_retry (st_RetryRequest s) (op_RetryRequest p);
     Conditions := match op_Conditions p with Omit => Conditions s | Null => [] | Value cs => cs end |}.

(** ** Lemmas *)

Lemma merge_o_none {A} (f : A -> A -> A) (o : option A) : merge_o f o None = o.
Proof. by destruct o. Qed.

Lemma changed_same {A} `{EqDecision A} (a : A) d : default d (changed a a) = d.
Proof. unfold changed. by rewrite decide_True. Qed.

Lemma changed_exact {A} `{EqDecision A} (b a : A) : default b (changed b a) = a.
Proof. unfold changed. by case_decide. Qed.

Lemma keep_changed (b a : string) : (a = "" -> b = "") -> keep b (if String.eqb b a then "" else a) = a.
Proof.
  intros H. unfold keep. destruct (String.eqb_spec b a) as [->|Hne]; [done|].
  destruct (String.eqb_spec a "") as [Ha|]; [|done]. specialize (H Ha). congruence.
Qed.

Lemma set_once_exact {A} (b a : option A) : (is_Some b -> a = b) -> keep_o b (set_once b a) = a.
Proof. destruct b, a; cbn; try done; intros H; symmetry; apply H; eauto. Qed.

Lemma set_once_merge {A} f (b a : option A) : (is_Some b -> a = b) -> merge_o f b (set_once b a) = a.
Proof. destruct b, a; cbn; try done; intros H; symmetry; apply H; eauto. Qed.

Lemma set_once_s_exact (b a : string) : (b <> "" -> a = b) -> keep b (set_once_s b a) = a.
Proof.
  intros H. unfold keep, set_once_s. destruct (String.eqb_spec b "") as [->|Hb].
  - by destruct (String.eqb_spec a "").
  - cbn. symmetry. auto.
Qed.

Lemma clearable_same {A} `{EqDecision A} f (a live : option A) : merge_raw f live (clearable a a) = live.
Proof. unfold clearable. by rewrite decide_True. Qed.

(** Merging loses nothing: the record encodes every key the old one set. *)
Definition lossless {A} (f : A -> A -> A) (b a : option A) : Prop := is_Some a -> merge_o f b a = a.

Lemma clearable_exact {A} `{EqDecision A} f (b a : option A) :
  lossless f b a -> merge_raw f b (clearable b a) = a.
Proof.
  unfold lossless, clearable. intros H. case_decide as Hd; [by cbn|]. destruct a; [|done]. cbn [merge_raw]. apply H. eauto.
Qed.

Lemma replace_lossless {A} (b a : option A) : lossless replace b a.
Proof. intros [v ->]. by destruct b. Qed.

Lemma merge_decide_exact {A} `{EqDecision A} f (b a : option A) :
  lossless f b a -> (a = None -> b = None) -> merge_o f b (if decide (b = a) then None else a) = a.
Proof.
  intros Hl Hn. case_decide as Hd; [subst; by destruct a|].
  destruct a; [apply Hl; eauto|]. rewrite Hn by done. done.
Qed.

Lemma retry_lossless b a :
  (forall o n, b = Some o -> a = Some n -> rr_AttemptID o = "" \/ rr_AttemptID n <> "") ->
  lossless merge_retry b a.
Proof.
  intros H [n ->]. destruct b as [o|]; [|done]. cbn. f_equal. destruct n as [i ra s r at_ se]. unfold merge_retry. cbn.
  f_equal. unfold keep. destruct (String.eqb_spec at_ ""); [|done]. subst.
  destruct (H o _ eq_refl eq_refl) as [->|Hn]; [done|]. by destruct Hn.
Qed.

(** ** What a patch leaves alone *)

(** The status fields the operator never writes. *)
Definition harness_fields (s : CoderRunStatus) :=
  (LastCommit s, NoChange s, st_Checkpoint s, st_Heartbeat s, ActiveOperations s, st_NativeResult s, ModelSurface s).

(** [f] is unchanged by the patch whenever the operator's two copies agree on it. *)
Definition frames {A} (f : CoderRunStatus -> A) (before after live result : CoderRunStatus) : Prop :=
  f before = f after -> f result = f live.

(** [f] is unchanged by the patch whenever the copy the operator read had it set. *)
Definition set_once_kept {A} (f : CoderRunStatus -> option A) (before live result : CoderRunStatus) : Prop :=
  is_Some (f before) -> f result = f live.

(** ** What a patch can express *)

(** The changes a merge patch of [before] and [after] carries in full. *)
Record expressible (before after : CoderRunStatus) : Prop := {
  ex_harness : harness_fields before = harness_fields after;
  ex_receipt : SourceReceipt after = "" -> SourceReceipt before = "";
  ex_phase : Phase after = "" -> Phase before = "";
  ex_pr : PR after = "" -> PR before = "";
  ex_pointer : same_pointer (PhaseEnteredAt before) (PhaseEnteredAt after) = true ->
               PhaseEnteredAt before = PhaseEnteredAt after;
  ex_marker : PhaseEnteredAt after = None -> PhaseEnteredAt before = None;
  ex_admitted : is_Some (AdmittedAt before) -> AdmittedAt after = AdmittedAt before;
  ex_started : is_Some (StartedAt before) -> StartedAt after = StartedAt before;
  ex_finished : is_Some (FinishedAt before) -> FinishedAt after = FinishedAt before;
  ex_policy : is_Some (st_PublicationPolicy before) -> st_PublicationPolicy after = st_PublicationPolicy before;
  ex_pins : is_Some (SkillPins before) -> SkillPins after = SkillPins before;
  ex_diagnostic : is_Some (st_TerminalDiagnostic before) -> st_TerminalDiagnostic after = st_TerminalDiagnostic before;
  ex_wait : WaitDuration before <> "" -> WaitDuration after = WaitDuration before;
  ex_run : RunDuration before <> "" -> RunDuration after = RunDuration before;
  ex_safety : lossless merge_ws (WorkspaceSafety before) (WorkspaceSafety after) /\
              (WorkspaceSafety after = None -> WorkspaceSafety before = None);
  ex_telemetry : lossless merge_telemetry (Telemetry before) (Telemetry after) /\
                 (Telemetry after = None -> Telemetry before = None);
  ex_retry : lossless merge_retry (st_RetryRequest before) (st_RetryRequest after) /\
             (st_RetryRequest after = None -> st_RetryRequest before = None);
  ex_park : lossless merge_park (CIPark before) (CIPark after);
  ex_repair : lossless merge_repair (CIRepair before) (CIRepair after);
  ex_settlement : lossless merge_settlement (st_CISettlement before) (st_CISettlement after)
}.

(** ** Properties *)

(** A status patch touches nothing else.  Against whatever status the API
    server holds, the operator's patch leaves every harness-owned field and
    every operator field on which its two copies agree exactly as persisted,
    and never rewrites a set-once field its copy had set: concurrent writers
    of different fields cannot undo each other. *)
Theorem patch_status_frame (before after live : CoderRunStatus) :
  let result := apply_patch live (operator_fields before after) in
  let fr {A} (f : CoderRunStatus -> A) := frames f before after live result in
  let once {A} (f : CoderRunStatus -> option A) := set_once_kept f before live result in
  harness_fields result = harness_fields live /\
  (fr SourceReceipt /\ fr Phase /\ fr st_Branch /\ fr HeadRepo /\ fr HeadSHA /\ fr PR /\ fr CheckFingerprint /\
   fr FailedCheckFingerprint /\ fr DeclaredNoChange /\ fr LifecycleReportRetryToken /\
   fr LifecycleReportActiveRetryToken /\ fr Restarts /\ fr st_ControlRequest /\ fr st_ControlRequestAck /\
   fr Telemetry /\ fr WorkspaceSafety /\ fr CIPark /\ fr CIRepair /\ fr st_CISettlement /\ fr st_CIParkDeferral /\
   fr st_CIParkRelease /\ fr st_RetryRequest /\ fr Conditions) /\
  (once AdmittedAt /\ once StartedAt /\ once FinishedAt /\ once st_PublicationPolicy /\ once SkillPins /\
   once st_TerminalDiagnostic).
Proof.
  intros result fr once. split; [done|]. subst fr once. unfold frames, set_once_kept.
  subst result. cbn [apply_patch operator_fields SourceReceipt Phase st_Branch HeadRepo HeadSHA PR CheckFingerprint
    FailedCheckFingerprint DeclaredNoChange LifecycleReportRetryToken LifecycleReportActiveRetryToken Restarts
    st_ControlRequest st_ControlRequestAck Telemetry WorkspaceSafety CIPark CIRepair st_CISettlement
    st_CIParkDeferral st_CIParkRelease st_RetryRequest Conditions AdmittedAt StartedAt FinishedAt
    st_PublicationPolicy SkillPins st_TerminalDiagnostic op_SourceReceipt op_Phase op_Branch op_HeadRepo op_HeadSHA
    op_PR op_CheckFingerprint op_FailedCheckFingerprint op_DeclaredNoChange op_LifecycleReportRetryToken
    op_LifecycleReportActiveRetryToken op_Restarts op_ControlRequest op_ControlRequestAck op_Telemetry
    op_WorkspaceSafety op_CIPark op_CIRepair op_CISettlement op_CIParkDeferral op_CIParkRelease op_RetryRequest
    op_Conditions op_AdmittedAt op_StartedAt op_FinishedAt op_PublicationPolicy op_SkillPins op_TerminalDiagnostic].
  unfold conditions_raw.
  split; split_and!; intros H;
    first [ by rewrite H, changed_same | by rewrite H, clearable_same | by rewrite H, String.eqb_refl
          | by rewrite decide_True, ?merge_o_none by exact H
          | destruct H as [v Hv]; rewrite Hv; apply merge_o_none | destruct H as [v Hv]; by rewrite Hv ].
Qed.

(** A status patch is complete: merged into the copy the operator read, it
    yields exactly the copy the operator computed, for every change a merge
    patch can express. *)
Theorem patch_status_exact (before after : CoderRunStatus) (Hex : expressible before after) :
  apply_patch before (operator_fields before after) = after.
Proof.
  destruct Hex as [Hh Hrec ? ? Hptr Hmark ? ? ? ? ? ? ? ? [? ?] [? ?] [? ?] ? ? ?].
  unfold harness_fields in Hh. simplify_eq Hh. intros ? ? ? ? ? ? ?.
  unfold apply_patch, operator_fields. destruct after as
    [a1 a2 a3 a4 a5 a6 a7 a8 a9 a10 a11 a12 a13 a14 a15 a16 a17 a18 a19 a20 a21 a22 a23
     a24 a25 a26 a27 a28 a29 a30 a31 a32 a33 a34 a35 a36 a37 a38 a39].
  cbn in *. f_equal;
    try done; try apply changed_exact; try (by apply keep_changed); try (by apply set_once_exact);
    try (by apply set_once_merge); try (by apply set_once_s_exact); try (by apply merge_decide_exact);
    try (by apply clearable_exact); try (apply clearable_exact, replace_lossless).
  - destruct (String.eqb_spec (SourceReceipt before) a1) as [->|Hne]; [done|]. cbn.
    destruct (String.eqb_spec a1 ""); cbn; [|done]. destruct Hne. rewrite Hrec; auto.
  - destruct (same_pointer _ _) eqn:Hp; [by rewrite Hptr|]. destruct a12; [done|]. by rewrite Hmark.
  - unfold conditions_raw. case_decide; [done|]. by destruct a39.
Qed.

(** A reconcile always writes.  The copy [patchStatus] compares with is a
    deep copy, so its phase marker is a different pointer to the same instant:
    the marker is re-emitted and the "nothing changed" shortcut is never taken
    once a run has entered a phase, even when no field changed at all. *)
Theorem patch_status_never_noop (run : CoderRun) (fresh fresh' : Z) (now : Time) (ptr : TimePtr)
    (Hmark : PhaseEnteredAt (Status run) = Some ptr) (Hfresh : fresh <> addr ptr) :
  exists fields, status_write fresh' now (Status (DeepCopy fresh run)) (Status run) = (Status run, Some fields) /\
    op_PhaseEnteredAt fields = Some ptr.
Proof.
  unfold status_write, stamp_phase. cbn [DeepCopy Status set_Status set_PhaseEnteredAt Phase].
  rewrite String.eqb_refl. eexists. split.
  - unfold is_empty_patch. cbn [operator_fields op_PhaseEnteredAt set_PhaseEnteredAt PhaseEnteredAt].
    rewrite Hmark. cbn [fmap option_fmap option_map same_pointer addr].
    destruct (Z.eqb_spec fresh (addr ptr)); [done|]. cbn [omitted]. rewrite !andb_false_r. reflexivity.
  - cbn [operator_fields op_PhaseEnteredAt set_PhaseEnteredAt PhaseEnteredAt]. rewrite Hmark.
    cbn [fmap option_fmap option_map same_pointer addr]. by destruct (Z.eqb_spec fresh (addr ptr)).
Qed.

(** ** Witnesses *)

Definition empty_status : CoderRunStatus :=
  {| SourceReceipt := ""; Phase := PhasePending; st_PublicationPolicy := None; SkillPins := None; st_Branch := "";
     HeadRepo := ""; HeadSHA := ""; PR := ""; AdmittedAt := None; StartedAt := None; FinishedAt := None;
     PhaseEnteredAt := Some {| addr := 1; pointee := 5 * Second |}; WaitDuration := ""; RunDuration := "";
     LastCommit := ""; CheckFingerprint := ""; FailedCheckFingerprint := ""; DeclaredNoChange := false;
     NoChange := None; LifecycleReportRetryToken := ""; LifecycleReportActiveRetryToken := "";
     st_Checkpoint := None; st_Heartbeat := None; ActiveOperations := ∅; st_ControlRequest := None;
     st_ControlRequestAck := None; Restarts := 0; Telemetry := None; WorkspaceSafety := None;
     st_TerminalDiagnostic := None; st_NativeResult := None; ModelSurface := None; CIPark := None; CIRepair := None;
     st_CISettlement := None; st_CIParkDeferral := None; st_CIParkRelease := None; st_RetryRequest := None;
     Conditions := [] |}.

Definition example_spec : CoderRunSpec :=
  {| sp_Mode := Mode_ResolveIssue; sp_Source := "dispatch"; sp_SourceAgent := ""; sp_SourceContext := "{}";
     sp_WorkItemID := "item-1"; sp_AssignmentKind := ""; sp_AssignmentReasons := []; sp_Repo := "misospace/courier";
     sp_WorkRepo := ""; sp_Ref := 12; sp_Lane := "default"; sp_Debug := false |}.

Definition example_run : CoderRun :=
  {| Namespace := "agents"; run_Name := "run-1"; UID := "uid-1"; ResourceVersion := "7"; Generation := 1;
     CreationTimestamp := 0; DeletionTimestamp := None; Finalizers := []; Annotations := ∅; Spec := example_spec; Status := empty_status |}.

Lemma patch_status_exact_witness :
  apply_patch empty_status (operator_fields empty_status (set_Phase empty_status PhaseClaimed)) =
  set_Phase empty_status PhaseClaimed.
Proof.
  apply patch_status_exact.
  constructor; cbn; try done; try (intros [? ?]; done); try (split; [intros [? ?]; done|done]); intros [? ?]; done.
Defined.

Lemma patch_status_never_noop_witness :
  exists fields, status_write 3 0 (Status (DeepCopy 2 example_run)) (Status example_run) = (Status example_run, Some fields).
Proof.
  destruct (patch_status_never_noop example_run 2 3 0 {| addr := 1; pointee := 5 * Second |}) as (fields & H & _);
    [reflexivity|discriminate|]. exists fields. exact H.
Defined.
