(* ===== verification/Lane.v ===== *)
(** * Lane profiles (api/v1alpha1/laneprofile_types.go, resources.go)

    A lane's spec and status, its suspension and capacity cooldown, and the pod
    sizing policy.  A [resource.Quantity] is its text; [CmpZero] stands for the
    sign of the quantity it denotes, which the sizing code asks for with
    [CmpInt64(0)]. *)

From S2P Require Import Prelude GoStrings GoTime Run.
Local Open Scope string_scope.
Local Open Scope Z_scope.

Definition SuspendAnnotation : string := "courier.misospace.dev/suspend".

Definition Quantity : Type := string.

Abbreviation ResourceList := (gmap string Quantity).

Definition ResourceCPU : string := "cpu".
Definition ResourceMemory : string := "memory".

Record PodResources := { Requests : ResourceList; Limits : ResourceList }.

Record RoleContextBudget := { rcb_MaxInputTokens : Z; rcb_CompactAtPercent : Z; rcb_OutputReservation : Z }.

Record ContextPolicy := {
  cp_CompactAtPercent : Z;
  cp_OutputReservation : Z;
  cp_Roles : gmap string RoleContextBudget
}.

Record CIRepairPolicy := {
  MechanicalChecks : list string;
  crp_MaxAttempts : Z;
  ObservationWindowSeconds : Z
}.

Record LaneProfileSpec := {
  RuntimeImage : string;
  Concurrency : Z;
  Roles : gmap string string;
  Transport : string;
  Framing : string;
  CapacityGroup : string;
  lp_Context : option ContextPolicy;
  lp_Resources : PodResources;
  lp_CIRepair : option CIRepairPolicy;
  Skills : list string
}.

Record CapacityCooldown := {
  CapacityID : string;
  cc_Reason : string;
  ExhaustionCount : Z;
  LastExhaustedRun : string;
  NextEligibleAt : Time
}.

Record LaneProfileStatus := { lp_CapacityCooldown : option CapacityCooldown }.

Record LaneProfile := {
  lp_Name : string;
  lp_Annotations : gmap string string;
  lp_Spec : LaneProfileSpec;
  lp_Status : LaneProfileStatus
}.

(** ** Suspension and cooldown *)

Definition Suspended (l : LaneProfile) : bool :=
  EqualFold (TrimSpace (default "" (lp_Annotations l !! SuspendAnnotation))) "true".

Definition CapacityIdentity (l : LaneProfile) : string :=
  let group := TrimSpace (CapacityGroup (lp_Spec l)) in
  if negb (String.eqb group "") then group else lp_Name l.

Definition ActiveFor (c : option CapacityCooldown) (capacityID : string) (now : Time) : bool :=
  match c with
  | None => false
  | Some c => negb (String.eqb (CapacityID c) "") && String.eqb (CapacityID c) capacityID && After (NextEligibleAt c) now
  end.

Definition CooldownActive (l : LaneProfile) (now : Time) : bool :=
  ActiveFor (lp_CapacityCooldown (lp_Status l)) (CapacityIdentity l) now.

Fixpoint first_active (identity : string) (lanes : list LaneProfile) (now : Time) : option CapacityCooldown :=
  match lanes with
  | [] => None
  | l :: rest =>
      let cooldown := lp_CapacityCooldown (lp_Status l) in
      if ActiveFor cooldown identity now then cooldown else first_active identity rest now
  end.

Definition CapacityCooldownActive (target : LaneProfile) (lanes : list LaneProfile) (now : Time) : option CapacityCooldown :=
  first_active (CapacityIdentity target) lanes now.

(** ** Pod sizing *)

Definition DefaultPodResources : PodResources :=
  {| Requests := {[ ResourceCPU := "250m"; ResourceMemory := "512Mi" ]};
     Limits := {[ ResourceCPU := "2"; ResourceMemory := "4Gi" ]} |}.

Definition DefaultObserverResources : PodResources :=
  {| Requests := {[ ResourceCPU := "25m"; ResourceMemory := "64Mi" ]};
     Limits := {[ ResourceCPU := "1"; ResourceMemory := "512Mi" ]} |}.

Definition ProbePodResources : PodResources :=
  {| Requests := {[ ResourceCPU := "10m"; ResourceMemory := "32Mi" ]};
     Limits := {[ ResourceCPU := "500m"; ResourceMemory := "256Mi" ]} |}.

(** The first offending key of a sizing: the half, the resource, the quantity. *)
Inductive resources_error := ErrNotPositive (what name : string) (q : Quantity).

Section Sizing.
Variable CmpZero : Quantity -> Z.

(** One iteration of the flooring loop. *)
Definition floor_request (name : string) (floor : Quantity) (requests : ResourceList) : ResourceList :=
  match requests !! name with
  | Some q => if CmpZero q <=? 0 then <[name := floor]> requests else requests
  | None => <[name := floor]> requests
  end.

Definition EffectivePodResources (r : PodResources) : PodResources :=
  if (size (Requests r) =? 0)%nat && (size (Limits r) =? 0)%nat then DefaultPodResources else
  {| Requests := map_fold floor_request (Requests r) (Requests DefaultPodResources); Limits := Limits r |}.

Definition validate_key (what name : string) (l : ResourceList) : option resources_error :=
  match l !! name with
  | None => None
  | Some q => if CmpZero q <=? 0 then Some (ErrNotPositive what name q) else None
  end.

Definition first_error (errs : list (option resources_error)) : option resources_error := head (omap id errs).

Definition ValidatePodResources (r : PodResources) : option resources_error :=
  first_error [validate_key "requests" ResourceCPU (Requests r); validate_key "requests" ResourceMemory (Requests r);
               validate_key "limits" ResourceCPU (Limits r); validate_key "limits" ResourceMemory (Limits r)].

Definition EffectiveResources (s : option LaneProfileSpec) : PodResources :=
  match s with None => DefaultPodResources | Some s => EffectivePodResources (lp_Resources s) end.

Definition ValidateResources (s : option LaneProfileSpec) : option resources_error :=
  match s with None => None | Some s => ValidatePodResources (lp_Resources s) end.

End Sizing.

(** ** Lemmas *)

(** A cooldown gates exactly the lanes of its own capacity identity. *)
Lemma cooldown_inactive_spec target lanes now :
  CapacityCooldownActive target lanes now = None ->
  forall l, l ∈ lanes -> ActiveFor (lp_CapacityCooldown (lp_Status l)) (CapacityIdentity target) now = false.
Proof.
  unfold CapacityCooldownActive. induction lanes as [|l rest IH]; intros Hn l' Hl'; [by apply not_elem_of_nil in Hl'|].
  cbn [first_active] in Hn. destruct (ActiveFor _ _ _) eqn:Ha.
  - destruct (lp_CapacityCooldown (lp_Status l)); [done|]. cbn in Ha. done.
  - apply elem_of_cons in Hl' as [->|Hl']; [done|]. by apply IH.
Qed.

Section Floor.
Variable CmpZero : Quantity -> Z.

(** The requests of the result. *)
Definition floored (l : ResourceList) : ResourceList :=
  floor_request CmpZero ResourceCPU "250m" (floor_request CmpZero ResourceMemory "512Mi" l).

Lemma floor_request_lookup name floor l k :
  floor_request CmpZero name floor l !! k =
  if decide (k = name) then
    match l !! name with Some q => if CmpZero q <=? 0 then Some floor else Some q | None => Some floor end
  else l !! k.
Proof.
  unfold floor_request. destruct (decide (k = name)) as [->|Hk]; destruct (l !! name) as [q|] eqn:Hq.
  - destruct (CmpZero q <=? 0); [by rewrite lookup_insert_eq|done].
  - by rewrite lookup_insert_eq.
  - destruct (CmpZero q <=? 0); [by rewrite lookup_insert_ne|done].
  - by rewrite lookup_insert_ne.
Qed.

Lemma floor_request_comm n1 f1 n2 f2 l :
  n1 <> n2 ->
  floor_request CmpZero n1 f1 (floor_request CmpZero n2 f2 l) = floor_request CmpZero n2 f2 (floor_request CmpZero n1 f1 l).
Proof.
  intros Hn. apply map_eq. intros k. rewrite !floor_request_lookup.
  repeat (case_decide; subst; try done); repeat (rewrite !floor_request_lookup; case_decide; subst; try done).
Qed.

(** The loop over the defaults, whatever order the map yields them in. *)
Lemma effective_requests l :
  map_fold (floor_request CmpZero) l (Requests DefaultPodResources) = floored l.
Proof.
  cbn [Requests DefaultPodResources]. rewrite map_fold_insert_L.
  - by rewrite map_fold_singleton.
  - intros j1 j2 z1 z2 y Hne H1 H2. by apply floor_request_comm.
  - done.
Qed.

Lemma floored_lookup l k :
  floored l !! k =
  let or_floor (d : Quantity) := match l !! k with Some q => if CmpZero q <=? 0 then Some d else Some q | None => Some d end in
  if decide (k = ResourceCPU) then or_floor "250m" else if decide (k = ResourceMemory) then or_floor "512Mi" else l !! k.
Proof.
  unfold floored. rewrite floor_request_lookup. destruct (decide (k = ResourceCPU)) as [->|H1].
  - by rewrite floor_request_lookup, decide_False by done.
  - rewrite floor_request_lookup. by destruct (decide (k = ResourceMemory)) as [->|H2].
Qed.

(** A sizing that passes validation keeps every request it declares. *)
Lemma floored_valid r : ValidatePodResources CmpZero r = None -> Requests r ⊆ floored (Requests r).
Proof.
  intros Hv. apply map_subseteq_spec. intros k q Hk. rewrite floored_lookup, Hk.
  assert (Hpos : k = ResourceCPU \/ k = ResourceMemory -> (CmpZero q <=? 0) = false).
  { unfold ValidatePodResources, validate_key in Hv.
    intros [-> | ->]; rewrite Hk in Hv; destruct (CmpZero q <=? 0); [|done| |done]; cbn in Hv; [done|].
    by destruct (Requests r !! ResourceCPU) as [q'|]; [destruct (CmpZero q' <=? 0)|]. }
  cbn. repeat case_decide; rewrite ?Hpos by auto; done.
Qed.

End Floor.

(** no pod is BestEffort and no lane is rewritten.  Whatever a lane
    configures, its pods request positive CPU and memory; a key other than
    those two, and every limit, is exactly what the lane wrote, and so is the
    whole sizing of a lane the launch validation accepts, but for the CPU and
    memory requests it left out.  The default quantities are positive. *)
Theorem effective_resources_floored (CmpZero : Quantity -> Z) (r : PodResources) :
  0 < CmpZero "250m" -> 0 < CmpZero "512Mi" ->
  let out := EffectivePodResources CmpZero r in
  (forall k, k = ResourceCPU \/ k = ResourceMemory -> exists q, Requests out !! k = Some q /\ 0 < CmpZero q) /\
  ((Requests r = ∅ /\ Limits r = ∅ /\ out = DefaultPodResources) \/
   (Limits out = Limits r /\
    (forall k, k <> ResourceCPU -> k <> ResourceMemory -> Requests out !! k = Requests r !! k) /\
    (ValidatePodResources CmpZero r = None -> Requests r ⊆ Requests out))).
Proof.
  intros Hc Hm. unfold EffectivePodResources. rewrite effective_requests.
  assert (Hfloor : forall l k, k = ResourceCPU \/ k = ResourceMemory ->
    exists q, floored CmpZero l !! k = Some q /\ 0 < CmpZero q).
  { intros l k Hk. rewrite floored_lookup. destruct Hk as [-> | ->]; cbn; (destruct (l !! _) as [q|]; [|by eauto]);
      destruct (Z.leb_spec (CmpZero q) 0); by eauto. }
  assert (Hother : forall l k, k <> ResourceCPU -> k <> ResourceMemory -> floored CmpZero l !! k = l !! k)
    by (intros l k H1 H2; rewrite floored_lookup; cbn; by rewrite !decide_False).
  destruct (decide (Requests r = ∅ /\ Limits r = ∅)) as [[Hr Hl]|Hne].
  { rewrite Hr, Hl, !map_size_empty. cbn [Nat.eqb andb]. split; [|by left].
    intros k [-> | ->]; [exists "250m"|exists "512Mi"]; done. }
  assert (Hcfg : (size (Requests r) =? 0)%nat && (size (Limits r) =? 0)%nat = false).
  { apply not_true_iff_false. intros [H1%Nat.eqb_eq H2%Nat.eqb_eq]%andb_true_iff. apply Hne.
    by rewrite map_size_empty_iff in H1, H2. }
  rewrite Hcfg. cbn [Requests Limits]. split; [apply Hfloor|]. right. split_and!; [done|apply Hother|].
  intros Hv. by apply floored_valid.
Qed.

Lemma effective_resources_floored_witness :
  exists q, Requests (EffectivePodResources (fun _ => 1) {| Requests := {[ "nvidia.com/gpu" := "1" ]}; Limits := ∅ |})
    !! ResourceMemory = Some q.
Proof.
  destruct (effective_resources_floored (fun _ => 1) {| Requests := {[ "nvidia.com/gpu" := "1" ]}; Limits := ∅ |}
    ltac:(lia) ltac:(lia)) as [H _].
  destruct (H ResourceMemory (or_intror eq_refl)) as (q & Hq & _). exists q. exact Hq.
Defined.
