(* ===== verification/Kube.v ===== *)
(** * The controller's world (internal/controller)

    The requests a reconciler makes: the API server (reads, metadata and status
    patches, create, delete), the clock, the source adapter, the forge, and the
    event and metric sinks.  A handler is a [prog kubeE]; the API server and
    the adapters answer arbitrarily.

    Also the source registry and work item of phase_machine.go, which the
    handlers share, and [patchStatus] as the one status write. *)

From S2P Require Import Prelude Effects GoStrings GoTime Sha256 Run StatusPatch Branch.
Local Open Scope string_scope.
Local Open Scope Z_scope.

(** ** Requests *)

Inductive api_error := NotFound | AlreadyExists | Conflict | ApiError (msg : string).

Definition IsNotFound (e : api_error) : bool := match e with NotFound => true | _ => false end.
Definition IsConflict (e : api_error) : bool := match e with Conflict => true | _ => false end.
Definition IsAlreadyExists (e : api_error) : bool := match e with AlreadyExists => true | _ => false end.

(** [source.Assignment] and [source.WorkItem]. *)
Record Assignment := { as_Kind : string; as_Reasons : list string }.

Record WorkItem := {
  wi_Context : string; wi_ID : string; wi_Mode : string; wi_Repo : string; wi_Ref : Z; wi_Lane : string;
  wi_Debug : bool; wi_Assignment : Assignment
}.

Record AttemptRequeueRequest := { FenceToken : string; IdempotencyKey : string; rq_Reason : string }.

Record AttemptRequeueResult := { AttemptID : string; ControllerMaterializesSuccessor : bool }.

(** What a requeue call fails with: the sentinel, a classified refusal, or
    anything else, which is transient. *)
Inductive requeue_error :=
| ErrUnsupportedRetry
| RetryRefusal (reason : string) (moot : bool)
| TransientError (msg : string).

(** The fields of [forge.PullRequest] the controller reads. *)
Record PullRequestRead := {
  pull_Number : Z; pull_State : string; pull_Merged : bool; pull_BaseRepo : string; pull_HeadRepo : string;
  pull_HeadRef : string
}.

Record HeadRef := { hr_Repo : string; hr_Branch : string; hr_SHA : string; hr_BaseRef : string }.

(** One structured event of the run's audit stream. *)
Record RetryEvent := {
  ev_RequestID : string; ev_State : string; ev_Reason : string; ev_AttemptID : string; ev_Successor : string
}.

Inductive kubeE : Type -> Type :=
| Now : kubeE Time
| GetRun (ns name : string) : kubeE (result api_error CoderRun)
| ListRuns (ns : string) : kubeE (result api_error (list CoderRun))
| PatchMeta (run before : CoderRun) : kubeE (result api_error unit)
| PatchStatusE (ns name : string) (fields : OperatorPatch) : kubeE (result api_error unit)
| CreateRun (run : CoderRun) : kubeE (result api_error unit)
| DeleteRun (ns name uid resourceVersion : string) : kubeE (result api_error unit)
| RequeueAttempt (adapter : string) (item : WorkItem) (req : AttemptRequeueRequest) :
    kubeE (result requeue_error AttemptRequeueResult)
| ReadPullRequest (repo : string) (number : Z) : kubeE (result string PullRequestRead)
| ResolveHead (run : CoderRun) : kubeE (result string HeadRef)
| Observe (metric label : string) : kubeE unit
| EmitRetry (run : CoderRun) (ev : RetryEvent) : kubeE unit.

(** ** Status writes *)

(** [run.DeepCopy()] at an address that is not the run's own. *)
Definition copy (run : CoderRun) : CoderRun :=
  DeepCopy (match PhaseEnteredAt (Status run) with Some p => addr p + 1 | None => 0 end) run.

(** [patchStatus]: the mutated run and the error.  The status metrics are
    recorded only after a successful write. *)
Definition patchStatus (before after : CoderRun) : prog kubeE (CoderRun * result api_error unit) :=
  now ← call Now;
  let fresh := match PhaseEnteredAt (Status before) with Some p => addr p + 1 | None => 0 end in
  let '(st, write) := status_write fresh now (Status before) (Status after) in
  let after := set_Status after st in
  match write with
  | None => Ret (after, Ok tt)
  | Some fields =>
      r ← call (PatchStatusE (Namespace after) (run_Name after) fields);
      match r with
      | Err e => Ret (after, Err e)
      | Ok _ => _ ← call (Observe "status" (Phase st)); Ret (after, Ok tt)
      end
  end.

(** ** The source registry *)

Record ContributionExecution := { Goal : string; ce_BaseRef : string }.

(** An adapter and the optional capabilities it implements; behind them sits
    source code the registry never looks into. *)
Record Adapter := {
  adapter_id : string;
  is_requeuer : bool;
  is_reporter : bool;
  is_close_reporter : bool;
  is_recovery_preparer : bool;
  is_capacity_recovery : bool;
  is_cipark : bool;
  is_cipark_probe : bool;
  is_prelauncher : bool;
  is_receipt_claimer : bool;
  is_execution_observer : bool;
  contribution : option (CoderRun -> result string ContributionExecution)
}.

Inductive registry_error :=
| ErrSourceRegistryRequired
| ErrUnknownSource
| ErrMissingWorkItemID
| ErrContributionContextUnsupported
| AdapterError (msg : string)
| SecureNeedsHuman (reason msg : string).

(** A registry may be nil, and an entry may hold a nil adapter. *)
Definition SourceRegistry : Type := gmap string (option Adapter).

Definition lookup (r : option SourceRegistry) (name : string) : result registry_error Adapter :=
  match r with
  | None => Err ErrSourceRegistryRequired
  | Some m => match m !! name with
              | Some (Some a) => Ok a
              | _ => Err ErrUnknownSource
              end
  end.

Definition lookupRun (r : option SourceRegistry) (run : CoderRun) : result registry_error Adapter :=
  if negb (String.eqb (sp_SourceAgent (Spec run)) "")
  then lookup r (sp_Source (Spec run) ++ ":" ++ sp_SourceAgent (Spec run))
  else lookup r (sp_Source (Spec run)).

(** [Register] ignores a nil registry, a blank name and a nil adapter. *)
Definition Register (r : option SourceRegistry) (name : string) (a : option Adapter) : option SourceRegistry :=
  match r, a with
  | Some m, Some _ => if String.eqb (TrimSpace name) "" then r else Some (<[name := a]> m)
  | _, _ => r
  end.

Definition ContributionExecutionFor (r : option SourceRegistry) (run : CoderRun) :
    result registry_error ContributionExecution :=
  a ← lookupRun r run;
  match contribution a with
  | None => Err ErrContributionContextUnsupported
  | Some f => match f run with Ok c => Ok c | Err m => Err (AdapterError m) end
  end.

Definition contributionContextReason : string := "ContributionContext".

Definition no_contribution : ContributionExecution := {| Goal := ""; ce_BaseRef := "" |}.

Definition launchContribution (r : option SourceRegistry) (run : CoderRun) :
    result registry_error ContributionExecution :=
  if negb (String.eqb (sp_Mode (Spec run)) Mode_Contribute) then Ok no_contribution else
  match ContributionExecutionFor r run with
  | Ok c => Ok c
  | Err ErrSourceRegistryRequired => Err ErrSourceRegistryRequired
  | Err ErrUnknownSource => Err ErrUnknownSource
  | Err ErrContributionContextUnsupported => Err ErrContributionContextUnsupported
  | Err (AdapterError m) => Err (SecureNeedsHuman contributionContextReason m)
  | Err e => Err e
  end.

Definition sourceWorkItem (run : CoderRun) : result registry_error WorkItem :=
  if String.eqb (TrimSpace (sp_WorkItemID (Spec run))) "" then Err ErrMissingWorkItemID else
  let context := if negb (String.eqb (SourceReceipt (Status run)) "") then SourceReceipt (Status run)
                 else sp_SourceContext (Spec run) in
  Ok {| wi_ID := sp_WorkItemID (Spec run); wi_Context := context; wi_Mode := sp_Mode (Spec run);
        wi_Repo := sp_Repo (Spec run); wi_Ref := sp_Ref (Spec run); wi_Lane := sp_Lane (Spec run);
        wi_Debug := sp_Debug (Spec run); wi_Assignment := {| as_Kind := ""; as_Reasons := [] |} |}.

Definition adapterAndWorkItem (r : option SourceRegistry) (run : CoderRun) :
    result registry_error (Adapter * WorkItem) :=
  a ← lookupRun r run;
  item ← sourceWorkItem run;
  Ok (a, item).

(** ** Run names (internal/source/runner.go) *)

Definition workKey (sourceName workItemID : string) : string := sourceName ++ str1 0 ++ workItemID.

Definition RunName (sourceName workItemID : string) : string :=
  "courier-" ++ stake 32 (sha256_hex (workKey sourceName workItemID)).

Definition SuccessorRunName (sourceName workItemID predecessorUID : string) : string :=
  "courier-" ++ stake 32 (sha256_hex (workKey sourceName workItemID ++ str1 0 ++ predecessorUID)).

(** ** The run's branch *)

Inductive branch_error :=
| ErrEmptyResolvedBranch
| ErrPRHeadResolverRequired
| ErrHeadRepositoryGone
| ResolverError (msg : string).

Definition resolveRunBranch (run : CoderRun) (resolver : bool) : prog kubeE (result branch_error HeadRef) :=
  let mode := sp_Mode (Spec run) in
  if String.eqb mode Mode_ResolveIssue then
    let resolved := ResolveIssueBranch (sp_Repo (Spec run)) (sp_Ref (Spec run)) in
    Ret (if String.eqb resolved "" then Err ErrEmptyResolvedBranch
         else Ok {| hr_Repo := sp_Repo (Spec run); hr_Branch := resolved; hr_SHA := ""; hr_BaseRef := "" |})
  else if String.eqb mode Mode_FixPR || String.eqb mode Mode_Rebase then
    if negb resolver then Ret (Err ErrPRHeadResolverRequired) else
    head ← call (ResolveHead run);
    match head with
    | Err m => Ret (Err (ResolverError m))
    | Ok head =>
        if String.eqb (TrimSpace (hr_Branch head)) "" then Ret (Err ErrEmptyResolvedBranch) else
        if String.eqb (TrimSpace (hr_Repo head)) "" then Ret (Err ErrHeadRepositoryGone) else
        Ret (Ok head)
    end
  else if String.eqb mode Mode_Contribute then
    if String.eqb (TrimSpace (sp_WorkRepo (Spec run))) "" then Ret (Err ErrEmptyResolvedBranch) else
    let resolved := ResolveGoalBranch (sp_Repo (Spec run)) (sp_WorkItemID (Spec run)) in
    Ret (if String.eqb resolved "" then Err ErrEmptyResolvedBranch
         else Ok {| hr_Repo := sp_WorkRepo (Spec run); hr_Branch := resolved; hr_SHA := ""; hr_BaseRef := "" |})
  else Ret (Err ErrEmptyResolvedBranch).

(** ** Admission (admission.go) *)

Definition phaseConsumesCapacity (phase : string) : bool :=
  String.eqb phase PhaseClaimed || String.eqb phase PhaseRunning.

Definition admittedCount (runs : list CoderRun) (lane : string) : Z :=
  Z.of_nat (length (List.filter (fun run => String.eqb (sp_Lane (Spec run)) lane &&
                                            phaseConsumesCapacity (Phase (Status run))) runs)).

Definition laneHasCapacity (runs : list CoderRun) (lane : string) (concurrency : Z) : bool :=
  let concurrency := if concurrency <=? 0 then 1 else concurrency in
  admittedCount runs lane <? concurrency.

(** ** The executions of a status write *)

Lemma wp_patchStatus before after (Q : trace kubeE -> CoderRun * result api_error unit -> Prop) :
  (forall now t out fresh st write,
     status_write fresh now (Status before) (Status after) = (st, write) ->
     (write = None /\ t = [Ev Now now] /\ out = (set_Status after st, Ok tt) \/
      exists fields, write = Some fields /\
        ((exists e, t = [Ev Now now; Ev (PatchStatusE (Namespace after) (run_Name after) fields) (Err e)] /\
                    out = (set_Status after st, Err e)) \/
         t = [Ev Now now; Ev (PatchStatusE (Namespace after) (run_Name after) fields) (Ok tt);
              Ev (Observe "status" (Phase st)) tt] /\ out = (set_Status after st, Ok tt))) ->
     Q t out) ->
  wp (patchStatus before after) Q.
Proof.
  intros H. unfold patchStatus. wp_cbn. intros now.
  set (fresh := match PhaseEnteredAt (Status before) with Some p => addr p + 1 | None => 0 end).
  destruct (status_write fresh now (Status before) (Status after)) as [st [fields|]] eqn:Hw; wp_cbn.
  - intros [[]|e]; wp_cbn.
    + intros []. eapply H; [exact Hw|]. right. exists fields. split; [done|]. right. done.
    + eapply H; [exact Hw|]. right. exists fields. split; [done|]. left. exists e. done.
  - eapply H; [exact Hw|]. left. done.
Qed.
