(* ===== verification/Backoff.v ===== *)
(** * The secure preflight's retry gate (internal/controller/preflight_backoff.go)

    Two annotations on the run, the consecutive-failure count and the time of
    the last failure, hold the next attempt back for a bounded, growing time. *)

From S2P Require Import Prelude Effects GoStrings GoTime Run StatusPatch Kube.
Local Open Scope string_scope.
Local Open Scope Z_scope.

Definition preflightBackoffBaseDelay : Duration := 15 * Second.
Definition preflightBackoffMaxDelay : Duration := 5 * Minute.
Definition preflightFailedAtAnnotation : string := "courier.misospace.dev/preflight-failed-at".
Definition preflightFailuresAnnotation : string := "courier.misospace.dev/preflight-failures".

(** The doubling loop from iteration [n]; it returns before the fuel is out,
    because the delay reaches the ceiling within five doublings. *)
Fixpoint delay_loop (fuel : nat) (n failures delay : Z) : Duration :=
  match fuel with
  | O => 0
  | S k =>
      if n <? failures then
        if preflightBackoffMaxDelay <=? delay then preflightBackoffMaxDelay
        else delay_loop k (n + 1) failures (int_mul delay 2)
      else if preflightBackoffMaxDelay <? delay then preflightBackoffMaxDelay else delay
  end.

Definition preflightBackoffDelay (failures : Z) : Duration :=
  let failures := if failures <? 1 then 1 else failures in
  delay_loop 8 1 failures preflightBackoffBaseDelay.

Definition recordedPreflightFailures (run : CoderRun) : Z * bool :=
  match Annotations run !! preflightFailuresAnnotation with
  | None => (0, false)
  | Some raw =>
      let '(count, ok) := Atoi (TrimSpace raw) in
      if negb ok || (count <? 1) then (0, false) else (count, true)
  end.

(** [now] is the reconciler's clock. *)
Definition preflightBackoffRemaining (now : Time) (run : CoderRun) : Duration * bool :=
  match Annotations run !! preflightFailedAtAnnotation with
  | None => (0, false)
  | Some raw =>
      match ParseRFC3339 raw with
      | None => (0, false)
      | Some stampedAt =>
          let '(failures, ok) := recordedPreflightFailures run in
          if negb ok then (0, false) else
          let delay := preflightBackoffDelay failures in
          let elapsed := Sub now stampedAt in
          if (elapsed <? 0) || (delay <=? elapsed) then (0, false) else (int_sub delay elapsed, true)
      end
  end.

Definition livePreflightFailures (run : CoderRun) : prog kubeE CoderRun :=
  live ← call (GetRun (Namespace run) (run_Name run));
  Ret (match live with Ok live => live | Err _ => run end).

(** The count an arming write records over the count it read. *)
Definition next_failures (previous : Z * bool) : Z :=
  if previous.2 then
    let failures := int_add previous.1 1 in
    if failures <=? previous.1 then previous.1 else failures
  else 1.

Definition armed_annotations (failures : Z) (now : Time) (m : gmap string string) : gmap string string :=
  <[preflightFailedAtAnnotation := FormatRFC3339 now]>
    (<[preflightFailuresAnnotation := Itoa failures]> m).

(** The run as mutated, and the error of the patch. *)
Definition armPreflightBackoff (run : CoderRun) : prog kubeE (CoderRun * result api_error unit) :=
  live ← livePreflightFailures run;
  let failures := next_failures (recordedPreflightFailures live) in
  now ← call Now;
  let after := set_Annotations run (armed_annotations failures now (Annotations run)) in
  r ← call (PatchMeta after (copy run));
  Ret (after, r).

Definition clearPreflightBackoff (run : CoderRun) : prog kubeE (CoderRun * result api_error unit) :=
  match Annotations run !! preflightFailedAtAnnotation, Annotations run !! preflightFailuresAnnotation with
  | None, None => Ret (run, Ok tt)
  | _, _ =>
      let after := set_Annotations run
        (delete preflightFailuresAnnotation (delete preflightFailedAtAnnotation (Annotations run))) in
      r ← call (PatchMeta after (copy run));
      Ret (after, r)
  end.

(** Best effort: the error is logged, and the run continues as cleared. *)
Definition clearPreflightBackoffAfterLaunch (run : CoderRun) : prog kubeE CoderRun :=
  r ← clearPreflightBackoff run;
  Ret r.1.

(** ** Lemmas *)

(** The schedule without the loop. *)
Definition backoff_schedule (failures : Z) : Z :=
  Z.min preflightBackoffMaxDelay (preflightBackoffBaseDelay * 2 ^ (Z.max failures 1 - 1)).

Lemma delay_loop_small fuel n failures k :
  0 <= k <= 5 -> n <= failures -> (Z.to_nat (6 - k) < fuel)%nat ->
  delay_loop fuel n failures (preflightBackoffBaseDelay * 2 ^ k) =
  Z.min preflightBackoffMaxDelay (preflightBackoffBaseDelay * 2 ^ (k + (failures - n))).
Proof.
  revert n k. induction fuel as [|fuel IH]; intros n k Hk Hn Hf; [lia|]. cbn [delay_loop].
  assert (Hpow : 0 < 2 ^ (k + (failures - n))) by (apply Z.pow_pos_nonneg; lia).
  destruct (Z.ltb_spec n failures).
  - destruct (Z.leb_spec preflightBackoffMaxDelay (preflightBackoffBaseDelay * 2 ^ k)) as [Hc|Hc].
    + symmetry. apply Z.min_l. assert (2 ^ k <= 2 ^ (k + (failures - n))) by (apply Z.pow_le_mono_r; lia).
      change preflightBackoffBaseDelay with 15000000000 in *. lia.
    + assert (Hk5 : k < 5) by (destruct (decide (k = 5)) as [->|]; [vm_compute in Hc; discriminate|lia]).
      assert (Hmul : int_mul (preflightBackoffBaseDelay * 2 ^ k) 2 = preflightBackoffBaseDelay * 2 ^ (k + 1)).
      { unfold int_mul. rewrite wrap64_id.
        - rewrite Z.pow_add_r by lia. change (2 ^ 1) with 2. lia.
        - assert (2 ^ k <= 2 ^ 5) by (apply Z.pow_le_mono_r; lia). assert (0 < 2 ^ k) by (apply Z.pow_pos_nonneg; lia).
          change (2 ^ 5) with 32 in *. change preflightBackoffBaseDelay with 15000000000.
          unfold in_int64, int64_min, int64_max. lia. }
      rewrite Hmul, IH by lia. do 2 f_equal. f_equal. lia.
  - assert (failures = n) as -> by lia. replace (k + (n - n)) with k by lia.
    destruct (Z.ltb_spec preflightBackoffMaxDelay (preflightBackoffBaseDelay * 2 ^ k)); lia.
Qed.

Lemma backoff_delay_schedule failures : preflightBackoffDelay failures = backoff_schedule failures.
Proof.
  unfold preflightBackoffDelay, backoff_schedule.
  replace (if failures <? 1 then 1 else failures) with (Z.max failures 1) by (destruct (Z.ltb_spec failures 1); lia).
  change preflightBackoffBaseDelay with (preflightBackoffBaseDelay * 2 ^ 0) at 1.
  rewrite delay_loop_small by (change (Z.to_nat (6 - 0)) with 6%nat; lia). done.
Qed.

Lemma backoff_schedule_bounds failures :
  preflightBackoffBaseDelay <= backoff_schedule failures <= preflightBackoffMaxDelay.
Proof.
  unfold backoff_schedule. assert (1 <= 2 ^ (Z.max failures 1 - 1)).
  { change 1 with (2 ^ 0) at 1. apply Z.pow_le_mono_r; lia. }
  change preflightBackoffBaseDelay with 15000000000. change preflightBackoffMaxDelay with 300000000000. lia.
Qed.

Lemma backoff_schedule_mono a b : a <= b -> backoff_schedule a <= backoff_schedule b.
Proof.
  intros H. unfold backoff_schedule. assert (2 ^ (Z.max a 1 - 1) <= 2 ^ (Z.max b 1 - 1)) by (apply Z.pow_le_mono_r; lia).
  change preflightBackoffBaseDelay with 15000000000. lia.
Qed.

Lemma next_failures_value prev :
  1 <= prev <= int64_max -> next_failures (prev, true) = Z.min (prev + 1) int64_max.
Proof.
  intros Hp. unfold next_failures. cbn [fst snd]. unfold int64_max in *.
  destruct (decide (prev = 2 ^ 63 - 1)) as [->|Hne]; [reflexivity|].
  unfold int_add. rewrite wrap64_id by (unfold in_int64, int64_min, int64_max; lia).
  destruct (Z.leb_spec (prev + 1) prev); lia.
Qed.

Lemma recorded_positive run c : recordedPreflightFailures run = (c, true) -> 1 <= c <= int64_max.
Proof.
  unfold recordedPreflightFailures. destruct (_ !! _) as [raw|]; [|done].
  destruct (Atoi (TrimSpace raw)) as [v ok] eqn:Ha. destruct ok; [|done]. cbn [negb orb].
  destruct (Z.ltb_spec v 1); [done|]. intros [= <-]. split; [done|].
  unfold Atoi in Ha. repeat case_match; simplify_eq; bprop; unfold int64_max, int64_min in *; lia.
Qed.

(** The gate of a run armed at [stamp], read back later. *)
Lemma armed_gate run failures stamp now :
  1 <= failures <= int64_max -> 0 <= year_of stamp <= 9999 ->
  preflightBackoffRemaining now (set_Annotations run (armed_annotations failures stamp (Annotations run))) =
  let delay := backoff_schedule failures in
  let elapsed := Sub now (stamp / Second * Second) in
  if (elapsed <? 0) || (delay <=? elapsed) then (0, false) else (delay - elapsed, true).
Proof.
  intros Hf Hy. unfold preflightBackoffRemaining, recordedPreflightFailures.
  cbn [set_Annotations Annotations]. unfold armed_annotations.
  rewrite lookup_insert_eq, lookup_insert_ne, lookup_insert_eq by done. rewrite parse_format by done.
  destruct (Itoa_digits failures ltac:(lia)) as (Hd & _). rewrite digits_trim, Atoi_Itoa by (try done; lia).
  destruct (Z.ltb_spec failures 1); [lia|]. cbn [negb orb]. rewrite backoff_delay_schedule.
  destruct (Z.ltb_spec (Sub now (stamp / Second * Second)) 0) as [|Hlo]; [done|].
  destruct (Z.leb_spec (backoff_schedule failures) (Sub now (stamp / Second * Second))) as [|Hhi]; [done|].
  cbn [orb]. f_equal. pose proof (backoff_schedule_bounds failures) as [Hb1 Hb2].
  change preflightBackoffMaxDelay with 300000000000 in Hb2. unfold int_sub. apply wrap64_id.
  unfold in_int64, int64_min, int64_max. lia.
Qed.

(** ** Properties *)

(** The delay schedule is the doubling of the base delay, capped at the
    ceiling, for every count however large: it never overflows, never shrinks
    as failures accumulate, and lies between fifteen seconds and five minutes. *)
Theorem preflight_delay_schedule (failures failures' : Z) :
  preflightBackoffDelay failures =
    Z.min preflightBackoffMaxDelay (preflightBackoffBaseDelay * 2 ^ (Z.max failures 1 - 1)) /\
  15 * Second <= preflightBackoffDelay failures <= 300 * Second /\
  (failures <= failures' -> preflightBackoffDelay failures <= preflightBackoffDelay failures').
Proof.
  rewrite !backoff_delay_schedule. split; [done|]. split; [apply backoff_schedule_bounds|apply backoff_schedule_mono].
Qed.

(** Arming then gating: whatever the API server answers, an armed run
    records one failure more than the live object showed (saturating, never
    wrapping), and from then on the gate holds the run back exactly until the
    schedule's delay after the recorded second has passed, measured by the
    reconciler's clock; never longer than five minutes. *)
Theorem preflight_gate_bounded (run : CoderRun) :
  wp (armPreflightBackoff run) (fun t out =>
    exists live stamp failures,
      (Ev (GetRun (Namespace run) (run_Name run)) (Ok live) ∈ t \/ live = run) /\ Ev Now stamp ∈ t /\
      failures = (let '(prev, ok) := recordedPreflightFailures live in
                  if ok then Z.min (prev + 1) int64_max else 1) /\
      (0 <= year_of stamp <= 9999 -> forall now,
        let '(wait, gated) := preflightBackoffRemaining now out.1 in
        let elapsed := Sub now (stamp / Second * Second) in
        (gated = true <-> 0 <= elapsed < backoff_schedule failures) /\
        0 <= wait <= 300 * Second /\ (gated = true -> wait = backoff_schedule failures - elapsed))).
Proof.
  unfold armPreflightBackoff, livePreflightFailures. wp_cbn. intros ans stamp r.
  set (live := match ans with Ok live => live | Err _ => run end).
  exists live, stamp, (next_failures (recordedPreflightFailures live)). split_and!.
  - subst live. destruct ans; [left; left|right; done].
  - right. left.
  - destruct (recordedPreflightFailures live) as [prev ok] eqn:Hrec. destruct ok; [|done].
    apply next_failures_value. by eapply recorded_positive.
  - intros Hy now. assert (Hf : 1 <= next_failures (recordedPreflightFailures live) <= int64_max).
    { destruct (recordedPreflightFailures live) as [prev ok] eqn:Hrec. destruct ok; [|done].
      apply recorded_positive in Hrec. rewrite next_failures_value by done. unfold int64_max in *. lia. }
    cbn [fst]. rewrite armed_gate by done.
    pose proof (backoff_schedule_bounds (next_failures (recordedPreflightFailures live))) as Hb.
    change preflightBackoffMaxDelay with (300 * Second) in Hb.
    set (el := Sub now (stamp / Second * Second)). cbv zeta.
    destruct (Z.ltb_spec el 0), (Z.leb_spec (backoff_schedule (next_failures (recordedPreflightFailures live))) el);
      cbn [orb]; split_and!; try done; try lia; try (unfold Second; lia); split; try done; lia.
Qed.

(** The gate fails open: a run without both markers readable is due at
    once, and clearing the gate leaves no marker behind and touches no other
    annotation. *)
Theorem preflight_gate_fails_open (run : CoderRun) (now : Time) :
  (Annotations run !! preflightFailedAtAnnotation = None \/
   (exists raw, Annotations run !! preflightFailedAtAnnotation = Some raw /\ ParseRFC3339 raw = None) \/
   (recordedPreflightFailures run).2 = false ->
   preflightBackoffRemaining now run = (0, false)) /\
  wp (clearPreflightBackoff run) (fun t out =>
    preflightBackoffRemaining now out.1 = (0, false) /\
    forall k, k <> preflightFailedAtAnnotation -> k <> preflightFailuresAnnotation ->
      Annotations out.1 !! k = Annotations run !! k).
Proof.
  split.
  - unfold preflightBackoffRemaining. intros [->|[(raw & -> & ->)|Hr]]; [done..|].
    destruct (_ !! _); [|done]. destruct (ParseRFC3339 _); [|done].
    by destruct (recordedPreflightFailures run) as [f []].
  - assert (Hclear : forall m, preflightBackoffRemaining now (set_Annotations run
      (delete preflightFailuresAnnotation (delete preflightFailedAtAnnotation m))) = (0, false)).
    { intros m. unfold preflightBackoffRemaining. cbn [set_Annotations Annotations].
      by rewrite lookup_delete_ne, lookup_delete_eq. }
    unfold clearPreflightBackoff, preflightBackoffRemaining at 1.
    destruct (Annotations run !! preflightFailedAtAnnotation) eqn:H1.
    + wp_cbn. intros r. split; [apply Hclear|]. intros k Hk1 Hk2. cbn [fst set_Annotations Annotations].
      by rewrite !lookup_delete_ne.
    + destruct (Annotations run !! preflightFailuresAnnotation) eqn:H2; wp_cbn.
      * intros r. split; [apply Hclear|]. intros k Hk1 Hk2. cbn [fst set_Annotations Annotations].
        by rewrite !lookup_delete_ne.
      * cbn [fst]. rewrite H1. done.
Qed.

(** ** Witnesses *)

(** A run armed twice at the epoch waits thirty seconds, less what elapsed. *)
Example armed_twice :
  preflightBackoffRemaining (20 * Second)
    (set_Annotations example_run (armed_annotations 2 0 (Annotations example_run))) = (10 * Second, true).
Proof. vm_compute. reflexivity. Qed.

Lemma preflight_gate_fails_open_witness : preflightBackoffRemaining 0 example_run = (0, false).
Proof. apply (proj1 (preflight_gate_fails_open example_run 0)). left. reflexivity. Defined.
