(* ===== verification/Reap.v ===== *)
(** * Terminal-run retention (internal/controller/reap.go)

    The reaper that deletes a terminal run once its retention window, measured
    from a durable per-phase marker, has passed and the per-repository audit
    floor no longer covers it. *)

From Stdlib Require Import Sorted.
From S2P Require Import Prelude Effects GoStrings GoTime Run StatusPatch Kube.
Local Open Scope string_scope.
Local Open Scope Z_scope.

Definition doneAtAnnotation : string := "courier.misospace.dev/done-at".
Definition failedAtAnnotation : string := "courier.misospace.dev/failed-at".
Definition needsHumanAtAnnotation : string := "courier.misospace.dev/needs-human-at".
Definition alreadyDoneAtAnnotation : string := "courier.misospace.dev/already-done-at".

Definition defaultDoneRetention : Duration := 5 * Minute.
Definition defaultFailedRetention : Duration := 168 * Hour.
Definition defaultNeedsHumanRetention : Duration := 168 * Hour.
Definition defaultTerminalAuditKeep : Z := 5.

(** The reconciler's retention settings. *)
Record ReapConfig := {
  DoneRetention : Duration;
  FailedRetention : Duration;
  NeedsHumanRetention : Duration;
  TerminalAuditKeep : Z
}.

Definition doneRetention (r : ReapConfig) : Duration :=
  if 0 <? DoneRetention r then DoneRetention r else defaultDoneRetention.
Definition failedRetention (r : ReapConfig) : Duration :=
  if 0 <? FailedRetention r then FailedRetention r else defaultFailedRetention.
Definition needsHumanRetention (r : ReapConfig) : Duration :=
  if 0 <? NeedsHumanRetention r then NeedsHumanRetention r else defaultNeedsHumanRetention.
Definition terminalAuditKeep (r : ReapConfig) : Z :=
  if negb (TerminalAuditKeep r =? 0) then TerminalAuditKeep r else defaultTerminalAuditKeep.

Definition maxRetryRequestIDLength : Z := 128.

Definition validRetryRequestID (id : string) : bool :=
  negb (String.eqb id "") && ValidString id && (RuneCountInString id <=? maxRetryRequestIDLength).

Definition terminalPhase (phase : string) : bool :=
  String.eqb phase PhaseAwaitingReview || String.eqb phase PhaseHandedOff || String.eqb phase PhaseNeedsHuman ||
  String.eqb phase PhaseDone || String.eqb phase PhaseFailed || String.eqb phase PhaseBlockedExternal ||
  String.eqb phase PhaseAlreadyDone.

Definition auditFloorPhase (phase : string) : bool :=
  String.eqb phase PhaseFailed || String.eqb phase PhaseNeedsHuman.

Definition terminalTime (run : CoderRun) : Time :=
  match FinishedAt (Status run) with Some t => t | None => CreationTimestamp run end.

Definition terminalNewer (a b : CoderRun) : bool :=
  let at_ := terminalTime a in
  let bt := terminalTime b in
  if negb (at_ =? bt) then bt <? at_ else string_gtb (run_Name a) (run_Name b).

(** The records that count against the candidate in the audit floor. *)
Definition counts_as_newer (run other : CoderRun) : bool :=
  negb (String.eqb (run_Name other) (run_Name run)) && String.eqb (sp_Repo (Spec other)) (sp_Repo (Spec run)) &&
  auditFloorPhase (Phase (Status other)) && terminalNewer other run.

(** Fewer than the floor's count of them are newer than the run. *)
Definition within_floor (r : ReapConfig) (run : CoderRun) (runs : list CoderRun) : bool :=
  Z.of_nat (length (List.filter (counts_as_newer run) runs)) <? terminalAuditKeep r.

Definition withinAuditFloor (r : ReapConfig) (run : CoderRun) : prog kubeE (result api_error bool) :=
  let keep := terminalAuditKeep r in
  if keep <=? 0 then Ret (Ok false) else
  runs ← call (ListRuns (Namespace run));
  match runs with
  | Err e => Ret (Err e)
  | Ok runs => Ret (Ok (within_floor r run runs))
  end.

Definition retryHoldsReap (run : CoderRun) : bool :=
  match st_RetryRequest (Status run) with
  | Some rec => String.eqb (rr_State rec) RetryRequestStateRequested
  | None => false
  end.

Definition liveRetryHold (snapshot live : CoderRun) : bool :=
  if retryHoldsReap live then true else
  let liveID := annotation live RetryAnnotation in
  negb (String.eqb (Phase (Status snapshot)) PhaseDone) && validRetryRequestID liveID &&
  negb (String.eqb liveID (annotation snapshot RetryAnnotation)).

Definition reapMarker (run : CoderRun) (marker : string) : option Time :=
  match Annotations run !! marker with
  | None => None
  | Some raw => ParseRFC3339 raw
  end.

(** [ctrl.Result]: the requested wait, zero for none. *)
Definition requeue : Type := Duration.

(** The delete boundary: re-read the live object, hold on durable retry intent,
    delete under the preconditions of what was read. *)
Definition reap_delete (run : CoderRun) : prog kubeE (result api_error requeue) :=
  live ← call (GetRun (Namespace run) (run_Name run));
  match live with
  | Err e => Ret (if IsNotFound e then Ok 0 else Err e)
  | Ok live =>
      if liveRetryHold run live then Ret (Ok 0) else
      d ← call (DeleteRun (Namespace live) (run_Name live) (UID live) (ResourceVersion live));
      match d with
      | Err e => Ret (if IsNotFound e then Ok 0 else Err e)
      | Ok _ => _ ← call (Observe "reap" (Phase (Status run))); Ret (Ok 0)
      end
  end.

Definition reapTerminal (r : ReapConfig) (run : CoderRun) (marker : string) (retention : Duration)
    (applyAuditFloor : bool) : prog kubeE (result api_error requeue) :=
  now ← call Now;
  match reapMarker run marker with
  | None =>
      let after := set_Annotations run (<[marker := FormatRFC3339 now]> (Annotations run)) in
      p ← call (PatchMeta after (copy run));
      match p with
      | Err e => Ret (Err e)
      | Ok _ => Ret (Ok retention)
      end
  | Some at_ =>
      let remaining := Sub (Add at_ retention) now in
      if 0 <? remaining then Ret (Ok (if retention <? remaining then retention else remaining)) else
      if applyAuditFloor then
        keep ← withinAuditFloor r run;
        match keep with
        | Err e => Ret (Err e)
        | Ok true => Ret (Ok retention)
        | Ok false => reap_delete run
        end
      else reap_delete run
  end.

Definition reapDone (r : ReapConfig) (run : CoderRun) : prog kubeE (result api_error requeue) :=
  reapTerminal r run doneAtAnnotation (doneRetention r) false.

Definition reapAlreadyDone (r : ReapConfig) (run : CoderRun) : prog kubeE (result api_error requeue) :=
  reapTerminal r run alreadyDoneAtAnnotation (doneRetention r) false.

(** ** Traces *)

(** The deletions of a trace. *)
Definition delete_of (ev : event kubeE) : option (string * string * string * string) :=
  match ev_op ev with DeleteRun ns name uid rv => Some (ns, name, uid, rv) | _ => None end.
Definition deletes (t : trace kubeE) : list (string * string * string * string) := omap delete_of t.

(** The durable retention window has passed on the reconciler's clock. *)
Definition window_passed (run : CoderRun) (marker : string) (retention : Duration) (now : Time) : Prop :=
  exists at_, reapMarker run marker = Some at_ /\ at_ + retention <= now.

(** The list the floor was computed from shows [keep] newer outcome runs. *)
Definition floor_exhausted (r : ReapConfig) (run : CoderRun) (t : trace kubeE) : Prop :=
  terminalAuditKeep r <= 0 \/
  exists runs, Ev (ListRuns (Namespace run)) (Ok runs) ∈ t /\
    terminalAuditKeep r <= Z.of_nat (length (List.filter (counts_as_newer run) runs)).

(** ** Lemmas *)

Lemma Sub_pos t u : Sub t u <= 0 -> t <= u.
Proof.
  unfold Sub. destruct (Z.ltb_spec (t - u) int64_min); [unfold int64_min in *; lia|].
  destruct (Z.ltb_spec int64_max (t - u)); [unfold int64_max; lia|lia].
Qed.

(** No durable retry intent on the live object: its record is not an
    outstanding Requested one, and its annotation asks for nothing the snapshot
    had not already seen (a Done run cannot be retried at all). *)
Definition no_retry_intent (snapshot live : CoderRun) : Prop :=
  (forall rec, st_RetryRequest (Status live) = Some rec -> rr_State rec <> RetryRequestStateRequested) /\
  (Phase (Status snapshot) = PhaseDone \/ validRetryRequestID (annotation live RetryAnnotation) = false \/
   annotation live RetryAnnotation = annotation snapshot RetryAnnotation).

Lemma no_hold_no_intent snapshot live : liveRetryHold snapshot live = false -> no_retry_intent snapshot live.
Proof.
  unfold liveRetryHold, no_retry_intent. destruct (retryHoldsReap live) eqn:Hr; [done|]. intros H. split.
  - intros rec E Hs. unfold retryHoldsReap in Hr. by rewrite E, Hs, String.eqb_refl in Hr.
  - destruct (String.eqb_spec (Phase (Status snapshot)) PhaseDone); [by left|]. right.
    destruct (validRetryRequestID _); [|by left]. right. cbn in H. by apply negb_false_iff, String.eqb_eq in H.
Qed.

(** What a trace that deletes must contain: a live read with no retry intent. *)
Definition delete_guarded (run : CoderRun) (t : trace kubeE) : Prop :=
  deletes t = [] \/
  exists live, Ev (GetRun (Namespace run) (run_Name run)) (Ok live) ∈ t /\
    deletes t = [(Namespace live, run_Name live, UID live, ResourceVersion live)] /\
    no_retry_intent run live.

Lemma reap_delete_guarded run : wp (reap_delete run) (fun t _ => delete_guarded run t).
Proof.
  unfold reap_delete. wp_cbn. intros [live|e]; wp_cbn; [|by left].
  destruct (liveRetryHold run live) eqn:Hh; wp_cbn; [by left|].
  apply no_hold_no_intent in Hh.
  intros [[]|e]; wp_cbn; [intros []|]; right; exists live; (split_and!; [left|done|done]).
Qed.

Definition reap_spec (r : ReapConfig) (run : CoderRun) (marker : string) (retention : Duration)
    (floor : bool) (t : trace kubeE) (out : result api_error requeue) : Prop :=
  delete_guarded run t /\
  (deletes t <> [] -> exists now, Ev Now now ∈ t /\ window_passed run marker retention now /\
     (floor = true -> floor_exhausted r run t)) /\
  (forall wait, out = Ok wait -> 0 <= wait <= Z.max retention 0).

Lemma delete_guarded_cons run ev t :
  delete_of ev = None -> delete_guarded run t -> delete_guarded run (ev :: t).
Proof.
  intros Hev. unfold delete_guarded, deletes. cbn [omap list_omap]. rewrite Hev.
  intros [H|(live & Hin & H)]; [by left|]. right. exists live. split; [by right|done].
Qed.

(** The deletion phase, after the events [pre] that established the window. *)
Lemma reap_delete_spec r run marker retention floor now pre :
  window_passed run marker retention now -> Ev Now now ∈ pre -> Forall (fun ev => delete_of ev = None) pre ->
  (floor = true -> floor_exhausted r run pre) ->
  wp (reap_delete run) (fun t out => reap_spec r run marker retention floor (pre ++ t)%list out).
Proof.
  intros Hw Hn Hpre Hfl.
  assert (Hok : wp (reap_delete run) (fun _ out => forall wait, out = Ok wait -> wait = 0)).
  { unfold reap_delete. wp_cbn. intros [live|e]; wp_cbn; [|destruct (IsNotFound e); by intros ? [= <-]].
    destruct (liveRetryHold run live); wp_cbn; [by intros ? [= <-]|].
    intros [[]|e]; wp_cbn; [intros [] ? [= <-]; done|destruct (IsNotFound e); by intros ? [= <-]]. }
  pose proof (proj1 (wp_exec _ _) (reap_delete_guarded run)) as Hg. pose proof (proj1 (wp_exec _ _) Hok) as Hz.
  apply wp_exec. intros t out Hex. specialize (Hg t out Hex). specialize (Hz t out Hex). split_and!.
  - clear Hw Hn Hfl. induction Hpre as [|ev pre Hev _ IH]; [done|]. by apply delete_guarded_cons.
  - intros _. exists now. split_and!; [apply elem_of_app; by left|done|]. intros Hf.
    destruct (Hfl Hf) as [|(runs & Hin & Hc)]; [by left|]. right. exists runs. split; [apply elem_of_app; by left|done].
  - intros wait Hwait. rewrite (Hz wait Hwait). lia.
Qed.

Lemma reap_spec_wait r run marker retention floor t wait :
  deletes t = [] -> 0 <= wait <= Z.max retention 0 -> reap_spec r run marker retention floor t (Ok wait).
Proof. intros Hd Hw. split_and!; [by left|done|by intros ? [= <-]]. Qed.

Lemma reap_spec_err r run marker retention floor t e :
  deletes t = [] -> reap_spec r run marker retention floor t (Err e).
Proof. intros Hd. split_and!; [by left|done|done]. Qed.

(** A reap, on every branch. *)
Lemma reap_terminal_spec r run marker retention floor :
  0 <= retention -> wp (reapTerminal r run marker retention floor) (reap_spec r run marker retention floor).
Proof.
  intros Hret. unfold reapTerminal. wp_cbn. intros now. destruct (reapMarker run marker) as [at_|] eqn:Hm.
  2: { wp_cbn. intros [[]|e]; wp_cbn; [apply reap_spec_wait; [done|lia]|by apply reap_spec_err]. }
  destruct (Z.ltb_spec 0 (Sub (Add at_ retention) now)) as [Hrem|Hrem]; wp_cbn.
  { apply reap_spec_wait; [done|]. destruct (Z.ltb_spec retention (Sub (Add at_ retention) now)); lia. }
  assert (Hw : window_passed run marker retention now).
  { exists at_. split; [done|]. apply Sub_pos in Hrem. exact Hrem. }
  destruct floor.
  2: { apply (reap_delete_spec r run marker retention false now [Ev Now now]); [done|left|by repeat constructor|done]. }
  unfold withinAuditFloor. destruct (Z.leb_spec (terminalAuditKeep r) 0); wp_cbn.
  { apply (reap_delete_spec r run marker retention true now [Ev Now now]); [done|left|by repeat constructor|by left]. }
  intros [runs|e]; wp_cbn; [|by apply reap_spec_err].
  unfold within_floor. destruct (Z.ltb_spec (Z.of_nat (length (List.filter (counts_as_newer run) runs))) (terminalAuditKeep r)); wp_cbn.
  { apply reap_spec_wait; [done|lia]. }
  apply (reap_delete_spec r run marker retention true now [Ev Now now; Ev (ListRuns (Namespace run)) (Ok runs)]);
    [done|left|by repeat constructor|].
  intros _. right. exists runs. split; [right; left|lia].
Qed.

(** *** The audit order *)

Lemma terminalNewer_asym a b : terminalNewer a b = true -> terminalNewer b a = false.
Proof.
  unfold terminalNewer. rewrite (Z.eqb_sym (terminalTime b)).
  destruct (Z.eqb_spec (terminalTime a) (terminalTime b)); cbn [negb]; [apply string_gtb_asym|].
  intros H. bprop. lia.
Qed.

(** The outcome runs of one repository, newest first. *)
Record outcome_log (repo : string) (l : list CoderRun) : Prop := {
  log_sorted : StronglySorted (fun a b => terminalNewer a b = true) l;
  log_names : NoDup (run_Name <$> l);
  log_governed : Forall (fun run => sp_Repo (Spec run) = repo /\ auditFloorPhase (Phase (Status run)) = true) l
}.

(** A run's rank in the log is the number of runs that count against it. *)
Lemma log_rank repo l1 run l2 :
  outcome_log repo (l1 ++ run :: l2) -> List.filter (counts_as_newer run) (l1 ++ run :: l2)%list = l1.
Proof.
  intros [Hs Hn Hg]. rewrite List.filter_app. rewrite fmap_app, fmap_cons in Hn.
  apply NoDup_app in Hn as (_ & Hdisj & Hn2). apply NoDup_cons in Hn2 as [Hn2 _].
  apply Forall_app in Hg as [Hg1 Hg2]. inversion Hg2 as [|? ? [Hrepo _] Hg3]; subst.
  assert (Hnewer : Forall (fun a => terminalNewer a run = true) l1).
  { clear -Hs. induction l1 as [|a l1 IH]; [done|]. inversion Hs as [|? ? Hs' Hf]; subst. constructor; [|by apply IH].
    rewrite Forall_forall in Hf. apply Hf. apply elem_of_app. right. left. }
  assert (Holder : Forall (fun a => terminalNewer a run = false) l2).
  { clear -Hs. induction l1 as [|a l1 IH]; [|inversion Hs; by apply IH].
    inversion Hs as [|? ? _ Hf]; subst. eapply Forall_impl; [exact Hf|]. intros b. apply terminalNewer_asym. }
  rewrite (filter_all (counts_as_newer run) l1).
  - cbn [List.filter]. assert (Hself : counts_as_newer run run = false)
      by (unfold counts_as_newer; by rewrite String.eqb_refl).
    rewrite Hself, filter_none, app_nil_r; [done|]. eapply Forall_impl; [exact Holder|].
    intros b Hb. unfold counts_as_newer. by rewrite Hb, andb_false_r.
  - rewrite Forall_forall in Hg1, Hnewer |- *. intros a Ha. unfold counts_as_newer.
    destruct (Hg1 a Ha) as [Hra Hpa]. rewrite Hra, Hpa, (Hnewer a Ha), String.eqb_refl.
    destruct (String.eqb_spec (run_Name a) (run_Name run)) as [He|]; [|done].
    exfalso. apply (Hdisj (run_Name a)); [by apply list_elem_of_fmap_2|]. rewrite He. left.
Qed.

(** The outcome runs of a repository in a namespace listing. *)
Definition outcome_of (repo : string) (other : CoderRun) : bool :=
  String.eqb (sp_Repo (Spec other)) repo && auditFloorPhase (Phase (Status other)).

Lemma count_outcomes run runs :
  length (List.filter (counts_as_newer run) runs) =
  length (List.filter (counts_as_newer run) (List.filter (outcome_of (sp_Repo (Spec run))) runs)).
Proof.
  induction runs as [|x runs IH]; cbn [List.filter]; [done|].
  destruct (outcome_of (sp_Repo (Spec run)) x) eqn:Ho; cbn [List.filter].
  - destruct (counts_as_newer run x); cbn [length]; by rewrite IH.
  - assert (Hc : counts_as_newer run x = false).
    { unfold counts_as_newer, outcome_of in *. bprop. tauto. }
    by rewrite Hc.
Qed.

#[export] Instance filter_perm {A} (f : A -> bool) : Proper (Permutation ==> Permutation) (List.filter f).
Proof.
  intros l1 l2 H. induction H as [|x l l' _ IH|x y l|l l' l'' _ IH1 _ IH2]; cbn [List.filter].
  - done.
  - destruct (f x); by rewrite IH.
  - destruct (f x), (f y); [apply Permutation_swap|done..].
  - by rewrite IH1.
Qed.

(** ** Properties *)

(** C30: A run is deleted only when it should be.  Whatever the API server
    answers, a reap issues at most one delete, only after the retention window
    measured from the durable marker has passed on the reconciler's clock and
    the audit floor no longer covers the run, and only for the object it
    re-read, under that object's UID and resource version, with no durable
    retry intent on it; otherwise it waits, never longer than the window. *)
Theorem reap_delete_safe (r : ReapConfig) (run : CoderRun) (marker : string) (retention : Duration) (floor : bool)
    (Hret : 0 <= retention) :
  wp (reapTerminal r run marker retention floor) (reap_spec r run marker retention floor).
Proof. by apply reap_terminal_spec. Qed.

(** A missing or unreadable marker never deletes: the pass stamps the
    marker and waits a full window; read back, the stamp is the observed
    second, so the run is kept for the window from then on. *)
Theorem reap_first_pass (r : ReapConfig) (run : CoderRun) (marker : string) (retention : Duration) (floor : bool)
    (Hmarker : reapMarker run marker = None) :
  wp (reapTerminal r run marker retention floor) (fun t out =>
    deletes t = [] /\
    exists now after, Ev Now now ∈ t /\ (exists ans, Ev (PatchMeta after (copy run)) ans ∈ t) /\
      (0 <= year_of now <= 9999 -> reapMarker after marker = Some (now / Second * Second)) /\
      (forall wait, out = Ok wait -> wait = retention)).
Proof.
  unfold reapTerminal. wp_cbn. intros now. rewrite Hmarker. wp_cbn. intros [[]|e]; wp_cbn; (split; [done|]);
    exists now, (set_Annotations run (<[marker := FormatRFC3339 now]> (Annotations run)));
    (split_and!; [left|eexists; right; left|intros Hy; unfold reapMarker; cbn [set_Annotations Annotations];
      rewrite lookup_insert_eq; by apply parse_format|]); [by intros ? [= <-]|done].
Qed.

(** The audit floor keeps exactly the most recent outcome runs.  Whatever
    order the API server lists the namespace in and whatever else it holds, a
    run is covered exactly when fewer than the floor's count of its
    repository's outcome runs, sorted newest first, come before it. *)
Theorem audit_floor_rank (r : ReapConfig) (runs l1 l2 : list CoderRun) (run : CoderRun)
    (Hlog : outcome_log (sp_Repo (Spec run)) (l1 ++ run :: l2))
    (Hperm : List.filter (outcome_of (sp_Repo (Spec run))) runs ≡ₚ l1 ++ run :: l2) :
  within_floor r run runs = true <-> Z.of_nat (length l1) < terminalAuditKeep r.
Proof.
  unfold within_floor. rewrite (count_outcomes run), Hperm, (log_rank (sp_Repo (Spec run))) by done. apply Z.ltb_lt.
Qed.

(** ** Witnesses *)

Definition outcome_run (name : string) (finished : Time) : CoderRun :=
  {| Namespace := "agents"; run_Name := name; UID := name; ResourceVersion := "1"; Generation := 1;
     CreationTimestamp := 0; DeletionTimestamp := None; Finalizers := []; Annotations := ∅; Spec := example_spec;
     Status := {| SourceReceipt := ""; Phase := PhaseFailed; st_PublicationPolicy := None; SkillPins := None;
       st_Branch := ""; HeadRepo := ""; HeadSHA := ""; PR := ""; AdmittedAt := None; StartedAt := None;
       FinishedAt := Some finished; PhaseEnteredAt := None; WaitDuration := ""; RunDuration := ""; LastCommit := "";
       CheckFingerprint := ""; FailedCheckFingerprint := ""; DeclaredNoChange := false; NoChange := None;
       LifecycleReportRetryToken := ""; LifecycleReportActiveRetryToken := ""; st_Checkpoint := None;
       st_Heartbeat := None; ActiveOperations := ∅; st_ControlRequest := None; st_ControlRequestAck := None;
       Restarts := 0; Telemetry := None; WorkspaceSafety := None; st_TerminalDiagnostic := None;
       st_NativeResult := None; ModelSurface := None; CIPark := None; CIRepair := None; st_CISettlement := None;
       st_CIParkDeferral := None; st_CIParkRelease := None; st_RetryRequest := None; Conditions := [] |} |}.

Definition keep_one : ReapConfig :=
  {| DoneRetention := 0; FailedRetention := 0; NeedsHumanRetention := 0; TerminalAuditKeep := 1 |}.

(** Two runs that finished together: the name decides, one is kept. *)
Lemma audit_floor_rank_witness :
  within_floor keep_one (outcome_run "run-a" 9) [outcome_run "run-a" 9; outcome_run "run-b" 9] = false.
Proof.
  apply not_true_iff_false. intros H.
  apply (audit_floor_rank keep_one _ [outcome_run "run-b" 9] [] (outcome_run "run-a" 9)) in H; [vm_compute in H; discriminate| |].
  - constructor; [repeat constructor|apply (bool_decide_unpack _); vm_compute; exact I|repeat constructor].
  - apply (Permutation_swap (outcome_run "run-b" 9)).
Defined.

Lemma reap_delete_safe_witness :
  wp (reapTerminal keep_one (outcome_run "run-a" 9) failedAtAnnotation (failedRetention keep_one) true)
    (reap_spec keep_one (outcome_run "run-a" 9) failedAtAnnotation (failedRetention keep_one) true).
Proof. apply reap_delete_safe. vm_compute. discriminate. Defined.

Lemma reap_first_pass_witness :
  wp (reapTerminal keep_one (outcome_run "run-a" 9) failedAtAnnotation (failedRetention keep_one) true)
    (fun t _ => deletes t = []).
Proof.
  eapply wp_mono; [|apply (reap_first_pass keep_one (outcome_run "run-a" 9) failedAtAnnotation (failedRetention keep_one) true)].
  - intros t out H. exact (proj1 H).
  - reflexivity.
Defined.
