(* ===== verification/Retry.v ===== *)
(** * Explicit operator retries (internal/controller/retry.go)

    The translation of the retry annotation of a terminal run into the durable
    [status.retryRequest] record and its state machine, Requested then one of
    Requeued, Moot and Refused, driving the source's fenced requeue. *)

From S2P Require Import Prelude Effects GoStrings GoTime Sha256 Run StatusPatch Kube Reap.
Local Open Scope string_scope.
Local Open Scope Z_scope.

Definition retrySettlementRequeueDelay : Duration := 30 * Second.
Definition retryForgeRequeueDelay : Duration := Minute.
Definition retryAnnouncedAnnotation : string := "courier.misospace.dev/retry-announced".
Definition maxRetryAnnouncedTokens : Z := 32.
Definition retryAnnouncedTokenLength : Z := 16.
Definition retryAnnouncedMarkerPrefix : string := "v1:".

Definition retryOutcomeRequested : string := "requested".
Definition retryOutcomeRequeued : string := "requeued".
Definition retryOutcomeMoot : string := "moot".
Definition retryOutcomeRefused : string := "refused".

Definition lifecycleReportedCondition : string := ConditionLifecycleReported.
Definition lifecycleReportPublishedReason : string := "Published".
Definition lifecycleReportSupersededReason : string := "Superseded".
Definition lifecycleReportPermanentRefusalReason : string := "PermanentRefusal".

(** ** Pure helpers *)

Definition retryIdempotencyKey (run : CoderRun) (requestID : string) : string :=
  let key := "coderun/" ++ Namespace run ++ "/" ++ run_Name run ++ "/" ++ sha256_hex requestID in
  if negb (String.eqb (UID run) "") then key ++ "/" ++ UID run else key.

Definition normalizeRetryAttemptID (attemptID : string) : string :=
  if RuneCountInString attemptID <=? RetryRequestMaxAttemptIDLength then attemptID else "".

Definition retryAnnouncedToken (id : string) : string := EncodeToString (take 8 (Sum256 id)).

Fixpoint all_hex (s : string) : bool :=
  match s with "" => true | String c r => is_hex c && all_hex r end.

Definition isHex (s : string) : bool := all_hex s && negb (String.eqb s "").

Definition retryAnnouncedSet (marker : string) : gset string :=
  if String.eqb marker "" then ∅ else
  let '(raw, versioned) := CutPrefix marker retryAnnouncedMarkerPrefix in
  if negb versioned then {[ retryAnnouncedToken marker ]} else
  list_to_set (List.filter (fun token => (slen token =? retryAnnouncedTokenLength) && isHex token) (Split raw ",")).

Definition retryAnnouncedMarker (set : gset string) : string :=
  retryAnnouncedMarkerPrefix ++ Join (sort_strings (elements set)) ",".

(** [None] when the phase can be retried. *)
Definition coreRetryRefusal (run : CoderRun) : option string :=
  let phase := Phase (Status run) in
  if String.eqb phase PhaseFailed || String.eqb phase PhaseNeedsHuman then None else
  if String.eqb phase PhaseBlockedExternal then Some RetryRefusalAutomaticRecoveryChannel else
  Some RetryRefusalNotRetryablePhase.

Definition isRetryAdapterRefusalReason (reason : string) : bool :=
  String.eqb reason RetryRefusalStaleGeneration || String.eqb reason RetryRefusalHeldForHuman ||
  String.eqb reason RetryRefusalSourceRefused.

Definition retryMetricOutcome (state : string) : string :=
  if String.eqb state RetryRequestStateRequested then retryOutcomeRequested else
  if String.eqb state RetryRequestStateRequeued then retryOutcomeRequeued else
  if String.eqb state RetryRequestStateMoot then retryOutcomeMoot else retryOutcomeRefused.

Definition exactPullRequestIdentity (run : CoderRun) (number : Z) (pull : PullRequestRead) : bool :=
  if negb (pull_Number pull =? number) then false else
  let headRepo := TrimSpace (HeadRepo (Status run)) in
  let headRepo := if String.eqb headRepo "" then sp_Repo (Spec run) else headRepo in
  EqualFold (pull_BaseRepo pull) (sp_Repo (Spec run)) && EqualFold (pull_HeadRepo pull) headRepo &&
  String.eqb (pull_HeadRef pull) (st_Branch (Status run)).

(** Another run for the same source work is still active. *)
Definition active_owner (run other : CoderRun) : bool :=
  negb (String.eqb (run_Name other) (run_Name run)) &&
  String.eqb (sp_Source (Spec other)) (sp_Source (Spec run)) &&
  String.eqb (sp_Repo (Spec other)) (sp_Repo (Spec run)) && (sp_Ref (Spec other) =? sp_Ref (Spec run)) &&
  let phase := Phase (Status other) in
  (String.eqb phase PhasePending || String.eqb phase PhaseClaimed || String.eqb phase PhaseRunning ||
   String.eqb phase PhaseVerifying).

Section Retry.
Context {CO : ConditionOps}.

Definition lifecycleReportSettled (run : CoderRun) : bool :=
  match FindStatusCondition (Conditions (Status run)) lifecycleReportedCondition with
  | None => false
  | Some cond =>
      String.eqb (c_Status cond) ConditionTrue &&
      (String.eqb (c_Reason cond) lifecycleReportPublishedReason ||
       String.eqb (c_Reason cond) lifecycleReportSupersededReason ||
       String.eqb (c_Reason cond) lifecycleReportPermanentRefusalReason)
  end.

Definition retry_condition_status (state : string) : string * string :=
  if String.eqb state RetryRequestStateRequested then (ConditionUnknown, ConditionReasonRetryRequested) else
  if String.eqb state RetryRequestStateRequeued then (ConditionTrue, ConditionReasonRetryRequeued) else
  if String.eqb state RetryRequestStateMoot then (ConditionTrue, ConditionReasonRetryMoot) else
  if String.eqb state RetryRequestStateRefused then (ConditionFalse, ConditionReasonRetryRefused) else
  (ConditionUnknown, ConditionReasonRetryRequested).

Definition setRetryCondition (run : CoderRun) (state reason : string) (now : Time) (generation : Z) : CoderRun :=
  let '(status, token) := retry_condition_status state in
  let message := if String.eqb reason "" then state else reason in
  set_Status run (set_Conditions (Status run) (SetStatusCondition (Conditions (Status run))
    {| c_Type := ConditionRetryRequest; c_Status := status; c_Reason := token; c_Message := message;
       c_ObservedGeneration := generation; c_LastTransitionTime := now |})).

Definition set_retry (run : CoderRun) (rec : RetryRequest) : CoderRun :=
  set_Status run (set_st_RetryRequest (Status run) (Some rec)).

(** ** Handlers *)

Inductive retry_error :=
| RApi (e : api_error)
| RRegistry (e : registry_error)
| RequeuerGone.

(** The run as the handler leaves it, the requested wait, whether the handler
    owned the reconcile, and the error. *)
Record outcome := {
  out_run : CoderRun;
  out_wait : requeue;
  out_handled : bool;
  out_err : option retry_error
}.

Definition done_with (run : CoderRun) (wait : requeue) (handled : bool) : outcome :=
  {| out_run := run; out_wait := wait; out_handled := handled; out_err := None |}.
Definition failed_with (run : CoderRun) (handled : bool) (e : retry_error) : outcome :=
  {| out_run := run; out_wait := 0; out_handled := handled; out_err := Some e |}.

(** The parts of the reconciler the retry path uses. *)
Record RetryConfig := {
  Sources : option SourceRegistry;
  forge_readable : bool          (* a forge reader with the read-pull-request capability *)
}.

Definition observeRetry (result : string) : prog kubeE unit := call (Observe "retry" result).

Definition emitRetry (run : CoderRun) (requestID state reason attemptID successor : string) : prog kubeE unit :=
  call (EmitRetry run {| ev_RequestID := requestID; ev_State := state; ev_Reason := reason;
                         ev_AttemptID := attemptID; ev_Successor := successor |}).

(** The status write of a record and its condition, then the metric and the
    event; [next] is what the handler does after them. *)
Definition write_record (run : CoderRun) (rec : RetryRequest) (metric successor : string)
    (next : CoderRun -> prog kubeE outcome) : prog kubeE outcome :=
  now' ← call Now;
  let after := setRetryCondition (set_retry run rec) (rr_State rec) (rr_Reason rec) now' (Generation run) in
  ' (after, r) ← patchStatus (copy run) after;
  match r with
  | Err e => Ret (failed_with after true (RApi e))
  | Ok _ =>
      _ ← observeRetry metric;
      _ ← emitRetry after (rr_ID rec) (rr_State rec) (rr_Reason rec) (rr_AttemptID rec) successor;
      next after
  end.

Definition settleRetryOutcome (run : CoderRun) (record : RetryRequest) (state reason attemptID successor : string) :
    prog kubeE outcome :=
  now ← call Now;
  write_record run
    {| rr_ID := rr_ID record; rr_RequestedAt := rr_RequestedAt record; rr_State := state; rr_Reason := reason;
       rr_AttemptID := attemptID; rr_SettledAt := Some now |}
    (retryMetricOutcome state) successor (fun after => Ret (done_with after 0 false)).

Definition writeRetryRefusal (run : CoderRun) (requestID reason : string) : prog kubeE outcome :=
  now ← call Now;
  write_record run
    {| rr_ID := requestID; rr_RequestedAt := now; rr_State := RetryRequestStateRefused; rr_Reason := reason;
       rr_AttemptID := ""; rr_SettledAt := Some now |}
    retryOutcomeRefused "" (fun after => Ret (done_with after 0 true)).

(** The successor object: the predecessor's spec with the fresh identity. *)
Definition retry_successor (run : CoderRun) (freshIdentity : string) : CoderRun :=
  new_run (Namespace run) (SuccessorRunName (sp_Source (Spec run)) freshIdentity (UID run))
    {| sp_Mode := sp_Mode (Spec run); sp_Source := sp_Source (Spec run);
       sp_SourceAgent := sp_SourceAgent (Spec run); sp_SourceContext := sp_SourceContext (Spec run);
       sp_WorkItemID := freshIdentity; sp_AssignmentKind := ""; sp_AssignmentReasons := [];
       sp_Repo := sp_Repo (Spec run); sp_WorkRepo := sp_WorkRepo (Spec run); sp_Ref := sp_Ref (Spec run);
       sp_Lane := sp_Lane (Spec run); sp_Debug := sp_Debug (Spec run) |}.

Definition materializeRetrySuccessor (run : CoderRun) (freshIdentity : string) :
    prog kubeE (result api_error string) :=
  let successor := retry_successor run freshIdentity in
  r ← call (CreateRun successor);
  Ret (match r with
       | Ok _ => Ok (run_Name successor)
       | Err e => if IsAlreadyExists e then Ok (run_Name successor) else Err e
       end).

Definition requeue_request (run : CoderRun) (record : RetryRequest) : AttemptRequeueRequest :=
  {| FenceToken := SourceReceipt (Status run); IdempotencyKey := retryIdempotencyKey run (rr_ID record);
     rq_Reason := rr_ID record |}.

Definition callRequeue (run : CoderRun) (record : RetryRequest) (adapter : Adapter) (item : WorkItem) :
    prog kubeE outcome :=
  result ← call (RequeueAttempt (adapter_id adapter) item (requeue_request run record));
  match result with
  | Ok result =>
      if ControllerMaterializesSuccessor result && negb (String.eqb (AttemptID result) "") then
        name ← materializeRetrySuccessor run (AttemptID result);
        match name with
        | Err e => Ret (failed_with run true (RApi e))
        | Ok name =>
            settleRetryOutcome run record RetryRequestStateRequeued "" (normalizeRetryAttemptID (AttemptID result)) name
        end
      else
        settleRetryOutcome run record RetryRequestStateRequeued "" (normalizeRetryAttemptID (AttemptID result)) ""
  | Err ErrUnsupportedRetry =>
      settleRetryOutcome run record RetryRequestStateRefused RetryRefusalUnsupportedSource "" ""
  | Err (RetryRefusal reason true) =>
      settleRetryOutcome run record RetryRequestStateMoot RetryRefusalAlreadyRequeued "" ""
  | Err (RetryRefusal reason false) =>
      let reason := if negb (isRetryAdapterRefusalReason reason) then RetryRefusalSourceRefused else reason in
      settleRetryOutcome run record RetryRequestStateRefused reason "" ""
  | Err (TransientError _) => Ret (done_with run retrySettlementRequeueDelay true)
  end.

Definition settleRetryRecord (cfg : RetryConfig) (run : CoderRun) (record : RetryRequest) : prog kubeE outcome :=
  match adapterAndWorkItem (Sources cfg) run with
  | Err e => Ret (failed_with run true (RRegistry e))
  | Ok (adapter, item) =>
      if negb (is_requeuer adapter) then Ret (failed_with run true RequeuerGone)
      else callRequeue run record adapter item
  end.

Definition activeOwnerExists (run : CoderRun) : prog kubeE (result api_error bool) :=
  runs ← call (ListRuns (Namespace run));
  Ret (match runs with Err e => Err e | Ok runs => Ok (existsb (active_owner run) runs) end).

(** (closed, unreadable); the guard's own error is always nil. *)
Definition fixPRUpstreamClosed (cfg : RetryConfig) (run : CoderRun) : prog kubeE (bool * bool) :=
  let '(number, ok) := Atoi (TrimSpace (PR (Status run))) in
  if negb ok || (number <=? 0) || String.eqb (TrimSpace (st_Branch (Status run))) "" then Ret (false, false) else
  if negb (forge_readable cfg) then Ret (false, true) else
  pull ← call (ReadPullRequest (sp_Repo (Spec run)) number);
  Ret (match pull with
       | Err _ => (false, true)
       | Ok pull =>
           if negb (exactPullRequestIdentity run number pull) then (false, false) else
           if pull_Merged pull || EqualFold (TrimSpace (pull_State pull)) "closed" then (true, false)
           else (false, false)
       end).

(** From the capability check on: persist Requested, then call the source. *)
Definition begin_requested (cfg : RetryConfig) (run : CoderRun) (requestID : string) : prog kubeE outcome :=
  match adapterAndWorkItem (Sources cfg) run with
  | Err e => Ret (failed_with run true (RRegistry e))
  | Ok (adapter, item) =>
      if negb (is_requeuer adapter) then writeRetryRefusal run requestID RetryRefusalUnsupportedSource else
      now ← call Now;
      let record := {| rr_ID := requestID; rr_RequestedAt := now; rr_State := RetryRequestStateRequested;
                       rr_Reason := ""; rr_AttemptID := ""; rr_SettledAt := None |} in
      write_record run record retryOutcomeRequested ""
        (fun after => callRequeue after record adapter item)
  end.

Definition beginRetry (cfg : RetryConfig) (run : CoderRun) (requestID : string) : prog kubeE outcome :=
  match coreRetryRefusal run with
  | Some refusal => writeRetryRefusal run requestID refusal
  | None =>
      if negb (lifecycleReportSettled run) then Ret (done_with run 0 false) else
      active ← activeOwnerExists run;
      match active with
      | Err e => Ret (failed_with run true (RApi e))
      | Ok true => writeRetryRefusal run requestID RetryRefusalActiveOwnerExists
      | Ok false =>
          if String.eqb (sp_Mode (Spec run)) Mode_FixPR then
            guard ← fixPRUpstreamClosed cfg run;
            let '(closed, unreadable) := guard in
            if unreadable : bool then Ret (done_with run retryForgeRequeueDelay true) else
            if closed : bool then writeRetryRefusal run requestID RetryRefusalUpstreamClosed
            else begin_requested cfg run requestID
          else begin_requested cfg run requestID
      end
  end.

Definition announceAlreadyRequeued (run : CoderRun) (annotation : string) : prog kubeE outcome :=
  let token := retryAnnouncedToken annotation in
  let announced := retryAnnouncedSet (default "" (Annotations run !! retryAnnouncedAnnotation)) in
  if bool_decide (token ∈ announced) then Ret (done_with run 0 false) else
  if maxRetryAnnouncedTokens <=? Z.of_nat (size announced) then Ret (done_with run 0 false) else
  let after := set_Annotations run
    (<[retryAnnouncedAnnotation := retryAnnouncedMarker ({[ token ]} ∪ announced)]> (Annotations run)) in
  r ← call (PatchMeta after (copy run));
  match r with
  | Err e => Ret (failed_with after false (RApi e))
  | Ok _ =>
      _ ← observeRetry retryOutcomeRefused;
      _ ← emitRetry after annotation RetryRequestStateRefused RetryRefusalAlreadyRequeued "" "";
      Ret (done_with after 0 false)
  end.

Definition syncRetry (cfg : RetryConfig) (run : CoderRun) : prog kubeE outcome :=
  let id := annotation run RetryAnnotation in
  let fresh (_ : unit) :=
    if negb (validRetryRequestID id) then Ret (done_with run 0 false) else
    match st_RetryRequest (Status run) with
    | Some record =>
        if String.eqb (rr_State record) RetryRequestStateRequeued then
          if String.eqb id (rr_ID record) then Ret (done_with run 0 false) else announceAlreadyRequeued run id
        else if String.eqb id (rr_ID record) then Ret (done_with run 0 false)
        else beginRetry cfg run id
    | None => beginRetry cfg run id
    end in
  match st_RetryRequest (Status run) with
  | Some record =>
      if String.eqb (rr_State record) RetryRequestStateRequested then settleRetryRecord cfg run record
      else fresh tt
  | None => fresh tt
  end.

(** ** What a reconcile does to the record and the source *)

(** The events that matter to the retry contract: a status write, with the
    record it carries and whether it was acknowledged, and a requeue call. *)
Inductive rev :=
| RPatch (rec : option RetryRequest) (ok : bool)
| RReq (key : string) (ans : result requeue_error AttemptRequeueResult).

Definition rev_of (ev : event kubeE) : option rev :=
  match ev with
  | Ev op ans =>
      match op in kubeE X return X -> option rev with
      | PatchStatusE _ _ fields => fun a => Some (RPatch (op_RetryRequest fields) (is_ok a))
      | RequeueAttempt _ _ req => fun a => Some (RReq (IdempotencyKey req) a)
      | _ => fun _ => None
      end ans
  end.

Definition rel (t : trace kubeE) : list rev := omap rev_of t.

Lemma rel_app t1 t2 : rel (t1 ++ t2)%list = (rel t1 ++ rel t2)%list.
Proof. apply omap_app. Qed.

(** The identity of a run and the spec it carries do not change. *)
Definition same_run (a b : CoderRun) : Prop :=
  Namespace a = Namespace b /\ run_Name a = run_Name b /\ UID a = UID b /\ Spec a = Spec b /\
  SourceReceipt (Status a) = SourceReceipt (Status b).

Lemma retry_key_same a b id : same_run a b -> retryIdempotencyKey a id = retryIdempotencyKey b id.
Proof. intros (H1 & H2 & H3 & _). unfold retryIdempotencyKey. by rewrite H1, H2, H3. Qed.

Lemma empty_patch_retry p rec : op_RetryRequest p = Some rec -> is_empty_patch p = false.
Proof. intros H. unfold is_empty_patch. rewrite H. cbn [omitted]. by rewrite !andb_false_r. Qed.

(** A status write of a new record carries exactly that record. *)
Lemma status_write_record run rec state reason now' now fresh st write :
  st_RetryRequest (Status run) <> Some rec ->
  status_write fresh now (Status (copy run))
    (Status (setRetryCondition (set_retry run rec) state reason now' (Generation run))) = (st, write) ->
  (exists fields, write = Some fields /\ op_RetryRequest fields = Some rec) /\
  st_RetryRequest st = Some rec /\ SourceReceipt st = SourceReceipt (Status run).
Proof.
  intros Hne. unfold status_write, stamp_phase.
  set (after := Status (setRetryCondition _ _ _ _ _)).
  assert (Hrr : st_RetryRequest after = Some rec)
    by (subst after; unfold setRetryCondition; by destruct (retry_condition_status state)).
  assert (Hsr : SourceReceipt after = SourceReceipt (Status run))
    by (subst after; unfold setRetryCondition; by destruct (retry_condition_status state)).
  assert (Hb : st_RetryRequest (Status (copy run)) = st_RetryRequest (Status run)) by done.
  set (after' := if String.eqb _ _ then after else _).
  assert (Hrr' : st_RetryRequest after' = Some rec) by (subst after'; by case_match).
  assert (Hsr' : SourceReceipt after' = SourceReceipt (Status run)) by (subst after'; by case_match).
  clearbody after'. intros Hw.
  assert (Hst : after' = st) by exact (f_equal fst Hw).
  assert (Hwr : (if is_empty_patch (operator_fields (Status (copy run)) after') then None
                 else Some (operator_fields (Status (copy run)) after')) = write) by exact (f_equal snd Hw).
  clear Hw. subst st write. split; [|done].
  assert (Hop : op_RetryRequest (operator_fields (Status (copy run)) after') = Some rec).
  { cbn [operator_fields op_RetryRequest]. rewrite Hb, Hrr'. by rewrite decide_False. }
  rewrite (empty_patch_retry _ _ Hop). eauto.
Qed.

Lemma wp_write_record run rec metric successor next (Q : trace kubeE -> outcome -> Prop) :
  st_RetryRequest (Status run) <> Some rec ->
  (forall t after e, rel t = [RPatch (Some rec) false] -> Q t (failed_with after true (RApi e))) ->
  (forall t after, rel t = [RPatch (Some rec) true] -> same_run after run ->
     st_RetryRequest (Status after) = Some rec -> wp (next after) (fun t' out => Q (t ++ t')%list out)) ->
  wp (write_record run rec metric successor next) Q.
Proof.
  intros Hne Herr Hok. unfold write_record. wp_cbn. intros now'.
  set (after0 := setRetryCondition _ _ _ _ _).
  assert (Hsame : same_run after0 run /\ Namespace after0 = Namespace run /\ run_Name after0 = run_Name run).
  { subst after0. unfold setRetryCondition. destruct (retry_condition_status _). by repeat split. }
  apply wp_bind, wp_patchStatus. intros now t out fresh st write Hw Hcases.
  destruct (status_write_record run rec _ _ _ _ _ _ _ Hne Hw) as ((fields & -> & Hop) & Hrec & Hsr).
  assert (Hafter : same_run (set_Status after0 st) run).
  { destruct Hsame as [(H1 & H2 & H3 & H4 & H5) _]. by repeat split. }
  destruct Hcases as [[? _]|(f & [= <-] & [(e & -> & ->)|[-> ->]])]; [done|..]; wp_cbn.
  - rewrite app_nil_r. apply Herr. unfold rel. cbn. by rewrite Hop.
  - intros [] []. match goal with |- wp _ ?P => set (PP := P) end.
    pose proof (Hok (Ev Now now' :: [Ev Now now; Ev (PatchStatusE (Namespace after0) (run_Name after0) fields) (Ok ());
      Ev (Observe "status" (Phase st)) (); Ev (Observe "retry" metric) ();
      Ev (EmitRetry (set_Status after0 st) {| ev_RequestID := rr_ID rec; ev_State := rr_State rec;
        ev_Reason := rr_Reason rec; ev_AttemptID := rr_AttemptID rec; ev_Successor := successor |}) ()])
      (set_Status after0 st)) as H.
    eapply wp_mono; [|apply H; [unfold rel; cbn; by rewrite Hop|done|done]].
    intros t' out' HQ. subst PP. exact HQ.
Qed.

(** What a requeue answer settles the record to. *)
Definition settled_by (record : RetryRequest) (ans : result requeue_error AttemptRequeueResult) (rec : RetryRequest) : Prop :=
  rr_ID rec = rr_ID record /\ rr_RequestedAt rec = rr_RequestedAt record /\ is_Some (rr_SettledAt rec) /\
  match ans with
  | Ok result => rr_State rec = RetryRequestStateRequeued /\ rr_Reason rec = "" /\
                 rr_AttemptID rec = normalizeRetryAttemptID (AttemptID result)
  | Err ErrUnsupportedRetry => rr_State rec = RetryRequestStateRefused /\ rr_Reason rec = RetryRefusalUnsupportedSource /\
                               rr_AttemptID rec = ""
  | Err (RetryRefusal _ true) => rr_State rec = RetryRequestStateMoot /\ rr_Reason rec = RetryRefusalAlreadyRequeued /\
                                 rr_AttemptID rec = ""
  | Err (RetryRefusal _ false) => rr_State rec = RetryRequestStateRefused /\
                                  isRetryAdapterRefusalReason (rr_Reason rec) = true /\ rr_AttemptID rec = ""
  | Err (TransientError _) => False
  end.

(** One requeue call under the record's own key, then at most the write that
    settles the record as the answer says. *)
Definition requeue_shape (run : CoderRun) (record : RetryRequest) (l : list rev) : Prop :=
  exists ans l', l = RReq (retryIdempotencyKey run (rr_ID record)) ans :: l' /\
    (l' = [] \/ exists rec ok, l' = [RPatch (Some rec) ok] /\ settled_by record ans rec).

Lemma wp_settle run record state reason attemptID successor (P : list rev -> Prop) :
  rr_State record <> state -> st_RetryRequest (Status run) = Some record ->
  (forall now ok, P [RPatch (Some {| rr_ID := rr_ID record; rr_RequestedAt := rr_RequestedAt record;
     rr_State := state; rr_Reason := reason; rr_AttemptID := attemptID; rr_SettledAt := Some now |}) ok]) ->
  wp (settleRetryOutcome run record state reason attemptID successor) (fun t _ => P (rel t)).
Proof.
  intros Hst Hrec HP. unfold settleRetryOutcome. wp_cbn. intros now. apply wp_write_record.
  - rewrite Hrec. intros [= H]. apply Hst. by rewrite H.
  - intros t after e Hrel. unfold rel in *. cbn. rewrite Hrel. apply HP.
  - intros t after Hrel _ _. wp_cbn. unfold rel in *. cbn. rewrite app_nil_r, Hrel. apply HP.
Qed.


(** A settled record, built by [settleRetryOutcome]. *)
Definition settled_record (record : RetryRequest) (state reason attemptID : string) (now : Time) : RetryRequest :=
  {| rr_ID := rr_ID record; rr_RequestedAt := rr_RequestedAt record; rr_State := state; rr_Reason := reason;
     rr_AttemptID := attemptID; rr_SettledAt := Some now |}.

Lemma settle_shape run record ans state reason attemptID successor :
  rr_State record <> state -> st_RetryRequest (Status run) = Some record ->
  (forall now, settled_by record ans (settled_record record state reason attemptID now)) ->
  wp (settleRetryOutcome run record state reason attemptID successor)
    (fun t _ => requeue_shape run record (RReq (retryIdempotencyKey run (rr_ID record)) ans :: rel t)).
Proof.
  intros Hst Hrec Hs.
  apply (wp_settle run record state reason attemptID successor
    (fun l => requeue_shape run record (RReq (retryIdempotencyKey run (rr_ID record)) ans :: l))); [done|done|].
  intros now ok. exists ans. eexists. split; [reflexivity|]. right. eexists _, ok. split; [reflexivity|]. apply Hs.
Qed.

Ltac settled := intros ?; unfold settled_by, settled_record; cbn; split_and!; eauto.

Lemma call_requeue_shape run record adapter item :
  rr_State record = RetryRequestStateRequested -> st_RetryRequest (Status run) = Some record ->
  wp (callRequeue run record adapter item) (fun t _ => requeue_shape run record (rel t)).
Proof.
  intros Hst Hrec. unfold callRequeue. wp_cbn. intros ans.
  assert (Hnil : forall t, rel t = [] -> requeue_shape run record
    (rel (Ev (RequeueAttempt (adapter_id adapter) item (requeue_request run record)) ans :: t))).
  { intros t Ht. exists ans, []. split; [|by left]. unfold rel in *. cbn. by rewrite Ht. }
  assert (Hne : forall s, String.eqb RetryRequestStateRequested s = false -> rr_State record <> s)
    by (intros s Hs; rewrite Hst; by apply String.eqb_neq).
  destruct ans as [res|[|reason moot|m]].
  - destruct (ControllerMaterializesSuccessor res && _); [|apply settle_shape; [by apply Hne|done|settled]].
    unfold materializeRetrySuccessor. wp_cbn. intros created.
    destruct created as [[]|e]; cbn [result_bind]; [|destruct (IsAlreadyExists e)]; wp_cbn; [..|by apply Hnil].
    all: apply settle_shape; [by apply Hne|done|settled].
  - apply settle_shape; [by apply Hne|done|settled].
  - destruct moot; (apply settle_shape; [by apply Hne|done|]).
    + settled.
    + settled. by destruct (isRetryAdapterRefusalReason reason) eqn:Hr.
  - by apply Hnil.
Qed.

(** The closed vocabulary of the core's own refusals. *)
Definition core_refusal (reason : string) : Prop :=
  reason = RetryRefusalNotRetryablePhase \/ reason = RetryRefusalAutomaticRecoveryChannel \/
  reason = RetryRefusalActiveOwnerExists \/ reason = RetryRefusalUpstreamClosed \/
  reason = RetryRefusalUnsupportedSource.

(** A refusal the core writes without calling the source. *)
Definition refusal_record (id : string) (rec : RetryRequest) : Prop :=
  rr_ID rec = id /\ rr_State rec = RetryRequestStateRefused /\ core_refusal (rr_Reason rec) /\
  rr_AttemptID rec = "" /\ is_Some (rr_SettledAt rec).

(** The durable intent written before the source is called. *)
Definition requested_record (id : string) (rec : RetryRequest) : Prop :=
  rr_ID rec = id /\ rr_State rec = RetryRequestStateRequested /\ rr_Reason rec = "" /\ rr_AttemptID rec = "" /\
  rr_SettledAt rec = None.

(** A fresh request: nothing, or a core refusal, or the durable intent and,
    once that write is acknowledged, the requeue under its key. *)
Definition begin_shape (run : CoderRun) (id : string) (l : list rev) : Prop :=
  l = [] \/
  (exists rec ok, l = [RPatch (Some rec) ok] /\ refusal_record id rec) \/
  (exists rec, l = [RPatch (Some rec) false] /\ requested_record id rec) \/
  (exists rec l', l = RPatch (Some rec) true :: l' /\ requested_record id rec /\ requeue_shape run rec l').

Lemma write_refusal_shape run id reason :
  core_refusal reason ->
  (forall rec, st_RetryRequest (Status run) = Some rec -> rr_ID rec <> id) ->
  wp (writeRetryRefusal run id reason) (fun t _ => begin_shape run id (rel t)).
Proof.
  intros Hr Hid. unfold writeRetryRefusal. wp_cbn. intros now. set (rec := {| rr_ID := id |}).
  assert (Hshape : forall ok, begin_shape run id [RPatch (Some rec) ok]).
  { intros ok. right. left. exists rec, ok. split; [done|]. split_and!; cbn; eauto. }
  apply wp_write_record.
  - intros Hs. by apply Hid in Hs.
  - intros t after e Hrel. unfold rel in *. cbn. rewrite Hrel. apply Hshape.
  - intros t after Hrel _ _. wp_cbn. unfold rel in *. cbn. rewrite app_nil_r, Hrel. apply Hshape.
Qed.

Lemma begin_requested_shape cfg run id :
  (forall rec, st_RetryRequest (Status run) = Some rec -> rr_ID rec <> id) ->
  wp (begin_requested cfg run id) (fun t _ => begin_shape run id (rel t)).
Proof.
  intros Hid. unfold begin_requested. destruct (adapterAndWorkItem _ _) as [[adapter item]|]; [|by left].
  destruct (is_requeuer adapter); cbn [negb]; [|apply write_refusal_shape; [unfold core_refusal; tauto|done]].
  wp_cbn. intros now. set (rec := {| rr_ID := id |}).
  assert (Hreq : requested_record id rec) by by split_and!.
  apply wp_write_record.
  - intros Hs. by apply Hid in Hs.
  - intros t after e Hrel. unfold rel in *. cbn. rewrite Hrel. right. right. left. eauto.
  - intros t after Hrel Hsame Hrec. eapply wp_mono; [|by apply call_requeue_shape].
    intros t' _ (ans & l' & Hl & Hcase). right. right. right. exists rec. eexists. split.
    + rewrite app_comm_cons, rel_app. unfold rel at 1. cbn. fold (rel t). rewrite Hrel. reflexivity.
    + split; [done|]. exists ans, l'. rewrite Hl. by rewrite (retry_key_same after run).
Qed.

Lemma begin_retry_shape cfg run id :
  (forall rec, st_RetryRequest (Status run) = Some rec -> rr_ID rec <> id) ->
  wp (beginRetry cfg run id) (fun t _ => begin_shape run id (rel t)).
Proof.
  intros Hid. unfold beginRetry. destruct (coreRetryRefusal run) as [refusal|] eqn:Hcore.
  { apply write_refusal_shape; [|done]. unfold coreRetryRefusal, core_refusal in *. repeat case_match; simplify_eq; tauto. }
  destruct (lifecycleReportSettled run); cbn [negb]; [|by left].
  unfold activeOwnerExists. wp_cbn. intros [runs|e]; [|by left].
  destruct (existsb _ _); wp_cbn; [apply write_refusal_shape; [unfold core_refusal; tauto|done]|].
  destruct (String.eqb (sp_Mode (Spec run)) Mode_FixPR); [|by apply begin_requested_shape].
  unfold fixPRUpstreamClosed. destruct (Atoi _) as [number ok].
  assert (Hclosed : forall t0, rel t0 = [] -> wp (writeRetryRefusal run id RetryRefusalUpstreamClosed)
    (fun t _ => begin_shape run id (rel (t0 ++ t)%list))).
  { intros t0 Ht0. eapply wp_mono; [|apply (write_refusal_shape run id RetryRefusalUpstreamClosed)];
      [intros t a Hs; by rewrite rel_app, Ht0|unfold core_refusal; tauto|done]. }
  assert (Hgo : forall t0, rel t0 = [] -> wp (begin_requested cfg run id)
    (fun t _ => begin_shape run id (rel (t0 ++ t)%list))).
  { intros t0 Ht0. eapply wp_mono; [|by apply (begin_requested_shape cfg run id)]. intros t a Hs. by rewrite rel_app, Ht0. }
  destruct (negb ok || _ || _); wp_cbn; [by apply (Hgo [Ev (ListRuns (Namespace run)) (Ok runs)])|].
  destruct (forge_readable cfg); cbn [negb]; wp_cbn; [|by left].
  intros [pull|]; [|by left].
  set (pre := [Ev (ListRuns (Namespace run)) (Ok runs); Ev (ReadPullRequest (sp_Repo (Spec run)) number) (Ok pull)]).
  destruct (exactPullRequestIdentity run number pull); cbn [negb]; [|by apply (Hgo pre)].
  destruct (pull_Merged pull || _); [by apply (Hclosed pre)|by apply (Hgo pre)].
Qed.

(** One reconcile of the retry record. *)
Definition sync_shape (run : CoderRun) (l : list rev) : Prop :=
  match st_RetryRequest (Status run) with
  | Some record =>
      if String.eqb (rr_State record) RetryRequestStateRequested then l = [] \/ requeue_shape run record l else
      if String.eqb (rr_State record) RetryRequestStateRequeued then l = [] else
      l = [] \/ (annotation run RetryAnnotation <> rr_ID record /\ validRetryRequestID (annotation run RetryAnnotation) = true /\
                 begin_shape run (annotation run RetryAnnotation) l)
  | None => l = [] \/ (validRetryRequestID (annotation run RetryAnnotation) = true /\
                       begin_shape run (annotation run RetryAnnotation) l)
  end.

Lemma announce_quiet run id :
  wp (announceAlreadyRequeued run id) (fun t out => rel t = [] /\ out_handled out = false /\ out_wait out = 0).
Proof.
  unfold announceAlreadyRequeued. destruct (bool_decide _); [done|]. destruct (_ <=? _); [done|].
  unfold observeRetry, emitRetry. wp_cbn. intros [[]|e]; wp_cbn; [intros [] []|]; done.
Qed.

Lemma sync_retry_shape cfg run : wp (syncRetry cfg run) (fun t _ => sync_shape run (rel t)).
Proof.
  unfold syncRetry, sync_shape. destruct (st_RetryRequest (Status run)) as [record|] eqn:Hrec.
  - destruct (String.eqb_spec (rr_State record) RetryRequestStateRequested) as [Hst|Hst].
    + unfold settleRetryRecord. destruct (adapterAndWorkItem _ _) as [[adapter item]|]; [|by left].
      destruct (is_requeuer adapter); cbn [negb]; [|by left].
      eapply wp_mono; [|by apply call_requeue_shape]. intros t out H. by right.
    + destruct (validRetryRequestID (annotation run RetryAnnotation)) eqn:Hv; cbn [negb]; [|by case_match; [|left]].
      destruct (String.eqb_spec (rr_State record) RetryRequestStateRequeued).
      * destruct (String.eqb _ _); [done|]. eapply wp_mono; [|apply announce_quiet]. by intros t out [? _].
      * destruct (String.eqb_spec (annotation run RetryAnnotation) (rr_ID record)) as [|Hid]; [by left|].
        eapply wp_mono; [|apply begin_retry_shape]; [intros t out H; by right|].
        rewrite Hrec. intros rec [= <-]. congruence.
  - destruct (validRetryRequestID (annotation run RetryAnnotation)) eqn:Hv; cbn [negb]; [|by left].
    eapply wp_mono; [|apply begin_retry_shape]; [intros t out H; by right|]. by rewrite Hrec.
Qed.

(** ** Histories of one predecessor

    The persisted record and the idempotency keys whose requeue the source has
    committed, over any sequence of reconciles, any of which may be cut short
    after any request.  A status write whose response is an error may or may
    not have been applied; a requeue that failed transiently may or may not
    have been committed.  The source's contract (AttemptRequeuer): a committed
    key replays its committed success, so it is never refused. *)

Record sys := { s_record : option RetryRequest; s_committed : gset string }.

Inductive sys_step (s : sys) : rev -> sys -> Prop :=
| step_patch rec ok :
    sys_step s (RPatch rec ok)
      {| s_record := merge_o merge_retry (s_record s) rec; s_committed := s_committed s |}
| step_patch_lost rec : sys_step s (RPatch rec false) s
| step_requeued key res :
    sys_step s (RReq key (Ok res)) {| s_record := s_record s; s_committed := {[ key ]} ∪ s_committed s |}
| step_transient key m : sys_step s (RReq key (Err (TransientError m))) s
| step_transient_committed key m :
    sys_step s (RReq key (Err (TransientError m)))
      {| s_record := s_record s; s_committed := {[ key ]} ∪ s_committed s |}
| step_unsupported key : key ∉ s_committed s -> sys_step s (RReq key (Err ErrUnsupportedRetry)) s
| step_refused key reason moot :
    key ∉ s_committed s -> sys_step s (RReq key (Err (RetryRefusal reason moot))) s.

Inductive sys_steps : sys -> list rev -> sys -> Prop :=
| steps_nil s : sys_steps s [] s
| steps_cons s ev s1 l s2 : sys_step s ev s1 -> sys_steps s1 l s2 -> sys_steps s (ev :: l) s2.

Definition same_object (a b : CoderRun) : Prop :=
  Namespace a = Namespace b /\ run_Name a = run_Name b /\ UID a = UID b.

Inductive history (run0 : CoderRun) : sys -> Prop :=
| hist_start : history run0 {| s_record := None; s_committed := ∅ |}
| hist_reconcile s cfg run t t' out s' :
    history run0 s -> same_object run run0 -> st_RetryRequest (Status run) = s_record s ->
    exec (syncRetry cfg run) (t ++ t')%list out -> sys_steps s (rel t) s' -> history run0 s'.

(** Every committed key is the persisted record's, and the record still says so. *)
Definition sys_inv (run0 : CoderRun) (s : sys) : Prop :=
  forall key, key ∈ s_committed s ->
    exists rec, s_record s = Some rec /\ key = retryIdempotencyKey run0 (rr_ID rec) /\
      (rr_State rec = RetryRequestStateRequested \/ rr_State rec = RetryRequestStateRequeued).

Lemma inv_none run0 s : s_committed s = ∅ -> sys_inv run0 s.
Proof. intros H key Hk. rewrite H in Hk. set_solver. Qed.

(** A record that is neither Requested nor Requeued has no committed key. *)
Lemma inv_idle run0 s :
  sys_inv run0 s ->
  (forall rec, s_record s = Some rec -> rr_State rec <> RetryRequestStateRequested /\ rr_State rec <> RetryRequestStateRequeued) ->
  s_committed s = ∅.
Proof.
  intros Hinv Hidle. apply leibniz_equiv. intros key. split; [|set_solver]. intros Hk.
  destruct (Hinv key Hk) as (rec & Hr & _ & Hst). destruct (Hidle rec Hr). by destruct Hst.
Qed.

(** The requeue phase, from a state whose record is the Requested one. *)
Lemma requeue_phase run0 run record old l l' s s' :
  same_object run run0 -> rr_State record = RetryRequestStateRequested ->
  s_record s = Some old -> rr_ID old = rr_ID record -> rr_State old = RetryRequestStateRequested ->
  requeue_shape run record (l ++ l')%list -> sys_inv run0 s -> sys_steps s l s' -> sys_inv run0 s'.
Proof.
  intros Hobj Hst Hs Hid Hold (ans & l0 & Hl & Hcase) Hinv Hsteps.
  assert (Hkey : retryIdempotencyKey run (rr_ID record) = retryIdempotencyKey run0 (rr_ID old)).
  { destruct Hobj as (H1 & H2 & H3). unfold retryIdempotencyKey. by rewrite H1, H2, H3, Hid. }
  destruct l as [|ev l]; [by inversion Hsteps; subst|]. rewrite <- app_comm_cons in Hl. injection Hl as -> Hl.
  inversion Hsteps as [|? ? s1 ? ? Hstep Hrest]; subst.
  assert (Hinv1 : sys_inv run0 s1 /\ s_record s1 = Some old /\
    ((exists res, ans = Ok res) \/ (exists m, ans = Err (TransientError m)) \/ s_committed s1 = ∅)).
  { assert (Hadd : sys_inv run0 {| s_record := s_record s;
      s_committed := {[ retryIdempotencyKey run (rr_ID record) ]} ∪ s_committed s |}).
    { intros key [->%elem_of_singleton|Hk]%elem_of_union; [|by apply Hinv]. exists old. cbn. auto. }
    assert (Hnone : retryIdempotencyKey run (rr_ID record) ∉ s_committed s -> s_committed s = ∅).
    { intros Hn. apply leibniz_equiv. intros key. split; [|set_solver]. intros Hk.
      destruct (Hinv key Hk) as (rec & Hr & -> & _). rewrite Hs in Hr. injection Hr as <-. by rewrite <- Hkey in Hk. }
    inversion Hstep; subst; cbn; split_and!; eauto. }
  destruct Hinv1 as (Hinv1 & Hs1 & Hans).
  destruct l as [|ev l]; [by inversion Hrest; subst|].
  destruct Hcase as [Hl|(rec & ok & Hl & Hset)]; [discriminate Hl|]. injection Hl as -> Hl.
  apply app_eq_nil in Hl as [-> _]. inversion Hrest as [|? ? s2 ? ? Hstep2 Hnil]; subst. inversion Hnil; subst.
  inversion Hstep2; subst; [|done]. destruct Hset as (Hrid & _ & _ & Hset).
  destruct Hans as [[res ->]|[[m ->]|Hemp]]; [|done|by apply inv_none].
  intros key Hk. cbn in Hk. destruct (Hinv1 key Hk) as (rec1 & Hr1 & -> & _). rewrite Hs1 in Hr1. injection Hr1 as <-.
  exists (merge_retry old rec). cbn. rewrite Hs1. split_and!; [done|by rewrite Hrid, Hid|]. right. by destruct Hset.
Qed.

(** A fresh request, from a state with nothing committed. *)
Lemma begin_phase run0 run id l l' s s' :
  same_object run run0 -> s_committed s = ∅ -> begin_shape run id (l ++ l')%list -> sys_steps s l s' -> sys_inv run0 s'.
Proof.
  intros Hobj Hemp Hshape Hsteps.
  assert (Hpatch : forall rec ok, l = [RPatch rec ok] -> sys_inv run0 s').
  { intros rec ok ->. inversion Hsteps as [|? ? s1 ? ? Hstep Hnil]; subst. inversion Hnil; subst.
    apply inv_none. by inversion Hstep; subst. }
  destruct l as [|ev l]; [inversion Hsteps; subst; by apply inv_none|].
  destruct Hshape as [?|[(rec & ok & Hl & _)|[(rec & Hl & _)|(rec & l0 & Hl & Hreq & Hshape)]]]; [done|..].
  - injection Hl as -> Hl. apply app_eq_nil in Hl as [-> _]. by eapply Hpatch.
  - injection Hl as -> Hl. apply app_eq_nil in Hl as [-> _]. by eapply Hpatch.
  - injection Hl as -> Hl. inversion Hsteps as [|? ? s1 ? ? Hstep Hrest]; subst.
    inversion Hstep; subst. destruct Hreq as (Hid & Hst & _).
    assert (Hmrg : exists old, merge_o merge_retry (s_record s) (Some rec) = Some old /\ rr_ID old = rr_ID rec /\
      rr_State old = RetryRequestStateRequested) by (destruct (s_record s); cbn; eauto).
    destruct Hmrg as (old & Hold & Hoid & Host).
    eapply (requeue_phase run0 run rec old l l' {| s_record := merge_o merge_retry (s_record s) (Some rec);
      s_committed := s_committed s |}); [done|done|exact Hold|done|done|exact Hshape|by apply inv_none|exact Hrest].
Qed.

Lemma history_inv run0 s : history run0 s -> sys_inv run0 s.
Proof.
  induction 1 as [|s cfg run t t' out s' _ Hinv Hobj Hrec Hex Hsteps]; [by apply inv_none|].
  pose proof (proj1 (wp_exec _ _) (sync_retry_shape cfg run) _ _ Hex) as Hshape. cbv beta in Hshape.
  rewrite rel_app in Hshape. unfold sync_shape in Hshape. rewrite Hrec in Hshape.
  assert (Hnil : (rel t ++ rel t')%list = [] -> sys_inv run0 s').
  { intros [Hl _]%app_eq_nil. rewrite Hl in Hsteps. by inversion Hsteps; subst. }
  destruct (s_record s) as [record|] eqn:Hs.
  - destruct (String.eqb_spec (rr_State record) RetryRequestStateRequested) as [Hst|Hst].
    + destruct Hshape as [?|Hshape]; [auto|]. by eapply (requeue_phase run0 run record record).
    + destruct (String.eqb_spec (rr_State record) RetryRequestStateRequeued) as [|Hst']; [auto|].
      destruct Hshape as [?|(_ & _ & Hshape)]; [auto|]. eapply begin_phase; [done| |exact Hshape|exact Hsteps].
      eapply inv_idle; [done|]. rewrite Hs. intros rec [= <-]. done.
  - destruct Hshape as [?|(_ & Hshape)]; [auto|]. eapply begin_phase; [done| |exact Hshape|exact Hsteps].
    eapply inv_idle; [done|]. by rewrite Hs.
Qed.

(** ** Records within their bounds *)

(** What the resource's schema admits: a state and a reason of the closed
    vocabularies, and an attempt identity of at most 256 code points. *)
Definition schema_reason (reason : string) : Prop :=
  reason = "" \/ core_refusal reason \/ reason = RetryRefusalAlreadyRequeued \/
  isRetryAdapterRefusalReason reason = true.

Definition schema_record (rec : RetryRequest) : Prop :=
  schema_reason (rr_Reason rec) /\ RuneCountInString (rr_AttemptID rec) <= RetryRequestMaxAttemptIDLength /\
  (rr_State rec = RetryRequestStateRequested \/ rr_State rec = RetryRequestStateRequeued \/
   rr_State rec = RetryRequestStateMoot \/ rr_State rec = RetryRequestStateRefused).

Lemma settled_schema record ans rec : settled_by record ans rec -> schema_record rec.
Proof.
  intros (_ & _ & _ & H). unfold schema_record, schema_reason, core_refusal.
  destruct ans as [res|[|reason [|]|m]]; [| | | |done]; destruct H as (-> & Hr & ->); rewrite ?Hr.
  - split_and!; [by left| |by right; left]. unfold normalizeRetryAttemptID.
    by destruct (Z.leb_spec (RuneCountInString (AttemptID res)) RetryRequestMaxAttemptIDLength).
  - split_and!; [tauto|done|tauto].
  - split_and!; [tauto|done|tauto].
  - split_and!; [tauto|done|tauto].
Qed.

Lemma begin_schema run id l rec ok :
  begin_shape run id l -> RPatch rec ok ∈ l -> exists r, rec = Some r /\ schema_record r /\ rr_ID r = id.
Proof.
  intros [->|[(r & o & -> & Hr)|[(r & -> & Hr)|(r & l' & -> & Hr & (ans & l0 & -> & Hc))]]] Hin.
  - by apply not_elem_of_nil in Hin.
  - apply list_elem_of_singleton in Hin as [= -> ->]. exists r. split; [done|]. destruct Hr as (? & Hs & Hc & Ha & _).
    unfold schema_record, schema_reason. rewrite Hs, Ha. split_and!; [tauto|done|tauto|done].
  - apply list_elem_of_singleton in Hin as [= -> ->]. exists r. split; [done|]. destruct Hr as (? & Hs & Hc & Ha & _).
    unfold schema_record, schema_reason. rewrite Hs, Ha. split_and!; [tauto|done|tauto|done].
  - destruct Hr as (Hid & Hs & Hrs & Ha & _). apply elem_of_cons in Hin as [[= -> ->]|Hin].
    { exists r. split; [done|]. unfold schema_record, schema_reason. rewrite Hs, Ha. split_and!; [tauto|done|tauto|done]. }
    apply elem_of_cons in Hin as [|Hin]; [done|]. destruct Hc as [->|(r' & o & -> & Hset)]; [by apply not_elem_of_nil in Hin|].
    apply list_elem_of_singleton in Hin as [= -> ->]. exists r'. split; [done|]. split; [by eapply settled_schema|]. destruct Hset as (-> & _). done.
Qed.

Lemma sync_schema run l rec ok :
  sync_shape run l -> RPatch rec ok ∈ l ->
  exists r, rec = Some r /\ schema_record r /\
  (rr_ID r = annotation run RetryAnnotation /\ validRetryRequestID (annotation run RetryAnnotation) = true \/
   exists old, st_RetryRequest (Status run) = Some old /\ rr_ID r = rr_ID old).
Proof.
  unfold sync_shape. intros Hs Hin.
  assert (Hne : l <> []) by (intros ->; by apply not_elem_of_nil in Hin).
  destruct (st_RetryRequest (Status run)) as [old|].
  - destruct (String.eqb _ _).
    + destruct Hs as [?|(ans & l' & -> & Hc)]; [done|]. apply elem_of_cons in Hin as [|Hin]; [done|].
      destruct Hc as [->|(r & o & -> & Hset)]; [by apply not_elem_of_nil in Hin|].
      apply list_elem_of_singleton in Hin as [= -> ->]. exists r.
      split; [done|]. split; [by eapply settled_schema|]. right. exists old. destruct Hset as (-> & _). done.
    + destruct (String.eqb _ _); [done|]. destruct Hs as [?|(_ & Hv & Hs)]; [done|].
      destruct (begin_schema _ _ _ _ _ Hs Hin) as (r & -> & ? & ?). exists r. auto.
  - destruct Hs as [?|(Hv & Hs)]; [done|]. destruct (begin_schema _ _ _ _ _ Hs Hin) as (r & -> & ? & ?). exists r. auto.
Qed.

(** ** Eligibility *)

Definition is_requeue (ev : event kubeE) : bool :=
  match ev_op ev with RequeueAttempt _ _ _ => true | _ => false end.
Definition requeues (t : trace kubeE) : list (event kubeE) := List.filter is_requeue t.

(** A fresh request reaches the source only past every gate. *)
Definition eligible (cfg : RetryConfig) (run : CoderRun) (t : trace kubeE) : Prop :=
  coreRetryRefusal run = None /\ lifecycleReportSettled run = true /\
  (exists runs, Ev (ListRuns (Namespace run)) (Ok runs) ∈ t /\ forall other, other ∈ runs -> active_owner run other = false) /\
  (exists adapter item, adapterAndWorkItem (Sources cfg) run = Ok (adapter, item) /\ is_requeuer adapter = true).

Lemma write_record_requeues run rec metric successor next :
  (forall after, wp (next after) (fun t _ => requeues t = [])) ->
  wp (write_record run rec metric successor next) (fun t _ => requeues t = []).
Proof.
  intros Hnext. unfold write_record. wp_cbn. intros now'. apply wp_bind, wp_patchStatus.
  intros now t out fresh st write _ [(_ & -> & ->)|(f & _ & [(e & -> & ->)|[-> ->]])]; wp_cbn; [..|done|].
  all: intros [] []; eapply wp_mono; [|apply Hnext]; intros t' a H; done.
Qed.

Lemma refusal_requeues run id reason : wp (writeRetryRefusal run id reason) (fun t _ => requeues t = []).
Proof.
  unfold writeRetryRefusal. wp_cbn. intros now. eapply wp_mono; [|apply write_record_requeues].
  - intros t a H. exact H.
  - intros after. wp_cbn. done.
Qed.

Lemma announce_requeues run id : wp (announceAlreadyRequeued run id) (fun t _ => requeues t = []).
Proof.
  unfold announceAlreadyRequeued. destruct (bool_decide _); [done|]. destruct (_ <=? _); [done|].
  unfold observeRetry, emitRetry. wp_cbn. intros [[]|e]; wp_cbn; [intros [] []|]; done.
Qed.

Lemma begin_requested_eligible cfg run id pre :
  coreRetryRefusal run = None -> lifecycleReportSettled run = true ->
  (exists runs, Ev (ListRuns (Namespace run)) (Ok runs) ∈ pre /\ forall other, other ∈ runs -> active_owner run other = false) ->
  requeues pre = [] ->
  wp (begin_requested cfg run id) (fun t _ => requeues (pre ++ t)%list <> [] -> eligible cfg run (pre ++ t)%list).
Proof.
  intros H1 H2 (runs & Hin & Hno) Hpre. unfold begin_requested.
  destruct (adapterAndWorkItem (Sources cfg) run) as [[adapter item]|] eqn:Ha; [|wp_cbn; by rewrite app_nil_r, Hpre].
  destruct (is_requeuer adapter) eqn:Hq; cbn [negb].
  - eapply wp_mono; [|apply wp_true]. intros t a _ _. split_and!; [done|done| |eauto].
    exists runs. split; [apply elem_of_app; by left|done].
  - eapply wp_mono; [|apply refusal_requeues]. intros t a Ht. unfold requeues in *.
    by rewrite List.filter_app, Hpre, Ht.
Qed.

Lemma begin_retry_eligible cfg run id :
  wp (beginRetry cfg run id) (fun t _ => requeues t <> [] -> eligible cfg run t).
Proof.
  assert (Hrefuse : forall reason pre, requeues pre = [] -> wp (writeRetryRefusal run id reason)
    (fun t _ => requeues (pre ++ t)%list <> [] -> eligible cfg run (pre ++ t)%list)).
  { intros reason pre Hpre. eapply wp_mono; [|apply refusal_requeues]. intros t a Ht. unfold requeues in *.
    by rewrite List.filter_app, Hpre, Ht. }
  unfold beginRetry. destruct (coreRetryRefusal run) eqn:Hc; [by apply (Hrefuse _ [])|].
  destruct (lifecycleReportSettled run) eqn:Hl; cbn [negb]; [|wp_cbn; intros H; by destruct (H eq_refl)].
  unfold activeOwnerExists. wp_cbn. intros [runs|e]; wp_cbn; [|intros H; by destruct (H eq_refl)].
  destruct (existsb (active_owner run) runs) eqn:Hx; [by apply (Hrefuse _ [Ev (ListRuns (Namespace run)) (Ok runs)])|].
  assert (Hgo : forall pre, requeues pre = [] -> Ev (ListRuns (Namespace run)) (Ok runs) ∈ pre ->
    wp (begin_requested cfg run id) (fun t _ => requeues (pre ++ t)%list <> [] -> eligible cfg run (pre ++ t)%list)).
  { intros pre Hpre Hin. apply begin_requested_eligible; [done|done| |done]. exists runs. split; [done|]. by apply existsb_none. }
  destruct (String.eqb _ _); [|apply (Hgo [Ev (ListRuns (Namespace run)) (Ok runs)]); [done|left]].
  unfold fixPRUpstreamClosed. destruct (Atoi _) as [number ok]. destruct (negb ok || _ || _); wp_cbn.
  { apply (Hgo [Ev (ListRuns (Namespace run)) (Ok runs)]); [done|left]. }
  destruct (forge_readable cfg); cbn [negb]; wp_cbn; [|intros H; by destruct (H eq_refl)].
  intros [pull|]; [|intros H; by destruct (H eq_refl)].
  set (pre := [Ev (ListRuns (Namespace run)) (Ok runs); Ev (ReadPullRequest (sp_Repo (Spec run)) number) (Ok pull)]).
  destruct (exactPullRequestIdentity _ _ _); cbn [negb]; [|apply (Hgo pre); [done|left]].
  destruct (pull_Merged pull || _); [by apply (Hrefuse _ pre)|apply (Hgo pre); [done|left]].
Qed.

(** ** Announcements *)

Definition is_token (s : string) : bool := (slen s =? retryAnnouncedTokenLength) && isHex s.

Lemma hex_digit_hex d : 0 <= d < 16 -> is_hex (hex_digit d) = true.
Proof.
  intros H. assert (Hd : d ∈ seqZ 0 16) by (apply elem_of_seqZ; lia). clear H. revert d Hd.
  apply Forall_forall. vm_compute. repeat constructor.
Qed.

Lemma all_hex_app s t : all_hex (s ++ t) = all_hex s && all_hex t.
Proof. induction s as [|c s IH]; [done|]. rewrite sapp_cons. cbn [all_hex]. by rewrite IH, andb_assoc. Qed.

Lemma EncodeToString_hex l : Forall is_byte l -> all_hex (EncodeToString l) = true.
Proof.
  induction 1 as [|b l Hb _ IH]; [done|]. change (EncodeToString (b :: l)) with (hex_byte b ++ EncodeToString l).
  unfold is_byte in Hb. rewrite all_hex_app, IH. unfold hex_byte. cbn [all_hex].
  rewrite !hex_digit_hex; [done|apply Z.mod_pos_bound; lia|]. split; [apply Z.div_pos; lia|apply Z.div_lt_upper_bound; lia].
Qed.

Lemma token_valid id : is_token (retryAnnouncedToken id) = true.
Proof.
  unfold is_token, isHex, retryAnnouncedToken. destruct (Sum256_shape id) as [Hlen Hb].
  assert (Hl : length (take 8 (Sum256 id)) = 8%nat) by (rewrite length_take; lia).
  assert (Hs : slen (EncodeToString (take 8 (Sum256 id))) = 16) by (unfold slen; rewrite EncodeToString_length, Hl; reflexivity). rewrite Hs.
  rewrite EncodeToString_hex by (by apply Forall_take). destruct (EncodeToString _) eqn:He; [|done]. discriminate Hs.
Qed.

Lemma token_no_comma s : is_token s = true -> no_byte "," s = true.
Proof.
  unfold is_token, isHex. intros [_ [H _]%andb_true_iff]%andb_true_iff. induction s as [|c s IH]; [done|].
  cbn [all_hex no_byte] in *. apply andb_true_iff in H as [Hc Hs]. rewrite IH by done. rewrite andb_true_r.
  apply negb_true_iff. by destruct (Ascii.eqb_spec c ","); subst.
Qed.

(** A marker the controller wrote reads back as the set it was written from. *)
Lemma announced_roundtrip (X : gset string) :
  set_Forall (fun s => is_token s = true) X -> retryAnnouncedSet (retryAnnouncedMarker X) = X.
Proof.
  intros HX. unfold retryAnnouncedSet, retryAnnouncedMarker, retryAnnouncedMarkerPrefix.
  set (raw := Join (sort_strings (elements X)) ",").
  change (String.eqb ("v1:" ++ raw) "") with false. rewrite CutPrefix_app. cbn [negb]. subst raw.
  assert (HF : Forall (fun s => is_token s = true) (sort_strings (elements X))).
  { rewrite sort_strings_perm. by apply set_Forall_elements in HX. }
  destruct (decide (elements X = [])) as [He|He].
  { rewrite He. cbn. apply leibniz_equiv. symmetry. by apply elements_empty_iff in He. }
  rewrite Split_Join.
  - change (fun token : string => (slen token =? retryAnnouncedTokenLength) && isHex token) with is_token.
    rewrite filter_all by done. apply leibniz_equiv. rewrite sort_strings_perm. apply list_to_set_elements.
  - by rewrite sort_strings_nil.
  - eapply Forall_impl; [exact HF|]. apply token_no_comma.
Qed.

Lemma announced_tokens marker : set_Forall (fun s => is_token s = true) (retryAnnouncedSet marker).
Proof.
  unfold retryAnnouncedSet. destruct (String.eqb _ _); [apply set_Forall_empty|].
  destruct (CutPrefix _ _) as [raw [|]]; cbn [negb]; [|apply set_Forall_singleton, token_valid].
  intros s Hs. apply elem_of_list_to_set, list_elem_of_In, filter_In in Hs as [_ Hs]. exact Hs.
Qed.

(** ** Properties *)


(** one reconcile follows the record's state machine: a Requested record
    is only driven to the outcome its requeue answer says, a Requeued one is
    never rewritten and never requeued again, and any other one yields only to
    a fresh valid request ID, whose intent is acknowledged as durable before
    the source is called. *)
Theorem retry_state_machine cfg run : wp (syncRetry cfg run) (fun t _ => sync_shape run (rel t)).
Proof. apply sync_retry_shape. Qed.


(** a reconcile that calls the source either resumes a record already
    persisted as Requested, or passed every gate of a fresh request: a
    retryable terminal phase, a settled lifecycle report, a listing with no
    active owner of the same work, and a registered adapter that can requeue. *)
Theorem retry_gated cfg run :
  wp (syncRetry cfg run) (fun t _ => requeues t <> [] ->
    (exists record, st_RetryRequest (Status run) = Some record /\ rr_State record = RetryRequestStateRequested) \/
    (validRetryRequestID (annotation run RetryAnnotation) = true /\ eligible cfg run t)).
Proof.
  assert (Hno : forall P : Prop, requeues [] <> [] -> P) by (intros P H; by destruct (H eq_refl)).
  assert (Hbegin : validRetryRequestID (annotation run RetryAnnotation) = true ->
    wp (beginRetry cfg run (annotation run RetryAnnotation)) (fun t _ => requeues t <> [] ->
      (exists record, st_RetryRequest (Status run) = Some record /\ rr_State record = RetryRequestStateRequested) \/
      (validRetryRequestID (annotation run RetryAnnotation) = true /\ eligible cfg run t))).
  { intros Hv. eapply wp_mono; [|apply begin_retry_eligible]. intros t a H Hq. right. split; [exact Hv|exact (H Hq)]. }
  unfold syncRetry. destruct (st_RetryRequest (Status run)) as [record|].
  - destruct (String.eqb_spec (rr_State record) RetryRequestStateRequested) as [Hst|_].
    { eapply wp_mono; [|apply wp_true]. intros t a _ _. left. exists record. split; [reflexivity|exact Hst]. }
    destruct (validRetryRequestID _) eqn:Hv; cbn [negb]; [|exact (Hno _)].
    destruct (String.eqb (rr_State record) RetryRequestStateRequeued).
    + destruct (String.eqb _ _); [exact (Hno _)|]. eapply wp_mono; [|apply announce_requeues].
      intros t a H Hq. by rewrite H in Hq.
    + destruct (String.eqb _ _); [exact (Hno _)|]. by apply Hbegin.
  - destruct (validRetryRequestID _) eqn:Hv; cbn [negb]; [|exact (Hno _)]. by apply Hbegin.
Qed.

(** The tokens the run's marker holds. *)
Definition announced (run : CoderRun) : gset string :=
  retryAnnouncedSet (default "" (Annotations run !! retryAnnouncedAnnotation)).

Lemma announced_insert run id :
  announced (set_Annotations run (<[retryAnnouncedAnnotation :=
    retryAnnouncedMarker ({[ retryAnnouncedToken id ]} ∪ announced run)]> (Annotations run))) =
  {[ retryAnnouncedToken id ]} ∪ announced run.
Proof.
  unfold announced at 1. cbn [Annotations set_Annotations]. rewrite lookup_insert_eq. cbn [default].
  apply announced_roundtrip, set_Forall_union; [apply set_Forall_singleton, token_valid|apply announced_tokens].
Qed.

Lemma announce_known run id :
  retryAnnouncedToken id ∈ announced run -> announceAlreadyRequeued run id = Ret (done_with run 0 false).
Proof. intros H. unfold announceAlreadyRequeued. by rewrite bool_decide_true. Qed.

(** a request after a committed requeue is announced at most once.  Either
    the pass is silent, its token being recorded already or the marker full, or
    its first request is the metadata write of a marker that holds the old
    tokens and the new one, at most 32 of them; the event follows only an
    acknowledged write, and every later pass over a run carrying that marker is
    silent for this ID. *)
Theorem retry_announced_once run id :
  wp (announceAlreadyRequeued run id) (fun t out =>
    (t = [] /\ out = done_with run 0 false /\
      (retryAnnouncedToken id ∈ announced run \/ maxRetryAnnouncedTokens <= Z.of_nat (size (announced run)))) \/
    exists after r rest, t = Ev (PatchMeta after (copy run)) r :: rest /\
      announced after = {[ retryAnnouncedToken id ]} ∪ announced run /\
      Z.of_nat (size (announced after)) <= maxRetryAnnouncedTokens /\
      (forall later, announced later = announced after ->
         announceAlreadyRequeued later id = Ret (done_with later 0 false)) /\
      match r with
      | Err e => rest = [] /\ out = failed_with after false (RApi e)
      | Ok _ => out = done_with after 0 false /\
          rest = [Ev (Observe "retry" retryOutcomeRefused) tt;
                  Ev (EmitRetry after {| ev_RequestID := id; ev_State := RetryRequestStateRefused;
                        ev_Reason := RetryRefusalAlreadyRequeued; ev_AttemptID := ""; ev_Successor := "" |}) tt]
      end).
Proof.
  unfold announceAlreadyRequeued. fold (announced run). case_bool_decide as Hin; [left; eauto|].
  destruct (Z.leb_spec maxRetryAnnouncedTokens (Z.of_nat (size (announced run)))) as [Hfull|Hroom]; [left; eauto|].
  pose proof (announced_insert run id) as Hins. set (after := set_Annotations _ _) in *. clearbody after.
  assert (Hsize : Z.of_nat (size (announced after)) <= maxRetryAnnouncedTokens).
  { rewrite Hins, size_union, size_singleton by set_solver. lia. }
  assert (Hlater : forall later, announced later = announced after ->
    announceAlreadyRequeued later id = Ret (done_with later 0 false)).
  { intros later Hl. apply announce_known. rewrite Hl, Hins. set_solver. }
  unfold observeRetry, emitRetry. wp_cbn. intros [[]|e]; wp_cbn; [intros [] []|]; right; eexists after, _, _;
    (split; [reflexivity|]); repeat (split; [assumption|]); split; reflexivity.
Qed.

End Retry.

(** ** Witnesses *)

(** An environment that accepts every write and commits every requeue. *)
Definition accepting : forall X, kubeE X -> unit -> unit * X := fun X e w => (w,
  match e in kubeE X return X with
  | Now => 60 * Second
  | GetRun _ _ => Err NotFound
  | ListRuns _ => Ok []
  | PatchMeta _ _ => Ok tt
  | PatchStatusE _ _ _ => Ok tt
  | CreateRun _ => Ok tt
  | DeleteRun _ _ _ _ => Ok tt
  | RequeueAttempt _ _ _ => Ok {| AttemptID := "attempt-2"; ControllerMaterializesSuccessor := false |}
  | ReadPullRequest _ _ => Err "unavailable"
  | ResolveHead _ => Err "unavailable"
  | Observe _ _ => tt
  | EmitRetry _ _ => tt
  end).

Definition failed_run : CoderRun :=
  set_Annotations (set_Status example_run (set_Conditions (set_Phase empty_status PhaseFailed)
    [{| c_Type := lifecycleReportedCondition; c_Status := ConditionTrue; c_Reason := lifecycleReportPublishedReason;
        c_Message := ""; c_ObservedGeneration := 1; c_LastTransitionTime := 0 |}]))
    {[ RetryAnnotation := "retry-1" ]}.

Definition one_requeuer : RetryConfig :=
  {| Sources := Some {[ "dispatch" := Some {| adapter_id := "dispatch"; is_requeuer := true; is_reporter := true;
       is_close_reporter := false; is_recovery_preparer := false; is_capacity_recovery := false; is_cipark := false;
       is_cipark_probe := false; is_prelauncher := false; is_receipt_claimer := false; is_execution_observer := false;
       contribution := None |} ]};
     forge_readable := false |}.


Definition accepted : unit * trace kubeE * outcome :=
  run accepting (syncRetry (CO := keyed_conditions) one_requeuer failed_run) tt.

Lemma retry_state_machine_witness : length (rel accepted.1.2) = 3%nat /\ sync_shape failed_run (rel accepted.1.2).
Proof.
  split; [vm_compute; reflexivity|].
  exact (wp_run accepting _ _ tt (retry_state_machine (CO := keyed_conditions) one_requeuer failed_run)).
Defined.


Lemma retry_gated_witness : eligible (CO := keyed_conditions) one_requeuer failed_run accepted.1.2.
Proof.
  destruct (wp_run accepting _ _ tt (retry_gated (CO := keyed_conditions) one_requeuer failed_run)) as [(rec & H & _)|[_ H]].
  - vm_compute. discriminate.
  - vm_compute in H. discriminate H.
  - exact H.
Defined.
