(* ===== verification/World.v ===== *)
(** * The reconciler's world (internal/controller, internal/source)

    What the CoderRun reconciler talks to beyond Kube.v's requests: lanes,
    pods, the source adapter's optional capabilities, the forge observer and
    the launchers.  A handler that receives [run *CoderRun] mutates it: it is a
    state-passing program [M A] over the run.  An [error] is the list of the
    errors joined in it, nil when empty. *)

From S2P Require Import Prelude Effects GoStrings GoTime Run StatusPatch Lane Kube.
Local Open Scope string_scope.
Local Open Scope Z_scope.

(** ** Pods (k8s.io/api/core/v1, the fields the controller reads) *)

Record OwnerReference := {
  or_APIVersion : string; or_Kind : string; or_Name : string; or_UID : string; or_Controller : option bool
}.

Record VolumeMount := { vm_Name : string; vm_ReadOnly : bool }.

Record SecurityContext := {
  RunAsUser : option Z; AllowPrivilegeEscalation : option bool; Privileged : option bool
}.

Record Container := {
  ct_Name : string; ct_Image : string; ct_Command : list string; ct_Args : list string;
  ct_TerminationMessagePath : string; ct_TerminationMessagePolicy : string;
  ct_SecurityContext : option SecurityContext; ct_VolumeMounts : list VolumeMount; ct_EnvFrom : nat
}.

Record ContainerStateTerminated := {
  ExitCode : Z; tm_Reason : string; tm_Message : string; tm_StartedAt : Time; tm_FinishedAt : Time
}.

(** [Running] carries the start time; waiting containers have neither. *)
Record ContainerStatus := {
  cs_Name : string; cs_RestartCount : Z; cs_ContainerID : string; cs_Image : string;
  cs_Running : option Time; cs_Terminated : option ContainerStateTerminated
}.

Record Pod := {
  pod_Namespace : string; pod_Name : string; pod_UID : string;
  pod_Labels : gmap string string; pod_Annotations : gmap string string;
  pod_OwnerReferences : list OwnerReference;
  pod_CreationTimestamp : Time; pod_DeletionTimestamp : option Time;
  pod_Containers : list Container; pod_InitContainers : list Container; pod_NodeName : string;
  pod_RestartPolicy : string; pod_HostPID : bool; pod_ShareProcessNamespace : option bool;
  pod_AutomountServiceAccountToken : option bool; pod_ServiceAccountName : string;
  pod_Phase : string; pod_Reason : string;
  pod_ContainerStatuses : list ContainerStatus; pod_InitContainerStatuses : list ContainerStatus
}.

Definition PodFailed : string := "Failed".
Definition PodSucceeded : string := "Succeeded".

(** ** Source lifecycle (internal/source/source.go, park.go) *)

Definition StateInProgress : string := "in-progress".
Definition StateInReview : string := "in-review".
Definition StateNeedsHuman : string := "needs-human".

Definition ResultReady : string := "ready".
Definition ResultBlocked : string := "blocked".
Definition ResultCapacityExhausted : string := "capacity-exhausted".
Definition ResultBlockedExternal : string := "blocked-external".
Definition ResultFailed : string := "failed".
Definition ResultHandedOff : string := "handed-off".
Definition ResultAlreadyDone : string := "already-done".

Definition MaxSourceContextBytes : Z := 16 * 1024.

Record CloseCriterion := { cl_Criterion : string; cl_Path : string; cl_Excerpt : string }.
Record CloseProposal := { cp_Criteria : list CloseCriterion; cp_Evidence : string }.

Record Lifecycle := {
  lc_State : string; lc_Result : string; lc_PR : string; lc_Error : string;
  lc_BlockedReportParksPRFix : bool; lc_IdempotencyKey : string; lc_Telemetry : option string;
  lc_StartedAt : option Time; lc_Close : option CloseProposal
}.

Definition CloseActionClosed : string := "closed".
Definition CloseActionRefused : string := "refused".
Definition CloseActionFailed : string := "failed".
Definition CloseActionSkipped : string := "skipped".

Record CloseResolution := {
  cr_Action : string; cr_Reason : string; cr_Reasons : list string; cr_HeadSHA : string; cr_EvidenceDigest : string
}.

Record CapacityRecoveryProof := {
  prf_FenceToken : string; prf_WorkIdentity : string; prf_SafetyProof : string; prf_Branch : string; prf_PR : string
}.

Record CapacityHandoff := {
  ho_FenceToken : string; ho_IdempotencyKey : string; ho_WorkIdentity : string; ho_Branch : string; ho_PR : string;
  ho_CapacityIdentity : string
}.

Record CIParkNotice := { pn_PR : string; pn_Head : string; pn_IdempotencyKey : string }.
Record CIRepairReservation := { rv_FenceToken : string; rv_IdempotencyKey : string; rv_PR : string; rv_Head : string }.
Record CIRepairOutcome := {
  ro_FenceToken : string; ro_IdempotencyKey : string; ro_PR : string; ro_Head : string; ro_Result : string
}.
Record CIParkClose := { px_PR : string; px_Head : string; px_IdempotencyKey : string }.

(** The sentinels a source error may wrap. *)
Inductive sentinel :=
| ErrStaleWork
| ErrSuperseded
| ErrStaleCapacitySettlement
| ErrUnsupportedCapacityRecovery
| ErrUnsupportedOutcome
| ErrPermanentRefusal
| ErrUnsupportedCIPark
| ErrUnsupportedExecutionObservations.
#[export] Instance sentinel_eq_dec : EqDecision sentinel.
Proof. solve_decision. Defined.

Record source_error := { wraps : list sentinel; se_Text : string }.

(** ** Forge observations (observer.go) *)

Definition CheckStatePending : string := "pending".
Definition CheckStatePassed : string := "passed".
Definition CheckStateFailed : string := "failed".
Definition CheckStateUnknown : string := "unknown".

Record CheckObservation := { chk_Name : string; chk_State : string; chk_Output : string }.

Record PRObservation := {
  ob_PR : string; ob_Draft : bool; ob_Head : string; ob_Checks : list CheckObservation; ob_Merged : bool
}.

(** ** Errors *)

Record ProvisioningCollision := { pc_PodName : string; pc_PodUID : string; pc_Since : Time }.

Inductive err :=
| EApi (e : api_error)
| ERegistry (e : registry_error)
| EBranch (e : branch_error)
| ESource (e : source_error)
| ENeedsHuman (reason detail : string)
| EProvisioningInFlight (collision : option ProvisioningCollision)
| EText (msg : string).

(** A Go [error]: nil, or the errors [errors.Join] collected. *)
Definition error : Type := list err.

Definition failed (e : error) : bool := match e with [] => false | _ => true end.

Definition of_result {E A} (inj : E -> err) (r : result E A) : error :=
  match r with Ok _ => [] | Err e => [inj e] end.

(** [errors.Is(e, s)] for a source sentinel. *)
Definition Is (e : error) (s : sentinel) : bool :=
  existsb (fun x => match x with ESource se => bool_decide (s ∈ wraps se) | _ => false end) e.

(** [errors.As] for [*SecureNeedsHumanError]. *)
Fixpoint AsNeedsHuman (e : error) : option (string * string) :=
  match e with
  | [] => None
  | ENeedsHuman reason detail :: _ => Some (reason, detail)
  | ERegistry (SecureNeedsHuman reason msg) :: _ => Some (reason, msg)
  | _ :: e' => AsNeedsHuman e'
  end.

Definition isProvisioningInFlight (e : error) : bool :=
  existsb (fun x => match x with EProvisioningInFlight _ => true | _ => false end) e.

Definition AsCollision (e : error) : option ProvisioningCollision :=
  head (omap (fun x => match x with EProvisioningInFlight c => c | _ => None end) e).

Definition isHeadRepositoryGone (e : error) : bool :=
  existsb (fun x => match x with EBranch ErrHeadRepositoryGone => true | _ => false end) e.

(** ** Results *)

Record ctrl_result := { Requeue : bool; RequeueAfter : Duration }.
Definition res0 : ctrl_result := {| Requeue := false; RequeueAfter := 0 |}.
Definition after (d : Duration) : ctrl_result := {| Requeue := false; RequeueAfter := d |}.
Definition requeue_now : ctrl_result := {| Requeue := true; RequeueAfter := 0 |}.

(** ** Requests *)

Inductive detail_value := DString (s : string) | DInt (z : Z).

Inductive worldE : Type -> Type :=
| Kube {X : Type} (e : kubeE X) : worldE X
(* the API server; [live] reads bypass the informer cache *)
| GetRunCached (ns name : string) : worldE (result api_error CoderRun)
| GetRunLive (ns name : string) : worldE (result api_error CoderRun)
| ListRunsLive (ns : string) : worldE (result api_error (list CoderRun))
| DeleteRunObject (ns name : string) : worldE (result api_error unit)
| GetLane (live : bool) (ns name : string) : worldE (result api_error LaneProfile)
| ListLanes (live : bool) (ns : string) : worldE (result api_error (list LaneProfile))
| PatchLaneStatus (before after : LaneProfile) : worldE (result api_error unit)
| ListPods (live : bool) (ns : string) (runLabel : option string) : worldE (result api_error (list Pod))
| GetPodLive (ns name : string) : worldE (result api_error Pod)
| DeletePod (pod : Pod) (uid : option string) : worldE (result api_error unit)
| DeleteBrokerService (ns run : string) : worldE (result api_error unit)
(* the source adapter *)
| Claim (adapter : string) (item : WorkItem) : worldE (result source_error unit)
| ClaimWithReceipt (adapter : string) (item : WorkItem) : worldE (result source_error WorkItem)
| Release (adapter : string) (item : WorkItem) : worldE (result source_error unit)
| Transition (adapter : string) (item : WorkItem) (state : string) : worldE (result source_error unit)
| Resolve (adapter : string) (item : WorkItem) : worldE (result source_error unit)
| Report (adapter : string) (item : WorkItem) (lc : Lifecycle) : worldE (result source_error unit)
| ReportClose (adapter : string) (item : WorkItem) (lc : Lifecycle) : worldE (result source_error CloseResolution)
| PreLaunch (adapter : string) (item : WorkItem) : worldE (result source_error unit)
| PrepareCapacityRecovery (adapter : string) (item : WorkItem) (runUID key : string) :
    worldE (result source_error CapacityRecoveryProof)
| SettleCapacityExhaustion (adapter : string) (item : WorkItem) (h : CapacityHandoff) : worldE (result source_error unit)
| ReportCIParked (adapter : string) (item : WorkItem) (n : CIParkNotice) : worldE (result source_error unit)
| ReserveCIRepair (adapter : string) (item : WorkItem) (r : CIRepairReservation) : worldE (result source_error string)
| ReportCIRepair (adapter : string) (item : WorkItem) (o : CIRepairOutcome) : worldE (result source_error unit)
| ReleaseCIPark (adapter : string) (item : WorkItem) (c : CIParkClose) : worldE (result source_error unit)
| CIParkLifecycleUnsupported (adapter : string) : worldE bool
(* the forge and the launchers *)
| ObservePR (repo : string) (head : HeadRef) : worldE (result string PRObservation)
| CommentWorkItem (run : CoderRun) (body : string) : worldE (result string unit)
| Launch (run : CoderRun) : worldE error
| LaunchSecure (run : CoderRun) : worldE (ctrl_result * error)
| ResolveAdmission (run : CoderRun) : worldE (result error PublicationPolicy)
| Revoke (run : CoderRun) : worldE (bool * error)
| RemoveFinalizer (run : CoderRun) : worldE error
| DeleteEvidence (run : CoderRun) : worldE error
| ListEvidence (run : CoderRun) : worldE (result error nat)
| ObserveExecution (run : CoderRun) : worldE unit
| ForgetExecution (ns name : string) : worldE unit
| EmitPhase (run : CoderRun) (phase : string) (detail : list (string * detail_value)) : worldE unit.

(** An object read by key carries that key. *)
Definition keyed (ns name : string) (run : CoderRun) : CoderRun :=
  {| Namespace := ns; run_Name := name; UID := UID run; ResourceVersion := ResourceVersion run;
     Generation := Generation run; CreationTimestamp := CreationTimestamp run;
     DeletionTimestamp := DeletionTimestamp run; Finalizers := Finalizers run; Annotations := Annotations run;
     Spec := Spec run; Status := Status run |}.

(** ** Handlers over the run they mutate *)

Definition M (A : Type) : Type := CoderRun -> prog worldE (CoderRun * A).

#[export] Instance M_ret : MRet M := fun A a run => Ret (run, a).
#[export] Instance M_bind : MBind M := fun A B f p run => p run ≫= fun '(run', a) => f a run'.

Definition get : M CoderRun := fun run => Ret (run, run).
Definition put (run' : CoderRun) : M unit := fun _ => Ret (run', tt).
Definition io {X} (e : worldE X) : M X := fun run => x ← call e; Ret (run, x).
Definition kube {X} (e : kubeE X) : M X := io (Kube e).
Definition clock : M Time := kube Now.

(** Assignments to [run.Status]. *)
Definition assign (f : CoderRunStatus -> CoderRunStatus) : M unit :=
  fun run => Ret (set_Status run (f (Status run)), tt).

(** [run.DeepCopy()]. *)
Definition snapshot : M CoderRun := fun run => Ret (run, copy run).

(** A handler of Kube.v's signature, on the run as its argument. *)
Definition lifted {A} (p : CoderRun -> prog kubeE (CoderRun * A)) : M A :=
  fun run => lift (fun _ e => Kube e) (p run).

(** [r.patchStatus(ctx, before, run)]. *)
Definition patch (before : CoderRun) : M error :=
  fun run => '(run', r) ← lift (fun _ e => Kube e) (patchStatus before run); Ret (run', of_result EApi r).

(** [client.IgnoreNotFound]. *)
Definition IgnoreNotFound (r : result api_error unit) : error :=
  match r with Ok _ => [] | Err e => if IsNotFound e then [] else [EApi e] end.

(** [x == nil]. *)
Definition unset {A} (x : option A) : bool := match x with None => true | Some _ => false end.

Definition returns {A} (a : A) : M A := mret a.
