(* ===== verification/Logic.v ===== *)
(** * Reasoning about the reconciler's handlers

    [view] flattens an event of the reconciler's world into what the monitors
    of the following files watch.  [spec step p run s Q] says that the handler
    [p], started on [run] with its monitor in state [s], is never refused and
    ends in a state, a run and a result that satisfy [Q]; one rule per
    constructor of [M] makes a handler's proof follow its text. *)

From S2P Require Import Prelude Effects GoStrings GoTime Run StatusPatch Lane Kube World.
Local Open Scope string_scope.
Local Open Scope Z_scope.

(** ** What a monitor sees *)

Inductive action :=
| AWrite (fields : OperatorPatch) (ok : bool)
| ARead (run : CoderRun)
| ALive (run : CoderRun)
| ARuns (runs : list CoderRun)
| ALane (lane : LaneProfile)
| ALanes (live : bool) (lanes : list LaneProfile)
| APods (live : bool) (label : option string) (pods : list Pod)
| ADeletePod (pod : Pod) (uid : option string)
| ADeleteRun
| AClaim (ok : bool)
| ARelease
| ATransition (state : string)
| AResolve
| AReport (lc : Lifecycle) (ok : bool)
| AClose (lc : Lifecycle) (answer : result source_error CloseResolution)
| APrepare (key : string) (answer : result source_error CapacityRecoveryProof)
| ASettle (h : CapacityHandoff)
| AReserve (r : CIRepairReservation) (answer : result source_error string)
| ALaunch
| AQuiet.

Definition view_kube {X} (e : kubeE X) : X -> action :=
  match e in kubeE X return X -> action with
  | PatchStatusE _ _ fields => fun ans => AWrite fields (is_ok ans)
  | _ => fun _ => AQuiet
  end.

Definition on_ok {E A} (f : A -> action) (r : result E A) : action :=
  match r with Ok a => f a | Err _ => AQuiet end.

Definition view_op {X} (e : worldE X) : X -> action :=
  match e in worldE X return X -> action with
  | Kube k => view_kube k
  | GetRunCached ns name => on_ok (fun run => ARead (keyed ns name run))
  | GetRunLive ns name => on_ok (fun run => ALive (keyed ns name run))
  | ListRunsLive _ => on_ok ARuns
  | DeleteRunObject _ _ => fun _ => ADeleteRun
  | GetLane _ _ _ => on_ok ALane
  | ListLanes live _ => on_ok (ALanes live)
  | ListPods live _ label => on_ok (APods live label)
  | DeletePod pod uid => fun _ => ADeletePod pod uid
  | Claim _ _ => fun ans => AClaim (is_ok ans)
  | ClaimWithReceipt _ _ => fun ans => AClaim (is_ok ans)
  | Release _ _ => fun _ => ARelease
  | Transition _ _ state => fun _ => ATransition state
  | Resolve _ _ => fun _ => AResolve
  | Report _ _ lc => fun ans => AReport lc (is_ok ans)
  | ReportClose _ _ lc => AClose lc
  | PrepareCapacityRecovery _ _ _ key => APrepare key
  | SettleCapacityExhaustion _ _ h => fun _ => ASettle h
  | ReserveCIRepair _ _ r => AReserve r
  | Launch _ => fun _ => ALaunch
  | LaunchSecure _ => fun _ => ALaunch
  | _ => fun _ => AQuiet
  end.

Definition view (ev : event worldE) : action := view_op (ev_op ev) (ev_ans ev).

(** ** Assumptions *)

(** The answers in which the forge shows the pull request merged. *)
Definition shows_merge (ev : event worldE) : bool :=
  match ev_op ev in worldE X return X -> bool with
  | ObservePR _ _ => fun ans => match ans with Ok o => ob_Merged o | Err _ => false end
  | Kube k =>
      match k in kubeE X return X -> bool with
      | ReadPullRequest _ _ => fun ans => match ans with Ok pull => pull_Merged pull | Err _ => false end
      | _ => fun _ => false
      end
  | _ => fun _ => false
  end (ev_ans ev).

(** The executions a proof ranges over: those whose events satisfy [assume].
    [merge_seen] may be false only when no event of them shows a merge. *)
Class Assume := {
  assume : event worldE -> Prop;
  merge_seen : bool;
  assume_merge : forall ev, assume ev -> shows_merge ev = true -> merge_seen = true
}.

(** All executions. *)
Definition all_executions : Assume := {| assume := fun _ => True; merge_seen := true; assume_merge := fun _ _ _ => eq_refl |}.

(** The executions in which the forge never shows a merge. *)
Definition unmerged_executions : Assume :=
  {| assume := fun ev => shows_merge ev = false; merge_seen := false;
     assume_merge := fun ev H H' => eq_trans (eq_sym H) H' |}.

(** ** Rules *)

Section Rules.
Context {AS : Assume}.
Context {S : Type} (mstep : S -> action -> option S).

(** Nothing a handler does quietly moves the monitor. *)
Class Quiet := { quiet : forall s, mstep s AQuiet = Some s }.

Definition step (s : S) (ev : event worldE) : option S := mstep s (view ev).

Definition spec {A} (p : M A) (run : CoderRun) (s : S) (Q : S -> CoderRun -> A -> Prop) : Prop :=
  mon step assume (p run) s (fun s' ra => Q s' ra.1 ra.2).

Lemma spec_mono {A} (p : M A) run s (Q Q' : S -> CoderRun -> A -> Prop) :
  spec p run s Q -> (forall s' run' a, Q s' run' a -> Q' s' run' a) -> spec p run s Q'.
Proof. intros Hp HQ. eapply mon_mono; [|exact Hp]. auto. Qed.

Lemma spec_ret {A} (a : A) run s (Q : S -> CoderRun -> A -> Prop) : Q s run a -> spec (mret a) run s Q.
Proof. done. Qed.

Lemma spec_bind {A B} (p : M A) (f : A -> M B) run s Q :
  spec p run s (fun s' run' a => spec (f a) run' s' Q) -> spec (p ≫= f) run s Q.
Proof.
  intros Hp. unfold spec, mbind, M_bind. apply mon_bind. eapply mon_mono; [|exact Hp].
  intros s' [run' a]. done.
Qed.

Lemma spec_get run s Q : Q s run run -> spec get run s Q.
Proof. done. Qed.

Lemma spec_put run' run s (Q : S -> CoderRun -> unit -> Prop) : Q s run' tt -> spec (put run') run s Q.
Proof. done. Qed.

Lemma spec_assign f run s (Q : S -> CoderRun -> unit -> Prop) :
  Q s (set_Status run (f (Status run))) tt -> spec (assign f) run s Q.
Proof. done. Qed.

Lemma spec_snapshot run s Q : Q s run (copy run) -> spec snapshot run s Q.
Proof. done. Qed.

Lemma spec_io_assume {X} (e : worldE X) run s (Q : S -> CoderRun -> X -> Prop) :
  (forall x, assume (Ev e x) -> exists s', mstep s (view_op e x) = Some s' /\ Q s' run x) -> spec (io e) run s Q.
Proof.
  intros H x Hx. destruct (H x Hx) as (s' & Hs & HQ). unfold step, view. cbn [ev_ty ev_op ev_ans]. rewrite Hs. exact HQ.
Qed.

Lemma spec_io {X} (e : worldE X) run s (Q : S -> CoderRun -> X -> Prop) :
  (forall x, exists s', mstep s (view_op e x) = Some s' /\ Q s' run x) -> spec (io e) run s Q.
Proof. intros H. apply spec_io_assume. intros x _. apply H. Qed.

Context {HQ : Quiet}.

(** A request the monitors do not watch. *)
Lemma spec_quiet {X} (e : worldE X) run s (Q : S -> CoderRun -> X -> Prop) :
  (forall x, view_op e x = AQuiet) -> (forall x, Q s run x) -> spec (io e) run s Q.
Proof. intros Hv H. apply spec_io. intros x. exists s. by rewrite Hv, quiet. Qed.

Lemma spec_clock run s (Q : S -> CoderRun -> Time -> Prop) : (forall now, Q s run now) -> spec clock run s Q.
Proof. intros H. by apply spec_quiet. Qed.

(** The status [patch] leaves: stamped when the phase changed. *)
Definition stamped (st st' : CoderRunStatus) : Prop := st' = st \/ exists p, st' = set_PhaseEnteredAt st p.

(** A status write: nothing when no field changed, else one request whose
    fields are the difference of the two copies. *)
Lemma spec_patch before run s (Q : S -> CoderRun -> error -> Prop) :
  (forall st, stamped (Status run) st ->
     (is_empty_patch (operator_fields (Status before) st) = true -> Q s (set_Status run st) []) /\
     forall fields ok e, fields = operator_fields (Status before) st -> (ok = true -> e = []) -> (ok = false -> e <> []) ->
       exists s', mstep s (AWrite fields ok) = Some s' /\ Q s' (set_Status run st) e) ->
  spec (patch before) run s Q.
Proof.
  intros H. unfold spec, patch. apply mon_bind, mon_lift.
  unfold patchStatus. cbn [mon bind_prog call mbind prog_bind]. intros now _.
  unfold step at 1, view at 1. cbn [inj_event ev_ty ev_op ev_ans view_op view_kube].
  rewrite quiet.
  set (fresh := match PhaseEnteredAt (Status before) with Some p => addr p + 1 | None => 0 end).
  unfold status_write. set (st := stamp_phase fresh now (Status before) (Status run)).
  assert (Hst : stamped (Status run) st).
  { unfold st, stamp_phase. destruct (String.eqb _ _); [by left|]. right. by eexists. }
  destruct (H st Hst) as [Hnone Hsome].
  destruct (is_empty_patch (operator_fields (Status before) st)) ;
    [exact (Hnone eq_refl)|].
  cbn [mon bind_prog call mbind prog_bind].
  intros ans _. destruct (Hsome (operator_fields (Status before) st) (is_ok ans) (of_result EApi ans)) as (s' & Hs & HQ');
    [done|by destruct ans|by destruct ans|].
  unfold step at 1, view at 1. cbn [inj_event ev_ty ev_op ev_ans view_op view_kube]. rewrite Hs.
  destruct ans as [[]|e]; cbn [mon bind_prog call mbind prog_bind]; [|exact HQ'].
  intros [] _. unfold step at 1, view at 1. cbn [inj_event ev_ty ev_op ev_ans view_op view_kube]. rewrite quiet.
  exact HQ'.
Qed.

(** An execution of a handler is accepted by its monitor. *)
Lemma spec_exec {A} (p : M A) run s Q :
  spec p run s Q -> forall t run' a, exec (p run) t (run', a) -> Forall assume t ->
  exists s', accepts step s t = Some s' /\ Q s' run' a.
Proof. intros Hp t run' a Hex Hok. exact (mon_exec step assume (p run) s _ Hp t (run', a) Hex Hok). Qed.

Lemma spec_prefix {A} (p : M A) run s Q :
  spec p run s Q -> forall t1 t2 out, exec (p run) (t1 ++ t2)%list out -> Forall assume t1 -> is_Some (accepts step s t1).
Proof. intros Hp. exact (mon_prefix step assume (p run) s _ Hp). Qed.

End Rules.

Arguments Quiet {S} mstep.

(** [mgo]: follow the handler's text one constructor. *)
Ltac mgo :=
  lazymatch goal with
  | |- spec _ (mbind _ _) _ _ _ => apply spec_bind
  | |- spec _ (mret _) _ _ _ => apply spec_ret
  | |- spec _ (returns _) _ _ _ => apply spec_ret
  | |- spec _ get _ _ _ => apply spec_get
  | |- spec _ (put _) _ _ _ => apply spec_put
  | |- spec _ (assign _) _ _ _ => apply spec_assign
  | |- spec _ snapshot _ _ _ => apply spec_snapshot
  | |- spec _ clock _ _ _ => apply spec_clock; intros ?now
  | |- spec _ (kube _) _ _ _ => apply spec_quiet; [reflexivity|]; intros ?x
  end.
