(* ===== verification/Pods.v ===== *)
(** * Coordinator pods and their endings (internal/controller/
      coderun_controller.go, diagnostics.go, legacy_workspace_observation.go;
      the run labels of internal/executor/pod.go and internal/topology/names.go)

    Which pods are a run's, how a coordinator's termination is read, and which
    phase and diagnostic it gives.  Decoding JSON, redacting text and the [%q] verb
    are parameters ([Codec]): what follows holds for every decoder and redactor. *)

From S2P Require Import Prelude Effects GoStrings GoTime Sha256 Run Kube World.
Local Open Scope string_scope.
Local Open Scope Z_scope.

(** ** Parameters *)

Record terminationMessage := {
  msg_Phase : string; msg_Result : string; msg_ExitCode : Z; msg_Reason : string; msg_Outcome : string;
  msg_ResultKind : string; msg_Category : string; msg_Summary : option RunTelemetry;
  msg_WorkspaceSafety : option WorkspaceSafetyEvidence
}.

Record ObserverEvidence := {
  oe_Version : Z; oe_RunUID : string; oe_PodUID : string; oe_Branch : string; oe_Baseline : string;
  oe_WriterContainerID : string; oe_Safety : option WorkspaceSafetyEvidence
}.

Class Codec := {
  UnmarshalTermination : string -> option terminationMessage;
  UnmarshalObserver : string -> option ObserverEvidence;
  MarshalTelemetry : RunTelemetry -> option string;
  Redact : string -> string;
  Quote : string -> string;
  ApiErrorText : api_error -> string
}.

(** ** Constants *)

Definition coordinatorContainerName : string := "coordinator".
Definition WorkerContainerName : string := "worker".
Definition LabelRun : string := "courier.misospace.dev/coderrun".
Definition LabelProbe : string := "courier.misospace.dev/probe".
Definition LabelComponent : string := "courier.misospace.dev/component".
Definition ComponentCoordinator : string := "coordinator".
Definition ComponentBroker : string := "broker".
Definition ComponentWorker : string := "worker".
Definition handoffPrefix : string := "COURIER_TERMINATION ".
Definition exitDeclaredNoChange : Z := 3.
Definition exitNeedsHuman : Z := 2.
Definition outcomeBlockedExternal : string := "blocked_external".
Definition outcomeCapacityExhausted : string := "capacity_exhausted".

Definition NativeResultPublished : string := "published".
Definition NativeResultNoChange : string := "no_change".
Definition NativeResultNeedsHuman : string := "needs_human".
Definition NativeResultBlockedExternal : string := "blocked_external".
Definition NativeResultCapacityExhausted : string := "capacity_exhausted".
Definition NativeResultWorkloadFailed : string := "workload_failed".
Definition NativeResultInfrastructureFailed : string := "infrastructure_failed".

Definition CategoryExecutorCrash : string := "executor-crash".
Definition CategoryModelTransportError : string := "model-transport-error".
Definition CategoryContinuationExhaustion : string := "continuation-exhaustion".
Definition CategoryVerifierRejection : string := "verifier-rejection".
Definition CategoryKubernetesFailure : string := "kubernetes-failure".
Definition CategoryNeedsDecision : string := "needs-decision".
Definition CategoryBlockedExternal : string := "blocked-external".
Definition CategoryCapacityExhaustion : string := "capacity-exhaustion".
Definition CategoryProviderUnavailable : string := "provider-unavailable".
Definition CategoryForgeUnavailable : string := "forge-unavailable".
Definition CategoryWorkloadFailure : string := "workload-failure".
Definition CategoryInfrastructureFailure : string := "infrastructure-failure".
Definition CategoryUnknown : string := "unknown".

(** [member s l]: [s] is one of the case labels [l]. *)
Definition member (s : string) (l : list string) : bool := existsb (String.eqb s) l.

(** ** Run labels *)

(** One hyphen per rune outside the label alphabet. *)
Definition label_char (c : ascii) : bool :=
  let b := byte_of c in
  ((97 <=? b) && (b <=? 122)) || ((48 <=? b) && (b <=? 57)) || in_set c "-_.".

Fixpoint label_runes (skip : nat) (s : string) : string :=
  match s with
  | "" => ""
  | String c r =>
      match skip with
      | S k => label_runes k r
      | O => String (if label_char c then c else "-"%char) (label_runes ((decode_rune s).1 - 1) r)
      end
  end.

Definition sanitizeLabelValue (value : string) : string :=
  let value := TrimRight (TrimLeft (label_runes 0 (ToLower (TrimSpace value))) "-_.") "-_." in
  if String.eqb value "" then "unknown" else value.

Definition RunLabelValue (name : string) : string :=
  let sanitized := sanitizeLabelValue name in
  if slen sanitized <=? 63 then sanitized else
  let hash := stake 8 (sha256_hex name) in
  TrimRight (stake 54 sanitized) "-_." ++ "-" ++ hash.

Definition LegacyRunLabelValue (name : string) : string :=
  let sanitized := sanitizeLabelValue name in
  if 63 <? slen sanitized then TrimRight (stake 63 sanitized) "-_." else sanitized.

(** ** Ownership *)

Definition is_controller (o : OwnerReference) : bool :=
  match or_Controller o with Some true => true | _ => false end.

Definition podBelongsToRun (pod : Pod) (run : CoderRun) : bool :=
  String.eqb (pod_Namespace pod) (Namespace run) &&
  (existsb (fun o => is_controller o && String.eqb (or_Name o) (run_Name run) && String.eqb (or_Kind o) "CoderRun")
     (pod_OwnerReferences pod) ||
   let label := default "" (pod_Labels pod !! LabelRun) in
   String.eqb label (RunLabelValue (run_Name run)) || String.eqb label (LegacyRunLabelValue (run_Name run))).

Definition hasCoordinatorContainer (pod : Pod) : bool :=
  existsb (fun c => String.eqb (ct_Name c) coordinatorContainerName) (pod_Containers pod).

Definition deleting (pod : Pod) : bool := match pod_DeletionTimestamp pod with Some _ => true | None => false end.

(** A coordinator object of the run, whatever its state. *)
Definition coordinator_of (run : CoderRun) (pod : Pod) : bool := podBelongsToRun pod run && hasCoordinatorContainer pod.

Definition coordinatorPodOf (pods : list Pod) (run : CoderRun) : option Pod :=
  List.find (fun pod => coordinator_of run pod && negb (deleting pod)) pods.

Definition podOwnedByRunUID (pod : Pod) (runUID : string) : bool :=
  existsb (fun o => is_controller o && String.eqb (or_UID o) runUID) (pod_OwnerReferences pod).

Definition podPhaseTerminal (phase : string) : bool := String.eqb phase PodFailed || String.eqb phase PodSucceeded.

(** ** Container states *)

Definition coordinator_statuses (pod : Pod) : list ContainerStatus :=
  List.filter (fun cs => String.eqb (cs_Name cs) coordinatorContainerName) (pod_ContainerStatuses pod).

(** The first terminated coordinator container. *)
Definition coordinator_terminated (pod : Pod) : option ContainerStateTerminated :=
  head (omap cs_Terminated (coordinator_statuses pod)).

Definition coordinatorContainerStart (pod : Pod) : Time :=
  default zero_time (head (omap (fun cs => match cs_Running cs with
                                           | Some start => Some start
                                           | None => tm_StartedAt <$> cs_Terminated cs
                                           end) (coordinator_statuses pod))).

Definition workerShellRunning (pod : Pod) : bool :=
  existsb (fun cs => String.eqb (cs_Name cs) WorkerContainerName && match cs_Running cs with Some _ => true | None => false end)
    (pod_ContainerStatuses pod).

(** ** Durations *)

(** [time.Duration.Round(time.Second)] of a non-negative duration; [None] when
    rounding up overflows, which Go answers with the largest duration. *)
Definition round_second (d : Duration) : option Duration :=
  let r := d mod Second in
  if r + r <? Second then Some (d - r) else
  let up := d + (Second - r) in if up <=? int64_max then Some up else None.

(** [time.Duration.String] of a whole number of seconds. *)
Definition second_string (d : Duration) : string :=
  let s := d / Second in
  let m := s / 60 in
  let h := m / 60 in
  if s =? 0 then "0s" else
  if m =? 0 then Itoa s ++ "s" else
  if h =? 0 then Itoa m ++ "m" ++ Itoa (s mod 60) ++ "s"
  else Itoa h ++ "h" ++ Itoa (m mod 60) ++ "m" ++ Itoa (s mod 60) ++ "s".

Definition durationString (d : Duration) : string :=
  match round_second (if d <? 0 then 0 else d) with
  | Some d => second_string d
  | None => "2562047h47m16.854775807s"
  end.

(** ** The termination handoff *)

Section Termination.
Context {CD : Codec}.

Definition validTerminationPhaseResult (exitCode : Z) (phase result : string) : bool :=
  if exitCode =? 0 then String.eqb phase "Verifying" && String.eqb result "success" else
  if exitCode =? 2 then String.eqb phase "NeedsHuman" && String.eqb result "needs-human" else
  if exitCode =? exitDeclaredNoChange then String.eqb phase "NoChangeNeeded" && String.eqb result "success"
  else String.eqb phase "Failed" && String.eqb result "failure".

(** The message is trusted only when it decodes and agrees with the kubelet's
    exit code. *)
Definition parseCoordinatorTermination (pod : Pod) : option terminationMessage :=
  match coordinator_terminated pod with
  | None => None
  | Some terminated =>
      let '(payload, ok) := CutPrefix (TrimSpace (tm_Message terminated)) handoffPrefix in
      if negb ok then None else
      match UnmarshalTermination payload with
      | None => None
      | Some message =>
          if (msg_ExitCode message =? ExitCode terminated) &&
             validTerminationPhaseResult (ExitCode terminated) (msg_Phase message) (msg_Result message)
          then Some message else None
      end
  end.

Definition coordinatorHandoffCategory (pod : Pod) : string :=
  match parseCoordinatorTermination pod with Some m => TrimSpace (msg_Category m) | None => "" end.

Definition coordinatorHandoffValid (pod : Pod) : bool :=
  match parseCoordinatorTermination pod with Some _ => true | None => false end.

Record Termination := {
  t_ExitCode : Z; t_Reason : string; t_Outcome : string; t_Summary : option RunTelemetry
}.

Definition coordinatorTermination (pod : Pod) : option Termination :=
  match coordinator_terminated pod with
  | None => None
  | Some terminated =>
      Some (match parseCoordinatorTermination pod with
            | Some m => {| t_ExitCode := ExitCode terminated; t_Reason := TrimSpace (msg_Reason m);
                           t_Outcome := TrimSpace (msg_Outcome m); t_Summary := msg_Summary m |}
            | None => {| t_ExitCode := ExitCode terminated; t_Reason := ""; t_Outcome := ""; t_Summary := None |}
            end)
  end.

Definition coordinatorPodUnrecoverable (pod : Pod) : bool :=
  podPhaseTerminal (pod_Phase pod) &&
  match coordinatorTermination pod with Some _ => false | None => true end.

Definition trustedForgeUnavailableHandoff (pod : Pod) (terminationOutcome : string) : bool :=
  String.eqb terminationOutcome outcomeBlockedExternal &&
  String.eqb (coordinatorHandoffCategory pod) CategoryForgeUnavailable.

Definition boundedWorkspaceSafety (w : option WorkspaceSafetyEvidence) : option WorkspaceSafetyEvidence :=
  match w with
  | None => None
  | Some e =>
      if negb (member (ws_State e) ["clean"; "dirty"; "empty"; "unknown"; "pushed"]) then None else
      let bound value max := if max <? slen value then "" else value in
      Some {| ws_State := ws_State e; ws_Branch := bound (ws_Branch e) 256; ws_Head := bound (ws_Head e) 128;
              ws_RemoteHead := bound (ws_RemoteHead e) 128 |}
  end.

(** ** Classification *)

Definition phaseForExit (mode : string) (exitCode : Z) (outcome : string) : string :=
  if exitCode =? 0 then PhaseVerifying else
  if exitCode =? 2 then
    if String.eqb outcome outcomeBlockedExternal || String.eqb outcome outcomeCapacityExhausted
    then PhaseBlockedExternal else PhaseNeedsHuman
  else if exitCode =? exitDeclaredNoChange then
    if String.eqb mode Mode_FixPR || String.eqb mode Mode_Rebase then PhaseVerifying else
    if String.eqb mode Mode_ResolveIssue then PhaseNeedsHuman else PhaseAwaitingReview
  else PhaseFailed.

(** The kind a handoff carries, empty when it is not one of the known kinds. *)
Definition nativeResultKindOf (resultKind : string) : string :=
  let kind := TrimSpace resultKind in
  if member kind [NativeResultPublished; NativeResultNoChange; NativeResultNeedsHuman; NativeResultBlockedExternal;
                  NativeResultCapacityExhausted; NativeResultWorkloadFailed; NativeResultInfrastructureFailed]
  then kind else "".

(** The persisted result when it is fenced to this pod, else the handoff's. *)
Definition trustedNativeResult (run : CoderRun) (pod : Pod) : option NativeResult :=
  let handoff :=
    match parseCoordinatorTermination pod with
    | Some m => let kind := nativeResultKindOf (msg_ResultKind m) in
                if String.eqb kind "" then None
                else Some {| nr_Kind := kind; nr_Reason := TrimSpace (msg_Reason m); nr_CoordinatorPodUID := "";
                             nr_At := zero_time |}
    | None => None
    end in
  match st_NativeResult (Status run) with
  | Some result =>
      if String.eqb (nr_CoordinatorPodUID result) (pod_UID pod) && negb (String.eqb (nativeResultKindOf (nr_Kind result)) "")
      then Some result else handoff
  | None => handoff
  end.

Definition phaseForNativeResult (mode kind : string) : string :=
  if String.eqb kind NativeResultPublished then PhaseVerifying else
  if String.eqb kind NativeResultNoChange then
    if String.eqb mode Mode_FixPR then PhaseVerifying else
    if String.eqb mode Mode_ResolveIssue then PhaseNeedsHuman else PhaseAwaitingReview
  else if String.eqb kind NativeResultNeedsHuman then PhaseNeedsHuman else
  if String.eqb kind NativeResultBlockedExternal || String.eqb kind NativeResultCapacityExhausted then PhaseBlockedExternal
  else PhaseFailed.

(** ** Diagnostics (diagnostics.go) *)

Definition terminalDiagnosticReasonBytes : Z := 1024.
Definition terminalDiagnosticReasonSuffix : string := "... [truncated]".
Definition wedgedReapDiagnosticReason : string := "coordinator was reaped as wedged after no successful activity".
Definition terminalContainerReasonBytes : Z := 128.

Definition isAllowlistedContainerReason (reason : string) : bool :=
  member reason ["Completed"; "Error"; "OOMKilled"; "ContainerStatusUnknown"; "Evicted"; "DeadlineExceeded"; "Preempt"].

Definition isAllowlistedPodReason (reason : string) : bool :=
  member reason ["Evicted"; "NodeAffinity"; "NodeLost"; "Shutdown"; "Unschedulable"; "UnexpectedAdmissionError";
                 "Error"; "ContainerStatusUnknown"].

Definition isInfraContainerReason (reason : string) : bool :=
  member reason ["OOMKilled"; "ContainerStatusUnknown"; "Evicted"; "DeadlineExceeded"; "Preempt"].

Definition isInfraPodReason (reason : string) : bool :=
  member reason ["Evicted"; "NodeAffinity"; "NodeLost"; "Unschedulable"; "UnexpectedAdmissionError"; "ContainerStatusUnknown"].

Definition boundedContainerTerminationReason (reason : string) : string :=
  let reason := TrimSpace reason in
  if negb (isAllowlistedContainerReason reason) then "" else
  if terminalContainerReasonBytes <? slen reason then stake (Z.to_nat terminalContainerReasonBytes) reason else reason.

Definition knownTerminalDiagnosticCategory (category : string) : bool :=
  member category [CategoryExecutorCrash; CategoryModelTransportError; CategoryContinuationExhaustion;
                   CategoryVerifierRejection; CategoryKubernetesFailure; CategoryNeedsDecision; CategoryBlockedExternal;
                   CategoryCapacityExhaustion; CategoryProviderUnavailable; CategoryForgeUnavailable;
                   CategoryWorkloadFailure; CategoryInfrastructureFailure; CategoryUnknown].

Definition categoryForNativeResultKind (kind : string) : string :=
  if String.eqb kind NativeResultNeedsHuman then CategoryNeedsDecision else
  if String.eqb kind NativeResultBlockedExternal then CategoryBlockedExternal else
  if String.eqb kind NativeResultCapacityExhausted then CategoryCapacityExhaustion else
  if String.eqb kind NativeResultWorkloadFailed then CategoryWorkloadFailure else
  if String.eqb kind NativeResultInfrastructureFailed then CategoryInfrastructureFailure else "".

Definition classifyTerminalDiagnostic (handoffCategory : string) (exitCode : option Z) (outcome : string)
    (kubernetesFailure : bool) (trustedKind : string) : string :=
  let category := TrimSpace handoffCategory in
  if negb (String.eqb category "") && negb (String.eqb category CategoryUnknown) && knownTerminalDiagnosticCategory category
  then category else
  let trusted := categoryForNativeResultKind trustedKind in
  if negb (String.eqb trusted "") then trusted else
  if kubernetesFailure then CategoryKubernetesFailure else
  if String.eqb (TrimSpace outcome) "needs_decision" then CategoryNeedsDecision else
  if String.eqb (TrimSpace outcome) "blocked_external" then CategoryBlockedExternal else
  if String.eqb (TrimSpace outcome) outcomeCapacityExhausted then CategoryCapacityExhaustion else
  match exitCode with
  | Some c => if negb (c =? 0) && negb (c =? exitDeclaredNoChange) && negb (c =? exitNeedsHuman)
              then CategoryExecutorCrash else CategoryUnknown
  | None => CategoryUnknown
  end.

(** The longest valid UTF-8 prefix of at most [limit] bytes. *)
Fixpoint utf8_prefix (limit : nat) (s : string) : string :=
  match limit with
  | O => ""
  | S k => let p := stake limit s in if ValidString p then p else utf8_prefix k s
  end.

Definition boundedDiagnosticReason (reason : string) : string :=
  let reason := Redact (TrimSpace reason) in
  if slen reason <=? terminalDiagnosticReasonBytes then reason else
  utf8_prefix (Z.to_nat (terminalDiagnosticReasonBytes - slen terminalDiagnosticReasonSuffix)) reason
    ++ terminalDiagnosticReasonSuffix.

(** [string([]rune(s)[:n])]: an invalid byte becomes U+FFFD. *)
Fixpoint rune_prefix (n skip : nat) (s : string) : string :=
  match s with
  | "" => ""
  | String c r =>
      match skip with
      | S k => String c (rune_prefix n k r)
      | O => match n with
             | O => ""
             | S n' => let '(w, ok) := decode_rune s in
                       if ok then String c (rune_prefix n' (w - 1) r)
                       else str1 239 ++ str1 191 ++ str1 189 ++ rune_prefix n' 0 r
             end
      end
  end.

Definition boundedDiagnosticOutcome (outcome : string) : string := rune_prefix 64 0 (TrimSpace outcome).

Definition categoryDiagnosticReason (category : string) : string :=
  if String.eqb category CategoryNeedsDecision then "coordinator declared it needed a decision" else
  if String.eqb category CategoryBlockedExternal then "coordinator declared it was blocked on an external prerequisite" else
  if String.eqb category CategoryVerifierRejection then "coordinator exit was rejected by the verified world" else
  if String.eqb category CategoryModelTransportError then "coordinator model transport exited with a non-zero status" else
  if String.eqb category CategoryContinuationExhaustion then "coordinator exhausted its continuation budget" else
  if String.eqb category CategoryKubernetesFailure then "coordinator pod failed at the Kubernetes or container layer" else
  if String.eqb category CategoryCapacityExhaustion then "execution capacity was confirmed exhausted" else
  if String.eqb category CategoryProviderUnavailable then
    "the model provider did not serve this attempt; work released for another capacity" else
  if String.eqb category CategoryForgeUnavailable then
    "a forge read could not complete on a transient availability condition; the world was never observed; work released for another capacity" else
  if String.eqb category CategoryWorkloadFailure then
    "the coordinator reported a workload failure: a verdict on the work, not the infrastructure" else
  if String.eqb category CategoryInfrastructureFailure then
    "the coordinator reported an infrastructure failure; recovery is a bounded relaunch and resume" else
  if String.eqb category CategoryExecutorCrash then "coordinator exited without a valid handoff" else
  if String.eqb category CategoryUnknown then "coordinator ended with no captured cause" else "".

Definition kubeletContainerReason (pod : option Pod) : string :=
  match pod ≫= coordinator_terminated with
  | Some terminated => let reason := TrimSpace (tm_Reason terminated) in
                       if isAllowlistedContainerReason reason then reason else ""
  | None => ""
  end.

Definition operatorDiagnosticReason (category override : string) (pod : option Pod) : string :=
  let container := kubeletContainerReason pod in
  let podReason := match pod with Some p => TrimSpace (pod_Reason p) | None => "" end in
  Join ([categoryDiagnosticReason category] ++
        (if String.eqb container "" then [] else ["container: " ++ container]) ++
        (if isAllowlistedPodReason podReason then ["pod: " ++ podReason] else []) ++
        (if String.eqb override "" then [] else [override])) "; ".

Definition coordinatorContainerDiagnostic (pod : Pod) : TerminalContainerDiagnostic :=
  match head (coordinator_statuses pod) with
  | Some cs =>
      {| tc_PodName := pod_Name pod; tc_PodUID := pod_UID pod; tc_Namespace := pod_Namespace pod;
         tc_NodeName := pod_NodeName pod; tc_ContainerName := cs_Name cs; tc_ContainerID := cs_ContainerID cs;
         tc_Image := cs_Image cs; tc_RestartCount := cs_RestartCount cs;
         tc_TerminationReason := match cs_Terminated cs with
                                 | Some t => boundedContainerTerminationReason (tm_Reason t)
                                 | None => ""
                                 end |}
  | None =>
      {| tc_PodName := pod_Name pod; tc_PodUID := pod_UID pod; tc_Namespace := pod_Namespace pod;
         tc_NodeName := pod_NodeName pod; tc_ContainerName := ""; tc_ContainerID := ""; tc_Image := "";
         tc_RestartCount := 0; tc_TerminationReason := "" |}
  end.

Definition buildTerminalDiagnostic (now : Time) (exitCode : option Z) (reasonOverride outcome handoffCategory : string)
    (kubernetesFailure : bool) (pod : option Pod) (trustedKind : string) : TerminalDiagnostic :=
  let category := classifyTerminalDiagnostic handoffCategory exitCode outcome kubernetesFailure trustedKind in
  {| td_Category := category; td_ExitCode := exitCode;
     td_Reason := boundedDiagnosticReason (operatorDiagnosticReason category reasonOverride pod);
     td_Outcome := boundedDiagnosticOutcome outcome; td_ObservedAt := Some now;
     td_Container := coordinatorContainerDiagnostic <$> pod |}.

Definition kubernetesFailureEvidence (pod : option Pod) (handoffValid : bool) : bool :=
  match pod with
  | None => true
  | Some p =>
      (negb handoffValid && (isInfraContainerReason (kubeletContainerReason pod) || isInfraPodReason (TrimSpace (pod_Reason p)))) ||
      (String.eqb (pod_Phase p) PodFailed && match coordinator_terminated p with None => true | Some _ => false end &&
       negb handoffValid)
  end.

(** ** The isolated workspace observer (legacy_workspace_observation.go) *)

Definition ObserverContractAnnotation : string := "courier.misospace.dev/observer-contract".
Definition ObserverContractVersion : string := "1".
Definition ObserverContainerName : string := "workspace-observer".
Definition ObserverUID : Z := 65533.
Definition ObserverStatePath : string := "/courier-observer".
Definition MaxTerminationLineBytes : Z := 4096.

Fixpoint hex_string (s : string) : bool := match s with "" => true | String c r => is_hex (ascii_lower c) && hex_string r end.

(** [couriergit.ValidOID]. *)
Definition ValidOID (oid : string) : bool := ((slen oid =? 40) || (slen oid =? 64)) && hex_string oid.

Definition ownedLegacyPod (pod : Pod) (run : CoderRun) : bool :=
  String.eqb (pod_Namespace pod) (Namespace run) && negb (String.eqb (UID run) "") &&
  existsb (fun o => is_controller o && String.eqb (or_UID o) (UID run) && String.eqb (or_Name o) (run_Name run) &&
                    String.eqb (or_Kind o) "CoderRun" && String.eqb (or_APIVersion o) "courier.misospace.dev/v1alpha1")
    (pod_OwnerReferences pod).

(** The last container with the name: the source's loop keeps overwriting. *)
Definition container_named (name : string) (cs : list Container) : option Container :=
  last (List.filter (fun c => String.eqb (ct_Name c) name) cs).

Definition is_true_ptr (b : option bool) : bool := match b with Some true => true | _ => false end.
Definition is_false_ptr (b : option bool) : bool := match b with Some false => true | _ => false end.

Definition seed_valid (observer : Container) (inits : list Container) : bool :=
  existsb (fun seed => String.eqb (ct_Name seed) "workspace-observer-seed" && String.eqb (ct_Image seed) (ct_Image observer) &&
                       bool_decide (ct_Command seed = ct_Command observer) && bool_decide (ct_Args seed = ["observe-seed"]) &&
                       String.eqb (ct_TerminationMessagePath seed) (ObserverStatePath ++ "/seed-termination")) inits.

(** Shared volumes: only the workspace, which the observer mounts read-only. *)
Definition shares (writer : Container) (m : VolumeMount) : bool :=
  existsb (fun w => String.eqb (vm_Name w) (vm_Name m)) (ct_VolumeMounts writer).

Definition mounts_isolated (observer writer : Container) : bool :=
  forallb (fun m => negb (shares writer m) || (String.eqb (vm_Name m) "workspace" && vm_ReadOnly m)) (ct_VolumeMounts observer) &&
  existsb (shares writer) (ct_VolumeMounts observer).

Definition isolatedObserverSpec (pod : Pod) : bool :=
  String.eqb (default "" (pod_Annotations pod !! ObserverContractAnnotation)) ObserverContractVersion &&
  String.eqb (pod_RestartPolicy pod) "Never" && negb (pod_HostPID pod) &&
  negb (is_true_ptr (pod_ShareProcessNamespace pod)) && Nat.eqb (length (pod_Containers pod)) 2 &&
  match container_named "coordinator" (pod_Containers pod), container_named ObserverContainerName (pod_Containers pod) with
  | Some writer, Some observer =>
      String.eqb (ct_TerminationMessagePath observer) (ObserverStatePath ++ "/termination") &&
      String.eqb (ct_TerminationMessagePolicy observer) "File" && String.eqb (ct_Image observer) (ct_Image writer) &&
      bool_decide (ct_Command observer = ["/usr/local/bin/courier-executor"]) &&
      bool_decide (ct_Args observer = ["observe-workspace"]) &&
      match ct_SecurityContext observer with
      | None => false
      | Some security =>
          bool_decide (RunAsUser security = Some ObserverUID) && is_false_ptr (AllowPrivilegeEscalation security) &&
          negb (is_true_ptr (Privileged security))
      end &&
      negb (bool_decide ((ct_SecurityContext writer ≫= RunAsUser) = Some ObserverUID)) &&
      seed_valid observer (pod_InitContainers pod) && mounts_isolated observer writer &&
      Nat.eqb (ct_EnvFrom observer) 0 && is_false_ptr (pod_AutomountServiceAccountToken pod)
  | _, _ => false
  end.

Definition status_named (name : string) (l : list ContainerStatus) : option ContainerStatus :=
  last (List.filter (fun s => String.eqb (cs_Name s) name) l).

(** The evidence an observed pod proves, and whether it is still pending. *)
Definition observer_evidence (run : CoderRun) (pod : Pod) : option WorkspaceSafetyEvidence * bool :=
  if existsb (fun s => negb (cs_RestartCount s =? 0)) (pod_ContainerStatuses pod) then (None, false) else
  let writerStatus := status_named "coordinator" (pod_ContainerStatuses pod) in
  let writerID := match writerStatus with Some s => cs_ContainerID s | None => "" end in
  match writerStatus ≫= cs_Terminated with
  | None => (None, true)
  | Some writer =>
      if String.eqb writerID "" then (None, true) else
      match status_named ObserverContainerName (pod_ContainerStatuses pod) ≫= cs_Terminated with
      | None => (None, true)
      | Some observer =>
          if negb (ExitCode observer =? 0) || (tm_FinishedAt observer <? tm_FinishedAt writer) ||
             (MaxTerminationLineBytes <? slen (tm_Message observer)) then (None, false) else
          match UnmarshalObserver (tm_Message observer) with
          | None => (None, false)
          | Some proof =>
              if negb (oe_Version proof =? 1) || negb (String.eqb (oe_PodUID proof) (pod_UID pod)) ||
                 negb (String.eqb (oe_RunUID proof) (UID run)) || negb (String.eqb (oe_WriterContainerID proof) writerID) ||
                 negb (String.eqb (oe_Branch proof) (st_Branch (Status run))) || negb (ValidOID (oe_Baseline proof))
              then (None, false) else
              let seedOK := existsb (fun s => String.eqb (cs_Name s) "workspace-observer-seed" &&
                match cs_Terminated s with
                | Some t => (ExitCode t =? 0) && String.eqb (TrimSpace (tm_Message t)) (oe_Baseline proof)
                | None => false
                end) (pod_InitContainerStatuses pod) in
              match oe_Safety proof with
              | None => (None, false)
              | Some safety =>
                  if negb seedOK || negb (String.eqb (ws_Branch safety) (st_Branch (Status run))) || negb (ValidOID (ws_Head safety))
                  then (None, false) else
                  let state := ws_State safety in
                  let ok := if String.eqb state "empty"
                            then String.eqb (ws_Head safety) (oe_Baseline proof) && String.eqb (ws_RemoteHead safety) ""
                            else if String.eqb state "pushed" then String.eqb (ws_RemoteHead safety) (ws_Head safety)
                            else member state ["dirty"; "unknown"] in
                  (if ok then Some safety else None, false)
              end
          end
      end
  end.

Definition legacyWorkspaceObservation (cached : Pod) : M (result error (option WorkspaceSafetyEvidence * bool)) :=
  run ← get;
  r ← io (GetPodLive (pod_Namespace cached) (pod_Name cached));
  mret (match r with
        | Err e => Err [EApi e]
        | Ok pod =>
            Ok (if String.eqb (pod_UID pod) "" || negb (String.eqb (pod_UID pod) (pod_UID cached)) || deleting pod ||
                   negb (ownedLegacyPod pod run) || negb (isolatedObserverSpec pod)
                then (None, false) else observer_evidence run pod)
        end).

Definition legacyObservationCondition (run : CoderRun) (now : Time) : Condition :=
  {| c_Type := "LegacyWorkspaceObserved"; c_Status := ConditionTrue; c_Reason := "IsolatedObserver";
     c_ObservedGeneration := Generation run; c_LastTransitionTime := now;
     c_Message := "workspace observed after writer termination by the isolated run-owned container" |}.

End Termination.

(** ** Launch rejections (secure_control.go) *)

Definition baseUnverifiedReason : string := "BaseUnverified".
Definition laneConfigReason : string := "LaneConfig".

Definition terminalPreflightVerdict (e : error) : option (string * string) :=
  match AsNeedsHuman e with
  | Some (reason, detail) =>
      if member reason ["PodAdmission"; "ProbeIdentity"; baseUnverifiedReason] then Some (reason, detail) else None
  | None => None
  end.

Definition reason_rejection (name : string) (e : error) : option (string * string) :=
  match AsNeedsHuman e with
  | Some (reason, detail) => if String.eqb reason name then Some (reason, detail) else None
  | None => None
  end.

Definition laneConfigRejection : error -> option (string * string) := reason_rejection laneConfigReason.
Definition contributionContextRejection : error -> option (string * string) := reason_rejection contributionContextReason.

Definition launchRejection (e : error) : option (string * string) :=
  match terminalPreflightVerdict e with
  | Some p => Some p
  | None => match laneConfigRejection e with Some p => Some p | None => contributionContextRejection e end
  end.

(** ** The two routes of an ending *)

(** The exit code and outcome the legacy contract uses for a result kind. *)
Definition legacy_exit (kind : string) : Z * string :=
  if String.eqb kind NativeResultPublished then (0, "") else
  if String.eqb kind NativeResultNoChange then (exitDeclaredNoChange, "") else
  if String.eqb kind NativeResultNeedsHuman then (exitNeedsHuman, "") else
  if String.eqb kind NativeResultBlockedExternal then (exitNeedsHuman, outcomeBlockedExternal) else
  if String.eqb kind NativeResultCapacityExhausted then (exitNeedsHuman, outcomeCapacityExhausted) else (1, "").

