(* ===== verification/Report.v ===== *)
(** * Source reports (internal/controller/coderun_controller.go)

    The reconciler's configuration, the conditions it keeps on a run, and what
    a terminal run reports to its source.  The intent of a report is persisted
    in the LifecycleReported condition, so a later reconcile reads back the
    same intent and repeats the same report. *)

From S2P Require Import Prelude Effects GoStrings GoTime Sha256 Run StatusPatch Lane Kube Reap Retry World Pods.
Local Open Scope string_scope.
Local Open Scope Z_scope.

(** ** The reconciler's configuration *)

Record WorkItemLinker := { CommitLink : string -> string -> string; FileLink : string -> string -> string -> string }.

(** The facts of a selected provider registration the controller compares. *)
Record Registration := { rg_Name : string; rg_Endpoint : string; rg_Digest : string }.

Record SecureConfig := {
  sc_RunNamespace : string;
  sc_SelectRegistration : string -> option Registration;
  sc_VerifySkills : list SkillPin -> option string;
  sc_SelectSkills : list string -> result string (list SkillPin);
  sc_VerifyCriteria : PublicationPolicy -> option string;
  sc_MaxRestarts : Z
}.

Record Reconciler := {
  r_Retry : RetryConfig;
  r_Reap : ReapConfig;
  r_Launch : bool;
  r_PRHeadResolver : bool;
  r_Observer : bool;
  r_WorkItemComments : bool;
  r_WorkItemLinks : option WorkItemLinker;
  r_Evidence : bool;
  r_Events : bool;
  r_ProvisioningCollisionGrace : Duration;
  r_LivenessWindow : Duration;
  r_MaxRestarts : Z;
  r_CapacityCooldownWindow : Duration;
  r_Secure : option SecureConfig;
  r_OwnedNamespaces : list string
}.

Definition r_Sources (r : Reconciler) : option SourceRegistry := Sources (r_Retry r).

(** ** Constants *)

Definition capacityRequeueDelay : Duration := 15 * Second.
Definition observationRequeueDelay : Duration := 5 * Second.
Definition lifecycleReportRequeueDelay : Duration := 30 * Second.
Definition provisioningInFlightRequeueDelay : Duration := 5 * Second.
Definition defaultProvisioningCollisionGrace : Duration := 6 * Hour.

Definition lifecycleReportSupportedCondition : string := "LifecycleReportSupported".
Definition lifecycleReportPendingReason : string := "Pending".
Definition lifecycleReportPendingBlockedReportParksPRFixReason : string := "PendingBlockedReportParksPRFix".
Definition lifecycleReportPendingWithErrorReason : string := "PendingWithError".
Definition lifecycleReportPendingExternalVerificationFailureReason : string := "PendingExternalVerificationFailure".
Definition lifecycleReportUnsupportedOutcomeReason : string := "UnsupportedOutcome".
Definition lifecycleReportRetryableReason : string := "Retryable".
Definition lifecycleReportAcceptedSupportReason : string := "Accepted".
Definition retryLifecycleReportAnnotation : string := "courier.misospace.dev/retry-lifecycle-report".
Definition externalVerificationFailureReason : string := "external verification failed".
Definition rebaseAttemptFailedReason : string :=
  "rebase attempt failed; the episode returns to the source under its attempt cap".

Definition CIParkOutcomeRepushed : string := "repushed".
Definition CIParkOutcomeExhausted : string := "exhausted".
Definition CIParkOutcomeUnsupported : string := "unsupported".

Record terminalLifecycleIntent := {
  skipPRFixQueueMark : bool; ciFailure : bool; in_error : string; in_diagnostic : option TerminalDiagnostic;
  in_conditions : list Condition
}.
Definition no_intent : terminalLifecycleIntent :=
  {| skipPRFixQueueMark := false; ciFailure := false; in_error := ""; in_diagnostic := None; in_conditions := [] |}.
Definition intent_error (e : string) : terminalLifecycleIntent :=
  {| skipPRFixQueueMark := false; ciFailure := false; in_error := e; in_diagnostic := None; in_conditions := [] |}.
Definition intent_ci : terminalLifecycleIntent :=
  {| skipPRFixQueueMark := false; ciFailure := true; in_error := ""; in_diagnostic := None; in_conditions := [] |}.
Definition intent_diagnostic (e : string) (d : TerminalDiagnostic) : terminalLifecycleIntent :=
  {| skipPRFixQueueMark := false; ciFailure := false; in_error := e; in_diagnostic := Some d; in_conditions := [] |}.

(** ** Keys *)

(** [ciparkDigest] and the keys derived from the run's identity. *)
Definition ciparkDigest (parts : list string) : string := sha256_hex (Join parts (str1 0)).
Definition ciparkFenceToken (run : CoderRun) (attempt : Z) : string := ciparkDigest [UID run; "fence"; Itoa attempt].
Definition ciparkParkKey (run : CoderRun) (head : string) : string := ciparkDigest [UID run; "park"; head].
Definition ciparkRepairKey (run : CoderRun) (attempt : Z) : string := ciparkDigest [UID run; "repair-key"; Itoa attempt].

Definition lifecycleIdempotencyKey (run : CoderRun) (phase : string) : string :=
  let key := "coderun/" ++ Namespace run ++ "/" ++ run_Name run ++ "/" ++ phase in
  if String.eqb (UID run) "" then key else key ++ "/" ++ UID run.

(** ** Repair attempts a terminal write abandons *)

Definition abandonCIRepairAttempt (uid : CoderRun) (st : CoderRunStatus) : CoderRunStatus :=
  match CIRepair st with
  | None => st
  | Some repair =>
      let st := if String.eqb (rep_FenceToken repair) "" then st else
        set_st_CISettlement st (Some {| cs_FenceToken := rep_FenceToken repair;
          cs_IdempotencyKey := ciparkRepairKey uid (rep_Attempt repair); cs_Result := CIParkOutcomeUnsupported; cs_Head := "" |}) in
      set_CIRepair st None
  end.

Section Report.
Context {CO : ConditionOps}.

(** ** Conditions *)

Definition condition (st : CoderRunStatus) (type : string) : option Condition := FindStatusCondition (Conditions st) type.

Definition with_condition (c : Condition) (st : CoderRunStatus) : CoderRunStatus :=
  set_Conditions st (SetStatusCondition (Conditions st) c).

Definition mk_condition (type status reason message : string) (now : Time) : Condition :=
  {| c_Type := type; c_Status := status; c_ObservedGeneration := 0; c_LastTransitionTime := now; c_Reason := reason;
     c_Message := message |}.

(** Set a condition stamped with the clock. *)
Definition stamp_condition (type status reason message : string) : M unit :=
  now ← clock; assign (with_condition (mk_condition type status reason message now)).

Definition bool_status (b : bool) : string := if b then ConditionTrue else ConditionFalse.

(** ** Pending intents *)

Definition pendingLifecycleReason (intent : terminalLifecycleIntent) : string :=
  if ciFailure intent then lifecycleReportPendingExternalVerificationFailureReason else
  if skipPRFixQueueMark intent then lifecycleReportPendingBlockedReportParksPRFixReason else
  if negb (String.eqb (in_error intent) "") then lifecycleReportPendingWithErrorReason
  else lifecycleReportPendingReason.

Definition pendingLifecycleIntent (st : CoderRunStatus) : terminalLifecycleIntent :=
  match condition st lifecycleReportedCondition with
  | Some cond =>
      if negb (String.eqb (c_Status cond) ConditionFalse) then no_intent else
      {| skipPRFixQueueMark := String.eqb (c_Reason cond) lifecycleReportPendingBlockedReportParksPRFixReason;
         ciFailure := String.eqb (c_Reason cond) lifecycleReportPendingExternalVerificationFailureReason;
         in_error := c_Message cond; in_diagnostic := None; in_conditions := [] |}
  | None => no_intent
  end.

Definition lifecycleReportPending (st : CoderRunStatus) : bool :=
  member (Phase st) [PhaseAwaitingReview; PhaseHandedOff; PhaseNeedsHuman; PhaseFailed; PhaseBlockedExternal; PhaseAlreadyDone] &&
  match condition st lifecycleReportedCondition with
  | Some cond => String.eqb (c_Status cond) ConditionFalse
  | None => false
  end.

Definition lifecycleReportUnsupported (st : CoderRunStatus) : bool :=
  match condition st lifecycleReportSupportedCondition with
  | Some cond => String.eqb (c_Status cond) ConditionFalse && String.eqb (c_Reason cond) lifecycleReportUnsupportedOutcomeReason
  | None => false
  end.

Definition validLifecycleReportRetryToken (token : string) : bool :=
  negb (String.eqb token "") && ValidString token && (RuneCountInString token <=? 128).

Definition lifecycleReportRetryRequested (run : CoderRun) : bool :=
  match Annotations run !! retryLifecycleReportAnnotation with
  | Some token => validLifecycleReportRetryToken token && negb (String.eqb token (LifecycleReportRetryToken (Status run)))
  | None => false
  end.

(** The retry token an attempt spends: the active one, else a fresh request. *)
Definition attempt_token (run : CoderRun) : string :=
  let token := LifecycleReportActiveRetryToken (Status run) in
  if String.eqb token "" && lifecycleReportUnsupported (Status run) && lifecycleReportRetryRequested run
  then annotation run retryLifecycleReportAnnotation else token.

(** ** What is reported *)

Definition stateForTerminalPhase (phase runMode : string) (intent : terminalLifecycleIntent) : string :=
  if String.eqb phase PhaseAwaitingReview then StateInReview else
  if String.eqb phase PhaseBlockedExternal then StateInProgress else
  if String.eqb phase PhaseNeedsHuman then StateNeedsHuman else
  if String.eqb phase PhaseFailed then
    if (String.eqb runMode Mode_FixPR && ciFailure intent) || String.eqb runMode Mode_Rebase then StateInProgress else StateNeedsHuman
  else "".

Definition lifecycleForPhase (phase runMode state pr : string) (startedAt : option Time) (intent : terminalLifecycleIntent) :
    Lifecycle :=
  let report result error parks :=
    {| lc_State := state; lc_Result := result; lc_PR := pr; lc_Error := error; lc_BlockedReportParksPRFix := parks;
       lc_IdempotencyKey := ""; lc_Telemetry := None; lc_StartedAt := startedAt; lc_Close := None |} in
  let or_else e d := if String.eqb e "" then d else e in
  if String.eqb phase PhaseAwaitingReview then report (if String.eqb pr "" then "" else ResultReady) "" false else
  if String.eqb phase PhaseFailed then
    if ciFailure intent then report ResultFailed externalVerificationFailureReason false else
    if String.eqb runMode Mode_Rebase then report ResultFailed rebaseAttemptFailedReason false
    else report ResultBlocked "coordinator failed" false
  else if String.eqb phase PhaseHandedOff then report ResultHandedOff externalVerificationFailureReason false else
  if String.eqb phase PhaseNeedsHuman then
    report ResultBlocked (or_else (in_error intent) "run requires human intervention") (skipPRFixQueueMark intent) else
  if String.eqb phase PhaseBlockedExternal then
    report ResultBlockedExternal (or_else (in_error intent) "run is blocked on an external prerequisite") false else
  if String.eqb phase PhaseAlreadyDone then report ResultAlreadyDone (in_error intent) false
  else report "" "" false.

Definition set_result (lc : Lifecycle) (result error : string) : Lifecycle :=
  {| lc_State := lc_State lc; lc_Result := result; lc_PR := lc_PR lc; lc_Error := error;
     lc_BlockedReportParksPRFix := lc_BlockedReportParksPRFix lc; lc_IdempotencyKey := lc_IdempotencyKey lc;
     lc_Telemetry := lc_Telemetry lc; lc_StartedAt := lc_StartedAt lc; lc_Close := lc_Close lc |}.

Definition set_key (lc : Lifecycle) (key : string) (telemetry : option string) : Lifecycle :=
  {| lc_State := lc_State lc; lc_Result := lc_Result lc; lc_PR := lc_PR lc; lc_Error := lc_Error lc;
     lc_BlockedReportParksPRFix := lc_BlockedReportParksPRFix lc; lc_IdempotencyKey := key;
     lc_Telemetry := telemetry; lc_StartedAt := lc_StartedAt lc; lc_Close := lc_Close lc |}.

End Report.
