(* ===== verification/Capacity.v ===== *)
(** * Capacity recovery (internal/controller/capacity_recovery.go)

    A run that ended for want of capacity pauses its lane's capacity identity
    for a window, recomputed from the markers the exhausted runs carry, and
    hands its work back to the source under a fence: only once its report was
    published, no writer of the run is alive, the partial work is proved safe
    and the source's proof is complete. *)

From S2P Require Import Prelude Effects GoStrings GoTime Run StatusPatch Lane Kube Reap Retry World Pods Report.
Local Open Scope string_scope.
Local Open Scope Z_scope.

Definition defaultCapacityCooldownWindow : Duration := 15 * Minute.
Definition capacityRecoverySettled : string := "Settled".
Definition capacityRecoveryUnsupported : string := "Unsupported".
Definition capacityRecoveryStale : string := "Stale".
Definition capacityRecoveryUnsafeWork : string := "UnsafeWork".
Definition capacityRecoveryPendingWriters : string := "PendingWriters".
Definition capacityRecoveryRetryable : string := "Retryable".
Definition conditionCapacityCooldownRecorded : string := "CapacityCooldownRecorded".

Definition capacitySettlementKey (run : CoderRun) : string :=
  "capacity/" ++ Namespace run ++ "/" ++ run_Name run ++ "/" ++ UID run.

#[export] Instance CapacityCooldown_eq_dec : EqDecision CapacityCooldown.
Proof. solve_decision. Defined.

Section Capacity.
Context {CO : ConditionOps} {CD : Codec}.
Variable r : Reconciler.

Definition isCapacityExhaustionRun (st : CoderRunStatus) : bool :=
  String.eqb (Phase st) PhaseBlockedExternal &&
  match st_TerminalDiagnostic st with
  | Some d => member (td_Category d) [CategoryCapacityExhaustion; CategoryProviderUnavailable; CategoryForgeUnavailable;
                                      CategoryModelTransportError]
  | None => false
  end.

Definition capacityRecoveryPending (st : CoderRunStatus) : bool :=
  isCapacityExhaustionRun st &&
  match condition st ConditionCapacityRecovery with
  | None => true
  | Some cond =>
      negb (String.eqb (c_Status cond) ConditionTrue && String.eqb (c_Reason cond) capacityRecoverySettled) &&
      negb (member (c_Reason cond) [capacityRecoveryUnsupported; capacityRecoveryStale; capacityRecoveryUnsafeWork])
  end.

Definition capacityCooldownRecorded (st : CoderRunStatus) : bool :=
  match condition st conditionCapacityCooldownRecorded with
  | Some c => String.eqb (c_Status c) ConditionTrue
  | None => false
  end.

Definition capacityCooldownWindow : Duration :=
  if 0 <? r_CapacityCooldownWindow r then r_CapacityCooldownWindow r else defaultCapacityCooldownWindow.

Definition safeCapacityWorkspace (evidence : option WorkspaceSafetyEvidence) (branch head : string) : bool :=
  match evidence with
  | None => false
  | Some e =>
      if String.eqb (ws_State e) "empty" then true else
      if String.eqb (ws_State e) "pushed" then
        negb (String.eqb (ws_RemoteHead e) "") && negb (String.eqb (ws_Head e) "") &&
        String.eqb (ws_RemoteHead e) (ws_Head e) && negb (String.eqb (ws_Branch e) "") &&
        String.eqb (ws_Branch e) branch && negb (String.eqb branch "")
      else false
  end.

(** The runs whose recorded exhaustion still pauses a capacity identity. *)
Definition exhaustion_marker (lanes : list LaneProfile) (identity : string) (windowStart : Time) (event : CoderRun) :
    option (Time * string) :=
  if negb (isCapacityExhaustionRun (Status event)) || String.eqb (sp_Lane (Spec event)) "" then None else
  match last (List.filter (fun l => String.eqb (lp_Name l) (sp_Lane (Spec event))) lanes) with
  | None => None
  | Some lane =>
      if negb (String.eqb (CapacityIdentity lane) identity) then None else
      match condition (Status event) conditionCapacityCooldownRecorded with
      | Some marker =>
          if negb (String.eqb (c_Status marker) ConditionTrue) || (c_LastTransitionTime marker <? windowStart) then None
          else Some (c_LastTransitionTime marker, run_Name event)
      | None => None
      end
  end.

(** [marker.After(latest) || Equal && event.Name > latestRun]. *)
Definition later_marker (latest m : Time * string) : Time * string :=
  if After m.1 latest.1 || ((m.1 =? latest.1) && string_gtb m.2 latest.2) then m else latest.

Definition cooldown_of (identity : string) (markers : list (Time * string)) : option CapacityCooldown :=
  match markers with
  | [] => None
  | _ =>
      let latest := fold_left later_marker markers (zero_time, "") in
      Some {| CapacityID := identity; cc_Reason := "run " ++ latest.2 ++ " reported a recoverable capacity handoff";
              LastExhaustedRun := latest.2; ExhaustionCount := Z.of_nat (length markers);
              NextEligibleAt := Add latest.1 capacityCooldownWindow |}
  end.

(** The run's own event, which a lagging list may miss. *)
Fixpoint overlay (run : CoderRun) (runs : list CoderRun) : list CoderRun :=
  match runs with
  | [] => [run]
  | x :: rest => if String.eqb (UID x) (UID run) && String.eqb (run_Name x) (run_Name run) then run :: rest
                 else x :: overlay run rest
  end.

Definition set_CapacityCooldown (l : LaneProfile) (c : option CapacityCooldown) : LaneProfile :=
  {| lp_Name := lp_Name l; lp_Annotations := lp_Annotations l; lp_Spec := lp_Spec l; lp_Status := {| lp_CapacityCooldown := c |} |}.

(** What the lane's cooldown becomes: recomputed from the live markers, and
    cleared only when it is this identity's own. *)
Definition next_cooldown (identity : string) (old : option CapacityCooldown) (markers : list (Time * string)) :
    option CapacityCooldown :=
  match cooldown_of identity markers with
  | Some c => Some c
  | None => match old with
            | Some c => if String.eqb (CapacityID c) identity then None else old
            | None => None
            end
  end.

Definition recordCapacityCooldownLane : M error :=
  run ← get;
  lane ← io (GetLane true (Namespace run) (sp_Lane (Spec run)));
  match lane with
  | Err e => mret (if IsNotFound e then [] else [EApi e])
  | Ok lane =>
      let identity := CapacityIdentity lane in
      runs ← io (ListRunsLive (Namespace run));
      match runs with
      | Err e => mret [EApi e]
      | Ok runs =>
          lanes ← io (ListLanes true (Namespace run));
          match lanes with
          | Err e => mret [EApi e]
          | Ok lanes =>
              now ← clock;
              let markers := omap (exhaustion_marker lanes identity (Add now (- capacityCooldownWindow))) (overlay run runs) in
              let next := next_cooldown identity (lp_CapacityCooldown (lp_Status lane)) markers in
              if decide (lp_CapacityCooldown (lp_Status lane) = next) then mret [] else
              w ← io (PatchLaneStatus lane (set_CapacityCooldown lane next));
              mret (of_result EApi w)
          end
      end
  end.

(** [retry.RetryOnConflict(retry.DefaultRetry, ...)]: five tries. *)
Definition is_conflict (e : error) : bool := existsb (fun x => match x with EApi a => IsConflict a | _ => false end) e.

Fixpoint retry_on_conflict (steps : nat) (p : M error) : M error :=
  match steps with
  | O => p
  | S k => e ← p; if is_conflict e then retry_on_conflict k p else mret e
  end.

Definition recordCapacityCooldown : M error :=
  run ← get;
  e ← (if capacityCooldownRecorded (Status run) then mret [] else
       before ← snapshot;
       _ ← stamp_condition conditionCapacityCooldownRecorded ConditionTrue "Recorded" "confirmed capacity exhaustion registered";
       patch before);
  if failed e then mret e else retry_on_conflict 4 recordCapacityCooldownLane.

Definition setCapacityRecovery (status reason message : string) : M error :=
  before ← snapshot;
  _ ← stamp_condition ConditionCapacityRecovery status reason message;
  patch before.

(** The answers of the two source calls classify the same way. *)
Definition settlement_failed (e : source_error) : M (ctrl_result * error) :=
  let has s := bool_decide (s ∈ wraps e) in
  if has ErrStaleCapacitySettlement || has ErrSuperseded then
    w ← setCapacityRecovery ConditionFalse capacityRecoveryStale (se_Text e); mret (res0, w)
  else if has ErrUnsupportedCapacityRecovery then
    w ← setCapacityRecovery ConditionFalse capacityRecoveryUnsupported (se_Text e); mret (res0, w)
  else w ← setCapacityRecovery ConditionFalse capacityRecoveryRetryable (se_Text e);
       mret (after lifecycleReportRequeueDelay, w).

Definition writer_alive (run : CoderRun) (pod : Pod) : bool :=
  podBelongsToRun pod run && (deleting pod || negb (podPhaseTerminal (pod_Phase pod))).

Definition held (reason message : string) : M (ctrl_result * error) :=
  w ← setCapacityRecovery ConditionFalse reason message; mret (res0, w).

(** The fenced handoff once every gate passed. *)
Definition settle_capacity (adapter : Adapter) (item : WorkItem) (key : string) (proof : CapacityRecoveryProof) :
    M (ctrl_result * error) :=
  run ← get;
  lane ← io (GetLane true (Namespace run) (sp_Lane (Spec run)));
  match lane with
  | Err e => held capacityRecoveryRetryable ("read capacity identity for source settlement: " ++ ApiErrorText e)
  | Ok lane =>
      if negb (is_capacity_recovery adapter) then
        held capacityRecoveryUnsupported "source cannot atomically settle capacity recovery; ownership remains held" else
      answer ← io (SettleCapacityExhaustion (adapter_id adapter) item
        {| ho_FenceToken := prf_FenceToken proof; ho_IdempotencyKey := key; ho_WorkIdentity := prf_WorkIdentity proof;
           ho_Branch := prf_Branch proof; ho_PR := prf_PR proof; ho_CapacityIdentity := CapacityIdentity lane |});
      match answer with
      | Err e => settlement_failed e
      | Ok _ => w ← setCapacityRecovery ConditionTrue capacityRecoverySettled
                      "source accepted authoritative safe handoff and settled this attempt"; mret (res0, w)
      end
  end.

Definition recoverCapacityExhaustion (adapter : Adapter) (item : WorkItem) : M (ctrl_result * error) :=
  e ← recordCapacityCooldown;
  if failed e then mret (res0, e) else
  run ← get;
  match condition (Status run) lifecycleReportedCondition with
  | None => mret (res0, [])
  | Some report =>
      if negb (String.eqb (c_Status report) ConditionTrue) then mret (res0, []) else
      if String.eqb (c_Reason report) "Superseded" then
        held capacityRecoveryStale "the lifecycle report was superseded; a newer source attempt owns the work" else
      pods ← io (ListPods true (Namespace run) None);
      match pods with
      | Err e => mret (res0, [EApi e])
      | Ok pods =>
          if existsb (writer_alive run) pods then
            w ← setCapacityRecovery ConditionFalse capacityRecoveryPendingWriters
                  "run topology still has live pods; settlement waits for every writer to terminate";
            mret (after observationRequeueDelay, w)
          else if negb (safeCapacityWorkspace (WorkspaceSafety (Status run)) (st_Branch (Status run)) (HeadSHA (Status run))) then
            held capacityRecoveryUnsafeWork
              "trusted workspace evidence does not prove partial work is safely held remotely; ownership remains held"
          else if negb (is_recovery_preparer adapter) then
            held capacityRecoveryUnsupported "source does not provide authoritative capacity-recovery proof; ownership remains held"
          else
            let key := capacitySettlementKey run in
            proof ← io (PrepareCapacityRecovery (adapter_id adapter) item (UID run) key);
            match proof with
            | Err e => settlement_failed e
            | Ok proof =>
                if String.eqb (prf_FenceToken proof) "" || String.eqb (prf_WorkIdentity proof) "" ||
                   String.eqb (prf_SafetyProof proof) "" then
                  held capacityRecoveryUnsafeWork "source returned incomplete authoritative safety proof; ownership remains held"
                else settle_capacity adapter item key proof
            end
      end
  end.

End Capacity.
