(* ===== verification/Terminal.v ===== *)
(** * Terminal transitions (internal/controller/coderun_controller.go,
      alreadydone.go)

    Ending a run writes its terminal phase with the intent of its source report
    first, and only then reports to the source; the outcome of the report is
    recorded on conditions and never moves the phase.  An already-done
    conclusion settles through the source's evidence-gated close instead: the
    source's answer either closes the work item or parks the run for a human.

    The two are mutually recursive in the source ([transitionTerminal] ->
    [publishTerminalLifecycle] -> [settleAlreadyDoneClose] ->
    [parkAlreadyDoneClose] -> [transitionTerminal]); the park always enters
    NeedsHuman, so the recursion is tied at its second level, where the settle
    branch is definitionally unreachable ([park_transitions]). *)

From S2P Require Import Prelude Effects GoStrings GoTime Run StatusPatch Lane Kube Reap Retry World Pods Report Capacity.
Local Open Scope string_scope.
Local Open Scope Z_scope.

(** ** Constants *)

Definition sourceCloseCondition : string := "SourceClose".
Definition sourceCloseClosedReason : string := "Closed".
Definition sourceCloseRefusedReason : string := "Refused".
Definition sourceCloseFailedReason : string := "Failed".
Definition sourceCloseSkippedReason : string := "Skipped".
Definition sourceCloseUnsupportedReason : string := "Unsupported".
Definition sourceCloseRefusedPermanentlyReason : string := "RefusedPermanently".
Definition sourceCloseCommentedCondition : string := "SourceCloseCommented".
Definition sourceCloseCommentNotConfiguredReason : string := "CommentIdentityNotConfigured".
Definition sourceCloseCommentDeliveryReason : string := "DeliveryFailed".
Definition alreadyDoneCommentBound : Z := 2400.

Definition lifecycleOutcomePublished : string := "published".
Definition lifecycleOutcomeSuperseded : string := "superseded".
Definition lifecycleOutcomeUnsupported : string := "unsupported".
Definition lifecycleOutcomeRetryable : string := "retryable".
Definition lifecycleOutcomePermanentRefusal : string := "permanent-refusal".

(** ** Close resolutions *)

Definition no_resolution : CloseResolution :=
  {| cr_Action := ""; cr_Reason := ""; cr_Reasons := []; cr_HeadSHA := ""; cr_EvidenceDigest := "" |}.

Definition sourceCloseReasonForAction (action : string) : string :=
  if String.eqb action CloseActionRefused then sourceCloseRefusedReason else
  if String.eqb action CloseActionFailed then sourceCloseFailedReason else
  if String.eqb action CloseActionSkipped then sourceCloseSkippedReason
  else sourceCloseFailedReason.

Definition closeResolutionDetail (resolution : CloseResolution) : string :=
  match cr_Reasons resolution with
  | _ :: _ => Join (cr_Reasons resolution) "; "
  | [] => if negb (String.eqb (TrimSpace (cr_Reason resolution)) "") then cr_Reason resolution else cr_Action resolution
  end.

Definition closeResolutionFromDetail (detail : string) : CloseResolution :=
  {| cr_Action := ""; cr_Reason := detail; cr_Reasons := []; cr_HeadSHA := ""; cr_EvidenceDigest := "" |}.

Definition closeResolutionIsZero (resolution : CloseResolution) : bool :=
  String.eqb (cr_Action resolution) "" && String.eqb (cr_Reason resolution) "" &&
  match cr_Reasons resolution with [] => true | _ => false end &&
  String.eqb (cr_HeadSHA resolution) "" && String.eqb (cr_EvidenceDigest resolution) "".

Definition alreadyDoneCloseParkMessage (reason detail : string) : string :=
  let detail := TrimSpace detail in
  if String.eqb detail "" then "evidence-gated close was not applied (" ++ reason ++ "); human review required"
  else "evidence-gated close was not applied (" ++ reason ++ "): " ++ detail.

(** Trim, then cut to the bound on a rune boundary. *)
Definition boundedAlreadyDoneText (s : string) : string :=
  let s := TrimSpace s in
  if RuneCountInString s <=? alreadyDoneCommentBound then s
  else rune_prefix (Z.to_nat alreadyDoneCommentBound) 0 s.

Fixpoint all_hex_digits (s : string) : bool :=
  match s with
  | "" => true
  | String c s' =>
      (is_digit c || in_range 97 102 c || in_range 65 70 c) && all_hex_digits s'
  end.

Definition isRevisionText (s : string) : bool := all_hex_digits s && negb (String.eqb s "").

Definition toSourceCloseCriteria (criteria : list NoChangeCloseCriterion) : list CloseCriterion :=
  map (fun c => {| cl_Criterion := ncc_Criterion c; cl_Path := ncc_Path c; cl_Excerpt := ncc_Excerpt c |}) criteria.

Definition alreadyDoneLifecycle (run : CoderRun) (intent : terminalLifecycleIntent) : Lifecycle :=
  {| lc_State := ""; lc_Result := ResultAlreadyDone; lc_PR := ""; lc_Error := in_error intent;
     lc_BlockedReportParksPRFix := false; lc_IdempotencyKey := lifecycleIdempotencyKey run PhaseAlreadyDone;
     lc_Telemetry := None; lc_StartedAt := StartedAt (Status run);
     lc_Close := (fun nc => {| cp_Criteria := toSourceCloseCriteria (nc_Criteria nc); cp_Evidence := nc_Evidence nc |})
                 <$> NoChange (Status run) |}.

(** A proposal fenced to the pod that ended upgrades the conclusion. *)
Definition resolveIssueNoChangePhase (run : CoderRun) (podUID : string) : string * bool :=
  match NoChange (Status run) with
  | Some nc => if String.eqb (nc_CoordinatorPodUID nc) podUID then (PhaseAlreadyDone, true) else (PhaseNeedsHuman, false)
  | None => (PhaseNeedsHuman, false)
  end.

Definition controllerHeadRef (run : CoderRun) : HeadRef :=
  {| hr_Repo := HeadRepo (Status run); hr_Branch := st_Branch (Status run); hr_SHA := HeadSHA (Status run); hr_BaseRef := "" |}.

Section Terminal.
Context {CO : ConditionOps} {CD : Codec}.
Variable r : Reconciler.

(** ** The announcement *)

Definition revision_block (run : CoderRun) (sha : string) (resolution : CloseResolution) : string :=
  let revision := if String.eqb (sp_Repo (Spec run)) "" then sha else sp_Repo (Spec run) ++ "@" ++ sha in
  let revision := match r_WorkItemLinks r with
                  | Some links => let link := CommitLink links (sp_Repo (Spec run)) sha in
                                  if String.eqb link "" then revision else "[" ++ revision ++ "](" ++ link ++ ")"
                  | None => revision
                  end in
  let digest := TrimSpace (cr_EvidenceDigest resolution) in
  " Verified at " ++ revision ++ "." ++
  (if String.eqb digest "" then "" else " Evidence catalog: " ++ Redact digest ++ ".").

Definition criterion_text (run : CoderRun) (sha : string) (c : NoChangeCloseCriterion) : string :=
  let path := Redact (ncc_Path c) in
  let path := match r_WorkItemLinks r with
              | Some links =>
                  if negb (String.eqb sha "") && String.eqb path (ncc_Path c) then
                    let link := FileLink links (sp_Repo (Spec run)) path sha in
                    if String.eqb link "" then path else "[" ++ path ++ "](" ++ link ++ ")"
                  else path
              | None => path
              end in
  Redact (ncc_Criterion c) ++ " (in " ++ path ++ ")".

Definition alreadyDoneCommentBody (run : CoderRun) (closed : bool) (reason : string) (resolution : CloseResolution) : string :=
  let detail := Redact (closeResolutionDetail resolution) in
  let opening := if closed then "Courier closed this work item: its request is already satisfied by existing work."
                 else "Courier could not close this work item automatically (" ++ ToLower reason ++ ")" ++
                      (if String.eqb detail "" then "" else ": " ++ detail) ++ "; a human has been asked to review." in
  let sha := TrimSpace (cr_HeadSHA resolution) in
  let sha := if isRevisionText sha then sha else "" in
  let verified := if String.eqb sha "" then "" else revision_block run sha resolution in
  let grounds := match NoChange (Status run) with
                 | None => ""
                 | Some nc =>
                     (match nc_Criteria nc with
                      | [] => ""
                      | cs => " Grounded criteria: " ++ Join (map (criterion_text run sha) cs) ", "
                      end) ++
                     (if String.eqb (nc_Evidence nc) "" then ""
                      else " Coordinator assessment: " ++ Redact (nc_Evidence nc) ++ ".")
                 end in
  boundedAlreadyDoneText (opening ++ verified ++ grounds).

Definition alreadyDoneCommented (st : CoderRunStatus) : bool :=
  match condition st sourceCloseCommentedCondition with Some c => String.eqb (c_Status c) ConditionTrue | None => false end.

Definition markAlreadyDoneCommented : M unit :=
  stamp_condition sourceCloseCommentedCondition ConditionTrue "Posted"
    "the run's outcome was announced on the source work item".

Definition recordAnnouncementNotDelivered (reason detail : string) : M unit :=
  stamp_condition sourceCloseCommentedCondition ConditionFalse reason (boundedAlreadyDoneText (Redact detail)).

Definition setSourceClose (closed : bool) (reason : string) (resolution : CloseResolution) : M unit :=
  let message := closeResolutionDetail resolution in
  let message := if String.eqb message "" then if closed then "work item closed" else reason else message in
  stamp_condition sourceCloseCondition (bool_status closed) reason (boundedAlreadyDoneText message).

Definition commentAlreadyDone (closed : bool) (reason : string) (resolution : CloseResolution) : M unit :=
  run ← get;
  if alreadyDoneCommented (Status run) then mret tt else
  if negb (r_WorkItemComments r) then
    recordAnnouncementNotDelivered sourceCloseCommentNotConfiguredReason
      "the deployment configures no forge comment identity, so this outcome was not announced on the work item"
  else
  let body := alreadyDoneCommentBody run closed reason resolution in
  if String.eqb body "" then mret tt else
  posted ← io (CommentWorkItem run body);
  match posted with
  | Err m => recordAnnouncementNotDelivered sourceCloseCommentDeliveryReason ("announcement delivery failed: " ++ m)
  | Ok _ => before ← snapshot; _ ← markAlreadyDoneCommented; _ ← patch before; mret tt
  end.

Definition commentAlreadyDoneHold : M unit :=
  run ← get;
  if alreadyDoneCommented (Status run) then mret tt else
  if negb (r_WorkItemComments r) then
    before ← snapshot;
    _ ← recordAnnouncementNotDelivered sourceCloseCommentNotConfiguredReason
          "the deployment configures no forge comment identity, so this hold was not announced on the work item";
    _ ← patch before; mret tt
  else
  let deficiency := match NoChange (Status run) with
                    | None => "recorded no grounded close evidence"
                    | Some _ => "its recorded close proposal belongs to a superseded execution and cannot authorize this ending"
                    end in
  let body := "Courier will not open a pull request for this issue and did not attempt to close it: the run concluded the request was already satisfied but "
              ++ deficiency ++ ", so the conclusion is held for a human. No publication is claimed." in
  before ← snapshot;
  posted ← io (CommentWorkItem run body);
  _ ← (match posted with
       | Err m => recordAnnouncementNotDelivered sourceCloseCommentDeliveryReason ("announcement delivery failed: " ++ m)
       | Ok _ => markAlreadyDoneCommented
       end);
  _ ← patch before; mret tt.

(** The uncached proposal, when it is fenced to the pod that ended. *)
Definition refreshFencedNoChange (podUID : string) : M bool :=
  run ← get;
  live ← io (GetRunLive (Namespace run) (run_Name run));
  match live with
  | Err _ => mret false
  | Ok live =>
      match NoChange (Status live) with
      | Some nc => if String.eqb (nc_CoordinatorPodUID nc) podUID
                   then _ ← assign (fun st => set_NoChange st (Some nc)); mret true
                   else mret false
      | None => mret false
      end
  end.

(** ** The report and its outcome *)

Definition emitPhaseTransition (phase : string) (detail : list (string * detail_value)) : M unit :=
  run ← get; if r_Events r then io (EmitPhase run phase detail) else mret tt.

Definition setLifecycleReport (published : bool) (reason message : string) : M unit :=
  stamp_condition lifecycleReportedCondition (bool_status published) reason message.

Definition setLifecycleReportCapability (status reason message : string) : M unit :=
  stamp_condition lifecycleReportSupportedCondition status reason message.

(** The metric label of an attempt's outcome. *)
Definition report_outcome_label (reason supportReason : string) : option string :=
  if String.eqb supportReason lifecycleReportUnsupportedOutcomeReason then Some lifecycleOutcomeUnsupported else
  if String.eqb supportReason lifecycleReportRetryableReason then Some lifecycleOutcomeRetryable else
  if String.eqb reason lifecycleReportPublishedReason then Some lifecycleOutcomePublished else
  if String.eqb reason lifecycleReportSupersededReason then Some lifecycleOutcomeSuperseded else
  if String.eqb reason lifecycleReportPermanentRefusalReason then Some lifecycleOutcomePermanentRefusal else None.

Definition recordLifecycleReportOutcome (reason supportReason : string) : M unit :=
  match report_outcome_label reason supportReason with
  | Some label => kube (Observe "lifecycle_report" label)
  | None => mret tt
  end.

Definition capability_of (supportReason : string) : M unit :=
  if String.eqb supportReason lifecycleReportUnsupportedOutcomeReason then
    setLifecycleReportCapability ConditionFalse lifecycleReportUnsupportedOutcomeReason
      "source rejected this lifecycle outcome as unsupported" else
  if String.eqb supportReason lifecycleReportAcceptedSupportReason then
    setLifecycleReportCapability ConditionTrue lifecycleReportAcceptedSupportReason "source accepted this lifecycle outcome" else
  if String.eqb supportReason lifecycleReportSupersededReason then
    setLifecycleReportCapability ConditionUnknown lifecycleReportSupersededReason
      "source lifecycle report was superseded before acceptance could be determined" else
  if String.eqb supportReason lifecycleReportPermanentRefusalReason then
    setLifecycleReportCapability ConditionUnknown lifecycleReportPermanentRefusalReason
      "source permanently refused this lifecycle report; retrying the same report cannot succeed" else
  if String.eqb supportReason lifecycleReportRetryableReason then
    setLifecycleReportCapability ConditionUnknown lifecycleReportRetryableReason
      "source report failed transiently; automatic retry remains enabled"
  else mret tt.

(** The retry token moves to active on a transient failure and is spent on
    every other outcome. *)
Definition spend_token (retryToken supportReason : string) (st : CoderRunStatus) : CoderRunStatus :=
  let fresh := negb (String.eqb retryToken "") in
  if String.eqb supportReason lifecycleReportRetryableReason
  then if fresh then set_LifecycleReportActiveRetryToken st retryToken else st
  else set_LifecycleReportActiveRetryToken (if fresh then set_LifecycleReportRetryToken st retryToken else st) "".

Definition markLifecycleReportOutcome (published : bool) (reason message retryToken supportReason : string) : M error :=
  before ← snapshot;
  _ ← (if negb (String.eqb reason lifecycleReportUnsupportedOutcomeReason)
       then setLifecycleReport published reason message else mret tt);
  _ ← capability_of supportReason;
  _ ← assign (spend_token retryToken supportReason);
  e ← patch before;
  _ ← (if failed e then mret tt else recordLifecycleReportOutcome reason supportReason);
  mret e.

Definition reportLifecycle (adapter : Adapter) (item : WorkItem) (lc : Lifecycle) : M (result source_error unit) :=
  if is_reporter adapter then io (Report (adapter_id adapter) item lc) else mret (Ok tt).

Definition publishSourceLifecycle (adapter : Adapter) (item : WorkItem) (phase : string) (intent : terminalLifecycleIntent) :
    M (result source_error unit) :=
  run ← get;
  let st := Status run in
  let mode := sp_Mode (Spec run) in
  let legacyNoChange := String.eqb phase PhaseAwaitingReview && DeclaredNoChange st && String.eqb mode Mode_FixPR in
  let state := if legacyNoChange then StateInProgress else stateForTerminalPhase phase mode intent in
  let lc := lifecycleForPhase phase mode state (PR st) (StartedAt st) intent in
  let key := lifecycleIdempotencyKey run phase in
  if isCapacityExhaustionRun st then
    reportLifecycle adapter item (set_key (set_result lc ResultCapacityExhausted (lc_Error lc)) key None)
  else
  moved ← (if String.eqb state "" then mret (Ok tt) else io (Transition (adapter_id adapter) item state));
  match moved with
  | Err e => mret (Err e)
  | Ok _ =>
      let lc := if legacyNoChange
                then set_result lc ResultBlockedExternal "no changes pushed; queued feedback resolution is not verified" else lc in
      reportLifecycle adapter item (set_key lc key (Telemetry st ≫= MarshalTelemetry))
  end.

Definition wraps_sentinel (e : source_error) (s : sentinel) : bool := bool_decide (s ∈ wraps e).

Definition outcome : Type := (ctrl_result * error)%type.

(** ** The recursion, open at the already-done settlement *)

Section Open.
Variable settle : Adapter -> WorkItem -> terminalLifecycleIntent -> M outcome.

Definition publish_with (adapter : Adapter) (item : WorkItem) (phase : string) (intent : terminalLifecycleIntent) : M outcome :=
  if String.eqb phase PhaseAlreadyDone then settle adapter item intent else
  answer ← publishSourceLifecycle adapter item phase intent;
  run ← get;
  let retryToken := attempt_token run in
  match answer with
  | Ok _ =>
      e ← markLifecycleReportOutcome true lifecycleReportPublishedReason "" retryToken lifecycleReportAcceptedSupportReason;
      if failed e then mret (res0, e) else
      run ← get;
      if isCapacityExhaustionRun (Status run) then recoverCapacityExhaustion r adapter item else mret (res0, [])
  | Err e =>
      if wraps_sentinel e ErrSuperseded then
        w ← markLifecycleReportOutcome true lifecycleReportSupersededReason (se_Text e) "" lifecycleReportSupersededReason;
        mret (res0, w)
      else if wraps_sentinel e ErrUnsupportedOutcome then
        w ← markLifecycleReportOutcome false (pendingLifecycleReason intent) (in_error intent) retryToken
              lifecycleReportUnsupportedOutcomeReason;
        mret (res0, w)
      else if wraps_sentinel e ErrPermanentRefusal then
        w ← markLifecycleReportOutcome true lifecycleReportPermanentRefusalReason (se_Text e) ""
              lifecycleReportPermanentRefusalReason;
        mret (res0, w)
      else
        w ← markLifecycleReportOutcome false (pendingLifecycleReason intent) (in_error intent) retryToken
              lifecycleReportRetryableReason;
        mret (after lifecycleReportRequeueDelay, w)
  end.

Definition enrichTerminalPR : M string :=
  run ← get;
  let pr := PR (Status run) in
  if negb (r_Observer r) || String.eqb (st_Branch (Status run)) "" then mret pr else
  o ← io (ObservePR (sp_Repo (Spec run)) (controllerHeadRef run));
  mret (match o with
        | Err _ => pr
        | Ok o => if String.eqb (ob_PR o) "" then pr else ob_PR o
        end).

(** The fields whose change makes the terminal write happen. *)
Definition terminal_changed (before st : CoderRunStatus) : bool :=
  negb (String.eqb (Phase st) (Phase before) && String.eqb (PR st) (PR before) &&
        bool_decide (Telemetry st = Telemetry before) &&
        bool_decide (st_TerminalDiagnostic st = st_TerminalDiagnostic before) &&
        bool_decide (st_ControlRequest st = st_ControlRequest before) &&
        bool_decide (st_ControlRequestAck st = st_ControlRequestAck before) &&
        bool_decide (WorkspaceSafety st = WorkspaceSafety before) &&
        bool_decide (Conditions st = Conditions before) &&
        bool_decide (CIRepair st = CIRepair before) &&
        bool_decide (st_CISettlement st = st_CISettlement before)).

(** The assignments of every terminal transition. *)
Definition enter_terminal (run : CoderRun) (phase pr : string) (telemetry : option RunTelemetry) (st : CoderRunStatus) :
    CoderRunStatus :=
  let st := set_st_ControlRequestAck (set_st_ControlRequest st None) None in
  let st := set_Phase (abandonCIRepairAttempt run st) phase in
  let st := if String.eqb pr "" then st else set_PR st pr in
  match telemetry with Some t => set_Telemetry st (Some t) | None => st end.

(** [FinishedAt] is set once, with the run's duration. *)
Definition finish_run (now : Time) (st : CoderRunStatus) : CoderRunStatus :=
  match FinishedAt st with
  | Some _ => st
  | None =>
      let st := set_FinishedAt st (Some now) in
      match StartedAt st with
      | Some started => if String.eqb (RunDuration st) "" then set_RunDuration st (durationString (Sub now started)) else st
      | None => st
      end
  end.

Definition note_diagnostic (d : option TerminalDiagnostic) (st : CoderRunStatus) : CoderRunStatus :=
  match d, st_TerminalDiagnostic st with
  | Some d, None => set_st_TerminalDiagnostic st (Some d)
  | _, _ => st
  end.

(** The further assignments of a transition that changes the phase. *)
Definition first_entry (intent : terminalLifecycleIntent) : M unit :=
  run ← get;
  _ ← (match FinishedAt (Status run) with
       | None => now ← clock; assign (finish_run now)
       | Some _ => mret tt
       end);
  _ ← assign (note_diagnostic (in_diagnostic intent));
  _ ← assign (fun st => foldl (fun st c => with_condition c st) st (in_conditions intent));
  setLifecycleReport false (pendingLifecycleReason intent) (in_error intent).

Definition transition_with (phase pr : string) (intent : terminalLifecycleIntent) (telemetry : option RunTelemetry) : M outcome :=
  pr ← (if member phase [PhaseNeedsHuman; PhaseFailed; PhaseBlockedExternal] && String.eqb pr "" then enrichTerminalPR else mret pr);
  run ← get;
  match adapterAndWorkItem (r_Sources r) run with
  | Err e => mret (res0, [ERegistry e])
  | Ok (adapter, item) =>
      let phaseChanged := negb (String.eqb (Phase (Status run)) phase) in
      let firstTerminal := match FinishedAt (Status run) with None => true | Some _ => false end in
      before ← snapshot;
      _ ← assign (enter_terminal run phase pr telemetry);
      _ ← (if phaseChanged then first_entry intent else mret tt);
      now ← get;
      e ← (if terminal_changed (Status before) (Status now) then patch before else mret []);
      if failed e then mret (res0, e) else
      now ← get;
      _ ← (if phaseChanged then
             emitPhaseTransition phase [("branch", DString (st_Branch (Status now))); ("pr", DString (PR (Status now)))]
           else mret tt);
      if negb phaseChanged then mret (res0, []) else
      _ ← (if firstTerminal then _ ← kube (Observe "terminal" phase); kube (Observe "terminal_diagnostic" phase) else mret tt);
      publish_with adapter item phase intent
  end.

End Open.

(** ** The settlement of an already-done conclusion *)

Definition unreachable_settlement (adapter : Adapter) (item : WorkItem) (intent : terminalLifecycleIntent) : M outcome :=
  mret (res0, []).

Definition parkAlreadyDoneClose (reason detail : string) (resolution : CloseResolution) : M outcome :=
  let resolution := if closeResolutionIsZero resolution then closeResolutionFromDetail detail else resolution in
  _ ← setSourceClose false reason resolution;
  _ ← commentAlreadyDone false reason resolution;
  transition_with unreachable_settlement PhaseNeedsHuman "" (intent_error (alreadyDoneCloseParkMessage reason detail)) None.

Definition markAlreadyDoneClosePending (intent : terminalLifecycleIntent) : M error :=
  run ← get;
  markLifecycleReportOutcome false (pendingLifecycleReason intent) (in_error intent) (attempt_token run)
    lifecycleReportRetryableReason.

Definition settleAlreadyDoneClose (adapter : Adapter) (item : WorkItem) (intent : terminalLifecycleIntent) : M outcome :=
  run ← get;
  match NoChange (Status run) with
  | None => parkAlreadyDoneClose sourceCloseUnsupportedReason "no grounded close proposal is recorded on the run" no_resolution
  | Some _ =>
      if negb (is_close_reporter adapter) then
        parkAlreadyDoneClose sourceCloseUnsupportedReason "source does not offer an evidence-gated close path" no_resolution
      else
      answer ← io (ReportClose (adapter_id adapter) item (alreadyDoneLifecycle run intent));
      match answer with
      | Ok resolution =>
          if String.eqb (cr_Action resolution) CloseActionClosed then
            _ ← setSourceClose true sourceCloseClosedReason resolution;
            _ ← commentAlreadyDone true sourceCloseClosedReason resolution;
            w ← markLifecycleReportOutcome true lifecycleReportPublishedReason "" "" lifecycleReportAcceptedSupportReason;
            mret (res0, w)
          else parkAlreadyDoneClose (sourceCloseReasonForAction (cr_Action resolution)) (closeResolutionDetail resolution) resolution
      | Err e =>
          if wraps_sentinel e ErrSuperseded then
            w ← markLifecycleReportOutcome true lifecycleReportSupersededReason (se_Text e) "" lifecycleReportSupersededReason;
            mret (res0, w)
          else if wraps_sentinel e ErrUnsupportedOutcome then
            parkAlreadyDoneClose sourceCloseUnsupportedReason (se_Text e) no_resolution
          else if wraps_sentinel e ErrPermanentRefusal then
            parkAlreadyDoneClose sourceCloseRefusedPermanentlyReason (se_Text e) no_resolution
          else w ← markAlreadyDoneClosePending intent; mret (after lifecycleReportRequeueDelay, w)
      end
  end.

Definition publishTerminalLifecycle : Adapter -> WorkItem -> string -> terminalLifecycleIntent -> M outcome :=
  publish_with settleAlreadyDoneClose.

Definition transitionTerminal : string -> string -> terminalLifecycleIntent -> option RunTelemetry -> M outcome :=
  transition_with settleAlreadyDoneClose.

(** The second level is [transitionTerminal] itself: NeedsHuman never settles. *)
Lemma park_transitions pr intent telemetry :
  transition_with unreachable_settlement PhaseNeedsHuman pr intent telemetry =
  transitionTerminal PhaseNeedsHuman pr intent telemetry.
Proof. reflexivity. Qed.

Definition retryTerminalLifecycle : M outcome :=
  run ← get;
  match adapterAndWorkItem (r_Sources r) run with
  | Err e => mret (res0, [ERegistry e])
  | Ok (adapter, item) => publishTerminalLifecycle adapter item (Phase (Status run)) (pendingLifecycleIntent (Status run))
  end.

End Terminal.

(** ** What a retry reports *)

Section PendingIntent.
Context {CO : ConditionOps}.

(** The intent of a report that did not get through is recovered from the
    condition that recorded it: the retry reports the same state, result, error
    and queue mark, for every phase and mode, as the attempt would have. *)
Theorem pending_intent_roundtrip intent run t run' :
  ciFailure intent && skipPRFixQueueMark intent = false ->
  exec (setLifecycleReport false (pendingLifecycleReason intent) (in_error intent) run) t (run', tt) ->
  forall phase mode pr started,
    lifecycleForPhase phase mode (stateForTerminalPhase phase mode (pendingLifecycleIntent (Status run'))) pr started
      (pendingLifecycleIntent (Status run')) =
    lifecycleForPhase phase mode (stateForTerminalPhase phase mode intent) pr started intent.
Proof.
  intros Hone Hex phase mode pr started. unfold setLifecycleReport, stamp_condition in Hex.
  cbn in Hex. destruct Hex as (now & t' & -> & -> & [= ->]).
  set (c := mk_condition lifecycleReportedCondition ConditionFalse (pendingLifecycleReason intent) (in_error intent) now).
  destruct (find_set_same (Conditions (Status run)) c) as (c' & Hf & Hs & Hr & Hm).
  assert (Hp : pendingLifecycleIntent (Status (set_Status run (with_condition c (Status run)))) =
    {| skipPRFixQueueMark := skipPRFixQueueMark intent; ciFailure := ciFailure intent; in_error := in_error intent;
       in_diagnostic := None; in_conditions := [] |}).
  { unfold pendingLifecycleIntent, condition. cbn [Status set_Status with_condition Conditions set_Conditions].
    change lifecycleReportedCondition with (c_Type c). rewrite Hf, Hs. cbn [c c_Status mk_condition String.eqb].
    rewrite Hr, Hm. cbn [c c_Reason c_Message mk_condition]. unfold pendingLifecycleReason.
    destruct (ciFailure intent), (skipPRFixQueueMark intent); try done; by destruct (String.eqb (in_error intent) ""). }
  rewrite Hp. reflexivity.
Qed.
End PendingIntent.

(** A blocked hold whose report is still owed. *)
Lemma pending_intent_roundtrip_witness :
  let intent := {| skipPRFixQueueMark := true; ciFailure := false; in_error := "needs a decision"; in_diagnostic := None;
                   in_conditions := [] |} in
  let run' := set_Status example_run (with_condition (CO := keyed_conditions) (mk_condition lifecycleReportedCondition ConditionFalse
    (pendingLifecycleReason intent) (in_error intent) 0) empty_status) in
  lc_Error (lifecycleForPhase PhaseNeedsHuman Mode_FixPR "" "" None intent) = "needs a decision" /\
  lifecycleForPhase PhaseNeedsHuman Mode_FixPR
      (stateForTerminalPhase PhaseNeedsHuman Mode_FixPR (pendingLifecycleIntent (CO := keyed_conditions) (Status run'))) "" None
      (pendingLifecycleIntent (CO := keyed_conditions) (Status run')) =
    lifecycleForPhase PhaseNeedsHuman Mode_FixPR (stateForTerminalPhase PhaseNeedsHuman Mode_FixPR intent) "" None intent.
Proof.
  intros intent run'. split; [reflexivity|].
  apply (pending_intent_roundtrip (CO := keyed_conditions) intent example_run [Ev (Kube Now) 0] run'); [reflexivity|].
  exists 0, []. split; [reflexivity|]. split; reflexivity.
Defined.
