(* ===== verification/Checks.v ===== *)
(** * Check observations and the park trigger (internal/controller/mechanical.go,
      observer.go, and the pure parts of cipark.go)

    What one observation of a pull request says: its overall state, the
    identity of its check set, the strict separation that decides whether a
    parked run may wake for a repair, and the bounded evidence a repair
    carries. *)

From S2P Require Import Prelude Effects GoStrings GoTime Sha256 Run Lane Kube World Pods Report.
Local Open Scope string_scope.
Local Open Scope Z_scope.

(** ** Observations (observer.go) *)

Inductive observationState := observationNeedsHuman | observationPending | observationPassed | observationFailed | observationMerged.

Definition in_state (state : string) (c : CheckObservation) : bool := String.eqb (chk_State c) state.

Definition observeState (o : PRObservation) : observationState :=
  if ob_Merged o then observationMerged else
  if String.eqb (ob_PR o) "" || ob_Draft o then observationNeedsHuman else
  match ob_Checks o with
  | [] => observationPending
  | _ => if existsb (in_state CheckStatePending) (ob_Checks o) then observationPending else
         if existsb (fun c => negb (in_state CheckStatePassed c)) (ob_Checks o) then observationFailed
         else observationPassed
  end.

Definition checkSetFingerprint (o : PRObservation) : string :=
  match ob_Checks o with
  | [] => ""
  | cs => sha256_hex (ob_Head o ++ str1 0 ++ Join (sort_strings (map chk_Name cs)) (str1 0))
  end.

(** ** The trigger (mechanical.go) *)

Inductive CIParkTrigger := CIParkHold | CIParkResumeRepair | CIParkFinish.

(** A nil selector accepts nothing. *)
Definition MechanicalCheckSelector : Type := option (string -> bool).
Definition selects (selector : MechanicalCheckSelector) (name : string) : bool :=
  match selector with Some f => f name | None => false end.

(** The flags the source's single pass collects. *)
Record check_flags := { hasUnknown : bool; hasMechanicalPending : bool; hasFailed : bool }.

Definition flag_check (selector : MechanicalCheckSelector) (fl : check_flags) (c : CheckObservation) : check_flags :=
  if in_state CheckStatePassed c then fl else
  if in_state CheckStateFailed c then
    {| hasUnknown := hasUnknown fl; hasMechanicalPending := hasMechanicalPending fl; hasFailed := true |} else
  if in_state CheckStatePending c then
    if selects selector (chk_Name c)
    then {| hasUnknown := hasUnknown fl; hasMechanicalPending := true; hasFailed := hasFailed fl |} else fl
  else {| hasUnknown := true; hasMechanicalPending := hasMechanicalPending fl; hasFailed := hasFailed fl |}.

Definition no_flags : check_flags := {| hasUnknown := false; hasMechanicalPending := false; hasFailed := false |}.

Definition ClassifyCIParkTrigger (o : PRObservation) (parkedHead : string) (selector : MechanicalCheckSelector)
    (repairsRemaining : Z) : CIParkTrigger :=
  if ob_Merged o then CIParkFinish else
  if String.eqb (ob_PR o) "" || ob_Draft o then CIParkFinish else
  if String.eqb parkedHead "" then CIParkFinish else
  if negb (String.eqb (ob_Head o) parkedHead) then CIParkFinish else
  match ob_Checks o with
  | [] => CIParkHold
  | checks =>
      let fl := fold_left (flag_check selector) checks no_flags in
      if hasUnknown fl then CIParkFinish else
      if hasMechanicalPending fl then CIParkHold else
      if negb (hasFailed fl) then CIParkFinish else
      if existsb (fun c => in_state CheckStateFailed c && negb (selects selector (chk_Name c))) checks then CIParkFinish else
      if repairsRemaining <=? 0 then CIParkFinish else CIParkResumeRepair
  end.

(** ** The lane's mechanical checks (cipark.go) *)

Definition ciparkMaxFailedChecks : Z := 20.
Definition ciparkMaxCheckLogBytes : Z := 2 * 1024.
Definition ciparkMaxRepairLogBytes : Z := 8 * 1024.
Definition ciparkTruncatedLog : string := "[truncated]".

Fixpoint normalize_names (seen : gset string) (names : list string) : list string :=
  match names with
  | [] => []
  | name :: rest =>
      if String.eqb name "" || bool_decide (name ∈ seen) then normalize_names seen rest
      else name :: normalize_names ({[ name ]} ∪ seen) rest
  end.

Definition normalizedMechanicalChecks (names : list string) : list string := normalize_names ∅ names.

Definition mechanicalSelector (names : list string) : MechanicalCheckSelector :=
  Some (fun name => member name (normalizedMechanicalChecks names)).

(** The policy applies only when it can repair something. *)
Definition effective_policy (lane : LaneProfile) : option CIRepairPolicy :=
  match lp_CIRepair (lp_Spec lane) with
  | None => None
  | Some policy =>
      if (length (normalizedMechanicalChecks (MechanicalChecks policy)) =? 0)%nat || (crp_MaxAttempts policy <=? 0)
      then None else Some policy
  end.

(** The observed head when it is the run's own published head. *)
Definition publishedHead (st : CoderRunStatus) (observed : string) : option string :=
  if String.eqb observed "" then None else
  if negb (String.eqb (LastCommit st) "") then
    if String.eqb (LastCommit st) observed then Some observed else None
  else match st_Checkpoint st with
       | Some cp => if existsb (fun b => String.eqb (br_Commit b) observed) (rev (CompletedBriefs cp)) then Some observed else None
       | None => None
       end.

(** A failed check the lane configures as mechanical. *)
Definition failed_mechanical (selector : MechanicalCheckSelector) (c : CheckObservation) : bool :=
  in_state CheckStateFailed c && selects selector (chk_Name c).

Definition failedMechanicalChecks (o : PRObservation) (selector : MechanicalCheckSelector) : list string :=
  take (Z.to_nat ciparkMaxFailedChecks)
    (sort_strings (map chk_Name (List.filter (failed_mechanical selector) (ob_Checks o)))).

(** [utf8.RuneStart]: not a continuation byte. *)
Definition RuneStart (c : ascii) : bool := negb (Z.land (byte_of c) 0xC0 =? 0x80).

(** [cut]: the index moves back while it is inside a rune. *)
Fixpoint rune_cut (cut : nat) (text : string) : nat :=
  match cut with
  | O => O
  | S k => match String.get cut text with
           | Some c => if RuneStart c then cut else rune_cut k text
           | None => cut
           end
  end.

Definition ciparkCutLog (text : string) (limit : Z) : string :=
  if limit <=? slen ciparkTruncatedLog then ciparkTruncatedLog else
  stake (rune_cut (Z.to_nat (limit - slen ciparkTruncatedLog)) text) text ++ ciparkTruncatedLog.

Definition log_block (name output : string) : string :=
  let block := "--- " ++ name ++ " ---" ++ nl ++ output ++ nl in
  if ciparkMaxCheckLogBytes <? slen block then ciparkCutLog block ciparkMaxCheckLogBytes else block.

(** The loop of [failedCheckLogs] over the selected checks. *)
Fixpoint check_logs (logs : string) (checks : list CheckObservation) : string :=
  match checks with
  | [] => logs
  | c :: rest =>
      let output := TrimSpace (chk_Output c) in
      if String.eqb output "" then check_logs logs rest else
      let block := log_block (chk_Name c) output in
      let remaining := ciparkMaxRepairLogBytes - slen logs in
      if remaining <=? 0 then logs else
      if remaining <? slen block then
        if remaining <=? slen ciparkTruncatedLog then logs else logs ++ ciparkCutLog block remaining
      else check_logs (logs ++ block) rest
  end.

Definition failedCheckLogs (o : PRObservation) (selector : MechanicalCheckSelector) : string :=
  match selector with
  | None => ""
  | Some _ => check_logs "" (List.filter (failed_mechanical selector) (ob_Checks o))
  end.

(** The state of the first check with a name. *)
Definition state_of (checks : list CheckObservation) (name : string) : option string :=
  chk_State <$> List.find (fun c => String.eqb (chk_Name c) name) checks.

Definition anyCheckFailed (o : PRObservation) : bool := existsb (in_state CheckStateFailed) (ob_Checks o).

Definition mechanicalVerdict (o : PRObservation) (configuredNames : list string) : bool * Z :=
  let configured := normalizedMechanicalChecks configuredNames in
  if (length configured =? 0)%nat then (false, 0) else
  let states := omap (state_of (ob_Checks o)) configured in
  let eligible := Z.of_nat (length states) in
  let passed := Z.of_nat (length (List.filter (String.eqb CheckStatePassed) states)) in
  if negb (eligible =? Z.of_nat (length configured)) || negb (passed =? eligible) then (false, eligible) else
  if anyCheckFailed o then (false, eligible) else (true, eligible).

Definition ciparkFingerprints (o : PRObservation) (configuredNames : list string) : string * string :=
  let '(mechanicallyGreen, _) := mechanicalVerdict o configuredNames in
  if anyCheckFailed o then (checkSetFingerprint o, "") else
  if mechanicallyGreen then ("", checkSetFingerprint o) else ("", "").

(** The park record for the published head: the record, whether this
    observation establishes it, whether an attempt republished, and whether
    the attempt in flight made no progress. *)
Inductive next_park :=
| Park (park : CIParkState) (established republished : bool)
| NoProgress.

Definition nextCIPark (current : option CIParkState) (head : string) (attempt : option CIRepairContext) (now : Time) : next_park :=
  match current with
  | None => Park {| park_Head := head; ParkedAt := now; park_Attempts := 0; LastOutcome := "" |} true false
  | Some p =>
      if negb (String.eqb (park_Head p) head) then
        Park {| park_Head := head; ParkedAt := now; park_Attempts := park_Attempts p; LastOutcome := CIParkOutcomeRepushed |}
             true (0 <? park_Attempts p)
      else match attempt with
           | Some a => if (0 <? park_Attempts p) && String.eqb (park_Head p) (rep_Head a) then NoProgress else Park p false false
           | None => Park p false false
           end
  end.

(** ** The trigger, characterised *)

(** A state the classification does not know. *)
Definition unknown_state (c : CheckObservation) : bool :=
  negb (in_state CheckStatePassed c || in_state CheckStateFailed c || in_state CheckStatePending c).

Definition mechanical_pending (selector : MechanicalCheckSelector) (c : CheckObservation) : bool :=
  in_state CheckStatePending c && selects selector (chk_Name c).

Definition join_flags (a b : check_flags) : check_flags :=
  {| hasUnknown := hasUnknown a || hasUnknown b; hasMechanicalPending := hasMechanicalPending a || hasMechanicalPending b;
     hasFailed := hasFailed a || hasFailed b |}.

Definition flags_of (selector : MechanicalCheckSelector) (cs : list CheckObservation) : check_flags :=
  {| hasUnknown := existsb unknown_state cs; hasMechanicalPending := existsb (mechanical_pending selector) cs;
     hasFailed := existsb (in_state CheckStateFailed) cs |}.

Lemma states_exclusive a b c : a <> b -> in_state a c = true -> in_state b c = false.
Proof. unfold in_state. intros Hne H. apply String.eqb_eq in H. rewrite H. by apply String.eqb_neq. Qed.

Lemma flag_check_join selector fl c : flag_check selector fl c = join_flags fl (flags_of selector [c]).
Proof.
  unfold flag_check, flags_of, join_flags, unknown_state, mechanical_pending. cbn [existsb].
  destruct (in_state CheckStatePassed c) eqn:Hp.
  { rewrite (states_exclusive CheckStatePassed CheckStateFailed c), (states_exclusive CheckStatePassed CheckStatePending c) by done.
    cbn. rewrite !orb_false_r. by destruct fl. }
  destruct (in_state CheckStateFailed c) eqn:Hf.
  { rewrite (states_exclusive CheckStateFailed CheckStatePending c) by done. cbn. by rewrite !orb_false_r, orb_true_r. }
  destruct (in_state CheckStatePending c); [destruct (selects selector (chk_Name c))|]; cbn; rewrite ?orb_false_r, ?orb_true_r;
    by destruct fl.
Qed.

(** The single pass computes the three existential questions. *)
Lemma fold_flags selector cs fl : fold_left (flag_check selector) cs fl = join_flags fl (flags_of selector cs).
Proof.
  revert fl. induction cs as [|c cs IH]; intros fl; cbn [fold_left].
  - unfold join_flags, flags_of. cbn. rewrite !orb_false_r. by destruct fl.
  - rewrite IH, flag_check_join. unfold join_flags, flags_of. cbn. by rewrite !orb_false_r, !orb_assoc.
Qed.

Lemma fold_no_flags selector cs : fold_left (flag_check selector) cs no_flags = flags_of selector cs.
Proof. by rewrite fold_flags. Qed.

(** The observation is of the parked head of an open, reviewable pull request. *)
Definition parked_open (o : PRObservation) (head : string) : Prop :=
  ob_Merged o = false /\ ob_PR o <> "" /\ ob_Draft o = false /\ head <> "" /\ ob_Head o = head.

Definition classified_open (o : PRObservation) (selector : MechanicalCheckSelector) (n : Z) : CIParkTrigger :=
  match ob_Checks o with
  | [] => CIParkHold
  | cs =>
      if existsb unknown_state cs then CIParkFinish else
      if existsb (mechanical_pending selector) cs then CIParkHold else
      if negb (existsb (in_state CheckStateFailed) cs) then CIParkFinish else
      if existsb (fun c => in_state CheckStateFailed c && negb (selects selector (chk_Name c))) cs then CIParkFinish else
      if n <=? 0 then CIParkFinish else CIParkResumeRepair
  end.

Lemma classify_open o head selector n :
  parked_open o head /\ ClassifyCIParkTrigger o head selector n = classified_open o selector n \/
  ~ parked_open o head /\ ClassifyCIParkTrigger o head selector n = CIParkFinish.
Proof.
  unfold ClassifyCIParkTrigger, parked_open, classified_open.
  destruct (ob_Merged o); [right; split; [by intros []|done]|].
  destruct (String.eqb_spec (ob_PR o) ""); [right; split; [by intros (_ & [] & _)|done]|].
  destruct (ob_Draft o); [right; split; [by intros (_ & _ & [=] & _)|done]|].
  destruct (String.eqb_spec head ""); [right; split; [by intros (_ & _ & _ & [] & _)|done]|].
  destruct (String.eqb_spec (ob_Head o) head); [|right; split; [by intros (_ & _ & _ & _ & ?)|done]].
  left. split; [done|]. cbn [negb orb]. destruct (ob_Checks o) as [|c cs]; [done|]. by rewrite fold_no_flags.
Qed.

(** A parked run wakes for a repair exactly when its own open, parked head has a
    settled failure, every failed check is one the lane configures, no configured
    check is still pending, no check is in an unknown state, and a repair remains. *)
Theorem park_trigger_resume_iff o head selector n :
  ClassifyCIParkTrigger o head selector n = CIParkResumeRepair <->
  parked_open o head /\ 0 < n /\
  (exists c, In c (ob_Checks o) /\ in_state CheckStateFailed c = true) /\
  (forall c, In c (ob_Checks o) ->
     unknown_state c = false /\ mechanical_pending selector c = false /\
     (in_state CheckStateFailed c = true -> selects selector (chk_Name c) = true)).
Proof.
  assert (Hopen : classified_open o selector n = CIParkResumeRepair <-> 0 < n /\
    (exists c, In c (ob_Checks o) /\ in_state CheckStateFailed c = true) /\
    (forall c, In c (ob_Checks o) -> unknown_state c = false /\ mechanical_pending selector c = false /\
       (in_state CheckStateFailed c = true -> selects selector (chk_Name c) = true))).
  { unfold classified_open. destruct (ob_Checks o) as [|c0 cs] eqn:Hcs.
    { split; [done|]. by intros (_ & (c & [] & _) & _). }
    rewrite <- Hcs. split.
    - destruct (existsb unknown_state _) eqn:Hu; [done|]. destruct (existsb (mechanical_pending _) _) eqn:Hm; [done|].
      destruct (existsb (in_state CheckStateFailed) _) eqn:Hf; [|done]. cbn [negb].
      destruct (existsb _ (ob_Checks o)) eqn:Hs in |- *; [done|]. destruct (Z.leb_spec n 0); [done|]. intros _.
      split; [lia|]. apply existsb_exists in Hf as (c & Hin & Hc). split; [eauto|]. intros d Hd.
      split; [by apply (proj1 (existsb_false_iff _ _) Hu)|]. split; [by apply (proj1 (existsb_false_iff _ _) Hm)|]. intros Hfd.
      apply (proj1 (existsb_false_iff _ _) Hs) in Hd. rewrite Hfd in Hd. by destruct (selects selector (chk_Name d)).
    - intros (Hn & (c & Hin & Hc) & Hall).
      rewrite (proj2 (existsb_false_iff unknown_state _)) by (intros d Hd; apply (Hall d Hd)).
      rewrite (proj2 (existsb_false_iff (mechanical_pending selector) _)) by (intros d Hd; apply (Hall d Hd)).
      rewrite (proj2 (existsb_exists _ _)) by eauto. cbn [negb].
      rewrite (proj2 (existsb_false_iff _ (ob_Checks o))).
      + destruct (Z.leb_spec n 0); [lia|done].
      + intros d Hd. destruct (in_state CheckStateFailed d) eqn:Hd'; [|done]. by rewrite (proj2 (proj2 (Hall d Hd)) Hd'). }
  destruct (classify_open o head selector n) as [[Hp ->]|[Hp ->]]; [|by split; [|intros []]].
  rewrite Hopen. tauto.
Qed.

(** ** Order independence *)

Definition with_checks (o : PRObservation) (cs : list CheckObservation) : PRObservation :=
  {| ob_PR := ob_PR o; ob_Draft := ob_Draft o; ob_Head := ob_Head o; ob_Checks := cs; ob_Merged := ob_Merged o |}.

#[export] Instance existsb_proper {A} (f : A -> bool) : Proper (Permutation ==> eq) (existsb f).
Proof.
  intros l l' Hp. induction Hp as [|x l l' _ IH|x y l|l1 l2 l3 _ IH1 _ IH2]; simpl; [done|by rewrite IH| |congruence].
  by rewrite !orb_assoc, (orb_comm (f y)).
Qed.

Lemma classified_open_perm o cs selector n :
  ob_Checks o ≡ₚ cs -> classified_open (with_checks o cs) selector n = classified_open o selector n.
Proof.
  intros Hp. unfold classified_open. cbn [ob_Checks with_checks].
  destruct cs as [|c cs]; [apply Permutation_nil_r in Hp as ->; done|].
  destruct (ob_Checks o) as [|d ds]; [by apply Permutation_nil_l in Hp|]. by rewrite !Hp.
Qed.

(** The order in which the forge lists the checks changes neither the trigger nor
    the fingerprint of the check set, and the fingerprint is the same whatever
    state the checks are in. *)
Theorem park_observation_order o cs head selector n :
  (ob_Checks o ≡ₚ cs -> ClassifyCIParkTrigger (with_checks o cs) head selector n = ClassifyCIParkTrigger o head selector n) /\
  (map chk_Name (ob_Checks o) ≡ₚ map chk_Name cs -> checkSetFingerprint (with_checks o cs) = checkSetFingerprint o).
Proof.
  split; intros Hp.
  - destruct (classify_open o head selector n) as [[H1 ->]|[H1 ->]],
      (classify_open (with_checks o cs) head selector n) as [[H2 ->]|[H2 ->]]; try done.
    by apply classified_open_perm.
  - unfold checkSetFingerprint. cbn [ob_Checks ob_Head with_checks].
    destruct cs as [|c cs]; [apply Permutation_nil_r, map_eq_nil in Hp as ->; done|].
    destruct (ob_Checks o) as [|d ds]; [by apply Permutation_nil_l in Hp|]. by rewrite Hp.
Qed.

(** ** Bounded evidence *)

Lemma rune_cut_le cut text : (rune_cut cut text <= cut)%nat.
Proof. induction cut as [|k IH]; cbn [rune_cut]; [done|]. repeat case_match; lia. Qed.

Lemma cut_log_bound text limit : slen ciparkTruncatedLog < limit -> slen (ciparkCutLog text limit) <= limit.
Proof.
  intros Hl. unfold ciparkCutLog. destruct (Z.leb_spec limit (slen ciparkTruncatedLog)); [lia|].
  rewrite slen_app. assert (H1 := slen_stake (rune_cut (Z.to_nat (limit - slen ciparkTruncatedLog)) text) text).
  assert (H2 := rune_cut_le (Z.to_nat (limit - slen ciparkTruncatedLog)) text). lia.
Qed.

Lemma check_logs_bound logs cs : slen logs <= ciparkMaxRepairLogBytes -> slen (check_logs logs cs) <= ciparkMaxRepairLogBytes.
Proof.
  revert logs. induction cs as [|c cs IH]; intros logs Hl; cbn [check_logs]; [done|]. cbv zeta.
  destruct (String.eqb _ ""); [by apply IH|]. set (block := log_block _ _). clearbody block.
  destruct (Z.leb_spec (ciparkMaxRepairLogBytes - slen logs) 0); [done|].
  destruct (Z.ltb_spec (ciparkMaxRepairLogBytes - slen logs) (slen block)).
  - destruct (Z.leb_spec (ciparkMaxRepairLogBytes - slen logs) (slen ciparkTruncatedLog)); [done|].
    rewrite slen_app. assert (Hb := cut_log_bound block (ciparkMaxRepairLogBytes - slen logs)). lia.
  - apply IH. rewrite slen_app. lia.
Qed.

Lemma log_block_bound name output : slen (log_block name output) <= ciparkMaxCheckLogBytes.
Proof.
  unfold log_block. cbv zeta. destruct (Z.ltb_spec ciparkMaxCheckLogBytes (slen ("--- " ++ name ++ " ---" ++ nl ++ output ++ nl))); [|lia].
  apply cut_log_bound. reflexivity.
Qed.

(** The evidence a repair carries is bounded whatever the forge reports: at most
    twenty names, each of a failed check the selector accepts, at most 2 KiB of log
    per check and 8 KiB in all, and nothing under a nil selector. *)
Theorem repair_evidence_bounded o selector :
  (length (failedMechanicalChecks o selector) <= 20)%nat /\
  (forall name, In name (failedMechanicalChecks o selector) ->
     exists c, In c (ob_Checks o) /\ chk_Name c = name /\ in_state CheckStateFailed c = true /\ selects selector name = true) /\
  slen (failedCheckLogs o selector) <= 8192 /\
  (forall name output, slen (log_block name output) <= 2048) /\
  (selector = None -> failedCheckLogs o selector = "" /\ failedMechanicalChecks o selector = []).
Proof.
  split; [|split; [|split; [|split]]].
  - unfold failedMechanicalChecks. rewrite length_take. change (Z.to_nat ciparkMaxFailedChecks) with 20%nat. lia.
  - intros name Hin. unfold failedMechanicalChecks in Hin. apply list_elem_of_In, elem_of_take in Hin as (i & Hi & _).
    apply list_elem_of_lookup_2 in Hi. rewrite sort_strings_perm in Hi. apply list_elem_of_In, in_map_iff in Hi as (c & <- & Hc).
    apply filter_In in Hc as [Hc Hf]. apply andb_true_iff in Hf as [H1 H2]. eauto.
  - unfold failedCheckLogs. destruct selector; [|done]. by apply check_logs_bound.
  - intros. apply log_block_bound.
  - intros ->. split; [done|]. unfold failedMechanicalChecks.
    replace (List.filter (failed_mechanical None) (ob_Checks o)) with (@nil CheckObservation); [done|].
    symmetry. apply filter_none, Forall_forall. intros c _. unfold failed_mechanical. apply andb_false_r.
Qed.

(** ** The mechanical verdict *)

Lemma normalize_elem seen names name :
  In name (normalize_names seen names) <-> name <> "" /\ (name ∉ seen) /\ In name names.
Proof.
  revert seen. induction names as [|x names IH]; intros seen; cbn [normalize_names In]; [tauto|].
  destruct (String.eqb_spec x "") as [->|Hx]; cbn [orb]; [rewrite IH; intuition congruence|].
  destruct (bool_decide_reflect (x ∈ seen)) as [Hs|Hs]; cbn [In]; rewrite IH.
  - intuition congruence.
  - destruct (decide (name = x)) as [->|Hne]; [tauto|]. rewrite not_elem_of_union, not_elem_of_singleton. intuition congruence.
Qed.

Lemma omap_cons {A B} (f : A -> option B) x l : omap f (x :: l) = match f x with Some y => y :: omap f l | None => omap f l end.
Proof. reflexivity. Qed.

Lemma length_omap_le {A B} (f : A -> option B) l : (length (omap f l) <= length l)%nat.
Proof. induction l as [|x l IH]; [done|]. rewrite omap_cons. destruct (f x); cbn [length]; lia. Qed.

Lemma verdict_states o names :
  length (omap (state_of (ob_Checks o)) names) = length names /\
  length (List.filter (String.eqb CheckStatePassed) (omap (state_of (ob_Checks o)) names)) =
    length (omap (state_of (ob_Checks o)) names) <->
  Forall (fun name => state_of (ob_Checks o) name = Some CheckStatePassed) names.
Proof.
  induction names as [|x names IH]; [split; [constructor|done]|]. rewrite Forall_cons, <- IH, omap_cons.
  assert (Hle := length_omap_le (state_of (ob_Checks o)) names).
  assert (Hfl := List.filter_length_le (String.eqb CheckStatePassed) (omap (state_of (ob_Checks o)) names)).
  destruct (state_of (ob_Checks o) x) as [st|]; cbn [length]; [|split; [intros [? _]; lia|by intros []]].
  cbn [List.filter]. destruct (String.eqb_spec CheckStatePassed st) as [<-|Hne]; cbn [length].
  - split; [intros [? ?]; split; [done|lia]|intros [_ [? ?]]; lia].
  - split; [intros [? ?]; lia|]. intros [[= E] _]. congruence.
Qed.

(** A check set is mechanically green exactly when the lane configures at least
    one check, every configured check is present and passed, and no check of the
    pull request, configured or not, failed. *)
Theorem mechanical_verdict_green_iff o configuredNames :
  (mechanicalVerdict o configuredNames).1 = true <->
  (exists name, In name configuredNames /\ name <> "") /\
  (forall name, In name configuredNames -> name <> "" -> state_of (ob_Checks o) name = Some CheckStatePassed) /\
  (forall c, In c (ob_Checks o) -> in_state CheckStateFailed c = false).
Proof.
  unfold mechanicalVerdict. cbv zeta. set (conf := normalizedMechanicalChecks configuredNames).
  assert (Hin : forall name, In name conf <-> name <> "" /\ In name configuredNames).
  { intros name. unfold conf, normalizedMechanicalChecks. rewrite normalize_elem. assert (name ∉ (∅ : gset string)) by apply not_elem_of_empty. tauto. }
  assert (Hnone : (forall c, In c (ob_Checks o) -> in_state CheckStateFailed c = false) <-> anyCheckFailed o = false)
    by (unfold anyCheckFailed; by rewrite existsb_false_iff).
  assert (Hall : Forall (fun name => state_of (ob_Checks o) name = Some CheckStatePassed) conf <->
    (forall name, In name configuredNames -> name <> "" -> state_of (ob_Checks o) name = Some CheckStatePassed)).
  { rewrite List.Forall_forall. split; intros H name; [intros H1 H2; apply H; by apply Hin|]. intros H1. apply Hin in H1 as []. auto. }
  rewrite Hnone, <- Hall, <- verdict_states.
  destruct (Nat.eqb_spec (length conf) 0) as [H0|H0].
  - split; [done|]. intros ((name & H1 & H2) & _). assert (In name conf) as Hc by (by apply Hin).
    destruct conf; [done|discriminate H0].
  - assert (Hex : exists name, In name configuredNames /\ name <> "").
    { destruct conf as [|x xs]; [done|]. destruct (proj1 (Hin x) (or_introl eq_refl)). eauto. }
    destruct (Z.eqb_spec (Z.of_nat (length (omap (state_of (ob_Checks o)) conf))) (Z.of_nat (length conf))) as [E1|E1]; cbn [negb orb];
      [|split; [done|]; intros (_ & [? _] & _); lia].
    match goal with |- context [negb (?a =? ?b)] => destruct (Z.eqb_spec a b) as [E2|E2] end; cbn [negb orb]; [|split; [done|]; intros (_ & [_ ?] & _); lia].
    destruct (anyCheckFailed o); [split; [done|]; by intros (_ & _ & ?)|].
    split; [|done]. intros _. split; [done|]. split; [lia|done].
Qed.

(** ** Witnesses *)

Definition red_observation : PRObservation :=
  {| ob_PR := "7"; ob_Draft := false; ob_Head := "abc"; ob_Merged := false;
     ob_Checks := [{| chk_Name := "lint"; chk_State := CheckStateFailed; chk_Output := "line too long" |};
                   {| chk_Name := "docs"; chk_State := CheckStatePending; chk_Output := "" |}] |}.

(** A failed configured check wakes the park; an unrelated pending one does not
    hold it. *)
Example red_resumes :
  ClassifyCIParkTrigger red_observation "abc" (mechanicalSelector ["lint"]) 1 = CIParkResumeRepair /\
  ClassifyCIParkTrigger red_observation "abc" (mechanicalSelector ["lint"; "docs"]) 1 = CIParkHold /\
  ClassifyCIParkTrigger red_observation "abc" (mechanicalSelector ["docs"]) 1 = CIParkHold /\
  failedMechanicalChecks red_observation (mechanicalSelector ["lint"]) = ["lint"].
Proof. vm_compute. split_and!; reflexivity. Qed.
