(* ===== verification/CIPark.v ===== *)
(** * The CI park-and-resume loop (internal/controller/cipark.go)

    A run that published its pull request waits on CI without a pod or a lane
    slot; one settled failure of a configured mechanical check on the exact
    parked head wakes it for one bounded repair under a fence reserved at the
    source.  What the run owes the source (the park notice, the fenced outcome,
    the fence-less release) is recorded on the status before it is delivered,
    and re-presented until the source accepts it or proves it moot. *)

From S2P Require Import Prelude Effects GoStrings GoTime Run StatusPatch Lane Kube Reap Retry World Pods Report Capacity Terminal Checks.
Local Open Scope string_scope.
Local Open Scope Z_scope.

Definition ciparkPollDelay : Duration := 30 * Second.
Definition ciparkSettlementRetryDelay : Duration := 30 * Second.
Definition ConditionCIRepairInapplicable : string := "CIRepairInapplicable".
Definition ConditionReasonHeadUnattributable : string := "HeadUnattributable".

Section CIPark.
Context {CO : ConditionOps} {CD : Codec}.
Variable r : Reconciler.

Abbreviation transitionTerminal := (transitionTerminal r).

(** The error of a delivery, [None] when it is delivered. *)
Definition delivery : Type := option error.

Definition no_lifecycle (run : CoderRun) : error :=
  [EText ("coderun controller: source " ++ Quote (sp_Source (Spec run)) ++ " does not implement the CI park lifecycle")].

(** Clear a record the source settled; the write decides the delivery. *)
Definition clear_record (f : CoderRunStatus -> CoderRunStatus) : M delivery :=
  before ← snapshot;
  _ ← assign f;
  e ← patch before;
  mret (if failed e then Some e else None).

(** ** Lane policy and capacity *)

Definition ciRepairPolicy : M (result error (option CIRepairPolicy)) :=
  run ← get;
  lane ← io (GetLane false (Namespace run) (sp_Lane (Spec run)));
  mret (match lane with
        | Err e => if IsNotFound e then Ok None else Err [EApi e]
        | Ok lane => Ok (effective_policy lane)
        end).

Definition ciparkCapacityAvailable : M (result error bool) :=
  run ← get;
  lane ← io (GetLane false (Namespace run) (sp_Lane (Spec run)));
  match lane with
  | Err e => mret (Err [EApi e])
  | Ok lane =>
      if Suspended lane then mret (Ok false) else
      lanes ← io (ListLanes false (Namespace run));
      match lanes with
      | Err e => mret (Err [EApi e])
      | Ok lanes =>
          now ← clock;
          match CapacityCooldownActive lane lanes now with
          | Some _ => mret (Ok false)
          | None =>
              runs ← io (ListRunsLive (Namespace run));
              mret (match runs with
                    | Err e => Err [EApi e]
                    | Ok runs => Ok (laneHasCapacity runs (sp_Lane (Spec run)) (Concurrency (lp_Spec lane)))
                    end)
          end
      end
  end.

(** ** The inapplicability condition *)

Definition inapplicable_message (head : string) : string :=
  "the lane's ci-repair policy cannot apply: observed head " ++ Quote head ++
  " is not attributable to this run's publication evidence; the ordinary verification path decides the run".

Definition markCIParkInapplicable (o : PRObservation) : M error :=
  if String.eqb (ob_Head o) "" then mret [] else
  run ← get;
  let message := inapplicable_message (ob_Head o) in
  let recorded := match condition (Status run) ConditionCIRepairInapplicable with
                  | Some c => String.eqb (c_Status c) ConditionTrue && String.eqb (c_Reason c) ConditionReasonHeadUnattributable &&
                              (c_ObservedGeneration c =? Generation run) && String.eqb (c_Message c) message
                  | None => false
                  end in
  if recorded then mret [] else
  before ← snapshot;
  now ← clock;
  _ ← assign (with_condition {| c_Type := ConditionCIRepairInapplicable; c_Status := ConditionTrue;
        c_Reason := ConditionReasonHeadUnattributable; c_Message := message; c_ObservedGeneration := Generation run;
        c_LastTransitionTime := now |});
  patch before.

Definition has_inapplicable (st : CoderRunStatus) : bool :=
  match condition st ConditionCIRepairInapplicable with Some _ => true | None => false end.

Definition drop_inapplicable (st : CoderRunStatus) : CoderRunStatus :=
  if has_inapplicable st then set_Conditions st (RemoveStatusCondition (Conditions st) ConditionCIRepairInapplicable) else st.

Definition clearCIParkInapplicable : M bool :=
  run ← get;
  if has_inapplicable (Status run) then _ ← assign drop_inapplicable; mret true else mret false.

(** The clearing with its own write. *)
Definition clear_inapplicable_now : M error :=
  before ← snapshot;
  cleared ← clearCIParkInapplicable;
  if (cleared : bool) then patch before else mret [].

(** ** Deliveries to the source *)

Definition deliverCIParkNotice : M delivery :=
  run ← get;
  match st_CIParkDeferral (Status run) with
  | None => mret None
  | Some record =>
      match adapterAndWorkItem (r_Sources r) run with
      | Err e => mret (Some [ERegistry e])
      | Ok (adapter, item) =>
          if negb (is_cipark adapter) then mret (Some (no_lifecycle run)) else
          answer ← io (ReportCIParked (adapter_id adapter) item
            {| pn_PR := PR (Status run); pn_Head := pd_Head record; pn_IdempotencyKey := pd_IdempotencyKey record |});
          match answer with
          | Err e => if wraps_sentinel e ErrUnsupportedCIPark then clear_record (fun st => set_st_CIParkDeferral st None)
                     else mret (Some [ESource e])
          | Ok _ => clear_record (fun st => set_st_CIParkDeferral st None)
          end
      end
  end.

Definition reserveCIRepair (pr head : string) (attempt : Z) : M (result error string) :=
  run ← get;
  match adapterAndWorkItem (r_Sources r) run with
  | Err e => mret (Err [ERegistry e])
  | Ok (adapter, item) =>
      if negb (is_cipark adapter) then mret (Ok "") else
      let token := ciparkFenceToken run attempt in
      answer ← io (ReserveCIRepair (adapter_id adapter) item
        {| rv_FenceToken := token; rv_IdempotencyKey := ciparkRepairKey run attempt; rv_PR := pr; rv_Head := head |});
      mret (match answer with
            | Err e => Err [ESource e]
            | Ok granted => Ok (if negb (String.eqb granted "") then granted else token)
            end)
  end.

Definition reportCIRepair (pr head result fenceToken idempotencyKey : string) : M error :=
  run ← get;
  if String.eqb fenceToken "" then mret [] else
  let attempts := match CIPark (Status run) with Some p => park_Attempts p | None => 0 end in
  if String.eqb idempotencyKey "" && (attempts =? 0) then mret [] else
  let key := if String.eqb idempotencyKey "" then ciparkRepairKey run attempts else idempotencyKey in
  match adapterAndWorkItem (r_Sources r) run with
  | Err e => mret [ERegistry e]
  | Ok (adapter, item) =>
      if negb (is_cipark adapter) then mret (no_lifecycle run) else
      answer ← io (ReportCIRepair (adapter_id adapter) item
        {| ro_FenceToken := fenceToken; ro_IdempotencyKey := key; ro_PR := pr; ro_Head := head; ro_Result := result |});
      mret (of_result ESource answer)
  end.

Definition deliverCISettlement : M delivery :=
  run ← get;
  match st_CISettlement (Status run) with
  | None => mret None
  | Some record =>
      e ← reportCIRepair (PR (Status run)) (cs_Head record) (cs_Result record) (cs_FenceToken record) (cs_IdempotencyKey record);
      if failed e && negb (Is e ErrUnsupportedCIPark || Is e ErrStaleWork || Is e ErrSuperseded) then mret (Some e)
      else clear_record (fun st => set_st_CISettlement st None)
  end.

Definition deliverCIParkRelease : M delivery :=
  run ← get;
  match st_CIParkRelease (Status run) with
  | None => mret None
  | Some record =>
      match adapterAndWorkItem (r_Sources r) run with
      | Err e => mret (Some [ERegistry e])
      | Ok (adapter, item) =>
          let cleared := clear_record (fun st => set_st_CIParkRelease st None) in
          if negb (is_cipark adapter) then cleared else
          answer ← io (ReleaseCIPark (adapter_id adapter) item
            {| px_PR := PR (Status run); px_Head := pl_Head record; px_IdempotencyKey := pl_IdempotencyKey record |});
          match answer with
          | Err e =>
              if wraps_sentinel e ErrUnsupportedCIPark || wraps_sentinel e ErrPermanentRefusal ||
                 wraps_sentinel e ErrStaleWork || wraps_sentinel e ErrSuperseded
              then cleared else mret (Some [ESource e])
          | Ok _ => cleared
          end
      end
  end.

(** ** Endings *)

(** The close a park that ended without a reservation owes. *)
Definition recordCIParkRelease (park : CIParkState) : M (result error bool) :=
  run ← get;
  match adapterAndWorkItem (r_Sources r) run with
  | Err e => mret (Err [ERegistry e])
  | Ok (adapter, _) =>
      if negb (is_cipark adapter) then mret (Ok false) else
      _ ← assign (fun st => set_st_CIParkRelease st
            (Some {| pl_Head := park_Head park; pl_IdempotencyKey := ciparkParkKey run (park_Head park) |}));
      mret (Ok true)
  end.

Definition with_outcome (outcome : string) (p : CIParkState) : CIParkState :=
  {| park_Head := park_Head p; ParkedAt := ParkedAt p; park_Attempts := park_Attempts p; LastOutcome := outcome |}.

(** The assignments of [finishCIPark] before the source is consulted. *)
Definition finish_park (run : CoderRun) (outcome fenceToken : string) (st : CoderRunStatus) : CoderRunStatus :=
  let st := set_CIPark st (with_outcome outcome <$> CIPark st) in
  let st := set_CIRepair (set_st_CIParkDeferral st None) None in
  match CIPark st with
  | Some p =>
      if String.eqb fenceToken "" then st else
      set_st_CISettlement st (Some {| cs_FenceToken := fenceToken; cs_IdempotencyKey := ciparkRepairKey run (park_Attempts p);
                                      cs_Result := outcome; cs_Head := "" |})
  | None => st
  end.

(** The two best-effort deliveries of an ending. *)
Definition deliver_endings : M unit :=
  _ ← deliverCISettlement; _ ← deliverCIParkRelease; mret tt.

Definition finishCIPark (o : PRObservation) (outcome fenceToken : string) : M Terminal.outcome :=
  before ← snapshot;
  run ← get;
  let st := Status run in
  let changed := negb (unset (CIPark st)) || negb (unset (st_CIParkDeferral st)) || negb (unset (CIRepair st)) in
  _ ← assign (finish_park run outcome fenceToken);
  released ← (match CIPark st with
              | Some p => if String.eqb fenceToken "" then recordCIParkRelease p else mret (Ok true)
              | None => mret (Ok false)
              end);
  match released with
  | Err e => mret (res0, e)
  | Ok released =>
      e ← (if changed || (released : bool) then patch before else mret []);
      if failed e then mret (res0, e) else
      _ ← deliver_endings;
      if String.eqb (sp_Mode (Spec run)) Mode_FixPR then transitionTerminal PhaseFailed (ob_PR o) intent_ci None
      else transitionTerminal PhaseHandedOff (ob_PR o) no_intent None
  end.

Definition fenced_settlement (run : CoderRun) (attempt : CIRepairContext) (o : PRObservation) : CISettlement :=
  let '(result, head) :=
    match publishedHead (Status run) (ob_Head o) with
    | Some head => if negb (String.eqb head (rep_Head attempt)) then (CIParkOutcomeRepushed, head) else (CIParkOutcomeExhausted, "")
    | None => (CIParkOutcomeUnsupported, "")
    end in
  {| cs_FenceToken := rep_FenceToken attempt; cs_IdempotencyKey := ciparkRepairKey run (rep_Attempt attempt);
     cs_Result := result; cs_Head := head |}.

Definition abandonFencedCIPark (attempt : CIRepairContext) (o : PRObservation) : M error :=
  before ← snapshot;
  run ← get;
  _ ← assign (fun st => set_CIPark (set_CIRepair (set_st_CIParkDeferral
        (set_st_CISettlement st (Some (fenced_settlement run attempt o))) None) None) None);
  e ← patch before;
  if failed e then mret e else _ ← deliverCISettlement; mret [].

(** A settlement of an older controller adopts the key it would have derived. *)
Definition adopt_key (run : CoderRun) (park : CIParkState) (s : CISettlement) : CISettlement :=
  if String.eqb (cs_IdempotencyKey s) "" && (0 <? park_Attempts park)
  then {| cs_FenceToken := cs_FenceToken s; cs_IdempotencyKey := ciparkRepairKey run (park_Attempts park);
          cs_Result := cs_Result s; cs_Head := cs_Head s |}
  else s.

Definition abandonCIPark (o : PRObservation) : M error :=
  run ← get;
  let unfenced :=
    match CIPark (Status run) with
    | None => mret []
    | Some park =>
        before ← snapshot;
        released ← recordCIParkRelease park;
        match released with
        | Err e => mret e
        | Ok _ =>
            _ ← assign (fun st => set_CIPark (set_CIRepair (set_st_CIParkDeferral
                  (set_st_CISettlement st (adopt_key run park <$> st_CISettlement st)) None) None) None);
            e ← patch before;
            if failed e then mret e else _ ← deliverCIParkRelease; mret []
        end
    end in
  match CIRepair (Status run) with
  | Some attempt => if String.eqb (rep_FenceToken attempt) "" then unfenced else abandonFencedCIPark attempt o
  | None => unfenced
  end.

(** ** Verdicts *)

Definition window_expired (now : Time) (park : CIParkState) (policy : CIRepairPolicy) : bool :=
  negb (ObservationWindowSeconds policy <=? 0) &&
  (int_mul (ObservationWindowSeconds policy) Second <? Sub now (ParkedAt park)).

(** [ciparkWindowExpired]: a lane without a window never reads the clock. *)
Definition ciparkWindowExpired (park : CIParkState) (policy : CIRepairPolicy) : M bool :=
  if ObservationWindowSeconds policy <=? 0 then mret false else now ← clock; mret (window_expired now park policy).

Definition holdCIPark (park : CIParkState) (policy : CIRepairPolicy) (o : PRObservation) : M Terminal.outcome :=
  expired ← ciparkWindowExpired park policy;
  if (expired : bool) then finishCIPark o CIParkOutcomeUnsupported "" else mret (after ciparkPollDelay, []).

Definition no_change_hold (now : Time) : terminalLifecycleIntent :=
  intent_diagnostic "no changes pushed; queued feedback resolution is not verified"
    (buildTerminalDiagnostic now None "" "" "" false None "").

Definition settleCIParkGreen (o : PRObservation) (greenSettled : bool) : M Terminal.outcome :=
  if negb greenSettled then mret (after ciparkPollDelay, []) else
  before ← snapshot;
  run ← get;
  _ ← assign (fun st => set_st_CIParkDeferral st None);
  released ← (match CIPark (Status run) with Some p => recordCIParkRelease p | None => mret (Ok false) end);
  match released with
  | Err e => mret (res0, e)
  | Ok released =>
      e ← (if negb (unset (st_CIParkDeferral (Status run))) || released then patch before else mret []);
      if failed e then mret (res0, e) else
      _ ← deliverCIParkRelease;
      run ← get;
      if DeclaredNoChange (Status run) && String.eqb (sp_Mode (Spec run)) Mode_FixPR then
        now ← clock; transitionTerminal PhaseBlockedExternal (ob_PR o) (no_change_hold now) None
      else transitionTerminal PhaseAwaitingReview (ob_PR o) no_intent None
  end.

Definition settleCIPark (o : PRObservation) (configured : list string) (remaining : Z) (failureSettled greenSettled : bool) :
    M Terminal.outcome :=
  run ← get;
  if (mechanicalVerdict o configured).1 then settleCIParkGreen o greenSettled else
  if anyCheckFailed o && negb (String.eqb (sp_Mode (Spec run)) Mode_FixPR) && negb failureSettled
  then mret (after ciparkPollDelay, [])
  else finishCIPark o (if remaining <=? 0 then CIParkOutcomeExhausted else CIParkOutcomeUnsupported) "".

Definition repair_context (park : CIParkState) (attempt : Z) (policy : CIRepairPolicy) (o : PRObservation)
    (selector : MechanicalCheckSelector) (fenceToken : string) : CIRepairContext :=
  {| rep_Head := park_Head park; rep_Attempt := attempt; FailedChecks := failedMechanicalChecks o selector;
     rep_Logs := failedCheckLogs o selector; rep_FenceToken := fenceToken; rep_MaxAttempts := crp_MaxAttempts policy |}.

Definition with_attempts (n : Z) (p : CIParkState) : CIParkState :=
  {| park_Head := park_Head p; ParkedAt := ParkedAt p; park_Attempts := n; LastOutcome := LastOutcome p |}.

Definition resumeCIPark (park : CIParkState) (policy : CIRepairPolicy) (o : PRObservation)
    (selector : MechanicalCheckSelector) (failureSettled : bool) : M Terminal.outcome :=
  if negb failureSettled then mret (after ciparkPollDelay, []) else
  expired ← ciparkWindowExpired park policy;
  if (expired : bool) then finishCIPark o CIParkOutcomeUnsupported "" else
  available ← ciparkCapacityAvailable;
  match available with
  | Err e => mret (res0, e)
  | Ok false => mret (after capacityRequeueDelay, [])
  | Ok true =>
      let attempt := int_add (park_Attempts park) 1 in
      token ← reserveCIRepair (ob_PR o) (park_Head park) attempt;
      match token with
      | Err e =>
          if Is e ErrSuperseded || Is e ErrStaleWork || Is e ErrUnsupportedCIPark
          then finishCIPark o CIParkOutcomeUnsupported "" else mret (res0, e)
      | Ok token =>
          before ← snapshot;
          _ ← assign (fun st => set_Phase (set_CIRepair (set_CIPark st (with_attempts attempt <$> CIPark st))
                (Some (repair_context park attempt policy o selector token))) PhaseClaimed);
          e ← patch before;
          mret (res0, e)
      end
  end.

(** ** One observation of a published run *)

(** [handled] is false when the ordinary grading path owns the observation. *)
Definition park_result : Type := (bool * Terminal.outcome)%type.

Definition ordinary (e : error) : park_result := (false, (res0, e)).

(** The abandon settles the source side, then the ordinary path decides. *)
Definition leave_loop (o : PRObservation) : M park_result := e ← abandonCIPark o; mret (ordinary e).

(** The source refused the park family before: no park is established. *)
Definition source_cannot_park (run : CoderRun) : M bool :=
  match adapterAndWorkItem (r_Sources r) run with
  | Err _ => mret false
  | Ok (adapter, _) => if is_cipark_probe adapter then io (CIParkLifecycleUnsupported (adapter_id adapter)) else mret false
  end.

Definition owes_notice (run : CoderRun) : bool :=
  match adapterAndWorkItem (r_Sources r) run with Ok (adapter, _) => is_cipark adapter | Err _ => false end.

(** The assignments of one observation's single write. *)
Definition advance_park (run : CoderRun) (park : CIParkState) (established republished : bool) (attempt : option CIRepairContext)
    (head failedCandidate greenCandidate : string) (st : CoderRunStatus) : CoderRunStatus :=
  let st := set_CIRepair (set_CIPark st (Some park)) None in
  let st := match attempt with
            | Some a =>
                if republished && negb (String.eqb (rep_FenceToken a) "") then
                  set_st_CISettlement st (Some {| cs_FenceToken := rep_FenceToken a;
                    cs_IdempotencyKey := ciparkRepairKey run (rep_Attempt a); cs_Result := CIParkOutcomeRepushed; cs_Head := head |})
                else st
            | None => st
            end in
  let st := if established && owes_notice run then
              set_st_CIParkDeferral st (Some {| pd_Head := park_Head park; pd_IdempotencyKey := ciparkParkKey run (park_Head park) |})
            else st in
  set_CheckFingerprint (set_FailedCheckFingerprint st failedCandidate) greenCandidate.

(** The changes that make the write happen. *)
Definition park_changed (cleared : bool) (o : PRObservation) (before st : CoderRunStatus) : bool :=
  cleared || negb (String.eqb (ob_PR o) (PR before)) || negb (bool_decide (CIPark st = CIPark before)) ||
  negb (unset (CIRepair before)) || negb (bool_decide (st_CIParkDeferral st = st_CIParkDeferral before)) ||
  negb (String.eqb (FailedCheckFingerprint st) (FailedCheckFingerprint before)) ||
  negb (String.eqb (CheckFingerprint st) (CheckFingerprint before)).

Definition observe_parked (policy : CIRepairPolicy) (o : PRObservation) (head : string) : M Terminal.outcome :=
  before ← snapshot;
  cleared ← clearCIParkInapplicable;
  _ ← assign (fun st => set_PR st (ob_PR o));
  now ← clock;
  run ← get;
  let attempt := CIRepair (Status run) in
  let fenceToken := match attempt with Some a => rep_FenceToken a | None => "" end in
  match nextCIPark (CIPark (Status run)) head attempt now with
  | NoProgress => finishCIPark o CIParkOutcomeExhausted fenceToken
  | Park park established republished =>
      let selector := mechanicalSelector (MechanicalChecks policy) in
      let '(failedCandidate, greenCandidate) := ciparkFingerprints o (MechanicalChecks policy) in
      let failureSettled := negb established && negb (String.eqb failedCandidate "") &&
                            String.eqb (FailedCheckFingerprint (Status run)) failedCandidate in
      let greenSettled := negb established && negb (String.eqb greenCandidate "") &&
                          String.eqb (CheckFingerprint (Status run)) greenCandidate in
      _ ← assign (advance_park run park established republished attempt head failedCandidate greenCandidate);
      now ← get;
      e ← (if park_changed cleared o (Status before) (Status now) || (established && owes_notice run) then patch before else mret []);
      if failed e then mret (res0, e) else
      _ ← (if established then deliverCIParkNotice else mret None);
      _ ← (if republished && negb (String.eqb fenceToken "") then deliverCISettlement else mret None);
      let remaining := int_sub (crp_MaxAttempts policy) (park_Attempts park) in
      match ClassifyCIParkTrigger o (park_Head park) selector remaining with
      | CIParkHold => holdCIPark park policy o
      | CIParkResumeRepair => resumeCIPark park policy o selector failureSettled
      | CIParkFinish => settleCIPark o (MechanicalChecks policy) remaining failureSettled greenSettled
      end
  end.

Definition observeCIPark (o : PRObservation) : M park_result :=
  policy ← ciRepairPolicy;
  match policy with
  | Err e => mret (ordinary e)
  | Ok None =>
      e ← clear_inapplicable_now;
      if failed e then mret (ordinary e) else leave_loop o
  | Ok (Some policy) =>
      if String.eqb (ob_PR o) "" || ob_Draft o then leave_loop o else
      run ← get;
      let st := Status run in
      let published := publishedHead st (ob_Head o) in
      skewed ← (if unset (CIPark st) && unset (CIRepair st) then source_cannot_park run else mret false);
      match published with
      | Some head =>
          if (skewed : bool) then e ← clear_inapplicable_now; mret (ordinary e) else
          out ← observe_parked policy o head; mret (true, out)
      | None =>
          if skewed || unset (CIPark st) then e ← markCIParkInapplicable o; mret (ordinary e) else
          out ← finishCIPark o CIParkOutcomeUnsupported (match CIRepair st with Some a => rep_FenceToken a | None => "" end);
          mret (true, out)
      end
  end.

End CIPark.
