(* ===== verification/Liveness.v ===== *)
(** * Liveness, pod loss and relaunch (internal/controller/liveness.go, the
      soft-stop and infrastructure-failure handlers of coderun_controller.go,
      and the topology observation of secure_launcher.go)

    A Running run whose coordinator went silent is reaped and relaunched from
    its checkpoint; a lost pod and a broken secure topology take the same
    relaunch, bounded by one crashloop ceiling.  Destructive decisions are made
    on live reads: the handlers below work on the live copy of the run. *)

From S2P Require Import Prelude Effects GoStrings GoTime Run StatusPatch Lane Kube Reap Retry World Pods Report Capacity Terminal.
Local Open Scope string_scope.
Local Open Scope Z_scope.

Definition defaultLivenessWindow : Duration := 5 * Minute.
Definition defaultMaxRestarts : Z := 3.
Definition podLostReason : string :=
  "coordinator pod lost repeatedly and reached the infrastructure restart ceiling".
Definition podLostEventReason : string := "coordinator pod lost".
Definition infrastructureFailureEventReason : string := "coordinator reported an infrastructure failure".
Definition infrastructureFailureCeilingReason : string :=
  "coordinator infrastructure failures reached the infrastructure restart ceiling".
Definition secureRequeueDelay : Duration := 2 * Second.
Definition brokerVerdictGrace : Duration := 90 * Second.
Definition maxSoftStopRequestIDLength : Z := 128.
Definition ConditionSoftStopObserved : string := "SoftStopObserved".
Definition ConditionReasonUnacknowledged : string := "Unacknowledged".
Definition ControlRequestSoftStop : string := "soft-stop".

(** A handler on a live copy; the caller's run is untouched. *)
Definition on_copy {A} (fresh : CoderRun) (p : M A) : M A := fun run => '(_, a) ← p fresh; Ret (run, a).

Definition crashloopCeiling (configured : Z) : Z := if 0 <? configured then configured else defaultMaxRestarts.

(** ** Active operations *)

Definition activeOperationValid (run : CoderRun) (pods : list Pod) (entry : ActiveOperation) : bool :=
  negb (String.eqb (op_CoordinatorPodUID entry) "") && negb (String.eqb (op_WorkerPodUID entry) "") &&
  let candidate pod := podBelongsToRun pod run && negb (podPhaseTerminal (pod_Phase pod)) &&
                       podOwnedByRunUID pod (UID run) && negb (deleting pod) in
  existsb (fun pod => candidate pod && String.eqb (pod_UID pod) (op_CoordinatorPodUID entry) && hasCoordinatorContainer pod) pods &&
  existsb (fun pod => candidate pod && String.eqb (pod_UID pod) (op_WorkerPodUID entry) && workerShellRunning pod) pods.

Definition validActiveOperations (run : CoderRun) (pods : list Pod) : bool :=
  existsb (fun kv => activeOperationValid run pods kv.2) (map_to_list (ActiveOperations (Status run))).

(** ** Soft stop *)

Section SoftStop.
Context {CO : ConditionOps} {CD : Codec}.

Definition softStopDisarmMessage (id : string) : string :=
  "soft-stop request " ++ Quote id ++
  " was never acknowledged by the coordinator before it was torn down; re-targeting requires a new annotation value".

Definition softStopDisarmed (st : CoderRunStatus) (id : string) : bool :=
  match st_ControlRequest st with Some c => String.eqb (cr_ID c) id | None => false end ||
  match st_ControlRequestAck st with Some a => String.eqb (ack_ID a) id | None => false end ||
  match condition st ConditionSoftStopObserved with
  | Some c => String.eqb (c_Message c) (softStopDisarmMessage id)
  | None => false
  end.

Definition clearSoftStopCondition (st : CoderRunStatus) : CoderRunStatus :=
  set_Conditions st (RemoveStatusCondition (Conditions st) ConditionSoftStopObserved).

Definition softStopBeforeRelaunch (now : Time) (st : CoderRunStatus) : CoderRunStatus :=
  match st_ControlRequest st with
  | None => st
  | Some record =>
      let acked := match st_ControlRequestAck st with Some a => String.eqb (ack_ID a) (cr_ID record) | None => false end in
      let st := if acked then st else
        with_condition (mk_condition ConditionSoftStopObserved ConditionTrue ConditionReasonUnacknowledged
                          (softStopDisarmMessage (cr_ID record)) now) st in
      set_st_ControlRequest st None
  end.

Definition syncSoftStop (pods : list Pod) : M error :=
  run ← get;
  let st := Status run in
  let id := annotation run SoftStopAnnotation in
  if maxSoftStopRequestIDLength <? slen id then mret [] else
  if String.eqb id "" then
    match st_ControlRequest st, st_ControlRequestAck st, condition st ConditionSoftStopObserved with
    | None, None, None => mret []
    | _, _, _ =>
        before ← snapshot;
        _ ← assign (fun st => clearSoftStopCondition (set_st_ControlRequestAck (set_st_ControlRequest st None) None));
        patch before
    end
  else if softStopDisarmed st id then mret [] else
  match coordinatorPodOf pods run with
  | None => mret []
  | Some pod =>
      before ← snapshot;
      now ← clock;
      _ ← assign (fun st => clearSoftStopCondition (set_st_ControlRequest st
            (Some {| cr_ID := id; cr_Kind := ControlRequestSoftStop; cr_TargetPodUID := pod_UID pod; cr_RequestedAt := now |})));
      patch before
  end.

(** The mutation every relaunch shares. *)
Definition chargeRelaunch (now : Time) (st : CoderRunStatus) : CoderRunStatus :=
  let st := softStopBeforeRelaunch now st in
  set_Phase (set_Restarts st (int_add (Restarts st) 1)) PhaseClaimed.

End SoftStop.

Section Liveness.
Context {CO : ConditionOps} {CD : Codec}.
Variable r : Reconciler.

Definition livenessWindow : Duration := if 0 <? r_LivenessWindow r then r_LivenessWindow r else defaultLivenessWindow.
Definition maxRestarts : Z := crashloopCeiling (r_MaxRestarts r).

(** ** Relaunch *)

Definition relaunchAfterInfraLoss (reason eventReason : string) (diagnostic : TerminalDiagnostic) : M outcome :=
  run ← get;
  if maxRestarts <=? Restarts (Status run) then
    transitionTerminal r PhaseNeedsHuman "" (intent_diagnostic reason diagnostic) None
  else
  before ← snapshot;
  now ← clock;
  _ ← assign (chargeRelaunch now);
  e ← patch before;
  if failed e then mret (res0, e) else
  run ← get;
  _ ← emitPhaseTransition r PhaseClaimed (("restarts", DInt (Restarts (Status run))) ::
        if String.eqb eventReason "" then [] else [("reason", DString eventReason)]);
  mret (requeue_now, []).

(** ** Live pod reads *)

(** The label values the other schemes give, without the primary one. *)
Definition other_run_labels (name : string) : list string :=
  List.filter (fun v => negb (String.eqb v (RunLabelValue name))) [RunLabelValue name; LegacyRunLabelValue name].

Fixpoint list_labels (ns : string) (values : list string) (acc : list Pod) : M (result api_error (list Pod)) :=
  match values with
  | [] => mret (Ok acc)
  | v :: rest =>
      more ← io (ListPods true ns (Some v));
      match more with
      | Err e => mret (Err e)
      | Ok more => list_labels ns rest (acc ++ more)
      end
  end.

(** The live pods of a run under every label scheme. *)
Definition live_pods : M (result api_error (list Pod)) :=
  run ← get; list_labels (Namespace run) (RunLabelValue (run_Name run) :: other_run_labels (run_Name run)) [].

Definition coordinatorObjectPresentLive : M (result api_error bool) :=
  run ← get;
  pods ← live_pods;
  mret (match pods with Err e => Err e | Ok pods => Ok (existsb (coordinator_of run) pods) end).

(** The charge is deferred unless the name is provably free. *)
Definition name_free : M bool :=
  present ← coordinatorObjectPresentLive;
  mret (match present with Ok false => true | _ => false end).

Definition delete_ignoring_absent (pod : Pod) (uid : option string) : M error :=
  answer ← io (DeletePod pod uid); mret (IgnoreNotFound answer).

Definition deleteObservedPod (pod : Pod) : M error := delete_ignoring_absent pod (Some (pod_UID pod)).

(** ** The secure round (secure_launcher.go) *)

Definition component (pod : Pod) : string := default "" (pod_Labels pod !! LabelComponent).
Definition is_probe (pod : Pod) : bool := String.eqb (default "" (pod_Labels pod !! LabelProbe)) "true".

Definition podOfComponent (live : bool) (comp : string) : M (result error (option Pod)) :=
  run ← get;
  pods ← io (ListPods live (Namespace run) None);
  mret (match pods with
        | Err e => Err [EApi e]
        | Ok pods => Ok (List.find (fun pod => negb (is_probe pod) &&
            String.eqb (default "" (pod_Labels pod !! LabelRun)) (RunLabelValue (run_Name run)) &&
            String.eqb (component pod) comp) pods)
        end).

Definition delete_component (comp : string) : M error :=
  pod ← podOfComponent false comp;
  match pod with
  | Err e => mret e
  | Ok None => mret []
  | Ok (Some pod) => delete_ignoring_absent pod None
  end.

Definition delete_broker_service : M error :=
  run ← get; answer ← io (DeleteBrokerService (Namespace run) (run_Name run)); mret (IgnoreNotFound answer).

(** Worker, then broker ingress, then broker. *)
Definition Fence : M error :=
  e ← delete_component ComponentWorker;
  if failed e then mret e else
  e ← delete_broker_service;
  if failed e then mret e else delete_component ComponentBroker.

Definition fence_if_secure : M error := match r_Secure r with None => mret [] | Some _ => Fence end.

Definition controlTerminated (control : Pod) : bool :=
  existsb (fun cs => String.eqb (cs_Name cs) coordinatorContainerName &&
                     match cs_Terminated cs with Some _ => true | None => false end) (pod_ContainerStatuses control).

Definition topologyBroken (pod : Pod) : bool := negb (deleting pod) && podPhaseTerminal (pod_Phase pod).

Definition controlWithinBrokerVerdictGrace (control : Pod) (now : Time) : bool :=
  match head (omap cs_Running (coordinator_statuses control)) with
  | Some started => negb (started =? zero_time) && (Sub now started <? brokerVerdictGrace)
  | None => false
  end.

(** The condition is replaced in place or appended, without the library. *)
Fixpoint replace_condition (cs : list Condition) (c : Condition) : list Condition :=
  match cs with
  | [] => [c]
  | x :: rest => if String.eqb (c_Type x) (c_Type c) then c :: rest else x :: replace_condition rest c
  end.

Definition transitionNeedsHuman (detail : string) : M outcome :=
  run ← get;
  now ← clock;
  _ ← assign (fun st => set_Conditions st (replace_condition (Conditions st)
        {| c_Type := "SecurePreflightFailed"; c_Status := ConditionTrue; c_ObservedGeneration := Generation run;
           c_LastTransitionTime := now; c_Reason := "TopologyFailed"; c_Message := detail |}));
  transitionTerminal r PhaseNeedsHuman "" (intent_error detail) None.

(** What an observation decides: the result and whether the caller stops. *)
Definition verdict : Type := (ctrl_result * bool * error)%type.
Definition stop (res : ctrl_result) (e : error) : verdict := (res, true, e).
Definition go_on : verdict := (res0, false, []).

(** [fenceAndRelaunch] once the live run is read, on that live run. *)
Definition relaunch_live (secure : SecureConfig) : M verdict :=
  control ← podOfComponent true ComponentCoordinator;
  match control with
  | Err e => mret (stop res0 e)
  | Ok control =>
      run ← get;
      if match control with Some pod => coordinatorHandoffValid pod | None => false end then
        e ← Fence; mret (if failed e then stop res0 e else stop (after secureRequeueDelay) [])
      else
      let atCeiling := crashloopCeiling (sc_MaxRestarts secure) <=? Restarts (Status run) in
      let inert := match control with Some pod => coordinatorPodUnrecoverable pod | None => false end in
      let target := if atCeiling && inert then None else control in
      e ← (match target with Some pod => deleteObservedPod pod | None => mret [] end);
      if is_conflict e then mret (stop (after secureRequeueDelay) []) else
      if failed e then mret (stop res0 e) else
      free ← (if negb (unset target) && negb atCeiling && inert then name_free else mret true);
      if negb (free : bool) then mret (stop (after secureRequeueDelay) []) else
      e ← Fence;
      if failed e then mret (stop res0 e) else
      if atCeiling then
        out ← transitionNeedsHuman "secure topology failed repeatedly and reached the crashloop ceiling";
        mret (stop out.1 out.2)
      else
      before ← snapshot;
      now ← clock;
      _ ← assign (chargeRelaunch now);
      e ← patch before;
      mret (if failed e then stop res0 e else stop requeue_now [])
  end.

Definition fenceAndRelaunch (secure : SecureConfig) : M verdict :=
  run ← get;
  live ← io (GetRunLive (Namespace run) (run_Name run));
  match live with
  | Err _ => mret (stop (after secureRequeueDelay) [])
  | Ok live =>
      let fresh := keyed (Namespace run) (run_Name run) live in
      if negb (String.eqb (UID fresh) (UID run)) || negb (String.eqb (Phase (Status fresh)) PhaseRunning) ||
         negb (unset (DeletionTimestamp fresh))
      then mret (stop (after secureRequeueDelay) [])
      else on_copy fresh (relaunch_live secure)
  end.

(** The last non-probe pod of a component: the loop keeps overwriting. *)
Definition topology_pod (pods : list Pod) (comp : string) : option Pod :=
  last (List.filter (fun pod => negb (is_probe pod) && String.eqb (component pod) comp) pods).

Definition delete_unless_deleting (pod : option Pod) : M error :=
  match pod with
  | Some pod => if deleting pod then mret [] else delete_ignoring_absent pod None
  | None => mret []
  end.

(** A terminated control takes its worker and broker down with it. *)
Definition fence_terminated (worker broker : option Pod) : M verdict :=
  e ← delete_unless_deleting worker;
  if failed e then mret (stop res0 e) else
  e ← delete_broker_service;
  if failed e then mret (stop res0 e) else
  e ← delete_unless_deleting broker;
  mret (if failed e then stop res0 e else go_on).

(** A broken broker beside a sound worker, which a young control may still be
    turning into a verdict. *)
Definition broker_broken (worker broker : option Pod) : bool :=
  match worker, broker with
  | Some w, Some b => negb (deleting w) && negb (deleting b) && negb (topologyBroken w) && topologyBroken b
  | _, _ => false
  end.

Definition gone_or_deleting (pod : option Pod) : bool := match pod with None => true | Some p => deleting p end.
Definition broken (pod : option Pod) : bool := match pod with None => false | Some p => topologyBroken p end.

Definition ObserveTopology (secure : SecureConfig) (pods : list Pod) : M verdict :=
  run ← get;
  if negb (unset (DeletionTimestamp run)) then mret go_on else
  let worker := topology_pod pods ComponentWorker in
  let broker := topology_pod pods ComponentBroker in
  match topology_pod pods ComponentCoordinator with
  | None => mret go_on
  | Some control =>
      if controlTerminated control then fence_terminated worker broker else
      if deleting control then mret go_on else
      grace ← (if broker_broken worker broker
               then now ← clock; mret (controlWithinBrokerVerdictGrace control now) else mret false);
      if (grace : bool) then mret (stop (after secureRequeueDelay) []) else
      if gone_or_deleting worker || gone_or_deleting broker then fenceAndRelaunch secure else
      if broken worker || broken broker then fenceAndRelaunch secure else mret go_on
  end.

(** ** Pod loss *)

(** The scan of the live coordinators: nothing is decided while one is being
    deleted, and a live one means the cache lagged. *)
Inductive loss_scan := Deferred | Alive | Dead (dead : list Pod).

Fixpoint scan_loss (run : CoderRun) (pods : list Pod) (dead : list Pod) : loss_scan :=
  match pods with
  | [] => Dead dead
  | pod :: rest =>
      if negb (coordinator_of run pod) then scan_loss run rest dead else
      if deleting pod then Deferred else
      if coordinatorPodUnrecoverable pod then scan_loss run rest (dead ++ [pod]) else Alive
  end.

Fixpoint delete_all (pods : list Pod) : M error :=
  match pods with
  | [] => mret []
  | pod :: rest => e ← delete_ignoring_absent pod None; if failed e then mret e else delete_all rest
  end.

Definition observeMissingCoordinator : M outcome :=
  run ← get;
  pods ← live_pods;
  match pods with
  | Err _ => mret (after observationRequeueDelay, [])
  | Ok pods =>
      match scan_loss run pods [] with
      | Deferred => mret (after observationRequeueDelay, [])
      | Alive => mret (res0, [])
      | Dead dead =>
          let below := Restarts (Status run) <? maxRestarts in
          e ← (if below then delete_all dead else mret []);
          if failed e then mret (res0, e) else
          free ← (if below && match dead with [] => false | _ => true end then name_free else mret true);
          if negb (free : bool) then mret (after observationRequeueDelay, []) else
          e ← fence_if_secure;
          if failed e then mret (res0, e) else
          now ← clock;
          relaunchAfterInfraLoss podLostReason podLostEventReason
            (buildTerminalDiagnostic now None podLostReason "" "" true (head dead) "")
      end
  end.

(** A trusted infrastructure failure relaunches like a pod loss. *)
Definition relaunchInfrastructureFailure (pod : Pod) (kind : string) : M outcome :=
  e ← fence_if_secure;
  if failed e then mret (res0, e) else
  now ← clock;
  run ← get;
  let diagnostic := buildTerminalDiagnostic now None "" "" "" false (Some pod) kind in
  let below := Restarts (Status run) <? maxRestarts in
  e ← (if below then deleteObservedPod pod else mret []);
  if is_conflict e then mret (after observationRequeueDelay, []) else
  if failed e then mret (res0, e) else
  free ← (if below then name_free else mret true);
  if negb (free : bool) then mret (after observationRequeueDelay, []) else
  relaunchAfterInfraLoss infrastructureFailureCeilingReason infrastructureFailureEventReason diagnostic.

(** ** Silent coordinators *)

Fixpoint recent_start (css : list ContainerStatus) : M bool :=
  match css with
  | [] => mret false
  | cs :: rest =>
      match cs_Running cs with
      | Some start => now ← clock; if Sub now start <=? livenessWindow then mret true else recent_start rest
      | None => recent_start rest
      end
  end.

(** A coordinator pod young enough not to have heartbeaten yet. *)
Fixpoint fresh_pod (run : CoderRun) (pods : list Pod) : M bool :=
  match pods with
  | [] => mret false
  | pod :: rest =>
      if negb (coordinator_of run pod) || deleting pod then fresh_pod run rest else
      now ← clock;
      if Sub now (pod_CreationTimestamp pod) <=? livenessWindow then mret true else
      started ← recent_start (coordinator_statuses pod);
      if (started : bool) then mret true else fresh_pod run rest
  end.

(** The reap loop: what it deleted and what it preserved as evidence. *)
Inductive reap_loop := ReapFailed (e : error) | ReapConflict | Reaped (deleted preserved : bool).

Fixpoint reap_pods (atCeiling : bool) (run : CoderRun) (pods : list Pod) (deleted preserved : bool) : M reap_loop :=
  match pods with
  | [] => mret (Reaped deleted preserved)
  | pod :: rest =>
      if negb (coordinator_of run pod) then reap_pods atCeiling run rest deleted preserved else
      if deleting pod then reap_pods atCeiling run rest deleted preserved else
      if atCeiling && coordinatorPodUnrecoverable pod then reap_pods atCeiling run rest deleted true else
      e ← deleteObservedPod pod;
      if is_conflict e then mret ReapConflict else
      if failed e then mret (ReapFailed e) else reap_pods atCeiling run rest true preserved
  end.

Definition of_outcome (out : outcome) : verdict := stop out.1 out.2.

(** The reap itself, once the heartbeat of the current coordinator is stale. *)
Definition reap_wedged (livePods : list Pod) (atCeiling : bool) : M verdict :=
  run ← get;
  young ← fresh_pod run livePods;
  if (young : bool) then mret go_on else
  reaped ← reap_pods atCeiling run livePods false false;
  match reaped with
  | ReapFailed e => mret (res0, false, e)
  | ReapConflict => mret (stop (after observationRequeueDelay) [])
  | Reaped deleted preserved =>
      if negb (existsb (coordinator_of run) livePods) then mret go_on else
      free ← (if deleted && negb atCeiling then name_free else mret true);
      if negb (free : bool) then mret (stop (after observationRequeueDelay) []) else
      if negb deleted && negb preserved then mret (after observationRequeueDelay, false, []) else
      e ← fence_if_secure;
      if failed e then mret (stop res0 e) else
      now ← clock;
      out ← relaunchAfterInfraLoss "" ""
        (buildTerminalDiagnostic now None wedgedReapDiagnosticReason "" "" false (coordinatorPodOf livePods run) "");
      mret (of_outcome out)
  end.

(** The two views disagree on a coordinator only the cache still shows. *)
Definition vanished (cached : Pod) (atCeiling : bool) : M verdict :=
  if negb atCeiling then mret (stop (after observationRequeueDelay) []) else
  e ← fence_if_secure;
  if failed e then mret (stop res0 e) else
  now ← clock;
  out ← relaunchAfterInfraLoss podLostReason podLostEventReason
    (buildTerminalDiagnostic now None podLostReason "" "" true (Some cached) "");
  mret (of_outcome out).

(** A fresh heartbeat of the current incarnation ends the crashloop streak. *)
Definition reset_streak (alive : bool) : M verdict :=
  run ← get;
  if alive && negb (Restarts (Status run) =? 0) then
    before ← snapshot;
    _ ← assign (fun st => set_Restarts st 0);
    e ← patch before;
    mret (res0, false, e)
  else mret go_on.

Definition heartbeat_of (st : CoderRunStatus) (coordinator : option Pod) : bool :=
  match st_Heartbeat st, coordinator with
  | Some hb, Some pod => negb (String.eqb (hb_CoordinatorPodUID hb) "") && String.eqb (hb_CoordinatorPodUID hb) (pod_UID pod)
  | _, _ => false
  end.

Definition judge_liveness (cachedPods livePods : list Pod) : M verdict :=
  run ← get;
  let st := Status run in
  let atCeiling := maxRestarts <=? Restarts st in
  let coordinator := coordinatorPodOf livePods run in
  let uidMatched := heartbeat_of st coordinator in
  recent ← (match st_Heartbeat st with
            | Some hb => now ← clock; mret (Sub now (hb_At hb) <=? livenessWindow)
            | None => mret false
            end);
  if (recent : bool) then
    reset_streak (uidMatched && match coordinator with Some pod => negb (coordinatorPodUnrecoverable pod) | None => false end)
  else
  let settle :=
    if validActiveOperations run livePods then mret go_on else
    if negb uidMatched then mret go_on else reap_wedged livePods atCeiling in
  match coordinator with
  | Some _ => settle
  | None =>
      match coordinatorPodOf cachedPods run with
      | Some cached =>
          if negb (coordinatorPodUnrecoverable cached) then vanished cached atCeiling else
          if negb atCeiling && existsb (fun pod => coordinator_of run pod && deleting pod) livePods
          then mret (stop (after observationRequeueDelay) []) else settle
      | None =>
          if negb atCeiling && existsb (fun pod => coordinator_of run pod && deleting pod) livePods
          then mret (stop (after observationRequeueDelay) []) else settle
      end
  end.

Definition checkLiveness (cachedPods : list Pod) : M verdict :=
  run ← get;
  live ← io (GetRunLive (Namespace run) (run_Name run));
  match live with
  | Err _ => mret (stop (after observationRequeueDelay) [])
  | Ok live =>
      pods ← live_pods;
      match pods with
      | Err _ => mret (stop (after observationRequeueDelay) [])
      | Ok livePods =>
          let fresh := keyed (Namespace run) (run_Name run) live in
          if negb (String.eqb (UID fresh) (UID run)) || negb (String.eqb (Phase (Status fresh)) PhaseRunning)
          then mret go_on else on_copy fresh (judge_liveness cachedPods livePods)
      end
  end.

End Liveness.
