(* ===== verification/Observe.v ===== *)
(** * World observation (internal/controller/coderun_controller.go,
      merge_observation.go)

    A Running run is read from its pods: a terminated coordinator's trusted
    result or exit code gives the run's next phase, and the absence of one goes
    to liveness and pod loss.  A Verifying run is read from its pull request and
    checks; a settled AwaitingReview run re-reads its recorded pull request at a
    slow, durable cadence. *)

From S2P Require Import Prelude Effects GoStrings GoTime Run StatusPatch Lane Kube Reap Retry World Pods Report Capacity.
From S2P Require Import Terminal Checks CIPark Liveness.
Local Open Scope string_scope.
Local Open Scope Z_scope.

Definition mergeObservationRequeueDelay : Duration := 5 * Minute.
Definition mergeObservedAtAnnotation : string := "courier.misospace.dev/merge-observed-at".
Definition ConditionPullRequestClosedUnmerged : string := "PullRequestClosedUnmerged".
Definition ConditionReasonClosedUnmerged : string := "ClosedUnmerged".

Section Observe.
Context {CO : ConditionOps} {CD : Codec}.
Variable r : Reconciler.

Abbreviation outcome := Terminal.outcome.
Abbreviation transitionTerminal := (transitionTerminal r).

(** ** Verifying *)

Definition record_pr (pr : string) (st : CoderRunStatus) : CoderRunStatus := if String.eqb pr "" then st else set_PR st pr.

(** One write of the settle candidates. *)
Definition record_candidates (pr green failed_ : string) : M error :=
  before ← snapshot;
  _ ← assign (fun st => set_FailedCheckFingerprint (set_CheckFingerprint (record_pr pr st) green) failed_);
  patch before.

Definition settled_on (candidate recorded : string) : bool := negb (String.eqb candidate "") && String.eqb candidate recorded.

(** The ordinary grading of an observation no park owns. *)
Definition grade_failed (o : PRObservation) : M outcome :=
  run ← get;
  if String.eqb (sp_Mode (Spec run)) Mode_FixPR then transitionTerminal PhaseFailed (ob_PR o) intent_ci None else
  let fingerprint := checkSetFingerprint o in
  let settled := settled_on fingerprint (FailedCheckFingerprint (Status run)) in
  e ← record_candidates (ob_PR o) "" fingerprint;
  if failed e then mret (res0, e) else
  if settled then transitionTerminal PhaseHandedOff (ob_PR o) no_intent None
  else mret (after observationRequeueDelay, []).

Definition grade_open (o : PRObservation) (state : observationState) : M outcome :=
  run ← get;
  let fingerprint := match state with observationPassed => checkSetFingerprint o | _ => "" end in
  let settled := settled_on fingerprint (CheckFingerprint (Status run)) in
  e ← record_candidates (ob_PR o) fingerprint "";
  if failed e then mret (res0, e) else
  if negb settled then mret (after observationRequeueDelay, []) else
  run ← get;
  if DeclaredNoChange (Status run) && String.eqb (sp_Mode (Spec run)) Mode_FixPR then
    now ← clock; transitionTerminal PhaseBlockedExternal (ob_PR o) (no_change_hold now) None
  else transitionTerminal PhaseAwaitingReview (ob_PR o) no_intent None.

Definition grade (o : PRObservation) : M outcome :=
  match observeState o with
  | observationFailed => grade_failed o
  | observationNeedsHuman => transitionTerminal PhaseNeedsHuman (ob_PR o) no_intent None
  | state => grade_open o state
  end.

Definition observeVerifying : M outcome :=
  if negb (r_Observer r) then transitionTerminal PhaseNeedsHuman "" no_intent None else
  run ← get;
  o ← io (ObservePR (sp_Repo (Spec run)) (controllerHeadRef run));
  match o with
  | Err _ => mret (after observationRequeueDelay, [])
  | Ok o =>
      match observeState o with
      | observationMerged =>
          e ← abandonCIPark r o;
          if failed e then mret (res0, e) else transitionTerminal PhaseDone (ob_PR o) no_intent None
      | _ =>
          parked ← observeCIPark r o;
          let '(handled, (result, e)) := parked in
          if failed e then mret (res0, e) else if (handled : bool) then mret (result, []) else grade o
      end
  end.

(** ** Running *)

(** The container's own start time is recorded once. *)
Definition record_start (pod : Pod) : M error :=
  run ← get;
  let start := coordinatorContainerStart pod in
  if negb (unset (StartedAt (Status run))) || (start =? zero_time) then mret [] else
  before ← snapshot;
  _ ← assign (fun st =>
        let st := set_StartedAt st (Some start) in
        if String.eqb (WaitDuration st) "" then set_WaitDuration st (durationString (Sub start (CreationTimestamp run))) else st);
  patch before.

Definition enter_verifying (declared : bool) (t : Termination) : M outcome :=
  before ← snapshot;
  _ ← assign (fun st =>
        let st := if declared then set_DeclaredNoChange st true else st in
        let st := set_Phase st PhaseVerifying in
        match t_Summary t with Some summary => set_Telemetry st (Some summary) | None => st end);
  e ← patch before;
  if failed e then mret (res0, e) else
  _ ← emitPhaseTransition r PhaseVerifying [("exit_code", DInt (t_ExitCode t))];
  mret (requeue_now, []).

(** Workspace evidence for the endings the fenced capacity path recovers: the
    conditions it adds, [None] when the observation is still pending. *)
Definition acquire_evidence (pod : Pod) : M (result error (option (list Condition))) :=
  before ← snapshot;
  observed ← (match r_Secure r with
    | Some _ =>
        _ ← assign (fun st => match parseCoordinatorTermination pod with
                              | Some m => set_WorkspaceSafety st (boundedWorkspaceSafety (msg_WorkspaceSafety m))
                              | None => st
                              end);
        mret (Ok (Some []))
    | None =>
        o ← legacyWorkspaceObservation pod;
        match o with
        | Err e => mret (Err e)
        | Ok (_, true) => mret (Ok None)
        | Ok (safety, false) =>
            _ ← assign (fun st => set_WorkspaceSafety st safety);
            match safety with
            | Some _ => run ← get; now ← clock; mret (Ok (Some [legacyObservationCondition run now]))
            | None => mret (Ok (Some []))
            end
        end
    end);
  match observed with
  | Ok (Some conditions) =>
      run ← get;
      if bool_decide (WorkspaceSafety (Status before) = WorkspaceSafety (Status run)) then mret (Ok (Some conditions)) else
      e ← patch before;
      mret (if failed e then Err e else Ok (Some conditions))
  | other => mret other
  end.

Definition needs_evidence (pod : Pod) (t : Termination) (trusted : option NativeResult) : bool :=
  String.eqb (t_Outcome t) outcomeCapacityExhausted ||
  match trusted with Some n => String.eqb (nr_Kind n) NativeResultCapacityExhausted | None => false end ||
  trustedForgeUnavailableHandoff pod (t_Outcome t).

Definition ending_error (phase : string) (resolveNoChange : bool) (t : Termination) (trusted : option NativeResult) : string :=
  let blocked := if String.eqb phase PhaseBlockedExternal then t_Reason t else "" in
  if resolveNoChange then
    let reason := TrimSpace (t_Reason t) in
    if negb (String.eqb reason "") then reason else match trusted with Some n => nr_Reason n | None => "" end
  else blocked.

Definition terminalize (pod : Pod) (t : Termination) (trusted : option NativeResult) (phase : string)
    (resolveNoChange : bool) : M outcome :=
  evidence ← (if needs_evidence pod t trusted then acquire_evidence pod else mret (Ok (Some [])));
  match evidence with
  | Err e => mret (res0, e)
  | Ok None => mret (after observationRequeueDelay, [])
  | Ok (Some conditions) =>
      diagnostic ← (if member phase [PhaseFailed; PhaseNeedsHuman; PhaseBlockedExternal] then
                      now ← clock;
                      mret (Some (buildTerminalDiagnostic now (Some (t_ExitCode t)) "" (t_Outcome t)
                        (coordinatorHandoffCategory pod) (kubernetesFailureEvidence (Some pod) (coordinatorHandoffValid pod))
                        (Some pod) (match trusted with Some n => nr_Kind n | None => "" end)))
                    else mret None);
      transitionTerminal phase ""
        {| skipPRFixQueueMark := false; ciFailure := false; in_error := ending_error phase resolveNoChange t trusted;
           in_diagnostic := diagnostic; in_conditions := conditions |} (t_Summary t)
  end.

(** A no-change ending of a resolve-issue run: grounded or held. *)
Definition ground_no_change (pod : Pod) : M (string * bool) :=
  run ← get;
  match resolveIssueNoChangePhase run (pod_UID pod) with
  | (phase, true) => mret (phase, true)
  | (phase, false) =>
      grounded ← refreshFencedNoChange (pod_UID pod);
      mret (if (grounded : bool) then (PhaseAlreadyDone, true) else (phase, false))
  end.

Definition is_kind (trusted : option NativeResult) (kind : string) : bool :=
  match trusted with Some n => String.eqb (nr_Kind n) kind | None => false end.

(** A terminated coordinator that is not being deleted. *)
Definition classify_ending (pod : Pod) (t : Termination) : M outcome :=
  run ← get;
  let mode := sp_Mode (Spec run) in
  let trusted := trustedNativeResult run pod in
  if is_kind trusted NativeResultInfrastructureFailed then
    relaunchInfrastructureFailure r pod NativeResultInfrastructureFailed else
  let phase := match trusted with
               | Some n => phaseForNativeResult mode (nr_Kind n)
               | None => phaseForExit mode (t_ExitCode t) (t_Outcome t)
               end in
  let resolveNoChange := String.eqb mode Mode_ResolveIssue &&
    match trusted with
    | Some n => String.eqb (nr_Kind n) NativeResultNoChange
    | None => t_ExitCode t =? exitDeclaredNoChange
    end in
  ground ← (if resolveNoChange then ground_no_change pod else mret (phase, true));
  let '(phase, grounded) := ground in
  if String.eqb phase PhaseVerifying then
    enter_verifying ((String.eqb mode Mode_FixPR || String.eqb mode Mode_Rebase) &&
                     ((t_ExitCode t =? exitDeclaredNoChange) || is_kind trusted NativeResultNoChange)) t
  else
  out ← terminalize pod t trusted phase resolveNoChange;
  _ ← (if negb (failed out.2) && negb grounded then commentAlreadyDoneHold r else mret tt);
  mret out.

(** The scan of the run's pods: [None] when no coordinator has ended. *)
Fixpoint scan_pods (pods : list Pod) : M (option outcome) :=
  match pods with
  | [] => mret None
  | pod :: rest =>
      run ← get;
      if negb (podBelongsToRun pod run) then scan_pods rest else
      e ← record_start pod;
      if failed e then mret (Some (res0, e)) else
      match coordinatorTermination pod with
      | None => scan_pods rest
      | Some t => if deleting pod then scan_pods rest else out ← classify_ending pod t; mret (Some out)
      end
  end.

(** Liveness, then pod loss, when no coordinator has ended. *)
Definition watch_coordinator (pods : list Pod) : M outcome :=
  v ← checkLiveness r pods;
  let '(result, handled, e) := v in
  if failed e then mret (res0, e) else
  if (handled : bool) then mret (result, []) else
  if (0 <? RequeueAfter result) || Requeue result then mret (result, []) else
  run ← get;
  match coordinatorPodOf pods run with
  | Some pod => if coordinatorPodUnrecoverable pod then observeMissingCoordinator r else mret (res0, [])
  | None => observeMissingCoordinator r
  end.

Definition observeRunning : M outcome :=
  run ← get;
  pods ← io (ListPods false (Namespace run) None);
  match pods with
  | Err e => mret (res0, [EApi e])
  | Ok pods =>
      e ← syncSoftStop pods;
      if failed e then mret (res0, e) else
      run ← get;
      v ← (match r_Secure r with
           | Some secure => ObserveTopology r secure (List.filter (fun pod => podBelongsToRun pod run) pods)
           | None => mret go_on
           end);
      let '(result, handled, e) := v in
      if failed e || (handled : bool) then mret (result, e) else
      ended ← scan_pods pods;
      match ended with
      | Some out => mret out
      | None => watch_coordinator pods
      end
  end.

(** ** Merge observation *)

(** How long the slow observation must still wait. *)
Definition merge_remaining (now : Time) (run : CoderRun) : option Duration :=
  match Annotations run !! mergeObservedAtAnnotation with
  | None => None
  | Some raw =>
      match ParseRFC3339 raw with
      | None => None
      | Some stampedAt =>
          let elapsed := Sub now stampedAt in
          if (elapsed <? 0) || (mergeObservationRequeueDelay <=? elapsed) then None
          else Some (mergeObservationRequeueDelay - elapsed)
      end
  end.

Definition mergeObservationRemaining : M (option Duration) :=
  run ← get;
  match Annotations run !! mergeObservedAtAnnotation with
  | None => mret None
  | Some raw =>
      match ParseRFC3339 raw with
      | None => mret None
      | Some _ => now ← clock; mret (merge_remaining now run)
      end
  end.

Definition stampMergeObserved : M error :=
  before ← snapshot;
  now ← clock;
  run ← get;
  let stamped := set_Annotations run (<[mergeObservedAtAnnotation := FormatRFC3339 now]> (Annotations run)) in
  _ ← put stamped;
  answer ← kube (PatchMeta stamped before);
  mret (of_result EApi answer).

(** Stay in AwaitingReview and look again at the slow cadence. *)
Definition look_again : M outcome :=
  e ← stampMergeObserved; mret (if failed e then (res0, e) else (after mergeObservationRequeueDelay, [])).

Definition closed_unmerged (run : CoderRun) (number : Z) (now : Time) : terminalLifecycleIntent :=
  let identity := sp_Repo (Spec run) ++ "#" ++ Itoa number in
  {| skipPRFixQueueMark := false; ciFailure := false;
     in_error := "recorded pull request " ++ identity ++ " was closed without merge"; in_diagnostic := None;
     in_conditions := [{| c_Type := ConditionPullRequestClosedUnmerged; c_Status := ConditionTrue;
       c_Reason := ConditionReasonClosedUnmerged; c_Message := identity; c_ObservedGeneration := Generation run;
       c_LastTransitionTime := now |}] |}.

Definition observeMergedReviewPR : M outcome :=
  run ← get;
  if negb (forge_readable (r_Retry r)) then mret (res0, []) else
  let '(number, ok) := Atoi (TrimSpace (PR (Status run))) in
  if negb ok || (number <=? 0) || String.eqb (TrimSpace (st_Branch (Status run))) "" then mret (res0, []) else
  remaining ← mergeObservationRemaining;
  match remaining with
  | Some d => mret (after d, [])
  | None =>
      pull ← kube (ReadPullRequest (sp_Repo (Spec run)) number);
      match pull with
      | Err _ => look_again
      | Ok pull =>
          if negb (exactPullRequestIdentity run number pull) then look_again else
          if pull_Merged pull then transitionTerminal PhaseDone (PR (Status run)) no_intent None else
          if EqualFold (TrimSpace (pull_State pull)) "closed" then
            now ← clock; transitionTerminal PhaseNeedsHuman (PR (Status run)) (closed_unmerged run number now) None
          else look_again
      end
  end.

End Observe.
