(* ===== verification/Reconcile.v ===== *)
(** * The reconciler (internal/controller/coderun_controller.go)

    One reconcile of a CoderRun: the deployment boundary, ordered revocation of
    a deleting run, the evidence lifecycle, the reports the run still owes, and
    the dispatch on its phase: admission of a Pending run, resumption of a
    Claimed one, observation of Running and Verifying runs, and the duties of a
    terminal run. *)

From S2P Require Import Prelude Effects GoStrings GoTime Run StatusPatch Lane Kube Backoff Reap Retry World Pods Report.
From S2P Require Import Capacity Terminal Checks CIPark Liveness Observe.
Local Open Scope string_scope.
Local Open Scope Z_scope.

Definition secureTopologyFinalizer : string := "courier.misospace.dev/secure-topology".
Definition provisioningCollisionCondition : string := "ProvisioningCollision".
Definition provisioningCollisionStuckTerminatingReason : string := "StuckTerminatingPod".
Definition EvidenceLabelKey : string := "courier.misospace.dev/evidence".
Definition EvidenceConditionType : string := "EvidenceCaptured".
Definition EvidenceReasonCaptured : string := "Captured".

(** The text [resolveRunBranch] wraps a missing head repository in. *)
Definition head_gone_text (run : CoderRun) : string :=
  "coderun controller: pull request head repository is missing: " ++ sp_Mode (Spec run) ++ " head repository is empty".

Definition capCloseRetry (result : ctrl_result) (closeRetry : Duration) : ctrl_result :=
  if (0 <? closeRetry) && ((RequeueAfter result =? 0) || (closeRetry <? RequeueAfter result))
  then {| Requeue := Requeue result; RequeueAfter := closeRetry |} else result.

(** The error of the explicit-retry handler. *)
Definition of_retry_error (e : retry_error) : err :=
  match e with
  | RApi e => EApi e
  | RRegistry e => ERegistry e
  | RequeuerGone => EText "source no longer implements the retry capability"
  end.

Section Reconcile.
Context {CO : ConditionOps} {CD : Codec}.
Variable r : Reconciler.

Abbreviation outcome := Terminal.outcome.
Abbreviation transitionTerminal := (transitionTerminal r).
Abbreviation Sources := (r_Sources r).

Definition owns (namespace : string) : bool :=
  match r_OwnedNamespaces r with
  | _ :: _ => member namespace (r_OwnedNamespaces r)
  | [] => match r_Secure r with
          | Some secure => if String.eqb (sc_RunNamespace secure) "" then true else String.eqb namespace (sc_RunNamespace secure)
          | None => true
          end
  end.

(** ** Claims *)

Definition preLaunch (adapter : Adapter) (item : WorkItem) : M (result source_error unit) :=
  if is_prelauncher adapter then io (PreLaunch (adapter_id adapter) item) else mret (Ok tt).

Definition release (adapter : Adapter) (item : WorkItem) : M error :=
  answer ← io (Release (adapter_id adapter) item); mret (of_result ESource answer).

Definition back_to_pending (st : CoderRunStatus) : CoderRunStatus :=
  set_HeadSHA (set_HeadRepo (set_st_Branch (set_Phase st PhasePending) "") "") "".

Definition releaseClaim (adapter : Adapter) (item : WorkItem) (cause : error) : M error :=
  releaseErr ← release adapter item;
  before ← snapshot;
  _ ← assign back_to_pending;
  statusErr ← patch before;
  mret (cause ++ releaseErr ++ statusErr)%list.

Definition rejectClaim (adapter : Adapter) (item : WorkItem) (cause : error) : M error :=
  if Is cause ErrStaleWork then
    releaseErr ← release adapter item;
    run ← get;
    deleted ← io (DeleteRunObject (Namespace run) (run_Name run));
    mret (cause ++ releaseErr ++ of_result EApi deleted)%list
  else releaseClaim adapter item cause.

Definition released (adapter : Adapter) (item : WorkItem) (cause : error) : M outcome :=
  e ← releaseClaim adapter item cause; mret (res0, e).

(** ** Endings of an admission *)

Definition terminateNeedsHuman (adapter : Adapter) (item : WorkItem) (detail : string) : M outcome :=
  releaseErr ← release adapter item;
  out ← transitionTerminal PhaseNeedsHuman "" (intent_error detail) None;
  mret (out.1, releaseErr ++ out.2)%list.

Definition terminateMissingHead : M outcome :=
  run ← get;
  match adapterAndWorkItem Sources run with
  | Err e => mret (res0, [ERegistry e])
  | Ok (adapter, item) =>
      _ ← assign (fun st => set_HeadSHA (set_HeadRepo (set_st_Branch st "") "") "");
      terminateNeedsHuman adapter item (head_gone_text run)
  end.

Definition provisioningCollisionGrace : Duration :=
  if 0 <? r_ProvisioningCollisionGrace r then r_ProvisioningCollisionGrace r else defaultProvisioningCollisionGrace.

Definition collision_pod (c : ProvisioningCollision) : string := "coordinator pod " ++ pc_PodName c ++ " (uid " ++ pc_PodUID c ++ ")".

Definition collision_intent (c : ProvisioningCollision) (now : Time) : terminalLifecycleIntent :=
  let grace := DurationString provisioningCollisionGrace in
  {| skipPRFixQueueMark := false; ciFailure := false; in_diagnostic := None;
     in_error := collision_pod c ++ " has been Terminating since " ++ FormatRFC3339 (pc_Since c) ++ ", beyond the " ++ grace ++
                 " provisioning-collision grace; the slot is blocked and a human must clear it";
     in_conditions := [mk_condition provisioningCollisionCondition ConditionTrue provisioningCollisionStuckTerminatingReason
       (collision_pod c ++ " stuck Terminating beyond " ++ grace ++ " provisioning-collision grace") now] |}.

Definition terminateStuckTerminatingCollision (adapter : Adapter) (item : WorkItem) (c : ProvisioningCollision) : M outcome :=
  now ← clock;
  if Sub now (pc_Since c) <? provisioningCollisionGrace then mret (after provisioningInFlightRequeueDelay, []) else
  releaseErr ← release adapter item;
  now ← clock;
  out ← transitionTerminal PhaseNeedsHuman "" (collision_intent c now) None;
  mret (out.1, releaseErr ++ out.2)%list.

Definition armed : M error :=
  fun run => '(run', answer) ← lift (fun _ e => Kube e) (armPreflightBackoff run); Ret (run', of_result EApi answer).

Definition secureLaunchFailure (adapter : Adapter) (item : WorkItem) (cause : error) : M outcome :=
  match launchRejection cause with
  | Some (_, detail) =>
      fenceErr ← Fence;
      if failed fenceErr then released adapter item fenceErr else transitionNeedsHuman r detail
  | None =>
      armErr ← (match AsNeedsHuman cause with Some _ => armed | None => mret [] end);
      released adapter item (cause ++ armErr)%list
  end.

(** ** Secure admission *)

Definition needs_human (reason detail : string) : error := [ENeedsHuman reason detail].

Definition VerifyPersistedPolicy (run : CoderRun) (policy : PublicationPolicy) : option string :=
  if String.eqb (pp_RunUID policy) (UID run) then None else
  Some ("persisted publication policy is bound to run UID " ++ Quote (pp_RunUID policy) ++ ", not this incarnation " ++ Quote (UID run)).

(** The registry still selects the registration the policy was pinned to. *)
Definition registration_matches (secure : SecureConfig) (run : CoderRun) (policy : PublicationPolicy) : bool :=
  match sc_SelectRegistration secure (sp_Repo (Spec run)) with
  | Some g => String.eqb (rg_Name g) (pp_ProviderConfigRef policy) && String.eqb (rg_Endpoint g) (pp_ProviderEndpoint policy) &&
              String.eqb (rg_Digest g) (pp_CredentialRefDigest policy)
  | None => false
  end.

Definition verify_policy (secure : SecureConfig) (run : CoderRun) (policy : PublicationPolicy) : error :=
  match VerifyPersistedPolicy run policy with
  | Some m => needs_human "PolicyCorrupt" m
  | None =>
      if negb (registration_matches secure run policy) then
        needs_human "PolicyConflict" "the provider registry no longer matches this run's persisted policy" else
      match sc_VerifyCriteria secure policy with
      | Some m => needs_human "PolicyCorrupt" m
      | None => []
      end
  end.

Definition resolveLaneSkillPins (secure : SecureConfig) : M (result error (list SkillPin)) :=
  run ← get;
  lane ← io (GetLane false (Namespace run) (sp_Lane (Spec run)));
  mret (match lane with
        | Err e => Err [EApi e]
        | Ok lane =>
            match sc_SelectSkills secure (Skills (lp_Spec lane)) with
            | Ok pins => Ok pins
            | Err m => Err (needs_human laneConfigReason ("lane " ++ Quote (lp_Name lane) ++ " skill selection: " ++ m))
            end
        end).

Definition resolvePersistSecurePolicy (secure : SecureConfig) : M error :=
  run ← get;
  let drifted := SkillPins (Status run) ≫= sc_VerifySkills secure in
  match drifted with
  | Some m => mret (needs_human "SkillPinConflict" m)
  | None =>
      match st_PublicationPolicy (Status run) with
      | Some policy => mret (verify_policy secure run policy)
      | None =>
          pins ← resolveLaneSkillPins secure;
          match pins with
          | Err e => mret e
          | Ok pins =>
              policy ← io (ResolveAdmission run);
              match policy with
              | Err e => mret e
              | Ok policy =>
                  before ← snapshot;
                  _ ← assign (fun st => set_SkillPins (set_st_PublicationPolicy st (Some policy)) (Some pins));
                  patch before
              end
          end
      end
  end.

(** ** Launch *)

(** Record the launched run as Running. *)
Definition record_running (before : CoderRun) : M outcome :=
  _ ← assign (fun st => set_Phase st PhaseRunning);
  e ← patch before;
  if failed e then mret (res0, e) else
  run ← get;
  _ ← emitPhaseTransition r PhaseRunning [("branch", DString (st_Branch (Status run))); ("lane", DString (sp_Lane (Spec run)))];
  mret (res0, []).

Definition clear_backoff : M unit :=
  fun run => run' ← lift (fun _ e => Kube e) (clearPreflightBackoffAfterLaunch run); Ret (run', tt).

Definition launch_run (adapter : Adapter) (item : WorkItem) : M outcome :=
  before ← snapshot;
  run ← get;
  match r_Secure r with
  | Some _ =>
      answer ← io (LaunchSecure run);
      let '(result, e) := answer in
      if failed e then secureLaunchFailure adapter item e else
      _ ← clear_backoff;
      if Requeue result || (0 <? RequeueAfter result) then mret (result, []) else record_running before
  | None =>
      e ← io (Launch run);
      if negb (failed e) then record_running before else
      match launchRejection e with
      | Some (_, detail) => terminateNeedsHuman adapter item detail
      | None =>
          if isProvisioningInFlight e then
            match AsCollision e with
            | Some collision => terminateStuckTerminatingCollision adapter item collision
            | None => mret (after provisioningInFlightRequeueDelay, [])
            end
          else released adapter item e
      end
  end.

(** Resolve the work branch and persist it. *)
Definition resolve_head (adapter : Adapter) (item : WorkItem) (go : M outcome) : M outcome :=
  head ← lifted (fun run => h ← resolveRunBranch run (r_PRHeadResolver r); Ret (run, h));
  match head with
  | Err ErrHeadRepositoryGone => terminateMissingHead
  | Err e => released adapter item [EBranch e]
  | Ok head =>
      before ← snapshot;
      _ ← assign (fun st => set_HeadSHA (set_HeadRepo (set_st_Branch st (hr_Branch head)) (hr_Repo head)) (hr_SHA head));
      e ← patch before;
      if failed e then released adapter item e else go
  end.

Definition backoff_gate : M (option Duration) :=
  run ← get;
  match Annotations run !! preflightFailedAtAnnotation with
  | None => mret None
  | Some _ => now ← clock; let '(d, waits) := preflightBackoffRemaining now run in mret (if waits then Some d else None)
  end.

Definition resumeClaimed : M outcome :=
  gate ← backoff_gate;
  match gate with
  | Some d => mret (after d, [])
  | None =>
      e ← (match r_Secure r with Some secure => resolvePersistSecurePolicy secure | None => mret [] end);
      match AsNeedsHuman e with
      | Some (_, detail) => transitionNeedsHuman r detail
      | None =>
          if failed e then mret (res0, e) else
          run ← get;
          match adapterAndWorkItem Sources run with
          | Err e => mret (res0, [ERegistry e])
          | Ok (adapter, item) =>
              if negb (r_Launch r) then mret (res0, []) else
              let go :=
                ready ← preLaunch adapter item;
                match ready with
                | Err e => w ← rejectClaim adapter item [ESource e]; mret (res0, w)
                | Ok _ =>
                    moved ← io (Transition (adapter_id adapter) item StateInProgress);
                    match moved with
                    | Err e => mret (res0, [ESource e])
                    | Ok _ => launch_run adapter item
                    end
                end in
              if String.eqb (TrimSpace (st_Branch (Status run))) "" then resolve_head adapter item go else go
          end
      end
  end.

(** ** Admission *)

Definition set_context (item : WorkItem) (context : string) : WorkItem :=
  {| wi_Context := context; wi_ID := wi_ID item; wi_Mode := wi_Mode item; wi_Repo := wi_Repo item; wi_Ref := wi_Ref item;
     wi_Lane := wi_Lane item; wi_Debug := wi_Debug item; wi_Assignment := wi_Assignment item |}.

(** The claim, with the receipt when the source issues one. *)
Definition claim (adapter : Adapter) (item : WorkItem) : M (result error WorkItem) :=
  if is_receipt_claimer adapter then
    answer ← io (ClaimWithReceipt (adapter_id adapter) item);
    mret (match answer with
          | Err e => Err [ESource e]
          | Ok claimed => if MaxSourceContextBytes <? slen (wi_Context claimed)
                          then Err [EText "source claim returned oversized receipt"]
                          else Ok (set_context item (wi_Context claimed))
          end)
  else
    answer ← io (Claim (adapter_id adapter) item);
    mret (match answer with Err e => Err [ESource e] | Ok _ => Ok item end).

(** The reservation is persisted before anything is launched. *)
Definition admitted (adapter : Adapter) (item : WorkItem) (now : Time) (st : CoderRunStatus) : CoderRunStatus :=
  let st := set_Phase st PhaseClaimed in
  let st := if is_receipt_claimer adapter then set_SourceReceipt st (wi_Context item) else st in
  match AdmittedAt st with Some _ => st | None => set_AdmittedAt st (Some now) end.

(** The launch of an admitted run, after its branch is persisted. *)
Definition start_admitted (adapter : Adapter) (item : WorkItem) : M outcome :=
  ready ← (if r_Launch r then preLaunch adapter item else mret (Ok tt));
  match ready with
  | Err e => w ← rejectClaim adapter item [ESource e]; mret (res0, w)
  | Ok _ =>
      e ← (match r_Secure r with Some secure => resolvePersistSecurePolicy secure | None => mret [] end);
      match AsNeedsHuman e with
      | Some (_, detail) => transitionNeedsHuman r detail
      | None =>
          if failed e then released adapter item e else
          if negb (r_Launch r) then mret (res0, []) else
          moved ← io (Transition (adapter_id adapter) item StateInProgress);
          match moved with
          | Err e => released adapter item [ESource e]
          | Ok _ => launch_run adapter item
          end
      end
  end.

Definition admit_run (adapter : Adapter) (item : WorkItem) : M outcome :=
  claimed ← claim adapter item;
  match claimed with
  | Err e => mret (res0, e)
  | Ok item =>
      before ← snapshot;
      run ← get;
      now ← (if unset (AdmittedAt (Status run)) then clock else mret 0);
      _ ← assign (admitted adapter item now);
      e ← patch before;
      if failed e then releaseErr ← release adapter item; mret (res0, e ++ releaseErr)%list else
      resolve_head adapter item (start_admitted adapter item)
  end.

Definition admitPending : M outcome :=
  run ← get;
  match adapterAndWorkItem Sources run with
  | Err e => mret (res0, [ERegistry e])
  | Ok (adapter, item) =>
      lane ← io (GetLane false (Namespace run) (sp_Lane (Spec run)));
      match lane with
      | Err e => mret (res0, [EApi e])
      | Ok lane =>
          if Suspended lane then mret (after capacityRequeueDelay, []) else
          lanes ← io (ListLanes false (Namespace run));
          match lanes with
          | Err e => mret (res0, [EApi e])
          | Ok lanes =>
              now ← clock;
              match CapacityCooldownActive lane lanes now with
              | Some _ => mret (after capacityRequeueDelay, [])
              | None =>
                  runs ← io (ListRunsLive (Namespace run));
                  match runs with
                  | Err e => mret (res0, [EApi e])
                  | Ok runs =>
                      if negb (laneHasCapacity runs (sp_Lane (Spec run)) (Concurrency (lp_Spec lane)))
                      then mret (after capacityRequeueDelay, []) else
                      gate ← backoff_gate;
                      match gate with
                      | Some d => mret (after d, [])
                      | None => admit_run adapter item
                      end
                  end
              end
          end
      end
  end.

(** ** Terminal duties *)

Definition lift_reap (p : CoderRun -> prog kubeE (result api_error requeue)) : M outcome :=
  fun run => answer ← lift (fun _ e => Kube e) (p run);
             Ret (run, match answer with Ok d => (after d, []) | Err e => (res0, [EApi e]) end).

Definition sync_retry : M (ctrl_result * bool * error) :=
  fun run => out ← lift (fun _ e => Kube e) (syncRetry (r_Retry r) run);
             Ret (out_run out, (after (out_wait out), out_handled out, match out_err out with Some e => [of_retry_error e] | None => [] end)).

Definition resolveCompleted : M outcome :=
  run ← get;
  let reap := lift_reap (reapDone (r_Reap r)) in
  match reapMarker run doneAtAnnotation with
  | Some _ => reap
  | None =>
      match adapterAndWorkItem Sources run with
      | Err e => mret (res0, [ERegistry e])
      | Ok (adapter, item) =>
          answer ← io (Resolve (adapter_id adapter) item);
          match answer with
          | Err e => if wraps_sentinel e ErrPermanentRefusal then reap else mret (res0, [ESource e])
          | Ok _ => reap
          end
      end
  end.

(** Evidence is deleted once the work landed and noted when the run failed. *)
Definition reconcileEvidence : M error :=
  run ← get;
  let phase := Phase (Status run) in
  if negb (r_Evidence r) then mret [] else
  if member phase [PhaseAwaitingReview; PhaseDone; PhaseAlreadyDone] then io (DeleteEvidence run) else
  if member phase [PhaseFailed; PhaseNeedsHuman; PhaseBlockedExternal] then
    secrets ← io (ListEvidence run);
    match secrets with
    | Err e => mret e
    | Ok 0%nat => mret []
    | Ok _ =>
        before ← snapshot;
        now ← clock;
        _ ← assign (with_condition {| c_Type := EvidenceConditionType; c_Status := ConditionTrue; c_Reason := EvidenceReasonCaptured;
              c_Message := "failure evidence Secrets exist; retrieve by label " ++ EvidenceLabelKey ++ "=" ++ RunLabelValue (run_Name run);
              c_ObservedGeneration := Generation run; c_LastTransitionTime := now |});
        now ← get;
        if bool_decide (Conditions (Status now) = Conditions (Status before)) then mret [] else patch before
    end
  else mret [].

(** A fence a terminal run still carries is settled as owed. *)
Definition settle_stale_fence : M (result error bool) :=
  run ← get;
  if unset (CIRepair (Status run)) then mret (Ok false) else
  before ← snapshot;
  _ ← assign (abandonCIRepairAttempt run);
  e ← patch before;
  run ← get;
  mret (if failed e then Err e else Ok (negb (unset (st_CISettlement (Status run))))).

Definition terminal_retention : M outcome :=
  run ← get;
  let st := Status run in
  if negb (lifecycleReportSettled run) then mret (res0, []) else
  if negb (unset (st_CISettlement st)) || negb (unset (st_CIParkRelease st)) || retryHoldsReap run then mret (res0, []) else
  lift_reap (fun run => if String.eqb (Phase st) PhaseFailed
                        then reapTerminal (r_Reap r) run failedAtAnnotation (failedRetention (r_Reap r)) true
                        else reapTerminal (r_Reap r) run needsHumanAtAnnotation (needsHumanRetention (r_Reap r)) true).

Definition terminal_duties : M outcome :=
  run ← get;
  let st := Status run in
  if lifecycleReportPending st then
    if lifecycleReportUnsupported st && negb (lifecycleReportRetryRequested run) then mret (res0, [])
    else retryTerminalLifecycle r
  else if String.eqb (Phase st) PhaseAwaitingReview then
    if lifecycleReportSettled run then observeMergedReviewPR r else mret (res0, [])
  else if String.eqb (Phase st) PhaseAlreadyDone then
    if lifecycleReportSettled run then lift_reap (reapAlreadyDone (r_Reap r)) else mret (res0, [])
  else if member (Phase st) [PhaseFailed; PhaseNeedsHuman] && negb (isCapacityExhaustionRun st) then terminal_retention
  else if isCapacityExhaustionRun st && capacityRecoveryPending st then
    match adapterAndWorkItem Sources run with
    | Err e => mret (res0, [ERegistry e])
    | Ok (adapter, item) => recoverCapacityExhaustion r adapter item
    end
  else mret (res0, []).

Definition reconcileTerminal : M outcome :=
  fenced ← settle_stale_fence;
  match fenced with
  | Err e => mret (res0, e)
  | Ok true => mret (after ciparkSettlementRetryDelay, [])
  | Ok false =>
      retried ← sync_retry;
      let '(result, handled, e) := retried in
      if failed e then mret (res0, e) else
      if (handled : bool) then mret (result, []) else
      run ← get;
      e ← (if isCapacityExhaustionRun (Status run) then recordCapacityCooldown r else mret []);
      if failed e then mret (res0, e) else terminal_duties
  end.

(** ** The reconcile *)

(** The owed park notice: delivered while the run is live, else dropped. *)
Definition present_notice : M error :=
  run ← get;
  match st_CIParkDeferral (Status run) with
  | None => mret []
  | Some _ =>
      if member (Phase (Status run)) [PhaseVerifying; PhaseClaimed; PhaseRunning] then _ ← deliverCIParkNotice r; mret [] else
      before ← snapshot;
      _ ← assign (fun st => set_st_CIParkDeferral st None);
      patch before
  end.

Definition dispatch (closeRetry : Duration) : M outcome :=
  run ← get;
  let phase := Phase (Status run) in
  if String.eqb phase PhaseRunning then observeRunning r else
  if String.eqb phase PhaseVerifying then observeVerifying r else
  if String.eqb phase PhaseClaimed then resumeClaimed else
  if String.eqb phase PhaseDone then resolveCompleted else
  if negb (String.eqb phase "") && negb (String.eqb phase PhasePending) then
    out ← reconcileTerminal;
    let '(result, e) := out in
    if failed e && (closeRetry =? 0) then mret (res0, e) else mret (capCloseRetry result closeRetry, [])
  else admitPending.

Definition live_phase (phase : string) : bool := member phase [PhaseVerifying; PhaseClaimed; PhaseRunning].
Definition reported_phase (phase : string) : bool :=
  member phase [PhaseAwaitingReview; PhaseHandedOff; PhaseNeedsHuman; PhaseFailed; PhaseBlockedExternal].

Definition pending (d : delivery) : bool := negb (unset d).

Definition reconcile_live : M outcome :=
  run ← get;
  _ ← io (ObserveExecution run);
  e ← reconcileEvidence;
  if failed e then mret (res0, e) else
  e ← present_notice;
  if failed e then mret (res0, e) else
  settlement ← deliverCISettlement r;
  release ← deliverCIParkRelease r;
  let closePending := pending settlement || pending release in
  run ← get;
  let phase := Phase (Status run) in
  if closePending && negb (live_phase phase) && negb (reported_phase phase) then mret (after ciparkSettlementRetryDelay, []) else
  dispatch (if closePending && reported_phase phase then ciparkSettlementRetryDelay else 0).

Definition revoke : M (result error bool) :=
  run ← get;
  answer ← io (Revoke run);
  let '(done, e) := answer in
  if failed e then mret (Err e) else
  if negb (done : bool) then mret (Ok false) else
  e ← io (RemoveFinalizer run);
  mret (if failed e then Err e else Ok true).

Definition reconcile_read : M outcome :=
  run ← get;
  if unset (DeletionTimestamp run) then reconcile_live else
  match r_Secure r with
  | Some _ =>
      if member secureTopologyFinalizer (Finalizers run) then
        revoked ← revoke;
        mret (match revoked with
              | Err e => (res0, e)
              | Ok false => (after secureRequeueDelay, [])
              | Ok true => (res0, [])
              end)
      else mret (res0, [])
  | None => mret (res0, [])
  end.

Definition Reconcile (ns name : string) : prog worldE outcome :=
  if negb (owns ns) then Ret (res0, []) else
  answer ← call (GetRunCached ns name);
  match answer with
  | Err e =>
      _ ← (if IsNotFound e then call (ForgetExecution ns name) else Ret tt);
      Ret (res0, if IsNotFound e then [] else [EApi e])
  | Ok run => '(_, out) ← reconcile_read (keyed ns name run); Ret out
  end.

End Reconcile.
