(* ===== verification/Protocol.v ===== *)
(** * The protocol of a reconcile

    One automaton reads the trace of a reconcile and tracks the phase the run
    is known to have persisted and the repair attempts it is known to carry.
    It refuses a phase write that is not an edge of the phase machine, any
    phase write after a failed one, a source report that does not carry the
    key of the persisted terminal phase, a claim, launch, reservation,
    settlement, resolution or deletion outside its phase, the deletion of a
    live coordinator without the identity that was observed, and a write that
    drops a fenced repair attempt without recording the settlement it owes.

    The files that follow prove, handler by handler, that no execution of
    [Reconcile] is ever refused. *)

From S2P Require Import Prelude Effects GoStrings GoTime Run StatusPatch Lane Kube Backoff Reap Retry World Logic Pods Report.
From S2P Require Import Capacity Terminal Liveness.
Local Open Scope string_scope.
Local Open Scope Z_scope.

(** ** The phase machine *)

Definition successors (phase : string) : list string :=
  if member phase [""; PhasePending] then [PhaseClaimed] else
  if String.eqb phase PhaseClaimed then [PhasePending; PhaseRunning; PhaseNeedsHuman] else
  if String.eqb phase PhaseRunning then
    [PhaseVerifying; PhaseClaimed; PhaseFailed; PhaseNeedsHuman; PhaseBlockedExternal; PhaseAwaitingReview; PhaseAlreadyDone] else
  if String.eqb phase PhaseVerifying then
    [PhaseDone; PhaseHandedOff; PhaseFailed; PhaseNeedsHuman; PhaseAwaitingReview; PhaseBlockedExternal; PhaseClaimed] else
  if String.eqb phase PhaseAwaitingReview then [PhaseDone; PhaseNeedsHuman] else
  if String.eqb phase PhaseAlreadyDone then [PhaseNeedsHuman] else [].

Definition edge (old new : string) : bool := member new (successors old).

Definition ending (phase : string) : bool :=
  member phase [PhaseAwaitingReview; PhaseHandedOff; PhaseNeedsHuman; PhaseDone; PhaseAlreadyDone; PhaseFailed; PhaseBlockedExternal].

(** ** The automaton *)

(** [w_phase]: the persisted phase, unknown after a failed phase write.
    [w_repairs]: the repair attempts the run is known to carry.  [w_free]: a
    live read found a repair whose settlement was already recorded. *)
Record watch := { w_phase : option string; w_repairs : list (option CIRepairContext); w_free : bool }.

(** The settlement a run owes is not that of the attempt in flight. *)
Definition distinct (st : CoderRunStatus) : bool :=
  match CIRepair st, st_CISettlement st with
  | Some a, Some s => negb (String.eqb (cs_FenceToken s) (rep_FenceToken a))
  | _, _ => true
  end.

(** A write that ends a repair settles its fence when it has one. *)
Definition settled_by (settlement : raw CISettlement) (repair : option CIRepairContext) : bool :=
  match repair with
  | None => false
  | Some a =>
      String.eqb (rep_FenceToken a) "" ||
      match settlement with Value s => String.eqb (cs_FenceToken s) (rep_FenceToken a) | _ => false end
  end.

(** A repair is armed with the park it repairs, whose account it consumed. *)
Definition armed_with (park : raw CIParkState) (a : CIRepairContext) : bool :=
  match park with
  | Value p => String.eqb (park_Head p) (rep_Head a) && (park_Attempts p =? rep_Attempt a)
  | _ => false
  end.

Definition repair_write (s : watch) (fields : OperatorPatch) : bool :=
  match op_CIRepair fields with
  | Null => w_free s || existsb (settled_by (op_CISettlement fields)) (w_repairs s)
  | Value a => armed_with (op_CIPark fields) a && String.eqb (op_Phase fields) PhaseClaimed
  | Omit => match op_CIPark fields with Omit => true | _ => existsb unset (w_repairs s) end
  end.

(** Done is written only in an execution in which the forge shows a merge. *)
Definition phase_write {AS : Assume} (s : watch) (fields : OperatorPatch) : bool :=
  String.eqb (op_Phase fields) "" ||
  match w_phase s with Some old => edge old (op_Phase fields) | None => false end &&
  (negb (String.eqb (op_Phase fields) PhaseDone) || merge_seen).

Definition after_write (s : watch) (fields : OperatorPatch) (ok : bool) : watch :=
  {| w_phase := if String.eqb (op_Phase fields) "" then w_phase s else if ok then Some (op_Phase fields) else None;
     w_repairs := match op_CIRepair fields with
                  | Omit => w_repairs s
                  | Null => if ok then None :: w_repairs s else w_repairs s
                  | Value a => if ok then Some a :: w_repairs s else w_repairs s
                  end;
     w_free := w_free s |}.

(** A coordinator that may still be alive is deleted only under the identity
    that was observed; the pods fenced by name are workers and brokers. *)
Definition exact_delete (pod : Pod) (uid : option string) : bool :=
  match uid with Some u => String.eqb u (pod_UID pod) | None => false end ||
  podPhaseTerminal (pod_Phase pod) || member (component pod) [ComponentWorker; ComponentBroker].

Section Monitor.
Context {AS : Assume}.
Variable id : CoderRun.

(** In a phase of the list. *)
Definition within (phases : list string) (s : watch) : bool :=
  match w_phase s with Some q => member q phases | None => false end.

(** A report carries the key of the persisted terminal phase. *)
Definition reports_phase (s : watch) (lc : Lifecycle) : bool :=
  match w_phase s with
  | Some q => ending q && String.eqb (lc_IdempotencyKey lc) (lifecycleIdempotencyKey id q)
  | None => false
  end.

Definition legal (s : watch) (a : action) : bool :=
  match a with
  | AWrite fields _ => phase_write s fields && repair_write s fields
  | AClaim _ => within [""; PhasePending] s
  | ARelease => match w_phase s with Some q => String.eqb q PhaseClaimed | None => true end
  | ADeleteRun | ALaunch => within [PhaseClaimed] s
  | ATransition state =>
      match w_phase s with
      | Some q => ending q || (String.eqb q PhaseClaimed && String.eqb state StateInProgress)
      | None => false
      end
  | AReport lc _ => reports_phase s lc
  | AClose lc _ => within [PhaseAlreadyDone] s && reports_phase s lc
  | APrepare _ _ | ASettle _ => within [PhaseBlockedExternal] s
  | AReserve _ _ => within [PhaseVerifying] s
  | AResolve => within [PhaseDone] s
  | ADeletePod pod uid => within [PhaseRunning; PhaseClaimed] s && exact_delete pod uid
  | _ => true
  end.

Definition advance (s : watch) (a : action) : watch :=
  match a with
  | AWrite fields ok => after_write s fields ok
  | ALive run => {| w_phase := w_phase s; w_repairs := CIRepair (Status run) :: w_repairs s;
                    w_free := w_free s || negb (distinct (Status run)) |}
  | _ => s
  end.

Definition protocol (s : watch) (a : action) : option watch := if legal s a then Some (advance s a) else None.

#[export] Instance protocol_quiet : Quiet protocol.
Proof. split. reflexivity. Qed.

(** ** What a handler carries *)

(** The parts of the run the automaton depends on. *)
Definition core_st (st : CoderRunStatus) : string * option CIRepairContext * option CIParkState :=
  (Phase st, CIRepair st, CIPark st).
Definition core (run : CoderRun) :=
  (Namespace run, run_Name run, UID run, Spec run, core_st (Status run)).

(** [like]: the same core, and no settlement beyond the one it had. *)
Definition settles_less (st' st : CoderRunStatus) : Prop :=
  st_CISettlement st' = st_CISettlement st \/ st_CISettlement st' = None.
Definition like_st (st' st : CoderRunStatus) : Prop := core_st st' = core_st st /\ settles_less st' st.
Definition like (run' run : CoderRun) : Prop := core run' = core run /\ settles_less (Status run') (Status run).

Lemma like_refl run : like run run.
Proof. split; [done|by left]. Qed.

Lemma like_trans a b c : like a b -> like b c -> like a c.
Proof. intros [H1 [E1|E1]] [H2 [E2|E2]]; split; unfold settles_less in *; intuition congruence. Qed.

#[export] Instance like_preorder : PreOrder like.
Proof. split; [exact like_refl|exact like_trans]. Qed.

Lemma like_core run' run : like run' run -> core run' = core run.
Proof. by intros []. Qed.

Lemma like_status run st : like_st st (Status run) -> like (set_Status run st) run.
Proof. intros [Hc Hs]. split; [|done]. unfold core. cbn. by rewrite Hc. Qed.

(** The run in memory agrees with what the automaton knows. *)
Record good (run : CoderRun) (s : watch) : Prop := {
  good_phase : w_phase s = Some (Phase (Status run));
  good_repair : In (CIRepair (Status run)) (w_repairs s);
  good_distinct : w_free s || distinct (Status run) = true;
  good_ns : Namespace run = Namespace id;
  good_name : run_Name run = run_Name id;
  good_uid : UID run = UID id
}.

Lemma good_like run run' s : like run' run -> good run s -> good run' s.
Proof.
  unfold like, core, core_st, settles_less. intros [Hc Hs] [Hp Hr Hd Hn Hm Hu].
  injection Hc as Hn' Hm' Hu' _ Hp' Hr' _. constructor; try congruence.
  destruct (w_free s); [done|]. unfold distinct in *. rewrite Hr'.
  destruct Hs as [->| ->]; [done|]. by destruct (CIRepair (Status run)).
Qed.

Lemma good_key run s phase : good run s -> lifecycleIdempotencyKey run phase = lifecycleIdempotencyKey id phase.
Proof. intros [_ _ _ Hn Hm Hu]. unfold lifecycleIdempotencyKey. by rewrite Hn, Hm, Hu. Qed.

(** A handler that leaves the automaton and the core of the run as they are. *)
Class Keeps {A} (p : M A) : Prop :=
  keeps : forall run s, good run s -> spec protocol p run s (fun s' run' _ => s' = s /\ like run' run).

Lemma spec_keeps {A} (p : M A) {K : Keeps p} run s (Q : watch -> CoderRun -> A -> Prop) :
  good run s -> (forall run' a, like run' run -> good run' s -> Q s run' a) -> spec protocol p run s Q.
Proof.
  intros Hg HQ. eapply spec_mono; [by apply keeps|]. intros s' run' a [-> Hc].
  apply HQ; [done|]. by eapply good_like.
Qed.

(** A write between two copies with the same core is neutral. *)
Lemma neutral_fields before st :
  core_st before = core_st st ->
  op_Phase (operator_fields before st) = "" /\ op_CIRepair (operator_fields before st) = Omit /\
  op_CIPark (operator_fields before st) = Omit.
Proof.
  unfold core_st. intros H. injection H as Hp Hr Hk. cbn. rewrite Hp, Hr, Hk, String.eqb_refl.
  unfold clearable. by rewrite !decide_True.
Qed.

Lemma neutral_write s fields ok :
  op_Phase fields = "" -> op_CIRepair fields = Omit -> op_CIPark fields = Omit ->
  protocol s (AWrite fields ok) = Some s.
Proof.
  intros Hp Hr Hk. unfold protocol, legal, phase_write, repair_write. rewrite Hp, Hr, Hk. cbn.
  unfold after_write. rewrite Hp, Hr. by destruct s.
Qed.

Lemma stamped_core st st' : stamped st st' -> core_st st' = core_st st.
Proof. intros [->|[p ->]]; reflexivity. Qed.

Lemma spec_patch_neutral before run s (Q : watch -> CoderRun -> error -> Prop) :
  core_st (Status before) = core_st (Status run) ->
  (forall st e, stamped (Status run) st -> Q s (set_Status run st) e) ->
  spec protocol (patch before) run s Q.
Proof.
  intros Hc HQ. apply spec_patch; [apply protocol_quiet|]. intros st Hst. split; [auto|].
  intros fields ok e -> _ _. exists s. split; [|auto].
  destruct (neutral_fields (Status before) st) as (Hp & Hr & Hk); [by rewrite Hc, (stamped_core _ _ Hst)|].
  by apply neutral_write.
Qed.

Lemma like_stamped run st : stamped (Status run) st -> like (set_Status run st) run.
Proof. intros Hst. apply like_status. split; [by apply stamped_core|]. left. by destruct Hst as [->|[p ->]]. Qed.

(** The same rules with the run abstracted to its core. *)
Lemma core_core_st run run' : core run' = core run -> core_st (Status run') = core_st (Status run).
Proof. unfold core. congruence. Qed.

Lemma spec_assign_like f run s (Q : watch -> CoderRun -> unit -> Prop) :
  like_st (f (Status run)) (Status run) -> good run s ->
  (forall run', like run' run -> good run' s -> Q s run' tt) -> spec protocol (assign f) run s Q.
Proof.
  intros Hf Hg HQ. apply spec_assign. assert (Hc := like_status run _ Hf).
  apply HQ; [done|]. by eapply good_like.
Qed.

Lemma spec_snapshot_core run s (Q : watch -> CoderRun -> CoderRun -> Prop) :
  (forall before, core before = core run -> Q s run before) -> spec protocol snapshot run s Q.
Proof. intros HQ. apply spec_snapshot, HQ. reflexivity. Qed.

Lemma spec_patch_core before run s (Q : watch -> CoderRun -> error -> Prop) :
  core before = core run -> good run s ->
  (forall run' e, like run' run -> good run' s -> Q s run' e) -> spec protocol (patch before) run s Q.
Proof.
  intros Hc Hg HQ. apply spec_patch_neutral; [by apply core_core_st|]. intros st e Hst.
  assert (Hc' := like_stamped run st Hst). apply HQ; [done|]. by eapply good_like.
Qed.

(** ** Writes that move the phase *)

Lemma edge_nonempty old new : edge old new = true -> new <> "".
Proof. intros He ->. unfold edge, successors in He. repeat case_match; discriminate He. Qed.

Lemma edge_irrefl old new : edge old new = true -> old <> new.
Proof.
  intros He ->. unfold edge, successors in He.
  repeat case_match; repeat match goal with H : String.eqb _ _ = true |- _ => apply String.eqb_eq in H; subst end;
    try discriminate He.
  unfold member in *. cbn in *. destruct (String.eqb_spec new ""); [by subst|].
  destruct (String.eqb_spec new PhasePending); by subst.
Qed.

Definition same_id (run' run : CoderRun) : Prop :=
  Namespace run' = Namespace run /\ run_Name run' = run_Name run /\ UID run' = UID run.

Lemma repair_write_stamped s before st st' :
  stamped st st' -> repair_write s (operator_fields before st') = repair_write s (operator_fields before st).
Proof. by intros [->|[p ->]]. Qed.

Lemma good_after_write before run s st :
  good before s -> same_id run before -> edge (Phase (Status before)) (Phase (Status run)) = true ->
  w_free s || distinct (Status run) = true -> stamped (Status run) st ->
  good (set_Status run st) (after_write s (operator_fields (Status before) st) true).
Proof.
  intros [Hp Hr Hd Hn Hm Hu] (In1 & In2 & In3) He Hd' Hst.
  assert (Hne := edge_nonempty _ _ He). assert (Hir := edge_irrefl _ _ He).
  assert (Hph : Phase st = Phase (Status run)) by (by destruct Hst as [->|[p ->]]).
  assert (Hrep : CIRepair st = CIRepair (Status run)) by (by destruct Hst as [->|[p ->]]).
  assert (Hdis : distinct st = distinct (Status run)) by (by destruct Hst as [->|[p ->]]).
  constructor; cbn; try congruence.
  - rewrite Hph. destruct (String.eqb_spec (Phase (Status before)) (Phase (Status run))); [done|].
    by destruct (String.eqb_spec (Phase (Status run)) "").
  - rewrite Hrep. unfold clearable. destruct (decide _) as [E|]; [by rewrite <- E|].
    destruct (CIRepair (Status run)); by left.
Qed.

(** A write that takes an edge: accepted, and the run stays known unless the
    write failed. *)
Lemma spec_patch_edge before run s (Q : watch -> CoderRun -> error -> Prop) :
  good before s -> same_id run before -> edge (Phase (Status before)) (Phase (Status run)) = true ->
  (Phase (Status run) = PhaseDone -> merge_seen = true) ->
  repair_write s (operator_fields (Status before) (Status run)) = true -> w_free s || distinct (Status run) = true ->
  (forall run' s', like run' run -> good run' s' -> Q s' run' []) ->
  (forall run' s' e, failed e = true -> w_phase s' = None -> Q s' run' e) ->
  spec protocol (patch before) run s Q.
Proof.
  intros Hg Hid He Hdone Hr Hd HQ HF.
  assert (Hne := edge_nonempty _ _ He). assert (Hir := edge_irrefl _ _ He).
  apply spec_patch; [apply protocol_quiet|]. intros st Hst.
  assert (Hph : op_Phase (operator_fields (Status before) st) = Phase (Status run)).
  { cbn. assert (Phase st = Phase (Status run)) as -> by (by destruct Hst as [->|[p ->]]).
    by destruct (String.eqb_spec (Phase (Status before)) (Phase (Status run))). }
  split.
  - unfold is_empty_patch, omitted_s. rewrite Hph. by destruct (String.eqb_spec (Phase (Status run)) "").
  - intros fields ok e -> Hok Hko. eexists. split.
    + unfold protocol, legal, phase_write. rewrite (repair_write_stamped _ _ _ _ Hst), Hr, Hph, (good_phase _ _ Hg), He.
      destruct (String.eqb_spec (Phase (Status run)) PhaseDone) as [E|]; [rewrite (Hdone E)|]; by rewrite orb_true_r.
    + destruct ok.
      * rewrite Hok by done. apply HQ; [by apply like_stamped|]. by apply good_after_write.
      * apply HF; [specialize (Hko eq_refl); by destruct e|]. unfold advance, after_write. cbn [w_phase]. rewrite Hph.
        by destruct (String.eqb_spec (Phase (Status run)) "").
Qed.

Lemma spec_patch_move before run s (Q : watch -> CoderRun -> error -> Prop) :
  good before s -> same_id run before -> edge (Phase (Status before)) (Phase (Status run)) = true ->
  (Phase (Status run) = PhaseDone -> merge_seen = true) ->
  repair_write s (operator_fields (Status before) (Status run)) = true -> w_free s || distinct (Status run) = true ->
  (forall run' s', like run' run -> good run' s' -> Q s' run' []) ->
  (forall run' s' e, failed e = true -> Q s' run' e) ->
  spec protocol (patch before) run s Q.
Proof. intros Hg Hid He Hm Hr Hd HQ HF. apply spec_patch_edge; auto. Qed.

(** A write that moves the phase and leaves the attempt and the park. *)
Lemma frame_repair_write s before st :
  CIRepair st = CIRepair before -> CIPark st = CIPark before -> repair_write s (operator_fields before st) = true.
Proof.
  intros Hr Hk. unfold repair_write. cbn [operator_fields op_CIRepair op_CIPark]. rewrite Hr, Hk. unfold clearable.
  by rewrite !decide_True.
Qed.

(** An assignment that only moves the phase, and its write. *)
Lemma spec_move {A} before f new (K : error -> M A) run s (Q : watch -> CoderRun -> A -> Prop) :
  good run s -> good before s -> core before = core run ->
  core_st (f (Status run)) = (new, CIRepair (Status run), CIPark (Status run)) ->
  st_CISettlement (f (Status run)) = st_CISettlement (Status run) -> edge (Phase (Status run)) new = true -> new <> PhaseDone ->
  (forall run' s', good run' s' -> Phase (Status run') = new -> spec protocol (K []) run' s' Q) ->
  (forall run' s' e, failed e = true -> w_phase s' = None -> spec protocol (K e) run' s' Q) ->
  spec protocol (_ ← assign f; e ← patch before; K e) run s Q.
Proof.
  intros Hg Hgb Hb Hc Hs He Hnd HK HF. apply spec_bind, spec_assign, spec_bind.
  set (st := f (Status run)) in *.
  assert (Hp2 : Phase st = new) by exact (f_equal (fun x => x.1.1) Hc).
  assert (Hr2 : CIRepair st = CIRepair (Status run)) by exact (f_equal (fun x => x.1.2) Hc).
  assert (Hk2 : CIPark st = CIPark (Status run)) by exact (f_equal snd Hc). clearbody st.
  unfold core, core_st in Hb. injection Hb as Bn Bm Bu _ Bp Br Bk.
  apply spec_patch_edge.
  - done.
  - by repeat split.
  - change (edge (Phase (Status before)) (Phase st) = true). by rewrite Bp, Hp2.
  - change (Phase st = PhaseDone -> merge_seen = true). congruence.
  - apply frame_repair_write; [by rewrite Br|by rewrite Bk].
  - change (w_free s || distinct st = true). unfold distinct. rewrite Hr2, Hs. exact (good_distinct _ _ Hg).
  - intros run' s' Hl Hg'. apply HK; [done|]. apply like_core, core_core_st in Hl.
    rewrite <- Hp2. exact (f_equal (fun x => x.1.1) Hl).
  - intros run' s' e Hf Hw. by apply HF.
Qed.

(** A write that keeps the phase and changes the park or the repair. *)
Lemma spec_patch_repair before run s (Q : watch -> CoderRun -> error -> Prop) :
  good before s -> same_id run before -> Phase (Status run) = Phase (Status before) ->
  repair_write s (operator_fields (Status before) (Status run)) = true -> w_free s || distinct (Status run) = true ->
  (forall run' s', like run' run -> good run' s' -> w_phase s' = w_phase s -> Q s' run' []) ->
  (forall run' s' e, failed e = true -> Q s' run' e) ->
  spec protocol (patch before) run s Q.
Proof.
  intros Hg (In1 & In2 & In3) Hp Hr Hd HQ HF. apply spec_patch; [apply protocol_quiet|]. intros st Hst.
  assert (Hph : op_Phase (operator_fields (Status before) st) = "").
  { cbn. assert (Phase st = Phase (Status before)) as -> by (rewrite <- Hp; by destruct Hst as [->|[p ->]]).
    by rewrite String.eqb_refl. }
  assert (Hrep : CIRepair st = CIRepair (Status run)) by (by destruct Hst as [->|[p ->]]).
  assert (Hin : forall ws, In (CIRepair (Status before)) ws -> In (CIRepair (Status run))
    (match clearable (CIRepair (Status before)) (CIRepair st) with
     | Omit => ws | Null => None :: ws | Value a => Some a :: ws end)).
  { intros ws Hin. rewrite Hrep. unfold clearable. destruct (decide _) as [E|]; [by rewrite <- E|].
    destruct (CIRepair (Status run)); by left. }
  assert (Hl := like_stamped run st Hst). destruct Hg as [Gp Gr Gd Gn Gm Gu].
  assert (Hgood : forall s', w_phase s' = w_phase s -> w_free s' = w_free s -> In (CIRepair (Status run)) (w_repairs s') ->
    good (set_Status run st) s').
  { intros s' E1 E2 E3. eapply good_like; [exact Hl|]. constructor; try congruence. }
  split.
  - intros Hempty. apply HQ; [exact Hl| |done]. apply Hgood; [done..|].
    destruct (decide (CIRepair (Status before) = CIRepair (Status run))) as [E|E]; [by rewrite <- E|].
    exfalso. unfold is_empty_patch in Hempty. rewrite !andb_true_iff in Hempty.
    destruct Hempty as [[[[[_ Hempty] _] _] _] _]. cbn in Hempty. rewrite Hrep in Hempty.
    unfold clearable in Hempty. rewrite decide_False in Hempty by done. by destruct (CIRepair (Status run)).
  - intros fields ok e -> Hok Hko. eexists. split.
    + unfold protocol, legal, phase_write. by rewrite (repair_write_stamped _ _ _ _ Hst), Hr, Hph.
    + destruct ok; [rewrite Hok by done|apply HF; specialize (Hko eq_refl); by destruct e].
      apply HQ; [exact Hl| |unfold advance, after_write; cbn [w_phase]; by rewrite Hph].
      apply Hgood; [unfold advance, after_write; cbn [w_phase]; by rewrite Hph|done|]. exact (Hin _ Gr).
Qed.

(** What a write must record about the repair it ends. *)
Definition ends_repair (before st : CoderRunStatus) : Prop :=
  CIRepair st = None /\
  match CIRepair before with
  | Some a => rep_FenceToken a = "" \/ exists x, st_CISettlement st = Some x /\ cs_FenceToken x = rep_FenceToken a
  | None => True
  end.

Lemma ends_repair_write before st s :
  good before s -> ends_repair (Status before) st -> repair_write s (operator_fields (Status before) st) = true.
Proof.
  intros [_ Hin Hd _ _ _] [Hnone Hend]. unfold repair_write. cbn [op_CIRepair op_CIPark op_CISettlement operator_fields].
  rewrite Hnone. destruct (CIRepair (Status before)) as [a|] eqn:Ha.
  - unfold clearable at 1. rewrite decide_False by done.
    apply orb_true_iff. apply orb_true_iff in Hd as [Hd|Hd]; [by left|right].
    apply existsb_exists. exists (Some a). split; [done|]. unfold settled_by. apply orb_true_iff.
    destruct Hend as [->|(x & Hx & Hf)]; [by left|right]. rewrite Hx. unfold clearable.
    destruct (decide _) as [E|]; [|by rewrite Hf, String.eqb_refl].
    unfold distinct in Hd. by rewrite Ha, E, Hf, String.eqb_refl in Hd.
  - unfold clearable at 1. rewrite decide_True by done.
    destruct (clearable _ _); [done|..]; apply existsb_exists; exists None; done.
Qed.

Lemma distinct_none st : CIRepair st = None -> distinct st = true.
Proof. unfold distinct. by intros ->. Qed.

(** A request the automaton lets pass. *)
Lemma spec_pass {X} (e : worldE X) run s (Q : watch -> CoderRun -> X -> Prop) :
  (forall x, protocol s (view_op e x) = Some s) -> (forall x, Q s run x) -> spec protocol (io e) run s Q.
Proof. intros Hp HQ. apply spec_io. intros x. exists s. auto. Qed.

Lemma spec_pass_assume {X} (e : worldE X) run s (Q : watch -> CoderRun -> X -> Prop) :
  (forall x, protocol s (view_op e x) = Some s) -> (forall x, assume (Ev e x) -> Q s run x) -> spec protocol (io e) run s Q.
Proof. intros Hp HQ. apply spec_io_assume. intros x Hx. exists s. auto. Qed.

Lemma pass s a : legal s a = true -> advance s a = s -> protocol s a = Some s.
Proof. unfold protocol. by intros -> ->. Qed.

(** A lifted handler of Kube.v's signature. *)
Definition kube_protocol (s : watch) (ev : event kubeE) : option watch :=
  protocol s (view_kube (ev_op ev) (ev_ans ev)).

Definition kube_assume (ev : event kubeE) : Prop := assume (inj_event (fun _ e => Kube e) ev).

End Monitor.

Arguments Keeps {AS} id {A} p.
Arguments good id run s.

(** ** Following a handler

    [kstep] follows one constructor of a handler that keeps the core, [keep]
    the whole of it. *)

Create HintDb core_frame.

(** A request is let through when it is unwatched, or legal in the phase a
    hypothesis gives. *)
Ltac in_phase :=
  cbn [legal view_op]; unfold within;
  match goal with H : w_phase ?s = Some _ |- context [w_phase ?s] => rewrite H end; reflexivity.

Ltac on_pass := let x := fresh "x" in intros x; apply pass; [first [reflexivity|in_phase|by destruct x|idtac]|first [reflexivity|by destruct x]].

(** The steps since a copy was taken, as one. *)
Ltac likes :=
  lazymatch goal with
  | |- like ?a ?a => apply like_refl
  | H : like ?a _ |- like ?a _ => first [exact H|eapply like_trans; [exact H|likes]]
  end.

Ltac cores := repeat match goal with H : like _ _ |- _ => apply like_core in H end; congruence.

Ltac solve_like_st :=
  first [split; [reflexivity|first [left; reflexivity|right; reflexivity]]|solve [auto with core_frame]|idtac].

Ltac kstep :=
  lazymatch goal with
  | |- spec _ (mbind _ _) _ _ _ => apply spec_bind
  | |- spec _ (mret _) _ _ _ => apply spec_ret
  | |- spec _ get _ _ _ => apply spec_get
  | |- spec _ clock _ _ _ => apply spec_clock; [typeclasses eauto|intros ?now]
  | |- spec _ (kube _) _ _ _ => apply spec_quiet; [typeclasses eauto|reflexivity|intros ?x]
  | |- spec _ snapshot _ _ _ => apply spec_snapshot_core; intros ?before ?Hb
  | |- spec _ (assign _) _ _ _ => apply spec_assign_like; [solve_like_st|eassumption|intros ?run ?Hc ?Hg]
  | |- spec _ (patch _) _ _ _ => apply spec_patch_core; [cores|eassumption|intros ?run ?e ?Hc ?Hg]
  | |- spec _ (io _) _ _ _ => apply spec_pass; [on_pass|intros ?x]
  | |- spec _ (match ?x with _ => _ end) _ _ _ => destruct x eqn:?
  | |- spec _ _ _ _ _ => eapply spec_keeps; [typeclasses eauto|eassumption|intros ?run ?a ?Hc ?Hg]
  | |- _ = _ /\ like _ _ => split; [reflexivity|likes]
  end.

Ltac keep := intros ?run ?s ?Hg; repeat (kstep; cbv beta iota).
