(* ===== verification/ProtocolTerminal.v ===== *)
(** * Terminal transitions follow the protocol

    Every report, settlement and transition of Terminal.v and Capacity.v is
    accepted by the automaton of Protocol.v: the handlers that only record
    outcomes keep the phase, and a transition takes an edge and reports only
    after its write. *)

From S2P Require Import Prelude Effects GoStrings GoTime Run StatusPatch Lane Kube Backoff Reap Retry World Logic Pods Report.
From S2P Require Import Capacity Terminal Protocol.
Local Open Scope string_scope.
Local Open Scope Z_scope.
#[local] Hint Constants Opaque : typeclass_instances.
#[local] Hint Transparent error Terminal.outcome : typeclass_instances.

Lemma core_spend_token a b st : like_st (spend_token a b st) st.
Proof. unfold spend_token. cbn. repeat case_match; (split; [done|by left]). Qed.
#[export] Hint Resolve core_spend_token : core_frame.

Lemma core_finish_run now st : like_st (finish_run now st) st.
Proof. unfold finish_run. repeat case_match; (split; [done|by left]). Qed.

Lemma core_note_diagnostic d st : like_st (note_diagnostic d st) st.
Proof. unfold note_diagnostic. repeat case_match; (split; [done|by left]). Qed.

Lemma core_conditions {CO : ConditionOps} cs st : like_st (foldl (fun st c => with_condition c st) st cs) st.
Proof.
  revert st. induction cs as [|c cs IH]; intros st; simpl; [split; [done|by left]|].
  destruct (IH (with_condition c st)) as [Hc Hs]. split; [by rewrite Hc|exact Hs].
Qed.
#[export] Hint Resolve core_finish_run core_note_diagnostic core_conditions : core_frame.

Section Terminal.
Context {AS : Assume} {CO : ConditionOps} {CD : Codec}.
Variable r : Reconciler.
Variable id : CoderRun.
Abbreviation Keeps := (Keeps id).

#[export] Instance keeps_stamp_condition t st re m : Keeps (stamp_condition t st re m).
Proof. unfold stamp_condition. keep. Qed.

#[export] Instance keeps_emit phase d : Keeps (emitPhaseTransition r phase d).
Proof. unfold emitPhaseTransition. keep. Qed.

#[export] Instance keeps_capability reason : Keeps (capability_of reason).
Proof. unfold capability_of, setLifecycleReportCapability. keep. Qed.

#[export] Instance keeps_record_outcome a b : Keeps (recordLifecycleReportOutcome a b).
Proof. unfold recordLifecycleReportOutcome. keep. Qed.

#[export] Instance keeps_mark a b c d e : Keeps (markLifecycleReportOutcome a b c d e).
Proof. unfold markLifecycleReportOutcome, setLifecycleReport. keep. Qed.

#[export] Instance keeps_comment a b c : Keeps (commentAlreadyDone r a b c).
Proof. unfold commentAlreadyDone, recordAnnouncementNotDelivered, markAlreadyDoneCommented. keep. Qed.

#[export] Instance keeps_hold : Keeps (commentAlreadyDoneHold r).
Proof. unfold commentAlreadyDoneHold, recordAnnouncementNotDelivered, markAlreadyDoneCommented. keep. Qed.

#[export] Instance keeps_source_close a b c : Keeps (setSourceClose a b c).
Proof. unfold setSourceClose. keep. Qed.

#[export] Instance keeps_enrich : Keeps (enrichTerminalPR r).
Proof. unfold enrichTerminalPR. keep. Qed.

#[export] Instance keeps_close_pending a : Keeps (markAlreadyDoneClosePending a).
Proof. unfold markAlreadyDoneClosePending. keep. Qed.

#[export] Instance keeps_first_entry a : Keeps (first_entry a).
Proof. unfold first_entry, setLifecycleReport. keep. Qed.

(** Capacity. *)

#[export] Instance keeps_capacity_condition a b c : Keeps (setCapacityRecovery a b c).
Proof. unfold setCapacityRecovery. keep. Qed.

#[export] Instance keeps_held a b : Keeps (held a b).
Proof. unfold held. keep. Qed.

#[export] Instance keeps_settlement_failed a : Keeps (settlement_failed a).
Proof. unfold settlement_failed. keep. Qed.

#[export] Instance keeps_record_lane : Keeps (recordCapacityCooldownLane r).
Proof. unfold recordCapacityCooldownLane. keep. Qed.

#[export] Instance keeps_retry n p : Keeps p -> Keeps (retry_on_conflict n p).
Proof. intros Hp. induction n; simpl; [done|]. keep. Qed.

#[export] Instance keeps_record_cooldown : Keeps (recordCapacityCooldown r).
Proof. unfold recordCapacityCooldown. keep. Qed.

Lemma keeps_settle_capacity adapter item key proof run s :
  good id run s -> w_phase s = Some PhaseBlockedExternal ->
  spec (protocol id) (settle_capacity adapter item key proof) run s (fun s' run' _ => s' = s /\ like run' run).
Proof. intros Hg Hs. unfold settle_capacity. repeat (kstep; cbv beta iota). Qed.

Lemma keeps_recover adapter item run s :
  good id run s -> w_phase s = Some PhaseBlockedExternal ->
  spec (protocol id) (recoverCapacityExhaustion r adapter item) run s (fun s' run' _ => s' = s /\ like run' run).
Proof.
  intros Hg Hs. unfold recoverCapacityExhaustion.
  repeat first [eapply spec_mono; [by apply keeps_settle_capacity|]; intros ? ? ? [-> ?] | kstep; cbv beta iota].
Qed.


(** ** Reports *)

Lemma reports_key run s phase lc :
  good id run s -> w_phase s = Some phase -> ending phase = true -> lc_IdempotencyKey lc = lifecycleIdempotencyKey run phase ->
  reports_phase id s lc = true.
Proof.
  intros Hg Hp He Hk. unfold reports_phase. by rewrite Hp, He, Hk, (good_key _ _ _ _ Hg), String.eqb_refl.
Qed.

(** In a terminal phase a report of that phase passes. *)
Lemma keeps_report adapter item lc phase run s :
  good id run s -> w_phase s = Some phase -> ending phase = true -> lc_IdempotencyKey lc = lifecycleIdempotencyKey run phase ->
  spec (protocol id) (reportLifecycle adapter item lc) run s (fun s' run' _ => s' = s /\ like run' run).
Proof.
  intros Hg Hp He Hk. unfold reportLifecycle. destruct (is_reporter adapter); [|by kstep; kstep].
  apply spec_pass; [|intros x; by kstep]. intros x. apply pass; [|done]. cbn. by eapply reports_key.
Qed.

Lemma keeps_publish_source adapter item phase intent run s :
  good id run s -> w_phase s = Some phase -> ending phase = true ->
  spec (protocol id) (publishSourceLifecycle adapter item phase intent) run s (fun s' run' _ => s' = s /\ like run' run).
Proof.
  intros Hg Hp He. unfold publishSourceLifecycle. do 2 kstep. cbv beta zeta.
  destruct (isCapacityExhaustionRun (Status run)); [by eapply keeps_report|].
  kstep. eapply (spec_mono _ _ _ _ (fun s' run' _ => s' = s /\ run' = run)).
  - destruct (String.eqb _ ""); [by kstep|]. apply spec_pass; [|done].
    intros x. apply pass; [|done]. unfold legal, view_op. rewrite Hp. cbv iota beta. by rewrite He.
  - intros ? ? [[]|e] [-> ->]; [|by repeat kstep]. by eapply keeps_report.
Qed.

(** ** The recursion *)

(** The run is known after a handler that did not fail. *)
Definition lands (s' : watch) (run' : CoderRun) (out : Terminal.outcome) : Prop := failed out.2 = false -> good id run' s'.

Lemma capacity_phase run s : good id run s -> isCapacityExhaustionRun (Status run) = true -> w_phase s = Some PhaseBlockedExternal.
Proof.
  intros [Hp _ _ _ _ _] Hc. unfold isCapacityExhaustionRun in Hc. apply andb_true_iff in Hc as [Hc _].
  apply String.eqb_eq in Hc. by rewrite Hp, Hc.
Qed.

Section Open.
Variable settle : Adapter -> WorkItem -> terminalLifecycleIntent -> M Terminal.outcome.

Lemma lands_publish adapter item phase intent run s :
  good id run s -> w_phase s = Some phase -> ending phase = true ->
  (phase = PhaseAlreadyDone -> spec (protocol id) (settle adapter item intent) run s lands) ->
  spec (protocol id) (publish_with r settle adapter item phase intent) run s lands.
Proof.
  intros Hg Hp He Hs. unfold publish_with.
  destruct (String.eqb_spec phase PhaseAlreadyDone) as [Heq|]; [by apply Hs|].
  kstep. eapply spec_mono; [by apply keeps_publish_source|]. intros ? run1 answer [-> Hc].
  assert (Hg1 := good_like _ _ _ _ Hc Hg). do 2 kstep. cbv zeta.
  destruct answer as [[]|e]; [|repeat case_match; do 3 kstep; intros _; assumption].
  do 2 kstep. case_match; [kstep; by intros _|]. do 2 kstep.
  destruct (isCapacityExhaustionRun _) eqn:Hcap; [|kstep; by intros _].
  eapply spec_mono; [apply keeps_recover; [done|by eapply capacity_phase]|]. intros ? ? ? [-> ?] _. by eapply good_like.
Qed.

(** The terminal write of every transition. *)
Lemma enter_terminal_ends run phase pr t st :
  Phase (enter_terminal run phase pr t st) = phase /\ CIPark (enter_terminal run phase pr t st) = CIPark st /\
  ends_repair st (enter_terminal run phase pr t st).
Proof.
  unfold ends_repair, enter_terminal, abandonCIRepairAttempt. cbv zeta.
  change (CIRepair (set_st_ControlRequestAck (set_st_ControlRequest st None) None)) with (CIRepair st).
  destruct (CIRepair st) as [a|] eqn:Ha; [destruct (String.eqb_spec (rep_FenceToken a) "")|];
    destruct (String.eqb pr ""), t; repeat split; try reflexivity; try exact Ha; try (by left);
    right; eexists; split; reflexivity.
Qed.

(** [first_entry] leaves the core and the settlement alone. *)
Lemma spec_first_entry intent run s (Q : watch -> CoderRun -> unit -> Prop) :
  (forall run', core run' = core run -> st_CISettlement (Status run') = st_CISettlement (Status run) -> Q s run' tt) ->
  spec (protocol id) (first_entry intent) run s Q.
Proof.
  intros HQ. unfold first_entry, setLifecycleReport, stamp_condition.
  assert (Hend : forall st now, like_st st (Status run) -> st_CISettlement st = st_CISettlement (Status run) ->
    Q s (set_Status run (with_condition (mk_condition lifecycleReportedCondition (bool_status false)
      (pendingLifecycleReason intent) (in_error intent) now) (foldl (λ st c, with_condition c st)
        (note_diagnostic (in_diagnostic intent) st) (in_conditions intent)))) tt).
  { intros st now Hl Hs.
    destruct (core_conditions (in_conditions intent) (note_diagnostic (in_diagnostic intent) st)) as [Hc1 _].
    destruct (core_note_diagnostic (in_diagnostic intent) st) as [Hc2 _]. destruct Hl as [Hc3 _].
    apply HQ; [unfold core; cbn; f_equal; etransitivity; [exact Hc1|]; congruence|]. cbn.
    rewrite <- Hs. clear. transitivity (st_CISettlement (note_diagnostic (in_diagnostic intent) st)).
    - generalize (note_diagnostic (in_diagnostic intent) st). induction (in_conditions intent) as [|c cs IH]; intros st'; [done|].
      simpl. by rewrite IH.
    - unfold note_diagnostic. by repeat case_match. }
  do 3 kstep. eapply (spec_mono _ _ _ _ (fun s' run' _ => s' = s /\ exists st, run' = set_Status run st /\
    like_st st (Status run) /\ st_CISettlement st = st_CISettlement (Status run))).
  - destruct (FinishedAt (Status run)) eqn:Hf; repeat kstep.
    + split; [done|]. exists (Status run). split; [by destruct run|]. split; [split; [done|by left]|done].
    + apply spec_assign. split; [done|]. eexists. split; [done|]. split; [apply core_finish_run|].
      unfold finish_run. by repeat case_match.
  - intros ? ? [] [-> (st & -> & Hl & Hs)]. apply spec_bind, spec_assign, spec_bind, spec_assign, spec_bind.
    kstep. apply spec_assign. by apply Hend.
Qed.

(** A transition along an edge of the phase machine. *)
Lemma lands_transition phase pr intent telemetry run s :
  good id run s -> edge (Phase (Status run)) phase = true -> ending phase = true -> (phase = PhaseDone -> merge_seen = true) ->
  (phase = PhaseAlreadyDone -> forall adapter item run' s', good id run' s' -> w_phase s' = Some PhaseAlreadyDone ->
     spec (protocol id) (settle adapter item intent) run' s' lands) ->
  spec (protocol id) (transition_with r settle phase pr intent telemetry) run s lands.
Proof.
  intros Hg He Hend Hm Hs. unfold transition_with. kstep.
  eapply (spec_mono _ _ _ _ (fun s' run' _ => s' = s /\ like run' run)); [destruct (_ && _); repeat kstep; by apply keeps|].
  intros ? run1 pr' [-> Hl]. assert (Hg1 := good_like _ _ _ _ Hl Hg).
  assert (Hph : Phase (Status run1) = Phase (Status run)) by (apply like_core, core_core_st in Hl; by injection Hl).
  do 2 kstep. destruct (adapterAndWorkItem _ _) as [[adapter item]|e]; [|by kstep].
  rewrite <- Hph in He. assert (Hne := edge_irrefl _ _ He).
  destruct (String.eqb_spec (Phase (Status run1)) phase) as [|_]; [done|]. cbv zeta. cbn [negb].
  apply spec_bind, spec_snapshot, spec_bind, spec_assign, spec_bind, spec_first_entry.
  destruct (enter_terminal_ends run1 phase pr' telemetry (Status run1)) as (Hp2 & Hk2 & Hr2).
  intros run2 Hc2 Hs2. do 2 kstep. kstep.
  assert (Hcore : core_st (Status run2) = (phase, None, CIPark (Status run1))).
  { apply core_core_st in Hc2. rewrite Hc2. unfold core_st. cbn [Status set_Status]. rewrite Hp2, Hk2. by destruct Hr2 as [-> _]. }
  injection Hcore as Hp3 Hr3 Hk3.
  assert (terminal_changed (Status (copy run1)) (Status run2) = true) as ->.
  { unfold terminal_changed. apply negb_true_iff. rewrite Hp3.
    change (Phase (Status (copy run1))) with (Phase (Status run1)).
    destruct (String.eqb_spec phase (Phase (Status run1))); [congruence|]. done. }
  apply spec_patch_move.
  - eapply good_like; [|exact Hg1]. split; [done|by left].
  - unfold core in Hc2. by injection Hc2.
  - by rewrite Hp3.
  - by rewrite Hp3.
  - apply (ends_repair_write id); [eapply good_like; [|exact Hg1]; split; [done|by left]|]. destruct Hr2 as [_ Hr2].
    split; [done|]. rewrite Hs2. exact Hr2.
  - by rewrite (distinct_none _ Hr3), orb_true_r.
  - intros run3 s3 Hl3 Hg3. cbv beta. cbn [failed].
    assert (Hw3 : w_phase s3 = Some phase).
    { rewrite (good_phase _ _ _ Hg3). apply like_core, core_core_st in Hl3. injection Hl3. congruence. }
    do 5 kstep. eapply (spec_mono _ _ _ _ (fun s' run' _ => s' = s3 /\ like run' run0)).
    { destruct (FinishedAt _); repeat kstep. }
    intros ? run4 [] [-> Hl4]. apply lands_publish; try done; [eapply good_like; eassumption|].
    intros ->. apply Hs; [done|eapply good_like; eassumption|done].
  - intros run3 s3 e He3. cbv beta. rewrite He3. kstep. intros Hf. cbn in Hf. congruence.
Qed.
End Open.

(** ** The settlement of an already-done conclusion *)

Lemma lands_park reason detail resolution run s :
  good id run s -> w_phase s = Some PhaseAlreadyDone ->
  spec (protocol id) (parkAlreadyDoneClose r reason detail resolution) run s lands.
Proof.
  intros Hg Hw. unfold parkAlreadyDoneClose. cbv zeta. do 4 kstep.
  apply lands_transition; [assumption| |done..].
  match goal with H : good id run1 s |- _ => rewrite (good_phase _ _ _ H) in Hw end. by injection Hw as ->.
Qed.

Lemma lands_settle adapter item intent run s :
  good id run s -> w_phase s = Some PhaseAlreadyDone ->
  spec (protocol id) (settleAlreadyDoneClose r adapter item intent) run s lands.
Proof.
  intros Hg Hw. unfold settleAlreadyDoneClose.
  assert (Hmark : forall a b c d e (res : ctrl_result) run1, good id run1 s ->
    spec (protocol id) (w ← markLifecycleReportOutcome a b c d e; mret (res, w)) run1 s lands).
  { intros. do 3 kstep. by intros _. }
  do 2 kstep. destruct (NoChange _); [|by apply lands_park]. destruct (is_close_reporter adapter); [|by apply lands_park].
  cbn [negb]. kstep. apply spec_pass.
  { intros x. apply pass; [|done]. unfold legal, view_op. apply andb_true_iff. split; [unfold within; by rewrite Hw|].
    eapply reports_key; [exact Hg|exact Hw|done|done]. }
  intros [resolution|e].
  - destruct (String.eqb _ _); [|by apply lands_park]. do 4 kstep. by apply Hmark.
  - repeat case_match; [by apply Hmark|by apply lands_park|by apply lands_park|]. do 3 kstep. by intros _.
Qed.

(** ** Transitions and report retries *)

Lemma lands_terminal phase pr intent telemetry run s :
  good id run s -> edge (Phase (Status run)) phase = true -> ending phase = true -> (phase = PhaseDone -> merge_seen = true) ->
  spec (protocol id) (transitionTerminal r phase pr intent telemetry) run s lands.
Proof. intros Hg He Hend Hm. apply lands_transition; try done. intros _ *. apply lands_settle. Qed.

Lemma lands_retry run s :
  good id run s -> ending (Phase (Status run)) = true ->
  spec (protocol id) (retryTerminalLifecycle r) run s lands.
Proof.
  intros Hg He. unfold retryTerminalLifecycle. do 2 kstep.
  destruct (adapterAndWorkItem _ _) as [[adapter item]|e]; [|kstep; by intros _].
  assert (Hw := good_phase _ _ _ Hg). apply lands_publish; try done. intros Heq. apply lands_settle; congruence.
Qed.

End Terminal.
