(* ===== verification/ProtocolPark.v ===== *)
(** * The park loop follows the protocol

    No observation of the CI park loop is refused by the automaton of
    Protocol.v, for a run whose repair attempt is tied to its park
    ([fence_inv]): every write that ends an attempt records the settlement of
    its fence, and an attempt is armed with the park it repairs. *)

From S2P Require Import Prelude Effects GoStrings GoTime Run StatusPatch Lane Kube Backoff Reap Retry World Logic Pods Report.
From S2P Require Import Capacity Terminal Checks CIPark Protocol ProtocolTerminal.
Local Open Scope string_scope.
Local Open Scope Z_scope.
#[local] Hint Constants Opaque : typeclass_instances.
#[local] Hint Transparent error Terminal.outcome delivery : typeclass_instances.

(** A repair in flight is that of the recorded park, whose account it consumed. *)
Definition fence_inv (st : CoderRunStatus) : Prop :=
  match CIRepair st with
  | Some a => rep_FenceToken a = "" \/
              exists p, CIPark st = Some p /\ 0 < park_Attempts p /\ park_Head p = rep_Head a
  | None => True
  end.

Lemma like_drop_inapplicable {CO : ConditionOps} st : like_st (drop_inapplicable st) st.
Proof. unfold drop_inapplicable. case_match; (split; [done|by left]). Qed.
#[export] Hint Resolve like_drop_inapplicable : core_frame.

Section Park.
Context {AS : Assume} {CO : ConditionOps} {CD : Codec}.
Variable r : Reconciler.
Variable id : CoderRun.
Abbreviation Keeps := (Keeps id).

(** ** Handlers that keep the phase and the attempt *)

#[export] Instance keeps_policy : Keeps ciRepairPolicy.
Proof. unfold ciRepairPolicy. keep. Qed.

#[export] Instance keeps_capacity_available : Keeps ciparkCapacityAvailable.
Proof. unfold ciparkCapacityAvailable. keep. Qed.

#[export] Instance keeps_mark_inapplicable o : Keeps (markCIParkInapplicable o).
Proof. unfold markCIParkInapplicable. keep. Qed.

#[export] Instance keeps_clear_inapplicable : Keeps clearCIParkInapplicable.
Proof. unfold clearCIParkInapplicable. keep. Qed.

#[export] Instance keeps_clear_now : Keeps clear_inapplicable_now.
Proof. unfold clear_inapplicable_now. keep. Qed.

#[export] Instance keeps_notice : Keeps (deliverCIParkNotice r).
Proof. unfold deliverCIParkNotice, clear_record. keep. Qed.

#[export] Instance keeps_report_repair a b c d e : Keeps (reportCIRepair r a b c d e).
Proof. unfold reportCIRepair. keep. Qed.

#[export] Instance keeps_settlement : Keeps (deliverCISettlement r).
Proof. unfold deliverCISettlement, clear_record. keep. Qed.

#[export] Instance keeps_release : Keeps (deliverCIParkRelease r).
Proof. unfold deliverCIParkRelease, clear_record. keep. Qed.

#[export] Instance keeps_endings : Keeps (deliver_endings r).
Proof. unfold deliver_endings. keep. Qed.

#[export] Instance keeps_record_release p : Keeps (recordCIParkRelease r p).
Proof. unfold recordCIParkRelease. keep. Qed.

#[export] Instance keeps_window p q : Keeps (ciparkWindowExpired p q).
Proof. unfold ciparkWindowExpired. keep. Qed.

#[export] Instance keeps_cannot_park x : Keeps (source_cannot_park r x).
Proof. unfold source_cannot_park. keep. Qed.

Lemma keeps_reserve pr head n run s :
  good id run s -> w_phase s = Some PhaseVerifying ->
  spec (protocol id) (reserveCIRepair r pr head n) run s (fun s' run' _ => s' = s /\ like run' run).
Proof. intros Hg Hw. unfold reserveCIRepair. repeat (kstep; cbv beta iota). Qed.

(** ** Endings *)

Lemma good_copy run s : good id run s -> good id (copy run) s.
Proof. intros Hg. eapply good_like; [|exact Hg]. split; [done|by left]. Qed.

(** What [finishCIPark] is given: the fence of the attempt in flight. *)
Definition holds_fence (fenceToken : string) (st : CoderRunStatus) : Prop :=
  match CIRepair st with
  | Some a => rep_FenceToken a = "" \/ (rep_FenceToken a = fenceToken /\ exists p, CIPark st = Some p)
  | None => True
  end.

Lemma finish_park_ends run outcome token st : holds_fence token st -> ends_repair st (finish_park run outcome token st).
Proof.
  intros Hh. unfold ends_repair, finish_park. cbv zeta.
  change (CIPark (set_CIRepair (set_st_CIParkDeferral (set_CIPark st (with_outcome outcome <$> CIPark st)) None) None))
    with (with_outcome outcome <$> CIPark st).
  destruct (CIPark st) as [p|] eqn:Hp; cbn [fmap option_fmap option_map].
  - unfold holds_fence in Hh. destruct (String.eqb_spec token "") as [->|Hne]; (split; [done|]);
      destruct (CIRepair st) as [a|]; try done.
    + left. destruct Hh as [|[]]; done.
    + destruct Hh as [|[Hf _]]; [by left|right]. eexists. split; [reflexivity|]. by cbn.
  - split; [done|]. unfold holds_fence in Hh. rewrite Hp in Hh. destruct (CIRepair st); [|done].
    destruct Hh as [|(_ & ? & [=])]. by left.
Qed.

Lemma finish_park_phase run outcome token st :
  Phase (finish_park run outcome token st) = Phase st /\
  (CIPark st = None -> CIPark (finish_park run outcome token st) = None).
Proof.
  unfold finish_park. cbv zeta.
  change (CIPark (set_CIRepair (set_st_CIParkDeferral (set_CIPark st (with_outcome outcome <$> CIPark st)) None) None))
    with (with_outcome outcome <$> CIPark st).
  destruct (CIPark st) as [p|] eqn:Hp; cbn [fmap option_fmap option_map]; [destruct (String.eqb token "")|]; done.
Qed.

(** Reading the source's registry after the assignments of an ending changes
    nothing the automaton sees. *)
Lemma spec_record_release p run s (Q : watch -> CoderRun -> result error bool -> Prop) :
  (forall run' a, core run' = core run -> st_CISettlement (Status run') = st_CISettlement (Status run) ->
     (forall e, a = Err e -> failed e = true) -> Q s run' a) ->
  spec (protocol id) (recordCIParkRelease r p) run s Q.
Proof.
  intros HQ. unfold recordCIParkRelease. do 2 kstep. destruct (adapterAndWorkItem _ _) as [[adapter item]|e]; [|kstep; apply HQ; [done..|]; by intros ? [= <-]].
  destruct (is_cipark adapter); [|kstep; by apply HQ]. cbn [negb]. kstep. apply spec_assign. kstep. by apply HQ.
Qed.

Lemma finished_lands o mode run s :
  good id run s -> w_phase s = Some PhaseVerifying ->
  spec (protocol id) (_ ← deliver_endings r; if String.eqb mode Mode_FixPR
    then transitionTerminal r PhaseFailed (ob_PR o) intent_ci None
    else transitionTerminal r PhaseHandedOff (ob_PR o) no_intent None) run s (lands id).
Proof.
  intros Hg Hw. do 2 kstep.
  assert (Phase (Status run0) = PhaseVerifying) as Hph by (rewrite (good_phase _ _ _ Hg0) in Hw; congruence).
  case_match; apply lands_terminal; try done; by rewrite Hph.
Qed.

Lemma finish_lands o outcome token run s :
  good id run s -> Phase (Status run) = PhaseVerifying -> holds_fence token (Status run) ->
  spec (protocol id) (finishCIPark r o outcome token) run s (lands id).
Proof.
  intros Hg Hp Hh. unfold finishCIPark.
  apply spec_bind, spec_snapshot. do 2 kstep. cbv zeta. apply spec_bind, spec_assign. kstep.
  set (run1 := set_Status run (finish_park run outcome token (Status run))).
  destruct (finish_park_phase run outcome token (Status run)) as [Hp1 Hk1].
  assert (He1 := finish_park_ends run outcome token (Status run) Hh).
  eapply (spec_mono _ _ _ _ (fun s' run' (a : result error bool) => s' = s /\ core run' = core run1 /\
    st_CISettlement (Status run') = st_CISettlement (Status run1) /\ forall e, a = Err e -> failed e = true)).
  { destruct (CIPark (Status run)); [case_match|]; try (by kstep). apply spec_record_release. by intros. }
  intros ? run2 released (-> & Hc2 & Hs2 & Hf2).
  destruct released as [released|e]; [|kstep; intros Hf; specialize (Hf2 e eq_refl); cbn in Hf; congruence].
  assert (Hc2' := core_core_st _ _ Hc2). unfold core_st in Hc2'. injection Hc2' as Hp2 Hr2 Hk2.
  kstep. destruct (_ || released) eqn:Hch.
  - apply spec_patch_repair.
    + by apply good_copy.
    + unfold core in Hc2. by injection Hc2.
    + rewrite Hp2. exact Hp1.
    + apply (ends_repair_write id); [by apply good_copy|]. destruct He1 as [E1 E2]. split; [by rewrite Hr2|].
      change (CIRepair (Status (copy run))) with (CIRepair (Status run)). rewrite Hs2. exact E2.
    + rewrite (distinct_none (Status run2)); [by rewrite orb_true_r|]. rewrite Hr2. apply He1.
    + intros run3 s3 _ Hg3 Hw3. apply finished_lands; [done|]. by rewrite Hw3, (good_phase _ _ _ Hg), Hp.
    + intros run3 s3 e He. cbv beta. rewrite He. kstep. intros Hf. cbn in Hf. congruence.
  - apply orb_false_iff in Hch as [Hch _]. apply orb_false_iff in Hch as [Hch Hcr].
    apply orb_false_iff in Hch as [Hck _]. apply negb_false_iff in Hck, Hcr.
    kstep. apply finished_lands; [|by rewrite (good_phase _ _ _ Hg), Hp].
    eapply good_like; [|exact Hg]. unfold unset in Hck, Hcr.
    destruct (CIPark (Status run)) eqn:Ek; [done|]. destruct (CIRepair (Status run)) eqn:Er; [done|]. split.
    + rewrite Hc2. unfold core, run1, core_st. cbn [Status set_Status]. rewrite Hp1, Hk1, Ek, Er by done. by destruct He1 as [-> _].
    + left. rewrite Hs2. unfold run1, finish_park. cbv zeta. cbn [Status set_Status].
      change (CIPark (set_CIRepair (set_st_CIParkDeferral (set_CIPark (Status run) (with_outcome outcome <$> CIPark (Status run))) None) None))
        with (with_outcome outcome <$> CIPark (Status run)). by rewrite Ek.
Qed.

(** ** Abandonment *)

(** The run is known, in the phase it had, after a write that did not fail. *)
Definition stays (s : watch) (s' : watch) (run' : CoderRun) (e : error) : Prop :=
  failed e = false -> good id run' s' /\ w_phase s' = w_phase s.

(** A write that ends the attempt and the park, then a best-effort delivery. *)
Lemma abandon_write (st : CoderRunStatus) (deliver : M delivery) run s :
  Keeps deliver -> good id run s -> Phase st = Phase (Status run) -> ends_repair (Status run) st ->
  spec (protocol id) (e ← patch (copy run); if failed e then mret e else _ ← deliver; mret []) (set_Status run st) s (stays s).
Proof.
  intros HK Hg Hp He. kstep. apply spec_patch_repair.
  - by apply good_copy.
  - done.
  - exact Hp.
  - apply (ends_repair_write id); [by apply good_copy|exact He].
  - rewrite distinct_none; [by rewrite orb_true_r|]. apply He.
  - intros run1 s1 _ Hg1 Hw1. cbn [failed]. do 3 kstep. done.
  - intros run1 s1 e Hf. cbv beta. rewrite Hf. kstep. intros Hf'. congruence.
Qed.

Lemma stays_fenced attempt o run s :
  good id run s -> CIRepair (Status run) = Some attempt ->
  spec (protocol id) (abandonFencedCIPark r attempt o) run s (stays s).
Proof.
  intros Hg Ha. unfold abandonFencedCIPark. apply spec_bind, spec_snapshot. do 2 kstep. apply spec_bind, spec_assign.
  apply abandon_write; [apply _|done|done|]. split; [done|]. rewrite Ha. right. eexists. split; [reflexivity|].
  unfold fenced_settlement. by repeat case_match.
Qed.

Lemma set_Status_twice run a b : set_Status (set_Status run a) b = set_Status run b.
Proof. reflexivity. Qed.

Lemma stays_abandon o run s : good id run s -> spec (protocol id) (abandonCIPark r o) run s (stays s).
Proof.
  intros Hg. unfold abandonCIPark. do 2 kstep. cbv zeta.
  match goal with |- spec _ (match _ with Some _ => if _ then ?p else _ | None => _ end) _ _ _ =>
    assert (Hun : match CIRepair (Status run) with Some a => rep_FenceToken a = "" | None => True end ->
      spec (protocol id) p run s (stays s)) end.
  { intros Hf. destruct (CIPark (Status run)) as [park|]; [|kstep; by intros _].
    apply spec_bind, spec_snapshot. unfold recordCIParkRelease. do 3 kstep.
    assert (Hend : forall st, CIRepair st = None -> ends_repair (Status run) st).
    { intros st Hn. split; [done|]. destruct (CIRepair (Status run)); [by left|done]. }
    destruct (adapterAndWorkItem _ _) as [[adapter item]|e]; [|do 2 kstep; unfold stays; discriminate].
    destruct (is_cipark adapter); cbn [negb].
    - kstep. apply spec_assign. kstep. apply spec_bind, spec_assign. rewrite set_Status_twice.
      apply (abandon_write _ (deliverCIParkRelease r) run s _ Hg); [reflexivity|apply Hend; reflexivity].
    - kstep. apply spec_bind, spec_assign.
      apply (abandon_write _ (deliverCIParkRelease r) run s _ Hg); [reflexivity|apply Hend; reflexivity]. }
  destruct (CIRepair (Status run)) as [a|] eqn:Ha; [|by apply Hun].
  destruct (String.eqb_spec (rep_FenceToken a) ""); [by apply Hun|]. by apply stays_fenced.
Qed.

(** ** Verdicts *)

Definition anyhow {A} (_ : watch) (_ : CoderRun) (_ : A) : Prop := True.

Lemma lands_anyhow (p : M Terminal.outcome) run s : spec (protocol id) p run s (lands id) -> spec (protocol id) p run s anyhow.
Proof. intros Hp. by eapply spec_mono. Qed.

(** A run whose attempt has ended can finish without a fence. *)
Lemma finish_anyhow o outcome run s :
  good id run s -> Phase (Status run) = PhaseVerifying -> CIRepair (Status run) = None ->
  spec (protocol id) (finishCIPark r o outcome "") run s anyhow.
Proof. intros Hg Hp Hr. apply lands_anyhow, finish_lands; [done..|]. unfold holds_fence. by rewrite Hr. Qed.

Lemma like_fields run' run :
  like run' run -> Phase (Status run') = Phase (Status run) /\ CIRepair (Status run') = CIRepair (Status run) /\ CIPark (Status run') = CIPark (Status run).
Proof. intros [Hc _]. apply core_core_st in Hc. by injection Hc. Qed.

Section Parked.
(** The run inside the loop: its attempt has ended, its park is recorded. *)
Definition parked (park : CIParkState) (run : CoderRun) : Prop :=
  Phase (Status run) = PhaseVerifying /\ CIRepair (Status run) = None /\ CIPark (Status run) = Some park.

Lemma parked_like park run run' : like run' run -> parked park run -> parked park run'.
Proof. intros (Hp & Hr & Hk)%like_fields. unfold parked. by rewrite Hp, Hr, Hk. Qed.

Lemma int_succ_ne a : int_add a 1 <> a.
Proof.
  unfold int_add, wrap64. intros H. assert (Hm := Z.mod_pos_bound (a + 1 + 2 ^ 63) (2 ^ 64) eq_refl).
  assert (Hd := Z.div_mod (a + 1 + 2 ^ 63) (2 ^ 64)). lia.
Qed.

(** Arming a repair: the last write of its reconcile. *)
Lemma parked_arm park attempt context run s :
  good id run s -> parked park run ->
  attempt <> park_Attempts park -> rep_Head context = park_Head park -> rep_Attempt context = attempt ->
  spec (protocol id) (before ← snapshot;
    _ ← assign (fun st => set_Phase (set_CIRepair (set_CIPark st (with_attempts attempt <$> CIPark st)) (Some context)) PhaseClaimed);
    e ← patch before; mret (res0, e)) run s anyhow.
Proof.
  intros Hg Hp Hne Hh Ha. destruct Hp as (Hph & Hr & Hk). apply spec_bind, spec_snapshot, spec_bind, spec_assign. kstep.
  apply spec_patch; [apply protocol_quiet|]. intros st Hst. split; [intros _; by kstep|]. intros fields ok e -> _ _.
  eexists. split; [|by cbv beta; kstep]. unfold protocol, legal, phase_write. rewrite (repair_write_stamped _ _ _ _ Hst).
  rewrite (good_phase _ _ _ Hg), Hph.
  assert (Cp : Phase (Status (copy run)) = PhaseVerifying) by exact Hph.
  assert (Cr : CIRepair (Status (copy run)) = None) by exact Hr.
  assert (Ck : CIPark (Status (copy run)) = Some park) by exact Hk.
  set (before := Status (copy run)) in *.
  assert (op_Phase (operator_fields before st) = PhaseClaimed) as ->.
  { cbn [operator_fields op_Phase]. assert (Phase st = PhaseClaimed) as -> by (by destruct Hst as [->|[p ->]]). by rewrite Cp. }
  match goal with |- context [repair_write s ?f] => assert (repair_write s f = true) as ->; [|reflexivity] end.
  unfold repair_write. cbn [op_CIRepair op_CIPark op_Phase operator_fields Status set_Status set_Phase set_CIRepair set_CIPark
    CIRepair CIPark Phase]. rewrite Cr, Ck, Cp, Hk. cbn [fmap option_fmap option_map]. unfold clearable.
  rewrite decide_False by done. rewrite decide_False by (intros E; apply (f_equal (option_map park_Attempts)) in E; cbn in E; congruence).
  unfold armed_with. cbn [with_attempts park_Head park_Attempts]. by rewrite Hh, Ha, String.eqb_refl, Z.eqb_refl.
Qed.

Variables (park : CIParkState) (policy : CIRepairPolicy) (o : PRObservation) (run : CoderRun) (s : watch).
Hypothesis Hg : good id run s.
Hypothesis Hp : parked park run.

Lemma parked_hold : spec (protocol id) (holdCIPark r park policy o) run s anyhow.
Proof.
  unfold holdCIPark. do 2 kstep. assert (Hp0 := parked_like _ _ _ Hc Hp).
  case_match; [by apply finish_anyhow; [|apply Hp0..]|by kstep].
Qed.

Lemma parked_terminal phase pr intent run' s' :
  good id run' s' -> like run' run -> edge PhaseVerifying phase = true -> ending phase = true -> phase <> PhaseDone ->
  spec (protocol id) (transitionTerminal r phase pr intent None) run' s' anyhow.
Proof.
  intros Hg' Hl He Hend Hnd. apply lands_anyhow, lands_terminal; try done.
  destruct (parked_like _ _ _ Hl Hp) as [-> _]. exact He.
Qed.

Lemma parked_green settled : spec (protocol id) (settleCIParkGreen r o settled) run s anyhow.
Proof.
  unfold settleCIParkGreen. repeat (kstep; cbv beta iota);
    first [exact I|apply parked_terminal; [assumption|likes|reflexivity|reflexivity|discriminate]].
Qed.

Lemma parked_settle configured remaining a b : spec (protocol id) (settleCIPark r o configured remaining a b) run s anyhow.
Proof.
  unfold settleCIPark. do 2 kstep. case_match; [apply parked_green|]. case_match; [by kstep|].
  by apply finish_anyhow; [|apply Hp..].
Qed.

Lemma parked_resume selector settled : spec (protocol id) (resumeCIPark r park policy o selector settled) run s anyhow.
Proof.
  assert (Hend : forall o outcome run', good id run' s -> like run' run ->
    spec (protocol id) (finishCIPark r o outcome "") run' s anyhow).
  { intros. assert (Hp' : parked park run') by (by eapply parked_like). by apply finish_anyhow; [|apply Hp'..]. }
  unfold resumeCIPark. case_match; [by kstep|]. do 2 kstep. case_match; [by apply Hend|]. do 2 kstep.
  kstep; [|by kstep]. kstep; [|by kstep]. cbv zeta. kstep.
  assert (Hl : like run1 run) by likes. assert (Hp1 := parked_like _ _ _ Hl Hp).
  eapply spec_mono; [apply keeps_reserve; [done|]; rewrite (good_phase _ _ _ Hg1); by destruct Hp1 as [-> _]|].
  intros ? run2 token [-> Hl2]. assert (Hg2 := good_like _ _ _ _ Hl2 Hg1).
  destruct token as [token|e]; [|case_match; [apply Hend; [done|likes]|by kstep]].
  apply (parked_arm park); [done|by eapply parked_like|apply int_succ_ne|done..].
Qed.
End Parked.

(** ** One observation *)

(** The write of an observation ends the attempt and settles its fence. *)
Lemma advance_park_ends now head attempt park established republished run0 a b st :
  CIRepair st = attempt -> fence_inv st -> nextCIPark (CIPark st) head attempt now = Park park established republished ->
  ends_repair st (advance_park r run0 park established republished attempt head a b st).
Proof.
  intros Ha Hf Hn. unfold ends_repair, fence_inv in *. rewrite Ha in *.
  assert (Hnone : forall st, CIRepair (advance_park r run0 park established republished attempt head a b st) = None).
  { intros. unfold advance_park. cbv zeta. repeat case_match; reflexivity. }
  split; [apply Hnone|]. destruct attempt as [c|]; [|done].
  destruct Hf as [?|(p & Hk & Hpos & Hh)]; [by left|]. rewrite Hk in Hn. unfold nextCIPark in Hn.
  rewrite Hh in Hn. destruct (String.eqb_spec (rep_Head c) head) as [_|Hne]; cbn [negb] in Hn.
  - rewrite String.eqb_refl in Hn. destruct (Z.ltb_spec 0 (park_Attempts p)); [discriminate Hn|lia].
  - destruct (Z.ltb_spec 0 (park_Attempts p)); [|lia]. injection Hn as <- <- <-. 
    destruct (String.eqb_spec (rep_FenceToken c) "") as [?|Hne']; [by left|right].
    unfold advance_park. cbv zeta. cbn [andb negb]. apply String.eqb_neq in Hne'. rewrite Hne'. cbn [negb].
    destruct (owes_notice r run0); eexists; (split; [reflexivity|reflexivity]).
Qed.

Lemma advance_park_core run0 park established republished attempt head a b st :
  core_st (advance_park r run0 park established republished attempt head a b st) = (Phase st, None, Some park).
Proof. unfold advance_park. cbv zeta. repeat case_match; reflexivity. Qed.

Lemma advance_park_settles run0 park established republished head a b st :
  st_CISettlement (advance_park r run0 park established republished None head a b st) = st_CISettlement st.
Proof. unfold advance_park. cbv zeta. repeat case_match; reflexivity. Qed.

#[export] Instance keeps_ret {A} (a : A) : Keeps (mret a).
Proof. keep. Qed.

(** The rest of an observation, the park recorded. *)
Lemma parked_rest park policy o (a b : M delivery) trigger run s selector f g configured remaining :
  Keeps a -> Keeps b -> good id run s -> parked park run ->
  spec (protocol id) (_ ← a; _ ← b;
    match (trigger : CIParkTrigger) with
    | CIParkHold => holdCIPark r park policy o
    | CIParkResumeRepair => resumeCIPark r park policy o selector f
    | CIParkFinish => settleCIPark r o configured remaining f g
    end) run s anyhow.
Proof.
  intros Ka Kb Hg Hp. do 4 kstep. assert (Hl : like run1 run) by likes. assert (Hp1 := parked_like _ _ _ Hl Hp).
  destruct trigger; [by apply parked_hold|by apply parked_resume|by eapply parked_settle].
Qed.

Lemma park_unchanged cleared o before st :
  park_changed cleared o before st = false -> negb (bool_decide (CIPark st = CIPark before)) = false /\ negb (unset (CIRepair before)) = false.
Proof.
  unfold park_changed. intros H. do 3 apply orb_false_iff in H as [H _]. apply orb_false_iff in H as [H Hr].
  apply orb_false_iff in H as [_ Hk]. done.
Qed.

Lemma observe_parked_ok policy o head run s :
  good id run s -> Phase (Status run) = PhaseVerifying -> fence_inv (Status run) ->
  spec (protocol id) (observe_parked r policy o head) run s anyhow.
Proof.
  intros Hg Hp Hf. unfold observe_parked. apply spec_bind, spec_snapshot. do 8 kstep. cbv zeta.
  assert (Hl : like run1 run) by likes. destruct (like_fields _ _ Hl) as (Hp1 & Hr1 & Hk1).
  assert (Hf1 : fence_inv (Status run1)) by (unfold fence_inv; by rewrite Hr1, Hk1).
  destruct (nextCIPark _ _ _ _) as [park established republished|] eqn:Hn.
  - destruct (ciparkFingerprints _ _) as [failedCandidate greenCandidate]. apply spec_bind, spec_assign. do 2 kstep.
    set (st2 := advance_park r run1 park established republished (CIRepair (Status run1)) head failedCandidate greenCandidate (Status run1)).
    set (run2 := set_Status run1 st2). assert (Hid : same_id run2 run) by (destruct Hl as [Hl _]; unfold core in Hl; by injection Hl).
    assert (He : ends_repair (Status run1) st2) by (by apply (advance_park_ends now)).
    assert (Hcore : core_st st2 = (Phase (Status run1), None, Some park)) by apply advance_park_core.
    assert (Hp2 : Phase st2 = Phase (Status run1)) by exact (f_equal (fun x => x.1.1) Hcore).
    assert (Hr2 : CIRepair st2 = None) by exact (f_equal (fun x => x.1.2) Hcore).
    assert (Hk2 : CIPark st2 = Some park) by exact (f_equal snd Hcore).
    assert (Hpk : parked park run2) by (split; [rewrite <- Hp, <- Hp1; exact Hp2|done]).
    kstep. destruct (park_changed _ _ _ _ || _) eqn:Hch.
    + apply spec_patch_repair.
      * by apply good_copy.
      * exact Hid.
      * change (Phase st2 = Phase (Status run)). by rewrite Hp2.
      * apply (ends_repair_write id); [by apply good_copy|]. change (ends_repair (Status run) st2).
        destruct He as [He1 He2]. split; [done|]. by rewrite <- Hr1.
      * rewrite distinct_none; [by rewrite orb_true_r|done].
      * intros run3 s3 Hl3 Hg3 _. cbv beta. cbn [failed]. apply parked_rest; [by case_match; apply _..|done|by eapply parked_like].
      * intros run3 s3 e Hfail. cbv beta. rewrite Hfail. by kstep.
    + kstep. cbn [failed]. apply parked_rest; [by case_match; apply _..| |done]. eapply good_like; [|exact Hg1].
      apply orb_false_iff in Hch as [Hch _]. apply park_unchanged in Hch as [Hck Hcr]. apply negb_false_iff in Hck, Hcr. apply bool_decide_eq_true in Hck.
      change (CIPark st2 = CIPark (Status run)) in Hck. change (unset (CIRepair (Status run)) = true) in Hcr.
      destruct (CIRepair (Status run)) eqn:Hr; [discriminate Hcr|]. split.
      * unfold core. change (core_st (Status run2)) with (core_st st2). rewrite Hcore. unfold core_st. rewrite Hr1, ?Hr, Hk1, <- Hck, Hk2. reflexivity.
      * left. unfold run2, st2. rewrite Hr1. apply advance_park_settles.
  - apply lands_anyhow, finish_lands; [done|congruence|]. unfold holds_fence.
    destruct (CIRepair (Status run1)) as [c|]; [|done]. right. split; [done|].
    unfold nextCIPark in Hn. destruct (CIPark (Status run1)); [by eexists|discriminate Hn].
Qed.

(** After an observation the ordinary path owns, the run is known in the phase it had. *)
Definition park_post (s s' : watch) (run' : CoderRun) (out : park_result) : Prop :=
  out.1 = false -> failed out.2.2 = false -> good id run' s' /\ w_phase s' = w_phase s.

Lemma leave_loop_ok o run s : good id run s -> spec (protocol id) (leave_loop r o) run s (park_post s).
Proof.
  intros Hg. unfold leave_loop. kstep. eapply spec_mono; [by apply stays_abandon|]. intros s' run' e He. kstep.
  intros _ Hf. by apply He.
Qed.

Lemma keeps_ordinary (p : M error) run s :
  Keeps p -> good id run s -> spec (protocol id) (e ← p; mret (ordinary e)) run s (park_post s).
Proof. intros K Hg. do 3 kstep. by intros _ _. Qed.

Lemma observe_cipark_ok o run s :
  good id run s -> Phase (Status run) = PhaseVerifying -> fence_inv (Status run) ->
  spec (protocol id) (observeCIPark r o) run s (park_post s).
Proof.
  intros Hg Hp Hf. unfold observeCIPark. do 2 kstep. destruct a as [[policy|]|e]; [| |kstep; by intros _ _].
  - case_match; [by apply leave_loop_ok|]. do 2 kstep. cbv zeta. kstep.
    destruct (like_fields _ _ Hc) as (Hp0 & Hr0 & Hk0).
    assert (Hf0 : fence_inv (Status run0)) by (unfold fence_inv; by rewrite Hr0, Hk0).
    eapply (spec_mono _ _ _ _ (fun s' run' _ => s' = s /\ like run' run0)); [case_match; repeat kstep|].
    intros ? run1 skewed [-> Hl1]. assert (Hg1 := good_like _ _ _ _ Hl1 Hg0).
    destruct (like_fields _ _ Hl1) as (Hp1 & Hr1 & Hk1).
    assert (Hf1 : fence_inv (Status run1)) by (unfold fence_inv; by rewrite Hr1, Hk1).
    destruct (publishedHead _ _) as [head|].
    + destruct skewed; [by apply keeps_ordinary; [apply _|]|]. kstep.
      eapply spec_mono; [apply observe_parked_ok; [done|congruence|done]|]. intros. by kstep.
    + destruct (skewed || _) eqn:Hs; [by apply keeps_ordinary; [apply _|]|]. kstep.
      eapply spec_mono; [apply finish_lands; [done|congruence|]|intros; by kstep].
      unfold holds_fence, fence_inv in *. rewrite Hr1 in *. destruct (CIRepair (Status run0)); [|done].
      destruct Hf1 as [?|(p & Hk & _)]; [by left|right]. split; [done|by eexists].
  - do 2 kstep. kstep; [kstep; by intros _ [=]|].
    eapply spec_mono; [by apply leave_loop_ok|]. done.
Qed.
End Park.
