(* ===== verification/ProtocolObserve.v ===== *)
(** * Observation follows the protocol

    The observations of Running, Verifying and settled AwaitingReview runs are
    accepted by the automaton of Protocol.v.  Liveness recovery, pod loss and the secure topology decide on a live copy
    of the run: a verdict that leaves the caller in charge has written nothing,
    a relaunch returns Running to Claimed with the repair attempt intact, and
    pods are deleted only while the run is Running or Claimed. *)

From S2P Require Import Prelude Effects GoStrings GoTime Run StatusPatch Lane Kube Backoff Reap Retry World Logic Pods Report.
From S2P Require Import Capacity Terminal Checks CIPark Liveness Observe Protocol ProtocolTerminal ProtocolPark.
Local Open Scope string_scope.
Local Open Scope Z_scope.
#[local] Hint Constants Opaque : typeclass_instances.
#[local] Hint Transparent error Terminal.outcome delivery : typeclass_instances.

#[local] Hint Resolve like_refl : core.

(** ** Handlers that keep the run while it owns pods *)

Class Within (phases : list string) (s : watch) : Prop := is_within : within phases s = true.

Definition pod_phases : list string := [PhaseRunning; PhaseClaimed].

Class KeepsAt {AS : Assume} (id : CoderRun) (s : watch) {A} (p : M A) : Prop :=
  keeps_at : forall run, good id run s -> spec (protocol id) p run s (fun s' run' _ => s' = s /\ like run' run).

#[export] Instance keeps_keeps_at {AS : Assume} id s {A} (p : M A) : Keeps id p -> KeepsAt id s p.
Proof. intros K run Hg. by apply K. Qed.

Lemma spec_keeps_at {AS : Assume} id {A} (p : M A) s {K : KeepsAt id s p} run (Q : watch -> CoderRun -> A -> Prop) :
  good id run s -> (forall run' a, like run' run -> good id run' s -> Q s run' a) -> spec (protocol id) p run s Q.
Proof.
  intros Hg HQ. eapply spec_mono; [by apply keeps_at|]. intros s' run' a [-> Hl]. apply HQ; [done|]. by eapply good_like.
Qed.

Lemma spec_on_copy {AS : Assume} id {A} fresh (p : M A) run s (Q : watch -> CoderRun -> A -> Prop) :
  spec (protocol id) p fresh s (fun s' _ a => Q s' run a) -> spec (protocol id) (on_copy fresh p) run s Q.
Proof.
  intros Hp. unfold spec, on_copy in *. apply mon_bind. eapply mon_mono; [|exact Hp]. by intros s' [run' a].
Qed.

Ltac kat := first [kstep | eapply spec_keeps_at; [typeclasses eauto|eassumption|intros ?run ?a ?Hc ?Hg]].
Ltac keep_at := intros ?run ?Hg; repeat (kat; cbv beta iota).

Ltac kif := match goal with |- spec _ (match ?x with _ => _ end) _ _ _ => destruct x eqn:? end.

(** The run reached so far is like the one the handler was given. *)
Ltac like_here run H := match goal with |- spec _ _ ?x _ _ => assert (H : like x run) by likes end.

Ltac dfail := match goal with |- context [failed ?e] => destruct (failed e) end.

Ltac kend := kstep; first [done|by intros _].

(** One bound handler that keeps the run, its choices included. *)
#[export] Hint Extern 2 (KeepsAt _ _ (match ?x with _ => _ end)) => destruct x : typeclass_instances.
#[export] Hint Extern 2 (KeepsAt _ _ (mbind _ _)) => solve [keep_at] : typeclass_instances.
Ltac kbind := apply spec_bind; eapply spec_keeps_at; [typeclasses eauto|eassumption|intros ?run ?a ?Hc ?Hg].

Section Live.
Context {AS : Assume} {CO : ConditionOps} {CD : Codec}.
Variable r : Reconciler.
Variable id : CoderRun.
Abbreviation Keeps := (Keeps id).

#[export] Instance keeps_list_labels ns vs acc : Keeps (list_labels ns vs acc).
Proof. revert acc. induction vs as [|v vs IH]; intros acc; simpl; keep. Qed.

#[export] Instance keeps_live_pods : Keeps live_pods.
Proof. unfold live_pods. keep. Qed.

#[export] Instance keeps_name_free : Keeps name_free.
Proof. unfold name_free, coordinatorObjectPresentLive. keep. Qed.

#[export] Instance keeps_pod_of_component live comp : Keeps (podOfComponent live comp).
Proof. unfold podOfComponent. keep. Qed.

#[export] Instance keeps_delete_service : Keeps delete_broker_service.
Proof. unfold delete_broker_service. keep. Qed.

#[export] Instance keeps_recent_start css : Keeps (recent_start r css).
Proof. induction css; simpl; keep. Qed.

#[export] Instance keeps_fresh_pod run0 pods : Keeps (fresh_pod r run0 pods).
Proof. induction pods; simpl; keep. Qed.

#[export] Instance keeps_soft_stop pods : Keeps (syncSoftStop pods).
Proof. unfold syncSoftStop, clearSoftStopCondition. keep. Qed.

Section At.
Context (s : watch) {W : Within pod_phases s}.
Abbreviation KeepsAt := (KeepsAt id s).

Lemma keeps_delete pod uid : exact_delete pod uid = true -> KeepsAt (delete_ignoring_absent pod uid).
Proof.
  intros He run Hg. unfold delete_ignoring_absent. kstep.
  apply spec_pass; [intros x; apply pass; [|done]; apply andb_true_iff; split; [exact W|exact He]|]. intros x. repeat kstep.
Qed.

#[export] Instance keeps_delete_observed pod : KeepsAt (deleteObservedPod pod).
Proof. unfold deleteObservedPod. apply keeps_delete. unfold exact_delete. by rewrite String.eqb_refl. Qed.

(** A pod found by its component. *)
Lemma exact_component pod comp :
  member comp [ComponentWorker; ComponentBroker] = true -> component pod = comp -> exact_delete pod None = true.
Proof. intros Hm <-. unfold exact_delete. by rewrite Hm, orb_true_r. Qed.

Lemma pod_of_component_ok live comp run :
  good id run s ->
  spec (protocol id) (podOfComponent live comp) run s
    (fun s' run' out => s' = s /\ like run' run /\ forall pod, out = Ok (Some pod) -> component pod = comp).
Proof.
  intros Hg. unfold podOfComponent. do 5 kstep. split; [done|]. split; [done|]. intros pod Hp. destruct x as [pods|]; [|done].
  injection Hp as Hp. apply find_some in Hp as [_ Hp]. apply andb_true_iff in Hp as [_ Hp]. by apply String.eqb_eq.
Qed.

Lemma keeps_delete_component comp : member comp [ComponentWorker; ComponentBroker] = true -> KeepsAt (delete_component comp).
Proof.
  intros Hm run Hg. unfold delete_component. kstep. eapply spec_mono; [by apply pod_of_component_ok|].
  intros ? run' out (-> & Hl & Hp). assert (Hg' := good_like _ _ _ _ Hl Hg).
  destruct out as [[pod|]|e]; [|by kstep..]. assert (He := exact_component pod comp Hm (Hp pod eq_refl)).
  eapply spec_mono; [by apply keeps_delete|]. intros ? ? ? [-> ?]. split; [done|]. by eapply like_trans.
Qed.

#[export] Instance keeps_fence : KeepsAt Fence.
Proof.
  assert (keeps_worker := keeps_delete_component ComponentWorker eq_refl).
  assert (keeps_broker := keeps_delete_component ComponentBroker eq_refl).
  unfold Fence. keep_at.
Qed.

#[export] Instance keeps_fence_if : KeepsAt (fence_if_secure r).
Proof. unfold fence_if_secure. keep_at. Qed.

Lemma keeps_delete_topology pods comp :
  member comp [ComponentWorker; ComponentBroker] = true -> KeepsAt (delete_unless_deleting (topology_pod pods comp)).
Proof.
  intros Hm. unfold delete_unless_deleting. destruct (topology_pod pods comp) as [pod|] eqn:Ht; [|apply _].
  destruct (deleting pod); [apply _|]. apply keeps_delete, (exact_component pod comp Hm).
  unfold topology_pod in Ht. apply last_Some_elem_of, list_elem_of_In, filter_In in Ht as [_ Ht].
  apply andb_true_iff in Ht as [_ Ht]. by apply String.eqb_eq.
Qed.

Lemma keeps_delete_all pods : Forall (fun pod => coordinatorPodUnrecoverable pod = true) pods -> KeepsAt (delete_all pods).
Proof.
  induction 1 as [|pod pods Hd _ IH]; simpl; [apply _|].
  assert (Hk : KeepsAt (delete_ignoring_absent pod None))
    by (apply keeps_delete; unfold exact_delete; apply andb_true_iff in Hd as [-> _]; by rewrite orb_true_r).
  keep_at.
Qed.

Lemma scan_loss_dead run pods dead out :
  Forall (fun pod => coordinatorPodUnrecoverable pod = true) dead -> scan_loss run pods dead = Dead out ->
  Forall (fun pod => coordinatorPodUnrecoverable pod = true) out.
Proof.
  revert dead. induction pods as [|pod pods IH]; intros dead Hd; simpl; [by intros [= <-]|].
  destruct (negb _); [by apply IH|]. destruct (deleting pod); [done|].
  destruct (coordinatorPodUnrecoverable pod) eqn:Hp; [|done]. apply IH, Forall_app. split; [done|by constructor].
Qed.

#[export] Instance keeps_reap_pods c run0 pods d p : KeepsAt (reap_pods c run0 pods d p).
Proof. revert d p. induction pods; intros; simpl; keep_at. Qed.
End At.


(** ** Live reads *)

(** A live read adds what it found; the run stays known. *)
Lemma good_live run s x : good id run s -> good id run (advance s (ALive x)).
Proof.
  intros [Hp Hr Hd Hn Hm Hu]. constructor; try done; cbn [advance w_repairs w_free]; [by right|].
  by rewrite <- orb_assoc, (orb_comm (negb _)), orb_assoc, Hd.
Qed.

(** A live copy of the same incarnation in the known phase is known. *)
Lemma good_fresh run s live :
  good id run s -> UID live = UID run -> Phase (Status live) = Phase (Status run) ->
  good id (keyed (Namespace run) (run_Name run) live)
    (advance s (ALive (keyed (Namespace run) (run_Name run) live))).
Proof.
  intros [Hp Hr Hd Hn Hm Hu] Eu Ep. constructor; cbn; try congruence; [by left|].
  by rewrite <- orb_assoc, orb_negb_l, orb_true_r.
Qed.

Lemma spec_get_live ns name run s (Q : watch -> CoderRun -> result api_error CoderRun -> Prop) :
  (forall e, Q s run (Err e)) -> (forall live, Q (advance s (ALive (keyed ns name live))) run (Ok live)) ->
  spec (protocol id) (io (GetRunLive ns name)) run s Q.
Proof. intros He Ho. apply spec_io. intros [live|e]; eexists; (split; [reflexivity|]); [apply Ho|apply He]. Qed.

(** A verdict that leaves the caller in charge. *)
Definition undecided (run : CoderRun) (s s' : watch) (run' : CoderRun) (v : verdict) : Prop :=
  v.1.2 = false -> good id run' s' /\ w_phase s' = w_phase s /\ like run' run.

Lemma phase_within run s q : good id run s -> Phase (Status run) = q -> member q pod_phases = true -> Within pod_phases s.
Proof. intros Hg <- Hm. unfold Within, within. by rewrite (good_phase _ _ _ Hg). Qed.

(** ** Relaunch *)

Lemma charge_relaunch_core now st :
  core_st (chargeRelaunch now st) = (PhaseClaimed, CIRepair st, CIPark st) /\
  st_CISettlement (chargeRelaunch now st) = st_CISettlement st.
Proof. unfold chargeRelaunch, softStopBeforeRelaunch. cbv zeta. by repeat case_match. Qed.

Lemma spec_charge {A} (K : error -> M A) run s (Q : watch -> CoderRun -> A -> Prop) :
  good id run s -> Phase (Status run) = PhaseRunning ->
  (forall run' s', good id run' s' -> spec (protocol id) (K []) run' s' Q) ->
  (forall run' s' e, failed e = true -> spec (protocol id) (K e) run' s' Q) ->
  spec (protocol id) (before ← snapshot; now ← clock; _ ← assign (chargeRelaunch now); e ← patch before; K e) run s Q.
Proof.
  intros Hg Hp HK HF. apply spec_bind, spec_snapshot. do 2 kstep.
  destruct (charge_relaunch_core now (Status run)) as [Hc Hs].
  apply (spec_move id) with (new := PhaseClaimed); auto using good_copy. by rewrite Hp.
Qed.

Lemma lands_relaunch reason event diagnostic run s :
  good id run s -> Phase (Status run) = PhaseRunning ->
  spec (protocol id) (relaunchAfterInfraLoss r reason event diagnostic) run s (lands id).
Proof.
  intros Hg Hp. unfold relaunchAfterInfraLoss. do 2 kstep. case_match; [apply lands_terminal; try done; by rewrite Hp|].
  apply spec_charge; [done..| |]; intros.
  - cbn [failed]. do 5 kstep. by intros _.
  - rewrite H0. kstep. intros Hf. cbn in Hf. congruence.
Qed.

Lemma lands_needs_human detail run s :
  good id run s -> edge (Phase (Status run)) PhaseNeedsHuman = true ->
  spec (protocol id) (transitionNeedsHuman r detail) run s (lands id).
Proof.
  intros Hg He. unfold transitionNeedsHuman. do 5 kstep. kstep. apply lands_terminal; try done.
  by destruct (like_fields _ _ Hc) as (-> & _).
Qed.

Definition decided (_ : watch) (_ : CoderRun) (v : verdict) : Prop := v.1.2 = true.

Lemma like_phase run run' q : like run' run -> Phase (Status run) = q -> Phase (Status run') = q.
Proof. intros (Hp & _)%like_fields. congruence. Qed.

Lemma relaunch_live_ok secure run s :
  good id run s -> Phase (Status run) = PhaseRunning -> spec (protocol id) (relaunch_live r secure) run s decided.
Proof.
  intros Hg Hp. assert (W := phase_within _ _ _ Hg Hp eq_refl). unfold relaunch_live.
  kbind. destruct a as [control|e]; [|by kstep]. do 2 kstep. kif; [kbind; kstep; by dfail|]. cbv zeta.
  kbind. kif; [by kstep|]. kif; [by kstep|]. kbind. kif; [by kstep|].
  kbind. kif; [by kstep|]. like_here run Hl. assert (Hp4 := like_phase _ _ _ Hl Hp).
  kif.
  - kstep. eapply spec_mono; [apply lands_needs_human; [done|by rewrite Hp4]|]. intros. by kstep.
  - apply (spec_charge (fun e => mret (if failed e then stop res0 e else stop requeue_now []))); [done..| |]; intros; cbv beta; kstep; unfold decided; dfail; reflexivity.
Qed.

Lemma fence_and_relaunch_ok secure run s :
  good id run s -> Phase (Status run) = PhaseRunning -> spec (protocol id) (fenceAndRelaunch r secure) run s decided.
Proof.
  intros Hg Hp. unfold fenceAndRelaunch. do 2 kstep. kstep. apply spec_get_live; [by intros; kstep|]. intros live. cbv zeta.
  destruct (_ || _) eqn:Hx; [by kstep|]. apply orb_false_iff in Hx as [Hx _]. apply orb_false_iff in Hx as [Hu Hq].
  apply negb_false_iff, String.eqb_eq in Hu, Hq. apply spec_on_copy.
  eapply spec_mono; [apply relaunch_live_ok; [apply good_fresh; [done|exact Hu|by rewrite Hp]|exact Hq]|]. done.
Qed.

Lemma observe_topology_ok secure pods run s :
  good id run s -> Phase (Status run) = PhaseRunning -> spec (protocol id) (ObserveTopology r secure pods) run s (undecided run s).
Proof.
  intros Hg Hp. assert (W := phase_within _ _ _ Hg Hp eq_refl). unfold ObserveTopology.
  assert (Hgo : forall run', good id run' s -> like run' run -> spec (protocol id) (mret go_on) run' s (undecided run s)) by (intros; by kstep).
  do 2 kstep. kif; [by apply Hgo|]. cbv zeta. kif; [|by apply Hgo]. kif.
  - assert (keeps_worker := keeps_delete_topology s pods ComponentWorker eq_refl).
    assert (keeps_broker := keeps_delete_topology s pods ComponentBroker eq_refl).
    unfold fence_terminated. kbind. kif; [by kstep|]. kbind. kif; [by kstep|]. kbind. kstep.
    dfail; [done|]. intros _. split; [done|]. split; [done|]. likes.
  - kif; [by apply Hgo|]. kbind. kif; [by kstep|]. assert (Hp0 := like_phase _ _ _ Hc Hp).
    repeat kif; try (by apply Hgo); (eapply spec_mono; [by apply fence_and_relaunch_ok|]); intros ? ? v Hv Hf;
      unfold decided in Hv; congruence.
Qed.

(** ** Pod loss *)

Lemma lands_missing run s :
  good id run s -> Phase (Status run) = PhaseRunning -> spec (protocol id) (observeMissingCoordinator r) run s (lands id).
Proof.
  intros Hg Hp. assert (W := phase_within _ _ _ Hg Hp eq_refl). unfold observeMissingCoordinator.
  do 2 kstep. kbind. destruct a; [|kend]. kif; [kend..|]. cbv zeta.
  match goal with H : scan_loss _ _ _ = Dead ?dead |- _ =>
    assert (keeps_dead := keeps_delete_all s dead (scan_loss_dead _ _ _ _ (List.Forall_nil _) H)) end.
  kbind. kif; [kend|]. kbind. kif; [kend|]. kbind. kif; [kend|]. do 2 kstep. like_here run Hl.
  apply lands_relaunch; [done|by eapply like_phase].
Qed.

Lemma lands_infrastructure pod kind run s :
  good id run s -> Phase (Status run) = PhaseRunning -> spec (protocol id) (relaunchInfrastructureFailure r pod kind) run s (lands id).
Proof.
  intros Hg Hp. assert (W := phase_within _ _ _ Hg Hp eq_refl). unfold relaunchInfrastructureFailure.
  kbind. kif; [kend|]. do 4 kstep. cbv zeta. kbind. kif; [kend|]. kif; [kend|].
  kbind. kif; [kend|]. like_here run Hl. apply lands_relaunch; [done|by eapply like_phase].
Qed.

(** ** Silent coordinators *)

(** An undecided verdict on the live copy wrote nothing the automaton sees. *)
Definition untouched (s s' : watch) (_ : CoderRun) (v : verdict) : Prop := v.1.2 = false -> s' = s.

Lemma untouched_relaunch reason event diagnostic run s :
  good id run s -> Phase (Status run) = PhaseRunning ->
  spec (protocol id) (out ← relaunchAfterInfraLoss r reason event diagnostic; mret (of_outcome out)) run s (untouched s).
Proof.
  intros Hg Hp. kstep. eapply spec_mono; [by apply lands_relaunch|]. intros. kend.
Qed.

Lemma untouched_vanished cached c run s :
  good id run s -> Phase (Status run) = PhaseRunning -> spec (protocol id) (vanished r cached c) run s (untouched s).
Proof.
  intros Hg Hp. assert (W := phase_within _ _ _ Hg Hp eq_refl). unfold vanished. kif; [kend|]. kbind. kif; [kend|].
  do 2 kstep. apply untouched_relaunch; [done|by eapply like_phase].
Qed.

Lemma untouched_reap pods c run s :
  good id run s -> Phase (Status run) = PhaseRunning -> spec (protocol id) (reap_wedged r pods c) run s (untouched s).
Proof.
  intros Hg Hp. assert (W := phase_within _ _ _ Hg Hp eq_refl). unfold reap_wedged. do 2 kstep. kbind. kif; [kend|].
  kbind. kif; [kend..|]. kif; [kend|]. kbind. kif; [kend|]. kif; [kend|]. kbind. kif; [kend|].
  do 2 kstep. like_here run Hl. apply untouched_relaunch; [done|by eapply like_phase].
Qed.

Lemma untouched_streak alive run s : good id run s -> spec (protocol id) (reset_streak alive) run s (untouched s).
Proof. intros Hg. unfold reset_streak. repeat (kat; cbv beta iota); by intros _. Qed.

Lemma untouched_judge cached live run s :
  good id run s -> Phase (Status run) = PhaseRunning -> spec (protocol id) (judge_liveness r cached live) run s (untouched s).
Proof.
  intros Hg Hp. unfold judge_liveness. do 2 kstep. cbv zeta. kbind. assert (Hp0 := like_phase _ _ _ Hc Hp).
  kif; [by apply untouched_streak|].
  assert (Hs : forall uid : bool, spec (protocol id)
    (if validActiveOperations run live then mret go_on else if negb uid then mret go_on
     else reap_wedged r live (maxRestarts r <=? Restarts (Status run))) run0 s (untouched s)).
  { intros uid. kif; [kend|]. kif; [kend|]. by apply untouched_reap. }
  kif; [apply Hs|]. kif; [|kif; [kend|apply Hs]].
  kif; [by apply untouched_vanished|]. kif; [kend|apply Hs].
Qed.

Lemma check_liveness_ok cached run s :
  good id run s -> Phase (Status run) = PhaseRunning -> spec (protocol id) (checkLiveness r cached) run s (undecided run s).
Proof.
  intros Hg Hp. unfold checkLiveness. do 2 kstep. kstep. apply spec_get_live; [by intros; kstep|]. intros live.
  assert (Hg1 := good_live run s (keyed (Namespace run) (run_Name run) live) Hg).
  assert (Hf := good_fresh run s live Hg).
  set (s1 := advance s (ALive (keyed (Namespace run) (run_Name run) live))) in *.
  assert (Hw : w_phase s1 = w_phase s) by done. clearbody s1.
  kbind. destruct a as [livePods|e]; [|kend]. cbv zeta.
  destruct (_ || _) eqn:Hx; [kend|]. apply orb_false_iff in Hx as [Hu Hq].
  apply negb_false_iff, String.eqb_eq in Hu, Hq. apply spec_on_copy.
  assert (Hl : Phase (Status run) = Phase (Status run0)) by (by destruct (like_fields _ _ Hc)).
  assert (Hid : Namespace run0 = Namespace run /\ run_Name run0 = run_Name run /\ UID run0 = UID run)
    by (destruct Hc as [Hc _]; unfold core in Hc; by injection Hc).
  eapply spec_mono; [apply untouched_judge; [apply Hf|exact Hq]|].
  - exact Hu.
  - rewrite Hp. exact Hq.
  - intros s' run' v Hv Hn. rewrite (Hv Hn). done.
Qed.

(** ** Observation of a Running run *)

Lemma like_record_pr pr a b st :
  like_st (set_FailedCheckFingerprint (set_CheckFingerprint (record_pr pr st) a) b) st.
Proof. unfold record_pr. case_match; (split; [done|by left]). Qed.
#[local] Hint Resolve like_record_pr : core_frame.

#[export] Instance keeps_record_candidates pr a b : Keeps (record_candidates pr a b).
Proof. unfold record_candidates. keep. Qed.

#[export] Instance keeps_record_start pod : Keeps (record_start pod).
Proof. unfold record_start. keep. case_match; (split; [done|by left]). Qed.

#[export] Instance keeps_evidence pod : Keeps (acquire_evidence r pod).
Proof.
  unfold acquire_evidence, legacyWorkspaceObservation. keep; try (case_match; (split; [done|by left])).
Qed.

(** The phases a coordinator's ending may take a Running run to. *)
Definition from_running (phase : string) : Prop :=
  edge PhaseRunning phase = true /\ (phase = PhaseVerifying \/ ending phase = true).

Lemma from_running_undone phase : edge PhaseRunning phase = true -> phase <> PhaseDone.
Proof. by intros He ->. Qed.

Lemma from_running_exit mode code outcome : from_running (phaseForExit mode code outcome).
Proof. unfold phaseForExit, from_running. repeat case_match; (split; [reflexivity|auto]). Qed.

Lemma from_running_native mode kind : from_running (phaseForNativeResult mode kind).
Proof. unfold phaseForNativeResult, from_running. repeat case_match; (split; [reflexivity|auto]). Qed.

Lemma lands_enter_verifying declared t run s :
  good id run s -> Phase (Status run) = PhaseRunning -> spec (protocol id) (enter_verifying r declared t) run s (lands id).
Proof.
  intros Hg Hp. unfold enter_verifying. apply spec_bind, spec_snapshot.
  apply (spec_move id) with (new := PhaseVerifying); auto using good_copy.
  - cbv zeta. repeat case_match; reflexivity.
  - cbv zeta. repeat case_match; reflexivity.
  - by rewrite Hp.
  - intros run' s' Hg' _. cbn [failed]. kbind. kend.
  - intros run' s' e He _. rewrite He. kstep. intros Hf. cbn in Hf. congruence.
Qed.

Lemma lands_terminalize pod t trusted phase resolve run s :
  good id run s -> edge (Phase (Status run)) phase = true -> ending phase = true -> phase <> PhaseDone ->
  spec (protocol id) (terminalize r pod t trusted phase resolve) run s (lands id).
Proof.
  intros Hg He Hend Hnd. unfold terminalize. kbind. destruct a as [[conditions|]|e]; [|kend..]. kbind. like_here run Hl.
  apply lands_terminal; try done. by destruct (like_fields _ _ Hl) as (-> & _).
Qed.

(** The no-change proposal may be read live; the run stays known. *)
Lemma ground_ok pod run s :
  good id run s ->
  spec (protocol id) (ground_no_change pod) run s
    (fun s' run' out => good id run' s' /\ Phase (Status run') = Phase (Status run) /\ from_running out.1).
Proof.
  intros Hg. unfold ground_no_change. do 2 kstep.
  assert (Hf : from_running (resolveIssueNoChangePhase run (pod_UID pod)).1).
  { unfold resolveIssueNoChangePhase, from_running. repeat case_match; (split; [reflexivity|auto]). }
  destruct (resolveIssueNoChangePhase run (pod_UID pod)) as [phase []]; [by kstep|].
  unfold refreshFencedNoChange. do 3 kstep. kstep. apply spec_get_live; [intros; by do 2 kstep|]. intros live.
  assert (Hg1 := good_live run s (keyed (Namespace run) (run_Name run) live) Hg).
  set (s1 := advance s (ALive (keyed (Namespace run) (run_Name run) live))) in *. clearbody s1.
  repeat (kstep; cbv beta iota); try done. split; [done|]. split; [by eapply like_phase|]. split; [reflexivity|by right].
Qed.

Lemma lands_classify pod t run s :
  good id run s -> Phase (Status run) = PhaseRunning -> spec (protocol id) (classify_ending r pod t) run s (lands id).
Proof.
  intros Hg Hp. unfold classify_ending. do 2 kstep. cbv zeta. kif; [by apply lands_infrastructure|]. kstep.
  eapply (spec_mono _ _ _ _ (fun s' run' out => good id run' s' /\ Phase (Status run') = PhaseRunning /\ from_running out.1)).
  { kif; [eapply spec_mono; [by apply ground_ok|]; intros ? ? ? (? & E & ?); by rewrite E, Hp|].
    kstep. split; [done|]. split; [done|]. case_match; [apply from_running_native|apply from_running_exit]. }
  intros s1 run1 [phase grounded] (Hg1 & Hp1 & He & Hend). cbn [fst] in He, Hend.
  destruct (String.eqb_spec phase PhaseVerifying) as [->|Hne]; [by apply lands_enter_verifying|].
  destruct Hend as [?|Hend]; [done|]. kstep.
  eapply spec_mono; [apply lands_terminalize; [done|by rewrite Hp1|done|by apply from_running_undone]|].
  intros s2 run2 out Hland. kstep. destruct (_ && _) eqn:Hx; [|by do 2 kstep].
  apply andb_true_iff in Hx as [Hx _]. apply negb_true_iff in Hx. specialize (Hland Hx). kstep. kend.
Qed.

Lemma scan_pods_ok pods run s :
  good id run s -> Phase (Status run) = PhaseRunning ->
  spec (protocol id) (scan_pods r pods) run s (fun s' run' out => out = None -> s' = s /\ like run' run).
Proof.
  revert run. induction pods as [|pod rest IH]; intros run Hg Hp; cbn [scan_pods]; [by kstep|].
  do 2 kstep. kif; [by apply IH|]. kbind. kif; [by kstep|].
  assert (Hp0 := like_phase _ _ _ Hc Hp).
  assert (IH' : spec (protocol id) (scan_pods r rest) run0 s (fun s' run' out => out = None -> s' = s /\ like run' run)).
  { eapply spec_mono; [by apply IH|]. intros s' run' out H Hn. destruct (H Hn) as [-> H2]. split; [done|]. by eapply like_trans. }
  kif; [|done]. kif; [done|]. kstep. eapply spec_mono; [by apply lands_classify|]. intros. by kstep.
Qed.

Lemma watch_coordinator_ok pods run s :
  good id run s -> Phase (Status run) = PhaseRunning -> spec (protocol id) (watch_coordinator r pods) run s anyhow.
Proof.
  intros Hg Hp. unfold watch_coordinator. kstep. eapply spec_mono; [by apply check_liveness_ok|].
  intros s1 run1 [[result handled] e] Hv. kif; [by kstep|]. kif; [by kstep|]. kif; [by kstep|].
  destruct (Hv eq_refl) as (Hg1 & _ & Hl). assert (Hp1 := like_phase _ _ _ Hl Hp). do 2 kstep.
  kif; [|by apply lands_anyhow, lands_missing]. kif; [by apply lands_anyhow, lands_missing|by kstep].
Qed.

Lemma observe_running_ok run s :
  good id run s -> Phase (Status run) = PhaseRunning -> spec (protocol id) (observeRunning r) run s anyhow.
Proof.
  intros Hg Hp. unfold observeRunning. do 4 kstep. destruct x as [pods|]; [|by kstep]. kbind. kif; [by kstep|].
  do 3 kstep. like_here run Hl. assert (Hp1 := like_phase _ _ _ Hl Hp).
  match goal with |- spec _ _ ?x _ _ => apply (spec_mono _ _ _ _ (undecided x s)) end.
  { kif; [by apply observe_topology_ok|kend]. }
  intros s2 run2 [[result handled] e] Hv. destruct (failed e || handled) eqn:Hx; [by kstep|].
  apply orb_false_iff in Hx as [_ Hx]. destruct (Hv Hx) as (Hg2 & _ & Hl2). assert (Hp2 := like_phase _ _ _ Hl2 Hp1).
  kstep. eapply spec_mono; [by apply scan_pods_ok|]. intros s3 run3 [out|] H; [by kstep|].
  destruct (H eq_refl) as [-> Hl3]. apply watch_coordinator_ok; [by eapply good_like|by eapply like_phase].
Qed.

(** ** Observation of a Verifying run *)

Lemma verifying_terminal phase pr intent run s :
  good id run s -> Phase (Status run) = PhaseVerifying -> edge PhaseVerifying phase = true -> ending phase = true ->
  (phase = PhaseDone -> merge_seen = true) ->
  spec (protocol id) (transitionTerminal r phase pr intent None) run s anyhow.
Proof. intros Hg Hp He Hend Hm. apply lands_anyhow, lands_terminal; try done. by rewrite Hp. Qed.

Lemma grade_ok o run s :
  good id run s -> Phase (Status run) = PhaseVerifying -> spec (protocol id) (grade r o) run s anyhow.
Proof.
  intros Hg Hp. unfold grade, grade_failed, grade_open.
  destruct (observeState o); repeat (lazymatch goal with |- spec _ (transitionTerminal _ _ _ _ _) _ _ _ => fail | |- _ => kstep end; cbv beta iota);
    first [exact I|like_here run Hl; apply verifying_terminal; [assumption|exact (like_phase _ _ _ Hl Hp)|reflexivity|reflexivity|discriminate]].
Qed.

Lemma observed_merge o : observeState o = observationMerged -> ob_Merged o = true.
Proof. unfold observeState. destruct (ob_Merged o); [done|]. by repeat case_match. Qed.

Lemma observe_verifying_ok run s :
  good id run s -> Phase (Status run) = PhaseVerifying -> fence_inv (Status run) ->
  spec (protocol id) (observeVerifying r) run s anyhow.
Proof.
  intros Hg Hp Hf. unfold observeVerifying. kif; [by apply verifying_terminal|]. do 3 kstep.
  apply spec_pass_assume; [on_pass|]. intros [o|] Hx; [|by kstep].
  assert (Hpark : spec (protocol id) (parked ← observeCIPark r o;
    let '(handled, (result, e)) := parked in
    if failed e then mret (res0, e) else if (handled : bool) then mret (result, []) else grade r o) run s anyhow).
  { kstep. eapply spec_mono; [by apply observe_cipark_ok|]. intros s1 run1 [handled [result e]] Hv.
    destruct (failed e) eqn:He; [by kstep|]. destruct handled; [by kstep|]. destruct (Hv eq_refl He) as [Hg1 Hw].
    apply grade_ok; [done|]. rewrite (good_phase _ _ _ Hg1), (good_phase _ _ _ Hg), Hp in Hw. by injection Hw. }
  destruct (observeState o) eqn:Hstate; try exact Hpark.
  assert (Hm : merge_seen = true) by (apply (assume_merge _ Hx), observed_merge, Hstate). kstep. eapply spec_mono; [by apply stays_abandon|]. intros s1 run1 e Hv. destruct (failed e) eqn:He; [by kstep|].
  destruct (Hv He) as [Hg1 Hw]. apply verifying_terminal; try done.
  rewrite (good_phase _ _ _ Hg1), (good_phase _ _ _ Hg), Hp in Hw. by injection Hw.
Qed.

(** ** Observation of a settled review *)

#[export] Instance keeps_merge_remaining : Keeps mergeObservationRemaining.
Proof. unfold mergeObservationRemaining. keep. Qed.

#[export] Instance keeps_stamp_merge : Keeps stampMergeObserved.
Proof.
  intros run s Hg. unfold stampMergeObserved. do 6 kstep. cbv zeta. apply spec_bind, spec_put. do 3 kstep.
  split; [done|]. split; [done|by left].
Qed.

#[export] Instance keeps_look_again : Keeps look_again.
Proof. unfold look_again. keep. Qed.

Lemma observe_merged_ok run s :
  good id run s -> Phase (Status run) = PhaseAwaitingReview -> spec (protocol id) (observeMergedReviewPR r) run s anyhow.
Proof.
  intros Hg Hp.
  assert (Hagain : forall run', good id run' s -> spec (protocol id) look_again run' s anyhow).
  { intros run' Hg'. eapply spec_mono; [by apply keeps_look_again|]. done. }
  unfold observeMergedReviewPR. do 2 kstep. kif; [by kstep|]. kif. kif; [by kstep|]. kbind. kif; [by kstep|]. like_here run Hl.
  assert (Hp1 := like_phase _ _ _ Hl Hp). kstep. apply spec_pass_assume; [done|]. intros [pull|] Hx; [|by apply Hagain].
  kif; [by apply Hagain|]. kif; [|kif; [|by apply Hagain]].
  - apply lands_anyhow, lands_terminal; try done; [by rewrite Hp1|]. intros _. by apply (assume_merge _ Hx).
  - do 2 kstep. apply lands_anyhow, lands_terminal; try done. by rewrite Hp1.
Qed.

End Live.
