(* ===== verification/ProtocolRun.v ===== *)
(** * Every reconcile follows the protocol

    The handlers of Reconcile.v, and with them the whole of [Reconcile], are
    accepted by the automaton of Protocol.v.  The handlers of Backoff.v, Reap.v
    and Retry.v, written against the smaller signature, are monitored through
    their embedding. *)

From S2P Require Import Prelude Effects GoStrings GoTime Run StatusPatch Lane Kube Backoff Reap Retry World Logic Pods Report.
From S2P Require Import Capacity Terminal Checks CIPark Liveness Observe Reconcile Protocol ProtocolTerminal ProtocolPark.
From S2P Require Import ProtocolObserve.
Local Open Scope string_scope.
Local Open Scope Z_scope.
#[local] Hint Constants Opaque : typeclass_instances.
#[local] Hint Transparent error Terminal.outcome delivery : typeclass_instances.
#[local] Hint Resolve like_refl : core.

(** ** Handlers of the smaller signature *)

Section Kube.
Context {AS : Assume}.
Variable id : CoderRun.
Abbreviation kmon := (mon (kube_protocol id) kube_assume).

Lemma kmon_call {X A} (e : kubeE X) (k : X -> prog kubeE A) s Q :
  (forall x, view_kube e x = AQuiet) -> (forall x, kmon (k x) s Q) -> kmon (call e ≫= k) s Q.
Proof.
  intros Hv Hk. cbn [mon call mbind prog_bind bind_prog]. intros x _. unfold kube_protocol at 1. cbn [ev_op ev_ans ev_ty].
  rewrite Hv. exact (Hk x).
Qed.

(** A status write between runs with the same core. *)
Lemma kmon_patch before run s (Q : watch -> CoderRun * result api_error unit -> Prop) :
  core_st (Status before) = core_st (Status run) ->
  (forall st a, stamped (Status run) st -> Q s (set_Status run st, a)) -> kmon (patchStatus before run) s Q.
Proof.
  intros Hc HQ. unfold patchStatus. apply kmon_call; [done|]. intros now.
  set (fresh := match PhaseEnteredAt (Status before) with Some p => addr p + 1 | None => 0 end).
  unfold status_write. set (st := stamp_phase fresh now (Status before) (Status run)).
  assert (Hst : stamped (Status run) st).
  { unfold st, stamp_phase. destruct (String.eqb _ _); [by left|]. right. by eexists. }
  destruct (is_empty_patch _); [by apply HQ|].
  cbn [mon call mbind prog_bind bind_prog]. intros x _. unfold kube_protocol at 1. cbn [ev_op ev_ans ev_ty view_kube].
  destruct (neutral_fields (Status before) st) as (Hp & Hr & Hk); [by rewrite Hc, (stamped_core _ _ Hst)|].
  rewrite neutral_write by done. destruct x as [[]|e]; [|by apply HQ].
  apply kmon_call; [done|]. intros _. by apply HQ.
Qed.

(** The outcome of a handler that only touched records the automaton ignores. *)
Definition kept (run : CoderRun) (s s' : watch) (out : Retry.outcome) : Prop := s' = s /\ like (out_run out) run.

Lemma kept_write {CO : ConditionOps} run0 run s rec metric successor next :
  like run run0 -> (forall run', like run' run0 -> kmon (next run') s (kept run0 s)) ->
  kmon (write_record run rec metric successor next) s (kept run0 s).
Proof.
  intros Hl Hn. unfold write_record. apply kmon_call; [done|]. intros now. cbv zeta.
  set (after := setRetryCondition _ _ _ _ _).
  assert (Ha : like after run).
  { subst after. unfold setRetryCondition. destruct (retry_condition_status _). split; [done|by left]. }
  apply mon_bind, kmon_patch.
  - apply like_core, core_core_st in Ha. by rewrite Ha.
  - intros st a Hst. assert (Hl' : like (set_Status after st) run0).
    { eapply like_trans; [by apply like_stamped|]. by eapply like_trans. }
    destruct a as [[]|e]; [|by split].
    unfold observeRetry, emitRetry. apply kmon_call; [done|]. intros _. apply kmon_call; [done|]. intros _. by apply Hn.
Qed.

Lemma kept_settle {CO : ConditionOps} run0 run s record a b c d :
  like run run0 -> kmon (settleRetryOutcome run record a b c d) s (kept run0 s).
Proof. intros Hl. unfold settleRetryOutcome. apply kmon_call; [done|]. intros now. apply kept_write; [done|]. by intros. Qed.

Lemma kept_refusal {CO : ConditionOps} run0 run s a b : like run run0 -> kmon (writeRetryRefusal run a b) s (kept run0 s).
Proof. intros Hl. unfold writeRetryRefusal. apply kmon_call; [done|]. intros now. apply kept_write; [done|]. by intros. Qed.

Lemma kept_requeue {CO : ConditionOps} run0 run s record adapter item :
  like run run0 -> kmon (callRequeue run record adapter item) s (kept run0 s).
Proof.
  intros Hl. unfold callRequeue. apply kmon_call; [done|]. intros [res|[|reason []|m]]; [|by apply kept_settle..|by split].
  destruct (_ && _); [|by apply kept_settle]. unfold materializeRetrySuccessor. cbv zeta. apply mon_bind, kmon_call; [done|].
  intros [[]|e]; cbn [mon]; [by apply kept_settle|]. destruct (IsAlreadyExists e); [by apply kept_settle|by split].
Qed.

Lemma kept_begin {CO : ConditionOps} cfg run s i : kmon (beginRetry cfg run i) s (kept run s).
Proof.
  assert (Hreq : kmon (begin_requested cfg run i) s (kept run s)).
  { unfold begin_requested. destruct (adapterAndWorkItem _ _) as [[adapter item]|]; [|by split].
    destruct (negb _); [by apply kept_refusal|]. apply kmon_call; [done|]. intros now. cbv zeta. apply kept_write; [done|].
    intros. by apply kept_requeue. }
  unfold beginRetry. destruct (coreRetryRefusal run); [by apply kept_refusal|]. destruct (negb _); [by split|].
  unfold activeOwnerExists. apply mon_bind, kmon_call; [done|]. intros [runs|e]; [|by split]. cbn [mon].
  destruct (existsb _ _); [by apply kept_refusal|]. destruct (String.eqb _ _); [|done].
  assert (Hg : forall guard, kmon (let '(closed, unreadable) := (guard : bool * bool) in
    if unreadable then Ret (done_with run retryForgeRequeueDelay true) else
    if closed then writeRetryRefusal run i RetryRefusalUpstreamClosed else begin_requested cfg run i) s (kept run s)).
  { intros [[] []]; [by split|by apply kept_refusal|by split|exact Hreq]. }
  unfold fixPRUpstreamClosed. apply mon_bind. destruct (Atoi _) as [number ok]. destruct (_ || _); [by apply Hg|].
  destruct (negb _); [by apply (Hg (false, true))|]. apply kmon_call; [done|]. intros pull. cbn [mon]. apply Hg.
Qed.

Lemma kept_sync {CO : ConditionOps} cfg run s : kmon (syncRetry cfg run) s (kept run s).
Proof.
  unfold syncRetry. cbv zeta.
  assert (Hann : forall i, kmon (announceAlreadyRequeued run i) s (kept run s)).
  { intros i. unfold announceAlreadyRequeued. cbv zeta. destruct (bool_decide _); [by split|]. destruct (_ <=? _); [by split|].
    apply kmon_call; [done|]. intros [[]|e]; [|split; [done|split; [done|by left]]]. unfold observeRetry, emitRetry.
    apply kmon_call; [done|]. intros _. apply kmon_call; [done|]. intros _. split; [done|split; [done|by left]]. }
  assert (Hset : forall record, kmon (settleRetryRecord cfg run record) s (kept run s)).
  { intros record. unfold settleRetryRecord. destruct (adapterAndWorkItem _ _) as [[adapter item]|]; [|by split].
    destruct (negb _); [by split|by apply kept_requeue]. }
  assert (Hbeg := kept_begin cfg run s).
  repeat case_match; first [exact (conj eq_refl (like_refl _))|apply Hann|apply Hset|apply Hbeg].
Qed.

Lemma quiet_reap cfg run s m d floor : kmon (reapTerminal cfg run m d floor) s (fun s' _ => s' = s).
Proof.
  assert (Hdel : kmon (reap_delete run) s (fun s' _ => s' = s)).
  { unfold reap_delete. apply kmon_call; [done|]. intros [live|e]; [|done]. destruct (liveRetryHold _ _); [done|].
    apply kmon_call; [done|]. intros [[]|e]; [|done]. by apply kmon_call. }
  unfold reapTerminal. apply kmon_call; [done|]. intros now. destruct (reapMarker run m).
  - cbv zeta. destruct (_ <? _); [done|]. destruct floor; [|done]. unfold withinAuditFloor. cbv zeta. apply mon_bind.
    destruct (_ <=? _); [done|]. apply kmon_call; [done|]. intros [runs|e]; [|done]. cbn [mon]. by destruct (within_floor _ _ _).
  - cbv zeta. apply kmon_call; [done|]. by intros [[]|].
Qed.
End Kube.

Section Run.
Context {AS : Assume} {CO : ConditionOps} {CD : Codec}.
Variable r : Reconciler.
Variable id : CoderRun.
Abbreviation Keeps := (Keeps id).

Lemma kmon_lift {A} (p : prog kubeE A) s Q :
  mon (kube_protocol id) kube_assume p s Q -> mon (step (protocol id)) assume (lift (fun _ e => Kube e) p) s Q.
Proof. intros H. apply mon_lift. exact H. Qed.

#[export] Instance keeps_armed : Keeps armed.
Proof.
  intros run s Hg. unfold spec, armed. apply mon_bind, kmon_lift. unfold armPreflightBackoff, livePreflightFailures.
  apply mon_bind, kmon_call; [done|]. intros live. apply kmon_call; [done|]. intros now. cbv zeta.
  apply kmon_call; [done|]. intros a. split; [done|]. split; [done|by left].
Qed.

#[export] Instance keeps_clear_backoff : Keeps clear_backoff.
Proof.
  intros run s Hg. unfold spec, clear_backoff. apply mon_bind, kmon_lift. unfold clearPreflightBackoffAfterLaunch, clearPreflightBackoff.
  apply mon_bind. repeat case_match; first [apply kmon_call; [done|]; intros a; split; [done|]; split; [done|by left]|by split].
Qed.

#[export] Instance keeps_resolve_branch b : Keeps (lifted (fun run => h ← resolveRunBranch run b; Ret (run, h))).
Proof.
  intros run s Hg. unfold spec, lifted. apply kmon_lift, mon_bind. unfold resolveRunBranch. cbv zeta.
  repeat case_match; try (by split). apply kmon_call; [done|]. intros [head|m]; [repeat case_match|]; by split.
Qed.

#[export] Instance keeps_lift_reap cfg m d floor : Keeps (lift_reap (fun run => reapTerminal cfg run m d floor)).
Proof.
  intros run s Hg. unfold spec, lift_reap. apply mon_bind, kmon_lift. eapply mon_mono; [|apply quiet_reap].
  intros s' a ->. by split.
Qed.

#[export] Instance keeps_sync_retry : Keeps (sync_retry r).
Proof.
  intros run s Hg. unfold spec, sync_retry. apply mon_bind, kmon_lift. eapply mon_mono; [|apply kept_sync].
  intros s' out [-> Hl]. by split.
Qed.

#[export] Instance keeps_prelaunch adapter item : Keeps (preLaunch adapter item).
Proof. unfold preLaunch. keep. Qed.

#[export] Instance keeps_pins secure : Keeps (resolveLaneSkillPins secure).
Proof. unfold resolveLaneSkillPins. keep. Qed.

#[export] Instance keeps_policy_admission secure : Keeps (resolvePersistSecurePolicy secure).
Proof. unfold resolvePersistSecurePolicy. keep. Qed.

#[export] Instance keeps_backoff_gate : Keeps backoff_gate.
Proof. unfold backoff_gate. keep. Qed.

#[export] Instance keeps_evidence_lifecycle : Keeps (reconcileEvidence r).
Proof. unfold reconcileEvidence. keep. Qed.

#[export] Instance keeps_present_notice : Keeps (present_notice r).
Proof. unfold present_notice. keep. Qed.

(** ** Claims *)

Lemma spec_release adapter item run s (Q : watch -> CoderRun -> error -> Prop) :
  w_phase s = Some PhaseClaimed \/ w_phase s = None -> (forall e, Q s run e) -> spec (protocol id) (release adapter item) run s Q.
Proof.
  intros Hw HQ. unfold release. kstep. apply spec_pass; [|intros x; kstep; apply HQ].
  intros x. apply pass; [|done]. cbn [legal view_op]. by destruct Hw as [->| ->].
Qed.

Section Claimed.
Variables (run : CoderRun) (s : watch).
Hypothesis Hg : good id run s.
Hypothesis Hp : Phase (Status run) = PhaseClaimed.

Lemma claimed_watch : w_phase s = Some PhaseClaimed.
Proof. by rewrite (good_phase _ _ _ Hg), Hp. Qed.

Lemma claimed_within : Within pod_phases s.
Proof. by eapply phase_within. Qed.

Lemma claimed_terminal pr intent telemetry : spec (protocol id) (transitionTerminal r PhaseNeedsHuman pr intent telemetry) run s anyhow.
Proof. apply lands_anyhow, lands_terminal; try done. by rewrite Hp. Qed.

Lemma claimed_needs_human detail : spec (protocol id) (transitionNeedsHuman r detail) run s anyhow.
Proof. apply lands_anyhow, lands_needs_human; [done|by rewrite Hp]. Qed.

Lemma claimed_release_then {A} adapter item (K : error -> M A) (Q : watch -> CoderRun -> A -> Prop) :
  (forall e, spec (protocol id) (K e) run s Q) -> spec (protocol id) (e ← release adapter item; K e) run s Q.
Proof. intros HK. kstep. apply spec_release; [left; exact claimed_watch|exact HK]. Qed.

Lemma claimed_release adapter item cause : spec (protocol id) (releaseClaim adapter item cause) run s anyhow.
Proof.
  unfold releaseClaim. apply claimed_release_then. intros e. apply spec_bind, spec_snapshot.
  apply (spec_move id) with (new := PhasePending); auto using good_copy; [by rewrite Hp|intros; by kstep..].
Qed.

Lemma claimed_released adapter item cause : spec (protocol id) (released adapter item cause) run s anyhow.
Proof. unfold released. kstep. eapply spec_mono; [apply claimed_release|]. intros. by kstep. Qed.

Lemma claimed_reject adapter item cause : spec (protocol id) (rejectClaim adapter item cause) run s anyhow.
Proof.
  unfold rejectClaim. kif; [|apply claimed_release]. apply claimed_release_then. intros e. do 3 kstep.
  apply spec_pass; [|intros; by kstep]. intros x. apply pass; [|done]. cbn [legal view_op]. unfold within. by rewrite claimed_watch.
Qed.

Lemma claimed_rejected adapter item cause :
  spec (protocol id) (w ← rejectClaim adapter item cause; mret (res0, w)) run s anyhow.
Proof. kstep. eapply spec_mono; [apply claimed_reject|]. intros. by kstep. Qed.

Lemma claimed_ending adapter item pr intent :
  spec (protocol id) (releaseErr ← release adapter item;
    out ← transitionTerminal r PhaseNeedsHuman pr intent None; mret (out.1, releaseErr ++ out.2)%list) run s anyhow.
Proof. apply claimed_release_then. intros e. kstep. eapply spec_mono; [apply claimed_terminal|]. intros. by kstep. Qed.

Lemma claimed_collision adapter item c :
  spec (protocol id) (terminateStuckTerminatingCollision r adapter item c) run s anyhow.
Proof.
  unfold terminateStuckTerminatingCollision. do 2 kstep. kif; [by kstep|]. apply claimed_release_then. intros e. do 3 kstep.
  eapply spec_mono; [apply claimed_terminal|]. intros. by kstep.
Qed.
End Claimed.

(** ** Launch *)

Lemma claimed_like run run' : like run' run -> Phase (Status run) = PhaseClaimed -> Phase (Status run') = PhaseClaimed.
Proof. apply like_phase. Qed.

Lemma claimed_secure_failure adapter item cause run s :
  good id run s -> Phase (Status run) = PhaseClaimed -> spec (protocol id) (secureLaunchFailure r adapter item cause) run s anyhow.
Proof.
  intros Hg Hp. assert (W := claimed_within _ _ Hg Hp). unfold secureLaunchFailure. destruct (launchRejection cause) as [[]|].
  - kbind. assert (Hp0 := claimed_like _ _ Hc Hp). kif; [by apply claimed_released|by apply claimed_needs_human].
  - kbind. apply claimed_released; [done|by eapply claimed_like].
Qed.

Lemma claimed_running before run s :
  good id run s -> good id before s -> core before = core run -> Phase (Status run) = PhaseClaimed ->
  spec (protocol id) (record_running r before) run s anyhow.
Proof.
  intros Hg Hb Hc Hp. unfold record_running.
  apply (spec_move id) with (new := PhaseRunning); auto; [by rewrite Hp|intros run' s' Hg' _|intros run' s' e He _].
  - cbn [failed]. do 2 kstep. kbind. by kstep.
  - rewrite He. by kstep.
Qed.

Lemma claimed_launch adapter item run s :
  good id run s -> Phase (Status run) = PhaseClaimed -> spec (protocol id) (launch_run r adapter item) run s anyhow.
Proof.
  intros Hg Hp. assert (Hw := claimed_watch _ _ Hg Hp). unfold launch_run. apply spec_bind, spec_snapshot. do 2 kstep.
  assert (Hl : forall X (e : worldE X), (forall x, view_op e x = ALaunch) -> forall x, protocol id s (view_op e x) = Some s).
  { intros X e He x. rewrite He. apply pass; [|done]. cbn [legal]. unfold within. by rewrite Hw. }
  destruct (r_Secure r).
  - kstep. apply spec_pass; [by apply Hl|]. intros [result e]. kif; [by apply claimed_secure_failure|]. kbind.
    kif; [by kstep|]. apply claimed_running; [done|by apply good_copy| |by eapply claimed_like].
    symmetry. by apply like_core in Hc.
  - kstep. apply spec_pass; [by apply Hl|]. intros e. kif; [by apply claimed_running; [|apply good_copy|..]|].
    destruct (launchRejection e) as [[]|]; [by apply claimed_ending|]. kif; [|by apply claimed_released].
    kif; [by apply claimed_collision|by kstep].
Qed.

Lemma claimed_head adapter item go run s :
  good id run s -> Phase (Status run) = PhaseClaimed ->
  (forall run' s', good id run' s' -> Phase (Status run') = PhaseClaimed -> spec (protocol id) go run' s' anyhow) ->
  spec (protocol id) (resolve_head r adapter item go) run s anyhow.
Proof.
  intros Hg Hp Hgo. unfold resolve_head. kbind. assert (Hp0 := claimed_like _ _ Hc Hp). kif.
  - do 6 kstep. like_here run Hl. assert (Hp2 := claimed_like _ _ Hl Hp).
    kif; [by apply claimed_released|by apply Hgo].
  - kif; try (by apply claimed_released). unfold terminateMissingHead. do 2 kstep.
    destruct (adapterAndWorkItem _ _) as [[a0 i0]|]; [|by kstep]. do 2 kstep.
    unfold terminateNeedsHuman. apply claimed_ending; [done|by eapply claimed_like].
Qed.

Lemma claimed_progress {A} adapter item (K : result source_error unit -> M A) run s (Q : watch -> CoderRun -> A -> Prop) :
  good id run s -> Phase (Status run) = PhaseClaimed -> (forall x, spec (protocol id) (K x) run s Q) ->
  spec (protocol id) (moved ← io (Transition (adapter_id adapter) item StateInProgress); K moved) run s Q.
Proof.
  intros Hg Hp HK. kstep. apply spec_pass; [|exact HK]. intros x. apply pass; [|done]. cbn [legal view_op].
  by rewrite (claimed_watch _ _ Hg Hp).
Qed.

Lemma resume_ok run s :
  good id run s -> Phase (Status run) = PhaseClaimed -> spec (protocol id) (resumeClaimed r) run s anyhow.
Proof.
  intros Hg Hp. unfold resumeClaimed. kbind. kif; [by kstep|]. kbind. like_here run Hl. assert (Hp1 := claimed_like _ _ Hl Hp).
  destruct (AsNeedsHuman _) as [[]|]; [by apply claimed_needs_human|]. kif; [by kstep|]. do 2 kstep.
  destruct (adapterAndWorkItem _ _) as [[adapter item]|]; [|by kstep]. kif; [by kstep|]. cbv zeta.
  match goal with |- spec _ (if _ then _ else ?go) _ _ _ => assert (Hgo : forall run' s', good id run' s' ->
    Phase (Status run') = PhaseClaimed -> spec (protocol id) go run' s' anyhow) end.
  { clear -CO. intros run s Hg Hp. kbind. assert (Hp0 := claimed_like _ _ Hc Hp). kif; [|by apply claimed_rejected].
    apply claimed_progress; [done..|]. intros [[]|e]; [by apply claimed_launch|by kstep]. }
  kif; [by apply claimed_head|by apply Hgo].
Qed.

(** ** Admission *)

Lemma start_ok adapter item run s :
  good id run s -> Phase (Status run) = PhaseClaimed -> spec (protocol id) (start_admitted r adapter item) run s anyhow.
Proof.
  intros Hg Hp. unfold start_admitted. kbind. assert (Hp0 := claimed_like _ _ Hc Hp). kif; [|by apply claimed_rejected].
  kbind. like_here run Hl. assert (Hp1 := claimed_like _ _ Hl Hp).
  destruct (AsNeedsHuman _) as [[]|]; [by apply claimed_needs_human|]. kif; [by apply claimed_released|]. kif; [by kstep|].
  apply claimed_progress; [done..|]. intros [[]|e]; [by apply claimed_launch|by apply claimed_released].
Qed.

Definition unclaimed (phase : string) : Prop := phase = "" \/ phase = PhasePending.

Lemma admit_ok adapter item run s :
  good id run s -> unclaimed (Phase (Status run)) -> spec (protocol id) (admit_run r adapter item) run s anyhow.
Proof.
  intros Hg Hp. unfold admit_run. kstep.
  apply (spec_mono _ _ _ _ (fun s' run' _ => s' = s /\ run' = run)).
  { assert (Hw : within [""; PhasePending] s = true)
      by (unfold within; rewrite (good_phase _ _ _ Hg); by destruct Hp as [->| ->]).
    unfold claim. kif; kstep; (apply spec_pass; [intros x; apply pass; [exact Hw|done]|]); intros; by kstep. }
  intros ? ? [item'|e] [-> ->]; [|by kstep]. apply spec_bind, spec_snapshot. do 3 kstep.
  apply (spec_mono _ _ _ _ (fun s' run' _ => s' = s /\ like run' run)); [kif; repeat kstep|].
  intros ? run0 now [-> Hc]. assert (Hg0 := good_like _ _ _ _ Hc Hg).
  apply (spec_move id) with (new := PhaseClaimed).
  - done.
  - by apply good_copy.
  - symmetry. by apply like_core in Hc.
  - unfold admitted. cbv zeta. repeat case_match; reflexivity.
  - unfold admitted. cbv zeta. repeat case_match; reflexivity.
  - destruct (like_fields _ _ Hc) as (-> & _). by destruct Hp as [->| ->].
  - done.
  - intros run' s' Hg' Hp'. cbn [failed]. apply claimed_head; [done..|]. intros. by apply start_ok.
  - intros run' s' e He Hw. rewrite He. kstep. apply spec_release; [by right|]. intros. by kstep.
Qed.

Lemma admit_pending_ok run s :
  good id run s -> unclaimed (Phase (Status run)) -> spec (protocol id) (admitPending r) run s anyhow.
Proof.
  intros Hg Hp. unfold admitPending.
  repeat (lazymatch goal with |- spec _ (admit_run _ _ _) _ _ _ => fail | |- _ => kstep end; cbv beta iota);
    first [exact I|like_here run Hl; apply admit_ok; [assumption|]; by destruct (like_fields _ _ Hl) as (-> & _)].
Qed.

(** ** Terminal runs *)

Lemma abandon_attempt_ends run0 st :
  Phase (abandonCIRepairAttempt run0 st) = Phase st /\ ends_repair st (abandonCIRepairAttempt run0 st).
Proof.
  unfold ends_repair, abandonCIRepairAttempt. destruct (CIRepair st) as [a|] eqn:Ha; [|by rewrite ?Ha].
  destruct (String.eqb_spec (rep_FenceToken a) ""); (split; [done|]); (split; [done|]); [by left|right].
  eexists. split; reflexivity.
Qed.

Lemma stale_fence_ok run s :
  good id run s ->
  spec (protocol id) settle_stale_fence run s
    (fun s' run' out => (exists b, out = Ok b) -> good id run' s' /\ Phase (Status run') = Phase (Status run)).
Proof.
  intros Hg. unfold settle_stale_fence. do 2 kstep. kif; [by kstep|]. apply spec_bind, spec_snapshot, spec_bind, spec_assign. kstep.
  destruct (abandon_attempt_ends run (Status run)) as [Hp He].
  apply spec_patch_repair.
  - by apply good_copy.
  - done.
  - exact Hp.
  - apply (ends_repair_write id); [by apply good_copy|]. exact He.
  - rewrite distinct_none; [by rewrite orb_true_r|]. apply He.
  - intros run' s' Hl Hg' _. cbv beta. do 3 kstep. intros _. split; [done|]. rewrite <- Hp.
    apply like_core, core_core_st in Hl. exact (f_equal (fun x => x.1.1) Hl).
  - intros run' s' e Hf. cbv beta. do 3 kstep. rewrite Hf. by intros [b [=]].
Qed.

#[export] Instance keeps_retention : Keeps (terminal_retention r).
Proof.
  unfold terminal_retention. intros run s Hg. do 2 kstep. cbv zeta. kif; [by kstep|]. kif; [by kstep|].
  destruct (String.eqb _ _); by apply keeps_lift_reap.
Qed.

Lemma duties_ok run s :
  good id run s -> ending (Phase (Status run)) = true -> spec (protocol id) (terminal_duties r) run s anyhow.
Proof.
  intros Hg He. unfold terminal_duties. do 2 kstep. cbv zeta.
  kif; [kif; [by kstep|by apply lands_anyhow, lands_retry]|].
  kif; [kif; [apply observe_merged_ok; [done|by apply String.eqb_eq]|by kstep]|].
  kif; [kif; [unfold reapAlreadyDone; by kstep|by kstep]|].
  kif; [by kstep|]. kif; [|by kstep].
  destruct (adapterAndWorkItem _ _) as [[adapter item]|]; [|by kstep].
  match goal with H : _ && _ = true |- _ => apply andb_true_iff in H as [Hcap _] end.
  eapply spec_mono; [apply keeps_recover; [done|by eapply capacity_phase]|]. done.
Qed.

Lemma reconcile_terminal_ok run s :
  good id run s -> ending (Phase (Status run)) = true -> spec (protocol id) (reconcileTerminal r) run s anyhow.
Proof.
  intros Hg He. unfold reconcileTerminal. kstep. eapply spec_mono; [by apply stale_fence_ok|].
  intros s1 run1 [b|e] H1; [|by kstep]. destruct (H1 ltac:(by eexists)) as [Hg1 Hp1]. destruct b; [by kstep|].
  kbind. destruct a as [[result handled] e]. kif; [by kstep|]. kif; [by kstep|]. do 2 kstep. kbind. kif; [by kstep|].
  like_here run1 Hl. apply duties_ok; [done|]. destruct (like_fields _ _ Hl) as (-> & _). by rewrite Hp1.
Qed.

Lemma resolve_completed_ok run s :
  good id run s -> Phase (Status run) = PhaseDone -> spec (protocol id) (resolveCompleted r) run s anyhow.
Proof.
  intros Hg Hp. assert (Hw : w_phase s = Some PhaseDone) by (by rewrite (good_phase _ _ _ Hg), Hp).
  assert (Hr : spec (protocol id) (lift_reap (reapDone (r_Reap r))) run s anyhow) by (unfold reapDone; by kstep).
  unfold resolveCompleted. do 2 kstep. cbv zeta. kif; [done|].
  destruct (adapterAndWorkItem _ _) as [[adapter item]|]; [|by kstep]. do 2 kstep. repeat case_match; first [exact Hr|by kstep].
Qed.

(** ** The reconcile *)

(** The phases of the API type. *)
Definition known_phase (phase : string) : bool :=
  member phase [""; PhasePending; PhaseClaimed; PhaseRunning; PhaseVerifying] || ending phase.

Lemma dispatch_ok d run s :
  good id run s -> known_phase (Phase (Status run)) = true -> fence_inv (Status run) ->
  spec (protocol id) (dispatch r d) run s anyhow.
Proof.
  intros Hg Hk Hf. unfold dispatch. do 2 kstep. cbv zeta.
  destruct (String.eqb_spec (Phase (Status run)) PhaseRunning); [by apply observe_running_ok|].
  destruct (String.eqb_spec (Phase (Status run)) PhaseVerifying); [by apply observe_verifying_ok|].
  destruct (String.eqb_spec (Phase (Status run)) PhaseClaimed); [by apply resume_ok|].
  destruct (String.eqb_spec (Phase (Status run)) PhaseDone); [by apply resolve_completed_ok|].
  destruct (String.eqb_spec (Phase (Status run)) ""); cbn [negb andb]; [apply admit_pending_ok; [done|by left]|].
  destruct (String.eqb_spec (Phase (Status run)) PhasePending); cbn [negb andb]; [apply admit_pending_ok; [done|by right]|].
  kstep. eapply spec_mono; [apply reconcile_terminal_ok; [done|]|].
  - unfold known_phase in Hk. apply orb_true_iff in Hk as [Hk|Hk]; [|done]. unfold member in Hk. cbn [existsb] in Hk.
    repeat match goal with H : Phase (Status run) <> ?x |- _ => apply String.eqb_neq in H; rewrite ?H in Hk end. discriminate Hk.
  - intros s1 run1 [result e] _. kif; by kstep.
Qed.

Lemma reconcile_live_ok run s :
  good id run s -> known_phase (Phase (Status run)) = true -> fence_inv (Status run) ->
  spec (protocol id) (reconcile_live r) run s anyhow.
Proof.
  intros Hg Hk Hf. unfold reconcile_live. do 4 kstep. kbind. kif; [by kstep|]. kbind. kif; [by kstep|]. kbind. kbind. cbv zeta.
  do 2 kstep. kif; [by kstep|]. like_here run Hl. destruct (like_fields _ _ Hl) as (Ep & Er & Ek).
  apply dispatch_ok; [done|by rewrite Ep|]. unfold fence_inv. by rewrite Er, Ek.
Qed.

Lemma reconcile_read_ok run s :
  good id run s -> known_phase (Phase (Status run)) = true -> fence_inv (Status run) ->
  spec (protocol id) (reconcile_read r) run s anyhow.
Proof.
  intros Hg Hk Hf. unfold reconcile_read. do 2 kstep. kif; [by apply reconcile_live_ok|].
  unfold revoke. repeat (kstep; cbv beta iota); exact I.
Qed.

End Run.
