(* ===== verification/Contract.v ===== *)
(** * What every reconcile guarantees

    The theorems about executions of [Reconcile] that the monitored proofs of
    ProtocolRun.v give, stated on traces: phases only move along the edges of
    the phase machine and only from an acknowledged phase, Done only after the
    forge showed the merge, a source report
    follows the acknowledged write of the phase it reports, claims, launches
    and pod deletions happen in their phases, and a fenced repair attempt is
    never dropped without the settlement it owes. *)

From S2P Require Import Prelude Effects GoStrings GoTime Run StatusPatch Lane Kube Backoff Reap Retry World Logic Pods Report.
From S2P Require Import Capacity Terminal Checks CIPark Liveness Observe Reconcile Protocol ProtocolTerminal ProtocolPark.
From S2P Require Import ProtocolObserve ProtocolRun.
Local Open Scope string_scope.
Local Open Scope Z_scope.

(** ** The run a reconcile starts from *)

(** A phase of the API type, a settlement that is not that of the attempt in
    flight, and an attempt tied to the recorded park. *)
Record admissible (st : CoderRunStatus) : Prop := {
  adm_phase : known_phase (Phase st) = true;
  adm_distinct : distinct st = true;
  adm_fence : fence_inv st
}.

Definition start (run : CoderRun) : watch :=
  {| w_phase := Some (Phase (Status run)); w_repairs := [CIRepair (Status run)]; w_free := false |}.

Lemma good_start run : admissible (Status run) -> good run run (start run).
Proof. intros [_ Hd _]. constructor; try done. by left. Qed.

(** ** The persisted phase along a trace *)

(** The phase a write asks for, and whether it was acknowledged. *)
Definition phase_request (ev : event worldE) : option (string * bool) :=
  match view ev with
  | AWrite fields ok => if String.eqb (op_Phase fields) "" then None else Some (op_Phase fields, ok)
  | _ => None
  end.

(** The phase known to be persisted: unknown after a write that failed. *)
Definition persist (known : option string) (ev : event worldE) : option string :=
  match phase_request ev with
  | Some (phase, ok) => if ok : bool then Some phase else None
  | None => known
  end.

Definition persisted (phase : string) (t : trace worldE) : option string := foldl persist (Some phase) t.

Lemma persist_step {AS : Assume} id s ev s' : step (protocol id) s ev = Some s' -> w_phase s' = persist (w_phase s) ev.
Proof.
  unfold step, protocol, persist, phase_request. destruct (legal _ _ _); [|done]. intros [= <-].
  destruct (view ev); try done. cbn [advance after_write w_phase]. by destruct (String.eqb _ _), ok.
Qed.

Lemma persist_accepts {AS : Assume} id s t s' :
  accepts (step (protocol id)) s t = Some s' -> w_phase s' = foldl persist (w_phase s) t.
Proof.
  revert s. induction t as [|ev t IH]; intros s; cbn [accepts foldl]; [by intros [= <-]|].
  destruct (step _ s ev) as [s1|] eqn:Hs; [|done]. intros H. rewrite <- (persist_step _ _ _ _ Hs). by apply IH.
Qed.

(** ** Acceptance at a point of a trace *)

Section Accepted.
Context {AS : Assume} {CO : ConditionOps} {CD : Codec}.
Variables (r : Reconciler) (run : CoderRun).
Hypothesis Hadm : admissible (Status run).

Lemma read_accepted t1 t2 out :
  exec (reconcile_read r run) (t1 ++ t2)%list out -> Forall assume t1 -> is_Some (accepts (step (protocol run)) (start run) t1).
Proof.
  apply (spec_prefix _ _ _ _ _
    (reconcile_read_ok r run run (start run) (good_start run Hadm) (adm_phase _ Hadm) (adm_fence _ Hadm))).
Qed.

(** The automaton reads every request in the state the requests before it give. *)
Lemma read_legal_in t1 ev t2 out :
  exec (reconcile_read r run) (t1 ++ ev :: t2)%list out -> Forall assume t1 -> assume ev ->
  exists s, accepts (step (protocol run)) (start run) t1 = Some s /\ w_phase s = persisted (Phase (Status run)) t1 /\
            legal run s (view ev) = true.
Proof.
  intros Hex H1 Hev. change (ev :: t2) with ([ev] ++ t2)%list in Hex. rewrite app_assoc in Hex.
  apply read_accepted in Hex as [s' Hs]; [|apply Forall_app; split; [done|by constructor]]. rewrite accepts_app in Hs.
  destruct (accepts _ _ t1) as [s|] eqn:Ht; [|done]. exists s. split; [done|].
  split; [exact (persist_accepts _ _ _ _ Ht)|]. cbn [accepts] in Hs. unfold step, protocol in Hs.
  by destruct (legal run s (view ev)).
Qed.
End Accepted.

(** The same over all executions. *)
Lemma read_legal {CO : ConditionOps} {CD : Codec} r run t1 ev t2 out :
  admissible (Status run) -> exec (reconcile_read r run) (t1 ++ ev :: t2)%list out ->
  exists s, accepts (step (protocol (AS := all_executions) run)) (start run) t1 = Some s /\
            w_phase s = persisted (Phase (Status run)) t1 /\ legal (AS := all_executions) run s (view ev) = true.
Proof.
  intros Hadm Hex. apply (read_legal_in (AS := all_executions) r run Hadm t1 ev t2 out Hex); [by apply Forall_true|exact I].
Qed.

Section Contract.
Context {CO : ConditionOps} {CD : Codec}.

(** C1: Every execution of a reconcile is accepted by the automaton of
    the run it read; one that read none writes nothing. *)
Theorem reconcile_protocol r ns name t out :
  exec (Reconcile r ns name) t out ->
  t = [] \/ exists answer t', t = Ev (GetRunCached ns name) answer :: t' /\
    match answer with
    | Ok run => admissible (Status run) ->
        exists s', accepts (step (protocol (AS := all_executions) (keyed ns name run))) (start (keyed ns name run)) t' = Some s'
    | Err _ => Forall (fun ev => view ev = AQuiet) t'
    end.
Proof.
  unfold Reconcile. destruct (owns r ns); cbn [negb]; [|intros [-> _]; by left].
  cbn [mbind prog_bind call bind_prog exec]. intros (answer & t' & -> & Hex). right. exists answer, t'. split; [done|].
  destruct answer as [run|e].
  - intros Hadm. apply exec_bind in Hex as (t1 & t2 & [run' o] & -> & Hex & [-> _]). rewrite app_nil_r.
    rewrite <- (app_nil_r t1) in Hex.
    exact (read_accepted (AS := all_executions) r (keyed ns name run) Hadm t1 [] _ Hex ltac:(by apply Forall_true)).
  - destruct (IsNotFound e); cbn [bind_prog exec] in Hex.
    + destruct Hex as (x & t1 & -> & [-> _]). by repeat constructor.
    + by destruct Hex as [-> _].
Qed.

(** C16: A phase write takes an edge of the phase machine from the phase
    persisted before it, and none follows a phase write that failed. *)
Theorem reconcile_phase_edges r run t1 ev t2 out new ok :
  admissible (Status run) -> exec (reconcile_read r run) (t1 ++ ev :: t2)%list out -> phase_request ev = Some (new, ok) ->
  exists old, persisted (Phase (Status run)) t1 = Some old /\ edge old new = true.
Proof.
  intros Hadm Hex Hp. destruct (read_legal r run _ _ _ _ Hadm Hex) as (s & _ & Hw & Hl). rewrite <- Hw.
  unfold phase_request in Hp. destruct (view ev); try done. cbn [legal] in Hl. apply andb_true_iff in Hl as [Hl _].
  unfold phase_write in Hl. destruct (String.eqb (op_Phase fields) ""); [done|]. injection Hp as <- <-.
  apply andb_true_iff in Hl as [Hl _]. destruct (w_phase s); [|done]. by eexists.
Qed.


(** What a source is told about a run's end. *)
Definition report_of (ev : event worldE) : option Lifecycle :=
  match view ev with AReport lc _ => Some lc | AClose lc _ => Some lc | _ => None end.

(** C21: A lifecycle report is sent only for a terminal phase that an
    acknowledged write (or the run as read) persisted, under that phase's
    idempotency key. *)
Theorem reconcile_reports_persisted r run t1 ev t2 out lc :
  admissible (Status run) -> exec (reconcile_read r run) (t1 ++ ev :: t2)%list out -> report_of ev = Some lc ->
  exists phase, persisted (Phase (Status run)) t1 = Some phase /\ ending phase = true /\
                lc_IdempotencyKey lc = lifecycleIdempotencyKey run phase.
Proof.
  intros Hadm Hex Hp. destruct (read_legal r run _ _ _ _ Hadm Hex) as (s & _ & Hw & Hl). rewrite <- Hw.
  assert (Hr : reports_phase run s lc = true).
  { unfold report_of in Hp. destruct (view ev); try done; injection Hp as <-; cbn [legal] in Hl; [done|].
    by apply andb_true_iff in Hl as [_ Hl]. }
  unfold reports_phase in Hr. destruct (w_phase s) as [q|]; [|done]. apply andb_true_iff in Hr as [He Hk].
  exists q. split; [done|]. split; [done|]. by apply String.eqb_eq.
Qed.

(** The phases in which a reconcile claims work, launches a pod, deletes pods
    or the run, reserves a repair, settles capacity or resolves the work. *)
Definition phases_for (a : action) : option (list string) :=
  match a with
  | AClaim _ => Some [""; PhasePending]
  | ALaunch | ADeleteRun => Some [PhaseClaimed]
  | ADeletePod _ _ => Some [PhaseRunning; PhaseClaimed]
  | AReserve _ _ => Some [PhaseVerifying]
  | APrepare _ _ | ASettle _ => Some [PhaseBlockedExternal]
  | AClose _ _ => Some [PhaseAlreadyDone]
  | AResolve => Some [PhaseDone]
  | _ => None
  end.

(** The requests that act on the world are made in their phases only:
    in particular nothing is launched for a run whose claim is not persisted. *)
Theorem reconcile_acts_in_phase r run t1 ev t2 out phases :
  admissible (Status run) -> exec (reconcile_read r run) (t1 ++ ev :: t2)%list out -> phases_for (view ev) = Some phases ->
  exists phase, persisted (Phase (Status run)) t1 = Some phase /\ In phase phases.
Proof.
  intros Hadm Hex Hp. destruct (read_legal r run _ _ _ _ Hadm Hex) as (s & _ & Hw & Hl). rewrite <- Hw.
  assert (Hin : within phases s = true).
  { destruct (view ev); try done; injection Hp as <-; cbn [legal] in Hl; try done; by apply andb_true_iff in Hl as [Hl _]. }
  unfold within in Hin. destruct (w_phase s) as [q|]; [|done]. exists q. split; [done|].
  unfold member in Hin. apply existsb_exists in Hin as (x & Hx & E). apply String.eqb_eq in E. by subst.
Qed.
(** A pod that may still be running is deleted only under the
    identity that was observed, so a replacement under the same name is never
    hit; the pods deleted by name are workers and brokers of a fenced round. *)
Theorem reconcile_deletes_exact r run t1 ev t2 out pod uid :
  admissible (Status run) -> exec (reconcile_read r run) (t1 ++ ev :: t2)%list out -> view ev = ADeletePod pod uid ->
  uid = Some (pod_UID pod) \/ podPhaseTerminal (pod_Phase pod) = true \/
  component pod = ComponentWorker \/ component pod = ComponentBroker.
Proof.
  intros Hadm Hex Hv. destruct (read_legal r run _ _ _ _ Hadm Hex) as (s & _ & _ & Hl). rewrite Hv in Hl.
  cbn [legal] in Hl. apply andb_true_iff in Hl as [_ Hl]. unfold exact_delete in Hl.
  apply orb_true_iff in Hl as [Hl|Hl]; [apply orb_true_iff in Hl as [Hl|Hl]|].
  - left. destruct uid; [|done]. f_equal. by apply String.eqb_eq.
  - by right; left.
  - right; right. unfold member in Hl. cbn [existsb] in Hl. rewrite orb_false_r in Hl.
    apply orb_true_iff in Hl as [Hl|Hl]; apply String.eqb_eq in Hl; auto.
Qed.

(** A request that may change which repair attempt the run is known to carry. *)
Definition about_repair (ev : event worldE) : bool :=
  match view ev with
  | ALive _ => true
  | AWrite fields _ => match op_CIRepair fields with Omit => false | _ => true end
  | _ => false
  end.

Lemma repairs_kept {AS : Assume} id s t s' :
  forallb (fun ev => negb (about_repair ev)) t = true -> accepts (step (protocol id)) s t = Some s' ->
  w_repairs s' = w_repairs s /\ w_free s' = w_free s.
Proof.
  revert s. induction t as [|ev t IH]; intros s; cbn [forallb accepts]; [by intros _ [= <-]|].
  intros [Hq Ht]%andb_true_iff. unfold step at 1, protocol. destruct (legal _ _ _); [|done]. intros Ha.
  destruct (IH _ Ht Ha) as [-> ->]. unfold about_repair in Hq. destruct (view ev); try done.
  cbn [advance after_write w_repairs w_free]. by destruct (op_CIRepair fields).
Qed.

End Contract.

(** ** Witnesses *)

Definition plain_codec : Codec :=
  {| UnmarshalTermination := fun _ => None; UnmarshalObserver := fun _ => None; MarshalTelemetry := fun _ => None;
     Redact := fun s => s; Quote := fun s => s; ApiErrorText := fun _ => "" |}.

Definition example_lane : LaneProfile :=
  {| lp_Name := "local"; lp_Annotations := ∅;
     lp_Spec := {| RuntimeImage := ""; Concurrency := 1; Roles := ∅; Transport := ""; Framing := ""; CapacityGroup := "";
                   lp_Context := None; lp_Resources := {| Requests := ∅; Limits := ∅ |};
                   lp_CIRepair := None; Skills := [] |};
     lp_Status := {| lp_CapacityCooldown := None |} |}.

(** An API server that accepts every write, an empty lane, a source that
    accepts everything, a forge that shows [o], and the pods [pods]. *)
Definition cooperative (read : CoderRun) (o : PRObservation) (pods : list Pod) : forall X, worldE X -> unit -> unit * X := fun X e w => (w,
  match e in worldE X return X with
  | Kube k => (accepting _ k tt).2
  | GetRunCached _ _ | GetRunLive _ _ => Ok read
  | ListRunsLive _ => Ok []
  | GetLane _ _ _ => Ok example_lane
  | ListLanes _ _ => Ok [example_lane]
  | ListPods _ _ _ => Ok pods
  | GetPodLive _ _ => Err NotFound
  | DeleteRunObject _ _ | PatchLaneStatus _ _ | DeletePod _ _ | DeleteBrokerService _ _ => Ok tt
  | Claim _ _ | Release _ _ | Transition _ _ _ | Resolve _ _ | Report _ _ _ | PreLaunch _ _
  | SettleCapacityExhaustion _ _ _ | ReportCIParked _ _ _ | ReportCIRepair _ _ _ | ReleaseCIPark _ _ _ => Ok tt
  | ClaimWithReceipt _ item => Ok item
  | ReportClose _ _ _ => Err {| wraps := [ErrUnsupportedOutcome]; se_Text := "" |}
  | PrepareCapacityRecovery _ _ _ _ => Err {| wraps := [ErrUnsupportedCapacityRecovery]; se_Text := "" |}
  | ReserveCIRepair _ _ _ => Ok ""
  | CIParkLifecycleUnsupported _ => false
  | ObservePR _ _ => Ok o
  | CommentWorkItem _ _ => Ok tt
  | Launch _ => []
  | LaunchSecure _ => (res0, [])
  | ResolveAdmission _ => Err []
  | Revoke _ => (true, [])
  | RemoveFinalizer _ | DeleteEvidence _ => []
  | ListEvidence _ => Ok 0%nat
  | ObserveExecution _ => tt
  | ForgetExecution _ _ => tt
  | EmitPhase _ _ _ => tt
  end).

Definition merged : PRObservation := {| ob_PR := "7"; ob_Draft := false; ob_Head := "abc"; ob_Checks := []; ob_Merged := true |}.

Definition example_reconciler : Reconciler :=
  {| r_Retry := one_requeuer;
     r_Reap := {| DoneRetention := 0; FailedRetention := 0; NeedsHumanRetention := 0; TerminalAuditKeep := 0 |};
     r_Launch := true; r_PRHeadResolver := false; r_Observer := true; r_WorkItemComments := false; r_WorkItemLinks := None;
     r_Evidence := false; r_Events := false; r_ProvisioningCollisionGrace := 0; r_LivenessWindow := Second; r_MaxRestarts := 0;
     r_CapacityCooldownWindow := 0; r_Secure := None; r_OwnedNamespaces := [] |}.

(** A coordinator pod of the example run. *)
Definition coordinator_pod : Pod :=
  {| pod_Namespace := "agents"; pod_Name := "run-1"; pod_UID := "pod-1"; pod_Labels := {[ LabelRun := "run-1" ]};
     pod_Annotations := ∅; pod_OwnerReferences := []; pod_CreationTimestamp := 0; pod_DeletionTimestamp := None;
     pod_Containers := [{| ct_Name := coordinatorContainerName; ct_Image := ""; ct_Command := []; ct_Args := [];
       ct_TerminationMessagePath := ""; ct_TerminationMessagePolicy := ""; ct_SecurityContext := None; ct_VolumeMounts := [];
       ct_EnvFrom := 0 |}];
     pod_InitContainers := []; pod_NodeName := ""; pod_RestartPolicy := ""; pod_HostPID := false;
     pod_ShareProcessNamespace := None; pod_AutomountServiceAccountToken := None; pod_ServiceAccountName := ""; pod_Phase := "Running"; pod_Reason := "";
     pod_ContainerStatuses := []; pod_InitContainerStatuses := [] |}.

Definition reconciled (run0 : CoderRun) : unit * trace worldE * (CoderRun * Terminal.outcome) :=
  run (cooperative run0 merged [coordinator_pod])
    (reconcile_read (CO := keyed_conditions) (CD := plain_codec) example_reconciler run0) tt.

(** A published run whose fenced repair was merged, and a run whose
    coordinator went silent. *)
Definition repaired_run : CoderRun :=
  set_Status example_run (set_CIRepair (set_CIPark (set_Phase empty_status PhaseVerifying)
    (Some {| park_Head := "abc"; ParkedAt := 0; park_Attempts := 1; LastOutcome := "" |}))
    (Some {| rep_Head := "abc"; rep_Attempt := 1; FailedChecks := []; rep_Logs := ""; rep_FenceToken := "fence-1"; rep_MaxAttempts := 2 |})).


Definition with_heartbeat (s : CoderRunStatus) (v : option Heartbeat) : CoderRunStatus := ltac:(with_field st_Heartbeat).

Definition silent_run : CoderRun :=
  set_Status example_run (with_heartbeat (set_Phase empty_status PhaseRunning)
    (Some {| hb_At := 0; hb_Kind := ""; hb_CoordinatorPodUID := "pod-1" |})).

Lemma reconciled_split run0 i ev :
  (reconciled run0).1.2 !! i = Some ev ->
  exec (reconcile_read (CO := keyed_conditions) (CD := plain_codec) example_reconciler run0)
    (take i (reconciled run0).1.2 ++ ev :: drop (S i) (reconciled run0).1.2)%list (reconciled run0).2.
Proof. intros Hi. rewrite take_drop_middle by done. apply run_exec. Qed.

Lemma example_admissible : admissible (Status example_run).
Proof. by constructor. Qed.

Lemma repaired_admissible : admissible (Status repaired_run).
Proof. constructor; [done..|]. right. eexists. split; [reflexivity|]. by split. Qed.

(** A request of a sample trace, with what is read off it. *)
Lemma sample {A} run0 i (f : event worldE -> A) a :
  f <$> (reconciled run0).1.2 !! i = Some a -> exists ev, (reconciled run0).1.2 !! i = Some ev /\ f ev = a.
Proof. destruct (_ !! i) as [ev|]; [|done]. intros [= <-]. by exists ev. Qed.

Lemma reconcile_protocol_witness :
  exists answer t', (run (cooperative repaired_run merged []) (Reconcile (CO := keyed_conditions) (CD := plain_codec)
      example_reconciler "agents" "run-1") tt).1.2 = Ev (GetRunCached "agents" "run-1") answer :: t' /\
    match answer with
    | Ok run => admissible (Status run) ->
        exists s', accepts (step (protocol (AS := all_executions) (keyed "agents" "run-1" run))) (start (keyed "agents" "run-1" run)) t' = Some s'
    | Err _ => Forall (fun ev => view ev = AQuiet) t'
    end.
Proof.
  destruct (reconcile_protocol (CO := keyed_conditions) (CD := plain_codec) example_reconciler "agents" "run-1" _ _
    (run_exec (cooperative repaired_run merged []) _ tt)) as [H|H]; [|exact H].
  apply (f_equal (@length _)) in H. vm_compute in H. discriminate H.
Defined.

Lemma reconcile_phase_edges_witness :
  exists old, persisted (Phase (Status example_run)) (take 16 (reconciled example_run).1.2) = Some old /\ edge old PhaseRunning = true.
Proof.
  destruct (sample example_run 16 phase_request (Some (PhaseRunning, true))) as (ev & Hi & Hp); [vm_compute; reflexivity|].
  exact (reconcile_phase_edges _ _ _ _ _ _ _ _ example_admissible (reconciled_split _ _ _ Hi) Hp).
Defined.


Lemma reconcile_reports_persisted_witness :
  exists phase, persisted (Phase (Status repaired_run)) (take 12 (reconciled repaired_run).1.2) = Some phase /\ ending phase = true /\
    "coderun/agents/run-1/Done/uid-1" = lifecycleIdempotencyKey repaired_run phase.
Proof.
  destruct (sample repaired_run 12 (fun ev => lc_IdempotencyKey <$> report_of ev) (Some "coderun/agents/run-1/Done/uid-1"))
    as (ev & Hi & Hp); [vm_compute; reflexivity|].
  destruct (report_of ev) as [lc|] eqn:Hl; [|discriminate Hp]. injection Hp as <-.
  exact (reconcile_reports_persisted _ _ _ _ _ _ _ repaired_admissible (reconciled_split _ _ _ Hi) Hl).
Defined.

Lemma reconcile_acts_in_phase_witness :
  exists phase, persisted (Phase (Status example_run)) (take 14 (reconciled example_run).1.2) = Some phase /\ In phase [PhaseClaimed].
Proof.
  destruct (sample example_run 14 (fun ev => phases_for (view ev)) (Some [PhaseClaimed])) as (ev & Hi & Hp); [vm_compute; reflexivity|].
  exact (reconcile_acts_in_phase _ _ _ _ _ _ _ example_admissible (reconciled_split _ _ _ Hi) Hp).
Defined.

Lemma reconcile_deletes_exact_witness :
  exists pod uid, In (ADeletePod pod uid) (map view (reconciled silent_run).1.2) /\ pod_Name pod = "run-1" /\
    (uid = Some (pod_UID pod) \/ podPhaseTerminal (pod_Phase pod) = true \/
     component pod = ComponentWorker \/ component pod = ComponentBroker).
Proof.
  destruct (sample silent_run 6 (fun ev => match view ev with ADeletePod pod _ => pod_Name pod | _ => "" end) "run-1")
    as (ev & Hi & Hp); [vm_compute; reflexivity|].
  destruct (view ev) as [| | | | | | |pod uid| | | | | | | | | | | |] eqn:Hv; try discriminate Hp.
  exists pod, uid. split.
  { rewrite <- Hv. apply in_map, list_elem_of_In. by eapply list_elem_of_lookup_2. }
  split; [exact Hp|].
  refine (reconcile_deletes_exact _ _ _ _ _ _ _ _ _ (reconciled_split _ _ _ Hi) Hv). by constructor.
Defined.

