(* ===== verification/Admission.v ===== *)
(** * Admission (internal/controller/coderun_controller.go)

    Work is claimed only for a run whose lane is open, out of cooldown and
    below its concurrency on a live listing; a claim the API server refuses to
    record is released at once. *)

From S2P Require Import Prelude Effects GoStrings GoTime Run StatusPatch Lane Kube Backoff Reap Retry World Logic Pods Report.
From S2P Require Import Capacity Terminal Checks CIPark Liveness Observe Reconcile Protocol ProtocolPark ProtocolRun Contract.
Local Open Scope string_scope.
Local Open Scope Z_scope.

Definition is_claim (ev : event worldE) : bool := match view ev with AClaim _ => true | _ => false end.

(** Reading the first request of an execution. *)
Lemma exec_io {A B} (e : worldE A) (k : A -> M B) run t out :
  exec ((io e ≫= k) run) t out -> exists x t', t = Ev e x :: t' /\ exec (k x run) t' out.
Proof. done. Qed.

Lemma exec_get {B} (k : CoderRun -> M B) run t out : exec ((get ≫= k) run) t out -> exec (k run run) t out.
Proof. done. Qed.

Lemma exec_ret {A} (a : A) run t out : exec (mret (M := M) a run) t out -> t = [] /\ out = (run, a).
Proof. done. Qed.

Section Admission.
Context {CO : ConditionOps} {CD : Codec}.
Variable r : Reconciler.

(** C23: Work is claimed only after the run's own lane was read open, no
    cooldown of its capacity was active, and a live listing showed the lane below
    its concurrency: the run admitted keeps the lane within it. *)
Theorem admission_gated run t out :
  exec (admitPending r run) t out -> existsb is_claim t = true ->
  exists lane lanes now runs rest,
    t = Ev (GetLane false (Namespace run) (sp_Lane (Spec run))) (Ok lane) :: Ev (ListLanes false (Namespace run)) (Ok lanes) ::
        Ev (Kube Now) now :: Ev (ListRunsLive (Namespace run)) (Ok runs) :: rest /\
    Suspended lane = false /\ CapacityCooldownActive lane lanes now = None /\
    admittedCount runs (sp_Lane (Spec run)) + 1 <= Z.max 1 (Concurrency (lp_Spec lane)).
Proof.
  unfold admitPending. intros Hex Hc. apply exec_get in Hex.
  destruct (adapterAndWorkItem _ run) as [[adapter item]|]; [|apply exec_ret in Hex as [-> _]; discriminate Hc].
  apply exec_io in Hex as ([lane|] & t1 & -> & Hex); [|apply exec_ret in Hex as [-> _]; discriminate Hc].
  destruct (Suspended lane) eqn:Hs; [apply exec_ret in Hex as [-> _]; discriminate Hc|].
  apply exec_io in Hex as ([lanes|] & t2 & -> & Hex); [|apply exec_ret in Hex as [-> _]; discriminate Hc].
  apply exec_io in Hex as (now & t3 & -> & Hex).
  destruct (CapacityCooldownActive lane lanes now) eqn:Hcool; [apply exec_ret in Hex as [-> _]; discriminate Hc|].
  apply exec_io in Hex as ([runs|] & t4 & -> & Hex); [|apply exec_ret in Hex as [-> _]; discriminate Hc].
  destruct (laneHasCapacity runs _ _) eqn:Hcap; [|apply exec_ret in Hex as [-> _]; discriminate Hc].
  exists lane, lanes, now, runs, t4. split; [done|]. split; [done|]. split; [done|].
  unfold laneHasCapacity in Hcap. apply Z.ltb_lt in Hcap. destruct (Z.leb_spec (Concurrency (lp_Spec lane)) 0); lia.
Qed.

(** The claim: one request, with its answer. *)
Lemma exec_claim adapter item run t run' answer :
  exec (claim adapter item run) t (run', answer) -> run' = run /\ exists ev, t = [ev] /\ is_claim ev = true.
Proof.
  unfold claim. destruct (is_receipt_claimer adapter); intros Hex; apply exec_io in Hex as (x & t' & -> & Hex);
    apply exec_ret in Hex as [-> [= -> _]]; eauto.
Qed.

(** The writes of a trace. *)
Definition write_of (ev : event worldE) : option bool := match view ev with AWrite _ ok => Some ok | _ => None end.

(** The first request with a property splits a trace in one way. *)
Lemma first_split {A B} (f : A -> option B) a x b c y d :
  (a ++ x :: b)%list = (c ++ y :: d)%list -> omap f a = [] -> omap f c = [] -> is_Some (f x) -> is_Some (f y) ->
  a = c /\ x = y /\ b = d.
Proof.
  intros E Ha Hc [vx Hx] [vy Hy]. revert c E Hc. induction a as [|z a IH]; intros [|w c] E Hc; cbn in *.
  - by injection E.
  - injection E as <- ->. by rewrite Hx in Hc.
  - injection E as -> <-. by rewrite Hy in Ha.
  - injection E as <- E. destruct (f z); [done|]. destruct (IH Ha c E Hc) as (-> & -> & ->). done.
Qed.

Lemma exec_M_bind {A B} (p : M A) (k : A -> M B) run t out :
  exec ((p ≫= k) run) t out ->
  exists t1 t2 run1 a, t = (t1 ++ t2)%list /\ exec (p run) t1 (run1, a) /\ exec (k a run1) t2 out.
Proof. intros Hex. apply exec_bind in Hex as (t1 & t2 & [run1 a] & -> & H1 & H2). by exists t1, t2, run1, a. Qed.

(** A write that changes the phase: acknowledged, or refused last. *)
Definition phase_written (t : trace worldE) (e : error) : Prop :=
  exists u ev v, t = (u ++ ev :: v)%list /\ omap write_of u = [] /\
    (write_of ev = Some true /\ e = [] \/ write_of ev = Some false /\ v = [] /\ failed e = true).

Lemma exec_patch before run t run' e :
  Phase (Status run) <> Phase (Status before) -> Phase (Status run) <> "" ->
  exec (patch before run) t (run', e) -> phase_written t e.
Proof.
  unfold patch. intros Hne Hem Hex. apply exec_bind in Hex as (t1 & t2 & [run1 a] & -> & Hl & [-> [= -> ->]]).
  apply lift_exec in Hl as (u & -> & Hu). rewrite app_nil_r.
  assert (Hw : wp (patchStatus before run) (fun u out =>
    phase_written (inj_event (fun _ e => Kube e) <$> u) (of_result EApi out.2))).
  { apply wp_patchStatus. intros now u' o fresh st write Hw [(-> & _)|(fields & -> & [(e' & -> & ->)|[-> ->]])].
    - exfalso. unfold status_write in Hw. destruct (is_empty_patch _) eqn:Hemp; [|done]. revert Hemp.
      unfold is_empty_patch. rewrite !andb_true_iff. intros Hemp. decompose [and] Hemp.
      match goal with H : omitted_s (op_Phase _) = true |- _ => revert H end. cbn [operator_fields op_Phase]. unfold omitted_s.
      assert (Phase (stamp_phase fresh now (Status before) (Status run)) = Phase (Status run)) as ->
        by (unfold stamp_phase; by case_match).
      destruct (String.eqb_spec (Phase (Status before)) (Phase (Status run))); [congruence|]. by apply String.eqb_neq in Hem as ->.
    - eexists [_], _, []. split; [reflexivity|]. split; [done|]. right. done.
    - eexists [_], _, [_]. split; [reflexivity|]. split; [done|]. by left. }
  exact (proj1 (wp_exec _ _) Hw u (run1, a) Hu).
Qed.

Lemma exec_release adapter item run t out :
  exec (release adapter item run) t out -> exists ans, t = [Ev (Release (adapter_id adapter) item) ans].
Proof. unfold release. intros Hex. apply exec_io in Hex as (x & t' & -> & Hex). apply exec_ret in Hex as [-> _]. by exists x. Qed.

(** A claim the API server refused to record is released before the
    reconcile returns its error, and nothing else is attempted. *)
Theorem refused_claim_released adapter item run t1 ev t2 out :
  phaseConsumesCapacity (Phase (Status run)) = false ->
  exec (admit_run r adapter item run) (t1 ++ ev :: t2)%list out -> omap write_of t1 = [] -> write_of ev = Some false ->
  (exists item' ans, t2 = [Ev (Release (adapter_id adapter) item') ans]) /\ failed out.2.2 = true.
Proof.
  unfold admit_run. intros Hph Hex H1 Hev.
  apply exec_M_bind in Hex as (u1 & u2 & run1 & answer & Ht & Hc & Hex). apply exec_claim in Hc as [-> (cl & -> & Hcl)].
  assert (Hw : write_of cl = None) by (unfold write_of, is_claim in *; by destruct (view cl)).
  assert (Hq : omap write_of [cl] = []) by (cbn; by rewrite Hw).
  destruct answer as [item'|e].
  2:{ apply exec_ret in Hex as [-> _]. rewrite app_nil_r in Ht. destruct t1 as [|z t1]; injection Ht as <- Ht; [congruence|].
      by destruct t1. }
  apply exec_M_bind in Hex as (v0 & v1 & run2 & before & -> & [-> [= -> ->]] & Hex). apply exec_get in Hex.
  apply exec_M_bind in Hex as (v2 & v3 & run3 & now & -> & Hn & Hex).
  assert (Hn' : run3 = run /\ omap write_of v2 = []).
  { destruct (unset _); [destruct Hn as (x & t' & -> & -> & [= -> _])|destruct Hn as (-> & [= -> _])]; done. }
  destruct Hn' as [-> Hv2]. apply exec_M_bind in Hex as (v4 & v5 & run4 & [] & -> & [-> [= ->]] & Hex).
  apply exec_M_bind in Hex as (w1 & w2 & run5 & e & -> & Hp & Hex).
  assert (Hadm : Phase (admitted adapter item' now (Status run)) = PhaseClaimed).
  { unfold admitted. cbv zeta. repeat case_match; reflexivity. }
  apply exec_patch in Hp as (u & ev' & v & -> & Hu & Hcase); cbn [Status set_Status]; rewrite ?Hadm; try done.
  - assert (Hsplit : (t1 ++ ev :: t2)%list = (([cl] ++ v2 ++ u) ++ ev' :: (v ++ w2))%list)
      by (rewrite Ht, <- !app_assoc; done).
    assert (Hpre : omap write_of ([cl] ++ v2 ++ u)%list = []) by (rewrite !omap_app, Hq, Hv2, Hu; done).
    assert (Hsome : is_Some (write_of ev')) by (by destruct Hcase as [[-> _]|[-> _]]).
    destruct (first_split write_of _ _ _ _ _ _ Hsplit H1 Hpre ltac:(by rewrite Hev) Hsome) as (_ & <- & ->).
    destruct Hcase as [[Hok _]|(_ & -> & Hfail)]; [congruence|]. rewrite Hfail in Hex.
    apply exec_M_bind in Hex as (x1 & x2 & run6 & re & -> & Hrel & Hret). apply exec_release in Hrel as [ans ->].
    apply exec_ret in Hret as [-> ->]. split; [by exists item', ans|]. cbn. by destruct e.
  - intros E. change (PhaseClaimed = Phase (Status run)) in E. rewrite <- E in Hph. discriminate Hph.
Qed.
End Admission.

(** ** Witnesses *)

Definition admitted_example : unit * trace worldE * (CoderRun * Terminal.outcome) :=
  run (cooperative example_run merged []) (admitPending (CO := keyed_conditions) (CD := plain_codec) example_reconciler example_run) tt.

Lemma admission_gated_witness :
  exists lane lanes now runs rest,
    admitted_example.1.2 =
      Ev (GetLane false (Namespace example_run) (sp_Lane (Spec example_run))) (Ok lane) ::
      Ev (ListLanes false (Namespace example_run)) (Ok lanes) ::
      Ev (Kube Now) now :: Ev (ListRunsLive (Namespace example_run)) (Ok runs) :: rest /\
    Suspended lane = false /\ CapacityCooldownActive lane lanes now = None /\
    admittedCount runs (sp_Lane (Spec example_run)) + 1 <= Z.max 1 (Concurrency (lp_Spec lane)).
Proof.
  assert (Hc : existsb is_claim admitted_example.1.2 = true) by (vm_compute; reflexivity).
  exact (admission_gated (CO := keyed_conditions) (CD := plain_codec) example_reconciler example_run _ _
    (run_exec (cooperative example_run merged []) _ tt) Hc).
Defined.

(** The same environment, refusing every status write. *)
Definition refusing : forall X, worldE X -> unit -> unit * X := fun X e w =>
  match e in worldE X return unit * X with
  | Kube k => (w, match k in kubeE X return X with PatchStatusE _ _ _ => Err Conflict | k => (accepting _ k tt).2 end)
  | e => cooperative example_run merged [] _ e w
  end.

Definition example_adapter : Adapter :=
  {| adapter_id := "dispatch"; is_requeuer := true; is_reporter := true; is_close_reporter := false; is_recovery_preparer := false;
     is_capacity_recovery := false; is_cipark := false; is_cipark_probe := false; is_prelauncher := false;
     is_receipt_claimer := false; is_execution_observer := false; contribution := None |}.

Definition example_work : WorkItem :=
  {| wi_Context := "{}"; wi_ID := "item-1"; wi_Mode := Mode_ResolveIssue; wi_Repo := "misospace/courier"; wi_Ref := 12;
     wi_Lane := "default"; wi_Debug := false; wi_Assignment := {| as_Kind := ""; as_Reasons := [] |} |}.

Definition refused_example : unit * trace worldE * (CoderRun * Terminal.outcome) :=
  run refusing (admit_run (CO := keyed_conditions) (CD := plain_codec) example_reconciler example_adapter example_work example_run) tt.

Lemma refused_claim_released_witness :
  (exists item' ans, drop 4 refused_example.1.2 = [Ev (Release (adapter_id example_adapter) item') ans]) /\ failed refused_example.2.2.2 = true.
Proof.
  destruct (refused_example.1.2 !! 3%nat) as [ev|] eqn:Hi; [|vm_compute in Hi; discriminate Hi].
  assert (Hw : write_of <$> refused_example.1.2 !! 3%nat = Some (Some false)) by (vm_compute; reflexivity).
  rewrite Hi in Hw. injection Hw as Hw.
  apply (refused_claim_released (CO := keyed_conditions) (CD := plain_codec) example_reconciler example_adapter example_work
    example_run (take 3 refused_example.1.2) ev (drop 4 refused_example.1.2)); [reflexivity| |vm_compute; reflexivity|exact Hw].
  rewrite (take_drop_middle _ _ _ Hi). apply run_exec.
Defined.
