(* ===== verification/Handoff.v ===== *)
(** * The fenced capacity handoff (internal/controller/capacity_recovery.go)

    An automaton remembers what a recovery has read: that no writer of the run
    is alive, and the source's proof.  It refuses a settlement that any of them
    does not cover. *)

From S2P Require Import Prelude Effects GoStrings GoTime Run StatusPatch Lane Kube Backoff Reap Retry World Logic Pods Report.
From S2P Require Import Capacity Terminal Checks CIPark Liveness Observe Reconcile Protocol ProtocolPark ProtocolRun Contract.
From S2P Require Import Admission.
Local Open Scope string_scope.
Local Open Scope Z_scope.
#[local] Existing Instance all_executions.

Record gates := { no_writers : bool; proved : option CapacityRecoveryProof }.

Definition complete (proof : CapacityRecoveryProof) : bool :=
  negb (String.eqb (prf_FenceToken proof) "" || String.eqb (prf_WorkIdentity proof) "" || String.eqb (prf_SafetyProof proof) "").

(** The handoff carries the proof's own fence and work, under the run's key. *)
Definition covers (run : CoderRun) (proof : CapacityRecoveryProof) (h : CapacityHandoff) : bool :=
  complete proof && String.eqb (ho_FenceToken h) (prf_FenceToken proof) && String.eqb (ho_WorkIdentity h) (prf_WorkIdentity proof) &&
  String.eqb (ho_Branch h) (prf_Branch proof) && String.eqb (ho_PR h) (prf_PR proof) &&
  String.eqb (ho_IdempotencyKey h) (capacitySettlementKey run).

Section Handoff.
Context {CO : ConditionOps} {CD : Codec}.
Variables (r : Reconciler) (id : CoderRun).

Definition safe_work (st : CoderRunStatus) : bool := safeCapacityWorkspace (WorkspaceSafety st) (st_Branch st) (HeadSHA st).

Definition reported (st : CoderRunStatus) : bool :=
  match condition st lifecycleReportedCondition with
  | Some c => String.eqb (c_Status c) ConditionTrue && negb (String.eqb (c_Reason c) "Superseded")
  | None => false
  end.

Definition handoff_step (s : gates) (a : action) : option gates :=
  match a with
  | APods true None pods => Some {| no_writers := negb (existsb (writer_alive id) pods); proved := proved s |}
  | APrepare key (Ok proof) =>
      Some {| no_writers := no_writers s; proved := if String.eqb key (capacitySettlementKey id) then Some proof else proved s |}
  | ASettle h =>
      if no_writers s && safe_work (Status id) && reported (Status id) &&
         match proved s with Some proof => covers id proof h | None => false end
      then Some s else None
  | _ => Some s
  end.

#[local] Instance handoff_quiet : Quiet handoff_step.
Proof. by split. Qed.

(** What a write of a condition leaves alone. *)
Definition same_work (run' run : CoderRun) : Prop :=
  Namespace run' = Namespace run /\ run_Name run' = run_Name run /\ UID run' = UID run /\
  WorkspaceSafety (Status run') = WorkspaceSafety (Status run) /\ st_Branch (Status run') = st_Branch (Status run) /\
  HeadSHA (Status run') = HeadSHA (Status run) /\
  condition (Status run') lifecycleReportedCondition = condition (Status run) lifecycleReportedCondition.

Lemma same_work_refl run : same_work run run.
Proof. by repeat split. Qed.

Lemma handoff_patch before run s Q :
  (forall run' e, same_work run' run -> Q s run' e) -> spec handoff_step (patch before) run s Q.
Proof.
  intros HQ. apply spec_patch; [apply handoff_quiet|]. intros st Hst.
  assert (Hs : same_work (set_Status run st) run) by (destruct Hst as [->|[p ->]]; by repeat split).
  split; [intros _; by apply HQ|]. intros fields ok e _ _ _. exists s. split; [done|by apply HQ].
Qed.

Lemma handoff_condition type status reason message run s Q :
  type <> lifecycleReportedCondition -> (forall run', same_work run' run -> Q s run' tt) ->
  spec handoff_step (stamp_condition type status reason message) run s Q.
Proof.
  intros Hne HQ. unfold stamp_condition. apply spec_bind, spec_clock; [apply handoff_quiet|]. intros now. apply spec_assign, HQ.
  repeat split; try done. unfold condition, with_condition. cbn [Status set_Status Conditions set_Conditions].
  apply find_set_other. intros E. apply Hne. by rewrite E.
Qed.

Lemma same_work_trans a b c : same_work a b -> same_work b c -> same_work a c.
Proof. unfold same_work. intuition congruence. Qed.

Ltac hstep :=
  lazymatch goal with
  | |- spec _ (mbind _ _) _ _ _ => apply spec_bind
  | |- spec _ (mret _) _ _ _ => apply spec_ret
  | |- spec _ get _ _ _ => apply spec_get
  | |- spec _ clock _ _ _ => apply spec_clock; [apply handoff_quiet|intros ?now]
  | |- spec _ snapshot _ _ _ => apply spec_snapshot
  | |- spec _ (patch _) _ _ _ => apply handoff_patch; intros ?run ?e ?Hs
  | |- spec _ (stamp_condition _ _ _ _) _ _ _ => apply handoff_condition; [done|intros ?run ?Hs]
  | |- spec _ (io _) _ _ _ => let x := fresh "x" in apply spec_io; intros x; eexists; split; [first [reflexivity|by destruct x]|]
  | |- spec _ (match ?x with _ => _ end) _ _ _ => destruct x eqn:?
  end.

Definition harmless {A} (run : CoderRun) (s s' : gates) (run' : CoderRun) (_ : A) : Prop := s' = s /\ same_work run' run.

Lemma harmless_lane run s : spec handoff_step (recordCapacityCooldownLane r) run s (harmless run s).
Proof. unfold recordCapacityCooldownLane. repeat (hstep; cbv beta iota zeta); by split. Qed.

Lemma harmless_retry n p run s :
  (forall run, spec handoff_step p run s (harmless run s)) -> spec handoff_step (retry_on_conflict n p) run s (harmless run s).
Proof.
  intros Hp. revert run. induction n as [|n IH]; intros run; [apply Hp|]. cbn [retry_on_conflict]. hstep.
  eapply spec_mono; [apply Hp|]. intros ? run' e [-> Hs]. hstep; [|by hstep].
  eapply spec_mono; [apply IH|]. intros ? ? ? [-> ?]. split; [done|]. by eapply same_work_trans.
Qed.

Lemma harmless_cooldown run s : spec handoff_step (recordCapacityCooldown r) run s (harmless run s).
Proof.
  unfold recordCapacityCooldown. do 3 hstep. apply (spec_mono _ _ _ _ (harmless run s)).
  { destruct (capacityCooldownRecorded _); repeat hstep; (split; [done|]); eauto using same_work_refl, same_work_trans. }
  intros ? run1 e [-> H1]. hstep; [by hstep|]. eapply spec_mono; [apply harmless_retry; intros; apply harmless_lane|].
  intros ? ? ? [-> ?]. split; [done|]. by eapply same_work_trans.
Qed.

Definition anything {A} (_ : gates) (_ : CoderRun) (_ : A) : Prop := True.

Lemma handoff_settled adapter item proof run s :
  same_work run id -> no_writers s = true -> safe_work (Status id) = true -> reported (Status id) = true ->
  proved s = Some proof -> complete proof = true ->
  spec handoff_step (settle_capacity adapter item (capacitySettlementKey run) proof) run s anything.
Proof.
  intros (Hn & Hm & Hu & _) Hw Hs Hr Hp Hc. unfold settle_capacity, held, settlement_failed, setCapacityRecovery.
  do 4 hstep. destruct x as [lane|e]; [|repeat hstep; done]. hstep; [repeat hstep; done|]. hstep.
  apply spec_io. intros x. exists s. split; [|repeat hstep; done].
  cbn [view_op handoff_step]. rewrite Hw, Hs, Hr, Hp. unfold covers. cbn. unfold capacitySettlementKey.
  by rewrite Hc, Hn, Hm, Hu, !String.eqb_refl.
Qed.

Lemma recover_gated adapter item s :
  spec handoff_step (recoverCapacityExhaustion r adapter item) id s anything.
Proof.
  unfold recoverCapacityExhaustion. hstep. eapply spec_mono; [apply harmless_cooldown|]. intros ? run e [-> Hs].
  assert (Hheld : forall a b run s, spec handoff_step (held a b) run s anything)
    by (intros; unfold held, setCapacityRecovery; repeat hstep; done).
  hstep; [by hstep|]. do 2 hstep. assert (Hs' := Hs). destruct Hs' as (Hn & Hm & Hu & Hw & Hb & Hh & Hc). rewrite Hc.
  destruct (condition (Status id) lifecycleReportedCondition) as [report|] eqn:Hrep; [|by hstep].
  destruct (String.eqb (c_Status report) ConditionTrue) eqn:Ht; [|by hstep]. cbn [negb].
  destruct (String.eqb (c_Reason report) "Superseded") eqn:Hsup; [apply Hheld|].
  assert (Hr : reported (Status id) = true) by (unfold reported; by rewrite Hrep, Ht, Hsup).
  assert (Hal : forall pods, existsb (writer_alive run) pods = existsb (writer_alive id) pods).
  { intros pods. unfold writer_alive, podBelongsToRun. by rewrite Hn, Hm. }
  hstep. apply spec_io. intros [pods|e0]; (eexists; split; [reflexivity|]); [|by hstep].
  rewrite Hal. destruct (existsb (writer_alive id) pods) eqn:Halive; [unfold setCapacityRecovery; repeat hstep; done|].
  fold (safe_work (Status run)). assert (safe_work (Status run) = safe_work (Status id)) as -> by (unfold safe_work; by rewrite Hw, Hb, Hh).
  destruct (safe_work (Status id)) eqn:Hsafe; [|apply Hheld]. cbn [negb]. hstep; [apply Hheld|]. cbv zeta. hstep.
  apply spec_io. intros [proof|e0]; (eexists; split; [reflexivity|]); [|unfold settlement_failed, setCapacityRecovery; repeat hstep; done].
  destruct (String.eqb (prf_FenceToken proof) "" || _ || _) eqn:Hcomp; [apply Hheld|].
  apply handoff_settled; [exact Hs|reflexivity|exact Hsafe|exact Hr| |unfold complete; by rewrite Hcomp].
  cbn [proved]. unfold capacitySettlementKey. by rewrite Hn, Hm, Hu, String.eqb_refl.
Qed.

(** What the automaton knows came from the requests before. *)
Lemma gates_read s t s' :
  accepts (step handoff_step) s t = Some s' ->
  (no_writers s' = true -> no_writers s = true \/
     exists pods, In (APods true None pods) (map view t) /\ existsb (writer_alive id) pods = false) /\
  (forall proof, proved s' = Some proof -> proved s = Some proof \/
     In (APrepare (capacitySettlementKey id) (Ok proof)) (map view t)).
Proof.
  revert s. induction t as [|ev t IH]; intros s; cbn [accepts map In]; [intros [= <-]; auto|].
  unfold step at 1. destruct (handoff_step s (view ev)) as [s1|] eqn:Hs; [|done]. intros Ha.
  destruct (IH s1 Ha) as [H1 H2].
  assert (Hstep : (no_writers s1 = true -> no_writers s = true \/ exists pods, view ev = APods true None pods /\
      existsb (writer_alive id) pods = false) /\
    (forall proof, proved s1 = Some proof -> proved s = Some proof \/ view ev = APrepare (capacitySettlementKey id) (Ok proof))).
  { unfold handoff_step in Hs. destruct (view ev); try (injection Hs as <-; auto; fail).
    - destruct live, label; injection Hs as <-; auto. cbn. split; [|auto]. intros Hw%negb_true_iff. eauto.
    - destruct answer; injection Hs as <-; auto. cbn. split; [auto|]. intros proof. destruct (String.eqb_spec key (capacitySettlementKey id)) as [->|]; [|auto].
      intros [= ->]. auto.
    - destruct (_ && _); [|done]. injection Hs as <-. auto. }
  destruct Hstep as [G1 G2]. split.
  - intros Hw. destruct (H1 Hw) as [Hw1|(pods & Hin & He)]; [|right; eauto].
    destruct (G1 Hw1) as [|(pods & Hv & He)]; [by left|right]. exists pods. eauto.
  - intros proof Hp. destruct (H2 proof Hp) as [Hp1|Hin]; [|right; auto].
    destruct (G2 proof Hp1) as [|Hv]; [by left|right]. auto.
Qed.

(** A capacity handoff is settled with the source only after the
    run's report was accepted, its workspace was proved safe, a live listing
    showed no writer of the run, and the source's own proof was complete; and it
    carries that proof's fence under the run's settlement key. *)
Theorem capacity_settlement_gated adapter item t1 ev t2 out h :
  exec (recoverCapacityExhaustion r adapter item id) (t1 ++ ev :: t2)%list out -> view ev = ASettle h ->
  reported (Status id) = true /\ safe_work (Status id) = true /\
  (exists pods, In (APods true None pods) (map view t1) /\ existsb (writer_alive id) pods = false) /\
  exists proof, In (APrepare (capacitySettlementKey id) (Ok proof)) (map view t1) /\ covers id proof h = true.
Proof.
  intros Hex Hv. set (s0 := {| no_writers := false; proved := None |}).
  change (ev :: t2) with ([ev] ++ t2)%list in Hex. rewrite app_assoc in Hex.
  destruct (spec_prefix _ _ _ _ _ (recover_gated adapter item s0) _ _ _ Hex) as [s' Ha]; [by apply Forall_true|].
  rewrite accepts_app in Ha. destruct (accepts _ s0 t1) as [s|] eqn:H1; [|done].
  destruct (gates_read _ _ _ H1) as [Gw Gp]. cbn [accepts] in Ha. unfold step in Ha. rewrite Hv in Ha. cbn [handoff_step] in Ha.
  destruct (no_writers s) eqn:Hw; [|done]. destruct (safe_work (Status id)); [|done]. destruct (reported (Status id)); [|done].
  destruct (proved s) as [proof|] eqn:Hp; [|done]. cbn [andb] in Ha. destruct (covers id proof h) eqn:Hc; [|done].
  split; [done|]. split; [done|]. split; [by destruct (Gw eq_refl) as [|?]|].
  exists proof. split; [|done]. by destruct (Gp proof eq_refl) as [|?].
Qed.
End Handoff.

(** ** Witness *)

Definition exhausted_run : CoderRun :=
  set_Status example_run (set_WorkspaceSafety (set_Conditions (set_Phase empty_status PhaseBlockedExternal)
    [{| c_Type := lifecycleReportedCondition; c_Status := ConditionTrue; c_Reason := lifecycleReportPublishedReason;
        c_Message := ""; c_ObservedGeneration := 1; c_LastTransitionTime := 0 |}])
    (Some {| ws_State := "empty"; ws_Branch := ""; ws_Head := ""; ws_RemoteHead := "" |})).

Definition recovering_adapter : Adapter :=
  {| adapter_id := "dispatch"; is_requeuer := true; is_reporter := true; is_close_reporter := false; is_recovery_preparer := true;
     is_capacity_recovery := true; is_cipark := false; is_cipark_probe := false; is_prelauncher := false;
     is_receipt_claimer := false; is_execution_observer := false; contribution := None |}.

(** The cooperative environment, whose source proves the work safe. *)
Definition proving : forall X, worldE X -> unit -> unit * X := fun X e w =>
  match e in worldE X return unit * X with
  | PrepareCapacityRecovery _ _ _ _ =>
      (w, Ok {| prf_FenceToken := "fence"; prf_WorkIdentity := "work"; prf_SafetyProof := "safe"; prf_Branch := ""; prf_PR := "" |})
  | e => cooperative exhausted_run merged [] _ e w
  end.

Definition settled_example : unit * trace worldE * (CoderRun * (ctrl_result * error)) :=
  run proving (recoverCapacityExhaustion (CO := keyed_conditions) (CD := plain_codec) example_reconciler recovering_adapter
    example_work exhausted_run) tt.

Lemma capacity_settlement_gated_witness :
  exists h, reported (CO := keyed_conditions) (Status exhausted_run) = true /\ safe_work (Status exhausted_run) = true /\
  (exists pods, In (APods true None pods) (map view (take 11 settled_example.1.2)) /\ existsb (writer_alive exhausted_run) pods = false) /\
  exists proof, In (APrepare (capacitySettlementKey exhausted_run) (Ok proof)) (map view (take 11 settled_example.1.2)) /\
                covers exhausted_run proof h = true.
Proof.
  destruct (settled_example.1.2 !! 11%nat) as [ev|] eqn:Hi; [|vm_compute in Hi; discriminate Hi].
  assert (Hw : (fun ev => match view ev with ASettle _ => true | _ => false end) <$> settled_example.1.2 !! 11%nat = Some true)
    by (vm_compute; reflexivity).
  rewrite Hi in Hw. injection Hw as Hw. destruct (view ev) eqn:Hv; try discriminate Hw. exists h.
  apply (capacity_settlement_gated (CO := keyed_conditions) (CD := plain_codec) example_reconciler exhausted_run recovering_adapter
    example_work (take 11 settled_example.1.2) ev (drop 12 settled_example.1.2) settled_example.2 h); [|exact Hv].
  rewrite (take_drop_middle _ _ _ Hi).
  exact (run_exec proving (recoverCapacityExhaustion (CO := keyed_conditions) (CD := plain_codec) example_reconciler recovering_adapter
    example_work exhausted_run) tt).
Defined.
