(* ===== verification/Discovery.v ===== *)
(** * Source discovery (internal/source/runner.go)

    One poll of a source: the pause gates of its lane, the discovery call, the
    materialization of the offered work items as CoderRuns, and the drain of
    the hand-out acknowledgements.

    The runner's own state is its pause flags and the re-offer log's memory;
    each poll returns the runner it leaves.  The API server, the source adapter
    and the clock answer arbitrarily.  The acknowledgement goroutines are
    scheduled by the environment: at every point it picks which of the at most
    four running ones makes its next attempt, or starts the next one. *)

From Stdlib Require Import Sorted.
From S2P Require Import Prelude Effects GoStrings GoTime Sha256 Run Kube Lane.
Local Open Scope string_scope.
Local Open Scope Z_scope.

Definition maxHandoutAckAttempts : nat := 3.
Definition handoutAckConcurrency : nat := 4.
Definition handoutAckRetryDelay : Duration := 100 * 1000000.
Definition handoutAckAttemptTimeout : Duration := 3 * Second.
Definition handoutAckDrainTimeout : Duration := 15 * Second.

#[export] Instance Assignment_eq_dec : EqDecision Assignment.
Proof. solve_decision. Defined.
#[export] Instance WorkItem_eq_dec : EqDecision WorkItem.
Proof. solve_decision. Defined.

(** ** Data *)

Record RunnerConfig := {
  cfg_Source : string;
  cfg_SourceAgent : string;
  cfg_LaneProfile : string;
  cfg_Namespace : string;
  cfg_PollInterval : Duration
}.

(** The optional discovery interface an adapter implements, in the order the
    runner looks for them. *)
Inductive discoverer := CapacityBoundedDiscoverer | CapacityAwareDiscoverer | DiscoveryExcluder | PlainDiscoverer.

Record SourceAdapter := {
  discovery : discoverer;
  is_acker : bool;
  WorkIdentity : option (string -> string)
}.

Record dedupeOwner := { own_run : string; own_phase : string; own_pr : string }.

#[export] Instance dedupeOwner_eq_dec : EqDecision dedupeOwner.
Proof. solve_decision. Defined.

Record Runner := {
  Config : RunnerConfig;
  source_adapter : SourceAdapter;
  ackRetryDelay : Duration;
  ackAttemptTimeout : Duration;
  ackDrainTimeout : Duration;
  laneWaiting : bool;
  laneSuspended : bool;
  laneAtCapacity : bool;
  laneCooling : bool;
  dedupeLogged : gmap string dedupeOwner
}.

Record RunSpec := {
  rsp_Context : string; rsp_Mode : string; rsp_Source : string; rsp_WorkItemID : string; rsp_Repo : string;
  rsp_Ref : Z; rsp_Lane : string; rsp_Debug : bool; rsp_Assignment : Assignment
}.

(** ** Requests *)

Inductive metric :=
| SetPaused (reason : string) | ClearPaused
| IncAttempts | SetLastAttempt (unix : Z) | IncFailures | IncSuccesses | SetLastSuccess (unix : Z)
| AddOffered (n : Z) | IncSkipped (reason : string) | IncMaterialized.

Inductive log_line :=
| Line (msg : string)
| Reoffered (verbosity : Z) (itemID : string) (owner : dedupeOwner) (operatorAction : bool).

Inductive discover_call :=
| DiscoverBoundedTo (n : Z)
| DiscoverForCapacity (capacityID : string) (exclusions : list WorkItem)
| DiscoverExcluding (exclusions : list WorkItem)
| Discover.

Inductive runnerE : Type -> Type :=
| RNow : runnerE Time
| CtxErr : runnerE bool                                  (* ctx.Err() != nil *)
| DrainCtxErr (budget : Duration) : runnerE bool         (* the drain context, under its budget *)
| GetLane (ns name : string) : runnerE (result api_error LaneProfile)
| ListLanes (ns : string) : runnerE (result api_error (list LaneProfile))
| ListCoderRuns (ns : string) : runnerE (result api_error (list CoderRun))
| DiscoverE (c : discover_call) : runnerE (result string (list WorkItem))
| CreateCoderRun (run : CoderRun) : runnerE (result api_error unit)
| AckHandout (timeout : Duration) (item : WorkItem) : runnerE (result string unit)
| Backoff (delay : Duration) : runnerE bool              (* whether the drain context ended first *)
| Schedule : runnerE nat
| Metric (m : metric) : runnerE unit
| Log (l : log_line) : runnerE unit.

Inductive poll_error :=
| ErrRunnerSourceRequired | ErrNamespaceRequired | ErrLaneProfileRequired
| ErrApi (what : string) (e : api_error)
| ErrDiscover (msg : string)
| ErrCtx
| ErrNoLane (itemID : string)
| ErrCreate (itemID : string) (e : api_error).

(** ** Identities and settled history *)

(** Discovery and reconciliation read [apimeta.FindStatusCondition] alike. *)
Section Discovery.
Context {CO : ConditionOps}.

Definition identity (r : Runner) (workItemID : string) : string :=
  match WorkIdentity (source_adapter r) with
  | Some f => if negb (String.eqb (f workItemID) "") then f workItemID else workItemID
  | None => workItemID
  end.

Definition TerminalDiagnosticCategoryModelTransportError : string := "model-transport-error".
Definition TerminalDiagnosticCategoryCapacityExhaustion : string := "capacity-exhaustion".
Definition TerminalDiagnosticCategoryProviderUnavailable : string := "provider-unavailable".
Definition TerminalDiagnosticCategoryForgeUnavailable : string := "forge-unavailable".

Definition settledCapacityExhaustion (run : CoderRun) : bool :=
  if negb (String.eqb (Phase (Status run)) PhaseBlockedExternal) then false else
  match st_TerminalDiagnostic (Status run) with
  | None => false
  | Some d =>
      if negb (String.eqb (td_Category d) TerminalDiagnosticCategoryCapacityExhaustion) &&
         negb (String.eqb (td_Category d) TerminalDiagnosticCategoryProviderUnavailable) &&
         negb (String.eqb (td_Category d) TerminalDiagnosticCategoryForgeUnavailable) &&
         negb (String.eqb (td_Category d) TerminalDiagnosticCategoryModelTransportError) then false else
      match FindStatusCondition (Conditions (Status run)) ConditionCapacityRecovery,
            FindStatusCondition (Conditions (Status run)) ConditionLifecycleReported with
      | Some recovery, Some reported =>
          String.eqb (c_Status recovery) ConditionTrue && String.eqb (c_Reason recovery) "Settled" &&
          String.eqb (c_Status reported) ConditionTrue
      | _, _ => false
      end
  end.

Definition settledRetryRequeue (run : CoderRun) : bool :=
  match st_RetryRequest (Status run) with
  | None => false
  | Some rec => String.eqb (rr_State rec) RetryRequestStateRequeued && negb (String.eqb (rr_AttemptID rec) "")
  end.

Definition phaseUnsettled (phase : string) : bool :=
  String.eqb phase "" || String.eqb phase PhasePending || String.eqb phase PhaseClaimed ||
  String.eqb phase PhaseRunning || String.eqb phase PhaseVerifying.

Definition PhaseReservesDiscovery (phase : string) : bool :=
  String.eqb phase "" || String.eqb phase PhasePending || String.eqb phase PhaseClaimed || String.eqb phase PhaseRunning.

Definition laneCapacityReservations (runs : list CoderRun) (lane : string) : Z :=
  Z.of_nat (length (List.filter (fun run => String.eqb (sp_Lane (Spec run)) lane &&
                                            PhaseReservesDiscovery (Phase (Status run))) runs)).

(** Newest creation wins and the greater name breaks ties. *)
Definition newer_run (run prev : CoderRun) : bool :=
  After (CreationTimestamp run) (CreationTimestamp prev) ||
  ((CreationTimestamp run =? CreationTimestamp prev) && string_gtb (run_Name run) (run_Name prev)).

Definition retainOwner (owners : gmap string CoderRun) (key : string) (run : CoderRun) : gmap string CoderRun :=
  match owners !! key with
  | None => <[key := run]> owners
  | Some prev => if newer_run run prev then <[key := run]> owners else owners
  end.

Definition dedupeOwnerOf (run : CoderRun) : dedupeOwner :=
  {| own_run := run_Name run; own_phase := Phase (Status run); own_pr := PR (Status run) |}.

(** Whether a retained run's settled history makes it the predecessor of [id]. *)
Definition precedes (r : Runner) (id : string) (run : CoderRun) : bool :=
  String.eqb (sp_Source (Spec run)) (cfg_Source (Config r)) && negb (String.eqb (UID run) "") &&
  (if settledCapacityExhaustion run then String.eqb (identity r (sp_WorkItemID (Spec run))) id
   else settledRetryRequeue run &&
        match st_RetryRequest (Status run) with
        | Some rec => String.eqb (identity r (rr_AttemptID rec)) id
        | None => false
        end).

Definition settledPredecessor (r : Runner) (runs : list CoderRun) (id : string) : option CoderRun :=
  foldl (fun predecessor run =>
    if negb (precedes r id run) then predecessor else
    match predecessor with
    | None => Some run
    | Some p => if newer_run run p then Some run else predecessor
    end) None runs.

(** ** Exclusions *)

Record rankedExclusion := { rk_item : WorkItem; rk_unsettled : bool; rk_created : Time; rk_name : string }.

Definition no_assignment : Assignment := {| as_Kind := ""; as_Reasons := [] |}.

Definition is_dispatch (source : string) : bool := String.eqb source "dispatch" || HasPrefix source "dispatch:".

Definition has_item_id (run : CoderRun) : bool := negb (String.eqb (TrimSpace (sp_WorkItemID (Spec run))) "").

(** The retained runs whose work the source is told not to offer. *)
Definition excludes (r : Runner) (run : CoderRun) : bool :=
  has_item_id run && negb (settledCapacityExhaustion run) &&
  (String.eqb (sp_Source (Spec run)) (cfg_Source (Config r)) ||
   (String.eqb (cfg_Source (Config r)) "dispatch" && is_dispatch (sp_Source (Spec run)))).

Definition rank (run : CoderRun) : rankedExclusion :=
  {| rk_item := {| wi_Context := ""; wi_ID := sp_WorkItemID (Spec run); wi_Mode := sp_Mode (Spec run);
                   wi_Repo := sp_Repo (Spec run); wi_Ref := sp_Ref (Spec run); wi_Lane := ""; wi_Debug := false;
                   wi_Assignment := no_assignment |};
     rk_unsettled := phaseUnsettled (Phase (Status run)); rk_created := CreationTimestamp run;
     rk_name := run_Name run |}.

(** The [less] function of the sort: [i] goes before [j]. *)
Definition ranks_before (i j : rankedExclusion) : bool :=
  if negb (Bool.eqb (rk_unsettled i) (rk_unsettled j)) then rk_unsettled i else
  if negb (rk_created i =? rk_created j) then After (rk_created i) (rk_created j) else
  string_gtb (rk_name j) (rk_name i).

Fixpoint insert_ranked (x : rankedExclusion) (l : list rankedExclusion) : list rankedExclusion :=
  match l with
  | [] => [x]
  | y :: rest => if ranks_before y x then y :: insert_ranked x rest else x :: y :: rest
  end.

Definition sort_ranked (l : list rankedExclusion) : list rankedExclusion := foldr insert_ranked [] l.

Definition exclusions_of (r : Runner) (runs : list CoderRun) : list WorkItem :=
  rk_item <$> sort_ranked (rank <$> List.filter (excludes r) runs).

(** ** The offered items *)

(** The reason an offered item is malformed, if it is. *)
Definition skip_reason (item : WorkItem) : option string :=
  if String.eqb (TrimSpace (wi_ID item)) "" then Some "missing-id" else
  if negb (String.eqb (wi_Mode item) Mode_ResolveIssue) && negb (String.eqb (wi_Mode item) Mode_FixPR) &&
     negb (String.eqb (wi_Mode item) Mode_Rebase) then Some "unsupported-mode" else
  if String.eqb (TrimSpace (wi_Repo item)) "" || (wi_Ref item <? 1) then Some "invalid-ref" else
  None.

Fixpoint valid_items (items : list WorkItem) : prog runnerE (list WorkItem) :=
  match items with
  | [] => Ret []
  | item :: rest =>
      match skip_reason item with
      | Some reason =>
          _ ← call (Log (Line "skipping malformed source work item"));
          _ ← call (Metric (IncSkipped reason));
          valid_items rest
      | None => more ← valid_items rest; Ret (item :: more)
      end
  end.

(** The retained owner of each dedupe key, and the legacy dispatch identities. *)
Definition retain_existing (r : Runner) (runs : list CoderRun) : gmap string CoderRun :=
  foldl (fun owners run =>
    if has_item_id run && String.eqb (sp_Source (Spec run)) (cfg_Source (Config r)) && negb (settledCapacityExhaustion run)
    then retainOwner (retainOwner owners (workKey (sp_Source (Spec run)) (identity r (sp_WorkItemID (Spec run)))) run)
           (workKey (sp_Source (Spec run)) (sp_WorkItemID (Spec run))) run
    else owners) ∅ runs.

Definition retain_legacy (r : Runner) (runs : list CoderRun) : gmap string CoderRun :=
  foldl (fun owners run =>
    if has_item_id run && is_dispatch (sp_Source (Spec run)) && negb (settledCapacityExhaustion run)
    then retainOwner owners (identity r (sp_WorkItemID (Spec run))) run else owners) ∅ runs.

Definition item_Spec (w : WorkItem) (sourceName : string) : RunSpec :=
  {| rsp_Context := wi_Context w; rsp_Mode := wi_Mode w; rsp_Source := sourceName; rsp_WorkItemID := wi_ID w;
     rsp_Repo := wi_Repo w; rsp_Ref := wi_Ref w; rsp_Lane := wi_Lane w; rsp_Debug := wi_Debug w;
     rsp_Assignment := wi_Assignment w |}.

(** The lane a materialized item runs on. *)
Definition lane_for (r : Runner) (spec : RunSpec) : string :=
  if negb (String.eqb (TrimSpace (cfg_LaneProfile (Config r))) "") then cfg_LaneProfile (Config r) else rsp_Lane spec.

Definition run_name_for (r : Runner) (runs : list CoderRun) (id : string) : string :=
  match settledPredecessor r runs id with
  | Some predecessor => SuccessorRunName (cfg_Source (Config r)) id (UID predecessor)
  | None => RunName (cfg_Source (Config r)) id
  end.

Definition materialized (r : Runner) (runs : list CoderRun) (item : WorkItem) : CoderRun :=
  let spec := item_Spec item (cfg_Source (Config r)) in
  new_run (cfg_Namespace (Config r)) (run_name_for r runs (identity r (wi_ID item)))
    {| sp_Mode := rsp_Mode spec; sp_Source := rsp_Source spec; sp_SourceAgent := cfg_SourceAgent (Config r);
       sp_SourceContext := rsp_Context spec; sp_WorkItemID := rsp_WorkItemID spec;
       sp_AssignmentKind := as_Kind (rsp_Assignment spec); sp_AssignmentReasons := as_Reasons (rsp_Assignment spec);
       sp_Repo := rsp_Repo spec; sp_WorkRepo := ""; sp_Ref := rsp_Ref spec; sp_Lane := lane_for r spec;
       sp_Debug := rsp_Debug spec |}.

(** ** The materialization loop *)

Record pass := {
  existing : gmap string CoderRun;
  seen : gset string;
  dedupeSeen : gmap string dedupeOwner;
  pendingAcks : list WorkItem
}.

Definition observeDedupe (r : Runner) (key itemID : string) (owner : dedupeOwner) (dedupe : gmap string dedupeOwner) :
    prog runnerE (gmap string dedupeOwner) :=
  if bool_decide (dedupe !! key = Some owner) then Ret dedupe else
  if bool_decide (dedupeLogged r !! key = Some owner) then Ret (<[key := owner]> dedupe) else
  let unsettled := phaseUnsettled (own_phase owner) in
  _ ← call (Log (Reoffered (if unsettled then 1 else 0) itemID owner (negb unsettled)));
  Ret (<[key := owner]> dedupe).

Definition add_ack (st : pass) (item : WorkItem) : pass :=
  {| existing := existing st; seen := seen st; dedupeSeen := dedupeSeen st;
     pendingAcks := (pendingAcks st ++ [item])%list |}.

Definition set_dedupe (st : pass) (d : gmap string dedupeOwner) : pass :=
  {| existing := existing st; seen := seen st; dedupeSeen := d; pendingAcks := pendingAcks st |}.

Definition mark_seen (st : pass) (key : string) : pass :=
  {| existing := existing st; seen := {[ key ]} ∪ seen st; dedupeSeen := dedupeSeen st;
     pendingAcks := pendingAcks st |}.

Definition own (st : pass) (key : string) (run : CoderRun) : pass :=
  {| existing := <[key := run]> (existing st); seen := seen st; dedupeSeen := dedupeSeen st;
     pendingAcks := pendingAcks st |}.

Definition owner_in (st : pass) (legacy : gmap string CoderRun) (key id : string) : option CoderRun :=
  match existing st !! key with Some run => Some run | None => legacy !! id end.

Fixpoint materialize (r : Runner) (runs : list CoderRun) (legacy : gmap string CoderRun) (items : list WorkItem)
    (st : pass) : prog runnerE (pass * result poll_error unit) :=
  match items with
  | [] => Ret (st, Ok tt)
  | item :: rest =>
      cancelled ← call CtxErr;
      if cancelled : bool then Ret (st, Err ErrCtx) else
      if String.eqb (TrimSpace (wi_ID item)) "" then materialize r runs legacy rest st else
      let id := identity r (wi_ID item) in
      let key := workKey (cfg_Source (Config r)) id in
      match owner_in st legacy key id with
      | Some ownerRun =>
          let st := add_ack st item in
          _ ← call (Metric (IncSkipped "duplicate"));
          d ← observeDedupe r key (wi_ID item) (dedupeOwnerOf ownerRun) (dedupeSeen st);
          materialize r runs legacy rest (set_dedupe st d)
      | None =>
          if bool_decide (key ∈ seen st) then materialize r runs legacy rest st else
          let st := mark_seen st key in
          if String.eqb (TrimSpace (lane_for r (item_Spec item (cfg_Source (Config r))))) ""
          then Ret (st, Err (ErrNoLane (wi_ID item))) else
          let run := materialized r runs item in
          created ← call (CreateCoderRun run);
          match created with
          | Err e =>
              if negb (IsAlreadyExists e) then Ret (st, Err (ErrCreate (wi_ID item) e))
              else materialize r runs legacy rest (own (add_ack st item) key run)
          | Ok _ =>
              _ ← call (Metric IncMaterialized);
              materialize r runs legacy rest (own (add_ack st item) key run)
          end
      end
  end.

(** ** Acknowledgements *)

Definition ackAttemptBudget (r : Runner) : Duration :=
  if 0 <? ackAttemptTimeout r then ackAttemptTimeout r else handoutAckAttemptTimeout.

Definition ackDrainBudget (r : Runner) : Duration :=
  if 0 <? ackDrainTimeout r then ackDrainTimeout r else handoutAckDrainTimeout.

(** A running goroutine of [ackHandout]: its item and the attempts it made. *)
Record worker := { w_item : WorkItem; w_attempt : nat }.

(** The wait before a repeated attempt: whether the context ended first. *)
Definition ack_wait (r : Runner) (attempt : nat) : prog runnerE bool :=
  if (attempt =? 0)%nat then Ret false else
  ended ← call (DrainCtxErr (ackDrainBudget r));
  if ended : bool then Ret true else
  if 0 <? ackRetryDelay r then call (Backoff (ackRetryDelay r)) else Ret false.

(** After the wait: give up, or make the attempt. *)
Definition ack_once (r : Runner) (w : worker) (ended : bool) : prog runnerE (option worker) :=
  if ended then
    _ ← call (Log (Line "pr-fix hand-out acknowledgement abandoned")); Ret None
  else
    res ← call (AckHandout (ackAttemptBudget r) (w_item w));
    match res with
    | Ok _ => Ret None
    | Err _ =>
        if (S (w_attempt w) =? maxHandoutAckAttempts)%nat then
          _ ← call (Log (Line "pr-fix hand-out acknowledgement failed")); Ret None
        else Ret (Some {| w_item := w_item w; w_attempt := S (w_attempt w) |})
    end.

(** One iteration of [ackHandout]'s loop; [None] when the goroutine is done. *)
Definition ackHandout (r : Runner) (w : worker) : prog runnerE (option worker) :=
  ended ← ack_wait r (w_attempt w);
  ack_once r w ended.

Definition put_back (workers : list worker) (i : nat) (next : option worker) : list worker :=
  match next with Some w => <[i := w]> workers | None => delete i workers end.

(** One scheduling decision: a free slot may start the next item, or a running
    goroutine makes its next attempt. *)
Definition drain_step (r : Runner) (workers : list worker) (pending : list WorkItem) :
    prog runnerE (list worker * list WorkItem) :=
  pick ← call Schedule;
  let run_one :=
    let i := (pick mod length workers)%nat in
    match workers !! i with
    | Some w => next ← ackHandout r w; Ret (put_back workers i next, pending)
    | None => Ret (workers, pending)
    end in
  match pending with
  | item :: rest =>
      if (length workers <? handoutAckConcurrency)%nat && ((pick =? 0)%nat || (length workers =? 0)%nat)
      then Ret ((workers ++ [{| w_item := item; w_attempt := 0 |}])%list, rest)
      else run_one
  | [] => run_one
  end.

(** [false]: out of fuel. *)
Fixpoint drain_loop (fuel : nat) (r : Runner) (workers : list worker) (pending : list WorkItem) : prog runnerE bool :=
  match workers, pending with
  | [], [] => Ret true
  | _, _ =>
      match fuel with
      | O => Ret false
      | S fuel =>
          ' (workers, pending) ← drain_step r workers pending;
          drain_loop fuel r workers pending
      end
  end.

(** Every goroutine starts once and makes at most three attempts. *)
Definition drain_fuel (pending : list WorkItem) : nat := S maxHandoutAckAttempts * length pending.

Definition drainHandoutAcks (r : Runner) (pending : list WorkItem) : prog runnerE bool :=
  match pending with
  | [] => Ret true
  | _ =>
      if negb (is_acker (source_adapter r)) then Ret true else
      cancelled ← call CtxErr;
      if cancelled : bool then Ret true else drain_loop (drain_fuel pending) r [] pending
  end.

(** ** The poll *)

Definition validate (r : Runner) : result poll_error unit :=
  if String.eqb (TrimSpace (cfg_Source (Config r))) "" then Err ErrRunnerSourceRequired else
  if String.eqb (TrimSpace (cfg_Namespace (Config r))) "" then Err ErrNamespaceRequired else
  if String.eqb (TrimSpace (cfg_LaneProfile (Config r))) "" then Err ErrLaneProfileRequired else
  Ok tt.

Definition with_flags (r : Runner) (waiting suspended atCapacity cooling : bool) : Runner :=
  {| Config := Config r; source_adapter := source_adapter r; ackRetryDelay := ackRetryDelay r;
     ackAttemptTimeout := ackAttemptTimeout r; ackDrainTimeout := ackDrainTimeout r; laneWaiting := waiting;
     laneSuspended := suspended; laneAtCapacity := atCapacity; laneCooling := cooling; dedupeLogged := dedupeLogged r |}.

Definition set_waiting (r : Runner) (b : bool) : Runner :=
  with_flags r b (laneSuspended r) (laneAtCapacity r) (laneCooling r).
Definition set_suspended (r : Runner) (b : bool) : Runner :=
  with_flags r (laneWaiting r) b (laneAtCapacity r) (laneCooling r).
Definition set_cooling (r : Runner) (b : bool) : Runner :=
  with_flags r (laneWaiting r) (laneSuspended r) (laneAtCapacity r) b.
Definition set_at_capacity (r : Runner) (b : bool) : Runner :=
  with_flags r (laneWaiting r) (laneSuspended r) b (laneCooling r).

Definition set_logged (r : Runner) (d : gmap string dedupeOwner) : Runner :=
  {| Config := Config r; source_adapter := source_adapter r; ackRetryDelay := ackRetryDelay r;
     ackAttemptTimeout := ackAttemptTimeout r; ackDrainTimeout := ackDrainTimeout r; laneWaiting := laneWaiting r;
     laneSuspended := laneSuspended r; laneAtCapacity := laneAtCapacity r; laneCooling := laneCooling r;
     dedupeLogged := d |}.

Definition polled : Type := Runner * result poll_error unit.

(** A pause: the log line on the flag's edge, then the gauge. *)
Definition pause (r : Runner) (flag : bool) (set : Runner -> bool -> Runner) (msg reason : string) : prog runnerE polled :=
  if flag then _ ← call (Metric (SetPaused reason)); Ret (r, Ok tt)
  else _ ← call (Log (Line msg)); _ ← call (Metric (SetPaused reason)); Ret (set r true, Ok tt).

(** Leaving a pause: the log line on the flag's edge. *)
Definition resume (r : Runner) (flag : bool) (set : Runner -> bool -> Runner) (msg : string) : prog runnerE Runner :=
  if flag then _ ← call (Log (Line msg)); Ret (set r false) else Ret r.

Definition lane_capacity (lane : LaneProfile) : Z :=
  if Concurrency (lp_Spec lane) <=? 0 then 1 else Concurrency (lp_Spec lane).

Definition Unix (t : Time) : Z := t / Second.

Definition discover_request (r : Runner) (lane : LaneProfile) (runs : list CoderRun) (capacity reserved : Z) : discover_call :=
  match discovery (source_adapter r) with
  | CapacityBoundedDiscoverer => DiscoverBoundedTo (capacity - reserved)
  | CapacityAwareDiscoverer => DiscoverForCapacity (CapacityIdentity lane) (exclusions_of r runs)
  | DiscoveryExcluder => DiscoverExcluding (exclusions_of r runs)
  | PlainDiscoverer => Discover
  end.

(** From the discovery call on. *)
Definition poll_discover (r : Runner) (lane : LaneProfile) (runs : list CoderRun) (capacity reserved : Z) :
    prog runnerE polled :=
  _ ← call (Metric IncAttempts);
  now ← call RNow;
  _ ← call (Metric (SetLastAttempt (Unix now)));
  items ← call (DiscoverE (discover_request r lane runs capacity reserved));
  match items with
  | Err msg => _ ← call (Metric IncFailures); Ret (r, Err (ErrDiscover msg))
  | Ok items =>
      _ ← call (Metric IncSuccesses);
      now ← call RNow;
      _ ← call (Metric (SetLastSuccess (Unix now)));
      _ ← call (Metric (AddOffered (Z.of_nat (length items))));
      cancelled ← call CtxErr;
      if cancelled : bool then Ret (r, Err ErrCtx) else
      items ← valid_items items;
      ' (st, res) ← materialize r runs (retain_legacy r runs) items
        {| existing := retain_existing r runs; seen := ∅; dedupeSeen := ∅; pendingAcks := [] |};
      _ ← drainHandoutAcks r (pendingAcks st);
      Ret (set_logged r (dedupeSeen st), res)
  end.

(** From the cooldown gate on. *)
Definition poll_capacity (r : Runner) (lane : LaneProfile) : prog runnerE polled :=
  let ns := cfg_Namespace (Config r) in
  lanes ← call (ListLanes ns);
  match lanes with
  | Err e => Ret (r, Err (ErrApi "list LaneProfiles" e))
  | Ok lanes =>
      now ← call RNow;
      match CapacityCooldownActive lane lanes now with
      | Some _ => pause r (laneCooling r) set_cooling "capacity cooldown active, pausing source discovery" "capacity-cooldown"
      | None =>
          r ← resume r (laneCooling r) set_cooling "capacity cooldown expired, resuming source discovery";
          runs ← call (ListCoderRuns ns);
          match runs with
          | Err e => Ret (r, Err (ErrApi "list CoderRuns" e))
          | Ok runs =>
              let capacity := lane_capacity lane in
              let reserved := laneCapacityReservations runs (cfg_LaneProfile (Config r)) in
              if capacity <=? reserved then
                pause r (laneAtCapacity r) set_at_capacity "lane at capacity, pausing source discovery" "lane-at-capacity"
              else
                r ← resume r (laneAtCapacity r) set_at_capacity "lane capacity available, resuming source discovery";
                _ ← call (Metric ClearPaused);
                poll_discover r lane runs capacity reserved
          end
      end
  end.

Definition Poll (r : Runner) : prog runnerE polled :=
  match validate r with
  | Err e => Ret (r, Err e)
  | Ok _ =>
      lane ← call (GetLane (cfg_Namespace (Config r)) (cfg_LaneProfile (Config r)));
      match lane with
      | Err e =>
          if IsNotFound e
          then pause r (laneWaiting r) set_waiting "waiting for LaneProfile before source discovery" "lane-waiting"
          else Ret (r, Err (ErrApi "get LaneProfile" e))
      | Ok lane =>
          r ← resume r (laneWaiting r) set_waiting "LaneProfile available, resuming source discovery";
          if Suspended lane
          then pause r (laneSuspended r) set_suspended "lane suspended, pausing source discovery" "lane-suspended"
          else
            r ← resume r (laneSuspended r) set_suspended "lane resumed, resuming source discovery";
            poll_capacity r lane
      end
  end.

(** ** What a poll does *)

Definition create_of (ev : event runnerE) : option CoderRun :=
  match ev_op ev with CreateCoderRun run => Some run | _ => None end.

(** A create whose answer leaves the object in place: accepted, or already there. *)
Definition confirmed_of (ev : event runnerE) : option CoderRun :=
  match ev with
  | Ev op ans =>
      match op in runnerE X return X -> option CoderRun with
      | CreateCoderRun run => fun a => match a with Ok _ => Some run | Err e => if IsAlreadyExists e then Some run else None end
      | _ => fun _ => None
      end ans
  end.

Definition ack_of (ev : event runnerE) : option WorkItem :=
  match ev_op ev with AckHandout _ item => Some item | _ => None end.

Definition discover_of (ev : event runnerE) : option discover_call :=
  match ev_op ev with DiscoverE c => Some c | _ => None end.

Definition creates (t : trace runnerE) : list CoderRun := omap create_of t.
Definition confirms (t : trace runnerE) : list CoderRun := omap confirmed_of t.
Definition acks (t : trace runnerE) : list WorkItem := omap ack_of t.
Definition discovers (t : trace runnerE) : list discover_call := omap discover_of t.

(** No create, no acknowledgement and no discovery. *)
Definition quiet (t : trace runnerE) : Prop := creates t = [] /\ confirms t = [] /\ acks t = [] /\ discovers t = [].

Lemma quiet_app t1 t2 : quiet t1 -> quiet t2 -> quiet (t1 ++ t2)%list.
Proof.
  unfold quiet, creates, confirms, acks, discovers. intros (H1 & H2 & H3 & H4) (G1 & G2 & G3 & G4).
  rewrite !omap_app, H1, H2, H3, H4, G1, G2, G3, G4. done.
Qed.

#[local] Hint Resolve quiet_app : courier.
#[local] Hint Extern 1 (quiet [_]) => by repeat split : courier.

Lemma quiet_prefix t1 t2 :
  quiet t1 -> creates (t1 ++ t2)%list = creates t2 /\ confirms (t1 ++ t2)%list = confirms t2 /\
  acks (t1 ++ t2)%list = acks t2 /\ discovers (t1 ++ t2)%list = discovers t2.
Proof.
  unfold quiet, creates, confirms, acks, discovers. intros (H1 & H2 & H3 & H4).
  by rewrite !omap_app, H1, H2, H3, H4.
Qed.

(** *** Ownership *)

Lemma workKey_inj s a b : workKey s a = workKey s b -> a = b.
Proof. unfold workKey. intros H. by apply sapp_inj_l, sapp_inj_l in H. Qed.

(** The run is retained under its source's dedupe key for [id]. *)
Definition existing_owner (r : Runner) (id : string) (run : CoderRun) : Prop :=
  has_item_id run = true /\ sp_Source (Spec run) = cfg_Source (Config r) /\ settledCapacityExhaustion run = false /\
  (identity r (sp_WorkItemID (Spec run)) = id \/ sp_WorkItemID (Spec run) = id).

(** The run is a dispatch run of the identity. *)
Definition legacy_owner (r : Runner) (id : string) (run : CoderRun) : Prop :=
  has_item_id run = true /\ is_dispatch (sp_Source (Spec run)) = true /\ settledCapacityExhaustion run = false /\
  identity r (sp_WorkItemID (Spec run)) = id.

Definition owned (r : Runner) (runs : list CoderRun) (id : string) : Prop :=
  exists run, run ∈ runs /\ (existing_owner r id run \/ legacy_owner r id run).

Lemma retainOwner_some owners key run k :
  is_Some (retainOwner owners key run !! k) <-> k = key \/ is_Some (owners !! k).
Proof.
  unfold retainOwner. destruct (owners !! key) as [prev|] eqn:Hp; [destruct (newer_run run prev)|].
  - rewrite lookup_insert. case_decide; subst; [rewrite Hp|]; intuition eauto; congruence.
  - split; [auto|]. intros [->|?]; [by rewrite Hp|done].
  - rewrite lookup_insert. case_decide; subst; [rewrite Hp|]; intuition eauto; congruence.
Qed.

Lemma fold_owners_some (P : CoderRun -> bool) (add : gmap string CoderRun -> CoderRun -> gmap string CoderRun)
    (K : CoderRun -> string -> Prop) runs m k :
  (forall m run, is_Some (add m run !! k) <-> K run k \/ is_Some (m !! k)) ->
  is_Some (foldl (fun m run => if P run then add m run else m) m runs !! k) <->
  is_Some (m !! k) \/ exists run, run ∈ runs /\ P run = true /\ K run k.
Proof.
  intros Hadd. revert m. induction runs as [|run runs IH]; intros m; cbn.
  - split; [auto|]. intros [?|(run & Hin & _)]; [done|]. by apply not_elem_of_nil in Hin.
  - rewrite IH. destruct (P run) eqn:HP; [rewrite Hadd|]; split.
    + intros [[HK|Hm]|(x & Hx & ?)]; [right; exists run; by split; [left|]|by left|right; exists x; by split; [right|]].
    + intros [Hm|(x & Hx & Hp & HK)]; [by auto|]. apply elem_of_cons in Hx as [->|Hx]; eauto 6.
    + intros [Hm|(x & Hx & ?)]; [by left|right; exists x; by split; [right|]].
    + intros [Hm|(x & Hx & Hp & HK)]; [by auto|]. apply elem_of_cons in Hx as [->|Hx]; [congruence|eauto].
Qed.

Lemma retain_existing_some r runs id :
  is_Some (retain_existing r runs !! workKey (cfg_Source (Config r)) id) <->
  exists run, run ∈ runs /\ existing_owner r id run.
Proof.
  unfold retain_existing.
  rewrite (fold_owners_some _ _ (fun run k => k = workKey (sp_Source (Spec run)) (identity r (sp_WorkItemID (Spec run))) \/
    k = workKey (sp_Source (Spec run)) (sp_WorkItemID (Spec run)))).
  - rewrite lookup_empty, is_Some_alt. split.
    + intros [[]|(run & Hin & HP & HK)]. exists run. split; [done|].
      apply andb_true_iff in HP as [[H1 H2%String.eqb_eq]%andb_true_iff H3%negb_true_iff].
      rewrite H2 in HK. split_and!; [done|done|done|]. by destruct HK as [H%workKey_inj|H%workKey_inj]; auto.
    + intros (run & Hin & H1 & H2 & H3 & H4). right. exists run. split; [done|]. rewrite H1, H2, H3, String.eqb_refl.
      split; [done|]. by destruct H4 as [<- | <-]; auto.
  - intros m run. rewrite !retainOwner_some. naive_solver.
Qed.

Lemma retain_legacy_some r runs id :
  is_Some (retain_legacy r runs !! id) <-> exists run, run ∈ runs /\ legacy_owner r id run.
Proof.
  unfold retain_legacy. rewrite (fold_owners_some _ _ (fun run k => k = identity r (sp_WorkItemID (Spec run)))).
  - rewrite lookup_empty, is_Some_alt. split.
    + intros [[]|(run & Hin & HP & ->)]. exists run. split; [done|].
      apply andb_true_iff in HP as [[H1 H2]%andb_true_iff H3%negb_true_iff]. done.
    + intros (run & Hin & H1 & H2 & H3 & <-). right. exists run. split; [done|]. by rewrite H1, H2, H3.
  - intros m run. apply retainOwner_some.
Qed.

(** The identity a run was materialized for. *)
Definition run_id (r : Runner) (run : CoderRun) : string := identity r (sp_WorkItemID (Spec run)).

(** The pass owns exactly the retained identities and those it has made. *)
Definition owns (r : Runner) (runs : list CoderRun) (st : pass) (made : list string) : Prop :=
  forall id, is_Some (owner_in st (retain_legacy r runs) (workKey (cfg_Source (Config r)) id) id) <->
             owned r runs id \/ id ∈ made.

Lemma owns_start r runs :
  owns r runs {| existing := retain_existing r runs; seen := ∅; dedupeSeen := ∅; pendingAcks := [] |} [].
Proof.
  intros id. unfold owner_in. cbn [existing].
  pose proof (retain_existing_some r runs id) as He. pose proof (retain_legacy_some r runs id) as Hl. unfold owned.
  destruct (retain_existing r runs !! _) as [o|].
  - split; [|by eauto]. intros _. destruct (proj1 He ltac:(by eauto)) as (run & ? & ?). left. eauto.
  - split.
    + intros (run & ? & ?)%Hl. left. eauto.
    + intros [(run & Hin & [Ho|Ho])|[]%not_elem_of_nil]; [|apply Hl; eauto].
      destruct (proj2 He ltac:(by eauto)) as [? ?]. done.
Qed.

Lemma owns_step r runs st made st' id run :
  owns r runs st made -> existing st' = <[workKey (cfg_Source (Config r)) id := run]> (existing st) ->
  owns r runs st' (id :: made).
Proof.
  intros Ho He id'. rewrite elem_of_cons. specialize (Ho id'). unfold owner_in in *. rewrite He.
  destruct (decide (id' = id)) as [->|Hne]; [rewrite lookup_insert_eq; naive_solver|].
  rewrite lookup_insert_ne; [rewrite Ho; naive_solver|]. intros H%workKey_inj. done.
Qed.

(** *** The materialization loop *)

Lemma observe_dedupe_quiet r key itemID owner d :
  wp (observeDedupe r key itemID owner d) (fun t _ => quiet t).
Proof.
  unfold observeDedupe. case_bool_decide; [by repeat split|]. case_bool_decide; [by repeat split|].
  wp_cbn. intros []. by repeat split.
Qed.

(** Each create is of a work item no retained run and no earlier create of the
    pass owns, and no identity is created twice; a pass that ends without an
    error leaves every item owned; what it queues to acknowledge is owned. *)
Record pass_spec (r : Runner) (runs : list CoderRun) (made : list string) (items : list WorkItem) (acks0 : list WorkItem)
    (t : trace runnerE) (out : pass * result poll_error unit) : Prop := {
  ps_created : Forall (fun run => exists item, item ∈ items /\ run = materialized r runs item /\
                 ~ owned r runs (identity r (wi_ID item)) /\ identity r (wi_ID item) ∉ made) (creates t);
  ps_once : NoDup (run_id r <$> creates t);
  ps_complete : out.2 = Ok tt -> forall item, item ∈ items -> TrimSpace (wi_ID item) <> "" ->
                  owned r runs (identity r (wi_ID item)) \/ identity r (wi_ID item) ∈ made \/
                  identity r (wi_ID item) ∈ run_id r <$> confirms t;
  ps_acks : exists queued, pendingAcks out.1 = (acks0 ++ queued)%list /\ sublist queued items /\
              (forall item, item ∈ queued -> owned r runs (identity r (wi_ID item)) \/ identity r (wi_ID item) ∈ made \/
                 identity r (wi_ID item) ∈ run_id r <$> confirms t);
  ps_quiet : acks t = [] /\ discovers t = []
}.

Lemma pass_spec_quiet r runs made items a t0 t out :
  quiet t0 -> pass_spec r runs made items a t out -> pass_spec r runs made items a (t0 ++ t)%list out.
Proof.
  intros Hq [H1 H2 H3 H4 H5]. destruct (quiet_prefix t0 t Hq) as (E1 & E2 & E3 & E4).
  constructor; rewrite ?E1, ?E2, ?E3, ?E4; assumption.
Qed.

Lemma pass_spec_stop r runs made items a t st res :
  quiet t -> pendingAcks st = a -> (res = Ok tt -> items = []) -> pass_spec r runs made items a t (st, res).
Proof.
  intros (H1 & H2 & H3 & H4) Ha Hres. constructor; rewrite ?H1, ?H2, ?H3, ?H4.
  - by apply Forall_nil.
  - by apply NoDup_nil.
  - cbn. intros Hr item Hin. rewrite (Hres Hr) in Hin. by apply not_elem_of_nil in Hin.
  - exists []. cbn. rewrite Ha, app_nil_r. split_and!; [done|apply sublist_nil_l|set_solver].
  - done.
Qed.

(** A step that owns its item, by a retained run, and queues it or not. *)
Lemma pass_spec_skip r runs made item items a a' t out :
  (a' = a \/ a' = (a ++ [item])%list /\
     (owned r runs (identity r (wi_ID item)) \/ identity r (wi_ID item) ∈ made)) ->
  (TrimSpace (wi_ID item) = "" \/ owned r runs (identity r (wi_ID item)) \/ identity r (wi_ID item) ∈ made) ->
  pass_spec r runs made items a' t out -> pass_spec r runs made (item :: items) a t out.
Proof.
  intros Ha Hown [H1 H2 H3 (queued & Hq & Hsub & Hqo) H5]. constructor; [| done| | |done].
  - eapply Forall_impl; [exact H1|]. intros run (i & Hi & ?). exists i. split; [by right|done].
  - intros Hr i [->|Hi]%elem_of_cons Hne; [|by apply H3]. destruct Hown as [?|[?|?]]; [done|by left|by right; left].
  - destruct Ha as [->|[-> Ho]].
    + exists queued. split_and!; [done|by apply sublist_cons|done].
    + exists (item :: queued). rewrite Hq, <- app_assoc. split_and!; [done|by apply sublist_skip|].
      intros i [->|Hi]%elem_of_cons; [destruct Ho; auto|by apply Hqo].
Qed.

(** A step that creates its item's run. *)
Lemma pass_spec_create r runs made item items a ev t t0 out :
  let id := identity r (wi_ID item) in
  ~ owned r runs id -> id ∉ made -> create_of ev = Some (materialized r runs item) ->
  confirmed_of ev = Some (materialized r runs item) -> ack_of ev = None -> discover_of ev = None -> quiet t0 ->
  pass_spec r runs (id :: made) items (a ++ [item])%list t out ->
  pass_spec r runs made (item :: items) a (ev :: t0 ++ t)%list out.
Proof.
  intros id Hno Hmade Hc Hk Ha Hd Hq0 [H1 H2 H3 (queued & Hq & Hsub & Hqo) [H5 H6]].
  destruct (quiet_prefix t0 t Hq0) as (E1 & E2 & E3 & E4).
  assert (Ec : creates (ev :: t0 ++ t)%list = materialized r runs item :: creates t)
    by (unfold creates in *; cbn; by rewrite Hc, E1).
  assert (Ek : confirms (ev :: t0 ++ t)%list = materialized r runs item :: confirms t)
    by (unfold confirms in *; cbn; by rewrite Hk, E2).
  assert (Hid : run_id r (materialized r runs item) = id) by done.
  constructor; rewrite ?Ec, ?Ek.
  - constructor; [exists item; split; [left|done]|]. eapply Forall_impl; [exact H1|].
    intros run (i & Hi & -> & Hn & Hm). exists i. split_and!; [by right|done|done|set_solver].
  - rewrite fmap_cons, Hid. constructor; [|done]. intros Hin. apply list_elem_of_fmap in Hin as (run & Hr & Hin).
    rewrite Forall_forall in H1. destruct (H1 run Hin) as (i & _ & -> & _ & Hn). apply Hn. rewrite Hr. left.
  - rewrite fmap_cons, Hid. intros Hr i [->|Hi]%elem_of_cons Hne; [right; right; left|].
    destruct (H3 Hr i Hi Hne) as [?|[[->|?]%elem_of_cons|?]]; [by left|right; right; left|by right; left|right; right; by right].
  - exists (item :: queued). rewrite Hq, <- app_assoc, fmap_cons, Hid. split_and!; [done|by apply sublist_skip|].
    intros i [->|Hi]%elem_of_cons; [right; right; left|].
    destruct (Hqo i Hi) as [?|[[->|?]%elem_of_cons|?]]; [by left|right; right; left|by right; left|right; right; by right].
  - unfold acks, discovers in *. cbn. by rewrite Ha, Hd, E3, E4.
Qed.

Lemma pass_spec_failed r runs made item items a ev st e :
  let id := identity r (wi_ID item) in
  ~ owned r runs id -> id ∉ made -> create_of ev = Some (materialized r runs item) -> confirmed_of ev = None ->
  ack_of ev = None -> discover_of ev = None -> pendingAcks st = a ->
  pass_spec r runs made (item :: items) a [ev] (st, Err e).
Proof.
  intros id Hno Hmade Hc Hk Ha Hd Hp. unfold creates, confirms, acks, discovers.
  constructor; unfold creates, confirms, acks, discovers; cbn; rewrite ?Hc, ?Hk, ?Ha, ?Hd.
  - constructor; [|by apply Forall_nil]. exists item. split; [left|done].
  - apply NoDup_singleton.
  - done.
  - exists []. rewrite Hp, app_nil_r. split_and!; [done|apply sublist_nil_l|set_solver].
  - done.
Qed.

(** What the pass has marked it has made. *)
Definition seen_made (r : Runner) (st : pass) (made : list string) : Prop :=
  forall id, workKey (cfg_Source (Config r)) id ∈ seen st -> id ∈ made.

Lemma materialize_spec r runs items st made :
  owns r runs st made -> seen_made r st made ->
  wp (materialize r runs (retain_legacy r runs) items st) (pass_spec r runs made items (pendingAcks st)).
Proof.
  revert st made. induction items as [|item items IH]; intros st made Ho Hs; cbn [materialize].
  { by apply pass_spec_stop. }
  wp_cbn. intros [|]; [by apply pass_spec_stop|]. set (ev0 := Ev CtxErr false).
  assert (Hpre : forall (p : prog runnerE (pass * result poll_error unit)) t0, quiet t0 ->
    wp p (pass_spec r runs made (item :: items) (pendingAcks st)) ->
    wp p (fun t out => pass_spec r runs made (item :: items) (pendingAcks st) (t0 ++ t)%list out)).
  { intros p t0 Hq Hp. eapply wp_mono; [|exact Hp]. intros t out. by apply pass_spec_quiet. }
  apply (Hpre _ [ev0]); [by repeat split|]. clear ev0.
  destruct (String.eqb_spec (TrimSpace (wi_ID item)) "") as [Hb|Hb].
  { eapply wp_mono; [|by apply IH]. intros t out. apply pass_spec_skip; auto. }
  set (id := identity r (wi_ID item)). destruct (owner_in st (retain_legacy r runs) _ id) as [o|] eqn:Hown.
  - assert (Hid : owned r runs id \/ id ∈ made) by (apply Ho; rewrite Hown; eauto). wp_cbn. intros [].
    apply (Hpre _ [Ev (Metric (IncSkipped "duplicate")) ()]); [by repeat split|].
    apply wp_bind. eapply wp_mono; [|apply observe_dedupe_quiet]. intros t0 d Hq. apply Hpre; [done|].
    eapply wp_mono; [|apply (IH (set_dedupe (add_ack st item) d) made); [exact Ho|exact Hs]].
    intros t out. apply pass_spec_skip; [right; split; [done|exact Hid]|right; exact Hid].
  - assert (Hid : ~ (owned r runs id \/ id ∈ made)).
    { intros H%Ho. rewrite Hown in H. by destruct H. }
    assert (Hno : ~ owned r runs id) by (intros ?; apply Hid; by left).
    assert (Hnm : id ∉ made) by (intros ?; apply Hid; by right).
    rewrite bool_decide_false by (intros H%Hs; done).
    destruct (String.eqb _ ""); [by apply pass_spec_stop|]. wp_cbn. intros created.
    set (st1 := own _ _ _).
    assert (Hgo : forall t0, quiet t0 -> confirmed_of (Ev (CreateCoderRun (materialized r runs item)) created) =
        Some (materialized r runs item) ->
      wp (materialize r runs (retain_legacy r runs) items st1) (fun t out =>
        pass_spec r runs made (item :: items) (pendingAcks st)
          (Ev (CreateCoderRun (materialized r runs item)) created :: t0 ++ t)%list out)).
    { intros t0 Hq Hk. eapply wp_mono; [|apply (IH st1 (id :: made))].
      - intros t out. by apply pass_spec_create.
      - by eapply owns_step.
      - intros id' [H%elem_of_singleton|H]%elem_of_union; [apply workKey_inj in H as ->; left|right; by apply Hs]. }
    destruct created as [[]|e]; [wp_cbn; intros []; by apply (Hgo [Ev (Metric IncMaterialized) ()])|].
    destruct (IsAlreadyExists e) eqn:He; cbn [negb].
    + apply (Hgo []); [by repeat split|]. cbn. by rewrite He.
    + wp_cbn. apply pass_spec_failed; try done. cbn. by rewrite He.
Qed.

(** *** The acknowledgement drain *)

Definition occ (x : WorkItem) (l : list WorkItem) : nat := length (List.filter (fun y => bool_decide (y = x)) l).

Lemma occ_app x l1 l2 : occ x (l1 ++ l2)%list = (occ x l1 + occ x l2)%nat.
Proof. unfold occ. by rewrite List.filter_app, length_app. Qed.

Lemma occ_single x y : occ x [y] = if bool_decide (y = x) then 1%nat else 0%nat.
Proof. unfold occ. cbn. by destruct (bool_decide (y = x)). Qed.

(** No create and no discovery. *)
Definition ack_only (t : trace runnerE) : Prop := creates t = [] /\ confirms t = [] /\ discovers t = [].

Lemma ack_only_app t1 t2 : ack_only t1 -> ack_only t2 -> ack_only (t1 ++ t2)%list.
Proof.
  unfold ack_only, creates, confirms, discovers. intros (H1 & H2 & H3) (G1 & G2 & G3).
  by rewrite !omap_app, H1, H2, H3, G1, G2, G3.
Qed.

(** What one attempt of a goroutine does. *)
Definition attempt_spec (w : worker) (t : trace runnerE) (next : option worker) : Prop :=
  ack_only t /\
  ((next = None /\ (acks t = [w_item w] \/ acks t = [] /\ w_attempt w <> 0%nat)) \/
   (next = Some {| w_item := w_item w; w_attempt := S (w_attempt w) |} /\ acks t = [w_item w] /\
    (S (w_attempt w) < maxHandoutAckAttempts)%nat)).

Lemma ack_handout_spec r w : (w_attempt w < maxHandoutAckAttempts)%nat -> wp (ackHandout r w) (attempt_spec w).
Proof.
  intros Hlt. unfold ackHandout. apply wp_bind.
  assert (Hgo : forall t0, ack_only t0 -> acks t0 = [] -> forall ended, (ended = true -> w_attempt w <> 0%nat) ->
    wp (ack_once r w ended) (fun t next => attempt_spec w (t0 ++ t)%list next)).
  { intros t0 Hq Ha ended He. unfold attempt_spec, ack_once.
    assert (Hpre : forall t l, ack_only t -> acks t = l -> ack_only (t0 ++ t)%list /\ acks (t0 ++ t)%list = l).
    { intros t l Ht Hl. split; [by apply ack_only_app|]. unfold acks in *. by rewrite omap_app, Ha, Hl. }
    destruct ended; wp_cbn.
    - intros []. destruct (Hpre [Ev (Log (Line "pr-fix hand-out acknowledgement abandoned")) tt] []) as [? ?]; [done..|].
      split; [done|]. left. split; [done|]. right. split; [done|by apply He].
    - intros [[]|e]; wp_cbn.
      + destruct (Hpre [Ev (AckHandout (ackAttemptBudget r) (w_item w)) (Ok tt)] [w_item w]) as [? ?]; [done..|].
        split; [done|]. left. split; [done|by left].
      + destruct (Nat.eqb_spec (S (w_attempt w)) maxHandoutAckAttempts); wp_cbn.
        * intros []. set (t1 := [_; _]). destruct (Hpre t1 [w_item w]) as [? ?]; [done..|].
          split; [done|]. left. split; [done|by left].
        * set (t1 := [_]). destruct (Hpre t1 [w_item w]) as [? ?]; [done..|]. split; [done|]. right.
          split_and!; [done|done|lia]. }
  unfold ack_wait. destruct (Nat.eqb_spec (w_attempt w) 0); [apply (Hgo []); done|]. wp_cbn.
  intros [|]; wp_cbn; [apply (Hgo [Ev (DrainCtxErr _) true]); done|].
  destruct (0 <? ackRetryDelay r); wp_cbn; [intros ended|]; apply Hgo; done.
Qed.

(** A weight over the running goroutines and the queued items. *)
Definition weigh (f : worker -> nat) (g : WorkItem -> nat) (workers : list worker) (pending : list WorkItem) : nat :=
  sum_list_with f workers + sum_list_with g pending.

Lemma put_back_sum f workers i w next :
  workers !! i = Some w ->
  (sum_list_with f (put_back workers i next) + f w = sum_list_with f workers + match next with Some w' => f w' | None => 0 end)%nat.
Proof.
  intros Hi. rewrite <- (take_drop_middle workers i w Hi) at 2. rewrite sum_list_with_app. cbn.
  destruct next as [w'|]; cbn [put_back].
  - rewrite (insert_take_drop workers i w') by (by eapply lookup_lt_Some). rewrite sum_list_with_app. cbn. lia.
  - rewrite delete_take_drop, sum_list_with_app. lia.
Qed.

Lemma put_back_forall (P : worker -> Prop) workers i next :
  Forall P workers -> (forall w, next = Some w -> P w) -> Forall P (put_back workers i next).
Proof.
  intros HF Hn. destruct next as [w|]; cbn [put_back]; [|by apply Forall_delete]. apply Forall_insert; auto.
Qed.

Definition attempts_left (w : worker) : nat := maxHandoutAckAttempts - w_attempt w.

Definition fuel_left := weigh attempts_left (fun _ => S maxHandoutAckAttempts).
Definition most (x : WorkItem) := weigh (fun w => if bool_decide (w_item w = x) then attempts_left w else 0)%nat
                                        (fun y => if bool_decide (y = x) then maxHandoutAckAttempts else 0)%nat.
Definition least (x : WorkItem) := weigh (fun w => if bool_decide (w_item w = x) && (w_attempt w =? 0)%nat then 1 else 0)%nat
                                         (fun y => if bool_decide (y = x) then 1 else 0)%nat.

Definition started (w : worker) : Prop := (w_attempt w < maxHandoutAckAttempts)%nat.

Definition step_spec (workers : list worker) (pending : list WorkItem) (t : trace runnerE)
    (next : list worker * list WorkItem) : Prop :=
  ack_only t /\ Forall started next.1 /\ (fuel_left next.1 next.2 < fuel_left workers pending)%nat /\
  forall x, (least x workers pending <= occ x (acks t) + least x next.1 next.2)%nat /\
            (occ x (acks t) + most x next.1 next.2 <= most x workers pending)%nat.

(** One attempt keeps the accounts. *)
Lemma attempt_step workers pending i w t next :
  workers !! i = Some w -> Forall started workers -> attempt_spec w t next ->
  step_spec workers pending (Ev Schedule 0%nat :: t)%list (put_back workers i next, pending).
Proof.
  intros Hi HF (Hq & Hcase). assert (Hw : started w) by by eapply Forall_lookup_1. unfold started in Hw.
  assert (Hacks : acks (Ev Schedule 0%nat :: t)%list = acks t) by done. split; [exact Hq|]. rewrite Hacks. cbn [fst snd].
  split; [|split].
  - apply put_back_forall; [done|]. intros w' ->. by destruct Hcase as [[? _]|([= ->] & _ & ?)].
  - unfold fuel_left, weigh. pose proof (put_back_sum attempts_left workers i w next Hi) as Hs. unfold attempts_left in *.
    destruct Hcase as [[-> _]|(-> & _ & ?)]; cbn in Hs |- *; unfold maxHandoutAckAttempts in *; lia.
  - intros x. unfold least, most, weigh.
    pose proof (put_back_sum (fun w => if bool_decide (w_item w = x) && (w_attempt w =? 0)%nat then 1 else 0)%nat workers i w next Hi) as Hl.
    pose proof (put_back_sum (fun w => if bool_decide (w_item w = x) then attempts_left w else 0)%nat workers i w next Hi) as Hm.
    unfold attempts_left in *.
    destruct Hcase as [[-> [Ha|[Ha Hz]]]|(-> & Ha & Hlt)]; rewrite Ha; rewrite ?occ_single; cbn in Hl, Hm;
      (destruct (bool_decide (w_item w = x)); cbn in *; [|lia]); unfold occ; cbn;
      unfold maxHandoutAckAttempts in *; destruct (Nat.eqb_spec (w_attempt w) 0); lia.
Qed.

Lemma drain_step_spec r workers pending :
  Forall started workers -> workers <> [] \/ pending <> [] ->
  wp (drain_step r workers pending) (step_spec workers pending).
Proof.
  intros HF Hne. unfold drain_step. wp_cbn. intros pick.
  assert (Hpick : forall t next, step_spec workers pending (Ev Schedule 0%nat :: t)%list next ->
    step_spec workers pending (Ev Schedule pick :: t)%list next) by (intros t next H; exact H).
  assert (Hrun : workers <> [] -> wp (match workers !! (pick mod length workers)%nat with
      | Some w => next ← ackHandout r w; Ret (put_back workers (pick mod length workers)%nat next, pending)
      | None => Ret (workers, pending) end) (fun t next => step_spec workers pending (Ev Schedule pick :: t)%list next)).
  { intros Hw. assert (Hlt : (pick mod length workers < length workers)%nat).
    { apply Nat.mod_upper_bound. by destruct workers. }
    destruct (lookup_lt_is_Some_2 workers _ Hlt) as [w Hi]. rewrite Hi. apply wp_bind.
    eapply wp_mono; [|apply ack_handout_spec; exact (Forall_lookup_1 _ _ _ _ HF Hi)].
    intros t next Ha. cbn [wp]. rewrite app_nil_r. apply Hpick. by eapply attempt_step. }
  destruct pending as [|item rest]; [apply Hrun; by destruct Hne|].
  destruct (_ && _) eqn:Hgo.
  - wp_cbn. split; [done|]. cbn [fst snd]. split; [|split].
    + apply Forall_app. split; [done|]. apply Forall_singleton. unfold started, maxHandoutAckAttempts. cbn. lia.
    + unfold fuel_left, weigh. rewrite sum_list_with_app. cbn. lia.
    + intros x. unfold least, most, weigh. rewrite !sum_list_with_app. unfold acks, attempts_left. cbn.
      destruct (bool_decide (item = x)); cbn; lia.
  - apply Hrun. intros ->. cbn in Hgo. by rewrite orb_true_r in Hgo.
Qed.

Lemma drain_loop_spec fuel r workers pending :
  Forall started workers -> (fuel_left workers pending <= fuel)%nat ->
  wp (drain_loop fuel r workers pending) (fun t ok => ok = true /\ ack_only t /\
    forall x, (least x workers pending <= occ x (acks t) <= most x workers pending)%nat).
Proof.
  revert workers pending. induction fuel as [|fuel IH]; intros workers pending HF Hfuel.
  - assert (workers = [] /\ pending = []) as [-> ->].
    { unfold fuel_left, weigh, attempts_left in Hfuel. destruct workers as [|w ws], pending as [|y p]; cbn in Hfuel; try done; try lia.
      - apply Forall_cons in HF as [Hw _]. unfold started, maxHandoutAckAttempts in *. lia. }
    cbn. split_and!; [done|done|]. intros x. unfold occ. cbn. lia.
  - destruct (decide (workers = [] /\ pending = [])) as [[-> ->]|Hne].
    { cbn. split_and!; [done|done|]. intros x. unfold occ. cbn. lia. }
    assert (Hcode : drain_loop (S fuel) r workers pending =
      ('(ws, p) ← drain_step r workers pending; drain_loop fuel r ws p)) by (destruct workers, pending; [tauto|done..]).
    rewrite Hcode. apply wp_bind. eapply wp_mono; [|apply drain_step_spec; [done|]].
    + intros t [ws p] (Hq & HF' & Hf & Hacc). cbn [fst snd] in *. eapply wp_mono; [|apply IH; [done|lia]].
      intros t' ok (-> & Hq' & Hacc'). split_and!; [done|by apply ack_only_app|]. intros x.
      unfold acks in *. rewrite omap_app, occ_app. destruct (Hacc x), (Hacc' x). lia.
    + destruct workers; [right|by left]. intros ->. tauto.
Qed.

Lemma weigh_pending x pending :
  least x [] pending = occ x pending /\ most x [] pending = (maxHandoutAckAttempts * occ x pending)%nat /\
  fuel_left [] pending = drain_fuel pending.
Proof.
  unfold least, most, fuel_left, weigh, drain_fuel, occ. cbn [sum_list_with].
  induction pending as [|y p (IH1 & IH2 & IH3)]; [done|]. cbn. destruct (bool_decide (y = x)); cbn in *; lia.
Qed.

(** *** The exclusion order *)

(** [i] does not rank after [j]. *)
Definition ranks_le (i j : rankedExclusion) : Prop := ranks_before j i = false.

Lemma ranks_le_trans i j k : ranks_le i j -> ranks_le j k -> ranks_le i k.
Proof.
  unfold ranks_le, ranks_before, After.
  destruct (rk_unsettled i), (rk_unsettled j), (rk_unsettled k); cbn; try done.
  all: destruct (Z.eqb_spec (rk_created k) (rk_created i)), (Z.eqb_spec (rk_created j) (rk_created i)),
    (Z.eqb_spec (rk_created k) (rk_created j)); cbn; rewrite ?Z.ltb_ge; try lia.
  all: intros; eapply string_gtb_trans; eassumption.
Qed.

Lemma ranks_before_le i j : ranks_before i j = true -> ranks_le i j.
Proof.
  unfold ranks_le, ranks_before, After. destruct (rk_unsettled i), (rk_unsettled j); cbn; try done.
  all: rewrite (Z.eqb_sym (rk_created j)); destruct (Z.eqb_spec (rk_created i) (rk_created j)); cbn;
    [apply string_gtb_asym|rewrite Z.ltb_lt, Z.ltb_ge; lia].
Qed.

Lemma insert_ranked_perm x l : insert_ranked x l ≡ₚ x :: l.
Proof.
  induction l as [|y l IH]; cbn; [done|]. destruct (ranks_before y x); [|done]. rewrite IH. apply Permutation_swap.
Qed.

Lemma insert_ranked_sorted x l : StronglySorted ranks_le l -> StronglySorted ranks_le (insert_ranked x l).
Proof.
  induction 1 as [|y l Hs IH HF]; cbn; [repeat constructor|]. destruct (ranks_before y x) eqn:Hb.
  - constructor; [done|]. rewrite insert_ranked_perm. constructor; [by apply ranks_before_le|done].
  - constructor; [by constructor|]. constructor; [done|]. eapply Forall_impl; [exact HF|]. intros z Hz.
    eapply ranks_le_trans; [exact Hb|exact Hz].
Qed.

Lemma sort_ranked_spec l : sort_ranked l ≡ₚ l /\ StronglySorted ranks_le (sort_ranked l).
Proof.
  induction l as [|x l [IH1 IH2]]; cbn; [split; [done|constructor]|]. split.
  - by rewrite insert_ranked_perm, IH1.
  - by apply insert_ranked_sorted.
Qed.

(** *** The whole poll *)

Definition well_formed (item : WorkItem) : bool := match skip_reason item with None => true | Some _ => false end.

Lemma valid_items_spec items : wp (valid_items items) (fun t l => quiet t /\ l = List.filter well_formed items).
Proof.
  induction items as [|item items IH]; cbn [valid_items]; [done|]. cbn [List.filter]. unfold well_formed at 1.
  destruct (skip_reason item) as [reason|].
  - wp_cbn. intros []. wp_cbn. intros []. eapply wp_mono; [|exact IH]. intros t l [Hq ->]. split; [|done].
    by apply (quiet_app [Ev (Log (Line "skipping malformed source work item")) (); Ev (Metric (IncSkipped reason)) ()] t).
  - apply wp_bind. eapply wp_mono; [|exact IH]. intros t l [Hq ->]. wp_cbn. rewrite app_nil_r. done.
Qed.

(** Every queued hand-out is attempted, at most three times, or none is: there
    is none, the adapter takes no acknowledgements, or the poll was cancelled. *)
Definition drained (r : Runner) (pending : list WorkItem) (t : trace runnerE) : Prop :=
  (acks t = [] /\ (pending = [] \/ is_acker (source_adapter r) = false \/ Ev CtxErr true ∈ t)) \/
  forall x, (occ x pending <= occ x (acks t) <= maxHandoutAckAttempts * occ x pending)%nat.

Lemma drain_spec r pending :
  wp (drainHandoutAcks r pending) (fun t ok => ok = true /\ ack_only t /\ drained r pending t).
Proof.
  unfold drainHandoutAcks, drained. destruct pending as [|y p]; [wp_cbn; split_and!; [done|done|left; auto]|].
  destruct (is_acker (source_adapter r)) eqn:Ha; cbn [negb]; [|wp_cbn; split_and!; [done|done|left; auto]].
  wp_cbn. intros [|]; [wp_cbn; split_and!; [done|done|left]; split; [done|right; right; left]|].
  eapply wp_mono; [|apply drain_loop_spec; [by apply Forall_nil|by rewrite (proj2 (proj2 (weigh_pending y (y :: p))))]].
  intros t ok (-> & Hq & Hacc). split_and!; [done|exact Hq|]. right. intros x. destruct (weigh_pending x (y :: p)) as (H1 & H2 & _).
  specialize (Hacc x). rewrite H1, H2 in Hacc. exact Hacc.
Qed.

(** Nothing materialized and nothing acknowledged. *)
Definition idle (t : trace runnerE) : Prop := creates t = [] /\ confirms t = [] /\ acks t = [].

Definition discovery_spec (r : Runner) (lane : LaneProfile) (runs : list CoderRun) (t : trace runnerE) (res : result poll_error unit) : Prop :=
  let c := discover_request r lane runs (lane_capacity lane) (laneCapacityReservations runs (cfg_LaneProfile (Config r))) in
  discovers t = [c] /\
  ((idle t /\ is_ok res = false) \/
   exists items t1 t2 t3 st, t = (t1 ++ t2 ++ t3)%list /\ Ev (DiscoverE c) (Ok items) ∈ t1 /\ idle t1 /\
     pass_spec r runs [] (List.filter well_formed items) [] t2 (st, res) /\ ack_only t3 /\ drained r (pendingAcks st) t3).

(** Only the runner's binding matters to what a poll may do. *)
Definition same_binding (r r' : Runner) : Prop := Config r' = Config r /\ source_adapter r' = source_adapter r.

Lemma poll_discover_spec r lane runs :
  wp (poll_discover r lane runs (lane_capacity lane) (laneCapacityReservations runs (cfg_LaneProfile (Config r))))
    (fun t out => discovery_spec r lane runs t out.2 /\ same_binding r out.1).
Proof.
  unfold poll_discover. set (c := discover_request r lane runs _ _). wp_cbn.
  intros [] now []. intros [items|msg]; [|wp_cbn; intros []; split; [split; [done|]; by left|done]].
  wp_cbn. intros [] now' [] []. intros [|]; wp_cbn; [split; [split; [done|]; by left|done]|].
  set (pre := [Ev (Metric IncAttempts) tt; Ev RNow now; Ev (Metric (SetLastAttempt (Unix now))) tt;
    Ev (DiscoverE c) (Ok items); Ev (Metric IncSuccesses) tt; Ev RNow now'; Ev (Metric (SetLastSuccess (Unix now'))) tt;
    Ev (Metric (AddOffered (Z.of_nat (length items)))) tt; Ev CtxErr false] : trace runnerE).
  eapply (wp_mono _ (fun t out => discovery_spec r lane runs (pre ++ t)%list out.2 /\ same_binding r out.1));
    [intros t out H; exact H|].
  assert (Hpre : idle pre /\ discovers pre = [c] /\ Ev (DiscoverE c) (Ok items) ∈ pre).
  { split; [done|]. split; [done|]. by do 3 right; left. }
  clearbody pre. apply wp_bind. eapply wp_mono; [|apply valid_items_spec]. intros tv l [Hqv ->].
  apply wp_bind. eapply wp_mono; [|apply (materialize_spec r runs _ _ []); [apply owns_start|done]].
  intros t2 [st res] Hpass. apply wp_bind. eapply wp_mono; [|apply drain_spec]. intros t3 ok (_ & Hack & Hdr).
  wp_cbn. rewrite app_nil_r. destruct Hpre as ((I1 & I2 & I3) & Hd & Hin), Hqv as (Q1 & Q2 & Q3 & Q4). split; [|done]. split.
  - fold c. destruct (ps_quiet _ _ _ _ _ _ _ Hpass) as [_ P4], Hack as (_ & _ & A4). unfold discovers in *.
    by rewrite !omap_app, Hd, Q4, P4, A4.
  - right. exists items, (pre ++ tv)%list, t2, t3, st. split_and!; [by rewrite <- app_assoc|by apply elem_of_app; left| |done|done|done].
    unfold idle, creates, confirms, acks in *. rewrite !omap_app, I1, I2, I3, Q1, Q2, Q3. done.
Qed.

Lemma discovery_spec_binding r r' lane runs t res :
  same_binding r r' -> discovery_spec r' lane runs t res -> discovery_spec r lane runs t res.
Proof.
  destruct r as [cfg ad], r' as [cfg' ad']. intros [H1 H2]. cbn in H1, H2. subst cfg' ad'.
  intros [Hd [?|(items & t1 & t2 & t3 & st & Ht & Hin & Hi & [P1 P2 P3 P4 P5] & Ha & Hdr)]].
  - split; [exact Hd|by left].
  - split; [exact Hd|]. right. exists items, t1, t2, t3, st. split_and!; try assumption. constructor; assumption.
Qed.

(** The gates of a poll that reaches its source. *)
Definition gates_open (r : Runner) (lane : LaneProfile) (runs : list CoderRun) (t : trace runnerE) : Prop :=
  let ns := cfg_Namespace (Config r) in
  validate r = Ok tt /\
  Ev (GetLane ns (cfg_LaneProfile (Config r))) (Ok lane) ∈ t /\ Suspended lane  = false /\
  (exists lanes now, Ev (ListLanes ns) (Ok lanes) ∈ t /\ Ev RNow now ∈ t /\
     forall l, l ∈ lanes -> ActiveFor (lp_CapacityCooldown (lp_Status l)) (CapacityIdentity lane) now = false) /\
  Ev (ListCoderRuns ns) (Ok runs) ∈ t /\
  laneCapacityReservations runs (cfg_LaneProfile (Config r)) < lane_capacity lane.

(** A poll is paused or refused before the source is called, or it passes
    every gate, calls the source once and materializes what it offers. *)
Definition poll_spec (r : Runner) (t : trace runnerE) (out : polled) : Prop :=
  same_binding r out.1 /\
  (quiet t \/ exists lane runs pre t', t = (pre ++ t')%list /\ quiet pre /\ gates_open r lane runs pre /\
     discovery_spec r lane runs t' out.2).

Lemma pause_spec r flag set msg reason :
  (forall b, same_binding r (set r b)) ->
  wp (pause r flag set msg reason) (fun t out => quiet t /\ same_binding r out.1 /\ out.2 = Ok tt).
Proof. intros Hb. unfold pause. destruct flag; wp_cbn; [intros []|intros [] []]; split_and!; try done; apply Hb. Qed.

Lemma resume_spec r flag set msg :
  (forall b, same_binding r (set r b)) ->
  wp (resume r flag set msg) (fun t r' => quiet t /\ same_binding r r').
Proof. intros Hb. unfold resume. destruct flag; wp_cbn; [intros []|]; split; try done; apply Hb. Qed.

Lemma poll_capacity_spec r r0 lane pre :
  same_binding r r0 -> validate r = Ok tt -> Suspended lane = false -> quiet pre ->
  Ev (GetLane (cfg_Namespace (Config r)) (cfg_LaneProfile (Config r))) (Ok lane) ∈ pre ->
  wp (poll_capacity r0 lane) (fun t out => poll_spec r (pre ++ t)%list out).
Proof.
  intros Hb Hv Hsus Hpre Hin. destruct Hb as [Hb1 Hb2]. unfold poll_capacity. rewrite Hb1.
  assert (Hstop : forall t out, quiet t -> same_binding r0 out.1 -> poll_spec r (pre ++ t)%list out).
  { intros t out Hq [H1 H2]. split; [split; congruence|]. left. by apply quiet_app. }
  wp_cbn. intros [lanes|e]; [|wp_cbn; by apply Hstop]. wp_cbn. intros now.
  destruct (CapacityCooldownActive lane lanes now) as [c|] eqn:Hcool.
  { eapply wp_mono; [|by apply pause_spec]. intros t out (Hq & Hs & _).
    by apply (Hstop (Ev (ListLanes (cfg_Namespace (Config r))) (Ok lanes) :: Ev RNow now :: t)). }
  apply wp_bind. eapply wp_mono; [|by apply resume_spec]. intros ta r1 (Hqa & Hr1).
  wp_cbn. intros [runs|e].
  2: { wp_cbn. apply Hstop; [|exact Hr1]. by apply (quiet_app (_ :: _ :: ta) [_]). }
  assert (Hcfg1 : Config r1 = Config r) by (destruct Hr1; congruence). rewrite Hcfg1.
  set (mid := (Ev (ListLanes (cfg_Namespace (Config r))) (Ok lanes) :: Ev RNow now :: ta ++
    [Ev (ListCoderRuns (cfg_Namespace (Config r))) (Ok runs)])%list : trace runnerE).
  assert (Hmid : quiet mid) by by apply (quiet_app (_ :: _ :: ta) [_]).
  eapply (wp_mono _ (fun t out => poll_spec r (pre ++ mid ++ t)%list out)).
  { intros t out H. unfold mid in H. cbn in H. rewrite <- app_assoc in H. exact H. }
  destruct (Z.leb_spec (lane_capacity lane) (laneCapacityReservations runs (cfg_LaneProfile (Config r)))) as [Hfull|Hroom].
  { eapply wp_mono; [|by apply pause_spec]. intros t out (Hq & Hs & _). apply Hstop; [by apply quiet_app|].
    destruct Hr1, Hs. split; congruence. }
  apply wp_bind. eapply wp_mono; [|by apply resume_spec]. intros tb r2 (Hqb & Hr2). wp_cbn. intros [].
  assert (Hb2' : same_binding r r2) by (destruct Hr1, Hr2; split; congruence).
  assert (Hcfg2 : Config r2 = Config r) by apply Hb2'. rewrite <- Hcfg2.
  eapply wp_mono; [|apply poll_discover_spec]. intros t out [Hd Hs]. split; [destruct Hb2', Hs; split; congruence|].
  right. exists lane, runs, (pre ++ mid ++ tb ++ [Ev (Metric ClearPaused) tt])%list, t. split_and!.
  - by rewrite <- !app_assoc.
  - by eauto 6 with courier.
  - unfold gates_open, mid. split_and!; [done|set_solver|done| |set_solver|done]. exists lanes, now.
    split_and!; [set_solver|set_solver|by apply cooldown_inactive_spec].
  - eapply discovery_spec_binding; [exact Hb2'|exact Hd].
Qed.

Lemma poll_spec_ok r : wp (Poll r) (poll_spec r).
Proof.
  unfold Poll. assert (Hrefl : same_binding r r) by done.
  destruct (validate r) as [[]|e] eqn:Hv; [|split; [done|by left]].
  wp_cbn. intros [lane|e].
  2: { destruct (IsNotFound e); [|split; [done|by left]]. eapply wp_mono; [|by apply pause_spec].
       intros t out (Hq & Hs & _). split; [done|]. left. by apply (quiet_app [_] t). }
  apply wp_bind. eapply wp_mono; [|by apply resume_spec]. intros ta r1 (Hqa & Hr1).
  set (ev := Ev (GetLane _ _) (Ok lane)). destruct (Suspended lane) eqn:Hsus.
  { eapply wp_mono; [|by apply pause_spec]. intros t out (Hq & Hs & _).
    split; [destruct Hr1, Hs; split; congruence|]. left. apply (quiet_app [ev]); [done|]. by apply quiet_app. }
  apply wp_bind. eapply wp_mono; [|by apply resume_spec]. intros tb r2 (Hqb & Hr2).
  eapply (wp_mono _ (fun t out => poll_spec r ((ev :: ta ++ tb) ++ t)%list out)).
  { intros t out H. cbn in H. rewrite <- app_assoc in H. exact H. }
  apply poll_capacity_spec; [destruct Hr1, Hr2; split; congruence|done|done| |left].
  apply (quiet_app [ev]); [done|]. by apply quiet_app.
Qed.

Lemma occ_sublist x l1 l2 : sublist l1 l2 -> (occ x l1 <= occ x l2)%nat.
Proof. unfold occ. induction 1 as [|y l1 l2 _ IH|y l1 l2 _ IH]; cbn; [done|..]; destruct (bool_decide (y = x)); cbn; lia. Qed.

Lemma occ_filter x f l : (occ x (List.filter f l) <= occ x l)%nat.
Proof. unfold occ. induction l as [|y l IH]; cbn; [done|]. destruct (f y); cbn; destruct (bool_decide (y = x)); cbn; lia. Qed.

Lemma occ_pos x l : (0 < occ x l)%nat <-> x ∈ l.
Proof.
  unfold occ. induction l as [|y l IH]; cbn; [rewrite elem_of_nil; lia|]. rewrite elem_of_cons, <- IH.
  case_bool_decide; cbn; [split; [by left|lia]|]. split; [by right|by intros [->|]].
Qed.

Lemma newer_run_trans a b c : newer_run a b = false -> newer_run b c = false -> newer_run a c = false.
Proof.
  unfold newer_run, After. rewrite !orb_false_iff, !Z.ltb_ge.
  destruct (Z.eqb_spec (CreationTimestamp a) (CreationTimestamp b)), (Z.eqb_spec (CreationTimestamp b) (CreationTimestamp c)),
    (Z.eqb_spec (CreationTimestamp a) (CreationTimestamp c)); cbn; try lia; intros [? ?] [? ?]; (split; [lia|]); try done.
  by eapply string_gtb_trans.
Qed.

Lemma newer_run_asym a b : newer_run a b = true -> newer_run b a = false.
Proof.
  unfold newer_run, After. rewrite orb_true_iff, orb_false_iff, Z.ltb_lt, Z.ltb_ge, (Z.eqb_sym (CreationTimestamp b)).
  intros [H|[H1%Z.eqb_eq H2]%andb_true_iff].
  - split; [lia|]. by rewrite (proj2 (Z.eqb_neq _ _)) by lia.
  - split; [lia|]. rewrite H1, Z.eqb_refl. by apply string_gtb_asym.
Qed.

Lemma newer_run_irrefl a : newer_run a a = false.
Proof. destruct (newer_run a a) eqn:H; [|done]. by rewrite (newer_run_asym a a H) in H. Qed.

(** The best candidate seen so far. *)
Definition best (r : Runner) (id : string) (seen_runs : list CoderRun) (p : option CoderRun) : Prop :=
  match p with
  | Some p => p ∈ seen_runs /\ precedes r id p = true /\
              forall q, q ∈ seen_runs -> precedes r id q = true -> newer_run q p = false
  | None => forall q, q ∈ seen_runs -> precedes r id q = false
  end.

Lemma predecessor_fold r id l0 l p :
  best r id l0 p ->
  best r id (l0 ++ l)%list (foldl (fun predecessor run =>
    if negb (precedes r id run) then predecessor else
    match predecessor with None => Some run | Some p => if newer_run run p then Some run else predecessor end) p l).
Proof.
  revert l0 p. induction l as [|run l IH]; intros l0 p Hb; cbn; [by rewrite app_nil_r|].
  rewrite cons_middle, app_assoc. apply IH. destruct (precedes r id run) eqn:Hp; cbn [negb].
  - destruct p as [p|]; cbn in *; [destruct Hb as (Hin & Hpp & Hn); destruct (newer_run run p) eqn:Hnew|]; cbn.
    + split_and!; [set_solver|done|]. intros q [Hq|Hq%list_elem_of_singleton]%elem_of_app Hpq; [|subst; apply newer_run_irrefl].
      eapply newer_run_trans; [by apply Hn|by apply newer_run_asym].
    + split_and!; [set_solver|done|]. intros q [Hq|Hq%list_elem_of_singleton]%elem_of_app Hpq; [auto|by subst].
    + split_and!; [set_solver|done|]. intros q [Hq|Hq%list_elem_of_singleton]%elem_of_app Hpq; [|subst; apply newer_run_irrefl].
      by rewrite Hb in Hpq.
  - destruct p as [p|]; cbn in *.
    + destruct Hb as (? & ? & Hn). split_and!; [set_solver|done|].
      intros q [Hq|Hq%list_elem_of_singleton]%elem_of_app Hpq; [auto|subst; congruence].
    + intros q [Hq|Hq%list_elem_of_singleton]%elem_of_app; [auto|by subst].
Qed.

(** ** Properties *)

(** a paused lane takes no new work.  Whatever the API server and the
    source answer, a poll calls its source only after reading its lane, finding
    it neither suspended nor inside a cooldown of its own capacity identity,
    and counting fewer reserving runs than the lane's concurrency; it then
    calls it exactly once, and offers a capacity-bounded source exactly the
    free slots, at least one.  Otherwise nothing is discovered, created or
    acknowledged. *)
Theorem poll_gated r :
  wp (Poll r) (fun t _ => quiet t \/
    exists lane runs pre t', t = (pre ++ t')%list /\ quiet pre /\ gates_open r lane runs pre /\
      let free := lane_capacity lane - laneCapacityReservations runs (cfg_LaneProfile (Config r)) in
      discovers t = [discover_request r lane runs (lane_capacity lane) (lane_capacity lane - free)] /\
      1 <= free /\ (discovery (source_adapter r) = CapacityBoundedDiscoverer -> discovers t = [DiscoverBoundedTo free])).
Proof.
  eapply wp_mono; [|apply poll_spec_ok]. intros t out [_ [Hq|(lane & runs & pre & t' & -> & Hq & Hg & Hd & _)]]; [by left|].
  right. exists lane, runs, pre, t'. split_and!; [done|done|done|]. cbv zeta. destruct (quiet_prefix pre t' Hq) as (_ & _ & _ & ->).
  rewrite Hd. replace (lane_capacity lane - (lane_capacity lane - laneCapacityReservations runs (cfg_LaneProfile (Config r))))
    with (laneCapacityReservations runs (cfg_LaneProfile (Config r))) by lia.
  destruct Hg as (_ & _ & _ & _ & _ & Hlt). split_and!; [done|lia|]. intros Hk. unfold discover_request. by rewrite Hk.
Qed.

(** C31: work is materialized once.  Every run a poll creates is built from a
    well-formed offered item whose identity no retained run of the listing it
    read owns, and no two of them are of the same identity, however often the
    source offers it. *)
Theorem poll_materializes_once r :
  wp (Poll r) (fun t _ => creates t = [] \/
    exists runs items c, Ev (ListCoderRuns (cfg_Namespace (Config r))) (Ok runs) ∈ t /\ Ev (DiscoverE c) (Ok items) ∈ t /\
      NoDup (run_id r <$> creates t) /\
      Forall (fun run => exists item, item ∈ items /\ skip_reason item = None /\ run = materialized r runs item /\
                ~ owned r runs (identity r (wi_ID item))) (creates t)).
Proof.
  eapply wp_mono; [|apply poll_spec_ok].
  intros t out [_ [(Hq & _)|(lane & runs & pre & t' & -> & Hq & Hg & Hd & Hcase)]]; [by left|].
  destruct (quiet_prefix pre t' Hq) as (-> & _).
  destruct Hcase as [[(Hi & _) _]|(items & t1 & t2 & t3 & st & -> & Hin & (I1 & _) & Hp & (A1 & _) & _)]; [by left|].
  right. exists runs, items. eexists. destruct Hg as (_ & _ & _ & _ & Hl & _).
  assert (Hc : creates (t1 ++ t2 ++ t3)%list = creates t2) by (unfold creates in *; by rewrite !omap_app, I1, A1, app_nil_r).
  rewrite Hc. split_and!; [set_solver|apply elem_of_app; right; apply elem_of_app; left; exact Hin|apply Hp|]. eapply Forall_impl; [apply Hp|].
  intros run (item & Hitem & -> & Hno & _). apply list_elem_of_In, filter_In in Hitem as [Hitem Hwf]. exists item.
  split_and!; [by apply list_elem_of_In| |done|done]. unfold well_formed in Hwf. by destruct (skip_reason item).
Qed.

(** C32: no offered work is lost.  When a poll that reached its source reports
    success, every well-formed item it was offered is owned: by a run of the
    listing, or by a run whose creation the API server accepted or already
    had. *)
Theorem poll_loses_nothing r :
  wp (Poll r) (fun t out => out.2 = Ok tt -> quiet t \/
    exists runs items c, Ev (ListCoderRuns (cfg_Namespace (Config r))) (Ok runs) ∈ t /\ Ev (DiscoverE c) (Ok items) ∈ t /\
      forall item, item ∈ items -> skip_reason item = None ->
        owned r runs (identity r (wi_ID item)) \/ identity r (wi_ID item) ∈ run_id r <$> confirms t).
Proof.
  eapply wp_mono; [|apply poll_spec_ok].
  intros t out [_ [Hq|(lane & runs & pre & t' & -> & Hq & Hg & Hd & Hcase)]] Hok; [by left|].
  destruct (quiet_prefix pre t' Hq) as (_ & -> & _). right.
  destruct Hcase as [[_ Herr]|(items & t1 & t2 & t3 & st & -> & Hin & (_ & I2 & _) & Hp & (_ & A2 & _) & _)];
    [by rewrite Hok in Herr|].
  exists runs, items. eexists. destruct Hg as (_ & _ & _ & _ & Hl & _). split_and!;
    [set_solver|apply elem_of_app; right; apply elem_of_app; left; exact Hin|].
  assert (Hc : confirms (t1 ++ t2 ++ t3)%list = confirms t2) by (unfold confirms in *; by rewrite !omap_app, I2, A2, app_nil_r).
  rewrite Hc. intros item Hitem Hwf.
  assert (Hid : TrimSpace (wi_ID item) <> "") by (intros H; unfold skip_reason in Hwf; by rewrite H in Hwf).
  destruct (ps_complete _ _ _ _ _ _ _ Hp Hok item) as [?|[?|?]]; [|done|by left|by apply not_elem_of_nil in H|by right].
  apply list_elem_of_In, filter_In. split; [by apply list_elem_of_In|]. unfold well_formed. by rewrite Hwf.
Qed.

(** acknowledgements neither delay nor anticipate materialization.  Every
    acknowledgement of a poll comes after its last create; each is of an offered
    item that a retained run or an accepted create already owns, and an offered
    item is attempted at most three times. *)
Theorem poll_acks_last r :
  wp (Poll r) (fun t _ => exists t1 t2, t = (t1 ++ t2)%list /\ acks t1 = [] /\ creates t2 = [] /\
    (acks t2 = [] \/ exists runs items c,
       Ev (ListCoderRuns (cfg_Namespace (Config r))) (Ok runs) ∈ t1 /\ Ev (DiscoverE c) (Ok items) ∈ t1 /\
       forall x, (occ x (acks t2) <= maxHandoutAckAttempts * occ x items)%nat /\
         (x ∈ acks t2 -> owned r runs (identity r (wi_ID x)) \/ identity r (wi_ID x) ∈ run_id r <$> confirms t1))).
Proof.
  eapply wp_mono; [|apply poll_spec_ok].
  intros t out [_ [(Q1 & Q2 & Q3 & Q4)|(lane & runs & pre & t' & -> & (Q1 & Q2 & Q3 & Q4) & Hg & Hd & Hcase)]].
  { exists t, []. rewrite app_nil_r. split_and!; auto. }
  destruct Hcase as [[(I1 & I2 & I3) _]|(items & t1 & t2 & t3 & st & -> & Hin & (I1 & I2 & I3) & Hp & (A1 & A2 & A3) & Hdr)].
  { exists (pre ++ t')%list, []. rewrite app_nil_r. split_and!; auto. unfold acks in *. by rewrite omap_app, Q3, I3. }
  exists (pre ++ t1 ++ t2)%list, t3. destruct Hp as [_ _ _ (queued & Hq & Hsub & Hown) [P3 _]]. cbn in Hq.
  split_and!; [by rewrite <- !app_assoc| |done|].
  { unfold acks in *. by rewrite !omap_app, Q3, I3, P3. }
  destruct Hdr as [[? _]|Hocc]; [by left|]. right. exists runs, items. eexists.
  destruct Hg as (_ & _ & _ & _ & Hl & _).
  split_and!; [set_solver|apply elem_of_app; right; apply elem_of_app; left; exact Hin|]. intros x.
  rewrite Hq in Hocc. specialize (Hocc x).
  pose proof (occ_sublist x _ _ Hsub). pose proof (occ_filter x well_formed items). split; [nia|].
  intros Hx. assert (Hqx : x ∈ queued) by (apply occ_pos in Hx; apply occ_pos; nia).
  assert (Hc : confirms (pre ++ t1 ++ t2)%list = confirms t2) by (unfold confirms in *; by rewrite !omap_app, Q2, I2).
  rewrite Hc. destruct (Hown x Hqx) as [?|[H'|?]]; [by left|by apply not_elem_of_nil in H'|by right].
Qed.

(** C39: the drain of the acknowledgements ends under its fuel whatever the
    scheduler and the source do, with at most four goroutines running; unless
    the adapter takes none or the poll was cancelled, every queued hand-out is
    attempted at least once and at most three times. *)
Theorem handout_drain_bounded r pending :
  wp (drainHandoutAcks r pending) (fun t ok => ok = true /\ ack_only t /\ drained r pending t) /\
  (forall workers rest, (length workers <= handoutAckConcurrency)%nat ->
     wp (drain_step r workers rest) (fun _ next => (length next.1 <= handoutAckConcurrency)%nat)).
Proof.
  split; [apply drain_spec|]. intros workers rest Hlen. unfold drain_step. wp_cbn. intros pick.
  assert (Hrun : wp (match workers !! (pick mod length workers)%nat with
      | Some w => next ← ackHandout r w; Ret (put_back workers (pick mod length workers)%nat next, rest)
      | None => Ret (workers, rest) end)
      (fun _ next => (length next.1 <= handoutAckConcurrency)%nat)).
  { destruct (workers !! _) as [w|] eqn:Hi; [|exact Hlen]. apply wp_bind. eapply wp_mono; [|apply wp_true].
    intros t [w'|] _; cbn; [by rewrite length_insert|]. rewrite length_delete by eauto. lia. }
  destruct rest as [|item rest]; [exact Hrun|]. destruct (_ && _) eqn:Hgo; [|exact Hrun].
  wp_cbn. apply andb_true_iff in Hgo as [Hgo%Nat.ltb_lt _]. cbn [fst]. rewrite length_app. cbn. lia.
Qed.

(** The exclusion hints are ranked.  The source is told exactly the
    retained runs of its binding that still hold their work, those not yet
    settled before those that are, newer before older within each group. *)
Theorem exclusions_ranked r runs :
  exists ranked, exclusions_of r runs = rk_item <$> ranked /\
    ranked ≡ₚ rank <$> List.filter (excludes r) runs /\ StronglySorted ranks_le ranked.
Proof. unfold exclusions_of. eexists. split; [reflexivity|]. apply sort_ranked_spec. Qed.

(** A successor continues the newest settled attempt: the predecessor
    whose identity a fresh run's name carries is a retained run of the source
    whose settled history precedes the work, and none that does is newer. *)
Theorem settled_predecessor_newest r runs id : best r id runs (settledPredecessor r runs id).
Proof. apply (predecessor_fold r id [] runs None). intros q Hq. by apply not_elem_of_nil in Hq. Qed.

End Discovery.

(** ** Witnesses *)

Definition example_lane : LaneProfile :=
  {| lp_Name := "local"; lp_Annotations := ∅;
     lp_Spec := {| RuntimeImage := ""; Concurrency := 2; Roles := ∅; Transport := ""; Framing := ""; CapacityGroup := "";
                   lp_Context := None; lp_Resources := {| Requests := ∅; Limits := ∅ |}; lp_CIRepair := None; Skills := [] |};
     lp_Status := {| lp_CapacityCooldown := None |} |}.

Definition example_runner (d : discoverer) : Runner :=
  {| Config := {| cfg_Source := "dispatch"; cfg_SourceAgent := ""; cfg_LaneProfile := "local"; cfg_Namespace := "courier";
                cfg_PollInterval := 0 |};
     source_adapter := {| discovery := d; is_acker := true; WorkIdentity := None |};
     ackRetryDelay := handoutAckRetryDelay; ackAttemptTimeout := 0; ackDrainTimeout := 0; laneWaiting := true;
     laneSuspended := false; laneAtCapacity := false; laneCooling := false; dedupeLogged := ∅ |}.

Definition example_item (id mode : string) : WorkItem :=
  {| wi_Context := "{}"; wi_ID := id; wi_Mode := mode; wi_Repo := "acme/widgets"; wi_Ref := 42; wi_Lane := "";
     wi_Debug := false; wi_Assignment := no_assignment |}.

(** A source that offers one item twice and a malformed one, and whose
    acknowledgement endpoint always fails; the listing holds one running run. *)
Definition offered : list WorkItem :=
  [example_item "w-1" Mode_ResolveIssue; example_item "w-1" Mode_ResolveIssue; example_item "w-2" "unknown"].

Definition retained_run : CoderRun :=
  new_run "courier" "courier-old"
    {| sp_Mode := Mode_FixPR; sp_Source := "dispatch"; sp_SourceAgent := ""; sp_SourceContext := ""; sp_WorkItemID := "w-0";
       sp_AssignmentKind := ""; sp_AssignmentReasons := []; sp_Repo := "acme/widgets"; sp_WorkRepo := ""; sp_Ref := 7;
       sp_Lane := "local"; sp_Debug := false |}.

Definition source_env : forall X, runnerE X -> unit -> unit * X := fun X e w => (w,
  match e in runnerE X return X with
  | RNow => 60 * Second
  | CtxErr => false
  | DrainCtxErr _ => false
  | GetLane _ _ => Ok example_lane
  | ListLanes _ => Ok [example_lane]
  | ListCoderRuns _ => Ok [retained_run]
  | DiscoverE _ => Ok offered
  | CreateCoderRun _ => Ok tt
  | AckHandout _ _ => Err "unavailable"
  | Backoff _ => false
  | Schedule => 0%nat
  | Metric _ => tt
  | Log _ => tt
  end).

Definition example_poll (d : discoverer) : unit * trace runnerE * polled :=
  run source_env (Poll (CO := keyed_conditions) (example_runner d)) tt.

Lemma poll_gated_witness : discovers (example_poll CapacityBoundedDiscoverer).1.2 = [DiscoverBoundedTo 1].
Proof.
  destruct (wp_run source_env _ _ tt (poll_gated (CO := keyed_conditions) (example_runner CapacityBoundedDiscoverer)))
    as [(_ & _ & _ & H)|(lane & runs & pre & t' & _ & _ & _ & H & _)].
  - vm_compute in H. discriminate H.
  - vm_compute. reflexivity.
Defined.

Lemma poll_materializes_once_witness :
  NoDup (run_id (example_runner PlainDiscoverer) <$> creates (example_poll PlainDiscoverer).1.2) /\
  length (creates (example_poll PlainDiscoverer).1.2) = 1%nat.
Proof.
  destruct (wp_run source_env _ _ tt (poll_materializes_once (CO := keyed_conditions) (example_runner PlainDiscoverer)))
    as [H|(runs & items & c & _ & _ & H & _)].
  - vm_compute in H. discriminate H.
  - split; [exact H|vm_compute; reflexivity].
Defined.

Lemma poll_loses_nothing_witness :
  exists (runs : list CoderRun) (items : list WorkItem), forall item, item ∈ items -> skip_reason item = None ->
    owned (CO := keyed_conditions) (example_runner PlainDiscoverer) runs (identity (example_runner PlainDiscoverer) (wi_ID item)) \/
    identity (example_runner PlainDiscoverer) (wi_ID item) ∈
      run_id (example_runner PlainDiscoverer) <$> confirms (example_poll PlainDiscoverer).1.2.
Proof.
  destruct (wp_run source_env _ _ tt (poll_loses_nothing (CO := keyed_conditions) (example_runner PlainDiscoverer)))
    as [(_ & _ & _ & H)|(runs & items & c & _ & _ & H)].
  - vm_compute. reflexivity.
  - vm_compute in H. discriminate H.
  - exists runs, items. exact H.
Defined.

Lemma poll_acks_last_witness :
  length (acks (example_poll PlainDiscoverer).1.2) = 6%nat /\
  exists t1 t2, (example_poll PlainDiscoverer).1.2 = (t1 ++ t2)%list /\ acks t1 = [] /\ creates t2 = [].
Proof.
  split; [vm_compute; reflexivity|].
  destruct (wp_run source_env _ _ tt (poll_acks_last (CO := keyed_conditions) (example_runner PlainDiscoverer)))
    as (t1 & t2 & Ht & H1 & H2 & _).
  exists t1, t2. split; [exact Ht|]. split; [exact H1|exact H2].
Defined.
