(* ===== verification/Zlib.v ===== *)
(** * zlib streams (Go's [compress/zlib] and [compress/flate]), RFC 1950 and 1951

    What a [zlib.Reader] opened on a byte sequence delivers, executable.  The
    reader takes its input through [io.ByteReader], so it reads exactly the
    bytes of the stream; what it delivers before an error counts as delivered. *)

From S2P Require Import Prelude.
Local Open Scope Z_scope.

(** What a zlib stream delivers, and the bytes behind it if it ends cleanly. *)
Record zstream := { z_out : list Z; z_end : option (list Z) }.

(** ** Bits *)

(** The bits left of the current byte, and the bytes behind it. *)
Record bits := { buffered : list bool; behind : list Z }.

Definition byte_bits (b : Z) : list bool := map (fun i => Z.testbit b (Z.of_nat i)) (seq 0 8).

Definition next_bit (s : bits) : option (bool * bits) :=
  match buffered s with
  | b :: r => Some (b, {| buffered := r; behind := behind s |})
  | [] =>
      match behind s with
      | [] => None
      | c :: r =>
          match byte_bits c with
          | b :: bs => Some (b, {| buffered := bs; behind := r |})
          | [] => None
          end
      end
  end.

(** [n] bits, the first the least significant. *)
Fixpoint take_bits (n : nat) (s : bits) : option (Z * bits) :=
  match n with
  | O => Some (0, s)
  | S n =>
      '(b, s) ← next_bit s;
      '(v, s) ← take_bits n s;
      Some (2 * v + Z.b2z b, s)
  end.

Definition bits_left (s : bits) : nat := length (buffered s) + 8 * length (behind s).

(** ** Huffman codes *)

Definition count_len (lens : list nat) (l : nat) : Z :=
  Z.of_nat (length (List.filter (Nat.eqb l) lens)).

(** The symbols in the order of their codes. *)
Definition ranked (lens : list nat) : list nat :=
  flat_map (fun l => map fst (List.filter (fun p => Nat.eqb l p.2) (zip (seq 0 (length lens)) lens))) (seq 1 15).

Record huffman := { h_lens : list nat; h_ranked : list nat; h_min : nat }.

Definition max_len (lens : list nat) : nat := foldr Nat.max 0%nat lens.
Definition min_len (lens : list nat) : nat :=
  foldr (fun l m => if (l =? 0)%nat then m else if (m =? 0)%nat then l else Nat.min l m) 0%nat lens.

(** [huffmanDecoder.init]: the code must be complete, or a single code of one
    bit; no code at all is accepted and fails when used. *)
Definition huffman_init (lens : list nat) : option huffman :=
  let max := max_len lens in
  let code := fold_left (fun code l => 2 * code + count_len lens l) (seq 1 max) 0 in
  if (max =? 0)%nat || (code =? 2 ^ Z.of_nat max) || ((code =? 1) && (max =? 1)%nat)
  then Some {| h_lens := lens; h_ranked := ranked lens; h_min := min_len lens |} else None.

Fixpoint decode_loop (lens : list nat) (rank : list nat) (ls : list nat) (code first index : Z) (s : bits) :
    option (nat * bits) :=
  match ls with
  | [] => None
  | l :: ls =>
      '(b, s) ← next_bit s;
      let code := 2 * code + Z.b2z b in
      let first := 2 * first in
      let count := count_len lens l in
      if code - first <? count then sym ← rank !! Z.to_nat (index + code - first); Some (sym, s)
      else decode_loop lens rank ls code (first + count) (index + count) s
  end.

(** [huffSym]: at least the shortest code's bits must be there. *)
Definition huff_sym (h : huffman) (s : bits) : option (nat * bits) :=
  if (bits_left s <? h_min h)%nat then None
  else decode_loop (h_lens h) (h_ranked h) (seq 1 15) 0 0 0 s.

(** ** Blocks *)

(** The output so far is kept most recent first. *)
Definition histSize (out : list Z) : Z := Z.min 32768 (Z.of_nat (length out)).

Fixpoint copy_match (n : nat) (dist : nat) (out : list Z) : list Z :=
  match n with
  | O => out
  | S n => copy_match n dist (nth (dist - 1) out 0 :: out)
  end.

(** The length of a match, from its symbol. *)
Definition match_length (sym : nat) (s : bits) : option (nat * bits) :=
  if (sym <? 265)%nat then Some ((sym - 254)%nat, s) else
  if (sym <? 285)%nat then
    let n := (S ((sym - 265) / 4))%nat in
    '(extra, s) ← take_bits n s;
    Some ((3 + 2 ^ n * (4 + (sym - 265) mod 4) + Z.to_nat extra)%nat, s)
  else if (sym <? 286)%nat then Some (258%nat, s) else None.

(** Its distance; a fixed block codes it in five bits, most significant first. *)
Definition match_dist (hd : option huffman) (s : bits) : option (Z * bits) :=
  '(sym, s) ← match hd with
              | Some h => huff_sym h s
              | None =>
                  '(v, s) ← take_bits 5 s;
                  let bit i := Z.b2z (Z.testbit v i) in
                  Some (Z.to_nat (16 * bit 0 + 8 * bit 1 + 4 * bit 2 + 2 * bit 3 + bit 4), s)
              end;
  let dist := Z.of_nat sym in
  if dist <? 4 then Some (dist + 1, s) else
  if dist <? 30 then
    let nb := Z.shiftr (dist - 2) 1 in
    '(extra, s) ← take_bits (Z.to_nat nb) s;
    Some (2 ^ (nb + 1) + 1 + Z.lor (Z.shiftl (Z.land dist 1) nb) extra, s)
  else None.

(** The symbols of a block; [None] beside the output is an error.  Every symbol
    takes a bit, so the bits left are fuel enough. *)
Fixpoint huffman_block (fuel : nat) (hl : huffman) (hd : option huffman) (out : list Z) (s : bits) :
    list Z * option bits :=
  match fuel with
  | O => (out, None)
  | S fuel =>
      match huff_sym hl s with
      | None => (out, None)
      | Some (sym, s) =>
          if (sym <? 256)%nat then huffman_block fuel hl hd (Z.of_nat sym :: out) s else
          if (sym =? 256)%nat then (out, Some s) else
          match ('(len, s) ← match_length sym s; '(dist, s) ← match_dist hd s; Some (len, dist, s)) with
          | None => (out, None)
          | Some (len, dist, s) =>
              if histSize out <? dist then (out, None)
              else huffman_block fuel hl hd (copy_match len (Z.to_nat dist) out) s
          end
      end
  end.

(** A stored block starts at the next byte. *)
Fixpoint copy_stored (n : nat) (out bytes : list Z) : list Z * option bits :=
  match n with
  | O => (out, Some {| buffered := []; behind := bytes |})
  | S n =>
      match bytes with
      | [] => (out, None)
      | b :: bytes => copy_stored n (b :: out) bytes
      end
  end.

Definition stored_block (out : list Z) (s : bits) : list Z * option bits :=
  match behind s with
  | l0 :: l1 :: n0 :: n1 :: bytes =>
      let n := l0 + 256 * l1 in
      if negb (n0 + 256 * n1 =? 65535 - n) then (out, None) else copy_stored (Z.to_nat n) out bytes
  | _ => (out, None)
  end.

Definition fixed_lens : list nat :=
  replicate 144 8%nat ++ replicate 112 9%nat ++ replicate 24 7%nat ++ replicate 8 8%nat.

Definition code_order : list nat := [16; 17; 18; 0; 8; 7; 9; 6; 10; 5; 11; 4; 12; 3; 13; 2; 14; 1; 15]%nat.

Fixpoint read_lens (n : nat) (order : list nat) (acc : list nat) (s : bits) : option (list nat * bits) :=
  match n, order with
  | S n, i :: order =>
      '(v, s) ← take_bits 3 s;
      read_lens n order (<[i := Z.to_nat v]> acc) s
  | _, _ => Some (acc, s)
  end.

(** The run-length coded lengths, most recent first, until [total] of them. *)
Fixpoint code_lens (fuel : nat) (h : huffman) (total : nat) (acc : list nat) (s : bits) : option (list nat * bits) :=
  if (total <=? length acc)%nat then Some (rev acc, s) else
  match fuel with
  | O => None
  | S fuel =>
      '(sym, s) ← huff_sym h s;
      if (sym <? 16)%nat then code_lens fuel h total (sym :: acc) s else
      '(rep, nb, b) ← (if (sym =? 16)%nat then match acc with [] => None | l :: _ => Some (3, 2, l) end
                       else if (sym =? 17)%nat then Some (3, 3, 0) else Some (11, 7, 0))%nat;
      '(extra, s) ← take_bits nb s;
      let rep := (rep + Z.to_nat extra)%nat in
      if (total <? length acc + rep)%nat then None else code_lens fuel h total (replicate rep b ++ acc) s
  end.

(** [readHuffman]: the two codes of a dynamic block.  Every block ends with its
    end marker, whose length is the fewest bits to ask for. *)
Definition read_huffman (s : bits) : option (huffman * huffman * bits) :=
  '(nlit, s) ← take_bits 5 s;
  let nlit := (Z.to_nat nlit + 257)%nat in
  if (286 <? nlit)%nat then None else
  '(ndist, s) ← take_bits 5 s;
  let ndist := (Z.to_nat ndist + 1)%nat in
  if (30 <? ndist)%nat then None else
  '(nclen, s) ← take_bits 4 s;
  '(cl, s) ← read_lens (Z.to_nat nclen + 4) code_order (replicate 19 0%nat) s;
  h ← huffman_init cl;
  '(lens, s) ← code_lens (nlit + ndist) h (nlit + ndist) [] s;
  h1 ← huffman_init (take nlit lens);
  h2 ← huffman_init (drop nlit lens);
  let eob := default 0%nat (lens !! 256%nat) in
  Some ({| h_lens := h_lens h1; h_ranked := h_ranked h1; h_min := Nat.max (h_min h1) eob |}, h2, s).

Definition one_block (typ : Z) (out : list Z) (s : bits) : list Z * option bits :=
  if typ =? 0 then stored_block out s else
  if typ =? 1 then
    match huffman_init fixed_lens with
    | Some h => huffman_block (bits_left s) h None out s
    | None => (out, None)
    end else
  if typ =? 2 then
    match read_huffman s with
    | Some (hl, hd, s) => huffman_block (bits_left s) hl (Some hd) out s
    | None => (out, None)
    end
  else (out, None).

(** The blocks up to the final one; every block takes a bit. *)
Fixpoint flate_blocks (fuel : nat) (out : list Z) (s : bits) : list Z * option bits :=
  match fuel with
  | O => (out, None)
  | S fuel =>
      match ('(final, s) ← next_bit s; '(typ, s) ← take_bits 2 s; Some (final, typ, s)) with
      | None => (out, None)
      | Some (final, typ, s) =>
          let '(out, next) := one_block typ out s in
          match next with
          | None => (out, None)
          | Some s => if final : bool then (out, Some s) else flate_blocks fuel out s
          end
      end
  end.

(** ** The wrapper *)

Definition adler32 (bytes : list Z) : Z :=
  let '(a, b) := fold_left (fun '(a, b) c => let a := (a + c) mod 65521 in (a, (b + a) mod 65521)) bytes (1, 0) in
  65536 * b + a.

(** The header, and the dictionary identifier a reader without a dictionary
    accepts only if it names the empty one. *)
Definition zlib_header (bytes : list Z) : option (list Z) :=
  match bytes with
  | cmf :: flg :: rest =>
      if negb (Z.land cmf 0x0f =? 8) || (7 <? Z.shiftr cmf 4) || negb ((256 * cmf + flg) mod 31 =? 0) then None else
      if Z.land flg 0x20 =? 0 then Some rest else
      match rest with
      | d0 :: d1 :: d2 :: d3 :: rest => if word_be d0 d1 d2 d3 =? adler32 [] then Some rest else None
      | _ => None
      end
  | _ => None
  end.

Definition zlib_reader (bytes : list Z) : option zstream :=
  rest ← zlib_header bytes;
  let s := {| buffered := []; behind := rest |} in
  let '(out, ended) := flate_blocks (bits_left s) [] s in
  let out := rev out in
  Some {| z_out := out;
          z_end := match ended with
                   | Some {| behind := c0 :: c1 :: c2 :: c3 :: rest |} =>
                       if word_be c0 c1 c2 c3 =? adler32 out then Some rest else None
                   | _ => None
                   end |}.
