(* ===== verification/Pack.v ===== *)
(** * The pack scanner (internal/git/packbudget.go)

    The scan that decides, before git sees it, whether the packfile inside an
    untrusted bundle stays within the object budget.

    Bytes are integers in [0, 256).  A file is what reading it yields: its bytes
    and what reading past them reports, [io.EOF] or another error.  [inflate]
    stands for a [zlib.Reader] opened on the rest of the file (Zlib.v holds the
    decompressor): [None] when [zlib.NewReader] fails, otherwise the bytes the
    stream delivers and, when it ends cleanly, the bytes left behind it.  The
    theorems hold for every [inflate]. *)

From S2P Require Import Prelude GoStrings Zlib.
Local Open Scope string_scope.
Local Open Scope Z_scope.

Record ObjectLimits := { MaxObjects : Z; MaxTotalBytes : Z; MaxObjectBytes : Z }.

Definition LimitObjects : string := "objects".
Definition LimitBytes : string := "bytes".
Definition LimitObjectBytes : string := "object-bytes".

Inductive scan_error :=
| LimitError (limit : string)
| ScanError (msg : string).

(** [LimitError.Error] and the text of an ordinary error. *)
Definition scan_error_text (e : scan_error) : string :=
  match e with LimitError limit => "git object limit exceeded: " ++ limit | ScanError msg => msg end.

Definition packTypeCommit : Z := 1.
Definition packTypeTree : Z := 2.
Definition packTypeBlob : Z := 3.
Definition packTypeTag : Z := 4.
Definition packTypeOFSDelta : Z := 6.
Definition packTypeREFDelta : Z := 7.

Definition validObjectLimits (limits : ObjectLimits) : result scan_error unit :=
  if (MaxObjects limits <=? 0) || (MaxTotalBytes limits <=? 0) || (MaxObjectBytes limits <=? 0)
  then Err (ScanError "git object limits: every bound must be positive") else Ok tt.

(** ** The bundle header *)

(** One [file.Read]: the bytes it stored. *)
Fixpoint scan_buffer (buffer : list Z) (i : Z) (previous : Z) : Z + Z :=
  match buffer with
  | [] => inr previous
  | b :: rest => if (b =? 10) && (previous =? 10) then inl i else scan_buffer rest (i + 1) b
  end.

(** The answers of successive reads; past them a read reports [io.EOF], or the
    error [fault]. *)
Fixpoint find_loop (fault : option string) (reads : list (list Z)) (offset previous : Z) : result scan_error Z :=
  match reads with
  | [] => Err (ScanError match fault with
                         | None => "git bundle scan: malformed bundle: no packfile"
                         | Some err => "git bundle scan: " ++ err
                         end)
  | buffer :: rest =>
      match scan_buffer buffer 0 previous with
      | inl i => Ok (offset + i + 1)
      | inr previous => find_loop fault rest (offset + Z.of_nat (length buffer)) previous
      end
  end.

Definition findPackStart (fault : option string) (reads : list (list Z)) : result scan_error Z :=
  find_loop fault reads 0 0.

(** ** Readers *)

(** [io.ReadFull] of [n] bytes. *)
Definition ReadFull (n : nat) (bytes : list Z) : option (list Z * list Z) :=
  if (n <=? length bytes)%nat then Some (take n bytes, drop n bytes) else None.

Fixpoint header_loop (current size shift : Z) (bytes : list Z) : option (Z * list Z) :=
  if Z.land current 0x80 =? 0 then Some (size, bytes) else
  match bytes with
  | [] => None
  | current :: rest =>
      if 64 <=? shift then None
      else header_loop current (Z.lor size (u64 (Z.shiftl (Z.land current 0x7f) shift))) (shift + 7) rest
  end.

(** The object's type, its declared size, and the bytes after the header. *)
Definition readPackObjectHeader (bytes : list Z) : option (Z * Z * list Z) :=
  match bytes with
  | [] => None
  | current :: rest =>
      let objectType := Z.land (Z.shiftr current 4) 0x07 in
      match header_loop current (Z.land current 0x0f) 4 rest with
      | None => None
      | Some (size, rest) => Some (objectType, size, rest)
      end
  end.

Fixpoint skipPackOffset (bytes : list Z) : option (list Z) :=
  match bytes with
  | [] => None
  | current :: rest => if Z.land current 0x80 =? 0 then Some rest else skipPackOffset rest
  end.

(** A delta's varint from the stream: the value and the bytes consumed, and the
    stream left behind. *)
Fixpoint varint_loop (iterations : nat) (value shift read : Z) (stream : list Z) : option (Z * Z) * list Z :=
  match iterations with
  | O => (None, stream)
  | S n =>
      match stream with
      | [] => (None, [])
      | one :: stream =>
          let value := Z.lor value (u64 (Z.shiftl (Z.land one 0x7f) shift)) in
          if Z.land one 0x80 =? 0 then (Some (value, read), stream)
          else varint_loop n value (shift + 7) (read + 1) stream
      end
  end.

Definition readDeltaVarint (stream : list Z) : option (Z * Z) * list Z := varint_loop 10 0 0 1 stream.

(** ** Inflation *)

(** [io.Copy(io.Discard, io.LimitReader(stream, limit))]: the bytes copied and
    whether the copy reported an error. *)
Definition copy_discard (stream : list Z) (clean : bool) (limit : Z) : Z * bool :=
  let copied := Z.min limit (Z.of_nat (length stream)) in
  (copied, negb clean && (Z.of_nat (length stream) <? limit)).

(** The drain of the payload after [consumed] bytes of it. *)
Definition drain_payload (size consumed target : Z) (stream : list Z) (ended : option (list Z)) :
    Z * result scan_error (Z * list Z) :=
  if size <? consumed then (0, Err (ScanError "git bundle scan: object payload exceeds its declared size")) else
  let remaining := u64 (size - consumed) in
  let limit := wrap64 remaining in
  let limit := if limit <? int64_max then int_add limit 1 else limit in
  let '(copied, failed) := copy_discard stream (bool_decide (is_Some ended)) limit in
  let consumed := u64 (consumed + copied) in
  (copied,
   if size <? consumed then Err (ScanError "git bundle scan: object payload exceeds its declared size") else
   if consumed <? size then Err (ScanError "git bundle scan: truncated object payload") else
   match failed, ended with
   | false, Some rest => Ok (target, rest)
   | _, _ => Err (ScanError "git bundle scan: malformed object payload")
   end).

Section Scan.

Context (inflate : list Z -> option zstream).

(** The unpacked size of the object and the bytes behind it; before them, the
    number of inflated bytes the call drew from the stream. *)
Definition inflatePackObject (bytes : list Z) (size : Z) (delta : bool) : Z * result scan_error (Z * list Z) :=
  match inflate bytes with
  | None => (0, Err (ScanError "git bundle scan: malformed object payload"))
  | Some z =>
      let drawn (stream : list Z) : Z := Z.of_nat (length (z_out z)) - Z.of_nat (length stream) in
      if delta then
        let '(v, stream) := readDeltaVarint (z_out z) in
        match v with
        | None => (drawn stream, Err (ScanError "git bundle scan: malformed delta header"))
        | Some (_, first) =>
            let '(v, stream) := readDeltaVarint stream in
            match v with
            | None => (drawn stream, Err (ScanError "git bundle scan: malformed delta header"))
            | Some (second, read) =>
                let '(copied, out) := drain_payload size (u64 (0 + u64 (int_add first read))) second stream (z_end z) in
                (drawn stream + copied, out)
            end
        end
      else drain_payload size 0 0 (z_out z) (z_end z)
  end.

Definition addScanTotal (total amount limit : Z) : result scan_error Z :=
  if u64 (u64 limit - total) <? amount then Err (LimitError LimitBytes) else Ok (u64 (total + amount)).

(** What precedes an object's payload: whether it is a delta. *)
Definition skip_base (objectType : Z) (bytes : list Z) : result scan_error (bool * list Z) :=
  if (objectType =? packTypeCommit) || (objectType =? packTypeTree) || (objectType =? packTypeBlob) ||
     (objectType =? packTypeTag) then Ok (false, bytes) else
  if objectType =? packTypeOFSDelta then
    match skipPackOffset bytes with
    | None => Err (ScanError "git bundle scan: malformed delta offset")
    | Some bytes => Ok (true, bytes)
    end else
  if objectType =? packTypeREFDelta then
    match ReadFull 20 bytes with
    | None => Err (ScanError "git bundle scan: malformed delta base")
    | Some (_, bytes) => Ok (true, bytes)
    end
  else Err (ScanError "git bundle scan: unknown object type").

(** The bound on one object's unpacked size, and the running total. *)
Definition charge_unpacked (limits : ObjectLimits) (unpackedTotal size : Z) : result scan_error Z :=
  if u64 (MaxObjectBytes limits) <? size then Err (LimitError LimitObjectBytes)
  else addScanTotal unpackedTotal size (MaxTotalBytes limits).

(** The second half of an iteration: the payload is charged, then inflated. *)
Definition scan_payload (limits : ObjectLimits) (unpackedTotal payloadTotal : Z) (delta : bool) (size : Z)
    (bytes : list Z) : Z * result scan_error (Z * Z * list Z) :=
  match addScanTotal payloadTotal size (MaxTotalBytes limits) with
  | Err e => (0, Err e)
  | Ok payloadTotal =>
      let '(drawn, out) := inflatePackObject bytes size delta in
      (drawn,
       match out with
       | Err e => Err e
       | Ok (unpacked, bytes) =>
           if delta then
             match charge_unpacked limits unpackedTotal unpacked with
             | Err e => Err e
             | Ok unpackedTotal => Ok (unpackedTotal, payloadTotal, bytes)
             end
           else Ok (unpackedTotal, payloadTotal, bytes)
       end)
  end.

(** One iteration: the two totals and the bytes behind the object. *)
Definition scan_object (limits : ObjectLimits) (unpackedTotal payloadTotal : Z) (bytes : list Z) :
    Z * result scan_error (Z * Z * list Z) :=
  match readPackObjectHeader bytes with
  | None => (0, Err (ScanError "git bundle scan: malformed object header"))
  | Some (objectType, size, bytes) =>
      match skip_base objectType bytes with
      | Err e => (0, Err e)
      | Ok (delta, bytes) =>
          match if delta then Ok unpackedTotal else charge_unpacked limits unpackedTotal size with
          | Err e => (0, Err e)
          | Ok unpackedTotal => scan_payload limits unpackedTotal payloadTotal delta size bytes
          end
      end
  end.

(** The loop over the objects left; [ctxErr index] is the error of the context
    when iteration [index] starts, if it has ended by then. *)
Fixpoint scan_objects (ctxErr : Z -> option string) (limits : ObjectLimits) (todo : nat) (index : Z)
    (unpackedTotal payloadTotal : Z) (bytes : list Z) : Z * result scan_error (list Z) :=
  match todo with
  | O => (0, Ok bytes)
  | S todo =>
      match ctxErr index with
      | Some err => (0, Err (ScanError ("git bundle scan: " ++ err)))
      | None =>
          let '(drawn, out) := scan_object limits unpackedTotal payloadTotal bytes in
          match out with
          | Err e => (drawn, Err e)
          | Ok (unpackedTotal, payloadTotal, bytes) =>
              let '(more, out) := scan_objects ctxErr limits todo (index + 1) unpackedTotal payloadTotal bytes in
              (drawn + more, out)
          end
      end
  end.

(** The pack's trailer: a checksum and nothing behind it. *)
Definition scan_trailer (fault : option string) (bytes : list Z) : result scan_error unit :=
  match ReadFull 20 bytes with
  | None => Err (ScanError "git bundle scan: malformed pack trailer")
  | Some (_, _ :: _) => Err (ScanError "git bundle scan: trailing data after the pack")
  | Some (_, []) =>
      match fault with
      | None => Ok tt
      | Some _ => Err (ScanError "git bundle scan: malformed pack trailer")
      end
  end.

Definition scanPackfile (ctxErr : Z -> option string) (fault : option string) (bytes : list Z)
    (limits : ObjectLimits) : Z * result scan_error unit :=
  match bytes with
  | h0 :: h1 :: h2 :: h3 :: v0 :: v1 :: v2 :: v3 :: c0 :: c1 :: c2 :: c3 :: bytes =>
      if negb (bool_decide ([h0; h1; h2; h3] = bytes_of_string "PACK"))
      then (0, Err (ScanError "git bundle scan: malformed pack header")) else
      let version := word_be v0 v1 v2 v3 in
      if negb ((version =? 2) || (version =? 3)) then (0, Err (ScanError "git bundle scan: unsupported pack version")) else
      let count := word_be c0 c1 c2 c3 in
      if u64 (MaxObjects limits) <? count then (0, Err (LimitError LimitObjects)) else
      let '(drawn, out) := scan_objects ctxErr limits (Z.to_nat count) 0 0 0 bytes in
      (drawn, match out with Err e => Err e | Ok bytes => scan_trailer fault bytes end)
  | _ => (0, Err (ScanError "git bundle scan: malformed pack header"))
  end.

(** The file: what opening, reading and seeking it answer. *)
Record bundle_file := {
  open_error : option string;
  file_reads : list (list Z);
  read_fault : option string;
  seek_error : option string
}.

Definition contents (file : bundle_file) : list Z := concat (file_reads file).

Definition scanBundlePack (ctxErr : Z -> option string) (file : bundle_file) (limits : ObjectLimits) :
    Z * result scan_error unit :=
  match validObjectLimits limits with
  | Err e => (0, Err e)
  | Ok _ =>
      match open_error file with
      | Some err => (0, Err (ScanError ("git bundle scan: " ++ err)))
      | None =>
          match findPackStart (read_fault file) (file_reads file) with
          | Err e => (0, Err e)
          | Ok packStart =>
              match seek_error file with
              | Some err => (0, Err (ScanError ("git bundle scan: " ++ err)))
              | None =>
                  scanPackfile ctxErr (read_fault file) (drop (Z.to_nat packStart) (contents file)) limits
              end
          end
      end
  end.

End Scan.

(** ** Bounds of the decoders *)

Lemma lor_u64 a b : 0 <= a < 2 ^ 64 -> 0 <= b < 2 ^ 64 -> 0 <= Z.lor a b < 2 ^ 64.
Proof.
  intros Ha Hb. split; [apply Z.lor_nonneg; lia|].
  destruct (decide (Z.lor a b = 0)) as [->|Hne]; [lia|]. apply Z.log2_lt_pow2; [pose proof (Z.lor_nonneg a b); lia|].
  rewrite Z.log2_lor by lia. apply Z.max_lub_lt.
  - destruct (decide (a = 0)) as [->|]; [done|]. apply Z.log2_lt_pow2; lia.
  - destruct (decide (b = 0)) as [->|]; [done|]. apply Z.log2_lt_pow2; lia.
Qed.

Lemma u64_range z : 0 <= u64 z < 2 ^ 64.
Proof. apply Z.mod_pos_bound. lia. Qed.

Lemma header_loop_range current size shift bytes size' rest :
  0 <= size < 2 ^ 64 -> header_loop current size shift bytes = Some (size', rest) -> 0 <= size' < 2 ^ 64.
Proof.
  revert current size shift. induction bytes as [|b bytes IH]; intros current size shift Hs; cbn [header_loop];
    (destruct (Z.land current 128 =? 0); [by intros [= <- _]|]); [done|].
  destruct (64 <=? shift); [done|]. apply IH. apply lor_u64; [done|apply u64_range].
Qed.

Lemma header_range bytes ty size rest :
  readPackObjectHeader bytes = Some (ty, size, rest) -> 0 <= size < 2 ^ 64.
Proof.
  unfold readPackObjectHeader. destruct bytes as [|b bytes]; [done|].
  destruct (header_loop _ _ _ _) as [[s r]|] eqn:H; [|done]. intros [= _ <- _].
  eapply header_loop_range; [|exact H]. change 15 with (Z.ones 4). rewrite Z.land_ones by lia.
  pose proof (Z.mod_pos_bound b (2 ^ 4)). lia.
Qed.

(** A varint takes at most [n] bytes off the stream and says how many. *)
Lemma varint_loop_shape n value shift read stream v s :
  0 <= value < 2 ^ 64 -> varint_loop n value shift read stream = (v, s) ->
  (length s <= length stream <= length s + n)%nat /\
  forall x r, v = Some (x, r) -> 0 <= x < 2 ^ 64 /\ r = read + (Z.of_nat (length stream) - Z.of_nat (length s) - 1) /\
                                 (length s < length stream)%nat.
Proof.
  revert value shift read stream. induction n as [|n IH]; intros value shift read stream Hv; cbn [varint_loop].
  { intros [= <- <-]. split; [lia|done]. }
  destruct stream as [|one stream]; [intros [= <- <-]; split; [simpl; lia|done]|]. cbn [length].
  assert (Hr := lor_u64 _ _ Hv (u64_range (Z.shiftl (Z.land one 127) shift))).
  destruct (Z.land one 128 =? 0).
  - intros [= <- <-]. split; [lia|]. intros x r [= <- <-]. split_and!; [lia..|lia|lia].
  - intros H. destruct (IH _ _ _ _ Hr H) as [Hl Hx]. split; [lia|]. intros x r E. destruct (Hx x r E) as (? & ? & ?).
    split_and!; lia.
Qed.

Lemma read_varint_shape stream v s :
  readDeltaVarint stream = (v, s) ->
  (length s <= length stream <= length s + 10)%nat /\
  forall x r, v = Some (x, r) -> 0 <= x < 2 ^ 64 /\ r = Z.of_nat (length stream) - Z.of_nat (length s).
Proof.
  intros H. apply varint_loop_shape in H as [? Hx]; [|lia]. split; [done|].
  intros x r E. destruct (Hx x r E) as (? & ? & ?). split; [done|lia].
Qed.

(** ** The budget *)

(** Bounds a configuration can hold: positive, below the largest [int64]. *)
Definition limits_bounded (limits : ObjectLimits) : Prop :=
  0 < MaxObjects limits < int64_max /\ 0 < MaxTotalBytes limits < int64_max /\ 0 < MaxObjectBytes limits < int64_max.

Lemma add_scan_total total amount limit :
  0 <= total <= limit -> limit < int64_max -> 0 <= amount < 2 ^ 64 ->
  addScanTotal total amount limit =
  if limit <? total + amount then Err (LimitError LimitBytes) else Ok (total + amount).
Proof.
  intros Ht Hl Ha. unfold addScanTotal, int64_max in *. rewrite (u64_id limit), (u64_id (limit - total)) by lia.
  destruct (Z.ltb_spec (limit - total) amount), (Z.ltb_spec limit (total + amount)); try lia; [done|].
  by rewrite u64_id by lia.
Qed.

Lemma charge_unpacked_eq limits total size :
  limits_bounded limits -> 0 <= total <= MaxTotalBytes limits -> 0 <= size < 2 ^ 64 ->
  charge_unpacked limits total size =
  if MaxObjectBytes limits <? size then Err (LimitError LimitObjectBytes) else
  if MaxTotalBytes limits <? total + size then Err (LimitError LimitBytes) else Ok (total + size).
Proof.
  intros (_ & ? & ?) Ht Hs. unfold charge_unpacked. rewrite (u64_id (MaxObjectBytes limits)) by (unfold int64_max in *; lia).
  by rewrite add_scan_total by lia.
Qed.

(** The drain accepts exactly a clean stream of the declared length, and draws
    at most one byte more. *)
Lemma drain_payload_spec size consumed target stream ended :
  0 <= size < int64_max -> 0 <= consumed < 2 ^ 63 ->
  let '(copied, out) := drain_payload size consumed target stream ended in
  0 <= copied /\ (consumed <= size -> copied <= size - consumed + 1) /\ (size < consumed -> copied = 0) /\
  (forall t rest, out = Ok (t, rest) <->
     t = target /\ ended = Some rest /\ consumed + Z.of_nat (length stream) = size) /\
  (forall t rest, out = Ok (t, rest) -> copied = size - consumed) /\
  (forall l, out <> Err (LimitError l)).
Proof.
  intros Hs Hc. unfold drain_payload. destruct (Z.ltb_spec size consumed) as [H|H].
  { split_and!; [lia..|split; [done|intros (_ & _ & ?); lia]|done|done]. }
  unfold int64_max in *. rewrite (u64_id (size - consumed)) by lia.
  rewrite (wrap64_id (size - consumed)) by (unfold in_int64, int64_min, int64_max; lia).
  destruct (Z.ltb_spec (size - consumed) (2 ^ 63 - 1)) as [_|]; [|lia].
  unfold int_add. rewrite wrap64_id by (unfold in_int64, int64_min, int64_max; lia).
  unfold copy_discard. set (n := Z.of_nat (length stream)). assert (0 <= n) by lia. clearbody n. cbv zeta.
  rewrite (u64_id (consumed + _)) by lia.
  destruct (Z.ltb_spec size (consumed + Z.min (size - consumed + 1) n)).
  { split_and!; [lia..|split; [done|intros (_ & _ & ?); lia]|done|done]. }
  destruct (Z.ltb_spec (consumed + Z.min (size - consumed + 1) n) size).
  { split_and!; [lia..|split; [done|intros (_ & _ & ?); lia]|done|done]. }
  assert (n = size - consumed) as -> by lia. destruct (Z.ltb_spec (size - consumed) (size - consumed + 1)); [|lia].
  destruct ended as [rest|]; cbn.
  - split_and!; [lia..| |lia|done]. intros t rest'. split; [intros [= <- <-]; split_and!; [done|done|lia]|].
    by intros (-> & [= ->] & _).
  - split_and!; [lia..| |done|done]. intros t rest'. split; [done|by intros (_ & ? & _)].
Qed.

(** ** What a pack within budget is *)

Section Contract.

Context (inflate : list Z -> option zstream).

(** The size of the object a delta stream produces: its second varint. *)
Definition delta_target (out : list Z) : option Z :=
  match readDeltaVarint out with
  | (Some _, out) => match readDeltaVarint out with (Some (target, _), _) => Some target | _ => None end
  | _ => None
  end.

(** The head of an object: whether it is a delta, its declared size, and the
    payload and everything behind it. *)
Definition head_at (bytes : list Z) (delta : bool) (size : Z) (payload : list Z) : Prop :=
  exists ty bytes', readPackObjectHeader bytes = Some (ty, size, bytes') /\ skip_base ty bytes' = Ok (delta, payload).

(** The payload inflates cleanly to exactly the declared size. *)
Definition payload_at (delta : bool) (payload : list Z) (size unpacked : Z) (rest : list Z) : Prop :=
  exists out, inflate payload = Some {| z_out := out; z_end := Some rest |} /\
    Z.of_nat (length out) = size /\ (if delta then delta_target out = Some unpacked else unpacked = size).

(** The objects from a position on, as (declared, unpacked) sizes, and the bytes
    behind them. *)
Inductive walk : list Z -> list (Z * Z) -> list Z -> Prop :=
| walk_nil bytes : walk bytes [] bytes
| walk_cons bytes delta size payload unpacked next objs rest :
    head_at bytes delta size payload -> payload_at delta payload size unpacked next ->
    walk next objs rest -> walk bytes ((size, unpacked) :: objs) rest.

Definition sum (l : list Z) : Z := foldr Z.add 0 l.
Definition declared (objs : list (Z * Z)) : Z := sum objs.*1.
Definition delivered (objs : list (Z * Z)) : Z := sum objs.*2.

(** The byte bounds, for a scan that starts with the given totals. *)
Definition fits (limits : ObjectLimits) (unpackedTotal payloadTotal : Z) (objs : list (Z * Z)) : Prop :=
  Forall (fun o => o.2 <= MaxObjectBytes limits) objs /\
  unpackedTotal + delivered objs <= MaxTotalBytes limits /\ payloadTotal + declared objs <= MaxTotalBytes limits.

(** The next object exceeds the bound named [limit]. *)
Definition exceeds (limits : ObjectLimits) (unpackedTotal payloadTotal : Z) (bytes : list Z) (limit : string) : Prop :=
  exists delta size payload, head_at bytes delta size payload /\
    (limit = LimitBytes /\ MaxTotalBytes limits < payloadTotal + size \/
     exists unpacked, (if delta then exists next, payload_at true payload size unpacked next else unpacked = size) /\
       (limit = LimitObjectBytes /\ MaxObjectBytes limits < unpacked \/
        limit = LimitBytes /\ MaxTotalBytes limits < unpackedTotal + unpacked)).

(** *** One object *)

Lemma inflate_object_spec bytes size delta :
  0 <= size < int64_max ->
  let '(drawn, out) := inflatePackObject inflate bytes size delta in
  0 <= drawn <= size + 20 /\
  (forall t rest, out = Ok (t, rest) <-> exists unpacked, payload_at delta bytes size unpacked rest /\
                                                          t = if delta then unpacked else 0) /\
  (forall t rest, out = Ok (t, rest) -> drawn = size /\ 0 <= t < 2 ^ 64) /\
  (forall l, out <> Err (LimitError l)).
Proof.
  intros Hs. unfold inflatePackObject, payload_at. destruct (inflate bytes) as [[out ended]|]; cbn [z_out z_end].
  2: { split_and!; [lia..|split; [done|by intros (? & (? & ? & _) & _)]|done|done]. }
  destruct delta.
  2: { pose proof (drain_payload_spec size 0 0 out ended Hs ltac:(lia)) as Hd.
       destruct (drain_payload _ _ _ _ _) as [copied res]. destruct Hd as (? & H1 & ? & Hok & Hcp & Hno).
       split_and!; [lia|specialize (H1 ltac:(lia)); lia| |intros t rest E|done].
       - intros t rest. rewrite Hok. split.
         + intros (-> & -> & E). exists size. split_and!; [|done]. eexists. by split_and!.
         + by intros (u & (o & [= <- ->] & E & _) & ->).
       - specialize (Hcp _ _ E). apply Hok in E as (-> & _). lia. }
  unfold delta_target. destruct (readDeltaVarint out) as [v1 s1] eqn:E1. pose proof (read_varint_shape _ _ _ E1) as [L1 V1].
  destruct v1 as [[x1 r1]|].
  2: { split_and!; [lia..|split; [done|intros (? & (o & [= <- _] & _ & H) & _); by rewrite E1 in H]|done|done]. }
  destruct (V1 _ _ eq_refl) as [_ ->]. destruct (readDeltaVarint s1) as [v2 s2] eqn:E2.
  pose proof (read_varint_shape _ _ _ E2) as [L2 V2]. destruct v2 as [[x2 r2]|].
  2: { split_and!; [lia..|split; [done|intros (? & (o & [= <- _] & _ & H) & _); by rewrite E1, E2 in H]|done|done]. }
  destruct (V2 _ _ eq_refl) as [Hx ->].
  set (c := Z.of_nat (length out) - Z.of_nat (length s2)).
  replace (int_add _ _) with c by (unfold int_add; rewrite wrap64_id; [lia|unfold in_int64, int64_min, int64_max; lia]).
  rewrite Z.add_0_l, !(u64_id c) by lia.
  pose proof (drain_payload_spec size c x2 s2 ended Hs ltac:(lia)) as Hd.
  destruct (drain_payload _ _ _ _ _) as [copied res]. destruct Hd as (? & H1 & H2 & Hok & Hcp & Hno).
  split_and!; [lia| | |intros t rest E|done].
  - destruct (decide (c <= size)); [specialize (H1 ltac:(lia))|specialize (H2 ltac:(lia))]; lia.
  - intros t rest. rewrite Hok. split.
    + intros (-> & -> & E). exists x2. split; [|done]. exists out. rewrite E1, E2. split_and!; [done|lia|done].
    + intros (u & (o & [= <- ->] & E & Ht) & ->). rewrite E1, E2 in Ht. injection Ht as ->. split_and!; [done|done|lia].
  - specialize (Hcp _ _ E). apply Hok in E as (-> & _ & E). lia.
Qed.

Lemma payload_range delta payload size unpacked rest :
  payload_at delta payload size unpacked rest -> 0 <= size /\ (size < 2 ^ 64 -> 0 <= unpacked < 2 ^ 64).
Proof.
  intros (out & _ & <- & H). split; [lia|]. intros Hs. destruct delta; [|lia]. unfold delta_target in H.
  destruct (readDeltaVarint out) as [[?|] s]; [|done]. destruct (readDeltaVarint s) as [[[t r]|] s'] eqn:E; [|done].
  apply read_varint_shape in E as [_ E]. injection H as <-. apply (E t r eq_refl).
Qed.

Lemma object_range bytes delta size payload unpacked rest :
  head_at bytes delta size payload -> payload_at delta payload size unpacked rest -> 0 <= size /\ 0 <= unpacked.
Proof.
  intros (ty & b & Hh%header_range & _) [Hs Hu]%payload_range. specialize (Hu ltac:(lia)). lia.
Qed.

Lemma declared_cons o objs : declared (o :: objs) = o.1 + declared objs.
Proof. done. Qed.

Lemma delivered_cons o objs : delivered (o :: objs) = o.2 + delivered objs.
Proof. done. Qed.

Lemma walk_range bytes objs rest : walk bytes objs rest -> 0 <= declared objs /\ 0 <= delivered objs.
Proof.
  induction 1 as [|bytes delta size payload unpacked next objs rest Hh Hp _ IH]; [done|].
  pose proof (object_range _ _ _ _ _ _ Hh Hp). rewrite declared_cons, delivered_cons. cbn [fst snd]. lia.
Qed.

Lemma head_at_det bytes d1 s1 p1 d2 s2 p2 :
  head_at bytes d1 s1 p1 -> head_at bytes d2 s2 p2 -> (d1, s1, p1) = (d2, s2, p2).
Proof.
  intros (t1 & b1 & H1 & K1) (t2 & b2 & H2 & K2). rewrite H1 in H2. injection H2 as <- <- <-. rewrite K1 in K2.
  by injection K2 as <- <-.
Qed.

(** What one iteration yields: the totals it leaves and the bytes behind. *)
Definition step_ok (limits : ObjectLimits) (U P : Z) (bytes : list Z) (out : Z * Z * list Z) : Prop :=
  exists delta size payload unpacked, head_at bytes delta size payload /\ payload_at delta payload size unpacked out.2 /\
    fits limits U P [(size, unpacked)] /\ out.1 = (U + unpacked, P + size).

Definition object_spec (limits : ObjectLimits) (U P : Z) (bytes : list Z)
    (res : Z * result scan_error (Z * Z * list Z)) : Prop :=
  0 <= res.1 <= MaxTotalBytes limits - P + 20 /\
  (forall o, res.2 = Ok o <-> step_ok limits U P bytes o) /\
  (forall o, res.2 = Ok o -> res.1 = o.1.2 - P) /\
  (forall l, res.2 = Err (LimitError l) -> exceeds limits U P bytes l).

(** An iteration refused before it inflates. *)
Lemma object_refused limits U P bytes e :
  P <= MaxTotalBytes limits ->
  (forall o, ~ step_ok limits U P bytes o) -> (forall l, e = LimitError l -> exceeds limits U P bytes l) ->
  object_spec limits U P bytes (0, Err e).
Proof.
  intros HP Hno Hex. split_and!; cbn; [lia..| |done|].
  - intros o. split; [done|]. intros H. by destruct (Hno o).
  - intros l [= ->]. by apply Hex.
Qed.

Lemma fits_single limits U P size unpacked :
  fits limits U P [(size, unpacked)] <->
  unpacked <= MaxObjectBytes limits /\ U + unpacked <= MaxTotalBytes limits /\ P + size <= MaxTotalBytes limits.
Proof.
  unfold fits, delivered, declared, sum. rewrite Forall_singleton. cbn. rewrite !Z.add_0_r. tauto.
Qed.

Lemma payload_at_det delta payload size u1 r1 u2 r2 :
  payload_at delta payload size u1 r1 -> payload_at delta payload size u2 r2 -> u1 = u2 /\ r1 = r2.
Proof.
  intros (o1 & H1 & _ & K1) (o2 & H2 & _ & K2). rewrite H1 in H2. injection H2 as <- <-. split; [|done].
  destruct delta; [rewrite K1 in K2; by injection K2|by subst].
Qed.

Lemma step_ok_iff limits U P bytes delta size payload u rest o :
  head_at bytes delta size payload -> payload_at delta payload size u rest ->
  step_ok limits U P bytes o <-> o = (U + u, P + size, rest) /\ fits limits U P [(size, u)].
Proof.
  intros Hh Hp. destruct o as [o r]. split.
  - intros (d & s & p & u' & Hh' & Hp' & Hf & Ho). pose proof (head_at_det _ _ _ _ _ _ _ Hh Hh') as [= <- <- <-].
    destruct (payload_at_det _ _ _ _ _ _ _ Hp Hp') as [<- ->]. cbn in *. by subst.
  - intros [[= -> ->] Hf]. exists delta, size, payload, u. by split_and!.
Qed.

(** An object with this head is accepted only within these bounds. *)
Lemma step_ok_bounds limits U P bytes delta size payload o :
  head_at bytes delta size payload -> step_ok limits U P bytes o ->
  exists u, (delta = false -> u = size) /\
    u <= MaxObjectBytes limits /\ U + u <= MaxTotalBytes limits /\ P + size <= MaxTotalBytes limits.
Proof.
  intros Hh (d & s & p & u & Hh' & (x & _ & _ & Hu) & Hf & _).
  pose proof (head_at_det _ _ _ _ _ _ _ Hh Hh') as [= <- <- <-]. apply fits_single in Hf.
  exists u. split; [by intros ->|done].
Qed.

(** A head whose sizes break a bound, as the two charges find it. *)
Lemma charge_exceeds limits U P bytes delta size payload u l :
  head_at bytes delta size payload -> (if delta then exists next, payload_at true payload size u next else u = size) ->
  (l = LimitObjectBytes /\ MaxObjectBytes limits < u \/ l = LimitBytes /\ MaxTotalBytes limits < U + u) ->
  exceeds limits U P bytes l.
Proof. intros Hh Hu Hc. exists delta, size, payload. split; [done|]. right. by exists u. Qed.

(** The second half of an iteration, [U'] being the total it starts from: a whole
    object is charged already. *)
Lemma scan_payload_spec limits U P bytes delta size payload :
  limits_bounded limits -> 0 <= U <= MaxTotalBytes limits -> 0 <= P <= MaxTotalBytes limits ->
  head_at bytes delta size payload ->
  (delta = false -> size <= MaxObjectBytes limits /\ U + size <= MaxTotalBytes limits) ->
  object_spec limits U P bytes
    (scan_payload inflate limits (if delta then U else U + size) P delta size payload).
Proof.
  intros Hl HU HP Hh Hw. pose proof Hl as (_ & ? & ?). unfold scan_payload.
  assert (Hs : 0 <= size < 2 ^ 64) by (destruct Hh as (? & ? & ?%header_range & _); lia). rewrite add_scan_total by lia.
  destruct (Z.ltb_spec (MaxTotalBytes limits) (P + size)).
  { apply object_refused; [lia|intros o (u & _ & ?)%(step_ok_bounds _ _ _ _ _ _ _ _ Hh); lia|].
    intros l [= <-]. exists delta, size, payload. split; [done|]. auto. }
  pose proof (inflate_object_spec payload size delta ltac:(lia)) as Hi.
  destruct (inflatePackObject _ _ _ _) as [drawn out]. destruct Hi as (Hd & Hok & Hex & Hno).
  destruct out as [[t rest]|e].
  2: { split_and!; cbn; [lia..| |done|intros l [= ->]; by destruct (Hno l)]. intros o. split; [done|].
       intros (d & s & p & u & Hh' & Hp & _). pose proof (head_at_det _ _ _ _ _ _ _ Hh Hh') as [= <- <- <-].
       by discriminate (proj2 (Hok _ _) (ex_intro _ u (conj Hp eq_refl))). }
  destruct (Hex _ _ eq_refl) as [-> Ht]. destruct (proj1 (Hok _ _) eq_refl) as (u & Hp & ->).
  pose proof (fun o => step_ok_iff limits U P bytes delta size payload u rest o Hh Hp) as Hiff.
  setoid_rewrite fits_single in Hiff. destruct delta.
  2: { assert (u = size) as -> by (destruct Hp as (? & _ & _ & ?); done). specialize (Hw eq_refl).
       split_and!; cbn; [lia..| |intros o [= <-]; cbn; lia|done]. intros o. rewrite Hiff.
       split; [intros [= <-]; split; [done|lia]|by intros [-> _]]. }
  rewrite charge_unpacked_eq by done.
  pose proof (fun l => charge_exceeds limits U P bytes true size payload u l Hh (ex_intro _ rest Hp)) as Hexc.
  destruct (Z.ltb_spec (MaxObjectBytes limits) u); [|destruct (Z.ltb_spec (MaxTotalBytes limits) (U + u))].
  1,2: split_and!; cbn; [lia..|intros o; rewrite Hiff; split; [done|intros [_ ?]; lia]|done|intros l [= <-]; apply Hexc; auto].
  split_and!; cbn; [lia..| |intros o [= <-]; cbn; lia|done]. intros o. rewrite Hiff.
  split; [intros [= <-]; split; [done|lia]|by intros [-> _]].
Qed.

Lemma scan_object_spec limits U P bytes :
  limits_bounded limits -> 0 <= U <= MaxTotalBytes limits -> 0 <= P <= MaxTotalBytes limits ->
  object_spec limits U P bytes (scan_object inflate limits U P bytes).
Proof.
  intros Hl HU HP. pose proof Hl as (_ & ? & ?). unfold scan_object.
  assert (Hnone : (forall d s p, ~ head_at bytes d s p) -> forall o, ~ step_ok limits U P bytes o).
  { intros Hn o (d & s & p & u & Hh & _). by apply Hn in Hh. }
  destruct (readPackObjectHeader bytes) as [[[ty size] b1]|] eqn:Eh.
  2: { apply object_refused; [lia| |done]. apply Hnone. intros d s p (? & ? & ? & _). congruence. }
  destruct (skip_base ty b1) as [[delta payload]|e] eqn:Es.
  2: { apply object_refused; [lia| |intros l ->].
       - apply Hnone. intros d s p (? & ? & E & ?). rewrite Eh in E. injection E as <- <- <-. congruence.
       - unfold skip_base in Es. repeat (case_match; try done). }
  assert (Hh : head_at bytes delta size payload) by (by exists ty, b1). pose proof (header_range _ _ _ _ Eh) as Hs.
  pose proof (scan_payload_spec limits U P bytes delta size payload Hl HU HP Hh) as Hpay.
  destruct delta; [by apply Hpay|]. rewrite charge_unpacked_eq by done.
  pose proof (fun l => charge_exceeds limits U P bytes false size payload size l Hh eq_refl) as Hex.
  destruct (Z.ltb_spec (MaxObjectBytes limits) size); [|destruct (Z.ltb_spec (MaxTotalBytes limits) (U + size))].
  1,2: apply object_refused; [lia|intros o (u & Hu & ?)%(step_ok_bounds _ _ _ _ _ _ _ _ Hh); specialize (Hu eq_refl); lia|
         intros l [= <-]; apply Hex; auto].
  by apply Hpay.
Qed.

(** *** The whole pack *)

Lemma fits_cons limits U P size u objs :
  0 <= declared objs -> 0 <= delivered objs ->
  fits limits U P ((size, u) :: objs) <-> fits limits U P [(size, u)] /\ fits limits (U + u) (P + size) objs.
Proof.
  intros Hd Hv. rewrite fits_single. unfold fits. rewrite Forall_cons, declared_cons, delivered_cons. cbn [fst snd].
  split; intros; destruct_and!; split_and!; (done || lia).
Qed.

Definition live_ctx (ctxErr : Z -> option string) (index : Z) (n : nat) : Prop :=
  forall i, index <= i < index + Z.of_nat n -> ctxErr i = None.

(** What the loop over [n] objects does. *)
Definition loop_spec (ctxErr : Z -> option string) (limits : ObjectLimits) (n : nat) (index U P : Z) (bytes : list Z)
    (res : Z * result scan_error (list Z)) : Prop :=
  0 <= res.1 <= MaxTotalBytes limits - P + 20 /\
  (forall rest, res.2 = Ok rest <-> live_ctx ctxErr index n /\
     exists objs, length objs = n /\ walk bytes objs rest /\ fits limits U P objs) /\
  (forall l, res.2 = Err (LimitError l) -> exists objs mid, (length objs < n)%nat /\ walk bytes objs mid /\
     fits limits U P objs /\ exceeds limits (U + delivered objs) (P + declared objs) mid l).

Lemma fits_nil limits U P : U <= MaxTotalBytes limits -> P <= MaxTotalBytes limits -> fits limits U P [].
Proof. intros ??. split; [constructor|]. cbn. lia. Qed.

Lemma walk_cons_inv bytes o objs rest :
  walk bytes (o :: objs) rest -> exists delta payload next,
    head_at bytes delta o.1 payload /\ payload_at delta payload o.1 o.2 next /\ walk next objs rest.
Proof. inversion 1; subst. eauto 10. Qed.

(** One accepted object in front of a loop. *)
Lemma loop_step ctxErr limits n index U P bytes delta size payload u next drawn res :
  ctxErr index = None -> 0 <= size -> head_at bytes delta size payload -> payload_at delta payload size u next ->
  fits limits U P [(size, u)] -> drawn = size -> loop_spec ctxErr limits n (index + 1) (U + u) (P + size) next res ->
  loop_spec ctxErr limits (S n) index U P bytes (drawn + res.1, res.2).
Proof.
  intros Hc Hs Hh Hp Hf -> (Hd & Hok & Herr). split_and!; cbn [fst snd]; [lia..| |].
  - intros rest. rewrite Hok. unfold live_ctx. split.
    + intros (Hl & objs & Hn & Hw & Hfit). split.
      { intros i Hi. destruct (decide (i = index)) as [->|]; [done|]. apply Hl. lia. }
      exists ((size, u) :: objs). destruct (walk_range _ _ _ Hw). split_and!; [cbn; lia|by econstructor|by apply fits_cons].
    + intros (Hl & [|[s v] objs] & Hn & Hw & Hfit); [done|]. split; [intros i Hi; apply Hl; lia|].
      apply walk_cons_inv in Hw as (d & p & nx & Hh' & Hp' & Hw). cbn [fst snd] in *.
      pose proof (head_at_det _ _ _ _ _ _ _ Hh Hh') as [= <- <- <-]. destruct (payload_at_det _ _ _ _ _ _ _ Hp Hp') as [<- <-].
      destruct (walk_range _ _ _ Hw). exists objs. apply fits_cons in Hfit; [|done..]. split_and!; [cbn in Hn; lia|done|apply Hfit].
  - intros l (objs & mid & Hn & Hw & Hfit & Hex)%Herr. destruct (walk_range _ _ _ Hw).
    exists ((size, u) :: objs), mid. rewrite declared_cons, delivered_cons. cbn [fst snd]. rewrite !Z.add_assoc.
    split_and!; [cbn; lia|by econstructor|by apply fits_cons|done].
Qed.

Lemma scan_objects_spec ctxErr limits n index U P bytes :
  limits_bounded limits -> 0 <= U <= MaxTotalBytes limits -> 0 <= P <= MaxTotalBytes limits ->
  loop_spec ctxErr limits n index U P bytes (scan_objects inflate ctxErr limits n index U P bytes).
Proof.
  intros Hl. revert index U P bytes. induction n as [|n IH]; intros index U P bytes HU HP; cbn [scan_objects].
  { split_and!; cbn; [lia..| |done]. intros rest. split.
    - intros [= <-]. split; [intros i Hi; lia|]. exists []. split_and!; [done|constructor|apply fits_nil; lia].
    - intros (_ & objs & Hn%nil_length_inv & Hw & _). subst. by inversion Hw. }
  destruct (ctxErr index) as [err|] eqn:Hc.
  { split_and!; cbn; [lia..| |done]. intros rest. split; [done|]. intros [Hlive _]. by rewrite Hlive in Hc by lia. }
  pose proof (scan_object_spec limits U P bytes Hl HU HP) as (Hd & Hok & Hdr & Hex).
  destruct (scan_object _ _ _ _ _) as [drawn out]. cbn [fst snd] in *. destruct out as [[[U' P'] next]|e].
  - destruct (proj1 (Hok _) eq_refl) as (delta & size & payload & u & Hh & Hp & Hf & [= -> ->]). cbn [fst snd] in *.
    specialize (Hdr _ eq_refl). cbn in Hdr. pose proof (object_range _ _ _ _ _ _ Hh Hp) as [Hsz ?].
    pose proof (proj1 (fits_single _ _ _ _ _) Hf) as (_ & ? & ?).
    specialize (IH (index + 1) (U + u) (P + size) next ltac:(lia) ltac:(lia)).
    assert (drawn = size) as -> by lia. pose proof (loop_step _ _ _ _ _ _ _ _ _ _ _ _ _ _ Hc Hsz Hh Hp Hf eq_refl IH) as Hloop.
    destruct (scan_objects _ _ _ _ _ _ _ _) as [more out]. exact Hloop.
  - split_and!; cbn; [lia..| |].
    + intros rest. split; [done|]. intros (_ & [|[s v] objs] & Hn & Hw & Hfit); [done|]. pose proof Hw as Hw'.
      apply walk_cons_inv in Hw as (d & p & nx & Hh' & Hp' & Hw). destruct (walk_range _ _ _ Hw).
      apply fits_cons in Hfit; [|done..]. exfalso.
      assert (Hstep : step_ok limits U P bytes (U + v, P + s, nx)) by (exists d, s, p, v; split_and!; [done|done|apply Hfit|done]).
      by discriminate (proj2 (Hok _) Hstep).
    + intros l [= ->]. exists [], bytes. rewrite !Z.add_0_r.
      split_and!; [cbn; lia|constructor|apply fits_nil; lia|by apply Hex].
Qed.

(** The fixed head of a pack: its object count and the bytes behind it. *)
Definition pack_head (bytes : list Z) (count : Z) (body : list Z) : Prop :=
  exists v0 v1 v2 v3 c0 c1 c2 c3,
    bytes = (bytes_of_string "PACK" ++ [v0; v1; v2; v3; c0; c1; c2; c3] ++ body)%list /\
    (word_be v0 v1 v2 v3 = 2 \/ word_be v0 v1 v2 v3 = 3) /\ count = word_be c0 c1 c2 c3.

(** A pack within budget: its objects, each inflating to exactly its declared
    size, up to a 20-byte trailer that ends the file. *)
Definition pack_within (limits : ObjectLimits) (bytes : list Z) (objs : list (Z * Z)) : Prop :=
  exists count body trailer, pack_head bytes count body /\ count <= MaxObjects limits /\
    length objs = Z.to_nat count /\ walk body objs trailer /\ length trailer = 20%nat /\ fits limits 0 0 objs.

(** A bound the pack breaks, after a prefix of objects that keeps them all. *)
Definition pack_exceeds (limits : ObjectLimits) (bytes : list Z) (l : string) : Prop :=
  exists count body, pack_head bytes count body /\
    (l = LimitObjects /\ MaxObjects limits < count \/
     exists objs mid, (length objs < Z.to_nat count)%nat /\ walk body objs mid /\ fits limits 0 0 objs /\
       exceeds limits (delivered objs) (declared objs) mid l).

Definition pack_spec (ctxErr : Z -> option string) (fault : option string) (limits : ObjectLimits) (bytes : list Z)
    (res : Z * result scan_error unit) : Prop :=
  0 <= res.1 <= MaxTotalBytes limits + 20 /\
  (res.2 = Ok tt <-> fault = None /\ exists objs, pack_within limits bytes objs /\ live_ctx ctxErr 0 (length objs)) /\
  (forall l, res.2 = Err (LimitError l) -> pack_exceeds limits bytes l) /\
  (res.2 = Err (LimitError LimitObjects) -> res.1 = 0).

Lemma pack_head_det bytes c1 b1 c2 b2 : pack_head bytes c1 b1 -> pack_head bytes c2 b2 -> c1 = c2 /\ b1 = b2.
Proof.
  intros (?&?&?&?&?&?&?&?& -> & _ & ->) (?&?&?&?&?&?&?&?& E & _ & ->). by injection E as <- <- <- <- <- <- <- <- <-.
Qed.

Lemma pack_refused ctxErr fault limits bytes msg :
  0 < MaxTotalBytes limits -> (forall c b, ~ pack_head bytes c b) ->
  pack_spec ctxErr fault limits bytes (0, Err (ScanError msg)).
Proof.
  intros Hm Hno. split_and!; cbn; [lia..| |done|done]. split; [done|].
  intros (_ & objs & (c & b & t & Hh & _) & _). by apply Hno in Hh.
Qed.

(** From the header on. *)
Lemma scan_body_spec ctxErr fault limits bytes count body :
  limits_bounded limits -> pack_head bytes count body -> count <= MaxObjects limits ->
  pack_spec ctxErr fault limits bytes
    (let '(drawn, out) := scan_objects inflate ctxErr limits (Z.to_nat count) 0 0 0 body in
     (drawn, match out with Err e => Err e | Ok rest => scan_trailer fault rest end)).
Proof.
  intros Hl Hh Hc. pose proof Hl as (_ & ? & _).
  pose proof (scan_objects_spec ctxErr limits (Z.to_nat count) 0 0 0 body Hl ltac:(lia) ltac:(lia)) as (Hd & Hok & Herr).
  destruct (scan_objects _ _ _ _ _ _ _ _) as [drawn out]. cbn [fst snd] in *.
  assert (Hback : forall objs, pack_within limits bytes objs -> live_ctx ctxErr 0 (length objs) ->
            exists rest, out = Ok rest /\ length rest = 20%nat).
  { intros objs (c & b & t & Hh' & _ & Hn & Hw & Ht & Hf) Hlive. destruct (pack_head_det _ _ _ _ _ Hh Hh') as [<- <-].
    exists t. split; [|done]. apply Hok. rewrite <- Hn. eauto. }
  split_and!; cbn [fst snd]; [lia..| | |].
  - split.
    + intros Hres. destruct out as [rest|e]; [|done]. destruct (proj1 (Hok rest) eq_refl) as (Hlive & objs & Hn & Hw & Hf).
      unfold scan_trailer, ReadFull in Hres. destruct (Nat.leb_spec 20 (length rest)); [|done].
      destruct (drop 20 rest) eqn:Hr; [|done]. apply (f_equal length) in Hr. rewrite length_drop in Hr. cbn in Hr.
      destruct fault; [done|]. split; [done|]. exists objs. rewrite Hn. split; [|done].
      exists count, body, rest. split_and!; [done|done|done|done|lia|done].
    + intros (-> & objs & Hp & Hlive). destruct (Hback objs Hp Hlive) as (rest & -> & Ht).
      unfold scan_trailer, ReadFull. rewrite Ht. cbn [Nat.leb]. by rewrite drop_ge by lia.
  - intros l Hres. destruct out as [rest|e].
    { unfold scan_trailer in Hres. repeat (case_match; try done). }
    injection Hres as ->. exists count, body. split; [done|]. right. by apply Herr.
  - intros Hres. destruct out as [rest|e].
    { unfold scan_trailer in Hres. repeat (case_match; try done). }
    injection Hres as ->. destruct (Herr _ eq_refl) as (objs & mid & _ & _ & _ & d & s & p & _ & [[? _]|(u & _ & [[? _]|[? _]])]); done.
Qed.

(** The next byte of a header, or a file too short for one. *)
Local Ltac next_byte h :=
  lazymatch goal with |- context [scanPackfile] => fail | |- context [match ?bytes with [] => _ | _ :: _ => _ end] =>
    destruct bytes as [|h bytes];
      [apply pack_refused; [lia|]; intros c b (?&?&?&?&?&?&?&?& E & _); discriminate E|]
  end.

Lemma scan_packfile_spec ctxErr fault limits bytes :
  limits_bounded limits -> pack_spec ctxErr fault limits bytes (scanPackfile inflate ctxErr fault bytes limits).
Proof.
  intros Hl. pose proof Hl as (? & ? & _). unfold scanPackfile.
  next_byte h0. next_byte h1. next_byte h2. next_byte h3. next_byte v0. next_byte v1. next_byte v2. next_byte v3.
  next_byte c0. next_byte c1. next_byte c2. next_byte c3.
  case_bool_decide as Hm; cbn [negb].
  2: { apply pack_refused; [lia|]. intros c b (?&?&?&?&?&?&?&?& E & _). apply Hm. by injection E as -> -> -> -> _. }
  injection Hm as -> -> -> ->. cbv zeta.
  match goal with |- context [negb ((?v =? 2) || (?v =? 3))] => destruct ((v =? 2) || (v =? 3)) eqn:Hv end; cbn [negb].
  2: { apply pack_refused; [lia|]. intros c b (?&?&?&?&?&?&?&?& E & Hver & _).
       injection E as -> -> -> -> _. bprop. destruct Hv. by destruct Hver. }
  rewrite u64_id by (unfold int64_max in *; lia).
  match goal with |- context [_ <? ?c] => assert (Hh : pack_head
    (80 :: 65 :: 67 :: 75 :: v0 :: v1 :: v2 :: v3 :: c0 :: c1 :: c2 :: c3 :: bytes) c bytes) end.
  { eexists _, _, _, _, _, _, _, _. split_and!; [reflexivity| |reflexivity]. bprop. exact Hv. }
  destruct (Z.ltb_spec (MaxObjects limits) (word_be c0 c1 c2 c3)) as [Hlt|Hlt]; [|by apply scan_body_spec].
  split_and!; cbn; [lia..| | |done].
  - split; [done|]. intros (_ & objs & (c & b & t & Hh' & Hle & _) & _). destruct (pack_head_det _ _ _ _ _ Hh Hh') as [<- _]. lia.
  - intros l [= <-]. eexists _, _. split; [exact Hh|]. left. done.
Qed.

End Contract.

(** ** The start of the pack *)

Definition no_blank (l : list Z) : Prop := forall a b, l <> (a ++ 10 :: 10 :: b)%list.

Lemma scan_buffer_app l1 l2 i p :
  scan_buffer (l1 ++ l2) i p =
  match scan_buffer l1 i p with inl j => inl j | inr p' => scan_buffer l2 (i + Z.of_nat (length l1)) p' end.
Proof.
  revert i p. induction l1 as [|b l1 IH]; intros i p; cbn [app scan_buffer length]; [by rewrite Z.add_0_r|].
  destruct ((b =? 10) && (p =? 10)); [done|]. rewrite IH. by replace (i + 1 + Z.of_nat (length l1)) with
    (i + Z.of_nat (S (length l1))) by lia.
Qed.

Lemma scan_buffer_shift l i d p :
  scan_buffer l (d + i) p = match scan_buffer l i p with inl j => inl (d + j) | inr p' => inr p' end.
Proof.
  revert i p. induction l as [|b l IH]; intros i p; cbn [scan_buffer]; [done|].
  destruct ((b =? 10) && (p =? 10)); [done|]. rewrite <- Z.add_assoc. apply IH.
Qed.

(** How the file is cut into reads does not matter. *)
Lemma find_loop_concat fault reads offset p :
  find_loop fault reads offset p =
  match scan_buffer (concat reads) offset p with
  | inl i => Ok (i + 1)
  | inr _ => find_loop fault [] 0 0
  end.
Proof.
  revert offset p. induction reads as [|l reads IH]; intros offset p; cbn [find_loop concat]; [done|].
  pose proof (scan_buffer_shift l 0 offset p) as Hs. rewrite Z.add_0_r in Hs. rewrite scan_buffer_app, Hs.
  destruct (scan_buffer l 0 p); [done|]. apply IH.
Qed.

Lemma scan_buffer_found l i p j :
  scan_buffer l i p = inl j <->
  exists a b, p :: l = (a ++ 10 :: 10 :: b)%list /\ j = i + Z.of_nat (length a) /\ no_blank (a ++ [10]).
Proof.
  revert i p. induction l as [|c l IH]; intros i p; cbn [scan_buffer].
  { split; [done|]. intros ([|? [|? ?]] & b & [=] & _). }
  destruct ((c =? 10) && (p =? 10)) eqn:Hb; bprop.
  - destruct Hb as [-> ->]. split.
    + intros [= <-]. exists [], l. split_and!; [done|cbn; lia|]. intros [|? [|? ?]] b [=].
    + intros ([|x a] & b & E & -> & Hno); [cbn; f_equal; lia|]. injection E as <- E.
      destruct a as [|y a]; [by destruct (Hno [] [])|]. injection E as <- E. by destruct (Hno [] (a ++ [10])%list).
  - rewrite IH. split; intros ([|x a] & b & E & Hj & Hno); cbn in E.
    + injection E as -> ->. exists [p], b. split_and!; [done|cbn in *; lia|]. intros [|? [|? [|? ?]]] ? [=]. by destruct Hb.
    + injection E as <- E. exists (p :: c :: a), b. cbn in *. split_and!; [by rewrite <- E|lia|].
      intros [|y q] r [= Hy Hq]; [|by apply (Hno q r)]. destruct Hb; congruence.
    + destruct Hb; congruence.
    + injection E as <- E. exists a, b. split_and!; [done|cbn in *; lia|]. intros q r Hq. apply (Hno (p :: q) r). cbn. by rewrite Hq.
Qed.

(** The bundle's header block: everything up to the first blank line. *)
Definition bundle_split (bytes header pack : list Z) : Prop :=
  bytes = (header ++ 10 :: 10 :: pack)%list /\ no_blank (header ++ [10]).

Lemma find_pack_start fault reads k :
  findPackStart fault reads = Ok k <->
  exists header pack, bundle_split (concat reads) header pack /\ k = Z.of_nat (length header) + 2.
Proof.
  unfold findPackStart, bundle_split. rewrite find_loop_concat. transitivity (scan_buffer (concat reads) 0 0 = inl (k - 1)).
  { destruct (scan_buffer _ _ _) as [i|i]; split; [by intros [= <-]; rewrite Z.add_simpl_r|intros [= ->]; f_equal; lia|done|done]. }
  rewrite scan_buffer_found. split.
  - intros ([|x a] & b & E & Hk & Hno); [done|]. injection E as <- E. exists a, b. split_and!; [done| |cbn in Hk; lia].
    intros q r Hq. apply (Hno (0 :: q) r). cbn. by rewrite Hq.
  - intros (a & b & (E & Hno) & ->). exists (0 :: a), b. split_and!; [cbn; by rewrite E|cbn; lia|].
    intros [|y q] r [= Hy Hq]. by apply (Hno q r).
Qed.

Lemma bundle_drop bytes header pack k :
  bundle_split bytes header pack -> k = Z.of_nat (length header) + 2 -> drop (Z.to_nat k) bytes = pack.
Proof.
  intros [-> _] ->. rewrite Z2Nat.inj_add, Nat2Z.id by lia. rewrite <- drop_drop, drop_app_length. done.
Qed.

Lemma bundle_split_det bytes h1 p1 h2 p2 :
  bundle_split bytes h1 p1 -> bundle_split bytes h2 p2 -> h1 = h2 /\ p1 = p2.
Proof.
  intros H1 H2. assert (E : forall h p, bundle_split bytes h p -> findPackStart None [bytes] = Ok (Z.of_nat (length h) + 2)).
  { intros h p H. apply find_pack_start. cbn. rewrite app_nil_r. eauto. }
  pose proof (E _ _ H1) as E1. rewrite (E _ _ H2) in E1. injection E1 as El. destruct H1 as [-> _], H2 as [H2 _].
  apply app_inj_1 in H2 as [-> [= ->]]; [done|lia].
Qed.

(** ** The encodings *)

(** Little-endian base 128, as git writes sizes. *)
Fixpoint le128 (digits : nat) (n : Z) : list Z :=
  match digits with
  | O => []
  | S k => if n <? 128 then [n] else (128 + n mod 128) :: le128 k (n / 128)
  end.

Definition encode_header (ty size : Z) : list Z :=
  if size <? 16 then [16 * ty + size] else (128 + (16 * ty + size mod 16)) :: le128 9 (size / 16).

Lemma low_bits m :
  0 <= m < 128 ->
  Z.land m 127 = m /\ Z.land m 128 = 0 /\ Z.land (128 + m) 127 = m /\ Z.land (128 + m) 128 = 128.
Proof.
  intros Hm. assert (Hall : forallb (fun n => let m := Z.of_nat n in
    (Z.land m 127 =? m) && ((Z.land m 128 =? 0) && ((Z.land (128 + m) 127 =? m) && (Z.land (128 + m) 128 =? 128)))) (seq 0 128) = true)
    by (vm_compute; reflexivity).
  rewrite forallb_forall in Hall. specialize (Hall (Z.to_nat m)). cbv zeta in Hall. rewrite Z2Nat.id in Hall by lia.
  specialize (Hall ltac:(apply in_seq; lia)). bprop. exact Hall.
Qed.

Lemma lor_digit a d shift :
  0 <= a < 2 ^ shift -> 0 <= shift -> 0 <= d -> d * 2 ^ shift < 2 ^ 64 ->
  Z.lor a (u64 (Z.shiftl d shift)) = a + d * 2 ^ shift.
Proof.
  intros Ha Hs Hd Hlt. rewrite Z.shiftl_mul_pow2 by lia. rewrite u64_id by nia.
  assert (Hl : Z.land a (d * 2 ^ shift) = 0).
  { apply Z.bits_inj'. intros n Hn. rewrite Z.land_spec, Z.bits_0. destruct (Z.ltb_spec n shift).
    - rewrite Z.mul_pow2_bits_low by lia. apply andb_false_r.
    - destruct (decide (a = 0)) as [->|]; [by rewrite Z.bits_0|].
      rewrite (Z.bits_above_log2 a); [done|lia|]. apply Z.lt_le_trans with shift; [apply Z.log2_lt_pow2; lia|lia]. }
  by rewrite Z.add_nocarry_lxor, Z.lxor_lor.
Qed.

Lemma digit_split n : n = n mod 128 + 128 * (n / 128).
Proof. pose proof (Z.div_mod n 128). lia. Qed.

Lemma varint_decode k value shift read n s :
  (0 < k)%nat -> 0 <= value < 2 ^ shift -> 0 <= shift -> 0 <= n < 2 ^ (7 * Z.of_nat k) -> n * 2 ^ shift < 2 ^ 64 ->
  varint_loop k value shift read (le128 k n ++ s)%list =
  (Some (value + n * 2 ^ shift, read + Z.of_nat (length (le128 k n)) - 1), s).
Proof.
  revert value shift read n. induction k as [|k IH]; intros value shift read n Hk Hv Hs Hn Hlt; [lia|].
  cbn [varint_loop le128]. destruct (Z.ltb_spec n 128) as [Hc|Hc]; cbn [app].
  - destruct (low_bits n) as (-> & -> & _ & _); [lia|]. rewrite lor_digit by lia. cbn. do 3 f_equal. lia.
  - destruct (low_bits (n mod 128)) as (_ & _ & -> & ->); [apply Z.mod_pos_bound; lia|]. cbn [Z.eqb].
    pose proof (Z.mod_pos_bound n 128 ltac:(lia)). pose proof (digit_split n) as E. assert (0 < 2 ^ shift) by (apply Z.pow_pos_nonneg; lia).
    rewrite lor_digit by nia. rewrite IH; [|destruct k; [change (2 ^ (7 * Z.of_nat 1)) with 128 in Hn|]; lia| |lia| |].
    + rewrite Z.pow_add_r by lia. cbn [length]. do 3 f_equal; [change (2 ^ 7) with 128; nia|lia].
    + rewrite Z.pow_add_r by lia. change (2 ^ 7) with 128. nia.
    + split; [apply Z.div_pos; lia|]. apply Z.div_lt_upper_bound; [lia|].
      replace (7 * Z.of_nat (S k)) with (7 + 7 * Z.of_nat k) in Hn by lia. rewrite Z.pow_add_r in Hn by lia. lia.
    + rewrite Z.pow_add_r by lia. change (2 ^ 7) with 128. nia.
Qed.

Lemma header_decode k current size shift n s :
  Z.land current 128 <> 0 -> 0 <= size < 2 ^ shift -> 0 <= shift -> 1 <= n < 2 ^ (7 * Z.of_nat k) -> n * 2 ^ shift < 2 ^ 64 ->
  header_loop current size shift (le128 k n ++ s)%list = Some (size + n * 2 ^ shift, s).
Proof.
  revert current size shift n. induction k as [|k IH]; intros current size shift n Hc Hv Hs Hn Hlt.
  { change (2 ^ (7 * Z.of_nat 0)) with 1 in Hn. lia. }
  assert (Hsh : shift < 64).
  { destruct (Z.lt_ge_cases shift 64); [done|]. assert (2 ^ 64 <= 2 ^ shift) by (apply Z.pow_le_mono_r; lia). nia. }
  assert (0 < 2 ^ shift) by (apply Z.pow_pos_nonneg; lia).
  cbn [le128]. destruct (Z.ltb_spec n 128) as [Hd|Hd]; cbn [app header_loop];
    (destruct (Z.eqb_spec (Z.land current 128) 0); [done|]); (destruct (Z.leb_spec 64 shift); [lia|]).
  - destruct (low_bits n) as (-> & E & _ & _); [lia|]. rewrite lor_digit by lia. destruct s; cbn [header_loop]; by rewrite E.
  - destruct (low_bits (n mod 128)) as (_ & _ & -> & E); [apply Z.mod_pos_bound; lia|].
    pose proof (Z.mod_pos_bound n 128 ltac:(lia)). pose proof (digit_split n).
    rewrite lor_digit by nia. assert (Hp : 2 ^ (shift + 7) = 2 ^ shift * 128) by (rewrite Z.pow_add_r by lia; done).
    rewrite IH; [f_equal; f_equal; nia|rewrite E; lia|nia|lia| |nia].
    split; [apply Z.div_le_lower_bound; lia|]. apply Z.div_lt_upper_bound; [lia|].
    replace (7 * Z.of_nat (S k)) with (7 + 7 * Z.of_nat k) in Hn by lia. rewrite Z.pow_add_r in Hn by lia. lia.
Qed.

(** The first byte of a header: continuation bit, type, low size bits. *)
Lemma first_byte ty low :
  0 <= ty < 8 -> 0 <= low < 16 ->
  let b := 16 * ty + low in
  (Z.land (Z.shiftr b 4) 7 = ty /\ Z.land b 15 = low /\ Z.land b 128 = 0) /\
  (Z.land (Z.shiftr (128 + b) 4) 7 = ty /\ Z.land (128 + b) 15 = low /\ Z.land (128 + b) 128 = 128).
Proof.
  intros Ht Hw b. destruct (low_bits b) as (_ & E1 & _ & E2); [lia|]. rewrite E1, E2.
  change 15 with (Z.ones 4). change 7 with (Z.ones 3). rewrite !Z.land_ones, !Z.shiftr_div_pow2 by lia.
  change (2 ^ 4) with 16. change (2 ^ 3) with 8. unfold b. split_and!; try done; Z.div_mod_to_equations; lia.
Qed.

(** A size of [2 ^ 64] is not refused as an overflow: its top digit is lost. *)
Example header_size_truncated : readPackObjectHeader [176; 128; 128; 128; 128; 128; 128; 128; 128; 16] = Some (3, 0, []).
Proof. reflexivity. Qed.

(** ** Properties *)

(** C29: The scan of a bundle accepts exactly the bundles within budget.
    However the file is cut into reads and whatever the decompressor does, it
    returns no error if and only if every bound is positive, every file
    operation succeeded, and what follows the first blank line is one pack
    whose objects, as many as its header says and no more than allowed, each
    inflate cleanly to exactly their declared size, none larger than the object
    bound and neither in unpacked nor in inflated bytes over the total, with a
    20-byte trailer that ends the file. *)
Theorem bundle_accepted_iff inflate ctxErr file limits
    (Hmax : MaxObjects limits < int64_max /\ MaxTotalBytes limits < int64_max /\ MaxObjectBytes limits < int64_max) :
  (scanBundlePack inflate ctxErr file limits).2 = Ok tt <->
  limits_bounded limits /\ open_error file = None /\ seek_error file = None /\ read_fault file = None /\
  exists header pack objs, bundle_split (contents file) header pack /\ pack_within inflate limits pack objs /\
    live_ctx ctxErr 0 (length objs).
Proof.
  unfold scanBundlePack, validObjectLimits, contents.
  destruct ((MaxObjects limits <=? 0) || (MaxTotalBytes limits <=? 0) || (MaxObjectBytes limits <=? 0)) eqn:Hv; bprop.
  { split; [done|]. unfold limits_bounded. intros (? & _). lia. }
  assert (Hl : limits_bounded limits) by (unfold limits_bounded; lia).
  destruct (open_error file); [by split; [|intros (_ & ? & _)]|].
  destruct (findPackStart _ _) as [k|e] eqn:Hf.
  2: { split; [done|]. intros (_ & _ & _ & _ & h & p & _ & Hs & _).
       assert (Hk : findPackStart (read_fault file) (file_reads file) = Ok (Z.of_nat (length h) + 2)) by (apply find_pack_start; eauto).
       congruence. }
  destruct (seek_error file); [by split; [|intros (_ & _ & ? & _)]|].
  pose proof Hf as (h & p & Hs & Hk)%find_pack_start. rewrite (bundle_drop _ _ _ _ Hs Hk).
  destruct (scan_packfile_spec inflate ctxErr (read_fault file) limits p Hl) as (_ & Hok & _). rewrite Hok. split.
  - intros (? & objs & ? & ?). split_and!; eauto 10.
  - intros (_ & _ & _ & Hr & h' & p' & objs & Hs' & Hp & Hlive). split; [done|]. exists objs.
    by rewrite (proj2 (bundle_split_det _ _ _ _ _ Hs Hs')).
Qed.

(** C36: An untrusted bundle cannot make the scan inflate more than its
    budget: on every outcome, and for every decompressor, the bytes drawn from
    the compressed streams are at most the total bound plus twenty, the length
    of two delta varints read before the declared size is checked; a pack with
    too many objects is refused before anything is inflated. *)
Theorem bundle_work_bounded inflate ctxErr file limits (Hl : limits_bounded limits) :
  let '(drawn, out) := scanBundlePack inflate ctxErr file limits in
  0 <= drawn <= MaxTotalBytes limits + 20 /\ (out = Err (LimitError LimitObjects) -> drawn = 0).
Proof.
  pose proof Hl as (? & ? & ?). unfold scanBundlePack. destruct (validObjectLimits limits); [|split; [lia|done]].
  destruct (open_error file); [split; [lia|done]|]. destruct (findPackStart _ _) as [k|]; [|split; [lia|done]].
  destruct (seek_error file); [split; [lia|done]|].
  destruct (scan_packfile_spec inflate ctxErr (read_fault file) limits (drop (Z.to_nat k) (contents file)) Hl) as (Hd & _ & _ & Ho).
  by destruct (scanPackfile _ _ _ _ _).
Qed.

(** A refusal for a bound is truthful: when the scan names a bound, the
    pack does break it, with more objects announced than allowed, or with an
    object, reached through a prefix that keeps every bound, whose unpacked size
    is over the object bound or which takes a total over its bound. *)
Theorem bundle_limit_truthful inflate ctxErr file limits l (Hl : limits_bounded limits)
    (Hres : (scanBundlePack inflate ctxErr file limits).2 = Err (LimitError l)) :
  exists header pack, bundle_split (contents file) header pack /\ pack_exceeds inflate limits pack l.
Proof.
  unfold scanBundlePack, contents in *. destruct (validObjectLimits limits) eqn:Hv; [|unfold validObjectLimits in Hv; by case_match; simplify_eq].
  destruct (open_error file); [done|]. destruct (findPackStart _ _) as [k|e] eqn:Hf.
  2: { unfold findPackStart in Hf. rewrite find_loop_concat in Hf. cbn in Hf. destruct (scan_buffer _ _ _); by simplify_eq. }
  destruct (seek_error file); [done|]. apply find_pack_start in Hf as (h & p & Hs & Hk).
  rewrite (bundle_drop _ _ _ _ Hs Hk) in Hres. exists h, p. split; [done|].
  destruct (scan_packfile_spec inflate ctxErr (read_fault file) limits p Hl) as (_ & _ & He & _). by apply He.
Qed.

(** The scanner reads sizes as git writes them: the header of any type
    and 64-bit size, and any 64-bit varint of a delta, decode to what was
    encoded and leave the bytes behind untouched. *)
Theorem pack_encoding_roundtrip ty size n rest
    (Hty : 0 <= ty < 8) (Hsize : 0 <= size < 2 ^ 64) (Hn : 0 <= n < 2 ^ 64) :
  readPackObjectHeader (encode_header ty size ++ rest)%list = Some (ty, size, rest) /\
  readDeltaVarint (le128 10 n ++ rest)%list = (Some (n, Z.of_nat (length (le128 10 n))), rest).
Proof.
  split.
  - unfold encode_header, readPackObjectHeader. destruct (Z.ltb_spec size 16); cbn [app].
    + destruct (first_byte ty size) as [(-> & -> & E) _]; [lia..|]. destruct rest; cbn [header_loop]; by rewrite E.
    + pose proof (Z.mod_pos_bound size 16 ltac:(lia)). destruct (first_byte ty (size mod 16)) as [_ (-> & -> & E)]; [lia..|].
      pose proof (Z.div_mod size 16 ltac:(lia)). rewrite header_decode; [do 3 f_equal; lia|rewrite E; lia|lia|lia| |lia].
      split; [lia|]. apply Z.div_lt_upper_bound; [lia|]. change (16 * 2 ^ (7 * Z.of_nat 9)) with (2 ^ 67). lia.
  - unfold readDeltaVarint. rewrite varint_decode by (change (7 * Z.of_nat 10) with 70; lia). do 3 f_equal; lia.
Qed.

(** ** Witnesses *)

(** A bundle of a 16-byte blob and a delta that doubles it, read in three parts
    that split the blank line. *)
Definition example_pack : list Z :=
  [80; 65; 67; 75; 0; 0; 0; 2; 0; 0; 0; 2; 176; 1; 120; 218; 75; 206; 47; 45; 202; 76; 45; 82; 72; 134; 208; 92; 0; 54;
   162; 6; 29; 102; 21; 120; 218; 19; 80; 152; 32; 48; 65; 0; 0; 4; 166; 1; 113; 228; 16; 187; 142; 107; 7; 148; 120;
   105; 158; 166; 120; 121; 251; 88; 191; 177; 34; 106; 163].

Definition bundle_of (pack : list Z) : bundle_file :=
  {| open_error := None;
     file_reads := [(bytes_of_string "# v2 git bundle" ++ [10])%list; 10 :: take 20 pack; drop 20 pack];
     read_fault := None; seek_error := None |}.

Definition small_limits (total : Z) : ObjectLimits :=
  {| MaxObjects := 2; MaxTotalBytes := total; MaxObjectBytes := 32 |}.

Definition no_ctx (_ : Z) : option string := None.

Lemma bundle_accepted_iff_witness :
  exists header pack objs, bundle_split (contents (bundle_of example_pack)) header pack /\
    pack_within zlib_reader (small_limits 48) pack objs.
Proof.
  assert (Hok : (scanBundlePack zlib_reader no_ctx (bundle_of example_pack) (small_limits 48)).2 = Ok tt)
    by (vm_compute; reflexivity).
  destruct (proj1 (bundle_accepted_iff zlib_reader no_ctx (bundle_of example_pack) (small_limits 48)
                     ltac:(vm_compute; auto)) Hok) as (_ & _ & _ & _ & h & p & objs & Hs & Hp & _).
  exists h, p, objs. split; [exact Hs|exact Hp].
Defined.

(** One byte less and the doubled blob is over the total. *)
Lemma bundle_limit_truthful_witness :
  exists header pack, bundle_split (contents (bundle_of example_pack)) header pack /\
    pack_exceeds zlib_reader (small_limits 47) pack LimitBytes.
Proof.
  apply (bundle_limit_truthful zlib_reader no_ctx).
  - vm_compute. auto.
  - vm_compute. reflexivity.
Defined.

(** A delta that declares no payload but carries two ten-byte varints. *)
Definition varint_pack : list Z :=
  [80; 65; 67; 75; 0; 0; 0; 2; 0; 0; 0; 1; 112; 0; 0; 0; 0; 0; 0; 0; 0; 0; 0; 0; 0; 0; 0; 0; 0; 0; 0; 0; 0; 120; 218; 107;
   104; 128; 2; 198; 6; 56; 11; 0; 99; 32; 9; 3; 175; 132; 108; 249; 153; 126; 187; 132; 21; 31; 39; 7; 103; 128; 124;
   180; 176; 80; 244; 114].

(** The twenty bytes over the total bound are reached. *)
Lemma bundle_work_bounded_witness :
  let '(drawn, out) := scanBundlePack zlib_reader no_ctx (bundle_of varint_pack) (small_limits 1) in
  (0 <= drawn <= 1 + 20 /\ (out = Err (LimitError LimitObjects) -> drawn = 0)) /\ drawn = 20.
Proof.
  pose proof (bundle_work_bounded zlib_reader no_ctx (bundle_of varint_pack) (small_limits 1) ltac:(vm_compute; auto)) as H.
  assert (Hd : (scanBundlePack zlib_reader no_ctx (bundle_of varint_pack) (small_limits 1)).1 = 20) by (vm_compute; reflexivity).
  destruct (scanBundlePack _ _ _ _) as [drawn out]. split; [exact H|exact Hd].
Defined.

Lemma pack_encoding_roundtrip_witness :
  readPackObjectHeader (encode_header 3 300 ++ [7])%list = Some (3, 300, [7]) /\
  readDeltaVarint (le128 10 70000 ++ [7])%list = (Some (70000, 3), [7]).
Proof. apply (pack_encoding_roundtrip 3 300 70000 [7]); lia. Defined.
