(* ===== verification/Linkage.v ===== *)
(** * Closing-keyword linkage of pull request bodies (internal/broker/linkage.go)

    The pure validators that decide whether a pull request body's closing
    references name the trusted source issue. *)

From S2P Require Import Prelude GoStrings Regex.
Local Open Scope string_scope.
Local Open Scope Z_scope.

(** ** Data *)

Record SourceIssue := {
  Owner : string;
  Name : string;
  Number : Z
}.

#[export] Instance SourceIssue_eq_dec : EqDecision SourceIssue.
Proof. solve_decision. Defined.

Definition IsZero (s : SourceIssue) : bool :=
  String.eqb (Owner s) "" && String.eqb (Name s) "" && (Number s =? 0).

Definition Canonical (s : SourceIssue) : string :=
  if String.eqb (Owner s) "" || String.eqb (Name s) "" then "" else
  Owner s ++ "/" ++ Name s.

Record LinkageObservation := {
  obs_Keyword : string;
  obs_Owner : string;
  obs_Name : string;
  obs_Number : Z;
  obs_Match : bool
}.

Inductive linkage_sentinel := ErrLinkageMissing | ErrClosingLinkageNotAdmitted.

Definition sentinel_text (e : linkage_sentinel) : string :=
  match e with
  | ErrLinkageMissing => "publication denied: pull request body has no supported closing-keyword reference to the source issue"
  | ErrClosingLinkageNotAdmitted => "publication denied: pull request body carries closing linkage that the publication policy did not admit"
  end.

Record LinkageError := {
  Reason : string;
  Observed : list LinkageObservation;
  sentinel : option linkage_sentinel
}.

(** The errors the validators return: a plain [errors.New] or a structured
    [*LinkageError]. *)
Inductive linkage_error :=
| EPlain (msg : string)
| ELinkage (e : LinkageError).

(** ** Patterns *)

Definition class_space (c : ascii) : bool :=
  let b := byte_of c in (b =? 9) || (b =? 10) || (b =? 12) || (b =? 13) || (b =? 32).
Definition class_alnum (c : ascii) : bool :=
  let b := byte_of c in
  ((48 <=? b) && (b <=? 57)) || ((65 <=? b) && (b <=? 90)) || ((97 <=? b) && (b <=? 122)).
Definition class_name (c : ascii) : bool := class_alnum c || in_set c "._-".
Definition class_host (c : ascii) : bool := class_alnum c || in_set c ".-".

Definition r_space : re := RSet class_space.
Definition r_digit : re := RSet is_digit.
Definition long_s : re := RSeq (RChar (chr 0xC5)) (RChar (chr 0xBF)).
Definition kelvin : re := RSeq (RChar (chr 0xE2)) (RSeq (RChar (chr 0x84)) (RChar (chr 0xAA))).

(** One literal character under [(?i)]. *)
Definition RFold (c : ascii) : re :=
  let one := RSet (fun d => Ascii.eqb (ascii_lower d) (ascii_lower c)) in
  if Ascii.eqb (ascii_lower c) "s" then RAlt one long_s
  else if Ascii.eqb (ascii_lower c) "k" then RAlt one kelvin else one.

Fixpoint RFoldLit (s : string) : re :=
  match s with
  | "" => REps
  | String c "" => RFold c
  | String c r => RSeq (RFold c) (RFoldLit r)
  end.

(** A class holding the ASCII letters, under [(?i)]. *)
Definition RFoldSet (f : ascii -> bool) : re := RAlt (RSet f) (RAlt long_s kelvin).

Definition keywords : list string :=
  ["close"; "closes"; "closed"; "fix"; "fixes"; "fixed"; "resolve"; "resolves"; "resolved"].

Definition r_keyword : re := RAlts (RFoldLit <$> keywords).
Definition r_name : re := RPlus (RFoldSet class_name).

Definition bareClosingReferencePattern : re :=
  RSeqs [RWordB; r_keyword; RWordB; RStar r_space; RChar "#"; RGroup 1 (RPlus r_digit); RWordB].

Definition crossRepoClosingReferencePattern : re :=
  RSeqs [RWordB; r_keyword; RWordB; RPlus r_space; RGroup 1 r_name; RChar "/"; RGroup 2 r_name;
         RStar r_space; RChar "#"; RGroup 3 (RPlus r_digit); RWordB].

Definition urlClosingReferencePattern : re :=
  RSeqs [RWordB; r_keyword; RWordB; RStar r_space; ROpt (RChar ":"); RPlus r_space;
         RFoldLit "http"; ROpt (RFold "s"); RLit "://"; RPlus (RFoldSet class_host);
         ROpt (RSeqs [RChar ":"; r_digit; RUpTo 4 r_digit]);
         RChar "/"; RGroup 1 r_name; RChar "/"; RGroup 2 r_name; RFoldLit "/issues/";
         RGroup 3 (RPlus r_digit)].

Definition colonClosingReferencePattern : re :=
  RSeqs [RWordB; r_keyword; RStar r_space; RChar ":"; RStar r_space;
         ROpt (RSeqs [RGroup 1 r_name; RChar "/"; RGroup 2 r_name; RStar r_space]);
         RChar "#"; RGroup 3 (RPlus r_digit); RWordB].

(** ** Observations *)

(** [full[:idx]] when the set occurs after the first byte, else [full]. *)
Definition keyword_before (full set : string) (trim : bool) : string :=
  match IndexAny full set with
  | Some (S i) => let k := stake (S i) full in if trim then TrimSpace k else k
  | _ => full
  end.

Definition bare_observation (body : string) (source : SourceIssue) (m : mstate * mstate) : LinkageObservation :=
  let number := fst (Atoi (group body 1 m.2)) in
  {| obs_Keyword := keyword_before (full_match body m) "#" true;
     obs_Owner := ""; obs_Name := ""; obs_Number := number;
     obs_Match := number =? Number source |}.

Definition cross_observation (body : string) (source : SourceIssue) (m : mstate * mstate) : LinkageObservation :=
  let owner := group body 1 m.2 in
  let name := group body 2 m.2 in
  let number := fst (Atoi (group body 3 m.2)) in
  {| obs_Keyword := keyword_before (full_match body m) (" " ++ str1 9) false;
     obs_Owner := owner; obs_Name := name; obs_Number := number;
     obs_Match := EqualFold owner (Owner source) && EqualFold name (Name source) &&
                  (number =? Number source) |}.

Definition extractObservations (body : string) (source : SourceIssue) : list LinkageObservation :=
  ((bare_observation body source <$> FindAll bareClosingReferencePattern body) ++
   (cross_observation body source <$> FindAll crossRepoClosingReferencePattern body))%list.

Definition colon_observation (body : string) (source : SourceIssue) (m : mstate * mstate) : LinkageObservation :=
  let number := fst (Atoi (group body 3 m.2)) in
  let named := group_set 1 m.2 in
  let owner := if named then group body 1 m.2 else "" in
  let name := if named then group body 2 m.2 else "" in
  {| obs_Keyword := keyword_before (full_match body m) ":#" true;
     obs_Owner := owner; obs_Name := name; obs_Number := number;
     obs_Match := (if named
                   then EqualFold owner (Owner source) && EqualFold name (Name source) else true) &&
                  (0 <? Number source) && (number =? Number source) |}.

Definition extractColonObservations (body : string) (source : SourceIssue) : list LinkageObservation :=
  colon_observation body source <$> FindAll colonClosingReferencePattern body.

Definition url_observation (body : string) (source : SourceIssue) (m : mstate * mstate) : LinkageObservation :=
  let owner := group body 1 m.2 in
  let name := group body 2 m.2 in
  let number := fst (Atoi (group body 3 m.2)) in
  {| obs_Keyword := keyword_before (full_match body m) (" " ++ str1 9) false;
     obs_Owner := owner; obs_Name := name; obs_Number := number;
     obs_Match := EqualFold owner (Owner source) && EqualFold name (Name source) &&
                  (0 <? Number source) && (number =? Number source) |}.

Definition extractURLObservations (body : string) (source : SourceIssue) : list LinkageObservation :=
  url_observation body source <$> FindAll urlClosingReferencePattern body.

(** ** Reasons *)

Definition observation_text (obs : LinkageObservation) : string :=
  obs_Keyword obs ++ " " ++
  (if negb (String.eqb (obs_Owner obs) "") || negb (String.eqb (obs_Name obs) "")
   then obs_Owner obs ++ "/" ++ obs_Name obs else "") ++
  "#" ++ Itoa (obs_Number obs).

Definition FormatLinkageObservations (observations : list LinkageObservation) : string :=
  Join (observation_text <$> observations) ", ".

Definition describeLinkageFailure (observations : list LinkageObservation) (source : SourceIssue) : string :=
  let canonical := Canonical source in
  let summary := Join (observation_text <$> observations) ", " in
  let wrongNumber := existsb (fun obs => negb (obs_Number obs =? Number source)) observations in
  let wrongRepo := existsb (fun obs => negb (String.eqb (obs_Owner obs) "") &&
      (negb (String.eqb (obs_Owner obs) (Owner source)) || negb (String.eqb (obs_Name obs) (Name source)))) observations in
  if Nat.ltb 1 (length observations) then
    "publication denied: pull request body carries multiple closing references and not all match " ++
      canonical ++ "#" ++ Itoa (Number source) ++ " (found: " ++ summary ++ ")"
  else if wrongRepo then
    "publication denied: pull request body names a different source repository than admitted (expected " ++
      canonical ++ ", found " ++ summary ++ ")"
  else if wrongNumber then
    "publication denied: pull request body names a different source issue number than admitted (expected " ++
      canonical ++ "#" ++ Itoa (Number source) ++ ", found " ++ summary ++ ")"
  else
    "publication denied: pull request body closing reference does not match the trusted source identity (expected " ++
      canonical ++ "#" ++ Itoa (Number source) ++ ", found " ++ summary ++ ")".

(** ** Validators *)

Definition ValidateLinkage (body : string) (source : SourceIssue) : result linkage_error unit :=
  if IsZero source then
    Err (EPlain "publication denied: trusted source issue identity is unset; cannot enforce linkage") else
  if Number source <=? 0 then
    Err (EPlain "publication denied: trusted source issue number is non-positive; cannot enforce linkage") else
  let observations := extractObservations body source in
  match observations with
  | [] => Err (ELinkage {| Reason := sentinel_text ErrLinkageMissing; Observed := observations;
                           sentinel := Some ErrLinkageMissing |})
  | _ =>
      if forallb obs_Match observations then Ok tt else
      Err (ELinkage {| Reason := describeLinkageFailure observations source;
                       Observed := observations; sentinel := None |})
  end.

Definition ValidateContributeLinkage (body : string) (source : SourceIssue) (allowClosing : bool) :
    result linkage_error unit :=
  let observations := (extractObservations body source ++ extractURLObservations body source ++
                       extractColonObservations body source)%list in
  match observations with
  | [] => Ok tt
  | _ =>
      if negb allowClosing then
        Err (ELinkage {| Reason := "publication denied: contribute-mode pull request bodies default to non-closing linkage (Refs #N or an issue URL); a closing reference requires an admission-time policy choice (found: " ++
                                   FormatLinkageObservations observations ++ ")";
                         Observed := observations; sentinel := Some ErrClosingLinkageNotAdmitted |}) else
      if IsZero source then
        Err (ELinkage {| Reason := "publication denied: closing linkage requires a trusted source-issue identity";
                         Observed := observations; sentinel := None |}) else
      if Number source <=? 0 then
        Err (EPlain "publication denied: trusted source issue number is non-positive; cannot enforce linkage") else
      if forallb obs_Match observations then Ok tt else
      Err (ELinkage {| Reason := describeLinkageFailure observations source;
                       Observed := observations; sentinel := None |})
  end.

(** ** Lemmas *)

(** Decide an implication between byte classes by trying the 256 bytes. *)
Ltac byte_cases :=
  let c := fresh "c" in intros c;
  repeat match goal with b : bool |- _ => destruct b end;
  destruct c as [[] [] [] [] [] [] [] []]; (reflexivity || discriminate).

(** The first letters of the closing keywords; no later byte of a bare
    reference is one of them. *)
Definition keyword_start (c : ascii) : bool := in_set (ascii_lower c) "cfr".

Lemma keyword_head_only st st' : den r_keyword st st' -> head_only keyword_start st st'.
Proof.
  apply head_only_alts. unfold keywords. simpl.
  repeat (apply Forall_cons; split; [|]); [..|apply Forall_nil; exact I];
    intros s s'; apply head_only_seq;
    try (intros ? ?; apply head_only_set; byte_cases);
    simpl; repeat split; byte_cases.
Qed.

Lemma bare_head_only st st' :
  den bareClosingReferencePattern st st' -> head_only keyword_start st st'.
Proof.
  intros (st1 & [_ ->] & Hd). revert Hd. apply head_only_seq; [apply keyword_head_only|].
  simpl. repeat split; byte_cases.
Qed.

(** Every occurrence of a bare closing reference is an observation. *)
Lemma bare_observed body source n e' :
  (n <= String.length body)%nat -> den bareClosingReferencePattern (scan_state body n) e' ->
  exists e, bare_observation body source (scan_state body n, e) ∈ extractObservations body source.
Proof.
  intros Hn Hd. unfold scan_state in *.
  destruct (find_all_complete keyword_start bareClosingReferencePattern (S (String.length body))
              body 0 None n e') as [e He]; [apply bare_head_only|lia|done|done|].
  exists e. unfold extractObservations. apply elem_of_app. left.
  apply list_elem_of_fmap. eexists. split; [reflexivity|]. exact He.
Qed.

Lemma extractObservations_nil body source :
  extractObservations body source = [] <->
  ~ occurs bareClosingReferencePattern body /\ ~ occurs crossRepoClosingReferencePattern body.
Proof.
  unfold extractObservations. rewrite app_eq_nil_iff, !fmap_eq_nil, !FindAll_nil. done.
Qed.

Lemma ValidateLinkage_ok body source :
  ValidateLinkage body source = Ok tt <->
  IsZero source = false /\ 0 < Number source /\ extractObservations body source <> [] /\
  forall obs, obs ∈ extractObservations body source -> obs_Match obs = true.
Proof.
  unfold ValidateLinkage. destruct (IsZero source); [split; [done|by intros [? _]]|].
  destruct (Z.leb_spec (Number source) 0); [split; [done|lia]|].
  destruct (extractObservations body source) as [|o os] eqn:Ho; [split; [done|by intros (_ & _ & ? & _)]|].
  rewrite <- Ho. destruct (forallb obs_Match _) eqn:Hall; split; try done.
  - intros _. repeat split; auto; [congruence|]. intros obs Hobs.
    rewrite forallb_forall in Hall. apply Hall. by apply list_elem_of_In.
  - intros (_ & _ & _ & Hm). exfalso. apply not_true_iff_false in Hall. apply Hall.
    apply forallb_forall. intros obs Hobs. apply Hm. by apply list_elem_of_In.
Qed.

(** ** Properties *)


(** Without the admission-time choice a contribution's body is accepted
    exactly when no closing reference occurs in it, in the bare, cross-repo,
    full-URL or colon form. *)
Theorem contribute_linkage_default_nonclosing (body : string) (source : SourceIssue) :
  ValidateContributeLinkage body source false = Ok tt <->
  ~ occurs bareClosingReferencePattern body /\ ~ occurs crossRepoClosingReferencePattern body /\
  ~ occurs urlClosingReferencePattern body /\ ~ occurs colonClosingReferencePattern body.
Proof.
  unfold ValidateContributeLinkage.
  set (obs := (extractObservations body source ++ _)%list).
  assert (Hnil : obs = [] <->
    ~ occurs bareClosingReferencePattern body /\ ~ occurs crossRepoClosingReferencePattern body /\
    ~ occurs urlClosingReferencePattern body /\ ~ occurs colonClosingReferencePattern body).
  { unfold obs. rewrite !app_eq_nil_iff, extractObservations_nil.
    unfold extractURLObservations, extractColonObservations.
    rewrite !fmap_eq_nil, !FindAll_nil. tauto. }
  rewrite <- Hnil. destruct obs; simpl; split; done.
Qed.

(** With the admission-time choice a contribution's body is accepted
    exactly when it carries no closing reference or every closing reference
    names the trusted source issue, which must then be a real one. *)
Theorem contribute_linkage_admitted (body : string) (source : SourceIssue) :
  let observations := (extractObservations body source ++ extractURLObservations body source ++
                       extractColonObservations body source)%list in
  ValidateContributeLinkage body source true = Ok tt <->
  observations = [] \/
  (IsZero source = false /\ 0 < Number source /\
   forall obs, obs ∈ observations -> obs_Match obs = true).
Proof.
  intros observations. unfold ValidateContributeLinkage. fold observations.
  destruct observations as [|o os] eqn:Ho; [split; auto|]. simpl negb. cbv iota.
  destruct (IsZero source); [split; [done|by intros [?|[? _]]]|].
  destruct (Z.leb_spec (Number source) 0); [split; [done|intros [?|(_ & ? & _)]; [done|lia]]|].
  destruct (forallb obs_Match _) eqn:Hall; split; try done.
  - intros _. right. repeat split; auto. intros obs Hobs.
    rewrite forallb_forall in Hall. apply Hall. by apply list_elem_of_In.
  - intros [?|(_ & _ & Hm)]; [done|]. exfalso. apply not_true_iff_false in Hall. apply Hall.
    apply forallb_forall. intros obs Hobs. apply Hm. by apply list_elem_of_In.
Qed.

(** ** Witnesses *)

Definition example_issue : SourceIssue := {| Owner := "misospace"; Name := "courier"; Number := 12 |}.

