(* ===== verification/Criteria.v ===== *)
(** * The acceptance-criterion evidence contract
      (internal/broker/criteria.go and internal/broker/grammar/grammar.go)

    Extraction of the pinned criterion set from an issue body, and validation
    of a pull request body's evidence block against the pin. *)

From S2P Require Import Prelude GoStrings Regex Sha256 Linkage.
Local Open Scope string_scope.
Local Open Scope Z_scope.

(** ** Bounds *)

Definition MaxCriteria : Z := 32.
Definition MaxCriterionTextBytes : Z := 512.
Definition MaxReferenceBytes : Z := 400.
Definition MaxBlockRows : Z := 64.

(** ** Data *)

Record Criterion := {
  ID : string;
  Text : string;
  Digest : string
}.

Record CriterionSet := {
  Issue : SourceIssue;
  Criteria : list Criterion;
  set_Digest : string
}.

Definition IsEmpty (s : CriterionSet) : bool :=
  match Criteria s with [] => true | _ => false end.

Definition IsPinned (s : CriterionSet) : bool := negb (String.eqb (set_Digest s) "").

(** [CriterionSet.Criterion]: the first pinned criterion with the ID. *)
Definition find_criterion (s : CriterionSet) (id : string) : option Criterion :=
  List.find (fun c => String.eqb (ID c) id) (Criteria s).

(** *** The grammar leaf *)

(** [CriterionStatus] is a string type with a closed vocabulary. *)
Definition StatusImplementationEvidence : string := "implementation-evidence".
Definition StatusRegressionCheck : string := "regression-check".
Definition StatusManualVerification : string := "manual-verification".
Definition StatusNotImplemented : string := "not-implemented".
Definition StatusUnknown : string := "unknown".

Definition statusVocabulary : list string :=
  [StatusImplementationEvidence; StatusRegressionCheck; StatusManualVerification;
   StatusNotImplemented; StatusUnknown].

Definition StatusVocabularySentence : string :=
  match rev statusVocabulary with
  | [] => ""
  | last :: init => Join (rev init) ", " ++ ", or " ++ last
  end.

Inductive ReferenceRequirement := ReferenceFree | ReferenceNoteRequired | ReferenceLocationRequired.

Definition referenceRules : list (string * ReferenceRequirement) :=
  [(StatusRegressionCheck, ReferenceLocationRequired);
   (StatusImplementationEvidence, ReferenceLocationRequired);
   (StatusManualVerification, ReferenceNoteRequired);
   (StatusNotImplemented, ReferenceNoteRequired);
   (StatusUnknown, ReferenceFree)].

Fixpoint rule_for (rules : list (string * ReferenceRequirement)) (status : string) :
    ReferenceRequirement * bool :=
  match rules with
  | [] => (ReferenceFree, false)
  | (s, req) :: rest => if String.eqb s status then (req, true) else rule_for rest status
  end.

Definition ReferenceRequirementFor (status : string) : ReferenceRequirement * bool :=
  rule_for referenceRules status.

Definition StatusReferenceRuleSentence : string :=
  let locations := omap (fun '(s, req) => match req with ReferenceLocationRequired => Some s | _ => None end) referenceRules in
  let notes := omap (fun '(s, req) => match req with ReferenceNoteRequired => Some s | _ => None end) referenceRules in
  Join locations " and " ++ " must cite a file path or check URL; " ++
  Join notes " and " ++ " must carry a note".

Definition class_lowhex (c : ascii) : bool := is_hex c.
Definition class_path (c : ascii) : bool := class_alnum c || in_set c "_.-".
Definition class_path_tail (c : ascii) : bool := class_alnum c || in_set c "_.()-".
Definition class_dot (c : ascii) : bool := negb (Ascii.eqb c newline).

Definition r_repo_name : re := RPlus (RSet class_name).
Definition r_digest : re := RTimes 64 (RSet class_lowhex).

Definition HeaderPattern : re :=
  RSeqs [RBegin; RLit "courier-criteria:v1 source="; RGroup 1 r_repo_name; RChar "/";
         RGroup 2 r_repo_name; RChar "#"; RGroup 3 (RPlus r_digit); RLit " set=sha256:";
         RGroup 4 r_digest; RLit " coverage="; RGroup 5 (RAlt (RLit "full") (RLit "partial")); REnd].

Definition RowPattern : re :=
  RSeqs [RBegin; RLit "- AC-"; RGroup 1 (RPlus r_digit); RLit " sha256:"; RGroup 2 r_digest; RLit ": ";
         RGroup 3 (RAlts (RLit <$> statusVocabulary));
         ROpt (RSeqs [r_space; RAlt (RChar "-") (RLit "—"); ROpt r_space; RGroup 4 (RStar (RSet class_dot))]);
         REnd].

Definition ReferenceURLPattern : re :=
  RSeqs [RLit "http"; ROpt (RChar "s"); RLit "://"; RPlus (RSet (fun c => negb (class_space c)))].

Definition ReferencePathPattern : re :=
  RSeq (RPlus (RSet class_path)) (RPlus (RSeq (RChar "/") (RPlus (RSet class_path_tail)))).

Definition ReferenceWithLocation : re := RAlt ReferenceURLPattern ReferencePathPattern.

Definition CoverageFull : string := "full".
Definition CoveragePartial : string := "partial".

(** *** Reports and errors *)

Record CriterionRecord := {
  rec_ID : string;
  rec_Digest : string;
  rec_Status : string;
  rec_Reference : string
}.

Record CriteriaReport := {
  Source : string;
  SetDigest : string;
  Coverage : string;
  Records : list CriterionRecord
}.

Record CriteriaError := {
  crit_Reason : string;
  Missing : list string;
  Unknown : list string;
  Duplicate : list string;
  BadDigest : list string;
  BadStatus : list string;
  CoverageClaim : string;
  CoverageDerived : string;
  block_missing : bool              (* the sentinel ErrCriteriaBlockMissing *)
}.

Definition ErrCriteriaBlockMissing : string :=
  "publication denied: pull request body carries no criterion-evidence block for the pinned acceptance criteria".

Inductive criteria_error :=
| CPlain (msg : string)
| CCriteria (e : CriteriaError).

Definition reason_only (reason : string) (missing : bool) : CriteriaError :=
  {| crit_Reason := reason; Missing := []; Unknown := []; Duplicate := []; BadDigest := []; BadStatus := [];
     CoverageClaim := ""; CoverageDerived := ""; block_missing := missing |}.

(** ** Helpers *)

Definition findRecord (r : CriteriaReport) (id : string) : option CriterionRecord :=
  List.find (fun rec => String.eqb (rec_ID rec) id) (Records r).

Definition covers (r : CriteriaReport) (c : Criterion) : bool :=
  match findRecord r (ID c) with
  | None => false
  | Some rec => String.eqb (rec_Status rec) StatusRegressionCheck &&
                MatchString ReferenceWithLocation (rec_Reference rec)
  end.

Definition DerivedCoverage (r : CriteriaReport) (set : CriterionSet) : string :=
  if forallb (covers r) (Criteria set) then CoverageFull else CoveragePartial.

(** [StatusCounts]: records per status. *)
Definition StatusCounts (r : CriteriaReport) (status : string) : Z :=
  Z.of_nat (length (List.filter (fun rec => String.eqb (rec_Status rec) status) (Records r))).

Definition validRecordShape (rec : CriterionRecord) : bool :=
  let '(requirement, known) := ReferenceRequirementFor (rec_Status rec) in
  if negb known then false else
  let reference := TrimSpace (rec_Reference rec) in
  match requirement with
  | ReferenceLocationRequired => negb (String.eqb reference "") && MatchString ReferenceWithLocation reference
  | ReferenceNoteRequired => negb (String.eqb reference "")
  | ReferenceFree => true
  end.

Definition boldLabelPattern : re :=
  RSeqs [RBegin; RLit "**"; RPlus (RSet (fun c => negb (Ascii.eqb c "*"))); RLit "**"; ROpt (RChar ":"); REnd].

Definition class_letter (c : ascii) : bool :=
  let b := byte_of c in ((65 <=? b) && (b <=? 90)) || ((97 <=? b) && (b <=? 122)).

Definition bareLabelPattern : re :=
  RSeqs [RBegin; RSet class_letter; RUpTo 31 (RSet (fun c => class_alnum c || in_set c " _/&-")); RChar ":"; REnd].

Definition isHeadingLine (trimmed : string) : bool :=
  if HasPrefix trimmed "#" then true else
  MatchString boldLabelPattern trimmed || MatchString bareLabelPattern trimmed.

Definition isAcceptanceHeading (trimmed : string) : bool :=
  let s := TrimLeft trimmed "#" in
  let s := TrimSpace s in
  let s := TrimPrefix s "**" in
  let s := TrimSuffix s "**" in
  let s := TrimSpace s in
  let s := TrimSuffix s ":" in
  let s := TrimSpace s in
  EqualFold s "acceptance".

Definition topLevelBulletPattern : re :=
  RSeqs [RBegin; RSet (fun c => in_set c "-*+"); RPlus r_space].
Definition checkboxPattern : re :=
  RSeqs [RBegin; RChar "["; RSet (fun c => in_set c " xX"); RChar "]"; RPlus r_space].

Definition isTopLevelBullet (trimmed : string) : bool := MatchString topLevelBulletPattern trimmed.

(** [ReplaceAllString(s, "")] of a pattern anchored at the start. *)
Definition strip_anchored (r : re) (s : string) : string :=
  match FindStringSubmatch r s with Some e => st_rest e | None => s end.

Definition stripBulletMarker (trimmed : string) : string :=
  TrimSpace (strip_anchored topLevelBulletPattern trimmed).

Definition stripCheckboxMarker (text : string) : string :=
  TrimSpace (strip_anchored checkboxPattern text).

Definition truncateForRowEcho (line : string) : string :=
  if slen line <=? 120 then line else stake 120 line ++ "…".

Definition normalizeCriterionText (text : string) : string :=
  let out := (fun line => Join (Fields line) " ") <$> Split text newline in
  TrimSpace (Join out " ").

Definition digestString (s : string) : string := "sha256:" ++ sha256_hex s.

Definition set_digest (issue : SourceIssue) (criteria : list Criterion) : string :=
  let h := ToLower (Canonical issue) ++ "#" ++ Itoa (Number issue) ++ nl ++
           Join ((fun c => Digest c ++ nl) <$> criteria) "" in
  "sha256:" ++ sha256_hex h.

Definition canonicalIssuePattern : re :=
  RSeqs [RBegin; RGroup 1 r_repo_name; RChar "/"; RGroup 2 r_repo_name; RChar "#"; RGroup 3 (RPlus r_digit); REnd].

(** [fmt.Sscanf(s, "%d", &n)] leaves [n] at zero when the digits overflow. *)
Definition sscanf_int (s : string) : Z := let '(v, ok) := Atoi s in if ok then v else 0.

Definition splitCanonical (source : string) : string * string * Z :=
  match FindStringSubmatch canonicalIssuePattern source with
  | None => ("", "", 0)
  | Some m => (group source 1 m, group source 2 m, sscanf_int (group source 3 m))
  end.

(** ** Extraction *)

(** The scanner's state; [raw] holds the bullets latest first. *)
Record scan := { inSection : bool; seenSection : bool; raw : list string }.

Definition starts_indented (line : string) : bool :=
  match line with String c _ => Ascii.eqb c " " || Ascii.eqb c (chr 9) | "" => false end.

(** One iteration of the line loop; [None] is the ambiguous-section error. *)
Definition scan_line (st : scan) (line : string) : option scan :=
  let trimmed := TrimSpace line in
  if isHeadingLine trimmed then
    if isAcceptanceHeading trimmed then
      if seenSection st then None
      else Some {| inSection := true; seenSection := true; raw := raw st |}
    else Some {| inSection := false; seenSection := seenSection st; raw := raw st |}
  else if negb (inSection st) then Some st
  else if String.eqb trimmed "" then Some st
  else
    let indented := starts_indented line in
    if negb indented && isTopLevelBullet trimmed then
      let text := stripCheckboxMarker (stripBulletMarker trimmed) in
      Some {| inSection := inSection st; seenSection := seenSection st; raw := text :: raw st |}
    else
      match raw st with
      | last :: earlier =>
          if indented then
            let continuation := stripCheckboxMarker (stripBulletMarker trimmed) in
            Some {| inSection := inSection st; seenSection := seenSection st;
                    raw := (last ++ nl ++ continuation) :: earlier |}
          else Some st
      | [] => Some st
      end.

Fixpoint scan_lines (st : scan) (lines : list string) : option scan :=
  match lines with
  | [] => Some st
  | l :: rest => match scan_line st l with Some st' => scan_lines st' rest | None => None end
  end.

(** The numbering loop from ordinal [i]. *)
Fixpoint number_criteria (i : Z) (texts : list string) : result string (list Criterion) :=
  match texts with
  | [] => Ok []
  | text :: rest =>
      let normalized := normalizeCriterionText text in
      if MaxCriterionTextBytes <? slen normalized then
        Err ("criteria extraction: criterion AC-" ++ Itoa i ++ " exceeds the " ++
             Itoa MaxCriterionTextBytes ++ "-byte text bound")
      else
        cs ← number_criteria (i + 1) rest;
        Ok ({| ID := "AC-" ++ Itoa i; Text := normalized; Digest := digestString normalized |} :: cs)
  end.

Definition ExtractCriteria (issueBody : string) (issue : SourceIssue) : result string CriterionSet :=
  if IsZero issue then Err "criteria extraction: trusted source issue identity is unset" else
  let lines := Split (ReplaceAll issueBody (str1 13 ++ nl) nl) newline in
  match scan_lines {| inSection := false; seenSection := false; raw := [] |} lines with
  | None => Err "criteria extraction: issue body carries more than one Acceptance section; the criterion set is ambiguous"
  | Some st =>
      let texts := rev (raw st) in
      match texts with
      | [] => Ok {| Issue := issue; Criteria := []; set_Digest := set_digest issue [] |}
      | _ =>
          if MaxCriteria <? Z.of_nat (length texts) then
            Err ("criteria extraction: issue carries " ++ Itoa (Z.of_nat (length texts)) ++
                 " acceptance criteria; the bound is " ++ Itoa MaxCriteria ++
                 " and an over-bound set is never truncated")
          else
            cs ← number_criteria 1 texts;
            Ok {| Issue := issue; Criteria := cs; set_Digest := set_digest issue cs |}
      end
  end.

(** ** The evidence block *)

(** The row loop over the lines after the header; [records] grows at its end. *)
Fixpoint parse_rows (lines : list string) (records : list CriterionRecord) :
    result string (list CriterionRecord) :=
  match lines with
  | [] => Ok records
  | line :: rest =>
      let next := TrimRight line (" " ++ str1 9) in
      if String.eqb (TrimSpace next) "" then parse_rows rest records else
      match FindStringSubmatch RowPattern next with
      | None =>
          if HasPrefix (TrimSpace next) "- AC-" then
            Err ("publication denied: criterion-evidence block contains a malformed row: " ++ truncateForRowEcho next)
          else Ok records
      | Some rm =>
          if MaxBlockRows <=? Z.of_nat (length records) then
            Err ("publication denied: criterion-evidence block exceeds the " ++ Itoa MaxBlockRows ++ "-row bound") else
          let reference := TrimSpace (group next 4 rm) in
          if MaxReferenceBytes <? slen reference then
            Err ("publication denied: criterion AC-" ++ group next 1 rm ++ " evidence reference exceeds the " ++
                 Itoa MaxReferenceBytes ++ "-byte bound") else
          parse_rows rest (records ++
            [{| rec_ID := "AC-" ++ group next 1 rm; rec_Digest := "sha256:" ++ group next 2 rm;
                rec_Status := group next 3 rm; rec_Reference := reference |}])%list
      end
  end.

(** The header loop; [report] is the block found so far. *)
Fixpoint parse_block (lines : list string) (report : option CriteriaReport) :
    result string (option CriteriaReport) :=
  match lines with
  | [] => Ok report
  | line :: rest =>
      let trimmedRight := TrimRight line (" " ++ str1 9) in
      match FindStringSubmatch HeaderPattern trimmedRight with
      | None => parse_block rest report
      | Some m =>
          match report with
          | Some _ => Err "publication denied: pull request body carries more than one criterion-evidence block header"
          | None =>
              records ← parse_rows rest [];
              parse_block rest (Some
                {| Source := group trimmedRight 1 m ++ "/" ++ group trimmedRight 2 m ++ "#" ++ group trimmedRight 3 m;
                   SetDigest := "sha256:" ++ group trimmedRight 4 m;
                   Coverage := group trimmedRight 5 m;
                   Records := records |})
          end
      end
  end.

Definition parseEvidenceBlock (body : string) : result string (option CriteriaReport) :=
  parse_block (Split (ReplaceAll body (str1 13 ++ nl) nl) newline) None.

(** How many rows carry the ID (the [seen] map). *)
Definition seen_count (r : CriteriaReport) (id : string) : nat :=
  length (List.filter (fun rec => String.eqb (rec_ID rec) id) (Records r)).

Definition describeCriteriaFailure (e : CriteriaError) : string :=
  if negb (String.eqb (crit_Reason e) "") then crit_Reason e else
  let part (l : list string) (pre post : string) : list string :=
    match l with [] => [] | _ => [pre ++ Join l ", " ++ post] end in
  let parts := (part (Missing e) "criterion evidence missing for " "" ++
    part (Unknown e) "rows name criteria that are not pinned (" "); the model cannot add criteria" ++
    part (Duplicate e) "duplicate rows for " "" ++
    part (BadDigest e) "rows pin different criterion text for " "" ++
    part (BadStatus e) "status/reference shape violated for " (" (" +:+ StatusReferenceRuleSentence +:+ ")") ++
    (if String.eqb (CoverageClaim e) "" then [] else
       ["coverage claimed " +:+ CoverageClaim e +:+ " but the records derive " +:+ CoverageDerived e]))%list in
  match parts with [] => "" | _ => "publication denied: " ++ Join parts "; " end.

(** The violation lists, sorted as [describeCriteriaFailure] leaves them. *)
Definition collect_violations (report : CriteriaReport) (set : CriterionSet) : CriteriaError :=
  let ids := rec_ID <$> Records report in
  let derived := DerivedCoverage report set in
  let agrees := String.eqb (Coverage report) derived in
  {| crit_Reason := "";
     Missing := sort_strings (ID <$> List.filter (fun c => Nat.eqb (seen_count report (ID c)) 0) (Criteria set));
     Unknown := sort_strings (List.filter (fun id => match find_criterion set id with None => true | Some _ => false end) ids);
     Duplicate := sort_strings (List.filter (fun id => Nat.ltb 1 (seen_count report id)) (remove_dups ids));
     BadDigest := sort_strings (ID <$> List.filter (fun c => Nat.eqb (seen_count report (ID c)) 1 &&
                     match findRecord report (ID c) with Some rec => negb (String.eqb (rec_Digest rec) (Digest c)) | None => false end)
                     (Criteria set));
     BadStatus := sort_strings (rec_ID <$> List.filter (fun rec => negb (validRecordShape rec)) (Records report));
     CoverageClaim := if agrees then "" else Coverage report;
     CoverageDerived := if agrees then "" else derived;
     block_missing := false |}.

Definition with_reason (e : CriteriaError) (reason : string) : CriteriaError :=
  {| crit_Reason := reason; Missing := Missing e; Unknown := Unknown e; Duplicate := Duplicate e;
     BadDigest := BadDigest e; BadStatus := BadStatus e; CoverageClaim := CoverageClaim e;
     CoverageDerived := CoverageDerived e; block_missing := block_missing e |}.

(** The report and the error, either of which may be nil. *)
Definition ValidateCriterionEvidence (prBody : string) (set : CriterionSet) :
    option CriteriaReport * option criteria_error :=
  if IsZero (Issue set) then
    (None, Some (CPlain "publication denied: trusted source issue identity is unset; cannot enforce criterion evidence")) else
  if IsEmpty set then (None, None) else
  match parseEvidenceBlock prBody with
  | Err msg => (None, Some (CCriteria (reason_only msg false)))
  | Ok None =>
      (None, Some (CCriteria (reason_only
        (ErrCriteriaBlockMissing ++ " (issue " ++ ToLower (Canonical (Issue set)) ++ "#" ++
         Itoa (Number (Issue set)) ++ ", set " ++ set_Digest set ++ ")") true)))
  | Ok (Some report) =>
      let '(owner, name, number) := splitCanonical (Source report) in
      if negb (EqualFold owner (Owner (Issue set))) || negb (EqualFold name (Name (Issue set))) ||
         negb (number =? Number (Issue set)) then
        (Some report, Some (CCriteria (reason_only
          ("publication denied: criterion-evidence block names source " ++ Source report ++
           "; the trusted source issue is " ++ ToLower (Canonical (Issue set)) ++ "#" ++
           Itoa (Number (Issue set))) false)))
      else if negb (String.eqb (SetDigest report) (set_Digest set)) then
        (Some report, Some (CCriteria (reason_only
          ("publication denied: criterion-evidence block pins set " ++ SetDigest report ++
           "; the admitted criterion set is " ++ set_Digest set ++
           " — the block was authored against different criteria") false)))
      else
        let cerr := collect_violations report set in
        let reason := describeCriteriaFailure cerr in
        if negb (String.eqb reason "") then (Some report, Some (CCriteria (with_reason cerr reason)))
        else (Some report, None)
  end.

(** ** Lemmas *)

Lemma filter_nil_iff {A} (f : A -> bool) l : List.filter f l = [] <-> forall x, x ∈ l -> f x = false.
Proof.
  induction l as [|a l IH]; simpl; [split; [set_solver|done]|].
  destruct (f a) eqn:Hf; split; try done.
  - intros H. specialize (H a ltac:(left)). congruence.
  - rewrite IH. intros H x [->|?]%elem_of_cons; auto.
  - intros H. apply IH. intros x Hx. apply H. by right.
Qed.

Lemma seen_count_filter r id :
  seen_count r id = length (filter (.= id) (rec_ID <$> Records r)).
Proof.
  unfold seen_count. induction (Records r) as [|rec l IH]; [done|].
  rewrite fmap_cons, filter_cons. cbn [List.filter]. destruct (String.eqb_spec (rec_ID rec) id); case_decide; simpl; congruence.
Qed.

Lemma seen_count_pos r id : seen_count r id <> 0%nat <-> id ∈ rec_ID <$> Records r.
Proof.
  rewrite seen_count_filter. split.
  - destruct (filter _ _) as [|x l] eqn:H; [done|]. intros _.
    assert (Hx : x ∈ filter (.= id) (rec_ID <$> Records r)) by (rewrite H; left).
    apply list_elem_of_filter in Hx as [<- ?]. done.
  - intros Hid. assert (Hx : id ∈ filter (.= id) (rec_ID <$> Records r)) by by apply list_elem_of_filter.
    by destruct (filter _ _); [apply not_elem_of_nil in Hx|].
Qed.

Lemma find_criterion_none set id : find_criterion set id = None <-> id ∉ ID <$> Criteria set.
Proof.
  unfold find_criterion. induction (Criteria set) as [|c l IH]; simpl; [set_solver|].
  destruct (String.eqb_spec (ID c) id); [set_solver|]. rewrite IH. set_solver.
Qed.

(** A list in which no value occurs twice, by counting. *)
Lemma NoDup_counts (l : list string) :
  NoDup l <-> forall x, (length (filter (.= x) l) <= 1)%nat.
Proof.
  induction l as [|a l IH]; simpl; [split; [simpl; lia|by intros; apply NoDup_nil]|].
  rewrite NoDup_cons, IH. split.
  - intros [Ha Hl] x. rewrite filter_cons. case_decide as Hax; [|apply Hl]. subst x.
    simpl. destruct (filter (.= a) l) as [|y l'] eqn:H; [simpl; lia|].
    exfalso. apply Ha. assert (Hy : y ∈ filter (.= a) l) by (rewrite H; left).
    apply list_elem_of_filter in Hy as [<- ?]. done.
  - intros H. split.
    + intros Ha. specialize (H a). rewrite filter_cons_True in H by done. simpl in H.
      assert (Hx : a ∈ filter (.= a) l) by by apply list_elem_of_filter.
      destruct (filter (.= a) l); [by apply not_elem_of_nil in Hx|simpl in H; lia].
    + intros x. specialize (H x). rewrite filter_cons in H. case_decide; simpl in *; lia.
Qed.

Lemma findRecord_iff r id rec :
  NoDup (rec_ID <$> Records r) -> findRecord r id = Some rec <-> rec ∈ Records r /\ rec_ID rec = id.
Proof.
  unfold findRecord. induction (Records r) as [|a l IH]; [simpl; set_solver|].
  rewrite fmap_cons, NoDup_cons. cbn [List.find]. intros [Ha Hl]. destruct (String.eqb_spec (rec_ID a) id) as [<-|Hne].
  - split; [intros [= ->]; split; [left|done]|]. intros [[->|Hin]%elem_of_cons Hid]; [done|].
    exfalso. apply Ha. rewrite <- Hid. by apply list_elem_of_fmap_2.
  - rewrite (IH Hl). split; [intros [? ?]; split; [by right|done]|].
    intros [[->|?]%elem_of_cons ?]; done.
Qed.

Lemma describe_clean e :
  crit_Reason e = "" ->
  describeCriteriaFailure e = "" <->
  Missing e = [] /\ Unknown e = [] /\ Duplicate e = [] /\ BadDigest e = [] /\ BadStatus e = [] /\
  CoverageClaim e = "".
Proof.
  unfold describeCriteriaFailure. intros ->. simpl.
  destruct (Missing e), (Unknown e), (Duplicate e), (BadDigest e), (BadStatus e),
    (String.eqb_spec (CoverageClaim e) ""); simpl; split; try done; intuition done.
Qed.

(** What an admissible evidence block is, without the code's counting. *)
Record admissible (r : CriteriaReport) (set : CriterionSet) : Prop := {
  adm_nodup : NoDup (rec_ID <$> Records r);
  adm_ids : forall id, id ∈ rec_ID <$> Records r <-> id ∈ ID <$> Criteria set;
  adm_digest : forall rec c, rec ∈ Records r -> c ∈ Criteria set -> rec_ID rec = ID c -> rec_Digest rec = Digest c;
  adm_shape : forall rec, rec ∈ Records r -> validRecordShape rec = true;
  adm_coverage : Coverage r <> "" -> Coverage r = DerivedCoverage r set
}.

Lemma violations_ids r set :
  Missing (collect_violations r set) = [] /\ Unknown (collect_violations r set) = [] <->
  forall id, id ∈ rec_ID <$> Records r <-> id ∈ ID <$> Criteria set.
Proof.
  cbn [collect_violations Missing Unknown]. rewrite !sort_strings_nil, fmap_eq_nil, !filter_nil_iff. split.
  - intros [Hm Hu] id. split; intros Hid.
    + destruct (decide (id ∈ ID <$> Criteria set)) as [|Hn]; [done|].
      apply find_criterion_none in Hn. specialize (Hu id Hid). by rewrite Hn in Hu.
    + apply list_elem_of_fmap in Hid as (c & -> & Hc). apply seen_count_pos.
      specialize (Hm c Hc). by apply Nat.eqb_neq in Hm.
  - intros H. split.
    + intros c Hc. apply Nat.eqb_neq, seen_count_pos, H. by apply list_elem_of_fmap_2.
    + intros id Hid. destruct (find_criterion set id) eqn:Hf; [done|].
      apply find_criterion_none in Hf. by apply H in Hid.
Qed.

Lemma violations_duplicate r set :
  Duplicate (collect_violations r set) = [] <-> NoDup (rec_ID <$> Records r).
Proof.
  cbn [collect_violations Duplicate]. rewrite sort_strings_nil, filter_nil_iff, NoDup_counts.
  split; intros H id.
  - destruct (decide (id ∈ rec_ID <$> Records r)) as [Hid|Hid].
    + rewrite <- seen_count_filter. specialize (H id). rewrite elem_of_remove_dups in H.
      specialize (H Hid). apply Nat.ltb_ge in H. lia.
    + rewrite <- seen_count_filter. destruct (decide (seen_count r id = 0%nat)); [lia|].
      exfalso. by apply Hid, seen_count_pos.
  - intros _. apply Nat.ltb_ge. rewrite seen_count_filter. apply H.
Qed.

Lemma violations_digest r set :
  NoDup (rec_ID <$> Records r) ->
  BadDigest (collect_violations r set) = [] <->
  forall rec c, rec ∈ Records r -> c ∈ Criteria set -> rec_ID rec = ID c -> rec_Digest rec = Digest c.
Proof.
  intros Hnd. cbn [collect_violations BadDigest]. rewrite sort_strings_nil, fmap_eq_nil, filter_nil_iff. split.
  - intros H rec c Hrec Hc Hid. specialize (H c Hc).
    assert (Hf : findRecord r (ID c) = Some rec) by by apply findRecord_iff.
    rewrite Hf in H. apply andb_false_iff in H as [H|H].
    + exfalso. apply Nat.eqb_neq in H. apply H.
      assert (seen_count r (ID c) <> 0%nat)
        by (apply seen_count_pos; rewrite <- Hid; by apply list_elem_of_fmap_2).
      pose proof (proj1 (NoDup_counts _) Hnd (ID c)) as Hle. rewrite <- seen_count_filter in Hle. lia.
    + apply negb_false_iff, String.eqb_eq in H. done.
  - intros H c Hc. destruct (findRecord r (ID c)) as [rec|] eqn:Hf; [|apply andb_false_r].
    apply findRecord_iff in Hf as [? ?]; [|done]. rewrite (H rec c) by done.
    rewrite String.eqb_refl. apply andb_false_r.
Qed.

Lemma violations_admissible r set :
  describeCriteriaFailure (collect_violations r set) = "" <-> admissible r set.
Proof.
  rewrite describe_clean by done.
  pose proof (violations_ids r set) as Hids. pose proof (violations_duplicate r set) as Hdup.
  pose proof (violations_digest r set) as Hdig.
  assert (Hshape : BadStatus (collect_violations r set) = [] <->
    forall rec, rec ∈ Records r -> validRecordShape rec = true).
  { cbn [collect_violations BadStatus]. rewrite sort_strings_nil, fmap_eq_nil, filter_nil_iff.
    split; intros H rec Hr; [by apply negb_false_iff, H|by apply negb_false_iff, H]. }
  assert (Hcov : CoverageClaim (collect_violations r set) = "" <->
    (Coverage r <> "" -> Coverage r = DerivedCoverage r set)).
  { cbn [collect_violations CoverageClaim]. destruct (String.eqb_spec (Coverage r) (DerivedCoverage r set));
      split; try done. intros H. destruct (decide (Coverage r = "")); [done|]. by destruct n; auto. }
  rewrite Hshape, Hcov. split.
  - intros (? & ? & Hd & Hb & ? & ?). apply Hdup in Hd. split; [done|by apply Hids| |done|done].
    by apply Hdig.
  - intros [Hnd Hi Hg Hs Hc]. apply Hids in Hi as [? ?].
    split_and!; [done|done|by apply Hdup|by apply Hdig|done|done].
Qed.

Lemma derived_full r set :
  DerivedCoverage r set = CoverageFull <-> forall c, c ∈ Criteria set -> covers r c = true.
Proof.
  unfold DerivedCoverage. destruct (forallb _ _) eqn:H.
  - split; [|done]. intros _ c Hc. rewrite forallb_forall in H. apply H. by apply list_elem_of_In.
  - split; [done|]. intros Hc. exfalso. apply not_true_iff_false in H. apply H, forallb_forall.
    intros c Hin. apply Hc. by apply list_elem_of_In.
Qed.

(** The block's header names the trusted issue and pins the admitted set. *)
Definition header_pins (r : CriteriaReport) (set : CriterionSet) : Prop :=
  (let '(owner, name, number) := splitCanonical (Source r) in
   EqualFold owner (Owner (Issue set)) = true /\ EqualFold name (Name (Issue set)) = true /\
   number = Number (Issue set)) /\
  SetDigest r = set_Digest set.

Lemma validate_evidence_ok body set r :
  ValidateCriterionEvidence body set = (Some r, None) <->
  IsZero (Issue set) = false /\ IsEmpty set = false /\ parseEvidenceBlock body = Ok (Some r) /\
  header_pins r set /\ admissible r set.
Proof.
  unfold ValidateCriterionEvidence, header_pins.
  destruct (IsZero (Issue set)); [split; [done|intuition done]|].
  destruct (IsEmpty set); [split; [done|intuition done]|].
  destruct (parseEvidenceBlock body) as [[r0|]|msg]; [|split; [done|intuition done]..].
  destruct (splitCanonical (Source r0)) as [[owner name] number] eqn:Hsplit.
  destruct (EqualFold owner _) eqn:Ho; simpl; [|split; [done|]; intros (_ & _ & [= ->] & [H _] & _); rewrite Hsplit in H; destruct H; congruence].
  destruct (EqualFold name _) eqn:Hn; simpl; [|split; [done|]; intros (_ & _ & [= ->] & [H _] & _); rewrite Hsplit in H; destruct H as (_ & ? & _); congruence].
  destruct (Z.eqb_spec number (Number (Issue set))) as [->|Hnum]; simpl;
    [|split; [done|]; intros (_ & _ & [= ->] & [H _] & _); rewrite Hsplit in H; destruct H as (_ & _ & ?); congruence].
  destruct (String.eqb_spec (SetDigest r0) (set_Digest set)) as [Hd|Hd]; simpl;
    [|split; [done|intros (_ & _ & [= ->] & [_ ?] & _); congruence]].
  destruct (String.eqb_spec (describeCriteriaFailure (collect_violations r0 set)) "") as [Hdesc|Hdesc]; simpl.
  - apply violations_admissible in Hdesc. split.
    + intros [= <-]. rewrite Hsplit. auto 10.
    + by intros (_ & _ & [= ->] & _).
  - split; [done|]. intros (_ & _ & [= ->] & _ & Ha). by apply violations_admissible in Ha.
Qed.

(** *** Extraction *)

(** The criteria carry the ordinals from [i] on, in order. *)
Fixpoint numbered (i : Z) (cs : list Criterion) : Prop :=
  match cs with
  | [] => True
  | c :: rest => ID c = "AC-" ++ Itoa i /\ slen (Text c) <= MaxCriterionTextBytes /\
                 Digest c = digestString (Text c) /\ numbered (i + 1) rest
  end.

Lemma number_criteria_ok i texts cs :
  number_criteria i texts = Ok cs ->
  numbered i cs /\ Text <$> cs = normalizeCriterionText <$> texts.
Proof.
  revert i cs. induction texts as [|t texts IH]; intros i cs; simpl; [by intros [= <-]|].
  destruct (Z.ltb_spec MaxCriterionTextBytes (slen (normalizeCriterionText t))); [done|].
  destruct (number_criteria (i + 1) texts) as [cs'|] eqn:Hn; simpl; [|done].
  intros [= <-]. destruct (IH _ _ Hn) as [? Ht]. simpl. split; [auto|]. f_equal. exact Ht.
Qed.

Lemma numbered_id i cs c : numbered i cs -> c ∈ cs -> exists k, i <= k /\ ID c = "AC-" ++ Itoa k.
Proof.
  revert i. induction cs as [|d cs IH]; intros i Hn Hc; [by apply not_elem_of_nil in Hc|].
  destruct Hn as (Hid & _ & _ & Hn). apply elem_of_cons in Hc as [->|Hc].
  - exists i. split; [lia|done].
  - destruct (IH _ Hn Hc) as (k & ? & ?). exists k. split; [lia|done].
Qed.

Lemma numbered_nodup i cs : 0 <= i -> numbered i cs -> NoDup (ID <$> cs).
Proof.
  revert i. induction cs as [|c cs IH]; intros i Hi Hn; [apply NoDup_nil; exact I|].
  destruct Hn as (Hid & _ & _ & Hn). rewrite fmap_cons. apply NoDup_cons. split; [|apply (IH (i + 1)); auto with lia].
  intros (d & Heq & Hd)%list_elem_of_fmap. destruct (numbered_id _ _ _ Hn Hd) as (k & Hk & Hdk).
  rewrite Hid, Hdk in Heq. apply (sapp_inj_l "AC-") in Heq. apply Itoa_inj in Heq; lia.
Qed.

(** The lines that open an Acceptance section. *)
Definition opens_section (line : string) : bool :=
  isHeadingLine (TrimSpace line) && isAcceptanceHeading (TrimSpace line).

Definition sections (lines : list string) : nat := length (List.filter opens_section lines).

Lemma scan_line_section st line :
  match scan_line st line with
  | None => seenSection st = true /\ opens_section line = true
  | Some st' => seenSection st' = seenSection st || opens_section line /\
                (seenSection st = true -> opens_section line = false)
  end.
Proof.
  unfold scan_line, opens_section. destruct (isHeadingLine _), (isAcceptanceHeading _), (seenSection st) eqn:Hs; simpl; auto;
    repeat (case_match; simpl); simplify_eq/=; try (split; congruence).
Qed.

(** The scan is refused exactly when a second Acceptance section opens. *)
Lemma scan_lines_ambiguous st lines :
  scan_lines st lines = None <->
  (2 <= (if seenSection st then 1 else 0) + sections lines)%nat.
Proof.
  revert st. induction lines as [|l lines IH]; intros st; simpl.
  { unfold sections. simpl. destruct (seenSection st); split; [done|lia|done|lia]. }
  unfold sections in *. cbn [List.filter]. pose proof (scan_line_section st l) as Hl.
  destruct (scan_line st l) as [st'|].
  - destruct Hl as [Hs Hn]. rewrite IH, Hs. destruct (seenSection st), (opens_section l); simpl; try lia; by specialize (Hn eq_refl).
  - destruct Hl as [-> ->]. simpl. split; [lia|done].
Qed.

Definition body_lines (body : string) : list string :=
  Split (ReplaceAll body (str1 13 ++ nl) nl) newline.

(** ** Properties *)


(** Full coverage cannot be claimed without evidence: an accepted block
    that says "full" holds, for every pinned criterion, a regression-check row
    with the pinned digest whose reference contains a file path or URL. *)
Theorem criteria_full_coverage_honest (body : string) (set : CriterionSet) (r : CriteriaReport)
    (Hok : ValidateCriterionEvidence body set = (Some r, None)) (Hfull : Coverage r = CoverageFull) :
  forall c, c ∈ Criteria set ->
    exists rec, rec ∈ Records r /\ rec_ID rec = ID c /\ rec_Digest rec = Digest c /\
      rec_Status rec = StatusRegressionCheck /\ occurs ReferenceWithLocation (rec_Reference rec).
Proof.
  apply validate_evidence_ok in Hok as (_ & _ & _ & _ & Ha). intros c Hc.
  pose proof (adm_coverage _ _ Ha) as Hcov. rewrite Hfull in Hcov. specialize (Hcov ltac:(done)).
  symmetry in Hcov. pose proof (proj1 (derived_full r set) Hcov c Hc) as Hcv. unfold covers in Hcv.
  destruct (findRecord r (ID c)) as [rec|] eqn:Hf; [|done].
  apply findRecord_iff in Hf as [Hin Hid]; [|apply Ha]. apply andb_true_iff in Hcv as [Hs Hm].
  exists rec. split_and!; [done|done|by eapply adm_digest|by apply String.eqb_eq|by apply MatchString_spec].
Qed.

(** The pinned set is bounded and unambiguous: when extraction succeeds the
    body has at most one Acceptance section, there are at most 32 criteria,
    numbered AC-1, AC-2, ... without repetition, each at most 512 bytes long
    and digested from its own text, and the set digest covers all of them. *)
Theorem extract_criteria_sound (body : string) (issue : SourceIssue) (set : CriterionSet)
    (Hok : ExtractCriteria body issue = Ok set) :
  Issue set = issue /\ (sections (body_lines body) <= 1)%nat /\
  Z.of_nat (length (Criteria set)) <= MaxCriteria /\ numbered 1 (Criteria set) /\
  NoDup (ID <$> Criteria set) /\ set_Digest set = set_digest issue (Criteria set).
Proof.
  unfold ExtractCriteria in Hok. destruct (IsZero issue); [done|].
  fold (body_lines body) in Hok.
  pose proof (scan_lines_ambiguous {| inSection := false; seenSection := false; raw := [] |} (body_lines body)) as Hamb.
  destruct (scan_lines _ (body_lines body)) as [st|]; [|done].
  assert (Hsec : (sections (body_lines body) <= 1)%nat).
  { destruct (decide (sections (body_lines body) <= 1)%nat); [done|]. exfalso.
    destruct Hamb as [_ Hamb]. discriminate Hamb. simpl. lia. }
  destruct (rev (raw st)) as [|t ts] eqn:Hr.
  { injection Hok as <-. simpl. split_and!; [done|done|done|done|by apply NoDup_nil|done]. }
  destruct (Z.ltb_spec MaxCriteria (Z.of_nat (length (t :: ts)))) as [|Hlen]; [done|].
  destruct (number_criteria 1 (t :: ts)) as [cs|] eqn:Hn; [|done]. cbn in Hok. injection Hok as <-. simpl.
  destruct (number_criteria_ok _ _ _ Hn) as [Hnum Htext].
  apply (f_equal length) in Htext. rewrite !length_fmap in Htext. rewrite Htext.
  split_and!; auto. by apply (numbered_nodup 1).
Qed.

(** ** Witnesses *)

Definition example_issue_body : string :=
  "Intro" ++ nl ++ "## Acceptance" ++ nl ++ "- [ ] parses  the file" ++ nl ++ "- rejects junk" ++ nl ++
  "  and says why" ++ nl ++ "## Notes" ++ nl ++ "- not a criterion".

Definition example_set : CriterionSet :=
  match ExtractCriteria example_issue_body example_issue with
  | Ok s => s
  | Err _ => {| Issue := example_issue; Criteria := []; set_Digest := "" |}
  end.

Definition example_pr_body : string :=
  "Closes #12" ++ nl ++ "courier-criteria:v1 source=misospace/courier#12 set=" ++ set_Digest example_set ++
  " coverage=full" ++ nl ++
  "- AC-1 " ++ digestString "parses the file" ++ ": regression-check - internal/parse_test.go" ++ nl ++
  "- AC-2 " ++ digestString "rejects junk and says why" ++ ": regression-check - https://ci.example/run/7" ++ nl.

Definition example_report : CriteriaReport :=
  match ValidateCriterionEvidence example_pr_body example_set with
  | (Some r, _) => r
  | (None, _) => {| Source := ""; SetDigest := ""; Coverage := ""; Records := [] |}
  end.

Lemma criteria_full_coverage_honest_witness :
  exists rec, rec ∈ Records example_report /\ rec_ID rec = "AC-2".
Proof.
  assert (Hv : ValidateCriterionEvidence example_pr_body example_set = (Some example_report, None))
    by (vm_compute; reflexivity).
  assert (Hf : Coverage example_report = CoverageFull) by (vm_compute; reflexivity).
  assert (Hc : exists c, c ∈ Criteria example_set /\ ID c = "AC-2").
  { eexists. split; [|shelve]. apply (list_elem_of_lookup_2 _ 1). vm_compute. reflexivity.
    Unshelve. vm_compute. reflexivity. }
  destruct Hc as (c & Hc & Hid).
  destruct (criteria_full_coverage_honest _ _ _ Hv Hf c Hc) as (rec & Hrec & Hrid & _).
  exists rec. split; [exact Hrec|]. rewrite Hrid. exact Hid.
Defined.

Lemma extract_criteria_sound_witness :
  ExtractCriteria example_issue_body example_issue = Ok example_set /\ numbered 1 (Criteria example_set).
Proof.
  assert (H : ExtractCriteria example_issue_body example_issue = Ok example_set)
    by (vm_compute; reflexivity).
  split; [exact H|]. apply (extract_criteria_sound _ _ _ H).
Defined.

