(* ===== verification/Policy.v ===== *)
(** * The publication policy engine (internal/broker/policy.go)

    The broker's trust boundary: it decides whether a proposed commit may be
    pushed and a pull request opened or updated, by observing the forge,
    checking the run's pinned policy, pushing once and observing again.

    The observer, the pusher and the snapshotter are interfaces whose
    implementations sit behind the forge; every call is a request of
    [brokerE], answered arbitrarily by the environment.  The engine's mutable
    state is [confirmed]; each operation returns the engine it leaves. *)

From S2P Require Import Prelude Effects GoStrings Regex Linkage Criteria.
Local Open Scope string_scope.
Local Open Scope Z_scope.

(** ** Data *)

(** [Mode] is a string type. *)
Definition ModeResolveIssue : string := "resolve-issue".
Definition ModeFixPR : string := "fix-pr".
Definition ModeContribute : string := "contribute".

Record Policy := {
  RunUID : string;
  pol_Mode : string;
  Provider : string;
  BaseRepo : string;
  BaseRef : string;
  BaseOID : string;
  WorkRepo : string;
  WorkRef : string;
  WorkInitiallyAbsent : bool;
  WorkAnchorOID : string;
  PRNumber : Z;
  HeadAnchorOID : string;
  pol_SourceIssue : SourceIssue;
  AllowClosingLinkage : bool;
  pol_Criteria : CriterionSet
}.

Record RepositoryState := {
  rs_Repo : string;
  rs_Ref : string;
  Exists : bool;
  rs_OID : string;
  Default : bool;
  Protected : bool;
  ProtectionKnown : bool;
  Writable : bool;
  WriteKnown : bool
}.

Record PullRequestState := {
  pr_Number : Z;
  pr_State : string;
  pr_BaseRepo : string;
  pr_BaseRef : string;
  pr_BaseOID : string;
  pr_HeadRepo : string;
  pr_HeadRef : string;
  pr_HeadOID : string;
  pr_Title : string;
  pr_Body : string;
  pr_Draft : bool
}.

Record CreateRequest := {
  cr_BaseRepo : string; cr_BaseRef : string; cr_HeadRepo : string; cr_HeadRef : string;
  cr_Title : string; cr_Body : string; cr_Draft : bool
}.

Record UpdateRequest := { up_Title : string; up_Body : string; up_Draft : option bool }.

Record PublicationRequest := {
  req_RunUID : string;
  ExpectedWorkOID : string;
  ProposedOID : string
}.

Record PublicationResult := { res_OID : string; AlreadyPublished : bool }.

Record SnapshotRequest := {
  sn_WorkRepo : string; sn_WorkRef : string; sn_WorkOID : string; sn_WorkExists : bool;
  sn_BaseRepo : string; sn_BaseRef : string; sn_BaseOID : string
}.

Inductive snapshot_error := ErrSnapshotTipMoved | SnapshotFailed (msg : string).

Record EngineSnapshot := {
  Tip : string; BaseTip : string; WorkRefExists : bool; AtAnchor : bool; Data : list Z
}.

(** ** Requests to the forge

    [Observer], [Pusher] and [Snapshotter], one constructor per method. *)
Inductive brokerE : Type -> Type :=
| Repository (repo ref : string) : brokerE (result string RepositoryState)
| PullRequest (number : Z) : brokerE (result string PullRequestState)
| FindPullRequest (repo ref : string) : brokerE (result string (list PullRequestState))
| CreatePR (req : CreateRequest) : brokerE (result string Z)
| UpdatePR (number : Z) (req : UpdateRequest) : brokerE (result string unit)
| IsAncestor (repo ancestor descendant : string) : brokerE (result string bool)
| Push (repo ref oid : string) : brokerE (result string unit)
| Snapshot (req : SnapshotRequest) : brokerE (result snapshot_error (list Z)).

(** ** The engine *)

Record PolicyEngine := {
  policy : Policy;
  snapshotter : bool;        (* whether the optional snapshotter is wired *)
  confirmed : string
}.

Definition set_confirmed (e : PolicyEngine) (oid : string) : PolicyEngine :=
  {| policy := policy e; snapshotter := snapshotter e; confirmed := oid |}.

Definition has_rows (s : CriterionSet) : bool := negb (IsEmpty s).

Definition is_mode (p : Policy) (m : string) : bool := String.eqb (pol_Mode p) m.

(** Error texts are the source's; the [%q] operands of two of them are left
    out.  The criterion pin rule shared by the two modes that carry one: [named] says
    the pinned set names the policy's trusted issue. *)
Definition validate_pin (p : Policy) (named : bool) : result string unit :=
  if IsPinned (pol_Criteria p) then
    if negb named then
      Err "publication policy: pinned criterion set does not name the policy's trusted source issue"
    else Ok tt
  else if negb (IsZero (Issue (pol_Criteria p))) || has_rows (pol_Criteria p) then
    Err "publication policy: criterion set carries an identity or rows without a set digest"
  else Ok tt.

Definition same_issue (a b : SourceIssue) : bool := bool_decide (a = b).

Definition validate_resolve_issue (p : Policy) : result string unit :=
  if negb (PRNumber p =? 0) || negb (String.eqb (HeadAnchorOID p) "") ||
     (negb (WorkInitiallyAbsent p) && String.eqb (WorkAnchorOID p) "") then
    Err "publication policy: invalid resolve-issue anchors" else
  if IsZero (pol_SourceIssue p) then
    Err "publication policy: resolve-issue requires a trusted source-issue identity for PR linkage" else
  if Number (pol_SourceIssue p) <=? 0 then
    Err "publication policy: resolve-issue source-issue number must be positive" else
  if negb (String.eqb (Canonical (pol_SourceIssue p)) (BaseRepo p)) then
    Err "publication policy: resolve-issue source-issue repository does not match base repository" else
  validate_pin p (negb (IsZero (Issue (pol_Criteria p))) &&
                  same_issue (Issue (pol_Criteria p)) (pol_SourceIssue p)).

Definition validate_fix_pr (p : Policy) : result string unit :=
  if (PRNumber p <=? 0) || String.eqb (HeadAnchorOID p) "" || WorkInitiallyAbsent p ||
     negb (String.eqb (WorkAnchorOID p) (HeadAnchorOID p)) then
    Err "publication policy: fix-pr requires an exact PR head anchor" else
  if IsPinned (pol_Criteria p) || negb (IsZero (Issue (pol_Criteria p))) || has_rows (pol_Criteria p) then
    Err "publication policy: fix-pr policies carry no criterion contract" else
  Ok tt.

Definition validate_contribute (p : Policy) : result string unit :=
  if negb (PRNumber p =? 0) || negb (String.eqb (HeadAnchorOID p) "") then
    Err "publication policy: contribute carries fix-pr anchors" else
  if String.eqb (WorkRepo p) (BaseRepo p) then
    Err "publication policy: contribute requires a head repository distinct from the base" else
  if (WorkInitiallyAbsent p && negb (String.eqb (WorkAnchorOID p) "")) ||
     (negb (WorkInitiallyAbsent p) && String.eqb (WorkAnchorOID p) "") then
    Err "publication policy: contribute has inconsistent initial work tip" else
  if negb (IsZero (pol_SourceIssue p)) && (Number (pol_SourceIssue p) <=? 0) then
    Err "publication policy: contribute source-issue number must be positive" else
  if negb (IsZero (pol_SourceIssue p)) && negb (String.eqb (Canonical (pol_SourceIssue p)) (BaseRepo p)) then
    Err "publication policy: contribute source-issue repository does not match base repository" else
  if AllowClosingLinkage p && IsZero (pol_SourceIssue p) then
    Err "publication policy: closing linkage requires a trusted source-issue identity" else
  validate_pin p (negb (IsZero (pol_SourceIssue p)) &&
                  same_issue (Issue (pol_Criteria p)) (pol_SourceIssue p)).

Definition validatePolicy (p : Policy) : result string unit :=
  if String.eqb (RunUID p) "" || String.eqb (Provider p) "" || String.eqb (BaseRepo p) "" ||
     String.eqb (BaseRef p) "" || String.eqb (BaseOID p) "" || String.eqb (WorkRepo p) "" ||
     String.eqb (WorkRef p) "" then
    Err "publication policy: run UID, provider, repositories, refs, and base OID are required" else
  if String.eqb (BaseRepo p) (WorkRepo p) && String.eqb (BaseRef p) (WorkRef p) then
    Err "publication policy: base ref cannot also be the publication destination" else
  if is_mode p ModeResolveIssue then validate_resolve_issue p else
  if is_mode p ModeFixPR then validate_fix_pr p else
  if is_mode p ModeContribute then validate_contribute p else
  Err "publication policy: unsupported mode".

(** The observer and the pusher are non-nil values here. *)
Definition newPolicyEngine (p : Policy) (withSnapshotter : bool) : result string PolicyEngine :=
  _ ← validatePolicy p;
  Ok {| policy := p; snapshotter := withSnapshotter; confirmed := "" |}.

(** ** Checks *)

Definition checkBase (p : Policy) (s : RepositoryState) : result string unit :=
  if negb (String.eqb (rs_Repo s) (BaseRepo p)) || negb (String.eqb (rs_Ref s) (BaseRef p)) ||
     negb (Exists s) || String.eqb (rs_OID s) "" then
    Err "publication denied: pinned base identity or ref is missing or changed"
  else Ok tt.

Definition checkDestination (p : Policy) (s : RepositoryState) : result string unit :=
  if negb (String.eqb (rs_Repo s) (WorkRepo p)) || negb (String.eqb (rs_Ref s) (WorkRef p)) then
    Err "publication denied: observer returned a different work repository or ref" else
  if negb (ProtectionKnown s) || negb (WriteKnown s) then
    Err "publication denied: work protection or write permission is unknown" else
  if Default s || Protected s then
    Err "publication denied: work ref is default or protected" else
  if negb (Writable s) then
    Err "publication denied: broker cannot write pinned work repository" else
  if negb (Exists s) && negb (WorkInitiallyAbsent p) then
    Err "publication denied: admitted work ref was deleted" else
  if Exists s && String.eqb (rs_OID s) "" then
    Err "publication denied: work ref has no observed OID" else
  Ok tt.

Definition pr_identity (p : Policy) (pr : PullRequestState) : bool :=
  (pr_Number pr =? PRNumber p) && String.eqb (pr_BaseRepo pr) (BaseRepo p) &&
  String.eqb (pr_BaseRef pr) (BaseRef p) && String.eqb (pr_HeadRepo pr) (WorkRepo p) &&
  String.eqb (pr_HeadRef pr) (WorkRef p).

Definition checkPR (e : PolicyEngine) (pr : option PullRequestState) (workOID trustedTip : string) :
    result string unit :=
  let p := policy e in
  if negb (is_mode p ModeFixPR) then Ok tt else
  match pr with
  | None => Err "publication denied: live pull request base or full head identity changed"
  | Some pr =>
      if negb (pr_identity p pr) then
        Err "publication denied: live pull request base or full head identity changed" else
      if negb (String.eqb (pr_State pr) "open") then
        Err "publication denied: pinned pull request is not open" else
      if String.eqb workOID "" || negb (String.eqb (pr_HeadOID pr) workOID) then
        Err "publication denied: pull request head differs from exact live work tip" else
      if negb (String.eqb (confirmed e) (pr_HeadOID pr)) && negb (String.eqb trustedTip (pr_HeadOID pr)) &&
         negb (String.eqb (pr_HeadOID pr) (HeadAnchorOID p)) then
        Err "publication denied: pull request head is not an admitted or previously confirmed run tip" else
      Ok tt
  end.

Definition observation : Type := RepositoryState * RepositoryState * option PullRequestState.

Definition observe (p : Policy) : prog brokerE (result string observation) :=
  base ← call (Repository (BaseRepo p) (BaseRef p));
  match base with
  | Err _ => Ret (Err "observe pinned base failed")
  | Ok base =>
      work ← call (Repository (WorkRepo p) (WorkRef p));
      match work with
      | Err _ => Ret (Err "observe pinned work ref failed")
      | Ok work =>
          if is_mode p ModeFixPR then
            pr ← call (PullRequest (PRNumber p));
            match pr with
            | Err _ => Ret (Err "observe pinned pull request failed")
            | Ok pr => Ret (Ok (base, work, Some pr))
            end
          else Ret (Ok (base, work, None))
      end
  end.

(** ** Publish *)

Definition publication : Type := PolicyEngine * result string PublicationResult.

Definition deny (e : PolicyEngine) (msg : string) : prog brokerE publication := Ret (e, Err msg).

(** [if err != nil { return ..., err }] for a pure check. *)
Definition check {A} (e : PolicyEngine) (r : result string unit) (k : prog brokerE (PolicyEngine * result string A)) :
    prog brokerE (PolicyEngine * result string A) :=
  match r with Ok _ => k | Err m => Ret (e, Err m) end.

(** From the clearing of [confirmed] on: push, observe again, confirm.  [e] is
    the engine whose [confirmed] has been cleared. *)
Definition publish_push (e : PolicyEngine) (req : PublicationRequest) : prog brokerE publication :=
  let p := policy e in
  pushErr ← call (Push (WorkRepo p) (WorkRef p) (ProposedOID req));
  o ← observe p;
  match o with
  | Err _ => deny e "post-push observation failed; publication outcome is unconfirmed"
  | Ok (base, work, pr) =>
      match checkBase p base with
      | Err m => deny e ("post-push policy check: " ++ m)
      | Ok _ =>
          match checkDestination p work with
          | Err _ => deny e "post-push policy check failed"
          | Ok _ =>
              if negb (Exists work) || negb (String.eqb (rs_OID work) (ProposedOID req)) then
                match pushErr with
                | Err _ => deny e "push failed or was uncertain and exact proposed OID is not live"
                | Ok _ => deny e "publication denied: live work tip does not equal proposed OID"
                end
              else
              match checkPR e pr (rs_OID work) (ProposedOID req) with
              | Err _ => deny e "post-push PR identity check failed"
              | Ok _ =>
                  included ← call (IsAncestor (BaseRepo p) (rs_OID base) (ProposedOID req));
                  match included with
                  | Ok true => Ret (set_confirmed e (ProposedOID req),
                                    Ok {| res_OID := ProposedOID req; AlreadyPublished := negb (is_ok pushErr) |})
                  | _ => deny e "post-push proposed commit does not include the live base tip"
                  end
              end
          end
      end
  end.

(** The two ancestry questions that precede the push. *)
Definition publish_ancestry (e : PolicyEngine) (req : PublicationRequest) (base : RepositoryState) :
    prog brokerE publication :=
  let p := policy e in
  baseIncluded ← call (IsAncestor (BaseRepo p) (rs_OID base) (ProposedOID req));
  match baseIncluded with
  | Err _ => deny e "publication denied: live base ancestry capability failed"
  | Ok false => deny e "publication denied: proposed commit does not include the live base tip"
  | Ok true =>
      let ancestor := if String.eqb (ExpectedWorkOID req) "" then BaseOID p else ExpectedWorkOID req in
      ok ← call (IsAncestor (WorkRepo p) ancestor (ProposedOID req));
      match ok with
      | Err _ => deny e "publication denied: fast-forward ancestry capability failed"
      | Ok false => deny e "publication denied: proposed commit is not a fast-forward"
      | Ok true => publish_push (set_confirmed e "") req
      end
  end.

Definition publish_anchor (p : Policy) : string :=
  if is_mode p ModeFixPR then HeadAnchorOID p else WorkAnchorOID p.

(** The decision on the observed tip. *)
Definition publish_tip (e : PolicyEngine) (req : PublicationRequest)
    (base work : RepositoryState) (pr : option PullRequestState) : prog brokerE publication :=
  let p := policy e in
  if Exists work && negb (String.eqb (confirmed e) (rs_OID work)) &&
     negb (String.eqb (rs_OID work) (publish_anchor p)) then
    deny e "publication denied: live work tip is not an admitted or previously confirmed run tip" else
  if Exists work && String.eqb (rs_OID work) (ProposedOID req) then
    if negb (String.eqb (confirmed e) (rs_OID work)) then
      deny e "publication denied: exact live proposal lacks trusted run evidence" else
    if match pr with Some pr => negb (String.eqb (pr_HeadOID pr) (rs_OID work)) | None => false end then
      deny e "publication denied: pull request head differs from live work tip" else
    if negb (WorkInitiallyAbsent p) && String.eqb (rs_OID work) (WorkAnchorOID p) then
      deny e "publication denied: proposed OID is the admitted anchor, not a new publication" else
    Ret (set_confirmed e (rs_OID work), Ok {| res_OID := ProposedOID req; AlreadyPublished := true |})
  else if String.eqb (ExpectedWorkOID req) "" then
    if negb (WorkInitiallyAbsent p) || Exists work then
      deny e "publication denied: pinned work ref is no longer absent"
    else publish_ancestry e req base
  else if negb (Exists work) || negb (String.eqb (rs_OID work) (ExpectedWorkOID req)) then
    deny e "publication denied: live work tip differs from expected tip"
  else publish_ancestry e req base.

Definition Publish (e : PolicyEngine) (req : PublicationRequest) : prog brokerE publication :=
  let p := policy e in
  if String.eqb (req_RunUID req) "" || negb (String.eqb (req_RunUID req) (RunUID p)) then
    deny e "publication denied: run UID does not match bound policy" else
  if String.eqb (ProposedOID req) "" ||
     (String.eqb (ExpectedWorkOID req) "" && negb (WorkInitiallyAbsent p)) then
    deny e "publication denied: proposed OID and expected work tip are required" else
  o ← observe p;
  match o with
  | Err m => deny e m
  | Ok (base, work, pr) =>
      check e (checkBase p base) (
      check e (checkDestination p work) (
      check e (checkPR e pr (rs_OID work) "") (
      publish_tip e req base work pr)))
  end.

(** ** Pull requests *)

(** [CreatePullRequest] fails with a plain text or a wrapped contract error. *)
Inductive create_error :=
| CrPlain (msg : string)
| CrLinkage (prefix : string) (e : linkage_error)
| CrCriteria (prefix : string) (e : criteria_error).

Definition validateBodyLinkage (p : Policy) (body : string) : result linkage_error unit :=
  if is_mode p ModeContribute then ValidateContributeLinkage body (pol_SourceIssue p) (AllowClosingLinkage p)
  else ValidateLinkage body (pol_SourceIssue p).

Definition pullsForPinnedHead (p : Policy) (pulls : list PullRequestState) : list PullRequestState :=
  List.filter (fun c => String.eqb (pr_HeadRepo c) (WorkRepo p) && String.eqb (pr_HeadRef c) (WorkRef p)) pulls.

Definition matchesPR (p : Policy) (pr : PullRequestState) (oid : string) : bool :=
  (0 <? pr_Number pr) && String.eqb (pr_State pr) "open" && String.eqb (pr_BaseRepo pr) (BaseRepo p) &&
  String.eqb (pr_BaseRef pr) (BaseRef p) && String.eqb (pr_HeadRepo pr) (WorkRepo p) &&
  String.eqb (pr_HeadRef pr) (WorkRef p) && String.eqb (pr_HeadOID pr) oid.

(** The criterion half of the body contract: the report when a set is pinned. *)
Definition body_criteria (p : Policy) (body : string) : result criteria_error (option CriteriaReport) :=
  if IsPinned (pol_Criteria p) then
    match ValidateCriterionEvidence body (pol_Criteria p) with
    | (_, Some err) => Err err
    | (report, None) => Ok report
    end
  else Ok None.

Definition created : Type := result create_error (PullRequestState * option CriteriaReport).

Definition refuse (msg : string) : prog brokerE created := Ret (Err (CrPlain msg)).

(** The race recheck: every record at the pinned head must be the created one;
    [None] is a concurrent pull request, [Some found] the loop's flag. *)
Fixpoint recheck (p : Policy) (number : Z) (oid : string) (pulls : list PullRequestState) (found : bool) :
    option bool :=
  match pulls with
  | [] => Some found
  | c :: rest =>
      if (pr_Number c =? number) && matchesPR p c oid then recheck p number oid rest true else None
  end.

(** After the forge write: read back, re-observe both refs, recheck the race. *)
Definition create_verify (p : Policy) (oid : string) (number : Z) (report : option CriteriaReport) :
    prog brokerE created :=
  made ← call (PullRequest number);
  match made with
  | Err _ => refuse "verify created pull request failed"
  | Ok made =>
      liveBase ← call (Repository (BaseRepo p) (BaseRef p));
      match liveBase with
      | Ok lb =>
          if negb (is_ok (checkBase p lb)) then
            refuse "publication denied: pinned base changed while creating pull request" else
          liveWork ← call (Repository (WorkRepo p) (WorkRef p));
          match liveWork with
          | Ok lw =>
              if negb (is_ok (checkDestination p lw)) || negb (Exists lw) || negb (String.eqb (rs_OID lw) oid) then
                refuse "publication denied: pinned work tip changed while creating pull request" else
              if negb (matchesPR p made oid) then
                refuse "publication denied: created pull request identity or head differs from pinned policy" else
              pulls ← call (FindPullRequest (WorkRepo p) (WorkRef p));
              match pulls with
              | Err _ => refuse "recheck pull requests after create failed"
              | Ok pulls =>
                  match recheck p number oid (pullsForPinnedHead p pulls) false with
                  | None => refuse "publication denied: concurrent pull request exists for pinned head"
                  | Some false => refuse "publication denied: created pull request is absent from pinned head recheck"
                  | Some true => Ret (Ok (made, report))
                  end
              end
          | Err _ => refuse "publication denied: pinned work tip changed while creating pull request"
          end
      | Err _ => refuse "publication denied: pinned base changed while creating pull request"
      end
  end.

(** The adoption of the one discovered pull request. *)
Definition adopt (p : Policy) (oid : string) (existing : PullRequestState) : created :=
  if negb (matchesPR p existing oid) then
    Err (CrPlain "publication denied: an existing pull request for the pinned head does not match the pinned identity") else
  match validateBodyLinkage p (pr_Body existing) with
  | Err err => Err (CrLinkage "publication denied: discovered pull request body violates the pinned linkage contract: " err)
  | Ok _ =>
      match body_criteria p (pr_Body existing) with
      | Err err => Err (CrCriteria "publication denied: discovered pull request body violates the pinned criterion contract: " err)
      | Ok report => Ok (existing, report)
      end
  end.

Definition CreatePullRequest (e : PolicyEngine) (oid title body : string) (draft : bool) : prog brokerE created :=
  let p := policy e in
  if negb (is_mode p ModeResolveIssue) && negb (is_mode p ModeContribute) then
    refuse "publication denied: fix-pr cannot create or retarget a pull request" else
  match validateBodyLinkage p body with
  | Err err => Ret (Err (CrLinkage "publication denied: " err))
  | Ok _ =>
  match body_criteria p body with
  | Err err => Ret (Err (CrCriteria "" err))
  | Ok report =>
  o ← observe p;
  match o with
  | Err m => refuse m
  | Ok (base, work, _) =>
  match checkBase p base with
  | Err m => refuse m
  | Ok _ =>
  match checkDestination p work with
  | Err m => refuse m
  | Ok _ =>
  if negb (Exists work) || String.eqb oid "" || negb (String.eqb (rs_OID work) oid) then
    refuse "publication denied: proposed OID is not the exact live head" else
  pulls ← call (FindPullRequest (WorkRepo p) (WorkRef p));
  match pulls with
  | Err _ => refuse "check existing pull request failed"
  | Ok pulls =>
  match pullsForPinnedHead p pulls with
  | _ :: _ :: _ => refuse "publication denied: multiple pull requests claim the pinned head"
  | [existing] => Ret (adopt p oid existing)
  | [] =>
      if negb (String.eqb (confirmed e) oid) && negb (String.eqb oid (WorkAnchorOID p)) then
        refuse "publication denied: pull request head is not an admitted or previously confirmed run tip" else
      number ← call (CreatePR {| cr_BaseRepo := BaseRepo p; cr_BaseRef := BaseRef p; cr_HeadRepo := WorkRepo p;
                                 cr_HeadRef := WorkRef p; cr_Title := title; cr_Body := body; cr_Draft := draft |});
      match number with
      | Err _ => refuse "create pull request failed"
      | Ok number =>
          if number <=? 0 then refuse "publication denied: provider returned invalid pull request number"
          else create_verify p oid number report
      end
  end end end end end end end.

Definition UpdateFixPR (e : PolicyEngine) (update : UpdateRequest) : prog brokerE (result string unit) :=
  let p := policy e in
  let verify (o : observation) (tip : string) :=
    let '(base, work, pr) := o in
    (checkBase p base, checkDestination p work, checkPR e pr (rs_OID work) tip) in
  if negb (is_mode p ModeFixPR) then Ret (Err "publication denied: metadata update requires fix-pr policy") else
  if String.eqb (up_Title update) "" && String.eqb (up_Body update) "" &&
     match up_Draft update with None => true | Some _ => false end then
    Ret (Err "publication denied: empty pull request update") else
  o ← observe p;
  match o with
  | Err m => Ret (Err m)
  | Ok o =>
      match verify o (confirmed e) with
      | (Err m, _, _) => Ret (Err m)
      | (Ok _, Err m, _) => Ret (Err m)
      | (Ok _, Ok _, Err m) => Ret (Err m)
      | (Ok _, Ok _, Ok _) =>
          upd ← call (UpdatePR (PRNumber p) update);
          match upd with
          | Err _ => Ret (Err "update pinned pull request failed")
          | Ok _ =>
              live ← observe p;
              match live with
              | Err m => Ret (Err m)
              | Ok live =>
                  match verify live (confirmed e) with
                  | (Err _, _, _) => Ret (Err "post-update pinned base check failed")
                  | (Ok _, Err _, _) => Ret (Err "post-update work policy check failed")
                  | (Ok _, Ok _, Err _) => Ret (Err "post-update pull request identity check failed")
                  | (Ok _, Ok _, Ok _) => Ret (Ok tt)
                  end
              end
          end
      end
  end.

(** ** The control snapshot *)

Definition snapshotRenderRounds : nat := 3.

Definition snapshot_refused (m : string) : prog brokerE (option (result snapshot_error EngineSnapshot)) :=
  Ret (Some (Err (SnapshotFailed m))).

(** One iteration of the race-recovery loop: [None] is [continue]. *)
Definition snapshot_round (e : PolicyEngine) : prog brokerE (option (result snapshot_error EngineSnapshot)) :=
  let p := policy e in
  o ← observe p;
  match o with
  | Err _ => snapshot_refused "publication denied: observe pinned refs for snapshot failed"
  | Ok (base, work, _) =>
  match checkBase p base with
  | Err m => snapshot_refused m
  | Ok _ =>
  let workExists := Exists work in
  if workExists && (negb (String.eqb (rs_Repo work) (WorkRepo p)) || negb (String.eqb (rs_Ref work) (WorkRef p)) ||
                    String.eqb (rs_OID work) "") then
    snapshot_refused "publication denied: observer returned a different work repository or ref" else
  if negb workExists && negb (WorkInitiallyAbsent p) then
    snapshot_refused "publication denied: admitted work ref was deleted" else
  let tip := if workExists then rs_OID work else rs_OID base in
  data ← call (Snapshot {| sn_WorkRepo := WorkRepo p; sn_WorkRef := WorkRef p; sn_WorkOID := rs_OID work;
                           sn_WorkExists := workExists; sn_BaseRepo := BaseRepo p; sn_BaseRef := BaseRef p;
                           sn_BaseOID := rs_OID base |});
  match data with
  | Err ErrSnapshotTipMoved => Ret None
  | Err (SnapshotFailed m) => snapshot_refused m
  | Ok data =>
      Ret (Some (Ok {| Tip := tip; BaseTip := rs_OID base; WorkRefExists := workExists;
                       AtAnchor := workExists && String.eqb tip (WorkAnchorOID p); Data := data |}))
  end end end.

Fixpoint snapshot_rounds (e : PolicyEngine) (attempts : nat) : prog brokerE (result snapshot_error EngineSnapshot) :=
  match attempts with
  | O => Ret (Err ErrSnapshotTipMoved)
  | S n => r ← snapshot_round e;
           match r with Some out => Ret out | None => snapshot_rounds e n end
  end.

Definition SnapshotForControl (e : PolicyEngine) : prog brokerE (result snapshot_error EngineSnapshot) :=
  if negb (snapshotter e) then Ret (Err (SnapshotFailed "publication policy: snapshot capability is not configured"))
  else snapshot_rounds e snapshotRenderRounds.

#[global] Arguments observe : simpl never.

(** ** Traces *)

(** The push requests of a trace, in order. *)
Definition push_of (ev : event brokerE) : option (string * string * string) :=
  match ev_op ev with Push repo ref oid => Some (repo, ref, oid) | _ => None end.
Definition pushes (t : trace brokerE) : list (string * string * string) := omap push_of t.

(** The pull request writes of a trace. *)
Definition create_of (ev : event brokerE) : option CreateRequest :=
  match ev_op ev with CreatePR req => Some req | _ => None end.
Definition creates (t : trace brokerE) : list CreateRequest := omap create_of t.

Definition update_of (ev : event brokerE) : option (Z * UpdateRequest) :=
  match ev_op ev with UpdatePR n req => Some (n, req) | _ => None end.
Definition updates (t : trace brokerE) : list (Z * UpdateRequest) := omap update_of t.

Definition snapshot_of (ev : event brokerE) : option SnapshotRequest :=
  match ev_op ev with Snapshot req => Some req | _ => None end.
Definition snapshots (t : trace brokerE) : list SnapshotRequest := omap snapshot_of t.

(** A trace that only reads. *)
Definition reads_only (t : trace brokerE) : Prop := pushes t = [] /\ creates t = [] /\ updates t = [].

Lemma pushes_app t1 t2 : pushes (t1 ++ t2)%list = (pushes t1 ++ pushes t2)%list.
Proof. apply omap_app. Qed.

Lemma reads_only_app t1 t2 : reads_only t1 -> reads_only t2 -> reads_only (t1 ++ t2)%list.
Proof.
  intros (H1 & H2 & H3) (H1' & H2' & H3'). unfold reads_only, pushes, creates, updates in *.
  by rewrite !omap_app, H1, H2, H3, H1', H2', H3'.
Qed.

(** The events of a complete observation. *)
Definition obs_trace (p : Policy) (o : observation) : trace brokerE :=
  let '(base, work, pr) := o in
  (Ev (Repository (BaseRepo p) (BaseRef p)) (Ok base) ::
   Ev (Repository (WorkRepo p) (WorkRef p)) (Ok work) ::
   match pr with Some x => [Ev (PullRequest (PRNumber p)) (Ok x)] | None => [] end)%list.

Lemma obs_trace_reads p o : reads_only (obs_trace p o).
Proof. by destruct o as [[? ?] [?|]]. Qed.

Lemma wp_observe p Q :
  (forall t m, reads_only t -> Q t (Err m)) ->
  (forall o, Q (obs_trace p o) (Ok o)) ->
  wp (observe p) Q.
Proof.
  intros Herr Hok. unfold observe. cbn. intros [base|]; cbn; [|by apply Herr].
  intros [work|]; cbn; [|by apply Herr].
  destruct (is_mode p ModeFixPR); cbn; [|apply (Hok (base, work, None))].
  intros [pr|]; cbn; [apply (Hok (base, work, Some pr))|by apply Herr].
Qed.

(** ** The publication contract *)

(** The checks every trusted observation passes. *)
Definition checks_pass (e : PolicyEngine) (o : observation) (trustedTip : string) : Prop :=
  let '(base, work, pr) := o in
  checkBase (policy e) base = Ok tt /\ checkDestination (policy e) work = Ok tt /\
  checkPR e pr (rs_OID work) trustedTip = Ok tt.

Definition obs_base (o : observation) : RepositoryState := o.1.1.
Definition obs_work (o : observation) : RepositoryState := o.1.2.

(** What must hold for a push to be issued: the request is the run's, the
    observation passes every check, and the destination is either still absent
    as admitted or at the expected tip, which this run owns. *)
Record push_authorised (e : PolicyEngine) (req : PublicationRequest) (o : observation) : Prop := {
  auth_run : req_RunUID req = RunUID (policy e) /\ req_RunUID req <> "";
  auth_oid : ProposedOID req <> "";
  auth_checks : checks_pass e o "";
  auth_tip :
    (Exists (obs_work o) = false /\ ExpectedWorkOID req = "" /\ WorkInitiallyAbsent (policy e) = true) \/
    (Exists (obs_work o) = true /\ rs_OID (obs_work o) = ExpectedWorkOID req /\
     rs_OID (obs_work o) <> ProposedOID req /\
     (rs_OID (obs_work o) = confirmed e \/ rs_OID (obs_work o) = publish_anchor (policy e)))
}.

(** The two ancestry answers and the push. *)
Definition push_trace (p : Policy) (req : PublicationRequest) (o : observation)
    (pushErr : result string unit) : trace brokerE :=
  [Ev (IsAncestor (BaseRepo p) (rs_OID (obs_base o)) (ProposedOID req)) (Ok true);
   Ev (IsAncestor (WorkRepo p) (if String.eqb (ExpectedWorkOID req) "" then BaseOID p else ExpectedWorkOID req)
         (ProposedOID req)) (Ok true);
   Ev (Push (WorkRepo p) (WorkRef p) (ProposedOID req)) pushErr].

(** The events that confirm a publication after the push. *)
Definition confirm_trace (p : Policy) (req : PublicationRequest) (o : observation) : trace brokerE :=
  (obs_trace p o ++ [Ev (IsAncestor (BaseRepo p) (rs_OID (obs_base o)) (ProposedOID req)) (Ok true)])%list.

(** The live work ref is exactly at the proposed commit. *)
Definition live_at (o : observation) (oid : string) : Prop :=
  Exists (obs_work o) = true /\ rs_OID (obs_work o) = oid.

Inductive publish_spec (e : PolicyEngine) (req : PublicationRequest) :
    trace brokerE -> publication -> Prop :=
| spec_refused t m : reads_only t -> publish_spec e req t (e, Err m)
| spec_idempotent o :
    checks_pass e o "" -> live_at o (ProposedOID req) -> confirmed e = ProposedOID req ->
    publish_spec e req (obs_trace (policy e) o)
      (e, Ok {| res_OID := ProposedOID req; AlreadyPublished := true |})
| spec_unconfirmed o pushErr t m :
    push_authorised e req o -> reads_only t ->
    publish_spec e req (obs_trace (policy e) o ++ push_trace (policy e) req o pushErr ++ t)%list
      (set_confirmed e "", Err m)
| spec_published o pushErr o' :
    push_authorised e req o -> checks_pass (set_confirmed e "") o' (ProposedOID req) ->
    live_at o' (ProposedOID req) ->
    publish_spec e req (obs_trace (policy e) o ++ push_trace (policy e) req o pushErr ++
                        confirm_trace (policy e) req o')%list
      (set_confirmed e (ProposedOID req),
       Ok {| res_OID := ProposedOID req; AlreadyPublished := negb (is_ok pushErr) |}).

(** What the steps from the push on do, as seen after the events [t0]. *)
Lemma publish_push_spec e req o (Hauth : push_authorised e req o) :
  wp (publish_ancestry e req (obs_base o)) (fun t out => publish_spec e req (obs_trace (policy e) o ++ t)%list out).
Proof.
  assert (Href : forall t m, reads_only t -> publish_spec e req (obs_trace (policy e) o ++ t)%list (e, Err m)).
  { intros t m Ht. apply spec_refused, reads_only_app; [apply obs_trace_reads|done]. }
  unfold publish_ancestry. cbn. intros [[|]|]; cbn; [|by apply Href..].
  intros [[|]|]; cbn; [|by apply Href..]. intros pushErr.
  assert (Hun : forall t m, reads_only t -> publish_spec e req
    (obs_trace (policy e) o ++ (push_trace (policy e) req o pushErr ++ t))%list (set_confirmed e "", Err m))
    by (intros; by apply spec_unconfirmed).
  apply wp_bind, wp_observe.
  { intros t m Ht. cbn. rewrite app_nil_r. by apply Hun. }
  intros [[base work] pr]. pose proof (obs_trace_reads (policy e) (base, work, pr)) as Hreads.
  destruct (checkBase (policy e) base) as [[]|] eqn:Hb; cbn; rewrite ?Hb; cbn; [|rewrite app_nil_r; by apply Hun].
  destruct (checkDestination (policy e) work) as [[]|] eqn:Hd; cbn; [|rewrite app_nil_r; by apply Hun].
  destruct (negb (Exists work) || negb (String.eqb (rs_OID work) (ProposedOID req))) eqn:Hlive; cbn.
  { destruct pushErr; cbn; rewrite app_nil_r; by apply Hun. }
  destruct (checkPR _ pr (rs_OID work) (ProposedOID req)) as [[]|] eqn:Hpr; cbn; [|rewrite app_nil_r; by apply Hun].
  intros [[|]|]; cbn; [|by apply Hun, reads_only_app..].
  bprop. destruct Hlive as [Hex Hoid%String.eqb_eq].
  exact (spec_published e req o pushErr (base, work, pr) Hauth (conj Hb (conj Hd Hpr)) (conj Hex Hoid)).
Qed.

Lemma set_confirmed_same e : set_confirmed e (confirmed e) = e.
Proof. by destruct e. Qed.

Lemma publish_tip_spec e req base work pr :
  req_RunUID req = RunUID (policy e) /\ req_RunUID req <> "" -> ProposedOID req <> "" ->
  checks_pass e (base, work, pr) "" ->
  wp (publish_tip e req base work pr)
    (fun t out => publish_spec e req (obs_trace (policy e) (base, work, pr) ++ t)%list out).
Proof.
  intros Hrun Hoid Hchk. set (o := (base, work, pr)).
  assert (Href : forall m, publish_spec e req (obs_trace (policy e) o ++ [])%list (e, Err m)).
  { intros m. apply spec_refused, reads_only_app; [apply obs_trace_reads|done]. }
  unfold publish_tip. destruct (Exists work) eqn:Hex; simpl.
  2: { destruct (String.eqb_spec (ExpectedWorkOID req) ""); [|apply Href].
       destruct (WorkInitiallyAbsent (policy e)) eqn:Habs; [|apply Href].
       apply (publish_push_spec e req o). split; auto. }
  destruct (negb (String.eqb (confirmed e) (rs_OID work)) && _) eqn:Htip; [apply Href|].
  destruct (String.eqb_spec (rs_OID work) (ProposedOID req)) as [Heq|Hne].
  - destruct (String.eqb_spec (confirmed e) (rs_OID work)) as [Hc|]; [|apply Href]. simpl.
    destruct pr as [x|]; [destruct (negb (String.eqb (pr_HeadOID x) (rs_OID work))); [apply Href|]|];
      (destruct (negb (WorkInitiallyAbsent (policy e)) && _); [apply Href|]);
      cbn [wp]; rewrite app_nil_r, <- Hc, set_confirmed_same;
      apply (spec_idempotent e req o); [done|done|congruence|done|done|congruence].
  - rewrite orb_true_r. destruct (String.eqb_spec (ExpectedWorkOID req) ""); [apply Href|].
    destruct (String.eqb_spec (rs_OID work) (ExpectedWorkOID req)) as [Hx|]; [|apply Href].
    apply (publish_push_spec e req o). split; [done..|]. right. split_and!; [done|done|done|].
    bprop. destruct Htip as [H|H]; bprop; apply String.eqb_eq in H; simpl; auto.
Qed.

(** The implementation meets the contract, whatever the forge answers. *)
Lemma publish_meets_spec e req : wp (Publish e req) (publish_spec e req).
Proof.
  unfold Publish. destruct (String.eqb_spec (req_RunUID req) ""); [by apply spec_refused|].
  destruct (String.eqb_spec (req_RunUID req) (RunUID (policy e))); [|by apply spec_refused]. cbn [negb orb].
  destruct (String.eqb_spec (ProposedOID req) ""); [by apply spec_refused|]. cbn [orb].
  destruct (String.eqb (ExpectedWorkOID req) "" && _); [by apply spec_refused|].
  apply wp_bind, wp_observe; [intros t m Ht; cbn; rewrite app_nil_r; by apply spec_refused|].
  intros [[base work] pr]. pose proof (obs_trace_reads (policy e) (base, work, pr)) as Hreads. unfold check.
  destruct (checkBase _ base) as [[]|] eqn:Hb; [|cbn [wp]; rewrite app_nil_r; by apply spec_refused].
  destruct (checkDestination _ work) as [[]|] eqn:Hd; [|cbn [wp]; rewrite app_nil_r; by apply spec_refused].
  destruct (checkPR _ pr _ _) as [[]|] eqn:Hpr; [|cbn [wp]; rewrite app_nil_r; by apply spec_refused].
  apply publish_tip_spec; [done..|]. by split_and!.
Qed.

#[global] Arguments obs_trace : simpl never.

(** ** Pull request creation and updates *)

(** Both body contracts hold of a body. *)
Definition body_contract (p : Policy) (body : string) (report : option CriteriaReport) : Prop :=
  validateBodyLinkage p body = Ok tt /\ body_criteria p body = Ok report.

Definition create_request (p : Policy) (title body : string) (draft : bool) : CreateRequest :=
  {| cr_BaseRepo := BaseRepo p; cr_BaseRef := BaseRef p; cr_HeadRepo := WorkRepo p; cr_HeadRef := WorkRef p;
     cr_Title := title; cr_Body := body; cr_Draft := draft |}.

(** The forge write a creation may issue, and when. *)
Definition create_writes (e : PolicyEngine) (oid title body : string) (draft : bool) (t : trace brokerE) : Prop :=
  pushes t = [] /\ updates t = [] /\
  (creates t = [] \/
   creates t = [create_request (policy e) title body draft] /\
   (exists report, body_contract (policy e) body report) /\
   (is_mode (policy e) ModeResolveIssue = true \/ is_mode (policy e) ModeContribute = true) /\
   (confirmed e = oid \/ oid = WorkAnchorOID (policy e)) /\ oid <> "").

(** What a successful creation returns. *)
Definition create_result (e : PolicyEngine) (oid body : string) (t : trace brokerE) (out : created) : Prop :=
  forall pr report, out = Ok (pr, report) ->
    matchesPR (policy e) pr oid = true /\
    (creates t = [] /\ body_contract (policy e) (pr_Body pr) report \/
     creates t <> [] /\ body_contract (policy e) body report /\
     exists pulls, Ev (FindPullRequest (WorkRepo (policy e)) (WorkRef (policy e))) (Ok pulls) ∈ t /\
       pullsForPinnedHead (policy e) pulls <> [] /\
       forall c, c ∈ pullsForPinnedHead (policy e) pulls -> matchesPR (policy e) c oid = true).

Lemma recheck_true p number oid pulls found :
  recheck p number oid pulls found = Some true ->
  (found = true \/ pulls <> []) /\ forall c, c ∈ pulls -> matchesPR p c oid = true.
Proof.
  revert found. induction pulls as [|c pulls IH]; intros found; simpl.
  - intros [= ->]. split; [by left|]. by intros c ?%not_elem_of_nil.
  - destruct ((pr_Number c =? number) && matchesPR p c oid) eqn:Hc; [|done].
    intros [_ H]%IH. split; [by right|]. intros d [->|Hd]%elem_of_cons; [by bprop; destruct Hc|auto].
Qed.

(** The verification after the write reads only, and confirms the race. *)
Lemma create_verify_spec p oid number report :
  wp (create_verify p oid number report) (fun t out => reads_only t /\
    forall pr rep, out = Ok (pr, rep) -> rep = report /\ matchesPR p pr oid = true /\
      exists pulls, Ev (FindPullRequest (WorkRepo p) (WorkRef p)) (Ok pulls) ∈ t /\
        pullsForPinnedHead p pulls <> [] /\
        forall c, c ∈ pullsForPinnedHead p pulls -> matchesPR p c oid = true).
Proof.
  unfold create_verify, refuse. cbn. intros [made|]; cbn; [|done].
  intros [lb|]; cbn; [|done]. destruct (is_ok (checkBase p lb)); cbn; [|done].
  intros [lw|]; cbn; [|done].
  destruct (negb (is_ok (checkDestination p lw)) || _ || _); cbn; [done|].
  destruct (matchesPR p made oid) eqn:Hm; cbn; [|done].
  intros [pulls|]; cbn; [|done].
  destruct (recheck p number oid (pullsForPinnedHead p pulls) false) as [[|]|] eqn:Hr; cbn; [|done..].
  split; [done|]. intros pr rep [= <- <-]. destruct (recheck_true _ _ _ _ _ Hr) as [[?|?] ?]; [done|].
  split_and!; [done|done|]. exists pulls. split_and!; [|done|done]. do 3 right. left.
Qed.

Lemma creates_app t1 t2 : creates (t1 ++ t2)%list = (creates t1 ++ creates t2)%list.
Proof. apply omap_app. Qed.

Definition create_spec (e : PolicyEngine) (oid title body : string) (draft : bool)
    (t : trace brokerE) (out : created) : Prop :=
  create_writes e oid title body draft t /\ create_result e oid body t out.

Lemma create_refused e oid title body draft t err :
  reads_only t -> create_spec e oid title body draft t (Err err).
Proof. intros (? & ? & ?). split; [split_and!; auto|by intros ? ?]. Qed.

Lemma create_adopted e oid title body draft t existing :
  reads_only t -> create_spec e oid title body draft t (adopt (policy e) oid existing).
Proof.
  intros (Hp & Hc & Hu). split; [split_and!; auto|]. unfold adopt. intros pr report.
  destruct (matchesPR (policy e) existing oid) eqn:Hm; cbn; [|done].
  destruct (validateBodyLinkage _ _) as [[]|] eqn:Hl; [|done].
  destruct (body_criteria _ _) as [rep|] eqn:Hb; [|done]. intros [= <- <-]. split; [done|]. left. by split.
Qed.

Lemma omap_cons_match {A B} (f : A -> option B) x l :
  omap f (x :: l) = match f x with Some y => y :: omap f l | None => omap f l end.
Proof. done. Qed.

(** A creation that reached its one write, followed by reads [t]. *)
Lemma create_written e oid title body draft report o find number t :
  reads_only t -> body_contract (policy e) body report ->
  is_mode (policy e) ModeResolveIssue = true \/ is_mode (policy e) ModeContribute = true ->
  confirmed e = oid \/ oid = WorkAnchorOID (policy e) -> oid <> "" ->
  create_writes e oid title body draft
    (obs_trace (policy e) o ++ Ev (FindPullRequest (WorkRepo (policy e)) (WorkRef (policy e))) find ::
     Ev (CreatePR (create_request (policy e) title body draft)) number :: t)%list.
Proof.
  intros (Hp & Hc & Hu) Hbody Hmode Htip Hoid.
  destruct (obs_trace_reads (policy e) o) as (Hp' & Hc' & Hu').
  unfold create_writes, pushes, creates, updates in *. rewrite !omap_app, Hp', Hc', Hu'. cbn [app].
  rewrite !omap_cons_match. cbn [push_of create_of update_of ev_op]. rewrite Hp, Hc, Hu. split_and!; [done|done|]. right. split_and!; eauto.
Qed.

Lemma create_meets_spec e oid title body draft :
  wp (CreatePullRequest e oid title body draft) (create_spec e oid title body draft).
Proof.
  assert (Href : forall t err, reads_only t -> create_spec e oid title body draft t (Err err))
    by (intros; by apply create_refused).
  unfold CreatePullRequest.
  destruct (negb (is_mode (policy e) ModeResolveIssue) && _) eqn:Hmode; [by apply Href|].
  destruct (validateBodyLinkage (policy e) body) as [[]|] eqn:Hl; [|by apply Href].
  destruct (body_criteria (policy e) body) as [report|] eqn:Hb; [|by apply Href].
  apply wp_bind, wp_observe; [intros t m Ht; cbn; rewrite app_nil_r; by apply Href|].
  intros [[base work] pr]. set (o := (base, work, pr)). pose proof (obs_trace_reads (policy e) o) as Hreads.
  destruct (checkBase _ base); [|cbn [wp refuse]; rewrite app_nil_r; by apply Href].
  destruct (checkDestination _ work); [|cbn [wp refuse]; rewrite app_nil_r; by apply Href].
  destruct (negb (Exists work) || String.eqb oid "" || _) eqn:Hlive; [cbn [wp refuse]; rewrite app_nil_r; by apply Href|].
  cbn. intros [pulls|]; cbn; [|by apply Href, reads_only_app].
  destruct (pullsForPinnedHead _ pulls) as [|x [|y l]]; cbn;
    [|by apply create_adopted, reads_only_app|by apply Href, reads_only_app].
  destruct (negb (String.eqb (confirmed e) oid) && _) eqn:Htip; cbn; [by apply Href, reads_only_app|].
  assert (Hmode' : is_mode (policy e) ModeResolveIssue = true \/ is_mode (policy e) ModeContribute = true)
    by (bprop; destruct Hmode as [H|H]; bprop; auto).
  assert (Htip' : confirmed e = oid \/ oid = WorkAnchorOID (policy e))
    by (bprop; destruct Htip as [H|H]; bprop; apply String.eqb_eq in H; auto).
  assert (Hoid : oid <> "") by (bprop; destruct Hlive as [[_ H] _]; by apply String.eqb_neq in H).
  intros [number|]; cbn; [|split; [by eapply create_written|by intros ? ?]].
  destruct (number <=? 0); [split; [by eapply create_written|by intros ? ?]|].
  eapply wp_mono; [|apply create_verify_spec]. intros t out [Ht Hout]. split; [by eapply create_written|].
  intros pr' rep H. destruct (Hout _ _ H) as (-> & Hm & pulls' & Hin & Hne & Hall). split; [done|]. right.
  rewrite creates_app. split_and!; [by destruct Hreads as (_ & -> & _)|done|].
  exists pulls'. split_and!; [|done|done]. apply elem_of_app. right. do 2 right. done.
Qed.

(** A metadata update writes at most the pinned pull request, once, after an
    observation that passes every check. *)
Definition update_spec (e : PolicyEngine) (u : UpdateRequest) (t : trace brokerE) (out : result string unit) : Prop :=
  pushes t = [] /\ creates t = [] /\
  (updates t = [] /\ is_ok out = false \/
   updates t = [(PRNumber (policy e), u)] /\ is_mode (policy e) ModeFixPR = true /\
   exists o t', t = (obs_trace (policy e) o ++ t')%list /\ checks_pass e o (confirmed e)).

Lemma update_meets_spec e u : wp (UpdateFixPR e u) (update_spec e u).
Proof.
  assert (Href : forall t m, reads_only t -> update_spec e u t (Err m)).
  { intros t m (? & ? & ?). split_and!; auto. }
  unfold UpdateFixPR. destruct (is_mode (policy e) ModeFixPR) eqn:Hm; [|by apply Href]. cbn [negb].
  destruct (String.eqb (up_Title u) "" && _ && _); [by apply Href|].
  apply wp_bind, wp_observe; [intros t m Ht; cbn; rewrite app_nil_r; by apply Href|].
  intros [[base work] pr]. pose proof (obs_trace_reads (policy e) (base, work, pr)) as Hreads.
  destruct (checkBase _ base) as [[]|] eqn:Hb; [|cbn [wp]; rewrite app_nil_r; by apply Href].
  destruct (checkDestination _ work) as [[]|] eqn:Hd; [|cbn [wp]; rewrite app_nil_r; by apply Href].
  destruct (checkPR e pr _ _) as [[]|] eqn:Hpr; [|cbn [wp]; rewrite app_nil_r; by apply Href].
  assert (Hup : forall ans t out, reads_only t ->
    update_spec e u (obs_trace (policy e) (base, work, pr) ++ Ev (UpdatePR (PRNumber (policy e)) u) ans :: t)%list out).
  { intros ans t out (Hp & Hc & Hu). destruct Hreads as (Hp' & Hc' & Hu').
    unfold update_spec, pushes, creates, updates in *. rewrite !omap_app, Hp', Hc', Hu'. cbn [app].
    rewrite !omap_cons_match. cbn [push_of create_of update_of ev_op]. rewrite Hp, Hc, Hu. split_and!; [done|done|]. right. split_and!; [done|done|].
    exists (base, work, pr). eexists. split; [reflexivity|]. by split_and!. }
  cbn. intros [[]|]; cbn; [|by apply (Hup (Err _))].
  apply wp_bind, wp_observe; [intros t m Ht; cbn; rewrite app_nil_r; by apply (Hup (Ok tt))|].
  intros [[base' work'] pr']. pose proof (obs_trace_reads (policy e) (base', work', pr')) as Hreads'.
  repeat case_match; cbn; rewrite app_nil_r; by apply (Hup (Ok tt)).
Qed.

(** ** The snapshot loop *)

Definition snapshot_spec (e : PolicyEngine) (n : nat) (t : trace brokerE) (out : result snapshot_error EngineSnapshot) : Prop :=
  reads_only t /\ (length (snapshots t) <= n)%nat /\
  forall s, out = Ok s ->
    exists t' o req, t = (t' ++ obs_trace (policy e) o ++ [Ev (Snapshot req) (Ok (Data s))])%list /\
      checkBase (policy e) (obs_base o) = Ok tt /\
      BaseTip s = rs_OID (obs_base o) /\ WorkRefExists s = Exists (obs_work o) /\
      Tip s = (if Exists (obs_work o) then rs_OID (obs_work o) else rs_OID (obs_base o)) /\
      AtAnchor s = Exists (obs_work o) && String.eqb (Tip s) (WorkAnchorOID (policy e)) /\
      sn_BaseOID req = BaseTip s /\ (Exists (obs_work o) = true -> sn_WorkOID req = Tip s).

Lemma snapshots_app t1 t2 : snapshots (t1 ++ t2)%list = (snapshots t1 ++ snapshots t2)%list.
Proof. apply omap_app. Qed.

Lemma obs_trace_snapshots p o : snapshots (obs_trace p o) = [].
Proof. by destruct o as [[? ?] [?|]]. Qed.

Lemma wp_observe_quiet p Q :
  (forall t m, reads_only t -> snapshots t = [] -> Q t (Err m)) ->
  (forall o, Q (obs_trace p o) (Ok o)) -> wp (observe p) Q.
Proof.
  intros Herr Hok. unfold observe. cbn. intros [base|]; cbn; [|by apply Herr].
  intros [work|]; cbn; [|by apply Herr].
  destruct (is_mode p ModeFixPR); cbn; [|apply (Hok (base, work, None))].
  intros [pr|]; cbn; [apply (Hok (base, work, Some pr))|by apply Herr].
Qed.

Lemma observe_reads p : wp (observe p) (fun t _ => reads_only t).
Proof. apply wp_observe_quiet; [done|]. intros o. apply obs_trace_reads. Qed.

(** A successful observation is its reads. *)
Lemma observe_trace p : wp (observe p) (fun t r => forall o, r = Ok o -> t = obs_trace p o).
Proof. apply wp_observe_quiet; [done|]. by intros o o' [= <-]. Qed.

Lemma snapshot_round_spec e :
  wp (snapshot_round e) (fun t out =>
    match out with
    | None => reads_only t /\ length (snapshots t) = 1%nat
    | Some r => snapshot_spec e 1 t r
    end).
Proof.
  assert (Href : forall t m, reads_only t -> snapshots t = [] -> snapshot_spec e 1 t (Err m)).
  { intros t m Ht Hs. split_and!; [done|rewrite Hs; simpl; lia|done]. }
  unfold snapshot_round.
  apply wp_bind, wp_observe_quiet; [intros t m Ht Hs; cbn; rewrite app_nil_r; by apply Href|].
  intros [[base work] pr]. set (o := (base, work, pr)).
  pose proof (obs_trace_reads (policy e) o) as Hreads. pose proof (obs_trace_snapshots (policy e) o) as Hsn.
  destruct (checkBase _ base) as [[]|] eqn:Hb; [|cbn; rewrite app_nil_r; by apply Href].
  destruct (Exists work && _); [cbn; rewrite app_nil_r; by apply Href|].
  destruct (negb (Exists work) && _); [cbn; rewrite app_nil_r; by apply Href|].
  cbn. intros ans. set (req := {| sn_WorkRepo := _ |}).
  assert (Hlen : length (snapshots (obs_trace (policy e) o ++ [Ev (Snapshot req) ans])%list) = 1%nat)
    by (rewrite snapshots_app, Hsn; done).
  destruct ans as [data|[|m]]; cbn.
  - split_and!; [by apply reads_only_app|lia|]. intros s [= <-].
    exists [], o, req. cbn. split_and!; auto. by intros ->.
  - split; [by apply reads_only_app|done].
  - split_and!; [by apply reads_only_app|lia|done].
Qed.

Lemma snapshot_rounds_spec e n : wp (snapshot_rounds e n) (snapshot_spec e n).
Proof.
  induction n as [|n IH]; cbn [snapshot_rounds].
  { split_and!; [done|simpl; lia|done]. }
  apply wp_bind. eapply wp_mono; [|apply snapshot_round_spec]. intros t [r|]; cbn.
  - rewrite app_nil_r. intros (Hr & Hl & Hok). split_and!; [done|lia|done].
  - intros [Hr Hl]. eapply wp_mono; [|apply IH]. intros t' out (Hr' & Hl' & Hok).
    split_and!; [by apply reads_only_app|rewrite snapshots_app, length_app; lia|].
    intros s Hs. destruct (Hok s Hs) as (t0 & o & req & -> & H). exists (t ++ t0)%list, o, req.
    rewrite app_assoc. done.
Qed.

Lemma snapshot_meets_spec e : wp (SnapshotForControl e) (snapshot_spec e snapshotRenderRounds).
Proof.
  unfold SnapshotForControl. destruct (snapshotter e); [apply snapshot_rounds_spec|].
  split_and!; [done|simpl; lia|done].
Qed.

(** ** Histories

    The engine's lock serialises its operations, so a broker process is a
    sequence of whole operations starting from a freshly built engine. *)

Inductive step (e : PolicyEngine) : trace brokerE -> PolicyEngine -> Prop :=
| step_publish req t e' r : exec (Publish e req) t (e', r) -> step e t e'
| step_create oid title body draft t r : exec (CreatePullRequest e oid title body draft) t r -> step e t e
| step_update u t r : exec (UpdateFixPR e u) t r -> step e t e
| step_snapshot t r : exec (SnapshotForControl e) t r -> step e t e
| step_observe t r : exec (observe (policy e)) t r -> step e t e.

Inductive reachable (p : Policy) : trace brokerE -> PolicyEngine -> Prop :=
| reach_new s e : newPolicyEngine p s = Ok e -> reachable p [] e
| reach_step h e t e' : reachable p h e -> step e t e' -> reachable p (h ++ t)%list e'.

(** The evidence behind a confirmed tip: a push of exactly that commit to the
    pinned ref, observed live afterwards, with no push since. *)
Definition provenance (p : Policy) (h : trace brokerE) (oid : string) : Prop :=
  exists h1 ans o h2,
    h = (h1 ++ Ev (Push (WorkRepo p) (WorkRef p) oid) ans :: obs_trace p o ++ h2)%list /\
    live_at o oid /\ pushes h2 = [].

Definition engine_inv (p : Policy) (h : trace brokerE) (e : PolicyEngine) : Prop :=
  policy e = p /\ validatePolicy p = Ok tt /\
  (forall x, x ∈ pushes h -> exists oid, x = (WorkRepo p, WorkRef p, oid)) /\
  (confirmed e = "" \/ provenance p h (confirmed e)).

Lemma pushes_obs p o : pushes (obs_trace p o) = [].
Proof. apply obs_trace_reads. Qed.

Lemma engine_inv_reads p h e t : pushes t = [] -> engine_inv p h e -> engine_inv p (h ++ t)%list e.
Proof.
  intros Ht (Hp & Hv & Hx & Hc). split_and!; [done|done|rewrite pushes_app, Ht, app_nil_r; done|].
  destruct Hc as [Hc|(h1 & ans & o & h2 & -> & Hl & Hh)]; [by left|]. right.
  exists h1, ans, o, (h2 ++ t)%list. rewrite pushes_app, Hh, Ht. split_and!; [|done|done].
  by rewrite <- !app_assoc, <- app_comm_cons, <- app_assoc.
Qed.

Lemma pushes_publish p req o pushErr t :
  pushes t = [] ->
  pushes (obs_trace p o ++ push_trace p req o pushErr ++ t)%list = [(WorkRepo p, WorkRef p, ProposedOID req)].
Proof. intros Ht. rewrite !pushes_app, pushes_obs, Ht. done. Qed.

Lemma confirm_trace_reads p req o : pushes (confirm_trace p req o) = [].
Proof. unfold confirm_trace. rewrite pushes_app, pushes_obs. done. Qed.

Lemma engine_inv_publish p h e req t e' r :
  engine_inv p h e -> publish_spec e req t (e', r) -> engine_inv p (h ++ t)%list e'.
Proof.
  intros Hinv Hs. pose proof Hinv as (Hp & Hv & Hx & Hc).
  inversion Hs as [t0 m Hr|o Hck Hl Hcf|o pushErr t0 m Ha Hr|o pushErr o' Ha Hck Hl]; subst.
  - by apply engine_inv_reads; [apply Hr|].
  - by apply engine_inv_reads; [apply pushes_obs|].
  - split_and!; [done|done| |by left].
    intros x. rewrite pushes_app, pushes_publish by apply Hr. intros [?|Hin]%elem_of_app; [auto|].
    apply list_elem_of_singleton in Hin. eauto.
  - split_and!; [done|done| |].
    + intros x. rewrite pushes_app, pushes_publish by apply confirm_trace_reads.
      intros [?|Hin]%elem_of_app; [auto|]. apply list_elem_of_singleton in Hin. eauto.
    + right. eexists (h ++ obs_trace (policy e) o ++ [_; _])%list, pushErr, o', [_].
      rewrite <- !app_assoc. cbn. split_and!; [reflexivity|done|done].
Qed.

Lemma reachable_inv p h e : reachable p h e -> engine_inv p h e.
Proof.
  induction 1 as [s e Hn|h e t e' _ IH Hstep].
  - unfold newPolicyEngine in Hn. destruct (validatePolicy p) as [[]|] eqn:Hv; [|done]. injection Hn as <-.
    split_and!; [done|done|by intros x ?%not_elem_of_nil|by left].
  - destruct Hstep as [req t e' r Hex|oid title body draft t r Hex|u t r Hex|t r Hex|t r Hex].
    + eapply engine_inv_publish; [done|]. exact (proj1 (wp_exec _ _) (publish_meets_spec e req) _ _ Hex).
    + apply engine_inv_reads; [|done].
      apply (proj1 (wp_exec _ _) (create_meets_spec e oid title body draft) _ _ Hex).
    + apply engine_inv_reads; [|done]. apply (proj1 (wp_exec _ _) (update_meets_spec e u) _ _ Hex).
    + apply engine_inv_reads; [|done]. apply (proj1 (wp_exec _ _) (snapshot_meets_spec e) _ _ Hex).
    + apply engine_inv_reads; [|done]. apply (proj1 (wp_exec _ _) (observe_reads (policy e)) _ _ Hex).
Qed.

Lemma valid_policy_destination p :
  validatePolicy p = Ok tt ->
  (WorkRepo p, WorkRef p) <> (BaseRepo p, BaseRef p) /\
  (pol_Mode p = ModeContribute -> WorkRepo p <> BaseRepo p).
Proof.
  unfold validatePolicy. destruct (_ || _); [done|].
  destruct (String.eqb_spec (BaseRepo p) (WorkRepo p)) as [Hr|Hr].
  - destruct (String.eqb_spec (BaseRef p) (WorkRef p)) as [Hf|Hf]; [done|]. cbn [andb]. intros Hv.
    split; [congruence|]. intros Hm. unfold is_mode in Hv. rewrite Hm in Hv. cbn in Hv.
    unfold validate_contribute in Hv. repeat (destruct (_ || _) in Hv; [done|]).
    by destruct (String.eqb_spec (WorkRepo p) (BaseRepo p)).
  - intros _. split; congruence.
Qed.

(** ** A truthful forge

    An environment that answers from a world: the base tip, the work tip if the
    ref exists, the pull requests, and the commit graph's ancestry. [report] is
    what the transport says of a push, which takes effect whatever it says. *)

Record world := { w_base : string; w_work : option string; w_prs : list PullRequestState }.

Section Forge.
Variable p : Policy.
Variable anc : string -> string -> bool.
Variable report : result string unit.

Definition base_state (w : world) : RepositoryState :=
  {| rs_Repo := BaseRepo p; rs_Ref := BaseRef p; Exists := true; rs_OID := w_base w; Default := true;
     Protected := true; ProtectionKnown := true; Writable := false; WriteKnown := true |}.

Definition work_state (w : world) : RepositoryState :=
  {| rs_Repo := WorkRepo p; rs_Ref := WorkRef p;
     Exists := match w_work w with Some _ => true | None => false end;
     rs_OID := default "" (w_work w); Default := false; Protected := false; ProtectionKnown := true;
     Writable := true; WriteKnown := true |}.

Definition is_base (repo ref : string) : bool := String.eqb repo (BaseRepo p) && String.eqb ref (BaseRef p).
Definition is_work (repo ref : string) : bool := String.eqb repo (WorkRepo p) && String.eqb ref (WorkRef p).

Definition forge (X : Type) (e : brokerE X) : world -> world * X :=
  match e in brokerE X return world -> world * X with
  | Repository repo ref => fun w =>
      (w, if is_base repo ref then Ok (base_state w) else
          if is_work repo ref then Ok (work_state w) else Err "no such ref")
  | PullRequest n => fun w =>
      (w, match List.find (fun pr => pr_Number pr =? n) (w_prs w) with Some pr => Ok pr | None => Err "not found" end)
  | FindPullRequest repo ref => fun w =>
      (w, Ok (List.filter (fun pr => String.eqb (pr_HeadRepo pr) repo && String.eqb (pr_HeadRef pr) ref) (w_prs w)))
  | CreatePR req => fun w =>
      let n := 1 + Z.of_nat (length (w_prs w)) in
      ({| w_base := w_base w; w_work := w_work w;
          w_prs := {| pr_Number := n; pr_State := "open"; pr_BaseRepo := cr_BaseRepo req; pr_BaseRef := cr_BaseRef req;
                      pr_BaseOID := w_base w; pr_HeadRepo := cr_HeadRepo req; pr_HeadRef := cr_HeadRef req;
                      pr_HeadOID := default "" (w_work w); pr_Title := cr_Title req; pr_Body := cr_Body req;
                      pr_Draft := cr_Draft req |} :: w_prs w |}, Ok n)
  | UpdatePR _ _ => fun w => (w, Ok tt)
  | IsAncestor _ a b => fun w => (w, Ok (anc a b))
  | Push repo ref oid => fun w =>
      (if is_work repo ref then {| w_base := w_base w; w_work := Some oid; w_prs := w_prs w |} else w, report)
  | Snapshot _ => fun w => (w, Ok [])
  end.

Lemma forge_work_not_base : validatePolicy p = Ok tt -> is_base (WorkRepo p) (WorkRef p) = false.
Proof.
  intros [Hd _]%valid_policy_destination. unfold is_base.
  destruct (String.eqb_spec (WorkRepo p) (BaseRepo p)), (String.eqb_spec (WorkRef p) (BaseRef p)); cbn; congruence.
Qed.

Lemma run_observe (Hv : validatePolicy p = Ok tt) (Hm : is_mode p ModeFixPR = false) {A}
    (k : result string observation -> prog brokerE A) w :
  let '(w', t, a) := run forge (k (Ok (base_state w, work_state w, None))) w in
  run forge (observe p ≫= k) w = (w', (obs_trace p (base_state w, work_state w, None) ++ t)%list, a).
Proof.
  destruct (run forge (k _) w) as [[w' t] a] eqn:Hk. 
  assert (Hb : is_base (BaseRepo p) (BaseRef p) = true) by (unfold is_base; by rewrite !String.eqb_refl).
  assert (Hw : is_work (WorkRepo p) (WorkRef p) = true) by (unfold is_work; by rewrite !String.eqb_refl).
  unfold observe. cbn. rewrite Hb. cbn. rewrite (forge_work_not_base Hv), Hw. cbn. rewrite Hm. cbn. by rewrite Hk.
Qed.

Lemma base_state_ok w : w_base w <> "" -> checkBase p (base_state w) = Ok tt.
Proof. intros H%String.eqb_neq. unfold checkBase. cbn. rewrite !String.eqb_refl, H. done. Qed.

Lemma work_state_ok w :
  w_work w <> Some "" -> (w_work w = None -> WorkInitiallyAbsent p = true) -> checkDestination p (work_state w) = Ok tt.
Proof.
  intros H Ha. unfold checkDestination. cbn. rewrite !String.eqb_refl. cbn.
  destruct (w_work w) as [[|c s]|]; cbn; [by destruct H|done|by rewrite Ha].
Qed.

Lemma checkPR_other e pr a b : policy e = p -> is_mode p ModeFixPR = false -> checkPR e pr a b = Ok tt.
Proof. intros <- H. unfold checkPR. by rewrite H. Qed.

(** The push phase against the truthful forge. *)
Lemma run_publish_push e req w :
  policy e = p -> validatePolicy p = Ok tt -> is_mode p ModeFixPR = false ->
  w_base w <> "" -> ProposedOID req <> "" -> anc (w_base w) (ProposedOID req) = true ->
  let '(w', _, out) := run forge (publish_push e req) w in
  w_work w' = Some (ProposedOID req) /\
  out = (set_confirmed e (ProposedOID req),
         Ok {| res_OID := ProposedOID req; AlreadyPublished := negb (is_ok report) |}).
Proof.
  intros He Hv Hm Hb Ho Hanc. unfold publish_push. rewrite He. cbn [mbind prog_bind call bind_prog run forge].
  unfold is_work at 1. rewrite !String.eqb_refl. cbn [andb]. set (w1 := {| w_base := _ |}).
  match goal with |- context [observe p ≫= ?k] => set (kk := k) end.
  pose proof (run_observe Hv Hm kk w1) as Hrun.
  assert (Hkk : run forge (kk (Ok (base_state w1, work_state w1, None))) w1 =
    (w1, [Ev (IsAncestor (BaseRepo p) (w_base w) (ProposedOID req)) (Ok true)],
     (set_confirmed e (ProposedOID req),
      Ok {| res_OID := ProposedOID req; AlreadyPublished := negb (is_ok report) |}))).
  { subst kk. cbv beta iota. rewrite base_state_ok, work_state_ok by (subst w1; cbn; congruence).
    cbn. rewrite String.eqb_refl. cbn. rewrite checkPR_other by done. cbn. by rewrite Hanc. }
  rewrite Hkk in Hrun. fold observation. rewrite Hrun. done.
Qed.

(** The whole publication against the truthful forge: the destination is absent
    as admitted, or at the expected tip that the run owns. *)
Definition publishable (e : PolicyEngine) (req : PublicationRequest) (w : world) : Prop :=
  (w_work w = None /\ ExpectedWorkOID req = "" /\ WorkInitiallyAbsent p = true /\
   anc (BaseOID p) (ProposedOID req) = true) \/
  (w_work w = Some (ExpectedWorkOID req) /\ ExpectedWorkOID req <> "" /\
   ExpectedWorkOID req <> ProposedOID req /\
   (ExpectedWorkOID req = confirmed e \/ ExpectedWorkOID req = WorkAnchorOID p) /\
   anc (ExpectedWorkOID req) (ProposedOID req) = true).

Lemma run_publish_ancestry e req w :
  policy e = p -> validatePolicy p = Ok tt -> is_mode p ModeFixPR = false -> w_base w <> "" ->
  ProposedOID req <> "" -> anc (w_base w) (ProposedOID req) = true ->
  anc (if String.eqb (ExpectedWorkOID req) "" then BaseOID p else ExpectedWorkOID req) (ProposedOID req) = true ->
  let '(w', _, out) := run forge (publish_ancestry e req (base_state w)) w in
  w_work w' = Some (ProposedOID req) /\
  out = (set_confirmed e (ProposedOID req),
         Ok {| res_OID := ProposedOID req; AlreadyPublished := negb (is_ok report) |}).
Proof.
  intros He Hv Hm Hb Ho Hanc Hanc'. unfold publish_ancestry. rewrite He.
  cbn [mbind prog_bind call bind_prog run forge rs_OID base_state]. rewrite Hanc.
  cbn [mbind prog_bind call bind_prog run forge rs_OID base_state]. rewrite Hanc'.
  pose proof (run_publish_push (set_confirmed e "") req w He Hv Hm Hb Ho Hanc) as Hpush.
  destruct (run forge (publish_push _ req) w) as [[w' t] out]. exact Hpush.
Qed.

Lemma run_publish e req w :
  policy e = p -> validatePolicy p = Ok tt -> is_mode p ModeFixPR = false -> w_base w <> "" ->
  req_RunUID req = RunUID p -> ProposedOID req <> "" -> anc (w_base w) (ProposedOID req) = true ->
  publishable e req w ->
  let '(w', _, out) := run forge (Publish e req) w in
  w_work w' = Some (ProposedOID req) /\
  out = (set_confirmed e (ProposedOID req),
         Ok {| res_OID := ProposedOID req; AlreadyPublished := negb (is_ok report) |}).
Proof.
  intros He Hv Hm Hb Hrun Ho Hanc Hpub. unfold Publish. rewrite He, Hrun, String.eqb_refl.
  assert (Huid : RunUID p <> "").
  { intros H. unfold validatePolicy in Hv. rewrite H in Hv. done. }
  rewrite (proj2 (String.eqb_neq _ _) Huid), (proj2 (String.eqb_neq _ _) Ho). cbn [negb orb].
  assert (Hexp : String.eqb (ExpectedWorkOID req) "" && negb (WorkInitiallyAbsent p) = false).
  { destruct Hpub as [(_ & _ & -> & _)|(_ & H & _)]; [by rewrite andb_false_r|].
    apply String.eqb_neq in H. by rewrite H. }
  rewrite Hexp. fold observation. match goal with |- context [observe p ≫= ?f] => set (k := f) end.
  pose proof (run_observe Hv Hm k w) as Hr.
  assert (Hk : let '(w', _, out) := run forge (k (Ok (base_state w, work_state w, None))) w in
    w_work w' = Some (ProposedOID req) /\
    out = (set_confirmed e (ProposedOID req),
           Ok {| res_OID := ProposedOID req; AlreadyPublished := negb (is_ok report) |})).
  { subst k. cbv beta iota. unfold check. rewrite base_state_ok, work_state_ok, checkPR_other by
      (try done; destruct Hpub as [(-> & _ & ? & _)|(-> & ? & _)]; congruence).
    unfold publish_tip, publish_anchor. rewrite He, Hm. cbn [work_state Exists rs_OID].
    destruct Hpub as [(-> & Hx & Habs & Ha)|(-> & Hx & Hne & Hown & Ha)]; cbn [default from_option id andb].
    - rewrite Hx, Habs. apply run_publish_ancestry; try done. by rewrite Hx.
    - assert (Hown' : negb (String.eqb (confirmed e) (ExpectedWorkOID req)) &&
        negb (String.eqb (ExpectedWorkOID req) (WorkAnchorOID p)) = false).
      { destruct Hown as [H|H]; rewrite H, String.eqb_refl; [done|by rewrite andb_false_r]. }
      apply String.eqb_neq in Hne, Hx. rewrite Hown', Hne, Hx, String.eqb_refl. cbn [orb negb].
      apply run_publish_ancestry; try done. by rewrite Hx. }
  destruct (run forge (k _) w) as [[w' t] out]. unfold publication in *. rewrite Hr. exact Hk.
Qed.

End Forge.

(** ** Properties *)

(** C2: Publish implements its contract whatever the forge answers: it is
    refused with no write; or recognises its own confirmed tip; or pushes once,
    after every preflight check and both ancestry answers, and then either
    reports failure with no confirmation left, or reports success only on a
    fresh observation that shows exactly the proposed commit live and passes
    every check again. *)
Theorem publish_contract (e : PolicyEngine) (req : PublicationRequest) :
  wp (Publish e req) (publish_spec e req).
Proof. apply publish_meets_spec. Qed.

(** One publication issues at most one push, to the pinned work ref, of
    the proposed commit; and only when the live work ref is absent as admitted
    or at the caller's expected tip, which the run itself owns (the admission
    anchor or a tip this process confirmed), never over a foreign tip. *)
Theorem publish_push_authorised (e : PolicyEngine) (req : PublicationRequest) :
  wp (Publish e req) (fun t _ =>
    pushes t = [] \/
    pushes t = [(WorkRepo (policy e), WorkRef (policy e), ProposedOID req)] /\
    exists o pushErr t', push_authorised e req o /\
      t = (obs_trace (policy e) o ++ push_trace (policy e) req o pushErr ++ t')%list).
Proof.
  eapply wp_mono; [|apply publish_meets_spec]. intros t out Hs.
  destruct Hs as [t m Hr|o Hc Hl Hcf|o pushErr t m Ha Hr|o pushErr o' Ha Hc Hl].
  - left. apply Hr.
  - left. apply pushes_obs.
  - right. split; [apply pushes_publish, Hr|eauto].
  - right. split; [apply pushes_publish, confirm_trace_reads|eauto].
Qed.

(** Success means live: a publication that returns a result returns the
    proposed commit, leaves it as the engine's confirmed tip, and its last
    observation of the work ref showed exactly that commit with every check
    passing; it says "already published" only when the push reported an error
    or no push was needed. *)
Theorem publish_success_live (e : PolicyEngine) (req : PublicationRequest) :
  wp (Publish e req) (fun t out => forall res, out.2 = Ok res ->
    res_OID res = ProposedOID req /\ confirmed out.1 = ProposedOID req /\
    exists t1 o t2 e0 tip, t = (t1 ++ obs_trace (policy e) o ++ t2)%list /\ policy e0 = policy e /\
      checks_pass e0 o tip /\ live_at o (ProposedOID req) /\ pushes t2 = [] /\
      (AlreadyPublished res = false -> pushes t1 <> [])).
Proof.
  eapply wp_mono; [|apply publish_meets_spec]. intros t out Hs res Hres.
  destruct Hs as [t m Hr|o Hc Hl Hcf|o pushErr t m Ha Hr|o pushErr o' Ha Hc Hl]; simpl in Hres; [done| |done|];
    injection Hres as <-; (split; [done|split; [done|]]).
  - exists [], o, [], e, "". rewrite app_nil_r. by split_and!.
  - eexists (obs_trace (policy e) o ++ push_trace (policy e) req o pushErr)%list, o', _, (set_confirmed e ""), _.
    rewrite <- app_assoc. split_and!; [reflexivity|done|exact Hc|exact Hl|done|].
    intros _. rewrite pushes_app, pushes_obs. done.
Qed.

(** C18: Over a broker process's whole life (any sequence of publications,
    pull request creations, updates and snapshots) every push goes to the
    pinned work ref and never to the base ref, a contribution never pushes to
    the base repository, and a non-empty confirmed tip is backed by the
    process's own latest push of exactly that commit, observed live after it.
    In particular a freshly started engine trusts no live commit. *)
Theorem engine_history_safe (p : Policy) (h : trace brokerE) (e : PolicyEngine)
    (Hreach : reachable p h e) :
  (forall repo ref oid, (repo, ref, oid) ∈ pushes h ->
     (repo, ref) = (WorkRepo p, WorkRef p) /\ (repo, ref) <> (BaseRepo p, BaseRef p) /\
     (pol_Mode p = ModeContribute -> repo <> BaseRepo p)) /\
  (confirmed e <> "" -> provenance p h (confirmed e)).
Proof.
  apply reachable_inv in Hreach as (_ & Hv & Hx & Hc).
  destruct (valid_policy_destination p Hv) as [Hd Hm]. split.
  - intros repo ref oid Hin. destruct (Hx _ Hin) as (oid' & [= -> -> ->]). by split_and!.
  - intros Hne. by destruct Hc.
Qed.


(** A metadata update writes only the pinned pull request, once, after a
    complete observation in which the pull request is open at its pinned
    identity and its head is the live work tip the run owns. *)
Theorem update_fix_pr_safe (e : PolicyEngine) (u : UpdateRequest) :
  wp (UpdateFixPR e u) (update_spec e u).
Proof. apply update_meets_spec. Qed.

(** A snapshot never writes, asks for at most three renderings, and a
    snapshot it returns is the one rendered from its last observation. *)
Theorem snapshot_bounded (e : PolicyEngine) :
  wp (SnapshotForControl e) (snapshot_spec e snapshotRenderRounds).
Proof. apply snapshot_meets_spec. Qed.


(** ** Witnesses *)

Definition example_policy : Policy :=
  {| RunUID := "uid-1"; pol_Mode := ModeResolveIssue; Provider := "github"; BaseRepo := "misospace/courier";
     BaseRef := "main"; BaseOID := "b0"; WorkRepo := "misospace/courier"; WorkRef := "courier/issue-12";
     WorkInitiallyAbsent := true; WorkAnchorOID := ""; PRNumber := 0; HeadAnchorOID := "";
     pol_SourceIssue := example_issue; AllowClosingLinkage := false; pol_Criteria := example_set |}.

Definition example_engine : PolicyEngine :=
  {| policy := example_policy; snapshotter := false; confirmed := "" |}.

Definition example_request : PublicationRequest :=
  {| req_RunUID := "uid-1"; ExpectedWorkOID := ""; ProposedOID := "c1" |}.

Definition example_world : world := {| w_base := "b0"; w_work := None; w_prs := [] |}.

Definition example_forge : forall X, brokerE X -> world -> world * X :=
  forge example_policy (fun _ _ => true) (Err "timeout").

Lemma example_policy_valid : validatePolicy example_policy = Ok tt.
Proof. vm_compute. reflexivity. Qed.


(** A history with a publication, whose confirmed tip has its provenance. *)
Lemma engine_history_safe_witness :
  exists h e, reachable example_policy h e /\ confirmed e = "c1" /\ provenance example_policy h "c1".
Proof.
  pose (r := run example_forge (Publish example_engine example_request) example_world).
  assert (Hr : reachable example_policy ([] ++ r.1.2)%list r.2.1).
  { eapply reach_step; [apply (reach_new example_policy false example_engine); vm_compute; reflexivity|].
    apply (step_publish _ example_request _ _ r.2.2).
    pose proof (run_exec example_forge (Publish example_engine example_request) example_world) as He.
    fold r in He. destruct r.2. exact He. }
  assert (Hc : confirmed r.2.1 = "c1") by (vm_compute; reflexivity).
  exists ([] ++ r.1.2)%list, r.2.1. split; [exact Hr|]. split; [exact Hc|].
  rewrite <- Hc. apply (proj2 (engine_history_safe _ _ _ Hr)). rewrite Hc. discriminate.
Defined.

(** After publishing, the pull request is created, once. *)
Example create_example :
  let '(w, _, (e, _)) := run example_forge (Publish example_engine example_request) example_world in
  let '(w', t, out) := run example_forge (CreatePullRequest e "c1" "Title" example_pr_body false) w in
  length (creates t) = 1%nat /\ is_ok out = true /\ length (w_prs w') = 1%nat.
Proof. vm_compute. auto. Qed.
