(* ===== verification/Forge.v ===== *)
(** * The forge provider boundary and its registry
      (internal/forge/forge.go and internal/forge/registry.go)

    The data a provider exchanges, the calls it answers, and the selection of
    the one registration that serves a run's repositories.  The provider's
    implementation talks to a forge; every call is a request of [providerE],
    answered arbitrarily by the environment.

    Fields no modelled code reads (labels, URLs, mergeability) are left out.
    Loading the registry file, which parses JSON and URLs, is not modelled:
    the registrations are the loaded list. *)

From S2P Require Import Prelude Effects GoStrings.
Local Open Scope string_scope.
Local Open Scope Z_scope.

(** ** Data *)

Record Repository := { repo_ID : string; repo_Canonical : string; repo_DefaultRef : string }.

Record RefState := { ref_Ref : string; ref_OID : string; ref_Exists : bool }.

Record PullRequest := {
  fp_Number : Z;
  fp_BaseRepo : string; fp_BaseRef : string; fp_BaseSHA : string;
  fp_HeadRepo : string; fp_HeadRef : string; fp_HeadSHA : string;
  fp_Title : string; fp_Body : string; fp_State : string; fp_Draft : bool; fp_Merged : bool
}.

Record WorkItem := { fw_ID : string; fw_Repo : string; fw_Title : string; fw_Body : string; fw_State : string }.

Record CreatePullRequestInput := {
  ci_Repo : string; ci_Title : string; ci_Head : string; ci_HeadRepo : string; ci_HeadRef : string;
  ci_Base : string; ci_Body : string; ci_Draft : bool
}.

Record UpdatePullRequestInput := { ui_Title : string; ui_Body : string; ui_State : string }.

(** A provider failure: [forge.ErrUnsupported], a permanent
    [SecureNeedsHumanError], or anything else. *)
Inductive provider_error :=
| ErrUnsupported
| PermanentProvider (reason detail : string)
| ProviderFailed (msg : string).

(** ** Requests to a provider

    [RepositoryPolicyProvider], [PullRequestHeadLister] and the [Provider]
    methods the modelled code calls. *)
Inductive providerE : Type -> Type :=
| ResolveRepository (repo : string) : providerE (result provider_error Repository)
| ReadRef (repo : Repository) (ref : string) : providerE (result provider_error RefState)
| ReadEffectiveProtection (repo : Repository) (ref : string) : providerE (result provider_error bool)
| CanWriteRepository (repo : Repository) : providerE (result provider_error bool)
| ListPullRequestsByHead (repo headRepo headRef : string) : providerE (result provider_error (list PullRequest))
| ReadWorkItem (repo id : string) : providerE (result provider_error WorkItem)
| ReadPullRequest (repo : string) (number : Z) : providerE (result provider_error PullRequest)
| CreatePullRequest (input : CreatePullRequestInput) : providerE (result provider_error PullRequest)
| UpdatePullRequest (repo : string) (number : Z) (input : UpdatePullRequestInput) : providerE (result provider_error PullRequest).

(** Requests that change nothing at the forge. *)
Definition is_read {X} (e : providerE X) : bool :=
  match e with CreatePullRequest _ | UpdatePullRequest _ _ _ => false | _ => true end.

(** ** The registry *)

Definition PurposeForgeAPI : string := "forge-api".
Definition PurposeGit : string := "git".

Record CredentialRef := { SecretName : string; cred_Key : string }.

Record Registration := {
  reg_Name : string;
  reg_Type : string;
  reg_Endpoint : string;
  GitEndpoint : string;
  GitUsername : string;
  Credentials : gmap string CredentialRef;
  Serves : list string
}.

(** A nil registry is [None]. *)
Definition Registry : Type := option (list Registration).

Definition patternHalf (pattern value : string) : bool :=
  if String.eqb pattern "*" then true else EqualFold pattern value.

(** One [serves] pattern against the two halves of a repository. *)
Definition pattern_serves (owner name pattern : string) : bool :=
  if String.eqb pattern "*" then true else
  match Split pattern "/" with
  | [a; b] => patternHalf a owner && patternHalf b name
  | _ => false
  end.

Definition registrationMatches (r : Registration) (repo : string) : bool :=
  match Split repo "/" with
  | [owner; name] =>
      if String.eqb owner "" || String.eqb name "" then false
      else existsb (pattern_serves owner name) (Serves r)
  | _ => false
  end.

Definition sorted_names (l : list Registration) : string := Join (sort_strings (reg_Name <$> l)) ", ".

(** Error texts are the source's; the [%q] operands are left out. *)
Definition Select (r : Registry) (repo : string) : result string Registration :=
  match r with
  | None => Err "forge registry is not loaded"
  | Some regs =>
      match List.filter (fun g => registrationMatches g repo) regs with
      | [g] => Ok g
      | [] => Err "no provider registration serves the repository"
      | many => Err ("the repository is served ambiguously by provider registrations " ++ sorted_names many)
      end
  end.

Definition SelectContribution (r : Registry) (base work : string) : result string Registration :=
  match r with
  | None => Err "forge registry is not loaded"
  | Some regs =>
      let baseMatches := List.filter (fun g => registrationMatches g base) regs in
      let both := List.filter (fun g => registrationMatches g work) baseMatches in
      match both, baseMatches with
      | [g], _ => Ok g
      | _, [] => Err "no provider registration serves the base repository"
      | [], _ => Err "no provider registration serving the base also serves the approved fork"
      | many, _ => Err ("the repositories are served ambiguously by provider registrations " ++ sorted_names many)
      end
  end.

Definition credential_ref (r : option Registration) (purpose : string) : option CredentialRef :=
  match r with
  | None => None
  | Some r =>
      match Credentials r !! purpose with
      | Some ref => Some ref
      | None => if String.eqb purpose PurposeGit then Credentials r !! PurposeForgeAPI else None
      end
  end.

(** ** Lemmas *)

Lemma filter_single {A} (f : A -> bool) l x :
  List.filter f l = [x] -> x ∈ l /\ f x = true /\ forall y, y ∈ l -> f y = true -> y = x.
Proof.
  intros H. assert (Hin : forall y, In y l /\ f y = true <-> y = x).
  { intros y. rewrite <- filter_In, H. cbn. naive_solver. }
  destruct (proj2 (Hin x) eq_refl) as [H1 H2]. split_and!; [by apply list_elem_of_In|done|].
  intros y Hy Hf. apply Hin. split; [by apply list_elem_of_In|done].
Qed.

(** The selected registration is the only one that serves the repository. *)
Lemma select_unique regs repo g :
  Select (Some regs) repo = Ok g ->
  g ∈ regs /\ registrationMatches g repo = true /\
  forall h, h ∈ regs -> registrationMatches h repo = true -> h = g.
Proof.
  unfold Select. destruct (List.filter _ _) as [|x [|]] eqn:H; [done| |done]. intros [= <-].
  exact (filter_single _ _ _ H).
Qed.

(** The registration selected for a contribution serves both repositories and
    is the only one that does. *)
Lemma select_contribution_unique regs base work g :
  SelectContribution (Some regs) base work = Ok g ->
  g ∈ regs /\ registrationMatches g base = true /\ registrationMatches g work = true /\
  forall h, h ∈ regs -> registrationMatches h base = true -> registrationMatches h work = true -> h = g.
Proof.
  unfold SelectContribution. set (bm := List.filter (fun g => registrationMatches g base) regs).
  destruct (List.filter _ bm) as [|x [|y l]] eqn:H; [by destruct bm| |by destruct bm]. intros [= <-].
  destruct (filter_single _ _ _ H) as (Hin & Hw & Hu).
  assert (Hbm : forall h, h ∈ bm <-> h ∈ regs /\ registrationMatches h base = true).
  { intros h. unfold bm. rewrite list_elem_of_In, filter_In, list_elem_of_In. done. }
  apply Hbm in Hin as [? ?]. split_and!; [done..|]. intros h ? ? ?. apply Hu; [|done]. by apply Hbm.
Qed.

Lemma registrationMatches_nonempty r repo : registrationMatches r repo = true -> repo <> "".
Proof. intros H ->. done. Qed.
