(* ===== verification/Binding.v ===== *)
(** * The broker's policy binding (internal/broker/binding.go)

    At start-up the broker turns the publication policy the operator persisted
    in the run's status into the [Policy] its engine enforces.  The persisted
    pins are checked against the run's immutable spec, against the provider
    configuration the broker was started with, and against their own digests.

    Error texts are the source's; the [%q] operands are left out. *)

From S2P Require Import Prelude GoStrings Regex Sha256 Branch Run Linkage Criteria Policy.
Local Open Scope string_scope.
Local Open Scope Z_scope.

(** ** Repository identities *)

(** The text before and after the separator at [idx]; the result of the two
    splits below once the separator is found. *)
Definition split_at (value : string) (idx : option nat) : option (string * string) :=
  match idx with
  | Some (S i) =>
      if Z.of_nat (S i) =? slen value - 1 then None
      else Some (stake (S i) value, sdrop (S (S i)) value)
  | _ => None
  end.

Definition splitOwnerRepo (value : string) : option (string * string) :=
  let value := TrimSpace value in
  split_at value (LastIndexByte value "/").

Definition canonicalRepoIdentity (value : string) : option string :=
  match splitOwnerRepo value with
  | None => None
  | Some (owner, name) => Some (ToLower owner ++ "/" ++ ToLower name)
  end.

(** ** The pinned criterion set *)

(** One iteration of the loop over the pinned criteria; [i] is its ordinal. *)
Definition pinned_criterion (i : Z) (c : PinnedCriterion) : result string Criterion :=
  if negb (String.eqb (pc_ID c) ("AC-" ++ Itoa i)) then
    Err "broker binding: pinned criterion carries a wrong ID; extraction ordinals are immutable" else
  if MaxCriterionTextBytes <? slen (pc_Text c) then
    Err ("broker binding: pinned criterion " ++ pc_ID c ++ " exceeds the " ++ Itoa MaxCriterionTextBytes ++
         "-byte text bound") else
  if negb (String.eqb (digestString (pc_Text c)) (pc_Digest c)) then
    Err ("broker binding: pinned criterion " ++ pc_ID c ++ " text does not match its digest") else
  Ok {| ID := pc_ID c; Text := pc_Text c; Digest := pc_Digest c |}.

Fixpoint pinned_criteria (i : Z) (cs : list PinnedCriterion) : result string (list Criterion) :=
  match cs with
  | [] => Ok []
  | c :: rest => c ← pinned_criterion i c; cs ← pinned_criteria (i + 1) rest; Ok (c :: cs)
  end.

Definition zero_issue : SourceIssue := {| Owner := ""; Name := ""; Number := 0 |}.
Definition zero_set : CriterionSet := {| Issue := zero_issue; Criteria := []; set_Digest := "" |}.

(** [Ok None] is the unpinned policy, [Ok (Some set)] a pinned one. *)
Definition CriterionSetFromPolicy (persisted : option PublicationPolicy) : result string (option CriterionSet) :=
  match persisted with
  | None => Ok None
  | Some p =>
      if String.eqb (AcceptanceCriteriaDigest p) "" then
        match pp_SourceIssue p, AcceptanceCriteria p with
        | None, [] => Ok None
        | _, _ => Err "broker binding: orphaned criterion pin fields: a pre-contract policy must carry no source identity, no criteria, and no set digest"
        end
      else
      match pp_SourceIssue p with
      | None => Err "broker binding: pinned criterion set carries no source-issue identity"
      | Some ref =>
          if MaxCriteria <? Z.of_nat (length (AcceptanceCriteria p)) then
            Err ("broker binding: pinned criterion set carries " ++ Itoa (Z.of_nat (length (AcceptanceCriteria p))) ++
                 " criteria; the bound is " ++ Itoa MaxCriteria)
          else
          let issue := {| Owner := sir_Owner ref; Name := sir_Name ref; Number := sir_Number ref |} in
          cs ← pinned_criteria 1 (AcceptanceCriteria p);
          let computed := set_digest issue cs in
          if negb (String.eqb computed (AcceptanceCriteriaDigest p)) then
            Err "broker binding: pinned criterion set digest does not cover the pinned criteria"
          else Ok (Some {| Issue := issue; Criteria := cs; set_Digest := computed |})
      end
  end.

(** ** The binding *)

(** The policy the persisted pins describe, before the mode's own fields. *)
Definition policy_of_pins (mode : string) (p : PublicationPolicy) : Policy :=
  {| RunUID := pp_RunUID p; pol_Mode := mode; Provider := pp_ProviderConfigRef p;
     BaseRepo := pp_BaseRepo p; BaseRef := pp_BaseRef p; BaseOID := pp_BaseOID p;
     WorkRepo := pp_WorkRepo p; WorkRef := pp_WorkRef p; WorkInitiallyAbsent := pp_WorkInitiallyAbsent p;
     WorkAnchorOID := pp_WorkOID p; PRNumber := pp_PRNumber p; HeadAnchorOID := pp_HeadAnchorOID p;
     pol_SourceIssue := zero_issue; AllowClosingLinkage := false; pol_Criteria := zero_set |}.

Definition with_contract (p : Policy) (issue : SourceIssue) (set : CriterionSet) : Policy :=
  {| RunUID := RunUID p; pol_Mode := pol_Mode p; Provider := Provider p;
     BaseRepo := BaseRepo p; BaseRef := BaseRef p; BaseOID := BaseOID p;
     WorkRepo := WorkRepo p; WorkRef := WorkRef p; WorkInitiallyAbsent := WorkInitiallyAbsent p;
     WorkAnchorOID := WorkAnchorOID p; PRNumber := PRNumber p; HeadAnchorOID := HeadAnchorOID p;
     pol_SourceIssue := issue; AllowClosingLinkage := AllowClosingLinkage p; pol_Criteria := set |}.

(** The work tip is recorded exactly when the ref existed at admission. *)
Definition inconsistent_tip (p : PublicationPolicy) : bool :=
  (pp_WorkInitiallyAbsent p && negb (String.eqb (pp_WorkOID p) "")) ||
  (negb (pp_WorkInitiallyAbsent p) && String.eqb (pp_WorkOID p) "").

Definition carries_pins (p : PublicationPolicy) : bool :=
  match pp_SourceIssue p, AcceptanceCriteria p with
  | None, [] => negb (String.eqb (AcceptanceCriteriaDigest p) "")
  | _, _ => true
  end.

Definition carries_pr_anchor (p : PublicationPolicy) : bool :=
  negb (pp_PRNumber p =? 0) || negb (String.eqb (pp_HeadAnchorOID p) "").

Definition bind_resolve_issue (spec : CoderRunSpec) (p : PublicationPolicy) (policy : Policy) : result string Policy :=
  let derived := ResolveIssueBranch (pp_BaseRepo p) (sp_Ref spec) in
  if String.eqb derived "" || negb (String.eqb (pp_WorkRepo p) (pp_BaseRepo p)) ||
     negb (String.eqb (pp_WorkRef p) derived) then
    Err "broker binding: resolve-issue work identity does not match derived destination" else
  if carries_pr_anchor p then Err "broker binding: resolve-issue policy contains fix-pr anchors" else
  if inconsistent_tip p then Err "broker binding: resolve-issue policy has inconsistent initial work tip" else
  match splitOwnerRepo (pp_BaseRepo p) with
  | None => Err "broker binding: persisted base repository is not an owner/name"
  | Some (owner, name) =>
      let mismatch :=
        match pp_SourceIssue p with
        | None => false
        | Some ref => negb (String.eqb (sir_Owner ref) owner) || negb (String.eqb (sir_Name ref) name) ||
                      negb (sir_Number ref =? sp_Ref spec)
        end in
      if mismatch then Err "broker binding: persisted source-issue identity does not match the spec-derived identity" else
      set ← CriterionSetFromPolicy (Some p);
      Ok (with_contract policy {| Owner := owner; Name := name; Number := sp_Ref spec |}
            (match set with Some s => s | None => zero_set end))
  end.

Definition bind_fix_pr (spec : CoderRunSpec) (p : PublicationPolicy) (policy : Policy) : result string Policy :=
  if negb (pp_PRNumber p =? sp_Ref spec) || String.eqb (pp_HeadAnchorOID p) "" then
    Err "broker binding: fix-pr policy does not match the requested PR and head anchor" else
  if pp_WorkInitiallyAbsent p || String.eqb (pp_WorkOID p) "" ||
     negb (String.eqb (pp_WorkOID p) (pp_HeadAnchorOID p)) then
    Err "broker binding: fix-pr work tip must equal the full PR head anchor" else
  if carries_pins p then Err "broker binding: fix-pr policy carries resolve-issue criterion pins" else
  Ok policy.

Definition bind_contribute (spec : CoderRunSpec) (canonicalSpecRepo : string) (p : PublicationPolicy)
    (policy : Policy) : result string Policy :=
  match canonicalRepoIdentity (sp_WorkRepo spec) with
  | None => Err "broker binding: spec work repository is not an owner/name"
  | Some approvedFork =>
      match canonicalRepoIdentity (pp_WorkRepo p) with
      | None => Err "broker binding: persisted work repository does not match the approved fork"
      | Some persistedFork =>
          if negb (String.eqb persistedFork approvedFork) then
            Err "broker binding: persisted work repository does not match the approved fork" else
          match canonicalRepoIdentity canonicalSpecRepo with
          | None => Err "broker binding: canonical spec repository is not an owner/name"
          | Some canonicalBase =>
              if String.eqb canonicalBase persistedFork then
                Err "broker binding: contribute requires a work repository distinct from the base" else
              let derived := ResolveGoalBranch canonicalSpecRepo (sp_WorkItemID spec) in
              if String.eqb derived "" || negb (String.eqb (pp_WorkRef p) derived) then
                Err "broker binding: contribute work ref does not match the goal branch derived from the immutable spec" else
              if carries_pr_anchor p then Err "broker binding: contribute policy contains fix-pr anchors" else
              if carries_pins p then Err "broker binding: contribute policy carries source-issue or criterion pins" else
              if inconsistent_tip p then Err "broker binding: contribute policy has inconsistent initial work tip" else
              Ok policy
          end
      end
  end.

(** The guards of [PolicyFromRun] on the spec alone. *)
Definition check_spec (spec : CoderRunSpec) : result string unit :=
  let mode := sp_Mode spec in
  if negb (String.eqb mode ModeResolveIssue) && negb (String.eqb mode ModeFixPR) &&
     negb (String.eqb mode ModeContribute) then Err "broker binding: unsupported run mode" else
  if String.eqb (sp_Repo spec) "" then Err "broker binding: run spec repository is required" else
  if String.eqb mode ModeContribute then
    if negb (sp_Ref spec =? 0) then Err "broker binding: contribute run spec must carry no ref" else
    if String.eqb (sp_WorkRepo spec) "" then
      Err "broker binding: contribute run spec requires an approved work repository" else
    if String.eqb (TrimSpace (sp_WorkItemID spec)) "" then
      Err "broker binding: contribute run spec requires a work item identity" else Ok tt
  else if sp_Ref spec <? 1 then Err "broker binding: run spec positive ref is required" else Ok tt.

Definition bind_mode (spec : CoderRunSpec) (canonicalSpecRepo : string) (p : PublicationPolicy) : result string Policy :=
  let policy := policy_of_pins (sp_Mode spec) p in
  if String.eqb (sp_Mode spec) ModeResolveIssue then bind_resolve_issue spec p policy else
  if String.eqb (sp_Mode spec) ModeFixPR then bind_fix_pr spec p policy else
  bind_contribute spec canonicalSpecRepo p policy.

Definition PolicyFromRun (run : option CoderRun) (providerConfigRef canonicalSpecRepo : string) :
    result string Policy :=
  match run with
  | None => Err "broker binding: run is required"
  | Some run =>
      if String.eqb providerConfigRef "" || String.eqb canonicalSpecRepo "" then
        Err "broker binding: trusted provider config ref and canonical spec repository are required" else
      match st_PublicationPolicy (Status run) with
      | None => Err "broker binding: persisted publication policy is required"
      | Some p =>
          if String.eqb (UID run) "" || negb (String.eqb (pp_RunUID p) (UID run)) then
            Err "broker binding: publication policy run UID does not match live run" else
          if negb (String.eqb (pp_ProviderConfigRef p) providerConfigRef) then
            Err "broker binding: publication policy provider does not match trusted config" else
          _ ← check_spec (Spec run);
          if String.eqb (pp_BaseRepo p) "" || negb (String.eqb (pp_BaseRepo p) canonicalSpecRepo) then
            Err "broker binding: persisted base repository does not match canonical spec repository" else
          if String.eqb (pp_BaseRepo p) "" || String.eqb (pp_BaseRef p) "" || String.eqb (pp_BaseOID p) "" ||
             String.eqb (pp_WorkRepo p) "" || String.eqb (pp_WorkRef p) "" then
            Err "broker binding: persisted base and work identities are incomplete" else
          policy ← bind_mode (Spec run) canonicalSpecRepo p;
          match validatePolicy policy with
          | Err m => Err ("broker binding: " ++ m)
          | Ok _ => Ok policy
          end
      end
  end.

(** ** Lemmas *)

Lemma slen_pos_cons s : s <> "" <-> 1 <= slen s.
Proof. destruct s; unfold slen; cbn [String.length]; split; intros; [done|lia|lia|done]. Qed.

(** A split value is its two non-empty halves around the last separator. *)
Lemma split_at_spec value owner name :
  split_at value (LastIndexByte value "/") = Some (owner, name) <->
  value = owner ++ "/" ++ name /\ owner <> "" /\ name <> "" /\ no_byte "/" name = true.
Proof.
  split.
  - unfold split_at. destruct (LastIndexByte value "/") as [[|i]|] eqn:Hl; [done| |done].
    destruct (Z.eqb_spec (Z.of_nat (S i)) (slen value - 1)) as [|Hend]; [done|].
    destruct (LastIndexByte_some _ _ _ Hl) as (Hs & Hn & Hlen).
    generalize dependent (stake (S i) value). generalize dependent (sdrop (S (S i)) value).
    intros n Hn o Hs Hlen [= <- <-]. split_and!; [exact Hs| | |exact Hn].
    + intros ->. unfold slen in Hlen. cbn [String.length] in Hlen. lia.
    + intros ->. apply Hend. rewrite Hs, slen_app, Hlen. unfold slen. cbn [String.length]. lia.
  - intros (-> & Ho & Hname & Hn). change (owner ++ "/" ++ name) with (owner ++ String "/" name).
    rewrite LastIndexByte_app by done. unfold split_at.
    destruct (String.length owner) as [|i] eqn:Hlen; [by destruct owner|].
    rewrite slen_app. unfold slen at 1. rewrite Hlen.
    destruct (Z.eqb_spec (Z.of_nat (S i)) (Z.of_nat (S i) + slen (String "/" name) - 1)) as [H|_].
    { exfalso. apply slen_pos_cons in Hname. unfold slen in H, Hname. cbn [String.length] in H. lia. }
    rewrite <- Hlen, stake_app_length. replace (S (String.length owner)) with (String.length owner + 1)%nat by lia.
    rewrite <- sdrop_sdrop, sdrop_app_length. done.
Qed.

Lemma splitOwnerRepo_valid repo a b :
  validRepo repo = true -> Split repo "/" = [a; b] ->
  splitOwnerRepo repo = Some (a, b) /\ repo = a ++ "/" ++ b /\ a <> "" /\ b <> "".
Proof.
  unfold validRepo, splitOwnerRepo. intros Hv Hs. rewrite Hs in Hv.
  destruct (String.eqb_spec (TrimSpace repo) repo) as [->|]; [|done].
  cbn [negb] in Hv. rewrite !andb_true_iff, !negb_true_iff, !String.eqb_neq in Hv. destruct Hv as [[Ha Hb] _].
  pose proof (Join_Split repo "/") as Hj. rewrite Hs in Hj. cbn [Join] in Hj.
  pose proof (Split_no_byte repo "/" b) as Hn. rewrite Hs in Hn.
  split_and!; [|done..]. apply split_at_spec. split_and!; [done..|]. apply Hn. right. left.
Qed.

(** [courier.Criterion{ID: ..., Text: ..., Digest: ...}]: how admission pins
    one criterion of an extracted set. *)
Definition pin_criterion (c : Criterion) : PinnedCriterion :=
  {| pc_ID := ID c; pc_Text := Text c; pc_Digest := Digest c |}.

Lemma pinned_criterion_spec i pc c :
  pinned_criterion i pc = Ok c <->
  pc = pin_criterion c /\ ID c = "AC-" ++ Itoa i /\ slen (Text c) <= MaxCriterionTextBytes /\
  Digest c = digestString (Text c).
Proof.
  unfold pinned_criterion.
  destruct (String.eqb_spec (pc_ID pc) ("AC-" ++ Itoa i)) as [Hid|Hid]; cbn [negb];
    [|split; [done|intros (-> & ? & _); done]].
  destruct (Z.ltb_spec MaxCriterionTextBytes (slen (pc_Text pc)));
    [split; [done|intros (-> & _ & ? & _); cbn in *; lia]|].
  destruct (String.eqb_spec (digestString (pc_Text pc)) (pc_Digest pc)) as [Hd|Hd]; cbn [negb];
    [|split; [done|intros (-> & _ & _ & ?); by destruct Hd]].
  split; [intros [= <-]; cbn; destruct pc; auto|]. intros (-> & _). by destruct c.
Qed.

(** Reading pinned criteria back succeeds exactly on the pins of a list that
    carries the extraction ordinals, the text bound and its own digests. *)
Lemma pinned_criteria_spec i pcs cs :
  pinned_criteria i pcs = Ok cs <-> pcs = pin_criterion <$> cs /\ numbered i cs.
Proof.
  revert i cs. induction pcs as [|pc pcs IH]; intros i cs; cbn [pinned_criteria].
  - split; [intros [= <-]; done|]. intros [H _]. by destruct cs.
  - destruct (pinned_criterion i pc) as [c|m] eqn:Hc; cbn [mbind result_bind].
    + destruct (pinned_criteria (i + 1) pcs) as [cs'|m] eqn:Hcs; cbn [mbind result_bind].
      * apply pinned_criterion_spec in Hc as (-> & ? & ? & ?). apply IH in Hcs as [-> ?].
        split; [intros [= <-]; cbn; auto 10|]. intros [Heq Hn]. destruct cs as [|d cs]; [done|].
        injection Heq as Heq1 Heq2 Heq3 Heq4. destruct Hn as (_ & _ & _ & Hn).
        assert (Hcs : pinned_criteria (i + 1) (pin_criterion <$> cs') = Ok cs) by (apply IH; done).
        rewrite (proj2 (IH (i + 1) cs')) in Hcs by done. injection Hcs as ->.
        destruct c, d. cbn in *. by subst.
      * split; [done|]. intros [Heq Hn]. destruct cs as [|d cs]; [done|]. injection Heq as -> ->.
        destruct Hn as (_ & _ & _ & Hn). by rewrite (proj2 (IH (i + 1) cs)) in Hcs.
    + split; [done|]. intros [Heq Hn]. destruct cs as [|d cs]; [done|]. injection Heq as -> ->.
      destruct Hn as (? & ? & ? & _). by rewrite (proj2 (pinned_criterion_spec i (pin_criterion d) d)) in Hc.
Qed.

(** The issue a persisted reference names. *)
Definition issue_of_ref (r : SourceIssueRef) : SourceIssue :=
  {| Owner := sir_Owner r; Name := sir_Name r; Number := sir_Number r |}.

(** When a persisted policy is the pin of a criterion set: the tuple is
    present, and it is [set] field by field with every digest recomputed. *)
Record pins_set (p : PublicationPolicy) (set : CriterionSet) : Prop := {
  ps_issue : exists r, pp_SourceIssue p = Some r /\ Issue set = issue_of_ref r;
  ps_criteria : AcceptanceCriteria p = pin_criterion <$> Criteria set;
  ps_count : Z.of_nat (length (Criteria set)) <= MaxCriteria;
  ps_numbered : numbered 1 (Criteria set);
  ps_digest : AcceptanceCriteriaDigest p = set_Digest set;
  ps_covers : set_Digest set = set_digest (Issue set) (Criteria set)
}.

Lemma set_digest_nonempty issue cs : set_digest issue cs <> "".
Proof. done. Qed.

Lemma criterion_set_from_policy_spec p set :
  CriterionSetFromPolicy (Some p) = Ok (Some set) <-> pins_set p set.
Proof.
  unfold CriterionSetFromPolicy. split.
  - destruct (String.eqb_spec (AcceptanceCriteriaDigest p) ""); [by destruct (pp_SourceIssue p), (AcceptanceCriteria p)|].
    destruct (pp_SourceIssue p) as [r|] eqn:Hr; [|done].
    destruct (Z.ltb_spec MaxCriteria (Z.of_nat (length (AcceptanceCriteria p)))) as [|Hlen]; [done|].
    destruct (pinned_criteria 1 (AcceptanceCriteria p)) as [cs|] eqn:Hcs; cbn [mbind result_bind]; [|done].
    apply pinned_criteria_spec in Hcs as [Hac Hn].
    destruct (String.eqb_spec (set_digest {| Owner := sir_Owner r; Name := sir_Name r; Number := sir_Number r |} cs)
                (AcceptanceCriteriaDigest p)) as [Hd|]; cbn [negb]; [|done].
    intros [= <-]. rewrite Hac, length_fmap in Hlen. split; cbn [Issue Criteria set_Digest]; eauto.
  - intros [(r & Hr & Hi) Hac Hlen Hn Hd Hc].
    destruct (String.eqb_spec (AcceptanceCriteriaDigest p) "") as [H|]; [rewrite Hd, Hc in H; done|].
    rewrite Hr, Hac, length_fmap. destruct (Z.ltb_spec MaxCriteria (Z.of_nat (length (Criteria set)))); [lia|].
    rewrite (proj2 (pinned_criteria_spec 1 _ (Criteria set))) by done. cbn [mbind result_bind].
    change {| Owner := sir_Owner r; Name := sir_Name r; Number := sir_Number r |} with (issue_of_ref r).
    rewrite <- Hi, <- Hc, Hd, String.eqb_refl. by destruct set.
Qed.

(** *** Tampering *)

(** The text the set digest hashes. *)
Definition set_preimage (issue : SourceIssue) (criteria : list Criterion) : string :=
  ToLower (Canonical issue) ++ "#" ++ Itoa (Number issue) ++ nl ++ Join ((fun c => Digest c ++ nl) <$> criteria) "".

Lemma set_digest_preimage issue cs : set_digest issue cs = "sha256:" ++ sha256_hex (set_preimage issue cs).
Proof. reflexivity. Qed.

Lemma sapp_empty_r (s : string) : s ++ "" = s.
Proof. induction s as [|c s IH]; [done|]. by rewrite sapp_cons, IH. Qed.

Lemma Join_cons_empty x xs : Join (x :: xs) "" = x ++ Join xs "".
Proof. destruct xs; [|done]. cbn [Join]. by rewrite sapp_empty_r. Qed.

(** Criterion lists with genuine digests and the same digest sequence carry
    the same texts, unless two of their texts collide. *)
Lemma numbered_same_digests i cs cs' :
  numbered i cs -> numbered i cs' ->
  Join ((fun c => Digest c ++ nl) <$> cs) "" = Join ((fun c => Digest c ++ nl) <$> cs') "" ->
  cs = cs' \/ exists c c', c ∈ cs /\ c' ∈ cs' /\ Text c <> Text c' /\ sha256_hex (Text c) = sha256_hex (Text c').
Proof.
  revert i cs'. induction cs as [|c cs IH]; intros i [|c' cs'] Hn Hn'; cbn [fmap list_fmap]; rewrite ?Join_cons_empty.
  - by left.
  - destruct Hn' as (_ & _ & -> & _). done.
  - destruct Hn as (_ & _ & -> & _). done.
  - destruct Hn as (Hid & _ & Hd & Hn), Hn' as (Hid' & _ & Hd' & Hn'). rewrite Hd, Hd'. unfold digestString.
    rewrite !sapp_assoc. intros H. apply sapp_inj_l, sapp_inj_length in H as [Hsha H]; [|by rewrite !sha256_hex_length].
    apply sapp_inj_l in H. destruct (decide (Text c = Text c')) as [Ht|Ht].
    + destruct (IH (i + 1) cs' Hn Hn' H) as [->|(d & d' & Hin & Hin' & Hne & Heq)].
      * left. f_equal. destruct c as [a1 t1 d1], c' as [a2 t2 d2]. cbn [ID Text Digest] in *. rewrite Hid, Hid', Hd, Hd', Ht. reflexivity.
      * right. exists d, d'. split; [by right|]. split; [by right|]. split; [exact Hne|exact Heq].
    + right. exists c, c'. split; [left|]. split; [left|]. split; [exact Ht|exact Hsha].
Qed.

(** A collision inside two criterion sets: two of their texts, or the two
    texts their set digests hash, are different with the same SHA-256. *)
Definition collides (s s' : CriterionSet) : Prop :=
  (set_preimage (Issue s) (Criteria s) <> set_preimage (Issue s') (Criteria s') /\
   sha256_hex (set_preimage (Issue s) (Criteria s)) = sha256_hex (set_preimage (Issue s') (Criteria s'))) \/
  exists c c', c ∈ Criteria s /\ c' ∈ Criteria s' /\ Text c <> Text c' /\ sha256_hex (Text c) = sha256_hex (Text c').

Lemma same_digest_same_set p p' s s' :
  pins_set p s -> pins_set p' s' -> pp_SourceIssue p = pp_SourceIssue p' ->
  AcceptanceCriteriaDigest p = AcceptanceCriteriaDigest p' -> s = s' \/ collides s s'.
Proof.
  intros [(r & Hr & Hi) _ _ Hn Hd Hc] [(r' & Hr' & Hi') _ _ Hn' Hd' Hc'] Hsrc Hdig.
  assert (Hiss : Issue s = Issue s') by congruence.
  assert (Hset : set_Digest s = set_Digest s') by congruence. pose proof Hset as Hd0. rewrite Hc, Hc', !set_digest_preimage in Hset.
  apply sapp_inj_l in Hset.
  destruct (decide (set_preimage (Issue s) (Criteria s) = set_preimage (Issue s') (Criteria s'))) as [Hp|Hp];
    [|by right; left].
  unfold set_preimage in Hp. rewrite Hiss in Hp. do 4 apply sapp_inj_l in Hp.
  destruct (numbered_same_digests 1 _ _ Hn Hn' Hp) as [Heq|Hcol]; [|by right; right].
  left. destruct s as [i cs d], s' as [i' cs' d']. cbn [Issue Criteria set_Digest] in *. rewrite Hiss, Heq, Hd0. reflexivity.
Qed.

(** *** The guards *)

(** What the guards ahead of the mode's own checks establish. *)
Record bindable (run : CoderRun) (provider base : string) (p : PublicationPolicy) : Prop := {
  bd_policy : st_PublicationPolicy (Status run) = Some p;
  bd_trusted : provider <> "" /\ base <> "";
  bd_uid : UID run <> "" /\ pp_RunUID p = UID run;
  bd_provider : pp_ProviderConfigRef p = provider;
  bd_spec : check_spec (Spec run) = Ok tt;
  bd_base : pp_BaseRepo p = base;
  bd_complete : pp_BaseRef p <> "" /\ pp_BaseOID p <> "" /\ pp_WorkRepo p <> "" /\ pp_WorkRef p <> ""
}.

Lemma eqb_orb_false a b : String.eqb a "" || b = false <-> a <> "" /\ b = false.
Proof. by rewrite orb_false_iff, String.eqb_neq. Qed.

Lemma policy_from_run_spec run provider base pol :
  PolicyFromRun (Some run) provider base = Ok pol <->
  exists p, bindable run provider base p /\ bind_mode (Spec run) base p = Ok pol /\ validatePolicy pol = Ok tt.
Proof.
  unfold PolicyFromRun. split.
  - destruct (_ || _) eqn:Ht; [done|]. apply eqb_orb_false in Ht as [? ?%String.eqb_neq].
    destruct (st_PublicationPolicy (Status run)) as [p|] eqn:Hp; [|done].
    destruct (_ || _) eqn:Hu; [done|]. apply eqb_orb_false in Hu as [? ?%negb_false_iff%String.eqb_eq].
    destruct (String.eqb_spec (pp_ProviderConfigRef p) provider) as [|]; [|done]. cbn [negb].
    destruct (check_spec (Spec run)) as [[]|] eqn:Hs; [|done]. cbn [mbind result_bind].
    destruct (_ || _) eqn:Hb; [done|]. apply eqb_orb_false in Hb as [? ?%negb_false_iff%String.eqb_eq].
    destruct (_ || _) eqn:Hc; [done|]. rewrite !orb_false_iff, !String.eqb_neq in Hc.
    destruct (bind_mode (Spec run) base p) as [pol'|] eqn:Hm; [|done]. cbn [mbind result_bind].
    destruct (validatePolicy pol') as [[]|] eqn:Hv; [|done]. intros [= <-].
    exists p. split; [|done]. destruct Hc as ((((_ & ?) & ?) & ?) & ?). by split.
  - intros (p & [Hp [Ht1 Ht2] [Hu1 Hu2] Hprov Hs Hb (Hc1 & Hc2 & Hc3 & Hc4)] & Hm & Hv).
    rewrite (proj2 (String.eqb_neq provider "")), (proj2 (String.eqb_neq base "")) by done. cbn [orb]. rewrite Hp.
    rewrite (proj2 (String.eqb_neq (UID run) "")), Hu2, String.eqb_refl, Hprov, String.eqb_refl by done. cbn [negb orb].
    rewrite Hs. cbn [mbind result_bind]. rewrite Hb, String.eqb_refl.
    rewrite !(proj2 (String.eqb_neq _ "")) by done. cbn [negb orb]. rewrite Hm. cbn [mbind result_bind]. by rewrite Hv.
Qed.

(** The mode's own checks change no destination and no anchor. *)
Lemma bind_mode_pins spec base p pol :
  bind_mode spec base p = Ok pol ->
  exists issue set, pol = with_contract (policy_of_pins (sp_Mode spec) p) issue set.
Proof.
  unfold bind_mode, bind_resolve_issue, bind_fix_pr, bind_contribute.
  set (q := policy_of_pins (sp_Mode spec) p).
  assert (Hq : q = with_contract q zero_issue zero_set) by reflexivity. clearbody q.
  destruct (CriterionSetFromPolicy (Some p)); cbn [mbind result_bind];
    repeat case_match; try done; intros [= <-]; eauto.
Qed.

Lemma bound_run_uid run provider base pol : PolicyFromRun (Some run) provider base = Ok pol -> RunUID pol = UID run.
Proof.
  intros (p & [_ _ [_ Hu] _ _ _ _] & Hm & _)%policy_from_run_spec.
  destruct (bind_mode_pins _ _ _ _ Hm) as (issue & set & ->). by rewrite <- Hu.
Qed.

Lemma bind_resolve_issue_spec spec p q pol :
  bind_resolve_issue spec p q = Ok pol ->
  exists owner name set,
    pp_WorkRepo p = pp_BaseRepo p /\ pp_WorkRef p = ResolveIssueBranch (pp_BaseRepo p) (sp_Ref spec) /\
    pp_WorkRef p <> "" /\ pp_BaseRepo p = owner ++ "/" ++ name /\
    CriterionSetFromPolicy (Some p) = Ok set /\
    pol = with_contract q {| Owner := owner; Name := name; Number := sp_Ref spec |} (default zero_set set).
Proof.
  unfold bind_resolve_issue. destruct (String.eqb_spec (ResolveIssueBranch (pp_BaseRepo p) (sp_Ref spec)) "") as [|Hne]; [done|].
  destruct (String.eqb_spec (pp_WorkRepo p) (pp_BaseRepo p)) as [Hw|]; [|done].
  destruct (String.eqb_spec (pp_WorkRef p) (ResolveIssueBranch (pp_BaseRepo p) (sp_Ref spec))) as [Hr|]; [|done].
  cbn [negb orb]. destruct (carries_pr_anchor p); [done|]. destruct (inconsistent_tip p); [done|].
  assert (Hv : validRepo (pp_BaseRepo p) = true) by (unfold ResolveIssueBranch in Hne; by destruct (validRepo (pp_BaseRepo p))).
  destruct (validRepo_parts _ Hv) as (a & b & Hab). destruct (splitOwnerRepo_valid _ a b Hv Hab) as (-> & Heq & _).
  destruct (match pp_SourceIssue p with Some _ => _ | None => _ end); [done|].
  destruct (CriterionSetFromPolicy (Some p)) as [set|]; [|done]. cbn [mbind result_bind]. intros [= <-].
  exists a, b, set. rewrite Hr. split_and!; done.
Qed.

Lemma bind_fix_pr_spec spec p q pol :
  bind_fix_pr spec p q = Ok pol ->
  pp_PRNumber p = sp_Ref spec /\ pp_HeadAnchorOID p <> "" /\ pp_WorkOID p = pp_HeadAnchorOID p /\ pol = q.
Proof.
  unfold bind_fix_pr. destruct (Z.eqb_spec (pp_PRNumber p) (sp_Ref spec)) as [Hn|]; [|done].
  destruct (String.eqb_spec (pp_HeadAnchorOID p) ""); [done|]. cbn [negb orb].
  destruct (pp_WorkInitiallyAbsent p); [done|]. destruct (String.eqb (pp_WorkOID p) ""); [done|].
  destruct (String.eqb_spec (pp_WorkOID p) (pp_HeadAnchorOID p)); [|done]. cbn [negb orb].
  destruct (carries_pins p); [done|]. by intros [= <-].
Qed.

Lemma bind_contribute_spec spec base p q pol :
  bind_contribute spec base p q = Ok pol ->
  exists fork upstream,
    canonicalRepoIdentity (sp_WorkRepo spec) = Some fork /\ canonicalRepoIdentity (pp_WorkRepo p) = Some fork /\
    canonicalRepoIdentity base = Some upstream /\ fork <> upstream /\
    pp_WorkRef p = ResolveGoalBranch base (sp_WorkItemID spec) /\ pp_WorkRef p <> "" /\ pol = q.
Proof.
  unfold bind_contribute. destruct (canonicalRepoIdentity (sp_WorkRepo spec)) as [fork|]; [|done].
  destruct (canonicalRepoIdentity (pp_WorkRepo p)) as [fork'|]; [|done].
  destruct (String.eqb_spec fork' fork) as [->|]; [|done]. cbn [negb].
  destruct (canonicalRepoIdentity base) as [up|]; [|done].
  destruct (String.eqb_spec up fork) as [|Hne]; [done|].
  destruct (String.eqb_spec (ResolveGoalBranch base (sp_WorkItemID spec)) "") as [|Hd]; [done|].
  destruct (String.eqb_spec (pp_WorkRef p) (ResolveGoalBranch base (sp_WorkItemID spec))) as [Hr|]; [|done].
  cbn [negb orb]. destruct (carries_pr_anchor p); [done|]. destruct (carries_pins p); [done|].
  destruct (inconsistent_tip p); [done|]. intros [= <-]. exists fork, up. rewrite Hr. split_and!; congruence.
Qed.

(** A valid resolve-issue policy's trusted issue lives in the base repository. *)
Lemma valid_resolve_issue_canonical pol :
  validatePolicy pol = Ok tt -> pol_Mode pol = ModeResolveIssue -> Canonical (pol_SourceIssue pol) = BaseRepo pol.
Proof.
  unfold validatePolicy, is_mode. intros Hv Hm. rewrite Hm in Hv. destruct (_ || _) in Hv; [done|]. destruct (_ && _) in Hv; [done|].
  cbn in Hv. unfold validate_resolve_issue in Hv. destruct (_ || _) in Hv; [done|].
  destruct (IsZero _) in Hv; [done|]. destruct (_ <=? _) in Hv; [done|].
  by destruct (String.eqb_spec (Canonical (pol_SourceIssue pol)) (BaseRepo pol)).
Qed.

(** The three modes a bound policy can have. *)
Lemma bind_mode_cases spec base p pol :
  check_spec spec = Ok tt -> bind_mode spec base p = Ok pol ->
  let q := policy_of_pins (sp_Mode spec) p in
  (sp_Mode spec = ModeResolveIssue /\ bind_resolve_issue spec p q = Ok pol) \/
  (sp_Mode spec = ModeFixPR /\ bind_fix_pr spec p q = Ok pol) \/
  (sp_Mode spec = ModeContribute /\ bind_contribute spec base p q = Ok pol).
Proof.
  unfold check_spec, bind_mode.
  destruct (String.eqb_spec (sp_Mode spec) ModeResolveIssue) as [->|]; [by left|].
  destruct (String.eqb_spec (sp_Mode spec) ModeFixPR) as [->|]; [by right; left|].
  destruct (String.eqb_spec (sp_Mode spec) ModeContribute) as [->|]; [by right; right|done].
Qed.

(** The pins of an extracted set are read back as that set. *)
Lemma criteria_pins_read_back body issue set p :
  ExtractCriteria body issue = Ok set ->
  pp_SourceIssue p = Some {| sir_Owner := Owner issue; sir_Name := Name issue; sir_Number := Number issue |} ->
  AcceptanceCriteria p = pin_criterion <$> Criteria set -> AcceptanceCriteriaDigest p = set_Digest set ->
  CriterionSetFromPolicy (Some p) = Ok (Some set).
Proof.
  intros (Hi & _ & Hlen & Hn & _ & Hd)%extract_criteria_sound Hissue Hrows Hdigest.
  apply criterion_set_from_policy_spec. split; [|done..|by rewrite Hd, Hi].
  eexists. split; [exact Hissue|]. rewrite Hi. by destruct issue.
Qed.

(** The work ref of a bound policy that does not continue a pull request. *)
Lemma derived_work_ref run provider base pol :
  PolicyFromRun (Some run) provider base = Ok pol -> pol_Mode pol <> ModeFixPR ->
  (pol_Mode pol = ModeResolveIssue /\ WorkRepo pol = base /\
   WorkRef pol = ResolveIssueBranch base (sp_Ref (Spec run)) /\ WorkRef pol <> "") \/
  (pol_Mode pol = ModeContribute /\ WorkRef pol = ResolveGoalBranch base (sp_WorkItemID (Spec run)) /\ WorkRef pol <> "").
Proof.
  intros (p & [_ _ _ _ Hs Hb _] & Hm & _)%policy_from_run_spec Hf.
  destruct (bind_mode_cases _ _ _ _ Hs Hm) as [[Hmode Hbm]|[[Hmode Hbm]|[Hmode Hbm]]].
  - left. apply bind_resolve_issue_spec in Hbm as (o & n & s & Hw & Hr & Hne & _ & _ & ->). rewrite <- Hb. cbn.
    rewrite Hw. done.
  - apply bind_fix_pr_spec in Hbm as (_ & _ & _ & ->). done.
  - right. apply bind_contribute_spec in Hbm as (f & u & _ & _ & _ & _ & Hr & Hr' & ->). done.
Qed.

(** A bound contribution works in the approved fork, which is not the base. *)
Lemma bound_fork run provider base pol :
  PolicyFromRun (Some run) provider base = Ok pol -> pol_Mode pol = ModeContribute ->
  exists fork, canonicalRepoIdentity (sp_WorkRepo (Spec run)) = Some fork /\
    canonicalRepoIdentity (WorkRepo pol) = Some fork /\ canonicalRepoIdentity base <> Some fork.
Proof.
  intros (p & [_ _ _ _ Hs _ _] & Hm & _)%policy_from_run_spec Hc. destruct (bind_mode_pins _ _ _ _ Hm) as (i & st & Hpol).
  assert (Hmode : sp_Mode (Spec run) = ModeContribute) by by rewrite Hpol in Hc.
  destruct (bind_mode_cases _ _ _ _ Hs Hm) as [[Hm' _]|[[Hm' _]|[_ Hbm]]]; [by rewrite Hmode in Hm'..|].
  apply bind_contribute_spec in Hbm as (f & u & H1 & H2 & H3 & Hne & _ & _ & ->). exists f. cbn. rewrite H3.
  split_and!; [done..|congruence].
Qed.

(** ** Properties *)

(** The binding derives every destination from the immutable spec: a policy it
    returns is one the engine accepts, names the live run, the trusted provider
    and the trusted base repository, and by mode
    - resolve-issue works in the base repository on the branch derived from the
      issue number, with the issue itself as the trusted linkage identity and
      the pinned criteria, if any, verified against their digests;
    - fix-pr is anchored at the head of the very pull request the spec names;
    - contribute works in the approved fork, which is not the base under any
      casing, on the branch derived from the work item, without any pin. *)
Theorem policy_binding_sound (run : CoderRun) (provider base : string) (pol : Policy)
    (Hok : PolicyFromRun (Some run) provider base = Ok pol) :
  validatePolicy pol = Ok tt /\ RunUID pol = UID run /\ RunUID pol <> "" /\ Provider pol = provider /\
  BaseRepo pol = base /\ pol_Mode pol = sp_Mode (Spec run) /\
  ((pol_Mode pol = ModeResolveIssue /\ WorkRepo pol = base /\
    WorkRef pol = ResolveIssueBranch base (sp_Ref (Spec run)) /\ WorkRef pol <> "" /\
    Canonical (pol_SourceIssue pol) = base /\ Number (pol_SourceIssue pol) = sp_Ref (Spec run) /\
    (pol_Criteria pol = zero_set \/
     exists p, st_PublicationPolicy (Status run) = Some p /\ pins_set p (pol_Criteria pol))) \/
   (pol_Mode pol = ModeFixPR /\ PRNumber pol = sp_Ref (Spec run) /\ HeadAnchorOID pol <> "" /\
    WorkAnchorOID pol = HeadAnchorOID pol /\ pol_Criteria pol = zero_set) \/
   (pol_Mode pol = ModeContribute /\ pol_Criteria pol = zero_set /\
    WorkRef pol = ResolveGoalBranch base (sp_WorkItemID (Spec run)) /\ WorkRef pol <> "" /\
    exists fork, canonicalRepoIdentity (sp_WorkRepo (Spec run)) = Some fork /\
      canonicalRepoIdentity (WorkRepo pol) = Some fork /\ canonicalRepoIdentity base <> Some fork)).
Proof.
  apply policy_from_run_spec in Hok as (p & [Hp _ [Hu1 Hu2] Hprov Hs Hb _] & Hm & Hv).
  destruct (bind_mode_pins _ _ _ _ Hm) as (issue & set & Hpol).
  split_and!; [done|by rewrite Hpol, <- Hu2|by rewrite Hpol; cbn; rewrite Hu2|by rewrite Hpol, <- Hprov|
    by rewrite Hpol, <- Hb|by rewrite Hpol|]. clear Hpol.
  destruct (bind_mode_cases _ _ _ _ Hs Hm) as [[Hmode Hbm]|[[Hmode Hbm]|[Hmode Hbm]]].
  - left. apply bind_resolve_issue_spec in Hbm as (o & n & s & Hw & Hr & Hne & Hsplit & Hc & ->).
    rewrite <- Hb. cbn. rewrite Hmode, Hw. split_and!; try done.
    + exact (valid_resolve_issue_canonical _ Hv Hmode).
    + destruct s as [s|]; [right|by left]. exists p. split; [done|]. by apply criterion_set_from_policy_spec.
  - right; left. apply bind_fix_pr_spec in Hbm as (Hn & Ha & Hw & ->). cbn. auto.
  - right; right. apply bind_contribute_spec in Hbm as (f & u & H1 & H2 & H3 & Hne & Hr & Hr' & ->). cbn.
    rewrite Hmode. split_and!; try done. exists f. rewrite H3. split_and!; [done..|congruence].
Qed.

(** Two runs never publish to the same derived branch for different work: when
    two bound policies of the modes that derive their branch name the same work
    ref, they have the same mode and base repository, and the same issue number
    or the same work-item key. *)
Theorem bound_branches_isolated (run1 run2 : CoderRun) (prov1 prov2 base1 base2 : string) (pol1 pol2 : Policy)
    (H1 : PolicyFromRun (Some run1) prov1 base1 = Ok pol1) (H2 : PolicyFromRun (Some run2) prov2 base2 = Ok pol2)
    (Hm1 : pol_Mode pol1 <> ModeFixPR) (Hm2 : pol_Mode pol2 <> ModeFixPR) (Href : WorkRef pol1 = WorkRef pol2) :
  base1 = base2 /\ pol_Mode pol1 = pol_Mode pol2 /\
  (pol_Mode pol1 = ModeResolveIssue -> WorkRepo pol1 = WorkRepo pol2 /\ sp_Ref (Spec run1) = sp_Ref (Spec run2)) /\
  (pol_Mode pol1 = ModeContribute ->
   goalKeyHex (sp_WorkItemID (Spec run1)) = goalKeyHex (sp_WorkItemID (Spec run2))).
Proof.
  destruct (derived_work_ref _ _ _ _ H1 Hm1) as [(M1 & R1 & W1 & N1)|(M1 & W1 & N1)],
    (derived_work_ref _ _ _ _ H2 Hm2) as [(M2 & R2 & W2 & N2)|(M2 & W2 & N2)]; rewrite W1 in N1, Href; rewrite W2 in N2, Href.
  - destruct (proj1 (branches_disjoint base1 base2 (sp_Ref (Spec run1)) (sp_Ref (Spec run2)) "" "") N1 Href) as [-> Hn].
    split_and!; [done|by rewrite M1, M2|by rewrite R1, R2|by rewrite M1].
  - exfalso. exact (proj2 (proj2 (branches_disjoint base1 base2 (sp_Ref (Spec run1)) 0 "" (sp_WorkItemID (Spec run2)))) N1 Href).
  - exfalso. symmetry in Href.
    exact (proj2 (proj2 (branches_disjoint base2 base1 (sp_Ref (Spec run2)) 0 "" (sp_WorkItemID (Spec run1)))) N2 Href).
  - destruct (proj1 (proj2 (branches_disjoint base1 base2 0 0 (sp_WorkItemID (Spec run1)) (sp_WorkItemID (Spec run2)))) N1 Href)
      as [-> Hn]. split_and!; [done|by rewrite M1, M2|by rewrite M1|done].
Qed.

(** Pinning and reading back is the identity: the criterion set extracted from
    an issue body, frozen into a persisted policy field by field, is read back
    by the broker as the very same set. *)
Theorem criteria_pin_round_trip (body : string) (issue : SourceIssue) (set : CriterionSet) (p : PublicationPolicy)
    (Hset : ExtractCriteria body issue = Ok set)
    (Hissue : pp_SourceIssue p = Some {| sir_Owner := Owner issue; sir_Name := Name issue; sir_Number := Number issue |})
    (Hrows : AcceptanceCriteria p = pin_criterion <$> Criteria set)
    (Hdigest : AcceptanceCriteriaDigest p = set_Digest set) :
  CriterionSetFromPolicy (Some p) = Ok (Some set).
Proof. by apply (criteria_pins_read_back body issue). Qed.

(** Tampering needs a collision: when two persisted policies with the same
    source issue and the same set digest are both read back, the sets are equal,
    or two different texts of theirs have the same SHA-256. *)
Theorem criteria_pin_tamper_evident (p p' : PublicationPolicy) (s s' : CriterionSet)
    (Hs : CriterionSetFromPolicy (Some p) = Ok (Some s)) (Hs' : CriterionSetFromPolicy (Some p') = Ok (Some s'))
    (Hissue : pp_SourceIssue p = pp_SourceIssue p')
    (Hdigest : AcceptanceCriteriaDigest p = AcceptanceCriteriaDigest p') :
  s = s' \/ collides s s'.
Proof.
  apply criterion_set_from_policy_spec in Hs, Hs'. by eapply same_digest_same_set.
Qed.

(** ** Witnesses *)

Definition bound_issue : SourceIssue := {| Owner := "misospace"; Name := "courier"; Number := 12 |}.

Definition bound_body (criterion : string) : string := "## Acceptance" ++ nl ++ "- " ++ criterion.

Definition bound_set : CriterionSet :=
  Eval vm_compute in match ExtractCriteria (bound_body "it works") bound_issue with Ok s => s | Err _ => zero_set end.

Definition bound_base_oid : string := "fedcba9876543210fedcba9876543210fedcba98".

Definition bound_pins (set : CriterionSet) : PublicationPolicy :=
  {| pp_RunUID := "uid-1"; pp_ProviderConfigRef := "github"; pp_ProviderEndpoint := ""; pp_CredentialRefDigest := "";
     pp_BaseRepo := "misospace/courier"; pp_BaseRef := "main"; pp_BaseOID := bound_base_oid; pp_WorkRepo := "misospace/courier";
     pp_WorkRef := "courier/misospace/courier/issue-12"; pp_WorkInitiallyAbsent := true; pp_WorkOID := "";
     pp_PRNumber := 0; pp_HeadAnchorOID := "";
     pp_SourceIssue := Some {| sir_Owner := "misospace"; sir_Name := "courier"; sir_Number := 12 |};
     AcceptanceCriteria := pin_criterion <$> Criteria set; AcceptanceCriteriaDigest := set_Digest set |}.

Definition bound_spec : CoderRunSpec :=
  {| sp_Mode := "resolve-issue"; sp_Source := "dispatch"; sp_SourceAgent := ""; sp_SourceContext := "";
     sp_WorkItemID := "12"; sp_AssignmentKind := ""; sp_AssignmentReasons := []; sp_Repo := "misospace/courier";
     sp_WorkRepo := ""; sp_Ref := 12; sp_Lane := ""; sp_Debug := false |}.

Definition bound_run : CoderRun :=
  let r := new_run "runs" "run-1" bound_spec in
  {| Namespace := "runs"; run_Name := "run-1"; UID := "uid-1"; ResourceVersion := ""; Generation := 1;
     CreationTimestamp := CreationTimestamp r; DeletionTimestamp := None; Finalizers := []; Annotations := ∅;
     Spec := bound_spec; Status := set_st_PublicationPolicy (Status r) (Some (bound_pins bound_set)) |}.

Definition bound_policy : Policy :=
  with_contract (policy_of_pins "resolve-issue" (bound_pins bound_set)) bound_issue bound_set.

Lemma policy_binding_sound_witness :
  WorkRef bound_policy = ResolveIssueBranch "misospace/courier" 12 /\ validatePolicy bound_policy = Ok tt.
Proof.
  assert (H : PolicyFromRun (Some bound_run) "github" "misospace/courier" = Ok bound_policy) by (vm_compute; reflexivity).
  destruct (policy_binding_sound bound_run "github" "misospace/courier" bound_policy H) as (Hv & _ & _ & _ & _ & _ & Hm).
  split; [|exact Hv]. destruct Hm as [(_ & _ & Hr & _)|[(Hm & _)|(Hm & _)]]; [exact Hr|discriminate Hm|discriminate Hm].
Defined.

Lemma bound_branches_isolated_witness :
  sp_Ref (Spec bound_run) = sp_Ref (Spec bound_run) /\ WorkRepo bound_policy = WorkRepo bound_policy.
Proof.
  assert (H : PolicyFromRun (Some bound_run) "github" "misospace/courier" = Ok bound_policy) by (vm_compute; reflexivity).
  destruct (bound_branches_isolated bound_run bound_run "github" "github" "misospace/courier" "misospace/courier"
    bound_policy bound_policy H H ltac:(discriminate) ltac:(discriminate) eq_refl) as (_ & _ & Hi & _).
  destruct (Hi eq_refl) as [H1 H2]. split; [exact H2|exact H1].
Defined.

Lemma criteria_pin_round_trip_witness : CriterionSetFromPolicy (Some (bound_pins bound_set)) = Ok (Some bound_set).
Proof.
  apply (criteria_pin_round_trip (bound_body "it works") bound_issue bound_set (bound_pins bound_set));
    [vm_compute; reflexivity|reflexivity|reflexivity|reflexivity].
Defined.

Lemma criteria_pin_tamper_evident_witness : bound_set = bound_set \/ collides bound_set bound_set.
Proof.
  assert (H : CriterionSetFromPolicy (Some (bound_pins bound_set)) = Ok (Some bound_set)) by (vm_compute; reflexivity).
  exact (criteria_pin_tamper_evident (bound_pins bound_set) (bound_pins bound_set) bound_set bound_set H H eq_refl eq_refl).
Defined.
