(* ===== verification/SecureAdmission.v ===== *)
(** * Secure admission (internal/controller/secure_control.go)

    [ResolveAdmission] selects the provider registration for a run's immutable
    repository, reads the forge through the operator's read identity, and pins
    the publication policy the broker later binds to.  Every provider call is a
    request of [providerE].

    The formatted operands of the error details are left out; the reasons,
    which the reconciler classifies by, are the source's.  The digest of the
    registration's projection is copied into the policy and never inspected:
    it is an argument here, and the theorems hold for every such function. *)

From S2P Require Import Prelude Effects GoStrings Regex Sha256 GoTime Branch Run Kube Linkage Criteria Policy Binding Forge.
Local Open Scope string_scope.
Local Open Scope Z_scope.

(** ** Errors *)

Inductive admission_error :=
| NeedsHuman (reason detail : string)       (* *SecureNeedsHumanError *)
| TransientRead (reason detail : string)    (* a provider read to retry *)
| LaunchInput (e : registry_error)          (* launchContribution's error *)
| PlainError (msg : string).

Definition transientOrNeedsHuman (err : provider_error) (reason detail : string) : admission_error :=
  match err with
  | ErrUnsupported => NeedsHuman "ProviderCapability" detail
  | PermanentProvider r d => NeedsHuman r d
  | ProviderFailed _ => TransientRead reason detail
  end.

(** A provider read whose failure is classified. *)
Definition read {X} (e : providerE (result provider_error X)) (detail : string) :
    prog providerE (result admission_error X) :=
  r ← call e;
  match r with
  | Ok x => Ret (Ok x)
  | Err err => Ret (Err (transientOrNeedsHuman err "ProviderRead" detail))
  end.

Definition fail {X} (e : admission_error) : prog providerE (result admission_error X) := Ret (Err e).

(** ** Configuration *)

(** The provider facets of the selected registration: the factory's answer,
    with nil facets as [false].  A factory error is [Err]. *)
Record AdmissionProvider := { has_Policy : bool; has_HeadLister : bool }.

Record AdmissionConfig := {
  RunNamespace : string;
  cfg_Registry : Registry;
  Providers : option (Registration -> result string AdmissionProvider);
  Sources : option SourceRegistry;
  projection_digest : Registration -> string
}.

(** ** Helpers *)

Definition splitOwnerName (canonical : string) : option (string * string) :=
  split_at canonical (LastIndexByte canonical "/").

Definition selectRegistration (cfg : AdmissionConfig) (spec : CoderRunSpec) : result string Registration :=
  if String.eqb (sp_Mode spec) Mode_Contribute
  then SelectContribution (cfg_Registry cfg) (sp_Repo spec) (sp_WorkRepo spec)
  else Select (cfg_Registry cfg) (sp_Repo spec).

Definition checkContributionShape (spec : CoderRunSpec) : result admission_error unit :=
  if negb (String.eqb (sp_Mode spec) Mode_Contribute) then Ok tt else
  if negb (sp_Ref spec =? 0) || String.eqb (sp_WorkRepo spec) "" || String.eqb (TrimSpace (sp_WorkItemID spec)) "" then
    Err (NeedsHuman "ContributionPolicy" "a contribute run carries an approved fork and no source-owned work item")
  else Ok tt.

Definition recordedWorkTip (run : CoderRun) (oid : string) : bool :=
  if String.eqb oid "" then false else
  if String.eqb (HeadSHA (Status run)) oid then true else
  match st_PublicationPolicy (Status run) with
  | Some p =>
      if String.eqb (pp_RunUID p) (UID run)
      then String.eqb (pp_WorkOID p) oid || String.eqb (pp_HeadAnchorOID p) oid
      else false
  | None => false
  end.

(** The policy before the mode's own fields. *)
Definition base_pins (cfg : AdmissionConfig) (run : CoderRun) (reg : Registration) (canonical : Repository) : PublicationPolicy :=
  {| pp_RunUID := UID run; pp_ProviderConfigRef := reg_Name reg; pp_ProviderEndpoint := reg_Endpoint reg;
     pp_CredentialRefDigest := projection_digest cfg reg; pp_BaseRepo := repo_Canonical canonical;
     pp_BaseRef := ""; pp_BaseOID := ""; pp_WorkRepo := ""; pp_WorkRef := ""; pp_WorkInitiallyAbsent := false;
     pp_WorkOID := ""; pp_PRNumber := 0; pp_HeadAnchorOID := ""; pp_SourceIssue := None;
     AcceptanceCriteria := []; AcceptanceCriteriaDigest := "" |}.

(** The destination fields, in one assignment. *)
Definition with_destination (p : PublicationPolicy) (baseRef baseOID workRepo workRef : string) (absent : bool)
    (workOID : string) (pr : Z) (head : string) : PublicationPolicy :=
  {| pp_RunUID := pp_RunUID p; pp_ProviderConfigRef := pp_ProviderConfigRef p; pp_ProviderEndpoint := pp_ProviderEndpoint p;
     pp_CredentialRefDigest := pp_CredentialRefDigest p; pp_BaseRepo := pp_BaseRepo p;
     pp_BaseRef := baseRef; pp_BaseOID := baseOID; pp_WorkRepo := workRepo; pp_WorkRef := workRef;
     pp_WorkInitiallyAbsent := absent; pp_WorkOID := workOID; pp_PRNumber := pr; pp_HeadAnchorOID := head;
     pp_SourceIssue := pp_SourceIssue p; AcceptanceCriteria := AcceptanceCriteria p;
     AcceptanceCriteriaDigest := AcceptanceCriteriaDigest p |}.

Definition with_pins (p : PublicationPolicy) (ref : SourceIssueRef) (rows : list PinnedCriterion) (digest : string) : PublicationPolicy :=
  {| pp_RunUID := pp_RunUID p; pp_ProviderConfigRef := pp_ProviderConfigRef p; pp_ProviderEndpoint := pp_ProviderEndpoint p;
     pp_CredentialRefDigest := pp_CredentialRefDigest p; pp_BaseRepo := pp_BaseRepo p;
     pp_BaseRef := pp_BaseRef p; pp_BaseOID := pp_BaseOID p; pp_WorkRepo := pp_WorkRepo p; pp_WorkRef := pp_WorkRef p;
     pp_WorkInitiallyAbsent := pp_WorkInitiallyAbsent p; pp_WorkOID := pp_WorkOID p; pp_PRNumber := pp_PRNumber p;
     pp_HeadAnchorOID := pp_HeadAnchorOID p; pp_SourceIssue := Some ref; AcceptanceCriteria := rows;
     AcceptanceCriteriaDigest := digest |}.

(** [ListPullRequestsByHead] with [ErrUnsupported] tolerated. *)
Definition existing_prs (lister : bool) (base head ref : string) : prog providerE (result admission_error (list PullRequest)) :=
  if negb lister then Ret (Ok []) else
  r ← call (ListPullRequestsByHead base head ref);
  match r with
  | Ok prs => Ret (Ok prs)
  | Err ErrUnsupported => Ret (Ok [])
  | Err err => Ret (Err (transientOrNeedsHuman err "ProviderRead" "existing pull request search failed"))
  end.

Definition settled_pr (pr : PullRequest) : bool := fp_Merged pr || String.eqb (fp_State pr) "closed".

(** ** Resolve-issue *)

(** From the trusted source-issue read on: verify the answer's identity, extract
    the criteria and pin them. *)
Definition admit_criteria (spec : CoderRunSpec) (canonical : string) (p : PublicationPolicy) :
    prog providerE (result admission_error PublicationPolicy) :=
  item ←? read (ReadWorkItem canonical (Itoa (sp_Ref spec))) "source issue read failed" ;
  let '(returnedNumber, ok) := Atoi (TrimSpace (fw_ID item)) in
  if negb ok || negb (returnedNumber =? sp_Ref spec) then
    fail (NeedsHuman "ProviderRead" "source issue read returned a different work item") else
  if negb (EqualFold (fw_Repo item) canonical) then
    fail (NeedsHuman "ProviderRead" "source issue read returned a work item of another repository; repository identity mismatch") else
  match splitOwnerName canonical with
  | None => fail (NeedsHuman "ProviderRead" "canonical repository is not an owner/name")
  | Some (owner, name) =>
      match ExtractCriteria (fw_Body item) {| Owner := owner; Name := name; Number := sp_Ref spec |} with
      | Err m => fail (NeedsHuman "CriteriaUnpinnable" m)
      | Ok set =>
          Ret (Ok (with_pins p {| sir_Owner := owner; sir_Name := name; sir_Number := sp_Ref spec |}
                     (pin_criterion <$> Criteria set) (set_Digest set)))
      end
  end.

Definition admit_resolve_issue (spec : CoderRunSpec) (provider : AdmissionProvider) (canonical : Repository)
    (p : PublicationPolicy) : prog providerE (result admission_error PublicationPolicy) :=
  let repo := repo_Canonical canonical in
  base ←? read (ReadRef canonical (repo_DefaultRef canonical)) "base ref read failed" ;
  if negb (ref_Exists base) || String.eqb (ref_OID base) "" then
    fail (NeedsHuman "ProviderRead" "base ref does not exist") else
  let workRef := ResolveIssueBranch repo (sp_Ref spec) in
  if String.eqb workRef "" then fail (PlainError "secure admission: cannot derive the work ref") else
  work ←? read (ReadRef canonical workRef) "work ref read failed" ;
  existing ←? existing_prs (has_HeadLister provider) repo repo workRef ;
  if existsb settled_pr existing then
    fail (NeedsHuman "HeadAlreadyMerged" "a closed pull request already exists for the head; publication requires a human decision") else
  admit_criteria spec repo
    (with_destination p (repo_DefaultRef canonical) (ref_OID base) repo workRef (negb (ref_Exists work))
       (if ref_Exists work then ref_OID work else "") 0 "").

(** ** Fix-pr *)

Definition admit_fix_pr (spec : CoderRunSpec) (canonical : Repository) (p : PublicationPolicy) :
    prog providerE (result admission_error PublicationPolicy) :=
  let repo := repo_Canonical canonical in
  pr ←? read (ReadPullRequest repo (sp_Ref spec)) "pull request read failed" ;
  if negb (String.eqb (fp_BaseRepo pr) repo) || String.eqb (fp_BaseRef pr) "" || String.eqb (fp_HeadRepo pr) "" ||
     String.eqb (fp_HeadRef pr) "" || String.eqb (fp_HeadSHA pr) "" then
    fail (NeedsHuman "ProviderRead" "pull request has an incomplete or retargeted identity") else
  head ←? read (ResolveRepository (fp_HeadRepo pr)) "head repository read failed" ;
  if String.eqb (repo_ID head) "" || String.eqb (repo_Canonical head) "" then
    fail (NeedsHuman "ProviderRead" "head repository resolved to an incomplete identity") else
  base ←? read (ReadRef canonical (fp_BaseRef pr)) "pull request base ref read failed" ;
  if negb (ref_Exists base) || String.eqb (ref_OID base) "" then
    fail (NeedsHuman "ProviderRead" "pull request base ref does not exist") else
  Ret (Ok (with_destination p (fp_BaseRef pr) (ref_OID base) (repo_Canonical head) (fp_HeadRef pr) false
             (fp_HeadSHA pr) (fp_Number pr) (fp_HeadSHA pr))).

(** ** Contribute *)

(** The open pull requests of the pinned head: [Err] on a settled one,
    otherwise the set of their numbers. *)
Fixpoint head_numbers (base head ref : string) (prs : list PullRequest) : result admission_error (gset Z) :=
  match prs with
  | [] => Ok ∅
  | pr :: rest =>
      if negb (String.eqb (fp_BaseRepo pr) base) || negb (String.eqb (fp_HeadRepo pr) head) ||
         negb (String.eqb (fp_HeadRef pr) ref) then head_numbers base head ref rest
      else if settled_pr pr then
        Err (NeedsHuman "HeadAlreadyMerged" "a closed pull request already exists for the head; a contribution is never reopened or duplicated under the same key")
      else ns ← head_numbers base head ref rest; Ok ({[fp_Number pr]} ∪ ns)
  end.

(** The work ref's tip: absent, recorded for this run, or refused. *)
Definition contribute_tip (run : CoderRun) (work : RefState) : result admission_error (bool * string) :=
  if negb (ref_Exists work) then Ok (true, "") else
  if String.eqb (ref_OID work) "" then
    Err (NeedsHuman "ProviderRead" "work ref exists but carries no readable tip") else
  if recordedWorkTip run (ref_OID work) then Ok (false, ref_OID work) else
  Err (NeedsHuman "WorkRefForeign" "work ref carries a tip this run never authored; a contribution never adopts or overwrites a branch it did not author").

Definition lift_result {X} (r : result admission_error X) : prog providerE (result admission_error X) := Ret r.

(** From the derivation of the goal branch on. *)
Definition admit_contribute_work (run : CoderRun) (provider : AdmissionProvider) (canonical workRepo : Repository)
    (baseRef baseOID : string) (p : PublicationPolicy) : prog providerE (result admission_error PublicationPolicy) :=
  let repo := repo_Canonical canonical in
  let fork := repo_Canonical workRepo in
  let workRef := ResolveGoalBranch repo (sp_WorkItemID (Spec run)) in
  if String.eqb workRef "" then fail (PlainError "secure admission: cannot derive the work ref") else
  if negb (String.eqb (st_Branch (Status run)) "") && negb (String.eqb (st_Branch (Status run)) workRef) then
    fail (NeedsHuman "ContributionPolicy" "the branch recorded at claim does not match the goal branch derived from the canonical base repository") else
  existing ←? existing_prs (has_HeadLister provider) repo fork workRef ;
  numbers ←? lift_result (head_numbers repo fork workRef existing) ;
  if bool_decide (1 < size numbers)%nat then
    fail (NeedsHuman "HeadAmbiguousPR" "more than one open pull request already shares the head; publication requires a human decision") else
  work ←? read (ReadRef workRepo workRef) "work ref read failed" ;
  tip ←? lift_result (contribute_tip run work) ;
  Ret (Ok (with_destination p baseRef baseOID fork workRef tip.1 tip.2 0 "")).

Definition admit_contribute (cfg : AdmissionConfig) (run : CoderRun) (provider : AdmissionProvider) (canonical : Repository)
    (p : PublicationPolicy) : prog providerE (result admission_error PublicationPolicy) :=
  match launchContribution (Sources cfg) run with
  | Err e => fail (LaunchInput e)
  | Ok contribution =>
      workRepo ←? read (ResolveRepository (sp_WorkRepo (Spec run))) "work repository read failed" ;
      if String.eqb (repo_ID workRepo) "" || String.eqb (repo_Canonical workRepo) "" then
        fail (NeedsHuman "ProviderRead" "work repository resolved to an incomplete identity") else
      if String.eqb (repo_Canonical workRepo) (repo_Canonical canonical) then
        fail (NeedsHuman "ContributionPolicy" "the approved fork is the base repository; a contribution publishes from a distinct head") else
      base ←? read (ReadRef canonical (ce_BaseRef contribution)) "base ref read failed" ;
      if negb (ref_Exists base) || String.eqb (ref_OID base) "" then
        fail (NeedsHuman "ProviderRead" "admitted base ref does not exist") else
      admit_contribute_work run provider canonical workRepo (ce_BaseRef contribution) (ref_OID base) p
  end.

(** ** Admission *)

Definition admit_mode (cfg : AdmissionConfig) (run : CoderRun) (provider : AdmissionProvider) (canonical : Repository)
    (p : PublicationPolicy) : prog providerE (result admission_error PublicationPolicy) :=
  if String.eqb (sp_Mode (Spec run)) Mode_ResolveIssue then admit_resolve_issue (Spec run) provider canonical p else
  if String.eqb (sp_Mode (Spec run)) Mode_FixPR then admit_fix_pr (Spec run) canonical p else
  if String.eqb (sp_Mode (Spec run)) Mode_Contribute then admit_contribute cfg run provider canonical p else
  fail (PlainError "secure admission: unknown run mode").

(** The run is a non-nil pointer here. *)
Definition ResolveAdmission (cfg : AdmissionConfig) (run : CoderRun) :
    prog providerE (result admission_error (Registration * PublicationPolicy)) :=
  if String.eqb (UID run) "" then fail (PlainError "secure admission: run is required") else
  if negb (String.eqb (Namespace run) (RunNamespace cfg)) then
    fail (NeedsHuman "RunNamespace" "secure mode requires runs in the dedicated namespace") else
  _ ←? lift_result (checkContributionShape (Spec run)) ;
  match selectRegistration cfg (Spec run) with
  | Err m => fail (NeedsHuman "ProviderSelection" m)
  | Ok registration =>
      match Providers cfg with
      | None => fail (PlainError "secure admission: no provider factory is configured")
      | Some factory =>
          match factory registration with
          | Err m => fail (NeedsHuman "ProviderSelection" m)
          | Ok provider =>
              if negb (has_Policy provider) then
                fail (NeedsHuman "ProviderCapability" "provider does not implement the repository policy reads admission requires") else
              canonical ←? read (ResolveRepository (sp_Repo (Spec run))) "canonical repository read failed" ;
              if String.eqb (repo_ID canonical) "" || String.eqb (repo_Canonical canonical) "" ||
                 String.eqb (repo_DefaultRef canonical) "" then
                fail (NeedsHuman "ProviderRead" "provider returned an incomplete canonical identity") else
              policy ←? admit_mode cfg run provider canonical (base_pins cfg run registration canonical) ;
              Ret (Ok (registration, policy))
          end
      end
  end.

(** ** Lemmas *)

Lemma wp_bind_err {E Er A B} (p : prog E (result Er A)) (f : A -> prog E (result Er B)) Q :
  wp p (fun t r => match r with
                   | Ok a => wp (f a) (fun t' b => Q (t ++ t')%list b)
                   | Err e => Q t (Err e)
                   end) -> wp (bind_err p f) Q.
Proof.
  intros Hp. unfold bind_err. apply wp_bind. eapply wp_mono; [|exact Hp].
  intros t [a|e]; cbn; [done|]. by rewrite app_nil_r.
Qed.

(** What a provider that follows its documentation answers: a repository's
    canonical name is determined by its case-folded identity ([canon]) and has
    that identity; a ref that exists has a name and a tip; a pull request read
    by number is that pull request. *)
Definition honest (canon : string -> string) (ev : event providerE) : Prop :=
  match ev with
  | Ev op ans =>
      match op in providerE X return X -> Prop with
      | ResolveRepository repo => fun r =>
          match r with
          | Ok x => exists id, canonicalRepoIdentity repo = Some id /\ repo_Canonical x = canon id /\
                               canonicalRepoIdentity (repo_Canonical x) = Some id
          | Err _ => True
          end
      | ReadRef _ ref => fun r =>
          match r with Ok s => ref_Exists s = true -> ref <> "" /\ ref_OID s <> "" | Err _ => True end
      | ReadPullRequest _ n => fun r => match r with Ok pr => fp_Number pr = n | Err _ => True end
      | _ => fun _ => True
      end ans
  end.

(** [admits canon p post]: every execution of [p] against an honest provider
    that returns a value satisfies [post]. *)
Definition admits {A} (canon : string -> string) (p : prog providerE (result admission_error A)) (post : A -> Prop) : Prop :=
  wp p (fun t r => match r with Ok a => Forall (honest canon) t -> post a | Err _ => True end).

Lemma admits_bind {A B} canon p (f : A -> prog providerE (result admission_error B)) (mid : A -> Prop) post :
  admits canon p mid -> (forall a, mid a -> admits canon (f a) post) -> admits canon (bind_err p f) post.
Proof.
  intros Hp Hf. apply wp_bind_err. eapply wp_mono; [|exact Hp]. intros t [a|e]; [|done]. intros Hmid.
  apply wp_exec. intros t' [b|e] Hex; [|done]. intros [H1 H2]%Forall_app.
  exact (proj1 (wp_exec _ _) (Hf a (Hmid H1)) t' (Ok b) Hex H2).
Qed.

Lemma admits_ret {A} canon (a : A) (post : A -> Prop) : post a -> admits canon (Ret (Ok a)) post.
Proof. by intros ? _. Qed.

Lemma admits_fail {A} canon e (post : A -> Prop) : admits canon (fail e) post.
Proof. done. Qed.

Lemma admits_read {X} canon (e : providerE (result provider_error X)) d (post : X -> Prop) :
  (forall x, honest canon (Ev e (Ok x)) -> post x) -> admits canon (read e d) post.
Proof.
  intros H. unfold admits, read. cbn [wp bind_prog call mbind prog_bind]. intros [x|err]; cbn [wp]; [|done].
  intros Hf. apply H. exact (Forall_inv Hf).
Qed.

Lemma admits_existing canon lister b h r (post : list PullRequest -> Prop) :
  (forall l, post l) -> admits canon (existing_prs lister b h r) post.
Proof.
  intros H. unfold admits, existing_prs. destruct lister; cbn [negb]; [|by intros _].
  cbn [wp bind_prog call mbind prog_bind]. intros [l|[| |]]; cbn [wp]; auto.
Qed.

Lemma admits_lift {A} canon (r : result admission_error A) (post : A -> Prop) :
  (forall a, r = Ok a -> post a) -> admits canon (lift_result r) post.
Proof. intros H. unfold admits, lift_result. cbn [wp]. destruct r; [|done]. intros _. by apply H. Qed.

(** A guard that refuses, or the rest. *)
Lemma admits_guard {A} canon (b : bool) e (k : prog providerE (result admission_error A)) post :
  (b = false -> admits canon k post) -> admits canon (if b then fail e else k) post.
Proof. destruct b; [intros _; apply admits_fail|auto]. Qed.

(** *** The admitted policies *)

(** The tip is recorded exactly when the ref existed. *)
Definition tip_ok (absent : bool) (oid : string) : Prop := if absent then oid = "" else oid <> "".

Definition admitted_issue (spec : CoderRunSpec) (canonical : Repository) (p0 p : PublicationPolicy) : Prop :=
  let repo := repo_Canonical canonical in
  exists oid absent woid owner name body set,
    oid <> "" /\ tip_ok absent woid /\ ResolveIssueBranch repo (sp_Ref spec) <> "" /\
    splitOwnerName repo = Some (owner, name) /\
    ExtractCriteria body {| Owner := owner; Name := name; Number := sp_Ref spec |} = Ok set /\
    p = with_pins (with_destination p0 (repo_DefaultRef canonical) oid repo (ResolveIssueBranch repo (sp_Ref spec)) absent woid 0 "")
          {| sir_Owner := owner; sir_Name := name; sir_Number := sp_Ref spec |} (pin_criterion <$> Criteria set) (set_Digest set).

Lemma admit_criteria_admits canon spec repo p :
  admits canon (admit_criteria spec repo p) (fun q =>
    exists owner name body set,
      splitOwnerName repo = Some (owner, name) /\
      ExtractCriteria body {| Owner := owner; Name := name; Number := sp_Ref spec |} = Ok set /\
      q = with_pins p {| sir_Owner := owner; sir_Name := name; sir_Number := sp_Ref spec |}
            (pin_criterion <$> Criteria set) (set_Digest set)).
Proof.
  unfold admit_criteria. eapply admits_bind; [apply (admits_read _ _ _ (fun _ => True)); done|].
  intros item _. destruct (Atoi _) as [n ok]. apply admits_guard. intros _. apply admits_guard. intros _.
  destruct (splitOwnerName repo) as [[owner name]|] eqn:Hs; [|apply admits_fail].
  destruct (ExtractCriteria _ _) as [set|] eqn:He; [|apply admits_fail].
  apply admits_ret. exists owner, name, (fw_Body item), set. done.
Qed.

Lemma admit_issue_admits canon spec prov canonical p0 :
  admits canon (admit_resolve_issue spec prov canonical p0) (admitted_issue spec canonical p0).
Proof.
  unfold admit_resolve_issue. eapply admits_bind; [apply (admits_read _ _ _ (fun _ => True)); done|]. intros base _.
  apply admits_guard. intros [_ Hoid%String.eqb_neq]%orb_false_iff. apply admits_guard. intros Hw%String.eqb_neq.
  eapply admits_bind.
  { apply (admits_read _ _ _ (fun s => ref_Exists s = true -> ref_OID s <> "")). intros x Hx Hex. by destruct (Hx Hex). }
  intros work Hwork. eapply admits_bind; [by apply (admits_existing _ _ _ _ _ (fun _ => True))|]. intros existing _.
  apply admits_guard. intros _. eapply wp_mono; [|apply admit_criteria_admits]. intros t [q|]; [|done].
  intros Hq Ht. destruct (Hq Ht) as (o & n & b & s & Hs & He & ->). unfold admitted_issue.
  exists (ref_OID base), (negb (ref_Exists work)), (if ref_Exists work then ref_OID work else ""), o, n, b, s.
  split_and!; [exact Hoid| |exact Hw|exact Hs|exact He|reflexivity].
  unfold tip_ok. cbv beta in Hwork. destruct (ref_Exists work); cbn; auto.
Qed.

Definition admitted_pr (spec : CoderRunSpec) (p0 p : PublicationPolicy) : Prop :=
  exists baseRef oid workRepo headRef head,
    baseRef <> "" /\ oid <> "" /\ workRepo <> "" /\ headRef <> "" /\ head <> "" /\
    p = with_destination p0 baseRef oid workRepo headRef false head (sp_Ref spec) head.

Lemma admit_fix_pr_admits canon spec canonical p0 :
  admits canon (admit_fix_pr spec canonical p0) (admitted_pr spec p0).
Proof.
  unfold admit_fix_pr. eapply admits_bind; [apply (admits_read _ _ _ (fun pr => fp_Number pr = sp_Ref spec)); by intros pr|].
  intros pr Hn. apply admits_guard. intros [[[[_ Hb]%orb_false_iff Hh]%orb_false_iff Hr]%orb_false_iff Hs]%orb_false_iff.
  eapply admits_bind; [by apply (admits_read _ _ _ (fun _ => True))|]. intros head _.
  apply admits_guard. intros [_ Hhead]%orb_false_iff.
  eapply admits_bind; [by apply (admits_read _ _ _ (fun _ => True))|]. intros base _.
  apply admits_guard. intros [_ Hoid]%orb_false_iff. rewrite String.eqb_neq in Hb, Hr, Hs, Hhead, Hoid.
  apply admits_ret. exists (fp_BaseRef pr), (ref_OID base), (repo_Canonical head), (fp_HeadRef pr), (fp_HeadSHA pr).
  rewrite Hn. done.
Qed.

Definition admitted_contribution (canon : string -> string) (spec : CoderRunSpec) (canonical : Repository)
    (p0 p : PublicationPolicy) : Prop :=
  let repo := repo_Canonical canonical in
  exists baseRef oid fork id absent woid,
    baseRef <> "" /\ oid <> "" /\ fork <> repo /\ fork <> "" /\ fork = canon id /\
    canonicalRepoIdentity (sp_WorkRepo spec) = Some id /\ canonicalRepoIdentity fork = Some id /\
    ResolveGoalBranch repo (sp_WorkItemID spec) <> "" /\ tip_ok absent woid /\
    p = with_destination p0 baseRef oid fork (ResolveGoalBranch repo (sp_WorkItemID spec)) absent woid 0 "".

Lemma contribute_tip_ok run work tip : contribute_tip run work = Ok tip -> tip_ok tip.1 tip.2.
Proof.
  unfold contribute_tip. destruct (ref_Exists work); cbn [negb]; [|by intros [= <-]].
  destruct (String.eqb_spec (ref_OID work) ""); [done|]. by destruct (recordedWorkTip _ _); [intros [= <-]|].
Qed.

Lemma admit_contribute_work_admits canon run prov canonical workRepo baseRef oid p0 :
  admits canon (admit_contribute_work run prov canonical workRepo baseRef oid p0) (fun p =>
    let ref := ResolveGoalBranch (repo_Canonical canonical) (sp_WorkItemID (Spec run)) in
    exists absent woid, ref <> "" /\ tip_ok absent woid /\
      p = with_destination p0 baseRef oid (repo_Canonical workRepo) ref absent woid 0 "").
Proof.
  unfold admit_contribute_work. apply admits_guard. intros Hw%String.eqb_neq. apply admits_guard. intros _.
  eapply admits_bind; [by apply (admits_existing _ _ _ _ _ (fun _ => True))|]. intros existing _.
  eapply admits_bind; [by apply (admits_lift _ _ (fun _ => True))|]. intros numbers _. apply admits_guard. intros _.
  eapply admits_bind; [by apply (admits_read _ _ _ (fun _ => True))|]. intros work _.
  eapply admits_bind; [apply (admits_lift _ _ (fun tip => tip_ok tip.1 tip.2)), contribute_tip_ok|].
  intros [absent woid] Htip. apply admits_ret. exists absent, woid. done.
Qed.

Lemma admit_contribute_admits canon cfg run prov canonical p0 :
  admits canon (admit_contribute cfg run prov canonical p0) (admitted_contribution canon (Spec run) canonical p0).
Proof.
  unfold admit_contribute. destruct (launchContribution _ _) as [c|]; [|apply admits_fail].
  eapply admits_bind.
  { apply (admits_read _ _ _ (fun x => exists id, canonicalRepoIdentity (sp_WorkRepo (Spec run)) = Some id /\
      repo_Canonical x = canon id /\ canonicalRepoIdentity (repo_Canonical x) = Some id)). by intros x. }
  intros workRepo (id & H1 & H2 & H3). apply admits_guard. intros [_ Hne%String.eqb_neq]%orb_false_iff.
  apply admits_guard. intros Hfork%String.eqb_neq. eapply admits_bind.
  { apply (admits_read _ _ _ (fun s => ref_Exists s = true -> ce_BaseRef c <> "" /\ ref_OID s <> "")). by intros s. }
  intros base Hbase. apply admits_guard. intros [Hex%negb_false_iff _]%orb_false_iff. destruct (Hbase Hex) as [Hb Ho].
  eapply wp_mono; [|apply admit_contribute_work_admits]. intros t [p|]; [|done]. intros Hp Ht.
  destruct (Hp Ht) as (absent & woid & Hr & Htip & ->).
  exists (ce_BaseRef c), (ref_OID base), (repo_Canonical workRepo), id, absent, woid. done.
Qed.


(** What a successful admission of [run] pins, by mode. *)
Definition admitted (canon : string -> string) (cfg : AdmissionConfig) (run : CoderRun) (reg : Registration)
    (canonical : Repository) (p : PublicationPolicy) : Prop :=
  let p0 := base_pins cfg run reg canonical in
  (sp_Mode (Spec run) = ModeResolveIssue /\ admitted_issue (Spec run) canonical p0 p) \/
  (sp_Mode (Spec run) = ModeFixPR /\ admitted_pr (Spec run) p0 p) \/
  (sp_Mode (Spec run) = ModeContribute /\ admitted_contribution canon (Spec run) canonical p0 p).

Lemma resolve_admission_admits canon cfg run :
  admits canon (ResolveAdmission cfg run) (fun '(reg, p) =>
    UID run <> "" /\ checkContributionShape (Spec run) = Ok tt /\ selectRegistration cfg (Spec run) = Ok reg /\
    exists canonical id,
      repo_Canonical canonical <> "" /\ repo_DefaultRef canonical <> "" /\
      repo_Canonical canonical = canon id /\ canonicalRepoIdentity (repo_Canonical canonical) = Some id /\
      admitted canon cfg run reg canonical p).
Proof.
  unfold ResolveAdmission. apply admits_guard. intros Hu%String.eqb_neq. apply admits_guard. intros _.
  eapply admits_bind; [apply (admits_lift _ _ (fun _ => checkContributionShape (Spec run) = Ok tt)); by intros []|].
  intros [] Hshape. destruct (selectRegistration cfg (Spec run)) as [reg|] eqn:Hsel; [|apply admits_fail].
  destruct (Providers cfg) as [f|]; [|apply admits_fail]. destruct (f reg) as [prov|]; [|apply admits_fail].
  apply admits_guard. intros _. eapply admits_bind.
  { apply (admits_read _ _ _ (fun x => exists id, repo_Canonical x = canon id /\
      canonicalRepoIdentity (repo_Canonical x) = Some id)). intros x (id & _ & ? & ?). eauto. }
  intros canonical (id & Hc1 & Hc2). apply admits_guard.
  intros [[_ Hc3%String.eqb_neq]%orb_false_iff Hc4%String.eqb_neq]%orb_false_iff.
  eapply (admits_bind canon _ _ (admitted canon cfg run reg canonical)).
  - unfold admit_mode. destruct (String.eqb_spec (sp_Mode (Spec run)) Mode_ResolveIssue) as [Hm|].
    { eapply wp_mono; [|apply admit_issue_admits]. intros t [p|]; [|done]. intros H Ht. left. split; [exact Hm|exact (H Ht)]. }
    destruct (String.eqb_spec (sp_Mode (Spec run)) Mode_FixPR) as [Hm|].
    { eapply wp_mono; [|apply admit_fix_pr_admits]. intros t [p|]; [|done]. intros H Ht. right; left. split; [exact Hm|exact (H Ht)]. }
    destruct (String.eqb_spec (sp_Mode (Spec run)) Mode_Contribute) as [Hm|]; [|apply admits_fail].
    eapply wp_mono; [|apply admit_contribute_admits]. intros t [p|]; [|done]. intros H Ht. right; right. split; [exact Hm|exact (H Ht)].
  - intros p Hp. apply admits_ret. split_and!; [done..|]. exists canonical, id. done.
Qed.

(** *** The broker accepts them *)

Lemma eqb_ne s : s <> "" -> String.eqb s "" = false.
Proof. apply String.eqb_neq. Qed.

Lemma base_ne_work (a b c d : string) : (c, d) <> (a, b) -> String.eqb a c && String.eqb b d = false.
Proof.
  intros H. destruct (String.eqb_spec a c) as [->|]; [|done]. destruct (String.eqb_spec b d) as [->|]; [done|done].
Qed.

Lemma ResolveIssueBranch_valid repo n : ResolveIssueBranch repo n <> "" -> validRepo repo = true /\ 1 <= n.
Proof.
  unfold ResolveIssueBranch. destruct (validRepo repo); [|done]. destruct (Z.ltb_spec n 1); [done|]. split; [done|lia].
Qed.

Lemma tip_consistent p absent oid :
  pp_WorkInitiallyAbsent p = absent -> pp_WorkOID p = oid -> tip_ok absent oid -> inconsistent_tip p = false.
Proof.
  unfold inconsistent_tip, tip_ok. intros -> ->. destruct absent; cbn; [by intros ->|].
  intros H. by apply String.eqb_neq.
Qed.

(** The fields every valid policy carries. *)
Definition complete (p : Policy) : Prop :=
  RunUID p <> "" /\ Provider p <> "" /\ BaseRepo p <> "" /\ BaseRef p <> "" /\ BaseOID p <> "" /\
  WorkRepo p <> "" /\ WorkRef p <> "" /\ (WorkRepo p, WorkRef p) <> (BaseRepo p, BaseRef p).

Lemma validate_complete p :
  complete p ->
  validatePolicy p =
    if is_mode p ModeResolveIssue then validate_resolve_issue p else
    if is_mode p ModeFixPR then validate_fix_pr p else
    if is_mode p ModeContribute then validate_contribute p else
    Err "publication policy: unsupported mode".
Proof.
  intros (H1 & H2 & H3 & H4 & H5 & H6 & H7 & H8). unfold validatePolicy.
  by rewrite (eqb_ne _ H1), (eqb_ne _ H2), (eqb_ne _ H3), (eqb_ne _ H4), (eqb_ne _ H5), (eqb_ne _ H6), (eqb_ne _ H7), base_ne_work.
Qed.

Lemma tip_anchor absent oid : tip_ok absent oid -> negb absent && String.eqb oid "" = false.
Proof. unfold tip_ok. destruct absent; [done|]. apply String.eqb_neq. Qed.

Lemma tip_not_absent absent oid : tip_ok absent oid -> absent && negb (String.eqb oid "") = false.
Proof. unfold tip_ok. by destruct absent; [intros ->|]. Qed.

Lemma valid_issue_policy p :
  complete p -> pol_Mode p = ModeResolveIssue -> PRNumber p = 0 -> HeadAnchorOID p = "" ->
  tip_ok (WorkInitiallyAbsent p) (WorkAnchorOID p) ->
  Canonical (pol_SourceIssue p) = BaseRepo p -> 1 <= Number (pol_SourceIssue p) ->
  Issue (pol_Criteria p) = pol_SourceIssue p -> set_Digest (pol_Criteria p) <> "" -> validatePolicy p = Ok tt.
Proof.
  intros Hc Hm Hpr Hh Ht Hcan Hn Hi Hd. rewrite (validate_complete p Hc). unfold is_mode. rewrite Hm.
  change (String.eqb ModeResolveIssue ModeResolveIssue) with true. cbv iota. unfold validate_resolve_issue.
  rewrite Hpr, Hh, (tip_anchor _ _ Ht). cbn [Z.eqb negb orb String.eqb].
  assert (Hz : IsZero (pol_SourceIssue p) = false).
  { unfold IsZero. apply andb_false_iff. right. apply Z.eqb_neq. lia. }
  rewrite Hz, Hcan, String.eqb_refl. destruct (Z.leb_spec (Number (pol_SourceIssue p)) 0); [lia|]. cbn [negb].
  unfold validate_pin, IsPinned. rewrite (eqb_ne _ Hd), Hi, Hz. cbn [negb]. unfold same_issue.
  by rewrite bool_decide_eq_true_2.
Qed.

Lemma valid_fix_pr_policy p :
  complete p -> pol_Mode p = ModeFixPR -> 1 <= PRNumber p -> HeadAnchorOID p <> "" -> WorkInitiallyAbsent p = false ->
  WorkAnchorOID p = HeadAnchorOID p -> pol_Criteria p = zero_set -> validatePolicy p = Ok tt.
Proof.
  intros Hc Hm Hpr Hh Ha Hw Hs. rewrite (validate_complete p Hc). unfold is_mode. rewrite Hm.
  change (String.eqb ModeFixPR ModeResolveIssue) with false. change (String.eqb ModeFixPR ModeFixPR) with true. cbv iota.
  unfold validate_fix_pr. rewrite (eqb_ne _ Hh), Ha, Hw, String.eqb_refl, Hs.
  by destruct (Z.leb_spec (PRNumber p) 0); [lia|].
Qed.

Lemma valid_contribute_policy p :
  complete p -> pol_Mode p = ModeContribute -> PRNumber p = 0 -> HeadAnchorOID p = "" -> WorkRepo p <> BaseRepo p ->
  tip_ok (WorkInitiallyAbsent p) (WorkAnchorOID p) -> pol_SourceIssue p = zero_issue ->
  AllowClosingLinkage p = false -> pol_Criteria p = zero_set -> validatePolicy p = Ok tt.
Proof.
  intros Hc Hm Hpr Hh Hne Ht Hsi Hal Hs. rewrite (validate_complete p Hc). unfold is_mode. rewrite Hm.
  change (String.eqb ModeContribute ModeResolveIssue) with false. change (String.eqb ModeContribute ModeFixPR) with false.
  change (String.eqb ModeContribute ModeContribute) with true. cbv iota. unfold validate_contribute.
  rewrite Hpr, Hh, (proj2 (String.eqb_neq _ _) Hne), (tip_anchor _ _ Ht), (tip_not_absent _ _ Ht), Hsi, Hal.
  unfold validate_pin. by rewrite Hs.
Qed.

Lemma issue_binds cfg spec run reg canonical p base :
  admitted_issue spec canonical (base_pins cfg run reg canonical) p ->
  sp_Mode spec = ModeResolveIssue -> UID run <> "" -> reg_Name reg <> "" -> repo_DefaultRef canonical <> "" ->
  (pp_WorkRepo p, pp_WorkRef p) <> (pp_BaseRepo p, pp_BaseRef p) ->
  exists pol, bind_mode spec base p = Ok pol /\ validatePolicy pol = Ok tt /\
              exists body, ExtractCriteria body (pol_SourceIssue pol) = Ok (pol_Criteria pol).
Proof.
  intros (oid & absent & woid & owner & name & body & set & Hoid & Htip & Hbr & Hsplit & Hex & Hp) Hm Hu Hr Hdef Hdest.
  destruct (ResolveIssueBranch_valid _ _ Hbr) as [Hv Hn].
  destruct (validRepo_parts _ Hv) as (a & b & Hab). destruct (splitOwnerRepo_valid _ a b Hv Hab) as (Hs & Heq & Ha & Hb).
  assert (splitOwnerName (repo_Canonical canonical) = Some (a, b)) as Hs'.
  { unfold splitOwnerName. unfold splitOwnerRepo in Hs. unfold validRepo in Hv.
    by destruct (String.eqb_spec (TrimSpace (repo_Canonical canonical)) (repo_Canonical canonical)) as [He|]; [rewrite He in Hs|]. }
  rewrite Hs' in Hsplit. injection Hsplit as <- <-.
  assert (Hset : CriterionSetFromPolicy (Some p) = Ok (Some set)).
  { eapply criteria_pins_read_back; [exact Hex|by rewrite Hp..]. }
  pose proof (extract_criteria_sound _ _ _ Hex) as (Hiss & _ & _ & _ & _ & Hdig).
  exists (with_contract (policy_of_pins (sp_Mode spec) p) {| Owner := a; Name := b; Number := sp_Ref spec |} set).
  split_and!.
  - unfold bind_mode. rewrite Hm. change (String.eqb ModeResolveIssue ModeResolveIssue) with true. cbn [negb].
    unfold bind_resolve_issue. rewrite (tip_consistent p absent woid), Hset by (rewrite ?Hp; done). rewrite Hp.
    cbn [pp_BaseRepo with_pins with_destination base_pins pp_WorkRepo pp_WorkRef pp_SourceIssue carries_pr_anchor pp_PRNumber pp_HeadAnchorOID sir_Owner sir_Name sir_Number].
    rewrite (eqb_ne _ Hbr), !String.eqb_refl, Hs, !String.eqb_refl, Z.eqb_refl. reflexivity.
  - apply valid_issue_policy; [|exact Hm|by rewrite Hp|by rewrite Hp|by rewrite Hp| |cbn; lia|exact Hiss|].
    + assert (Hne : repo_Canonical canonical <> "") by (rewrite Heq; by destruct a).
      rewrite Hp in Hdest |- *. split_and!; [exact Hu|exact Hr|exact Hne|exact Hdef|exact Hoid|exact Hne|exact Hbr|exact Hdest].
    + unfold Canonical. rewrite Hp. cbn. by rewrite (eqb_ne a Ha), (eqb_ne b Hb).
    + cbn. rewrite Hdig. apply set_digest_nonempty.
  - exists body. exact Hex.
Qed.

Lemma pr_binds cfg spec run reg canonical p base :
  admitted_pr spec (base_pins cfg run reg canonical) p ->
  sp_Mode spec = ModeFixPR -> 1 <= sp_Ref spec -> UID run <> "" -> reg_Name reg <> "" -> repo_Canonical canonical <> "" ->
  (pp_WorkRepo p, pp_WorkRef p) <> (pp_BaseRepo p, pp_BaseRef p) ->
  exists pol, bind_mode spec base p = Ok pol /\ validatePolicy pol = Ok tt.
Proof.
  intros (baseRef & oid & workRepo & headRef & head & H1 & H2 & H3 & H4 & H5 & ->) Hm Hn Hu Hr Hc Hdest.
  eexists. split.
  - unfold bind_mode. rewrite Hm. change (String.eqb ModeFixPR ModeResolveIssue) with false.
    change (String.eqb ModeFixPR ModeFixPR) with true. cbv iota. unfold bind_fix_pr, carries_pins. cbn.
    by rewrite Z.eqb_refl, (eqb_ne _ H5), String.eqb_refl.
  - apply valid_fix_pr_policy; [|done..]. split_and!; [exact Hu|exact Hr|exact Hc|exact H1|exact H2|exact H3|exact H4|exact Hdest].
Qed.

Lemma ResolveGoalBranch_valid repo key :
  ResolveGoalBranch repo key <> "" -> validRepo repo = true /\ TrimSpace key <> "".
Proof.
  unfold ResolveGoalBranch. destruct (validRepo repo); [|done]. by destruct (String.eqb_spec (TrimSpace key) "").
Qed.

Lemma contribution_binds canon cfg spec run reg canonical p id :
  admitted_contribution canon spec canonical (base_pins cfg run reg canonical) p ->
  repo_Canonical canonical = canon id -> canonicalRepoIdentity (repo_Canonical canonical) = Some id ->
  sp_Mode spec = ModeContribute -> UID run <> "" -> reg_Name reg <> "" -> repo_Canonical canonical <> "" ->
  exists pol, bind_mode spec (repo_Canonical canonical) p = Ok pol /\ validatePolicy pol = Ok tt.
Proof.
  intros (baseRef & oid & fork & fid & absent & woid & H1 & H2 & Hne & Hf & Hcan & Hi1 & Hi2 & Hbr & Htip & ->)
    Hc1 Hc2 Hm Hu Hr Hc.
  assert (Hids : id <> fid) by (intros ->; congruence).
  exists (policy_of_pins (sp_Mode spec) (with_destination (base_pins cfg run reg canonical) baseRef oid fork
    (ResolveGoalBranch (repo_Canonical canonical) (sp_WorkItemID spec)) absent woid 0 "")). split.
  - unfold bind_mode. rewrite Hm. change (String.eqb ModeContribute ModeResolveIssue) with false.
    change (String.eqb ModeContribute ModeFixPR) with false. cbv iota. unfold bind_contribute.
    cbn [pp_WorkRepo with_destination pp_WorkRef]. rewrite Hi1, Hi2, Hc2, String.eqb_refl. cbn [negb].
    rewrite (proj2 (String.eqb_neq id fid) Hids), (eqb_ne _ Hbr), String.eqb_refl. cbn [negb orb].
    by rewrite (tip_consistent _ absent woid).
  - apply valid_contribute_policy; [|exact Hm|done|done|exact Hne|exact Htip|done..].
    split_and!; [exact Hu|exact Hr|exact Hc|exact H1|exact H2|exact Hf|exact Hbr|]. cbn. congruence.
Qed.

Lemma spec_checked cfg spec reg :
  selectRegistration cfg spec = Ok reg -> checkContributionShape spec = Ok tt ->
  sp_Mode spec = ModeResolveIssue /\ 1 <= sp_Ref spec \/ sp_Mode spec = ModeFixPR /\ 1 <= sp_Ref spec \/
  sp_Mode spec = ModeContribute -> check_spec spec = Ok tt.
Proof.
  unfold selectRegistration, checkContributionShape, check_spec. intros Hsel Hshape Hmode.
  assert (Hrepo : String.eqb (sp_Repo spec) "" = false).
  { apply String.eqb_neq. intros He. rewrite He in Hsel. destruct (cfg_Registry cfg) as [regs|].
    - destruct (String.eqb _ _); [apply select_contribution_unique in Hsel as (_ & Hs & _)|apply select_unique in Hsel as (_ & Hs & _)];
        by apply registrationMatches_nonempty in Hs.
    - by destruct (String.eqb _ _). }
  rewrite Hrepo. destruct Hmode as [[Hm Hn]|[[Hm Hn]|Hm]]; rewrite Hm in *; cbn.
  1,2: destruct (Z.ltb_spec (sp_Ref spec) 1); [lia|done].
  change (String.eqb ModeContribute Mode_Contribute) with true in Hshape. cbn [negb] in Hshape.
  destruct (sp_Ref spec =? 0); [|done]. cbn [negb orb] in *. destruct (String.eqb (sp_WorkRepo spec) ""); [done|].
  by destruct (String.eqb (TrimSpace (sp_WorkItemID spec)) "").
Qed.

(** What the modes have in common. *)
Lemma admitted_pins canon cfg run reg canonical p :
  admitted canon cfg run reg canonical p -> repo_Canonical canonical <> "" ->
  pp_BaseRepo p = repo_Canonical canonical /\ pp_RunUID p = UID run /\ pp_ProviderConfigRef p = reg_Name reg /\
  (repo_DefaultRef canonical <> "" -> pp_BaseRef p <> "") /\ pp_BaseOID p <> "" /\ pp_WorkRepo p <> "" /\ pp_WorkRef p <> "".
Proof.
  intros [[_ H]|[[_ H]|[_ H]]] Hc.
  - destruct H as (? & ? & ? & ? & ? & ? & ? & ? & ? & ? & ? & ? & ->). done.
  - destruct H as (? & ? & ? & ? & ? & ? & ? & ? & ? & ? & ->). done.
  - destruct H as (? & ? & ? & ? & ? & ? & ? & ? & ? & ? & ? & ? & ? & ? & ? & ->). done.
Qed.

Lemma admitted_spec canon cfg run reg canonical p :
  admitted canon cfg run reg canonical p -> (sp_Mode (Spec run) = ModeFixPR -> 1 <= sp_Ref (Spec run)) ->
  sp_Mode (Spec run) = ModeResolveIssue /\ 1 <= sp_Ref (Spec run) \/
  sp_Mode (Spec run) = ModeFixPR /\ 1 <= sp_Ref (Spec run) \/ sp_Mode (Spec run) = ModeContribute.
Proof.
  intros [[Hm H]|[[Hm H]|[Hm H]]] Href; [left|right; left|right; right]; auto.
  destruct H as (? & ? & ? & ? & ? & ? & ? & _ & _ & Hbr & _). split; [done|].
  exact (proj2 (ResolveIssueBranch_valid _ _ Hbr)).
Qed.

Lemma admitted_bind_mode canon cfg run reg canonical p id :
  admitted canon cfg run reg canonical p ->
  repo_Canonical canonical = canon id -> canonicalRepoIdentity (repo_Canonical canonical) = Some id ->
  UID run <> "" -> reg_Name reg <> "" -> repo_Canonical canonical <> "" -> repo_DefaultRef canonical <> "" ->
  (sp_Mode (Spec run) = ModeFixPR -> 1 <= sp_Ref (Spec run)) ->
  (pp_WorkRepo p, pp_WorkRef p) <> (pp_BaseRepo p, pp_BaseRef p) ->
  exists pol, bind_mode (Spec run) (repo_Canonical canonical) p = Ok pol /\ validatePolicy pol = Ok tt /\
    (sp_Mode (Spec run) = ModeResolveIssue -> exists body, ExtractCriteria body (pol_SourceIssue pol) = Ok (pol_Criteria pol)).
Proof.
  intros Hmodes Hc1 Hc2 Hu Hname Hc Hdef Href Hdest. destruct Hmodes as [[Hm H]|[[Hm H]|[Hm H]]].
  - destruct (issue_binds _ _ _ _ _ _ (repo_Canonical canonical) H Hm Hu Hname Hdef Hdest) as (pol & ? & ? & ?). by exists pol.
  - destruct (pr_binds _ _ _ _ _ _ (repo_Canonical canonical) H Hm (Href Hm) Hu Hname Hc Hdest) as (pol & ? & ?).
    exists pol. split_and!; [done..|]. by rewrite Hm.
  - destruct (contribution_binds _ _ _ _ _ _ _ id H Hc1 Hc2 Hm Hu Hname Hc) as (pol & ? & ?).
    exists pol. split_and!; [done..|]. by rewrite Hm.
Qed.

(** ** Properties *)


(** ** Witnesses *)

Definition admission_spec : CoderRunSpec :=
  {| sp_Mode := "resolve-issue"; sp_Source := "dispatch"; sp_SourceAgent := ""; sp_SourceContext := "";
     sp_WorkItemID := "12"; sp_AssignmentKind := ""; sp_AssignmentReasons := []; sp_Repo := "Misospace/courier";
     sp_WorkRepo := ""; sp_Ref := 12; sp_Lane := ""; sp_Debug := false |}.

Definition admission_run (policy : option PublicationPolicy) : CoderRun :=
  let r := new_run "runs" "run-1" admission_spec in
  {| Namespace := "runs"; run_Name := "run-1"; UID := "uid-1"; ResourceVersion := ""; Generation := 1;
     CreationTimestamp := CreationTimestamp r; DeletionTimestamp := None; Finalizers := []; Annotations := ∅;
     Spec := admission_spec; Status := set_st_PublicationPolicy (Status r) policy |}.

Definition admission_registration : Registration :=
  {| reg_Name := "github"; reg_Type := "github"; reg_Endpoint := "https://api.github.com"; GitEndpoint := "";
     GitUsername := ""; Credentials := {["forge-api" := {| SecretName := "forge"; cred_Key := "token" |}]};
     Serves := ["misospace/*"] |}.

Definition admission_config : AdmissionConfig :=
  {| RunNamespace := "runs"; cfg_Registry := Some [admission_registration];
     Providers := Some (fun _ => Ok {| has_Policy := true; has_HeadLister := true |});
     Sources := None; projection_digest := fun _ => "digest" |}.

(** A provider whose repository has no work branch yet and one open issue. *)
Definition admission_provider (X : Type) (e : providerE X) (w : unit) : unit * X :=
  (w, match e in providerE Y return Y with
      | ResolveRepository _ => Ok {| repo_ID := "R1"; repo_Canonical := "misospace/courier"; repo_DefaultRef := "main" |}
      | ReadRef _ ref => Ok {| ref_Ref := ref; ref_OID := if String.eqb ref "main" then "b0" else "";
                               ref_Exists := String.eqb ref "main" |}
      | ReadEffectiveProtection _ _ => Ok false
      | CanWriteRepository _ => Ok true
      | ListPullRequestsByHead _ _ _ => Ok []
      | ReadWorkItem repo id => Ok {| fw_ID := id; fw_Repo := repo; fw_Title := "t";
                                      fw_Body := "## Acceptance" ++ nl ++ "- it works"; fw_State := "open" |}
      | ReadPullRequest _ _ => Err (ProviderFailed "none")
      | CreatePullRequest _ => Err (ProviderFailed "read only")
      | UpdatePullRequest _ _ _ => Err (ProviderFailed "read only")
      end).

Definition admission_result := run admission_provider (ResolveAdmission admission_config (admission_run None)) tt.

Definition admission_policy : PublicationPolicy :=
  Eval vm_compute in match admission_result.2 with Ok (_, p) => p | Err _ => base_pins admission_config (admission_run None) admission_registration {| repo_ID := ""; repo_Canonical := ""; repo_DefaultRef := "" |} end.

