(* ===== verification/ForgeAdapter.v ===== *)
(** * The forge adapter and the engine on top of it
      (internal/broker/forge_adapter.go)

    The adapter implements the policy engine's observer over a provider: every
    read revalidates the pinned repositories, every write is refused unless it
    names the pinned destination.  Its mutable state is the set of pull
    requests it created and verified.

    [serve] answers the engine's forge requests with the adapter and passes the
    git requests through, so an engine operation becomes one program over
    provider calls and git requests. *)

From S2P Require Import Prelude Effects GoStrings Regex Sha256 Branch Run Forge Linkage Criteria Policy Binding.

Local Open Scope string_scope.
Local Open Scope Z_scope.

(** ** State *)

Record ForgeAdapter := {
  fa_p : Policy;
  fa_base : Forge.Repository;
  fa_work : Forge.Repository;
  fa_heads : bool;            (* the provider lists pull requests by head *)
  fa_created : gset Z
}.

Definition register (a : ForgeAdapter) (n : Z) : ForgeAdapter :=
  {| fa_p := fa_p a; fa_base := fa_base a; fa_work := fa_work a; fa_heads := fa_heads a;
     fa_created := {[n]} ∪ fa_created a |}.

(** What [NewForgeAdapter] asks the provider for: its configuration name, the
    available capabilities, and whether it lists by head. *)
Record ProviderFacets := {
  config_name : string;
  available : string -> bool;
  lists_heads : bool
}.

Definition CapabilityReadPullRequest : string := "read-pull-request".
Definition CapabilityCreatePullRequest : string := "create-pull-request".
Definition CapabilityUpdatePullRequest : string := "update-pull-request".

(** The provider and the repository policy provider are non-nil values here;
    the [%q] operand of the capability error is left out. *)
Definition NewForgeAdapter (p : Policy) (facets : ProviderFacets) (base work : Forge.Repository) : result string ForgeAdapter :=
  if String.eqb (BaseRepo p) "" || String.eqb (WorkRepo p) "" ||
     negb (String.eqb (Forge.repo_Canonical base) (BaseRepo p)) || negb (String.eqb (Forge.repo_Canonical work) (WorkRepo p)) ||
     String.eqb (Forge.repo_ID base) "" || String.eqb (Forge.repo_ID work) "" then
    Err "forge adapter: pinned canonical repository identities are required" else
  if negb (String.eqb (config_name facets) (Provider p)) then
    Err "forge adapter: provider does not match pinned policy" else
  if negb (forallb (available facets)
       [CapabilityReadPullRequest; CapabilityCreatePullRequest; CapabilityUpdatePullRequest]) then
    Err "forge adapter: provider capability is unavailable" else
  Ok {| fa_p := p; fa_base := base; fa_work := work; fa_heads := lists_heads facets; fa_created := ∅ |}.

(** ** Reads *)

Abbreviation provider A := (prog Forge.providerE (result string A)).

Definition refuse {A} (msg : string) : provider A := Ret (Err msg).

Definition repository (a : ForgeAdapter) (name : string) : option Forge.Repository :=
  if String.eqb name (BaseRepo (fa_p a)) then Some (fa_base a) else
  if String.eqb name (WorkRepo (fa_p a)) then Some (fa_work a) else None.

Definition checkedRepository (pinned : Forge.Repository) : provider Forge.Repository :=
  r ← call (Forge.ResolveRepository (Forge.repo_Canonical pinned));
  match r with
  | Err _ => refuse "forge adapter: canonical repository revalidation failed"
  | Ok live =>
      if String.eqb (Forge.repo_ID live) "" || negb (String.eqb (Forge.repo_Canonical live) (Forge.repo_Canonical pinned)) ||
         negb (String.eqb (Forge.repo_ID live) (Forge.repo_ID pinned)) || String.eqb (Forge.repo_DefaultRef live) "" then
        refuse "forge adapter: canonical repository identity changed"
      else Ret (Ok live)
  end.

Definition adapter_Repository (a : ForgeAdapter) (repo ref : string) : provider RepositoryState :=
  match repository a repo with
  | None => refuse "forge adapter: repository or ref is outside pinned policy"
  | Some pinned =>
      if String.eqb ref "" then refuse "forge adapter: repository or ref is outside pinned policy" else
      live ←? checkedRepository pinned ;
      state ← call (Forge.ReadRef live ref);
      match state with
      | Err _ => refuse "forge adapter: live ref read failed"
      | Ok state =>
          if negb (String.eqb (Forge.ref_Ref state) ref) || (Forge.ref_Exists state && String.eqb (Forge.ref_OID state) "") then
            refuse "forge adapter: provider returned incomplete or different ref identity"
          else
          protection ← call (Forge.ReadEffectiveProtection live ref);
          writable ← call (Forge.CanWriteRepository live);
          Ret (Ok {| rs_Repo := Forge.repo_Canonical live; rs_Ref := ref; Exists := Forge.ref_Exists state;
                     rs_OID := Forge.ref_OID state; Default := String.eqb ref (Forge.repo_DefaultRef live);
                     Protected := match protection with Ok b => b | Err _ => false end;
                     ProtectionKnown := is_ok protection;
                     Writable := match writable with Ok b => b | Err _ => false end;
                     WriteKnown := is_ok writable |})
      end
  end.

(** [actual.ID == "" || actual.ID != pinned.ID || actual.Canonical != pinned.Canonical] *)
Definition substituted (actual pinned : Forge.Repository) : bool :=
  String.eqb (Forge.repo_ID actual) "" || negb (String.eqb (Forge.repo_ID actual) (Forge.repo_ID pinned)) ||
  negb (String.eqb (Forge.repo_Canonical actual) (Forge.repo_Canonical pinned)).

Definition readPullRequest (a : ForgeAdapter) (number : Z) : provider PullRequestState :=
  base ←? checkedRepository (fa_base a) ;
  work ←? checkedRepository (fa_work a) ;
  r ← call (Forge.ReadPullRequest (Forge.repo_Canonical base) number);
  match r with
  | Err _ => refuse "forge adapter: pull request read failed"
  | Ok pr =>
      if negb (Forge.fp_Number pr =? number) || String.eqb (Forge.fp_BaseRepo pr) "" || String.eqb (Forge.fp_BaseRef pr) "" ||
         String.eqb (Forge.fp_BaseSHA pr) "" || String.eqb (Forge.fp_HeadRepo pr) "" || String.eqb (Forge.fp_HeadRef pr) "" ||
         String.eqb (Forge.fp_HeadSHA pr) "" then refuse "forge adapter: pull request identity is incomplete" else
      actualBase ← call (Forge.ResolveRepository (Forge.fp_BaseRepo pr));
      match actualBase with
      | Err _ => refuse "forge adapter: pull request base identity mismatch"
      | Ok actualBase =>
          if substituted actualBase base then refuse "forge adapter: pull request base identity mismatch" else
          actualHead ← call (Forge.ResolveRepository (Forge.fp_HeadRepo pr));
          match actualHead with
          | Err _ => refuse "forge adapter: pull request head identity mismatch"
          | Ok actualHead =>
              if substituted actualHead work then refuse "forge adapter: pull request head identity mismatch" else
              Ret (Ok {| pr_Number := Forge.fp_Number pr; pr_State := Forge.fp_State pr;
                         pr_BaseRepo := Forge.repo_Canonical actualBase; pr_BaseRef := Forge.fp_BaseRef pr;
                         pr_BaseOID := Forge.fp_BaseSHA pr; pr_HeadRepo := Forge.repo_Canonical actualHead;
                         pr_HeadRef := Forge.fp_HeadRef pr; pr_HeadOID := Forge.fp_HeadSHA pr;
                         pr_Title := Forge.fp_Title pr; pr_Body := Forge.fp_Body pr; pr_Draft := Forge.fp_Draft pr |})
          end
      end
  end.

Definition adapter_PullRequest (a : ForgeAdapter) (number : Z) : provider PullRequestState :=
  let p := fa_p a in
  if (number <=? 0) || (is_mode p ModeFixPR && negb (number =? PRNumber p)) ||
     (negb (is_mode p ModeFixPR) && negb (bool_decide (number ∈ fa_created a))) then
    refuse "forge adapter: pull request is outside pinned policy"
  else readPullRequest a number.

(** The filter loop over the listed pull requests. *)
Fixpoint listed_pulls (base work headRef : string) (pulls : list Forge.PullRequest) : result string (list PullRequestState) :=
  match pulls with
  | [] => Ok []
  | pr :: rest =>
      if negb (String.eqb (Forge.fp_BaseRepo pr) base) || negb (String.eqb (Forge.fp_HeadRepo pr) work) ||
         negb (String.eqb (Forge.fp_HeadRef pr) headRef) then listed_pulls base work headRef rest else
      if (Forge.fp_Number pr <=? 0) || String.eqb (Forge.fp_BaseRef pr) "" || String.eqb (Forge.fp_BaseSHA pr) "" ||
         String.eqb (Forge.fp_HeadSHA pr) "" then Err "forge adapter: listed pull request has incomplete identity" else
      out ← listed_pulls base work headRef rest;
      Ok ({| pr_Number := Forge.fp_Number pr; pr_State := Forge.fp_State pr; pr_BaseRepo := Forge.fp_BaseRepo pr;
             pr_BaseRef := Forge.fp_BaseRef pr; pr_BaseOID := Forge.fp_BaseSHA pr; pr_HeadRepo := Forge.fp_HeadRepo pr;
             pr_HeadRef := Forge.fp_HeadRef pr; pr_HeadOID := Forge.fp_HeadSHA pr; pr_Title := Forge.fp_Title pr;
             pr_Body := Forge.fp_Body pr; pr_Draft := Forge.fp_Draft pr |} :: out)
  end.

Definition ErrUnsupported_text : string := "forge: operation not supported by provider".

Definition adapter_FindPullRequest (a : ForgeAdapter) (headRepo headRef : string) : provider (list PullRequestState) :=
  if negb (fa_heads a) then refuse ErrUnsupported_text else
  if negb (String.eqb headRepo (WorkRepo (fa_p a))) || negb (String.eqb headRef (WorkRef (fa_p a))) then
    refuse "forge adapter: head is outside pinned policy" else
  base ←? checkedRepository (fa_base a) ;
  work ←? checkedRepository (fa_work a) ;
  r ← call (Forge.ListPullRequestsByHead (Forge.repo_Canonical base) (Forge.repo_Canonical work) headRef);
  match r with
  | Err _ => refuse "forge adapter: pull request head listing failed"
  | Ok pulls => Ret (listed_pulls (Forge.repo_Canonical base) (Forge.repo_Canonical work) headRef pulls)
  end.

(** ** Writes *)

(** From the provider's answer to a create on: verify it, and register it. *)
Definition verify_created (a : ForgeAdapter) (req : CreateRequest) (base work : Forge.Repository) (created : Forge.PullRequest) :
    provider (ForgeAdapter * Z) :=
  if Forge.fp_Number created <=? 0 then refuse "forge adapter: provider returned invalid pull request number" else
  if negb (String.eqb (Forge.fp_BaseRepo created) (Forge.repo_Canonical base)) ||
     negb (String.eqb (Forge.fp_BaseRef created) (cr_BaseRef req)) ||
     negb (String.eqb (Forge.fp_HeadRepo created) (Forge.repo_Canonical work)) ||
     negb (String.eqb (Forge.fp_HeadRef created) (cr_HeadRef req)) || String.eqb (Forge.fp_HeadSHA created) "" then
    refuse "forge adapter: created pull request does not match pinned full identity" else
  _ ←? readPullRequest a (Forge.fp_Number created) ;
  _ ←? checkedRepository (fa_base a) ;
  _ ←? checkedRepository (fa_work a) ;
  matches ←? adapter_FindPullRequest a (Forge.repo_Canonical work) (cr_HeadRef req) ;
  match matches with
  | [m] => if pr_Number m =? Forge.fp_Number created
           then Ret (Ok (register a (Forge.fp_Number created), Forge.fp_Number created))
           else refuse "forge adapter: duplicate or mismatched pull request appeared during creation"
  | _ => refuse "forge adapter: duplicate or mismatched pull request appeared during creation"
  end.

Definition adapter_CreatePullRequest (a : ForgeAdapter) (req : CreateRequest) : provider (ForgeAdapter * Z) :=
  let p := fa_p a in
  if (negb (is_mode p ModeResolveIssue) && negb (is_mode p ModeContribute)) ||
     negb (String.eqb (cr_BaseRepo req) (BaseRepo p)) || negb (String.eqb (cr_BaseRef req) (BaseRef p)) ||
     negb (String.eqb (cr_HeadRepo req) (WorkRepo p)) || negb (String.eqb (cr_HeadRef req) (WorkRef p)) then
    refuse "forge adapter: pull request destination differs from pinned policy" else
  base ←? checkedRepository (fa_base a) ;
  work ←? checkedRepository (fa_work a) ;
  _ ←? adapter_Repository a (BaseRepo p) (BaseRef p) ;
  _ ←? adapter_Repository a (WorkRepo p) (WorkRef p) ;
  before ←? adapter_FindPullRequest a (Forge.repo_Canonical work) (cr_HeadRef req) ;
  match before with
  | _ :: _ => refuse "forge adapter: pull request already exists for pinned full head"
  | [] =>
      r ← call (Forge.CreatePullRequest
            {| Forge.ci_Repo := Forge.repo_Canonical base; Forge.ci_Title := cr_Title req;
               Forge.ci_Head := Forge.repo_Canonical work ++ ":" ++ cr_HeadRef req;
               Forge.ci_HeadRepo := Forge.repo_Canonical work; Forge.ci_HeadRef := cr_HeadRef req;
               Forge.ci_Base := cr_BaseRef req; Forge.ci_Body := cr_Body req; Forge.ci_Draft := cr_Draft req |});
      match r with
      | Err _ => refuse "forge adapter: create pull request failed"
      | Ok created => verify_created a req base work created
      end
  end.

Definition adapter_UpdatePullRequest (a : ForgeAdapter) (number : Z) (req : UpdateRequest) : provider unit :=
  if negb (number =? PRNumber (fa_p a)) || negb (is_mode (fa_p a) ModeFixPR) then
    refuse "forge adapter: pull request update is outside pinned policy" else
  match up_Draft req with
  | Some _ => refuse ErrUnsupported_text
  | None =>
      before ←? adapter_PullRequest a number ;
      r ← call (Forge.UpdatePullRequest (Forge.repo_Canonical (fa_base a)) number
                  {| Forge.ui_Title := up_Title req; Forge.ui_Body := up_Body req; Forge.ui_State := "" |});
      match r with
      | Err _ => refuse "forge adapter: update pull request failed"
      | Ok _ =>
          after ← adapter_PullRequest a number;
          match after with
          | Err _ => refuse "forge adapter: post-update pull request read failed"
          | Ok after =>
              if negb (String.eqb (pr_BaseRepo before) (pr_BaseRepo after)) || negb (String.eqb (pr_BaseRef before) (pr_BaseRef after)) ||
                 negb (String.eqb (pr_HeadRepo before) (pr_HeadRepo after)) || negb (String.eqb (pr_HeadRef before) (pr_HeadRef after)) ||
                 negb (String.eqb (pr_HeadOID before) (pr_HeadOID after)) then
                refuse "forge adapter: pull request identity changed during metadata update"
              else Ret (Ok tt)
          end
      end
  end.

(** ** The stack *)

(** The [Pusher] and [Snapshotter] requests, which the adapter does not serve. *)
Inductive transportE : Type -> Type :=
| TIsAncestor (repo ancestor descendant : string) : transportE (result string bool)
| TPush (repo ref oid : string) : transportE (result string unit)
| TSnapshot (req : SnapshotRequest) : transportE (result snapshot_error (list Z)).

(** Below the engine: the provider behind the adapter, and the git transport. *)
Inductive stackE : Type -> Type :=
| ToProvider X (e : providerE X) : stackE X
| ToGit X (e : transportE X) : stackE X.

Definition on_provider {A} : prog providerE A -> prog stackE A := lift ToProvider.

(** A read leaves the adapter as it is. *)
Definition keep {A} (a : ForgeAdapter) (p : prog providerE A) : prog stackE (ForgeAdapter * A) :=
  x ← on_provider p; Ret (a, x).

Definition serve (X : Type) (e : brokerE X) (a : ForgeAdapter) : prog stackE (ForgeAdapter * X) :=
  match e in brokerE Y return prog stackE (ForgeAdapter * Y) with
  | Repository repo ref => keep a (adapter_Repository a repo ref)
  | PullRequest n => keep a (adapter_PullRequest a n)
  | FindPullRequest repo ref => keep a (adapter_FindPullRequest a repo ref)
  | CreatePR req =>
      r ← on_provider (adapter_CreatePullRequest a req);
      match r with Ok (a', n) => Ret (a', Ok n) | Err m => Ret (a, Err m) end
  | UpdatePR n req => keep a (adapter_UpdatePullRequest a n req)
  | IsAncestor repo anc desc => x ← call (ToGit _ (TIsAncestor repo anc desc)); Ret (a, x)
  | Push repo ref oid => x ← call (ToGit _ (TPush repo ref oid)); Ret (a, x)
  | Snapshot req => x ← call (ToGit _ (TSnapshot req)); Ret (a, x)
  end.

(** ** Lemmas *)

(** What a write to the provider may be: the creation of a pull request from
    the pinned head into the pinned base, or an edit of the pinned one that
    leaves its state alone. *)
Definition pinned_input (p : Policy) (i : CreatePullRequestInput) : Prop :=
  ci_Repo i = BaseRepo p /\ ci_Base i = BaseRef p /\ ci_HeadRepo i = WorkRepo p /\ ci_HeadRef i = WorkRef p /\
  ci_Head i = WorkRepo p ++ ":" ++ WorkRef p.

Definition write_ok (p : Policy) (ev : event providerE) : Prop :=
  match ev_op ev with
  | Forge.CreatePullRequest i => pinned_input p i /\ pol_Mode p <> ModeFixPR
  | Forge.UpdatePullRequest repo n i =>
      repo = BaseRepo p /\ n = PRNumber p /\ ui_State i = "" /\ pol_Mode p = ModeFixPR
  | _ => True
  end.

(** The adapter holds the canonical repositories its policy pins. *)
Definition adapter_inv (p : Policy) (a : ForgeAdapter) : Prop :=
  fa_p a = p /\ repo_Canonical (fa_base a) = BaseRepo p /\ repo_Canonical (fa_work a) = WorkRepo p.

Lemma new_adapter_inv p facets base work a : NewForgeAdapter p facets base work = Ok a -> adapter_inv p a.
Proof.
  unfold NewForgeAdapter. case_match eqn:H; [done|]. case_match; [done|]. case_match; [done|]. intros [= <-].
  rewrite !orb_false_iff, !negb_false_iff, !String.eqb_eq in H. destruct H as (((((_ & _) & Hb) & Hw) & _) & _). done.
Qed.

Section Writes.
Variable p : Policy.
Abbreviation ok := (write_ok p).
Abbreviation G prg post := (guarded ok prg (on_ok post)).

Lemma refuse_ok {A} m (post : A -> Prop) : G (refuse m) post.
Proof. by apply guarded_ret. Qed.

Lemma guard_ok {A} (b : bool) m (k : provider A) post : (b = false -> G k post) -> G (if b then refuse m else k) post.
Proof. destruct b; [intros _; apply refuse_ok|auto]. Qed.

Lemma checked_ok pinned : G (checkedRepository pinned) (fun live => repo_Canonical live = repo_Canonical pinned).
Proof.
  unfold checkedRepository. apply guarded_call; [done|]. intros [live|]; [|apply refuse_ok].
  apply guard_ok. intros H. rewrite !orb_false_iff, !negb_false_iff, !String.eqb_eq in H. destruct H as (((_ & H) & _) & _).
  apply guarded_ret. exact H.
Qed.

Lemma checked_any pinned : G (checkedRepository pinned) (fun _ => True).
Proof. eapply guarded_mono; [|apply checked_ok]. by intros []. Qed.

Lemma repository_ok a repo ref : G (adapter_Repository a repo ref) (fun _ => True).
Proof.
  unfold adapter_Repository. destruct (repository a repo); [|apply refuse_ok]. apply guard_ok. intros _.
  eapply guarded_bind_err; [apply checked_any|]. intros live _. apply guarded_call; [done|]. intros [s|]; [|apply refuse_ok].
  apply guard_ok. intros _. apply guarded_call; [done|]. intros prot. apply guarded_call; [done|]. intros w.
  by apply guarded_ret.
Qed.

Lemma read_pr_ok a n : G (readPullRequest a n) (fun _ => True).
Proof.
  unfold readPullRequest. eapply guarded_bind_err; [apply checked_any|]. intros base _.
  eapply guarded_bind_err; [apply checked_any|]. intros work _. apply guarded_call; [done|]. intros [pr|]; [|apply refuse_ok].
  apply guard_ok. intros _. apply guarded_call; [done|]. intros [b|]; [|apply refuse_ok]. apply guard_ok. intros _.
  apply guarded_call; [done|]. intros [h|]; [|apply refuse_ok]. apply guard_ok. intros _. by apply guarded_ret.
Qed.

Lemma pull_request_ok a n : G (adapter_PullRequest a n) (fun _ => True).
Proof. apply guard_ok. intros _. apply read_pr_ok. Qed.

Lemma find_ok a repo ref : G (adapter_FindPullRequest a repo ref) (fun _ => True).
Proof.
  unfold adapter_FindPullRequest. apply guard_ok. intros _. apply guard_ok. intros _.
  eapply guarded_bind_err; [apply checked_any|]. intros base _. eapply guarded_bind_err; [apply checked_any|]. intros work _.
  apply guarded_call; [done|]. intros [l|]; [|apply refuse_ok]. apply guarded_ret. by destruct (listed_pulls _ _ _ _).
Qed.

Lemma verify_ok a req base work created :
  adapter_inv p a -> G (verify_created a req base work created) (fun r => adapter_inv p r.1).
Proof.
  intros Ha. unfold verify_created. apply guard_ok. intros _. apply guard_ok. intros _.
  eapply guarded_bind_err; [apply read_pr_ok|]. intros _ _. eapply guarded_bind_err; [apply checked_any|]. intros _ _.
  eapply guarded_bind_err; [apply checked_any|]. intros _ _. eapply guarded_bind_err; [apply find_ok|]. intros [|m [|]] _;
    [apply refuse_ok| |apply refuse_ok]. destruct (_ =? _); [|apply refuse_ok]. by apply guarded_ret.
Qed.

Lemma create_ok a req : adapter_inv p a -> G (adapter_CreatePullRequest a req) (fun r => adapter_inv p r.1).
Proof.
  intros (Hp & Hb & Hw). unfold adapter_CreatePullRequest. rewrite Hp. apply guard_ok. intros H.
  rewrite !orb_false_iff, !negb_false_iff, !String.eqb_eq in H. destruct H as ((((Hm & H1) & H2) & H3) & H4).
  eapply guarded_bind_err; [apply checked_ok|]. intros base Hbase. eapply guarded_bind_err; [apply checked_ok|]. intros work Hwork.
  eapply guarded_bind_err; [apply repository_ok|]. intros _ _. eapply guarded_bind_err; [apply repository_ok|]. intros _ _.
  eapply guarded_bind_err; [apply find_ok|]. intros [|b l] _; [|apply refuse_ok]. apply guarded_call.
  - intros ans. split; [|intros Hf; unfold is_mode in Hm; by rewrite Hf in Hm].
    unfold pinned_input. cbn. rewrite Hbase, Hwork, Hb, Hw, H2, H4. done.
  - intros [created|]; [|apply refuse_ok]. by apply verify_ok.
Qed.

Lemma update_ok a n req : adapter_inv p a -> G (adapter_UpdatePullRequest a n req) (fun _ => True).
Proof.
  intros (Hp & Hb & Hw). unfold adapter_UpdatePullRequest. rewrite Hp. apply guard_ok. intros H.
  rewrite orb_false_iff, !negb_false_iff, Z.eqb_eq in H. destruct H as [Hn Hm%String.eqb_eq].
  destruct (up_Draft req); [apply refuse_ok|]. eapply guarded_bind_err; [apply pull_request_ok|]. intros before _.
  apply guarded_call; [intros ans; cbn; by rewrite Hb|]. intros [x|]; [|apply refuse_ok].
  eapply guarded_bind; [apply pull_request_ok|]. intros [after|] _; [|apply refuse_ok]. apply guard_ok. intros _.
  by apply guarded_ret.
Qed.
End Writes.

(** *** The engine over the adapter *)

Definition stack_write_ok (p : Policy) (ev : event stackE) : Prop :=
  match ev with
  | Ev op ans =>
      match op in stackE X return X -> Prop with
      | ToProvider _ e => fun x => write_ok p (Ev e x)
      | ToGit _ _ => fun _ => True
      end ans
  end.

Lemma on_provider_ok {A} p (prg : prog providerE A) post :
  guarded (write_ok p) prg post -> guarded (stack_write_ok p) (on_provider prg) post.
Proof. intros H. unfold on_provider. apply guarded_lift. exact H. Qed.

Lemma keep_ok {A} p a (prg : prog providerE A) post :
  adapter_inv p a -> guarded (write_ok p) prg post -> guarded (stack_write_ok p) (keep a prg) (fun r => adapter_inv p r.1).
Proof.
  intros Ha H. eapply guarded_bind; [by apply on_provider_ok|]. intros x _. by apply guarded_ret.
Qed.

(** Whatever the engine asks, the adapter writes only what the policy pins. *)
Lemma serve_ok p X (e : brokerE X) a :
  adapter_inv p a -> guarded (stack_write_ok p) (serve X e a) (fun r => adapter_inv p r.1).
Proof.
  intros Ha. destruct e; cbn [serve].
  - eapply keep_ok; [done|apply repository_ok].
  - eapply keep_ok; [done|apply pull_request_ok].
  - eapply keep_ok; [done|apply find_ok].
  - eapply guarded_bind; [by apply on_provider_ok, create_ok|]. intros [[a' n]|m] Hr; by apply guarded_ret.
  - eapply keep_ok; [done|by apply update_ok].
  - apply guarded_call; [done|]. intros x. by apply guarded_ret.
  - apply guarded_call; [done|]. intros x. by apply guarded_ret.
  - apply guarded_call; [done|]. intros x. by apply guarded_ret.
Qed.

Lemma served_ok p a hi t a' :
  served serve a hi t a' -> adapter_inv p a -> Forall (stack_write_ok p) t /\ adapter_inv p a'.
Proof.
  apply served_inv. intros X e s u s' x Hs Hex. exact (guarded_exec _ _ _ _ _ (serve_ok p X e s Hs) Hex).
Qed.

(** The git pushes of a trace. *)
Definition stack_push (ev : event stackE) : option (string * string * string) :=
  match ev_op ev with
  | ToGit _ e => match e with TPush repo ref oid => Some (repo, ref, oid) | _ => None end
  | ToProvider _ _ => None
  end.
Definition stack_pushes (t : trace stackE) : list (string * string * string) := omap stack_push t.

Lemma provider_no_push {A} (prg : prog providerE A) t a : exec (on_provider prg) t a -> stack_pushes t = [].
Proof. intros (t' & -> & _)%lift_exec. induction t' as [|ev t' IH]; [done|]. exact IH. Qed.

Lemma keep_no_push {A} a (prg : prog providerE A) t r : exec (keep a prg) t r -> stack_pushes t = [].
Proof.
  intros (t1 & t2 & x & -> & H1 & [-> _])%exec_bind. rewrite app_nil_r. by apply provider_no_push in H1.
Qed.

(** The adapter neither adds nor drops a push. *)
Lemma serve_pushes X (e : brokerE X) a t a' x :
  exec (serve X e a) t (a', x) -> stack_pushes t = pushes [Ev e x].
Proof.
  destruct e; cbn [serve]; intros Hex; try (apply keep_no_push in Hex; exact Hex).
  - apply exec_bind in Hex as (t1 & t2 & r & -> & H1 & H2). apply provider_no_push in H1.
    destruct r as [[a1 n]|m]; destruct H2 as [-> _]; rewrite app_nil_r; exact H1.
  - destruct Hex as (y & t' & -> & -> & [= -> ->]). reflexivity.
  - destruct Hex as (y & t' & -> & -> & [= -> ->]). reflexivity.
  - destruct Hex as (y & t' & -> & -> & [= -> ->]). reflexivity.
Qed.

Lemma served_pushes a hi t a' : served serve a hi t a' -> stack_pushes t = pushes hi.
Proof.
  induction 1 as [|s X e x t s' hi t' s'' Hex _ IH]; [done|].
  change (Ev e x :: hi) with ([Ev e x] ++ hi)%list. unfold stack_pushes. rewrite omap_app.
  rewrite pushes_app, <- IH. f_equal. by apply (serve_pushes X e s t s').
Qed.

(** ** Histories of a broker process *)

(** One engine operation served by the adapter. *)
Inductive stack_step (e : PolicyEngine) (a : ForgeAdapter) : trace stackE -> PolicyEngine -> ForgeAdapter -> Prop :=
| stack_publish req t e' r a' :
    exec (interp serve (Publish e req) a) t (a', (e', r)) -> stack_step e a t e' a'
| stack_create oid title body draft t r a' :
    exec (interp serve (CreatePullRequest e oid title body draft) a) t (a', r) -> stack_step e a t e a'
| stack_update u t r a' : exec (interp serve (UpdateFixPR e u) a) t (a', r) -> stack_step e a t e a'
| stack_snapshot t r a' : exec (interp serve (SnapshotForControl e) a) t (a', r) -> stack_step e a t e a'
| stack_observe t r a' : exec (interp serve (observe (policy e)) a) t (a', r) -> stack_step e a t e a'.

(** A broker started for a policy: the engine and the adapter are built for it,
    then operations follow one another under the engine's lock. *)
Inductive stack_reachable (p : Policy) : trace stackE -> PolicyEngine -> ForgeAdapter -> Prop :=
| stack_new s e facets base work a :
    newPolicyEngine p s = Ok e -> NewForgeAdapter p facets base work = Ok a -> stack_reachable p [] e a
| stack_next h e a t e' a' :
    stack_reachable p h e a -> stack_step e a t e' a' -> stack_reachable p (h ++ t)%list e' a'.

Lemma stack_step_sim e a t e' a' :
  stack_step e a t e' a' -> exists hi, step e hi e' /\ served serve a hi t a'.
Proof.
  destruct 1 as [req t e' r a' Hex|oid title body draft t r a' Hex|u t r a' Hex|t r a' Hex|t r a' Hex];
    apply interp_exec in Hex as (hi & Hex & Hs); exists hi; (split; [|exact Hs]).
  - by eapply step_publish.
  - by eapply step_create.
  - by eapply step_update.
  - by eapply step_snapshot.
  - by eapply step_observe.
Qed.

(** The engine's own history under a stack history. *)
Lemma stack_reachable_sim p h e a :
  stack_reachable p h e a ->
  exists hi, reachable p hi e /\ stack_pushes h = pushes hi /\ Forall (stack_write_ok p) h /\ adapter_inv p a.
Proof.
  induction 1 as [s e facets base work a He Ha|h e a t e' a' _ (hi & Hr & Hp & Hw & Hinv) Hs].
  - exists []. split_and!; [by eapply reach_new|done|done|by eapply new_adapter_inv].
  - apply stack_step_sim in Hs as (hi' & Hstep & Hserved). destruct (served_ok p _ _ _ _ Hserved Hinv) as [Hw' Hinv'].
    exists (hi ++ hi')%list. split_and!; [by eapply reach_step| |by apply Forall_app|done].
    unfold stack_pushes in *. rewrite omap_app, pushes_app, Hp. f_equal. exact (served_pushes _ _ _ _ Hserved).
Qed.

(** ** Properties *)

(** Publication over the whole broker stack: whatever sequence of operations a
    broker bound to a run performs, and whatever the provider and git answer,
    - every push goes to the pinned work ref, which is not the base ref: for
      resolve-issue the branch derived from the run's issue in the base
      repository, for contribute the branch derived from the work item in a
      fork that is the approved one and not the base under any casing;
    - every provider write creates a pull request from that ref into the pinned
      base or, for fix-pr only, edits the pinned pull request's text;
    - a confirmed tip was pushed there. *)
Theorem broker_stack_safe (run : CoderRun) (provider base : string) (p : Policy)
    (h : trace stackE) (e : PolicyEngine) (a : ForgeAdapter)
    (Hbound : PolicyFromRun (Some run) provider base = Ok p) (Hreach : stack_reachable p h e a) :
  (forall repo ref oid, (repo, ref, oid) ∈ stack_pushes h ->
     repo = WorkRepo p /\ ref = WorkRef p /\ (repo, ref) <> (BaseRepo p, BaseRef p) /\
     (pol_Mode p = ModeResolveIssue -> repo = base /\ ref = ResolveIssueBranch base (sp_Ref (Spec run))) /\
     (pol_Mode p = ModeContribute ->
        ref = ResolveGoalBranch base (sp_WorkItemID (Spec run)) /\
        exists fork, canonicalRepoIdentity (sp_WorkRepo (Spec run)) = Some fork /\
                     canonicalRepoIdentity repo = Some fork /\ canonicalRepoIdentity base <> Some fork)) /\
  Forall (stack_write_ok p) h /\
  (confirmed e <> "" -> (WorkRepo p, WorkRef p, confirmed e) ∈ stack_pushes h).
Proof.
  destruct (stack_reachable_sim p h e a Hreach) as (hi & Hr & Hp & Hw & _).
  destruct (reachable_inv _ _ _ Hr) as (_ & Hv & Hx & Hc). rewrite Hp. split_and!; [|done|].
  - intros repo ref oid Hin. destruct (Hx _ Hin) as (oid' & [= -> -> ->]).
    split_and!; [done|done|by apply valid_policy_destination| |]; intros Hm.
    + destruct (derived_work_ref _ _ _ _ Hbound) as [(_ & Hrepo & Href & _)|(Hm' & _)];
        [by rewrite Hm|done|by rewrite Hm in Hm'].
    + split; [|by eapply bound_fork].
      destruct (derived_work_ref _ _ _ _ Hbound) as [(Hm' & _)|(_ & Href & _)];
        [by rewrite Hm|by rewrite Hm in Hm'|done].
  - intros Hne. destruct Hc as [Hc|(h1 & ans & o & h2 & -> & _)]; [done|].
    rewrite pushes_app. apply elem_of_app. right. left.
Qed.

(** ** Witnesses *)

Definition stack_repo : Forge.Repository :=
  {| repo_ID := "R1"; repo_Canonical := "misospace/courier"; repo_DefaultRef := "main" |}.

(** A provider and a git remote that share the work branch's tip. *)
Definition stack_world (X : Type) (e : stackE X) (tip : option string) : option string * X :=
  match e in stackE Y return option string * Y with
  | ToProvider Y e =>
      (tip, match e in providerE Z return Z with
            | ResolveRepository _ => Ok stack_repo
            | ReadRef _ ref =>
                if String.eqb ref "main" then Ok {| ref_Ref := ref; ref_OID := bound_base_oid; ref_Exists := true |}
                else Ok {| ref_Ref := ref; ref_OID := default "" tip; ref_Exists := bool_decide (is_Some tip) |}
            | ReadEffectiveProtection _ _ => Ok false
            | CanWriteRepository _ => Ok true
            | ListPullRequestsByHead _ _ _ => Ok []
            | ReadWorkItem _ _ => Err Forge.ErrUnsupported
            | ReadPullRequest _ _ => Err Forge.ErrUnsupported
            | Forge.CreatePullRequest _ => Err Forge.ErrUnsupported
            | Forge.UpdatePullRequest _ _ _ => Err Forge.ErrUnsupported
            end)
  | ToGit Y e =>
      match e in transportE Z return option string * Z with
      | TPush _ _ oid => (Some oid, Ok tt)
      | TIsAncestor _ _ _ => (tip, Ok true)
      | TSnapshot _ => (tip, Err (SnapshotFailed "none"))
      end
  end.

Definition stack_engine : PolicyEngine := {| policy := bound_policy; snapshotter := false; confirmed := "" |}.

Definition stack_adapter : ForgeAdapter :=
  {| fa_p := bound_policy; fa_base := stack_repo; fa_work := stack_repo; fa_heads := true; fa_created := ∅ |}.

Definition stack_publication :=
  interp serve (Publish stack_engine {| req_RunUID := "uid-1"; ExpectedWorkOID := ""; ProposedOID := "c1" |}) stack_adapter.

(** One publication through the stack: the derived branch is pushed. *)
Lemma broker_stack_safe_witness :
  exists h e a, stack_reachable bound_policy h e a /\
    ("misospace/courier", "courier/misospace/courier/issue-12", "c1") ∈ stack_pushes h.
Proof.
  pose (r := Effects.run stack_world stack_publication None).
  assert (Hx : exec stack_publication r.1.2 (r.2.1, (r.2.2.1, r.2.2.2))).
  { pose proof (run_exec stack_world stack_publication None) as H. fold r in H. by destruct r.2 as [a [e o]]. }
  assert (Hr : stack_reachable bound_policy ([] ++ r.1.2)%list r.2.2.1 r.2.1).
  { eapply stack_next.
    - apply (stack_new bound_policy false stack_engine {| config_name := "github"; available := fun _ => true; lists_heads := true |}
        stack_repo stack_repo stack_adapter); vm_compute; reflexivity.
    - eapply stack_publish. exact Hx. }
  assert (Hb : PolicyFromRun (Some bound_run) "github" "misospace/courier" = Ok bound_policy) by (vm_compute; reflexivity).
  assert (Hc : confirmed r.2.2.1 = "c1") by (vm_compute; reflexivity).
  exists ([] ++ r.1.2)%list, r.2.2.1, r.2.1. split; [exact Hr|].
  destruct (broker_stack_safe bound_run "github" "misospace/courier" bound_policy _ _ _ Hb Hr) as (_ & _ & H).
  rewrite Hc in H. apply H. discriminate.
Defined.
