(* ===== verification/GitTransport.v ===== *)
(** * The broker's git transport (internal/broker/git_transport.go, snapshot.go,
      internal/git/broker.go and the helpers of internal/git/bundle.go they use)

    The bottom of the broker: the engine's ancestry, push and snapshot requests
    become git command lines run with the hardened environment.  A command is a
    request of [gitE] with its directory, its extra environment and its
    arguments; git's answer is arbitrary.

    [valid_url] is the URL check of [validateBrokerURL], which parses URLs: an
    argument of the definitions, so the theorems hold for every such check.
    Temporary files are removed by deferred calls that are left out. *)

From S2P Require Import Prelude Effects GoStrings Regex Sha256 Branch Run Forge Linkage Criteria Policy Binding ForgeAdapter.
Local Open Scope string_scope.
Local Open Scope Z_scope.

(** ** Requests *)

(** A git process: its output, a non-zero exit code, or no verdict (it did not
    start, was killed, or its output overflowed). *)
Inductive git_answer :=
| Output (stdout : string)
| ExitCode (code : Z)
| NoVerdict.

Inductive gitE : Type -> Type :=
| Git (directory : string) (env args : list string) : gitE git_answer
| CheckRefFormat (args : list string) : gitE git_answer          (* run, in the process environment *)
| MkdirTemp (parent prefix : string) : gitE (option string)
| WriteAskpass (parent : string) : gitE (option string)
| Credentials (repo : string) : gitE (option (string * string))
| BundleSize (path : string) : gitE (option Z)                   (* a regular file's size *)
| ReadFile (path : string) : gitE (option (list Z)).

Abbreviation git A := (prog gitE (result string A)).

Definition git_err {A} (msg : string) : git A := Ret (Err msg).

(** [brokerGit] and [brokerGitRun]: the output, or one fixed error. *)
Definition brokerGitRun (directory : string) (env args : list string) : git string :=
  a ← call (Git directory env args);
  match a with Output s => Ret (Ok s) | _ => git_err "git command failed" end.

(** ** Object IDs *)

Definition hex_value (c : ascii) : option Z :=
  let b := byte_of c in
  if (48 <=? b) && (b <=? 57) then Some (b - 48) else
  if (97 <=? b) && (b <=? 102) then Some (b - 87) else
  if (65 <=? b) && (b <=? 70) then Some (b - 55) else None.

(** [hex.DecodeString]. *)
Fixpoint DecodeString (s : string) : option (list Z) :=
  match s with
  | "" => Some []
  | String a (String b r) =>
      match hex_value a, hex_value b with
      | Some x, Some y => match DecodeString r with Some l => Some (16 * x + y :: l) | None => None end
      | _, _ => None
      end
  | String _ "" => None
  end.

Fixpoint all_lower_hex (s : string) : bool :=
  match s with "" => true | String c r => is_hex c && all_lower_hex r end.

Definition canonicalOID (oid : string) : option string :=
  if (negb (slen oid =? 40) && negb (slen oid =? 64)) || negb (String.eqb (TrimSpace oid) oid) then None else
  match DecodeString oid with
  | None => None
  | Some decoded =>
      if negb (Z.of_nat (length decoded) * 2 =? slen oid) then None else
      let encoded := ToLower (EncodeToString decoded) in
      if all_lower_hex encoded then Some encoded else None
  end.

Definition validOID (oid : string) : bool := bool_decide (is_Some (canonicalOID oid)).

(** A rune below 0x20, or 0x7f: in UTF-8 exactly such a byte. *)
Fixpoint hasControl (s : string) : bool :=
  match s with "" => false | String c r => (byte_of c <? 32) || (byte_of c =? 127) || hasControl r end.

(** ** The private repository *)

(** [gb_parent] is [filepath.Dir] of the directory. *)
Record GitBroker := { gb_directory : string; gb_parent : string }.

Definition validateRef (ref : string) : git unit :=
  if String.eqb (TrimSpace ref) "" then git_err "branch is required" else
  if HasPrefix ref "-" then git_err "invalid branch" else
  a ← call (CheckRefFormat ["check-ref-format"; "--branch"; ref]);
  match a with Output _ => Ret (Ok tt) | _ => git_err "invalid branch" end.

Definition resolveCommitIn (directory oid : string) : git string :=
  match canonicalOID oid with
  | None => git_err "invalid object ID"
  | Some oid =>
      out ←? brokerGitRun directory [] ["rev-parse"; "--verify"; oid ++ "^{commit}"] ;
      let resolved := TrimSpace out in
      if negb (validOID resolved) then git_err "invalid resolved OID" else
      Ret (Ok (ToLower resolved))
  end.

(** [filepath.IsAbs] on Unix. *)
Definition IsAbs (path : string) : bool := HasPrefix path "/".

Definition validRefDestination (destination : string) : bool :=
  negb (String.eqb destination "") && IsAbs destination && negb (hasControl destination).

Definition BundleCreate (repoDir destination : string) (refs : list string) : git unit :=
  match refs with
  | [] => git_err "git bundle create: at least one ref is required"
  | _ =>
      if negb (validRefDestination destination) then
        git_err "git bundle create: destination must be an absolute local path" else
      _ ←? brokerGitRun repoDir [] ("bundle" :: "create" :: destination :: refs) ; Ret (Ok tt)
  end.

(** [couriergit.UpdateRef]. *)
Definition UpdateRef (repoDir ref oid : string) : git unit :=
  if negb (validOID oid) then git_err "git update-ref: invalid object ID" else
  _ ←? brokerGitRun repoDir [] ["update-ref"; "--no-deref"; ref; oid] ; Ret (Ok tt).

(** A failed call with the caller's own message. *)
Definition relabel {A} (p : git A) (msg : string) : git A :=
  r ← p; match r with Ok a => Ret (Ok a) | Err _ => git_err msg end.

Definition broker_IsAncestor (b : GitBroker) (ancestor descendant : string) : git bool :=
  if String.eqb (gb_directory b) "" then git_err "git broker: repository is unavailable" else
  match canonicalOID ancestor with
  | None => git_err "git broker: invalid ancestor object ID"
  | Some ancestor =>
      match canonicalOID descendant with
      | None => git_err "git broker: invalid descendant object ID"
      | Some descendant =>
          a ←? relabel (resolveCommitIn (gb_directory b) ancestor) "git broker: ancestor is not an imported commit" ;
          d ←? relabel (resolveCommitIn (gb_directory b) descendant) "git broker: descendant is not an imported commit" ;
          r ← call (Git (gb_directory b) [] ["merge-base"; "--is-ancestor"; a; d]);
          match r with
          | Output _ => Ret (Ok true)
          | ExitCode code => if code =? 1 then Ret (Ok false) else git_err "git broker: ancestry check failed"
          | NoVerdict => git_err "git broker: ancestry check failed"
          end
      end
  end.

Definition askpass_env (askpass username token : string) : list string :=
  ["GIT_ASKPASS=" ++ askpass; "SSH_ASKPASS=" ++ askpass;
   "COURIER_GIT_USERNAME=" ++ username; "COURIER_GIT_TOKEN=" ++ token].

Definition push_args (remoteURL refspec : string) : list string :=
  ["-c"; "protocol.ext.allow=never"; "push"; "--porcelain"; "--"; remoteURL; refspec].

Section Transport.
Variable valid_url : string -> bool.

Definition broker_push (b : GitBroker) (remoteURL ref proposedOID username token : string) : git unit :=
  if String.eqb (gb_directory b) "" then git_err "git broker: repository is unavailable" else
  if negb (valid_url remoteURL) then git_err "git broker: invalid remote URL" else
  _ ←? relabel (validateRef ref) "git broker: invalid destination ref" ;
  match canonicalOID proposedOID with
  | None => git_err "git broker: invalid proposed commit OID"
  | Some proposedOID =>
      commit ←? relabel (resolveCommitIn (gb_directory b) proposedOID) "git broker: proposed OID is not an imported commit" ;
      let refspec := commit ++ ":refs/heads/" ++ ref in
      if negb (String.eqb username "") || negb (String.eqb token "") then
        if String.eqb username "" || String.eqb token "" || hasControl username || hasControl token then
          git_err "git broker: invalid transport credentials" else
        askpass ← call (WriteAskpass (gb_parent b));
        match askpass with
        | None => git_err "git broker: cannot initialize credential helper"
        | Some askpass =>
            _ ←? relabel (brokerGitRun (gb_directory b) (askpass_env askpass username token) (push_args remoteURL refspec))
                   "git broker: push failed" ;
            Ret (Ok tt)
        end
      else
        _ ←? relabel (brokerGitRun (gb_directory b) [] (push_args remoteURL refspec)) "git broker: push failed" ;
        Ret (Ok tt)
  end.

(** [couriergit.FetchRef]. *)
Definition FetchRef (repoDir parent endpoint remoteRef localRef username token : string) : git unit :=
  if negb (valid_url endpoint) then git_err "git broker: invalid remote URL" else
  if String.eqb remoteRef "" || String.eqb localRef "" || HasPrefix remoteRef "-" || HasPrefix localRef "-" then
    git_err "git fetch: refs are required" else
  let refspec := "+" ++ remoteRef ++ ":" ++ localRef in
  let args := ["fetch"; "--no-tags"; "--"; endpoint; refspec] in
  if negb (String.eqb username "") || negb (String.eqb token "") then
    if String.eqb username "" || String.eqb token "" || hasControl username || hasControl token then
      git_err "git fetch: invalid transport credentials" else
    askpass ← call (WriteAskpass parent);
    match askpass with
    | None => git_err "git fetch: cannot initialize credential helper"
    | Some askpass =>
        if String.eqb askpass "" then git_err "git fetch: cannot initialize credential helper" else
        _ ←? relabel (brokerGitRun repoDir (askpass_env askpass username token) args) "git fetch" ; Ret (Ok tt)
    end
  else _ ←? relabel (brokerGitRun repoDir [] args) "git fetch" ; Ret (Ok tt).

(** ** The pinned transport *)

Record gitTransport := {
  gt_policy : Policy;
  gt_git : GitBroker;
  gt_endpoints : gmap string string;
  gt_credentials : bool               (* a credential provider is configured *)
}.

Variable t : gitTransport.
Abbreviation p := (gt_policy t).

Definition endpoint (repo : string) : option string :=
  match gt_endpoints t !! repo with
  | None => None
  | Some e => if negb (String.eqb repo (BaseRepo p)) && negb (String.eqb repo (WorkRepo p)) then None else Some e
  end.

Definition transport_IsAncestor (repo ancestor descendant : string) : git bool :=
  match endpoint repo with
  | None => git_err "broker git transport: repository is not pinned"
  | Some _ => broker_IsAncestor (gt_git t) ancestor descendant
  end.

Definition transport_Push (repo ref oid : string) : git unit :=
  match endpoint repo with
  | None => git_err "broker git transport: repository is not pinned"
  | Some url =>
      if negb (String.eqb repo (WorkRepo p)) || negb (String.eqb ref (WorkRef p)) then
        git_err "broker git transport: destination does not match pinned work repository and ref" else
      if negb (gt_credentials t) then broker_push (gt_git t) url ref oid "" "" else
      c ← call (Credentials repo);
      match c with
      | None => git_err "broker git transport: credential provider failed"
      | Some (username, token) => broker_push (gt_git t) url ref oid username token
      end
  end.

(** ** Snapshots *)

Definition snapshotWorkRef : string := "refs/courier/snapshot/work".
Definition snapshotBaseRef : string := "refs/courier/snapshot/base".
Definition MaxSnapshotBundleBytes : Z := Z.shiftl 64 20.

Definition fetchPinned (repo repoIdentity url remoteRef localRef : string) : git unit :=
  let fetch username token :=
    relabel (FetchRef repo (gb_parent (gt_git t)) url remoteRef localRef username token) "broker snapshot: pinned ref fetch failed" in
  if gt_credentials t then
    c ← call (Credentials repoIdentity);
    match c with
    | None => git_err "broker snapshot: credential provider failed"
    | Some (username, token) => fetch username token
    end
  else fetch "" "".

(** [Ok None] is a ref that does not resolve. *)
Definition resolveLocalRef (repo ref : string) : git (option string) :=
  a ← call (Git repo [] ["rev-parse"; "--verify"; "--quiet"; ref]);
  match a with
  | ExitCode code => if code =? 1 then Ret (Ok None) else git_err "broker snapshot: local ref resolve failed"
  | NoVerdict => git_err "broker snapshot: local ref resolve failed"
  | Output out =>
      let oid := TrimSpace out in
      if negb (validOID oid) then git_err "broker snapshot: resolved ref is not an object ID" else Ret (Ok (Some oid))
  end.

Abbreviation snap A := (prog gitE (result snapshot_error A)).

Definition snap_err {A} (msg : string) : snap A := Ret (Err (SnapshotFailed msg)).

(** A git step of the snapshot. *)
Definition snap_step {A} (p : git A) : snap A :=
  r ← p; match r with Ok a => Ret (Ok a) | Err m => snap_err m end.

(** A fetched ref must resolve to the observed tip. *)
Definition fetched_at (scratch ref missing oid : string) : snap unit :=
  r ← resolveLocalRef scratch ref;
  match r with
  | Ok (Some fetched) => if String.eqb fetched oid then Ret (Ok tt) else Ret (Err ErrSnapshotTipMoved)
  | _ => snap_err missing
  end.

(** The work ref of the bundle: fetched, or the base tip when it is absent. *)
Definition snapshot_work (scratch : string) (req : SnapshotRequest) : snap unit :=
  if sn_WorkExists req then
    match endpoint (sn_WorkRepo req) with
    | None => snap_err "broker snapshot: work repository is not pinned"
    | Some url =>
        _ ←? snap_step (fetchPinned scratch (sn_WorkRepo req) url ("refs/heads/" ++ sn_WorkRef req) snapshotWorkRef) ;
        fetched_at scratch snapshotWorkRef "broker snapshot: fetched work ref is unavailable" (sn_WorkOID req)
    end
  else
    r ← resolveLocalRef scratch snapshotBaseRef;
    match r with
    | Ok (Some localBase) =>
        snap_step (relabel (UpdateRef scratch snapshotWorkRef localBase) "broker snapshot: snapshot work ref unavailable")
    | _ => snap_err "broker snapshot: fetched base ref is unavailable"
    end.

(** From the scratch repository on: render the bundle and read it, bounded. *)
Definition render_bundle (scratch : string) : snap (list Z) :=
  let path := scratch ++ "/snapshot.bundle" in
  _ ←? snap_step (relabel (BundleCreate scratch path [snapshotWorkRef; snapshotBaseRef]) "broker snapshot: bundle render failed") ;
  size ← call (BundleSize path);
  match size with
  | None => snap_err "broker snapshot: bundle render produced no bundle"
  | Some size =>
      if MaxSnapshotBundleBytes <? size then snap_err "broker snapshot: repository history exceeds the bundle bound" else
      data ← call (ReadFile path);
      match data with None => snap_err "broker snapshot: bundle read failed" | Some d => Ret (Ok d) end
  end.

Definition transport_Snapshot (req : SnapshotRequest) : snap (list Z) :=
  if String.eqb (gb_directory (gt_git t)) "" then snap_err "broker snapshot: git repository is unavailable" else
  if String.eqb (sn_BaseOID req) "" || negb (String.eqb (sn_BaseRepo req) (BaseRepo p)) ||
     negb (String.eqb (sn_BaseRef req) (BaseRef p)) then
    snap_err "broker snapshot: base identity does not match the pinned policy" else
  if sn_WorkExists req && (String.eqb (sn_WorkOID req) "" || negb (String.eqb (sn_WorkRepo req) (WorkRepo p)) ||
     negb (String.eqb (sn_WorkRef req) (WorkRef p))) then
    snap_err "broker snapshot: work identity does not match the pinned policy" else
  scratch ← call (MkdirTemp (gb_parent (gt_git t)) "git-snapshot-");
  match scratch with
  | None => snap_err "broker snapshot: scratch repository unavailable"
  | Some scratch =>
      _ ←? snap_step (relabel (brokerGitRun "" [] ["init"; "--bare"; "--quiet"; scratch])
                        "broker snapshot: scratch repository init failed") ;
      match endpoint (sn_BaseRepo req) with
      | None => snap_err "broker snapshot: base repository is not pinned"
      | Some url =>
          _ ←? snap_step (fetchPinned scratch (sn_BaseRepo req) url ("refs/heads/" ++ sn_BaseRef req) snapshotBaseRef) ;
          _ ←? fetched_at scratch snapshotBaseRef "broker snapshot: fetched base ref is unavailable" (sn_BaseOID req) ;
          _ ←? snapshot_work scratch req ;
          render_bundle scratch
      end
  end.

(** ** The whole process below the engine *)

Inductive processE : Type -> Type :=
| Provider_call X (e : providerE X) : processE X
| Git_call X (e : gitE X) : processE X.

Definition serve_stack (X : Type) (e : stackE X) (s : unit) : prog processE (unit * X) :=
  match e in stackE Y return prog processE (unit * Y) with
  | ToProvider _ e => x ← call (Provider_call _ e); Ret (s, x)
  | ToGit _ e =>
      x ← lift Git_call (match e in transportE Z return prog gitE Z with
                         | TIsAncestor repo a d => transport_IsAncestor repo a d
                         | TPush repo ref oid => transport_Push repo ref oid
                         | TSnapshot req => transport_Snapshot req
                         end);
      Ret (s, x)
  end.

End Transport.

(** ** Lemmas *)

(** *** Object IDs *)

Definition lower_oid (o : string) : Prop := all_lower_hex o = true /\ (slen o = 40 \/ slen o = 64).

Lemma hex_value_digit a x : hex_value a = Some x -> 0 <= x < 16 /\ hex_digit x = ascii_lower a.
Proof.
  intros H. assert (Hall : match hex_value a with Some x => 0 <= x < 16 /\ hex_digit x = ascii_lower a | None => True end).
  { clear. destruct a as [[] [] [] [] [] [] [] []]; vm_compute; repeat split; discriminate. }
  by rewrite H in Hall.
Qed.

Lemma ascii_lower_idem c : ascii_lower (ascii_lower c) = ascii_lower c.
Proof. by destruct c as [[] [] [] [] [] [] [] []]. Qed.

(** Encoding what was decoded is the lower-cased text. *)
Lemma encode_decode s l : DecodeString s = Some l -> ToLower (EncodeToString l) = ToLower s.
Proof.
  revert s l. fix IH 1. intros [|a [|b r]] l; cbn [DecodeString]; [by intros [= <-]|done|].
  destruct (hex_value a) as [x|] eqn:Ha; [|done]. destruct (hex_value b) as [y|] eqn:Hb; [|done].
  destruct (DecodeString r) as [l'|] eqn:Hr; [|done]. intros [= <-].
  apply hex_value_digit in Ha as [Hx Ha], Hb as [Hy Hb].
  change (EncodeToString (16 * x + y :: l')) with (hex_byte (16 * x + y) ++ EncodeToString l'). unfold hex_byte.
  replace ((16 * x + y) / 16) with x by (apply Z.div_unique with y; lia).
  replace ((16 * x + y) mod 16) with y by (apply Z.mod_unique with x; lia).
  rewrite !sapp_cons. change ("" ++ EncodeToString l') with (EncodeToString l'). cbn [ToLower].
  by rewrite Ha, Hb, !ascii_lower_idem, (IH r l' Hr).
Qed.

Lemma slen_ToLower s : slen (ToLower s) = slen s.
Proof. unfold slen. induction s as [|c s IH]; [done|]. cbn [ToLower String.length]. lia. Qed.

(** The choke point: what it returns is the lower-cased argument, 40 or 64
    lower-case hexadecimal digits. *)
Lemma canonicalOID_some oid o : canonicalOID oid = Some o -> o = ToLower oid /\ lower_oid o.
Proof.
  unfold canonicalOID. destruct (_ || _) eqn:Hg; [done|]. apply orb_false_iff in Hg as [Hlen _].
  destruct (DecodeString oid) as [l|] eqn:Hd; [|done]. apply encode_decode in Hd. case_match; [done|].
  cbv zeta. destruct (all_lower_hex _) eqn:Hall; [|done]. intros [= <-]. split; [done|]. split; [done|].
  rewrite Hd, slen_ToLower. apply andb_false_iff in Hlen. rewrite !negb_false_iff, !Z.eqb_eq in Hlen. done.
Qed.

Lemma validOID_lower oid : validOID oid = true -> lower_oid (ToLower oid).
Proof. intros [o Ho]%bool_decide_eq_true. apply canonicalOID_some in Ho as [<- ?]. done. Qed.

(** *** The command lines *)

(** Every command the transport runs, by form.  Only [cmd_push] and [cmd_fetch]
    name a remote; only [cmd_push] writes to one, without force. *)
Inductive pinned_command (p : Policy) (endpoints : gmap string string) : list string -> Prop :=
| cmd_push url oid :
    endpoints !! WorkRepo p = Some url -> lower_oid oid ->
    pinned_command p endpoints (push_args url (oid ++ ":refs/heads/" ++ WorkRef p))
| cmd_fetch repo ref url local :
    (repo = BaseRepo p /\ ref = BaseRef p) \/ (repo = WorkRepo p /\ ref = WorkRef p) ->
    endpoints !! repo = Some url -> local = snapshotBaseRef \/ local = snapshotWorkRef ->
    pinned_command p endpoints ["fetch"; "--no-tags"; "--"; url; "+" ++ ("refs/heads/" ++ ref) ++ ":" ++ local]
| cmd_commit oid : lower_oid oid -> pinned_command p endpoints ["rev-parse"; "--verify"; oid ++ "^{commit}"]
| cmd_ancestor a d : lower_oid a -> lower_oid d -> pinned_command p endpoints ["merge-base"; "--is-ancestor"; a; d]
| cmd_local ref : ref = snapshotBaseRef \/ ref = snapshotWorkRef ->
    pinned_command p endpoints ["rev-parse"; "--verify"; "--quiet"; ref]
| cmd_update_ref oid : validOID oid = true -> pinned_command p endpoints ["update-ref"; "--no-deref"; snapshotWorkRef; oid]
| cmd_init dir : pinned_command p endpoints ["init"; "--bare"; "--quiet"; dir]
| cmd_bundle path : pinned_command p endpoints ["bundle"; "create"; path; snapshotWorkRef; snapshotBaseRef].

Definition git_ok (p : Policy) (endpoints : gmap string string) (ev : event gitE) : Prop :=
  match ev_op ev with Git _ _ args => pinned_command p endpoints args | _ => True end.

Section Commands.
Variables (valid_url : string -> bool) (t : gitTransport).
Abbreviation p := (gt_policy t).
Abbreviation ok := (git_ok p (gt_endpoints t)).
Abbreviation G prg post := (guarded ok prg (on_ok post)).

Lemma git_err_ok {A} m (post : A -> Prop) : G (git_err m) post.
Proof. by apply guarded_ret. Qed.

Lemma if_err_ok {A} (b : bool) m (k : git A) post : (b = false -> G k post) -> G (if b then git_err m else k) post.
Proof. destruct b; [intros _; apply git_err_ok|auto]. Qed.

Lemma run_ok dir env args : pinned_command p (gt_endpoints t) args -> G (brokerGitRun dir env args) (fun _ => True).
Proof. intros H. apply guarded_call; [done|]. intros []; by apply guarded_ret. Qed.

Lemma relabel_ok {A} (prg : git A) m post : G prg post -> G (relabel prg m) post.
Proof. intros H. eapply guarded_bind; [exact H|]. intros [a|e] Ha; by apply guarded_ret. Qed.

Lemma resolve_ok dir oid : G (resolveCommitIn dir oid) lower_oid.
Proof.
  unfold resolveCommitIn. destruct (canonicalOID oid) as [o|] eqn:Ho; [|apply git_err_ok].
  apply canonicalOID_some in Ho as [_ Ho]. eapply guarded_bind_err; [apply run_ok; by constructor|]. intros out _.
  apply if_err_ok. intros H%negb_false_iff. apply guarded_ret. by apply validOID_lower.
Qed.

Lemma is_ancestor_ok b x y : G (broker_IsAncestor b x y) (fun _ => True).
Proof.
  unfold broker_IsAncestor. apply if_err_ok. intros _. destruct (canonicalOID x); [|apply git_err_ok].
  destruct (canonicalOID y); [|apply git_err_ok]. eapply guarded_bind_err; [apply relabel_ok, resolve_ok|]. intros a Ha.
  eapply guarded_bind_err; [apply relabel_ok, resolve_ok|]. intros d Hd. apply guarded_call; [intros; by apply cmd_ancestor|].
  intros [|code|]; [by apply guarded_ret| |apply git_err_ok]. destruct (code =? 1); [by apply guarded_ret|apply git_err_ok].
Qed.

Lemma validate_ref_ok ref : G (validateRef ref) (fun _ => True).
Proof.
  unfold validateRef. apply if_err_ok. intros _. apply if_err_ok. intros _. apply guarded_call; [done|].
  intros []; by apply guarded_ret.
Qed.

Lemma push_ok b url oid user token :
  gt_endpoints t !! WorkRepo p = Some url -> G (broker_push valid_url b url (WorkRef p) oid user token) (fun _ => True).
Proof.
  intros Hurl. unfold broker_push. apply if_err_ok. intros _. apply if_err_ok. intros _.
  eapply guarded_bind_err; [apply relabel_ok, validate_ref_ok|]. intros _ _.
  destruct (canonicalOID oid); [|apply git_err_ok]. eapply guarded_bind_err; [apply relabel_ok, resolve_ok|].
  intros commit Hc. destruct (_ || _).
  - apply if_err_ok. intros _. apply guarded_call; [done|]. intros [askpass|]; [|apply git_err_ok].
    eapply guarded_bind_err; [apply relabel_ok, run_ok; by constructor|]. intros _ _. by apply guarded_ret.
  - eapply guarded_bind_err; [apply relabel_ok, run_ok; by constructor|]. intros _ _. by apply guarded_ret.
Qed.

Lemma endpoint_some repo url : endpoint t repo = Some url -> gt_endpoints t !! repo = Some url.
Proof. unfold endpoint. destruct (gt_endpoints t !! repo); [|done]. by destruct (_ && _); [|intros [= ->]]. Qed.

Lemma transport_push_ok repo ref oid : G (transport_Push valid_url t repo ref oid) (fun _ => True).
Proof.
  unfold transport_Push. destruct (endpoint t repo) as [url|] eqn:He; [|apply git_err_ok]. apply if_err_ok.
  intros [Hr%negb_false_iff%String.eqb_eq Hf%negb_false_iff%String.eqb_eq]%orb_false_iff. subst repo ref.
  apply endpoint_some in He. destruct (gt_credentials t); cbn [negb]; [|by apply push_ok].
  apply guarded_call; [done|]. intros [[user token]|]; [by apply push_ok|apply git_err_ok].
Qed.

(** *** Snapshots *)

Lemma snap_err_ok {A} m (post : A -> Prop) : G (snap_err m) post.
Proof. by apply guarded_ret. Qed.

Lemma if_snap_ok {A} (b : bool) m (k : prog gitE (result snapshot_error A)) (post : A -> Prop) :
  (b = false -> G k post) -> G (if b then snap_err m else k) post.
Proof. destruct b; [intros _; apply snap_err_ok|auto]. Qed.

Lemma snap_step_ok {A} (prg : git A) (post : A -> Prop) : G prg post -> G (snap_step prg) post.
Proof. intros H. eapply guarded_bind; [exact H|]. intros [a|e] Ha; by apply guarded_ret. Qed.

Lemma fetch_ref_ok dir parent url remote local user token :
  pinned_command p (gt_endpoints t) ["fetch"; "--no-tags"; "--"; url; "+" ++ remote ++ ":" ++ local] ->
  G (FetchRef valid_url dir parent url remote local user token) (fun _ => True).
Proof.
  intros Hc. unfold FetchRef. apply if_err_ok. intros _. apply if_err_ok. intros _. destruct (_ || _).
  - apply if_err_ok. intros _. apply guarded_call; [done|]. intros [askpass|]; [|apply git_err_ok].
    apply if_err_ok. intros _. eapply guarded_bind_err; [by apply relabel_ok, run_ok|]. intros _ _. by apply guarded_ret.
  - eapply guarded_bind_err; [by apply relabel_ok, run_ok|]. intros _ _. by apply guarded_ret.
Qed.

Lemma fetch_pinned_ok scratch repo url ref local :
  (repo = BaseRepo p /\ ref = BaseRef p) \/ (repo = WorkRepo p /\ ref = WorkRef p) ->
  endpoint t repo = Some url -> local = snapshotBaseRef \/ local = snapshotWorkRef ->
  G (fetchPinned valid_url t scratch repo url ("refs/heads/" ++ ref) local) (fun _ => True).
Proof.
  intros Hr He Hl. apply endpoint_some in He. assert (Hc := cmd_fetch p (gt_endpoints t) repo ref url local Hr He Hl).
  unfold fetchPinned. destruct (gt_credentials t); [|by apply relabel_ok, fetch_ref_ok].
  apply guarded_call; [done|]. intros [[user token]|]; [by apply relabel_ok, fetch_ref_ok|apply git_err_ok].
Qed.

Lemma resolve_local_ok scratch ref :
  ref = snapshotBaseRef \/ ref = snapshotWorkRef ->
  G (resolveLocalRef scratch ref) (fun o => forall oid, o = Some oid -> validOID oid = true).
Proof.
  intros Hr. unfold resolveLocalRef. apply guarded_call; [intros; by apply cmd_local|]. intros [out|code|].
  - apply if_err_ok. intros H%negb_false_iff. apply guarded_ret. by intros oid [= <-].
  - destruct (code =? 1); [by apply guarded_ret|apply git_err_ok].
  - apply git_err_ok.
Qed.

Lemma fetched_at_ok scratch ref m oid :
  ref = snapshotBaseRef \/ ref = snapshotWorkRef -> G (fetched_at scratch ref m oid) (fun _ => True).
Proof.
  intros Hr. eapply guarded_bind; [by apply resolve_local_ok|]. intros [[o|]|] _; [|apply snap_err_ok..].
  destruct (String.eqb o oid); by apply guarded_ret.
Qed.

Lemma snapshot_work_ok scratch req :
  (sn_WorkExists req = true -> sn_WorkRepo req = WorkRepo p /\ sn_WorkRef req = WorkRef p) ->
  G (snapshot_work valid_url t scratch req) (fun _ => True).
Proof.
  intros Hw. unfold snapshot_work. destruct (sn_WorkExists req).
  - destruct (Hw eq_refl) as [Hrepo Href]. destruct (endpoint t (sn_WorkRepo req)) as [url|] eqn:He; [|apply snap_err_ok].
    eapply guarded_bind_err; [apply snap_step_ok, fetch_pinned_ok; auto|]. intros _ _. apply fetched_at_ok. auto.
  - eapply guarded_bind; [apply resolve_local_ok; auto|]. intros [[o|]|] Ho; [|apply snap_err_ok..].
    apply snap_step_ok, relabel_ok. unfold UpdateRef. apply if_err_ok. intros Hv%negb_false_iff.
    eapply guarded_bind_err; [apply run_ok; by constructor|]. intros _ _. by apply guarded_ret.
Qed.

Lemma render_ok scratch : G (render_bundle scratch) (fun _ => True).
Proof.
  unfold render_bundle. apply (guarded_bind_err _ _ _ (fun _ => True)).
  { apply snap_step_ok, relabel_ok. unfold BundleCreate. apply if_err_ok. intros _.
    eapply guarded_bind_err; [apply run_ok; by constructor|]. intros _ _. by apply guarded_ret. }
  intros _ _. apply guarded_call; [done|]. intros [size|]; [|apply snap_err_ok]. apply if_snap_ok. intros _.
  apply guarded_call; [done|]. intros [d|]; [by apply guarded_ret|apply snap_err_ok].
Qed.

Lemma transport_snapshot_ok req : G (transport_Snapshot valid_url t req) (fun _ => True).
Proof.
  unfold transport_Snapshot. apply if_snap_ok. intros _. apply if_snap_ok. intros Hb. apply if_snap_ok. intros Hw.
  rewrite !orb_false_iff, !negb_false_iff, !String.eqb_eq in Hb. destruct Hb as ((_ & Hrepo) & Href).
  apply guarded_call; [done|]. intros [scratch|]; [|apply snap_err_ok].
  eapply guarded_bind_err; [apply snap_step_ok, relabel_ok, run_ok; by constructor|]. intros _ _.
  destruct (endpoint t (sn_BaseRepo req)) as [url|] eqn:He; [|apply snap_err_ok].
  eapply guarded_bind_err; [apply snap_step_ok, fetch_pinned_ok; auto|]. intros _ _.
  eapply guarded_bind_err; [apply fetched_at_ok; auto|]. intros _ _.
  eapply guarded_bind_err; [apply snapshot_work_ok|intros _ _; apply render_ok].
  intros Hex. rewrite Hex in Hw. cbn [andb] in Hw. rewrite !orb_false_iff, !negb_false_iff, !String.eqb_eq in Hw. by destruct Hw as ((_ & ?) & ?).
Qed.

End Commands.

(** ** Histories of a broker process *)

(** What a caller of the broker can ask the engine for. *)
Inductive operation :=
| OpPublish (req : PublicationRequest)
| OpCreate (oid title body : string) (draft : bool)
| OpUpdate (u : UpdateRequest)
| OpSnapshot
| OpObserve.

(** One operation under the engine's lock: the engine it leaves. *)
Definition operate (e : PolicyEngine) (op : operation) : prog brokerE PolicyEngine :=
  match op with
  | OpPublish req => r ← Publish e req; Ret r.1
  | OpCreate oid title body draft => _ ← CreatePullRequest e oid title body draft; Ret e
  | OpUpdate u => _ ← UpdateFixPR e u; Ret e
  | OpSnapshot => _ ← SnapshotForControl e; Ret e
  | OpObserve => _ ← observe (policy e); Ret e
  end.

(** The same operation as the process performs it: the engine over the adapter
    over the provider and the git transport. *)
Definition process_operate (valid_url : string -> bool) (t : gitTransport) (e : PolicyEngine) (a : ForgeAdapter) (op : operation) :
    prog processE (unit * (ForgeAdapter * PolicyEngine)) :=
  interp (serve_stack valid_url t) (interp serve (operate e op) a) tt.

Inductive process_reachable (valid_url : string -> bool) (t : gitTransport) :
    trace processE -> PolicyEngine -> ForgeAdapter -> Prop :=
| process_start s e facets base work a :
    newPolicyEngine (gt_policy t) s = Ok e -> NewForgeAdapter (gt_policy t) facets base work = Ok a ->
    process_reachable valid_url t [] e a
| process_step h e a op tr e' a' :
    process_reachable valid_url t h e a -> exec (process_operate valid_url t e a op) tr (tt, (a', e')) ->
    process_reachable valid_url t (h ++ tr)%list e' a'.

Lemma operate_step e op hi e' : exec (operate e op) hi e' -> step e hi e'.
Proof.
  destruct op; cbn [operate]; intros (t1 & t2 & r & -> & H1 & [-> ->])%exec_bind; rewrite app_nil_r.
  - destruct r as [e1 r]. by eapply step_publish.
  - by eapply step_create.
  - by eapply step_update.
  - by eapply step_snapshot.
  - by eapply step_observe.
Qed.

(** What every event of the process satisfies. *)
Definition process_ok (p : Policy) (endpoints : gmap string string) (ev : event processE) : Prop :=
  match ev with
  | Ev op ans =>
      match op in processE X return X -> Prop with
      | Provider_call _ e => fun x => write_ok p (Ev e x)
      | Git_call _ e => fun x => git_ok p endpoints (Ev e x)
      end ans
  end.

Lemma serve_stack_ok valid_url t X (e : stackE X) x tr s s' :
  stack_write_ok (gt_policy t) (Ev e x) -> exec (serve_stack valid_url t X e s) tr (s', x) ->
  Forall (process_ok (gt_policy t) (gt_endpoints t)) tr.
Proof.
  destruct e as [X e|X e]; cbn [serve_stack].
  - intros Hw (y & t' & -> & -> & [= _ ->]). by constructor.
  - intros _ (t1 & t2 & y & -> & H1 & [-> _])%exec_bind. rewrite app_nil_r.
    apply lift_exec in H1 as (t' & -> & H1). apply Forall_fmap.
    assert (Hg : guarded (git_ok (gt_policy t) (gt_endpoints t)) (match e in transportE Z return prog gitE Z with
      | TIsAncestor repo a d => transport_IsAncestor t repo a d
      | TPush repo ref oid => transport_Push valid_url t repo ref oid
      | TSnapshot req => transport_Snapshot valid_url t req end) (fun _ => True)).
    { destruct e.
      - unfold transport_IsAncestor. destruct (endpoint t repo); [|by apply guarded_ret].
        eapply guarded_mono; [|apply is_ancestor_ok]. done.
      - eapply guarded_mono; [|apply transport_push_ok]. done.
      - eapply guarded_mono; [|apply transport_snapshot_ok]. done. }
    exact (proj1 (guarded_exec _ _ _ _ _ Hg H1)).
Qed.

Lemma served_stack_ok valid_url t s hs h s' :
  served (serve_stack valid_url t) s hs h s' -> Forall (stack_write_ok (gt_policy t)) hs ->
  Forall (process_ok (gt_policy t) (gt_endpoints t)) h.
Proof.
  induction 1 as [|s X e x tr s1 hi t' s2 Hex _ IH]; [done|]. intros [Hw Hws]%Forall_cons.
  apply Forall_app. split; [by eapply serve_stack_ok|auto].
Qed.

Lemma process_inv valid_url t h e a :
  process_reachable valid_url t h e a ->
  adapter_inv (gt_policy t) a /\ Forall (process_ok (gt_policy t) (gt_endpoints t)) h /\ exists hi, reachable (gt_policy t) hi e.
Proof.
  induction 1 as [s e facets base work a He Ha|h e a op tr e' a' _ (Hinv & Hok & hi & Hr) Hex].
  - split_and!; [by eapply new_adapter_inv|done|]. exists []. by eapply reach_new.
  - apply interp_exec in Hex as (hs & Hstack & Hserved). apply interp_exec in Hstack as (hi' & Hop & Hserved').
    destruct (served_ok (gt_policy t) _ _ _ _ Hserved' Hinv) as [Hw Hinv'].
    split_and!; [done|apply Forall_app; split; [done|by eapply served_stack_ok]|].
    exists (hi ++ hi')%list. eapply reach_step; [done|by eapply operate_step].
Qed.

(** ** Properties *)

(** Everything a broker process does to the outside: for a broker bound to a
    run, whatever it is asked and whatever the forge and git answer,
    - every git command line is one of the pinned forms; the only one that
      writes to a remote pushes, without force, one commit named by 40 or 64
      hexadecimal digits to the pinned work ref at the endpoint pinned for the
      work repository;
    - every provider write is the pinned pull request's creation or edit;
    - the work ref is the one derived from the run's immutable spec. *)
Theorem broker_process_safe (valid_url : string -> bool) (run : CoderRun) (provider base : string) (t : gitTransport)
    (h : trace processE) (e : PolicyEngine) (a : ForgeAdapter)
    (Hbound : PolicyFromRun (Some run) provider base = Ok (gt_policy t)) (Hreach : process_reachable valid_url t h e a) :
  Forall (process_ok (gt_policy t) (gt_endpoints t)) h /\
  (WorkRepo (gt_policy t), WorkRef (gt_policy t)) <> (BaseRepo (gt_policy t), BaseRef (gt_policy t)) /\
  (pol_Mode (gt_policy t) <> ModeFixPR ->
   WorkRef (gt_policy t) = ResolveIssueBranch base (sp_Ref (Spec run)) \/
   WorkRef (gt_policy t) = ResolveGoalBranch base (sp_WorkItemID (Spec run))).
Proof.
  destruct (process_inv _ _ _ _ _ Hreach) as (_ & Hok & hi & Hr).
  destruct (reachable_inv _ _ _ Hr) as (_ & Hv & _). split_and!; [done|by apply valid_policy_destination|].
  intros Hm. destruct (derived_work_ref _ _ _ _ Hbound Hm) as [(_ & _ & ? & _)|(_ & ? & _)]; auto.
Qed.

(** ** Witnesses *)

Definition transport_example : gitTransport :=
  {| gt_policy := bound_policy; gt_git := {| gb_directory := "/scratch/git-broker-1"; gb_parent := "/scratch" |};
     gt_endpoints := {["misospace/courier" := "https://github.com/misospace/courier.git"]}; gt_credentials := true |}.

Definition example_oid : string := "0123456789abcdef0123456789abcdef01234567".

(** The world of the stack example, with a git that knows one commit. *)
Definition process_world (X : Type) (e : processE X) (tip : option string) : option string * X :=
  match e in processE Y return option string * Y with
  | Provider_call Y e => stack_world Y (ToProvider Y e) tip
  | Git_call Y e =>
      match e in gitE Z return option string * Z with
      | Git _ _ args =>
          match args with
          | ["rev-parse"; _; _] => (tip, Output (example_oid ++ nl))
          | "-c" :: _ => (Some example_oid, Output "")
          | _ => (tip, Output "")
          end
      | CheckRefFormat _ => (tip, Output "")
      | MkdirTemp _ _ => (tip, None)
      | WriteAskpass _ => (tip, Some "/scratch/git-askpass-1")
      | Credentials _ => (tip, Some ("x-access-token", "secret"))
      | BundleSize _ => (tip, None)
      | ReadFile _ => (tip, None)
      end
  end.

Definition process_publication :=
  process_operate (fun _ => true) transport_example stack_engine stack_adapter
    (OpPublish {| req_RunUID := "uid-1"; ExpectedWorkOID := ""; ProposedOID := example_oid |}).

(** One publication down to the git command lines; it confirms the commit. *)
Lemma broker_process_safe_witness :
  exists h e a, process_reachable (fun _ => true) transport_example h e a /\ confirmed e = example_oid /\
    Forall (process_ok bound_policy (gt_endpoints transport_example)) h.
Proof.
  pose (r := Effects.run process_world process_publication None).
  assert (Hx : exec process_publication r.1.2 (tt, (r.2.2.1, r.2.2.2))).
  { pose proof (run_exec process_world process_publication None) as H. fold r in H. by destruct r.2 as [[] [a e]]. }
  assert (Hr : process_reachable (fun _ => true) transport_example ([] ++ r.1.2)%list r.2.2.2 r.2.2.1).
  { eapply process_step.
    - apply (process_start _ transport_example false stack_engine {| config_name := "github"; available := fun _ => true; lists_heads := true |}
        stack_repo stack_repo stack_adapter); vm_compute; reflexivity.
    - exact Hx. }
  assert (Hb : PolicyFromRun (Some bound_run) "github" "misospace/courier" = Ok (gt_policy transport_example)) by (vm_compute; reflexivity).
  exists ([] ++ r.1.2)%list, r.2.2.2, r.2.2.1. split; [exact Hr|]. split; [vm_compute; reflexivity|].
  exact (proj1 (broker_process_safe (fun _ => true) bound_run "github" "misospace/courier" transport_example _ _ _ Hb Hr)).
Defined.
