(* ===== verification/BrokerAuth.v ===== *)
(** * Broker authentication (internal/broker/auth.go)

    Every request to the broker carries a pod-bound service-account token.  The
    authenticator reviews it, then re-reads the control pod, the run, the
    namespace's pods and its own pod: nothing is cached between calls.  The API
    server's answers are arbitrary.

    An error is a refusal or the unavailability of the identity backend; the
    wrapped causes are left out of the texts. *)

From S2P Require Import Prelude Effects GoStrings GoTime Sha256 Run StatusPatch Kube World Pods.
Local Open Scope string_scope.
Local Open Scope Z_scope.

(** ** Data *)

Definition BrokerAudience : string := "courier-broker".

Record Identity := {
  id_RunUID : string;
  id_RunName : string;
  id_Namespace : string;
  ControlPod : string;
  ControlPodUID : string;
  ServiceAccount : string;
  ServiceAccountUID : string
}.

Inductive auth_error :=
| Refused (msg : string)
| IdentityUnavailable (msg : string).

Record UserInfo := { Username : string; user_UID : string; Extra : gmap string (list string) }.

Record TokenReviewStatus := {
  rv_Authenticated : bool; rv_User : UserInfo; rv_Audiences : list string; rv_Error : string
}.

Record Authenticator := {
  au_namespace : string;
  brokerPodName : string;
  brokerPodUID : string;
  runName : string;
  runUID : string;
  controlSAName : string;
  controlSAUID : string
}.

(** ** Requests *)

Inductive authE : Type -> Type :=
| CreateTokenReview (token : string) (audiences : list string) : authE (result string TokenReviewStatus)
| ReadPod (ns name : string) : authE (result api_error Pod)
| ReadRun (ns name : string) : authE (result api_error CoderRun)
| ListPods (ns : string) : authE (result api_error (list Pod)).

Abbreviation auth A := (prog authE (result auth_error A)).

Definition refused {A} (msg : string) : auth A := Ret (Err (Refused msg)).

(** ** Helpers *)

Definition coder_run_version : string := "courier.misospace.dev/v1alpha1".

(** The loop over the owner references; [acc] is the controller found so far. *)
Fixpoint controller_owner (acc : option (string * string)) (owners : list OwnerReference) : option (string * string) :=
  match owners with
  | [] => acc
  | o :: rest =>
      if negb (is_controller o) then controller_owner acc rest else
      if negb (String.eqb (or_APIVersion o) coder_run_version) || negb (String.eqb (or_Kind o) "CoderRun") ||
         String.eqb (or_Name o) "" || String.eqb (or_UID o) "" || bool_decide (is_Some acc) then None
      else controller_owner (Some (or_Name o, or_UID o)) rest
  end.

Definition controllerRunOwner (pod : Pod) : option (string * string) := controller_owner None (pod_OwnerReferences pod).

Definition singleExtra (extra : gmap string (list string)) (key : string) : option string :=
  match extra !! key with
  | Some [v] => if String.eqb v "" then None else Some v
  | _ => None
  end.

Definition contains (values : list string) (want : string) : bool := existsb (fun v => String.eqb v want) values.

Definition liveReadFailure {A} (e : api_error) (message : string) : auth A :=
  if IsNotFound e then refused message else Ret (Err (IdentityUnavailable message)).

Definition terminating (pod : Pod) : bool := match pod_DeletionTimestamp pod with Some _ => true | None => false end.
Definition run_terminating (run : CoderRun) : bool := match DeletionTimestamp run with Some _ => true | None => false end.

(** ** Bootstrap *)

(** The reader and the token client are non-nil values here. *)
Definition NewAuthenticator (namespace brokerPod controlSA controlUID : string) : auth Authenticator :=
  if String.eqb namespace "" || String.eqb brokerPod "" || String.eqb controlSA "" || String.eqb controlUID "" then
    refused "broker authentication configuration is incomplete" else
  pod ← call (ReadPod namespace brokerPod);
  match pod with
  | Err _ => refused "read broker pod"
  | Ok pod =>
      if terminating pod || String.eqb (pod_UID pod) "" then refused "broker pod is terminating or has no UID" else
      match controllerRunOwner pod with
      | None => refused "broker pod has no unambiguous CoderRun controller owner"
      | Some (name, uid) =>
          run ← call (ReadRun namespace name);
          match run with
          | Err _ => refused "read broker owner CoderRun"
          | Ok run =>
              if String.eqb (UID run) "" || negb (String.eqb (UID run) uid) || run_terminating run then
                refused "broker pod owner does not identify a live CoderRun incarnation" else
              Ret (Ok {| au_namespace := namespace; brokerPodName := brokerPod; brokerPodUID := pod_UID pod; runName := name;
                         runUID := uid; controlSAName := controlSA; controlSAUID := controlUID |})
          end
      end
  end.

(** ** Authentication *)

Section Authenticate.
Variable a : Authenticator.

Definition owned_by_run (pod : Pod) : bool :=
  match controllerRunOwner pod with
  | Some (name, uid) => String.eqb name (runName a) && String.eqb uid (runUID a)
  | None => false
  end.

(** A live control pod of the run, whatever its labels. *)
Definition live_control (pod : Pod) : bool :=
  owned_by_run pod && String.eqb (pod_ServiceAccountName pod) (controlSAName a) && negb (terminating pod).

(** The loop over the namespace's pods; [n] counts the live control pods, which
    no list in memory can make overflow. *)
Fixpoint scan_controls (podName uid : string) (n : Z) (pods : list Pod) : result auth_error Z :=
  match pods with
  | [] => Ok n
  | c :: rest =>
      if live_control c then
        if negb (String.eqb (pod_Name c) podName) || negb (String.eqb (pod_UID c) uid) then
          Err (Refused "another live control pod incarnation exists")
        else scan_controls podName uid (n + 1) rest
      else scan_controls podName uid n rest
  end.

(** The subject: the configured service account, bound to a pod. *)
Definition review_subject (status : TokenReviewStatus) : result auth_error (string * string) :=
  if negb (String.eqb (rv_Error status) "") then
    Err (IdentityUnavailable "review control token: the token could not be checked") else
  if negb (rv_Authenticated status) || negb (contains (rv_Audiences status) BrokerAudience) then
    Err (Refused "token is unauthenticated or lacks broker audience") else
  let user := rv_User status in
  let prefix := "system:serviceaccount:" ++ au_namespace a ++ ":" in
  if negb (HasPrefix (Username user) prefix) || negb (String.eqb (TrimPrefix (Username user) prefix) (controlSAName a)) ||
     negb (String.eqb (user_UID user) (controlSAUID a)) then
    Err (Refused "token subject is not the configured control service account") else
  match singleExtra (Extra user) "authentication.kubernetes.io/pod-name",
        singleExtra (Extra user) "authentication.kubernetes.io/pod-uid" with
  | Some name, Some uid => Ok (name, uid)
  | _, _ => Err (Refused "token review lacks pod-bound identity")
  end.

(** The control pod the token names, as it is now. *)
Definition current_control (pod : Pod) (podUID : string) : bool :=
  negb (terminating pod) && String.eqb (pod_UID pod) podUID && String.eqb (pod_ServiceAccountName pod) (controlSAName a) &&
  String.eqb (default "" (pod_Labels pod !! LabelRun)) (RunLabelValue (runName a)) &&
  String.eqb (default "" (pod_Labels pod !! LabelComponent)) "coordinator".

Definition current_broker (pod : Pod) : bool :=
  String.eqb (pod_UID pod) (brokerPodUID a) && negb (terminating pod) && owned_by_run pod.

(** From the live reads of the run on. *)
Definition authenticate_live (podName : string) (pod : Pod) (saUID : string) : auth Identity :=
  run ← call (ReadRun (au_namespace a) (runName a));
  match run with
  | Err e => liveReadFailure e "read current CoderRun"
  | Ok run =>
      if negb (String.eqb (UID run) (runUID a)) || run_terminating run then
        refused "broker CoderRun incarnation is no longer live" else
      pods ← call (ListPods (au_namespace a));
      match pods with
      | Err _ => Ret (Err (IdentityUnavailable "list current run pods"))
      | Ok pods =>
          match scan_controls podName (pod_UID pod) 0 pods with
          | Err e => Ret (Err e)
          | Ok liveControls =>
              if negb (liveControls =? 1) then refused "expected exactly one live control pod incarnation" else
              broker ← call (ReadPod (au_namespace a) (brokerPodName a));
              match broker with
              | Err e => liveReadFailure e "read current broker pod"
              | Ok broker =>
                  if negb (current_broker broker) then refused "broker pod incarnation or owner is no longer live" else
                  Ret (Ok {| id_RunUID := runUID a; id_RunName := runName a; id_Namespace := au_namespace a;
                             ControlPod := podName; ControlPodUID := pod_UID pod; ServiceAccount := controlSAName a;
                             ServiceAccountUID := saUID |})
              end
          end
      end
  end.

Definition Authenticate (token : string) : auth Identity :=
  if String.eqb token "" || negb (String.eqb (TrimSpace token) token) then refused "missing or malformed bearer token" else
  review ← call (CreateTokenReview token [BrokerAudience]);
  match review with
  | Err _ => Ret (Err (IdentityUnavailable "review control token"))
  | Ok status =>
      match review_subject status with
      | Err e => Ret (Err e)
      | Ok (podName, podUID) =>
          pod ← call (ReadPod (au_namespace a) podName);
          match pod with
          | Err e => liveReadFailure e "read authenticated control pod"
          | Ok pod =>
              if negb (current_control pod podUID) then
                refused "authenticated control pod is stale, terminating, or uses another service account" else
              if negb (owned_by_run pod) then refused "control pod is not owned by this broker's CoderRun" else
              authenticate_live podName pod (user_UID (rv_User status))
          end
      end
  end.
End Authenticate.

(** ** Lemmas *)

Lemma prefix_app pre s : HasPrefix s pre = true -> s = pre ++ TrimPrefix s pre.
Proof.
  unfold TrimPrefix. intros H. rewrite H. revert s H. induction pre as [|c pre IH]; intros s H; [done|].
  destruct s as [|d s]; [done|]. unfold HasPrefix in *. cbn [String.prefix] in H.
  destruct (ascii_dec c d) as [->|]; [|done]. rewrite sapp_cons. cbn [String.length sdrop]. f_equal. by apply IH.
Qed.

Lemma contains_spec l x : contains l x = true -> x ∈ l.
Proof.
  unfold contains. intros (y & Hy & Heq%String.eqb_eq)%existsb_exists. subst y. by apply list_elem_of_In.
Qed.

Lemma scan_controls_ok a name uid n pods m :
  scan_controls a name uid n pods = Ok m ->
  (forall c, c ∈ pods -> live_control a c = true -> pod_Name c = name /\ pod_UID c = uid) /\
  m = n + Z.of_nat (length (List.filter (live_control a) pods)).
Proof.
  revert n. induction pods as [|c pods IH]; intros n; cbn [scan_controls List.filter].
  - intros [= <-]. split; [by intros c Hc%not_elem_of_nil|cbn; lia].
  - destruct (live_control a c) eqn:Hl.
    + destruct (_ || _) eqn:Hg; [done|]. rewrite orb_false_iff, !negb_false_iff, !String.eqb_eq in Hg.
      intros [H1 H2]%IH. split; [|cbn [length]; lia]. intros d [->|Hd]%elem_of_cons; auto.
    + intros [H1 H2]%IH. split; [|done]. intros d [->|Hd]%elem_of_cons; [congruence|auto].
Qed.

(** What a reviewed subject is. *)
Record reviewed (a : Authenticator) (status : TokenReviewStatus) (podName podUID : string) : Prop := {
  rw_definite : rv_Error status = "" /\ rv_Authenticated status = true;
  rw_audience : BrokerAudience ∈ rv_Audiences status;
  rw_account : Username (rv_User status) = "system:serviceaccount:" ++ au_namespace a ++ ":" ++ controlSAName a;
  rw_account_uid : user_UID (rv_User status) = controlSAUID a;
  rw_pod : singleExtra (Extra (rv_User status)) "authentication.kubernetes.io/pod-name" = Some podName;
  rw_pod_uid : singleExtra (Extra (rv_User status)) "authentication.kubernetes.io/pod-uid" = Some podUID
}.

Lemma review_subject_ok a status name uid : review_subject a status = Ok (name, uid) -> reviewed a status name uid.
Proof.
  unfold review_subject. destruct (String.eqb_spec (rv_Error status) "") as [He|]; [|done]. cbn [negb].
  destruct (rv_Authenticated status) eqn:Hau; [|done]. destruct (contains _ _) eqn:Hc; [|done]. cbn [negb orb].
  cbv zeta. destruct (HasPrefix _ _) eqn:Hp; [|done]. destruct (String.eqb (TrimPrefix _ _) (controlSAName a)) eqn:Ht; [|done].
  apply String.eqb_eq in Ht.
  destruct (String.eqb_spec (user_UID (rv_User status)) (controlSAUID a)) as [Hu|]; [|done]. cbn [negb orb].
  destruct (singleExtra _ "authentication.kubernetes.io/pod-name") as [n|] eqn:Hn; [|done].
  destruct (singleExtra _ "authentication.kubernetes.io/pod-uid") as [u|] eqn:Hpu; [|done]. intros [= <- <-].
  split; [done|by apply contains_spec| |done|done|done].
  apply prefix_app in Hp. rewrite Hp, Ht. by rewrite !sapp_assoc.
Qed.

(** The evidence behind one successful authentication: the five requests of
    the call, in order, with what each answer showed. *)
Record authentic (a : Authenticator) (token : string) (t : trace authE) (id : Identity) : Prop := {
  ac_trace : exists status pod run pods broker,
    t = [Ev (CreateTokenReview token [BrokerAudience]) (Ok status); Ev (ReadPod (au_namespace a) (ControlPod id)) (Ok pod);
         Ev (ReadRun (au_namespace a) (runName a)) (Ok run); Ev (ListPods (au_namespace a)) (Ok pods);
         Ev (ReadPod (au_namespace a) (brokerPodName a)) (Ok broker)] /\
    reviewed a status (ControlPod id) (ControlPodUID id) /\
    current_control a pod (ControlPodUID id) = true /\ owned_by_run a pod = true /\
    UID run = runUID a /\ DeletionTimestamp run = None /\
    (forall c, c ∈ pods -> live_control a c = true -> pod_Name c = ControlPod id /\ pod_UID c = ControlPodUID id) /\
    length (List.filter (live_control a) pods) = 1%nat /\ current_broker a broker = true;
  ac_run : id_RunUID id = runUID a /\ id_RunName id = runName a /\ id_Namespace id = au_namespace a;
  ac_account : ServiceAccount id = controlSAName a /\ ServiceAccountUID id = controlSAUID a
}.

Lemma read_failure_err {A} e m t (x : A) : exec (liveReadFailure e m) t (Ok x) -> False.
Proof. unfold liveReadFailure. destruct (IsNotFound e); by intros [_ ?]. Qed.

(** Reduce an execution to its next request. *)
Ltac exec_cbn H := cbn [exec mbind prog_bind bind_prog call refused authenticate_live] in H.

(** The execution ended without an identity. *)
Ltac dead H := exfalso; exec_cbn H; destruct H as [_ H]; discriminate H.

Lemma authenticate_authentic a token t id : exec (Authenticate a token) t (Ok id) -> authentic a token t id.
Proof.
  unfold Authenticate. destruct (_ || _); [by intros [_ ?]|]. intros (review & t1 & -> & Hex).
  exec_cbn Hex. destruct review as [status|]; [|dead Hex]. destruct (review_subject a status) as [[name uid]|] eqn:Hr; [|dead Hex].
  destruct Hex as (pod & t2 & -> & Hex). exec_cbn Hex. destruct pod as [pod|e]; [|by apply read_failure_err in Hex].
  destruct (current_control a pod uid) eqn:Hc; [|dead Hex]. cbn [negb] in Hex.
  destruct (owned_by_run a pod) eqn:Ho; [|dead Hex]. cbn [negb] in Hex.
  apply review_subject_ok in Hr.
  assert (Hpu : pod_UID pod = uid).
  { unfold current_control in Hc. rewrite !andb_true_iff, !String.eqb_eq in Hc. by destruct Hc as [[[[_ ?] _] _] _]. }
  destruct Hex as (run & t3 & -> & Hex). exec_cbn Hex. destruct run as [run|e]; [|by apply read_failure_err in Hex].
  destruct (String.eqb_spec (UID run) (runUID a)) as [Hrun|]; [|dead Hex]. cbn [negb orb] in Hex.
  destruct (run_terminating run) eqn:Hrt; [dead Hex|].
  destruct Hex as (pods & t4 & -> & Hex). exec_cbn Hex. destruct pods as [pods|]; [|dead Hex].
  destruct (scan_controls a name (pod_UID pod) 0 pods) as [m|] eqn:Hs; [|dead Hex].
  destruct (Z.eqb_spec m 1) as [->|]; [|dead Hex]. cbn [negb] in Hex. apply scan_controls_ok in Hs as [Hu Hlen].
  destruct Hex as (broker & t5 & -> & Hex). exec_cbn Hex. destruct broker as [broker|e]; [|by apply read_failure_err in Hex].
  destruct (current_broker a broker) eqn:Hb; [|dead Hex]. destruct Hex as [-> [= ->]].
  split; [|done|split; [done|by apply Hr]]. exists status, pod, run, pods, broker. cbn [ControlPod ControlPodUID].
  rewrite Hpu in Hu |- *. split_and!; try done; [|lia]. unfold run_terminating in Hrt. by destruct (DeletionTimestamp run).
Qed.

(** A request the identity backend did not answer definitely: a failed review,
    a review that could not check the token, a failed list, or a read that
    failed with anything but "not found". *)
Definition unanswered (ev : event authE) : bool :=
  match ev with
  | Ev op ans =>
      match op in authE X return X -> bool with
      | CreateTokenReview _ _ => fun r => match r with Ok s => negb (String.eqb (rv_Error s) "") | Err _ => true end
      | ReadPod _ _ => fun r => match r with Ok _ => false | Err e => negb (IsNotFound e) end
      | ReadRun _ _ => fun r => match r with Ok _ => false | Err e => negb (IsNotFound e) end
      | ListPods _ => fun r => match r with Ok _ => false | Err _ => true end
      end ans
  end.

Definition is_unavailable {A} (r : result auth_error A) : bool :=
  match r with Err (IdentityUnavailable _) => true | _ => false end.

(** The error is an unavailability exactly when a request went unanswered. *)
Definition classified {A} (t : trace authE) (r : result auth_error A) : Prop := is_unavailable r = existsb unanswered t.

Lemma read_failure_classified {A} e m (ev : event authE) :
  unanswered ev = negb (IsNotFound e) -> wp (@liveReadFailure A e m) (fun t r => classified (ev :: t) r).
Proof. unfold liveReadFailure, classified. intros H. cbn [existsb]. destruct (IsNotFound e); cbn; by rewrite H. Qed.

Lemma scan_controls_refused a name uid n pods e : scan_controls a name uid n pods = Err e -> is_unavailable (@Err _ Z e) = false.
Proof.
  revert n. induction pods as [|c pods IH]; intros n; cbn [scan_controls]; [done|].
  destruct (live_control a c); [|apply IH]. destruct (_ || _); [by intros [= <-]|apply IH].
Qed.

Lemma review_subject_classified a s e :
  review_subject a s = Err e -> is_unavailable (@Err _ Identity e) = negb (String.eqb (rv_Error s) "").
Proof.
  unfold review_subject. destruct (String.eqb (rv_Error s) ""); cbn [negb]; [|by intros [= <-]].
  repeat case_match; intros [= <-]; done.
Qed.

Lemma live_classified a name pod uid : wp (authenticate_live a name pod uid) classified.
Proof.
  unfold authenticate_live. wp_cbn. intros [run|e].
  2: { eapply wp_mono; [|by apply (read_failure_classified e "read current CoderRun" (Ev (ReadRun (au_namespace a) (runName a)) (Err e)))]. done. }
  destruct (_ || _); [done|]. wp_cbn. intros [pods|e]; [|done].
  destruct (scan_controls a name (pod_UID pod) 0 pods) as [m|e] eqn:Hs.
  2: { apply scan_controls_refused in Hs. unfold classified. cbn. by destruct e. }
  destruct (negb _); [done|]. wp_cbn. intros [broker|e].
  2: { eapply wp_mono; [|by apply (read_failure_classified e "read current broker pod" (Ev (ReadPod (au_namespace a) (brokerPodName a)) (Err e)))]. done. }
  by destruct (negb _).
Qed.

Lemma authenticate_classified_wp a token : wp (Authenticate a token) classified.
Proof.
  unfold Authenticate. destruct (_ || _); [done|]. wp_cbn. intros [status|e]; [|done].
  destruct (review_subject a status) as [[name uid]|e] eqn:Hr.
  2: { apply review_subject_classified in Hr. unfold classified. cbn. rewrite <- Hr. by destruct e. }
  apply review_subject_ok in Hr as [[He _] _ _ _ _ _].
  assert (Hans : forall r, unanswered (Ev (CreateTokenReview token [BrokerAudience]) (Ok status)) || r = r).
  { intros r. cbn. by rewrite He. }
  wp_cbn. intros [pod|e].
  2: { eapply wp_mono; [|by apply (read_failure_classified e "read authenticated control pod" (Ev (ReadPod (au_namespace a) name) (Err e)))].
       intros t r. unfold classified. cbn [existsb]. by rewrite Hans. }
  destruct (negb _); [unfold refused, classified; cbn [wp existsb]; by rewrite Hans|].
  destruct (negb _); [unfold refused, classified; cbn [wp existsb]; by rewrite Hans|].
  eapply wp_mono; [|apply live_classified]. intros t r. unfold classified. cbn [existsb]. by rewrite Hans.
Qed.

Definition listing (ev : event authE) : option (list Pod) :=
  match ev with
  | Ev op ans => match op in authE X return X -> option (list Pod) with
                 | ListPods _ => fun r => match r with Ok l => Some l | Err _ => None end
                 | _ => fun _ => None
                 end ans
  end.

(** The one listing of a successful authentication. *)
Lemma authenticate_listing a token t id pods :
  exec (Authenticate a token) t (Ok id) -> Ev (ListPods (au_namespace a)) (Ok pods) ∈ t ->
  (forall c, c ∈ pods -> live_control a c = true -> pod_Name c = ControlPod id /\ pod_UID c = ControlPodUID id) /\
  length (List.filter (live_control a) pods) = 1%nat.
Proof.
  intros [(status & pod & run & pods' & broker & -> & _ & _ & _ & _ & _ & Hu & Hlen & _) _ _]%authenticate_authentic Hin.
  assert (Heq : pods = pods'); [|by subst pods'].
  rewrite !elem_of_cons in Hin. destruct Hin as [Hin|[Hin|[Hin|[Hin|[Hin|Hin]]]]];
    [discriminate Hin|discriminate Hin|discriminate Hin| |discriminate Hin|by apply not_elem_of_nil in Hin].
  apply (f_equal listing) in Hin. by injection Hin.
Qed.

(** ** Properties *)

(** C19: Nobody is authenticated on cached or partial evidence: an identity is
    returned only when, within the same call and in this order, the token was
    reviewed for the broker's audience and belongs to the configured service
    account and to a pod; that pod is live, labelled as the run's coordinator
    and owned by the run; the run is the live incarnation the broker was
    started for; the namespace holds exactly one live control pod of the run,
    this one; and the broker's own pod is still the one that was started. *)
Theorem authenticate_sound (a : Authenticator) (token : string) (t : trace authE) (id : Identity)
    (Hexec : exec (Authenticate a token) t (Ok id)) : authentic a token t id.
Proof. by apply authenticate_authentic. Qed.

(** Availability is never confused with refusal: the error reports the identity
    backend as unavailable exactly when one of the call's requests went without
    a definite answer. *)
Theorem authenticate_classified (a : Authenticator) (token : string) (t : trace authE) (r : result auth_error Identity)
    (Hexec : exec (Authenticate a token) t r) : is_unavailable r = existsb unanswered t.
Proof. exact (proj1 (wp_exec _ _) (authenticate_classified_wp a token) t r Hexec). Qed.

(** One control pod speaks for a run: two identities authenticated against the
    same listing of the namespace's pods are the same pod incarnation. *)
Theorem authenticate_unique (a : Authenticator) (token1 token2 : string) (t1 t2 : trace authE) (id1 id2 : Identity) (pods : list Pod)
    (H1 : exec (Authenticate a token1) t1 (Ok id1)) (H2 : exec (Authenticate a token2) t2 (Ok id2))
    (L1 : Ev (ListPods (au_namespace a)) (Ok pods) ∈ t1) (L2 : Ev (ListPods (au_namespace a)) (Ok pods) ∈ t2) :
  ControlPod id1 = ControlPod id2 /\ ControlPodUID id1 = ControlPodUID id2.
Proof.
  destruct (authenticate_listing _ _ _ _ _ H1 L1) as [U1 N1]. destruct (authenticate_listing _ _ _ _ _ H2 L2) as [U2 _].
  destruct (List.filter (live_control a) pods) as [|c l] eqn:Hf; [done|].
  assert (Hc : c ∈ pods /\ live_control a c = true).
  { assert (Hin : In c (List.filter (live_control a) pods)) by (rewrite Hf; by left).
    apply filter_In in Hin as [Hin Hl]. split; [by apply list_elem_of_In|done]. }
  destruct Hc as [Hin Hl]. destruct (U1 c Hin Hl) as [<- <-]. by destruct (U2 c Hin Hl).
Qed.

(** ** Witnesses *)

Definition auth_pod (name uid component : string) : Pod :=
  {| pod_Namespace := "runs"; pod_Name := name; pod_UID := uid;
     pod_Labels := {[ LabelRun := "run-1"; LabelComponent := component ]}; pod_Annotations := ∅;
     pod_OwnerReferences := [{| or_APIVersion := coder_run_version; or_Kind := "CoderRun"; or_Name := "run-1";
                                or_UID := "uid-1"; or_Controller := Some true |}];
     pod_CreationTimestamp := 0; pod_DeletionTimestamp := None; pod_Containers := []; pod_InitContainers := [];
     pod_NodeName := ""; pod_RestartPolicy := ""; pod_HostPID := false; pod_ShareProcessNamespace := None;
     pod_AutomountServiceAccountToken := None; pod_ServiceAccountName := if String.eqb component "broker" then "broker" else "control";
     pod_Phase := "Running"; pod_Reason := ""; pod_ContainerStatuses := []; pod_InitContainerStatuses := [] |}.

Definition auth_run : CoderRun :=
  let r := new_run "runs" "run-1" {| sp_Mode := "resolve-issue"; sp_Source := ""; sp_SourceAgent := ""; sp_SourceContext := "";
    sp_WorkItemID := ""; sp_AssignmentKind := ""; sp_AssignmentReasons := []; sp_Repo := ""; sp_WorkRepo := ""; sp_Ref := 1;
    sp_Lane := ""; sp_Debug := false |} in
  {| Namespace := "runs"; run_Name := "run-1"; UID := "uid-1"; ResourceVersion := "1"; Generation := 1;
     CreationTimestamp := CreationTimestamp r; DeletionTimestamp := None; Finalizers := []; Annotations := ∅;
     Spec := Spec r; Status := Status r |}.

Definition auth_example : Authenticator :=
  {| au_namespace := "runs"; brokerPodName := "run-1-broker"; brokerPodUID := "b-1"; runName := "run-1"; runUID := "uid-1";
     controlSAName := "control"; controlSAUID := "sa-1" |}.

Definition auth_review : TokenReviewStatus :=
  {| rv_Authenticated := true; rv_Audiences := [BrokerAudience]; rv_Error := "";
     rv_User := {| Username := "system:serviceaccount:runs:control"; user_UID := "sa-1";
                   Extra := {[ "authentication.kubernetes.io/pod-name" := ["run-1-control"];
                               "authentication.kubernetes.io/pod-uid" := ["c-1"] ]} |} |}.

(** A healthy namespace. *)
Definition auth_server (X : Type) (e : authE X) (w : unit) : unit * X :=
  (w, match e in authE Y return Y with
      | CreateTokenReview _ _ => Ok auth_review
      | ReadPod _ name => Ok (if String.eqb name "run-1-broker" then auth_pod name "b-1" "broker" else auth_pod name "c-1" "coordinator")
      | ReadRun _ _ => Ok auth_run
      | ListPods _ => Ok [auth_pod "run-1-control" "c-1" "coordinator"; auth_pod "run-1-broker" "b-1" "broker"]
      end).

Definition auth_identity : Identity :=
  {| id_RunUID := "uid-1"; id_RunName := "run-1"; id_Namespace := "runs"; ControlPod := "run-1-control"; ControlPodUID := "c-1";
     ServiceAccount := "control"; ServiceAccountUID := "sa-1" |}.

Definition auth_call := Effects.run auth_server (Authenticate auth_example "token") tt.

Lemma authenticate_sound_witness : authentic auth_example "token" auth_call.1.2 auth_identity.
Proof.
  apply authenticate_sound. pose proof (run_exec auth_server (Authenticate auth_example "token") tt) as H.
  fold auth_call in H. replace auth_call.2 with (@Ok auth_error _ auth_identity) in H by (vm_compute; reflexivity). exact H.
Defined.

Lemma authenticate_classified_witness : is_unavailable auth_call.2 = existsb unanswered auth_call.1.2.
Proof.
  apply (authenticate_classified auth_example "token").
  exact (run_exec auth_server (Authenticate auth_example "token") tt).
Defined.

Lemma authenticate_unique_witness : ControlPod auth_identity = ControlPod auth_identity /\ ControlPodUID auth_identity = ControlPodUID auth_identity.
Proof.
  assert (H : exec (Authenticate auth_example "token") auth_call.1.2 (Ok auth_identity)).
  { pose proof (run_exec auth_server (Authenticate auth_example "token") tt) as H.
    fold auth_call in H. replace auth_call.2 with (@Ok auth_error _ auth_identity) in H by (vm_compute; reflexivity). exact H. }
  apply (authenticate_unique auth_example "token" "token" auth_call.1.2 auth_call.1.2 auth_identity auth_identity
    [auth_pod "run-1-control" "c-1" "coordinator"; auth_pod "run-1-broker" "b-1" "broker"] H H);
    vm_compute auth_call; do 3 apply list_elem_of_further; apply list_elem_of_here.
Defined.
