(* ===== verification/HarnessStatus.v ===== *)
(** * The broker's status writer (internal/broker/status.go)

    Trusted control writes a closed set of status fields through the broker.
    Each attempt reads the run, the control pod and the namespace's pods afresh,
    lets a validator re-check the world, applies the patch to a copy of the run
    it just read, and updates the status under the read resource version; a
    conflict retries the whole attempt.  The API server and the validator answer
    arbitrarily.

    An error keeps whether an API conflict is in its chain, which is what the
    retry loop looks at.  The wrapped causes are left out of the texts. *)

From S2P Require Import Prelude Effects GoStrings GoTime Regex Sha256 Run StatusPatch Kube World Pods BrokerAuth.
Local Open Scope string_scope.
Local Open Scope Z_scope.

(** ** Data *)

Record OperationAddition := { OpID : string; Operation : ActiveOperation }.

Record HarnessPatch := {
  hp_Checkpoint : option Checkpoint;
  hp_Heartbeat : option Heartbeat;
  hp_LastCommit : option string;
  AddOperation : option OperationAddition;
  ClearOperation : string;
  ReconcileOperations : bool;
  hp_ControlRequestAck : option ControlRequestAck;
  TerminalResult : option NativeResult;
  hp_NoChange : option NoChangeClose;
  hp_ModelSurface : option ModelSurfaceProvenance
}.

Record StatusIdentity := {
  si_RunUID : string; si_ControlPod : string; si_ControlPodUID : string; si_ControlServiceAccount : string
}.

Record StatusWriter := { sw_namespace : string; sw_runName : string }.

(** [conflict]: [apierrors.IsConflict] finds a conflict in the error's chain. *)
Inductive status_error :=
| StatusDenied (msg : string) (conflict : bool)
| StatusUnavailable (msg : string) (conflict : bool)
| StatusConflict.

Definition status_is_conflict (e : status_error) : bool :=
  match e with StatusDenied _ c => c | StatusUnavailable _ c => c | StatusConflict => true end.

(** What a validator fails with: its own backend was unavailable, or a definite
    mismatch. *)
Record validation_error := { ve_unavailable : bool; ve_conflict : bool }.

Inductive statusE : Type -> Type :=
| SReadRun (ns name : string) : statusE (result api_error CoderRun)
| SReadPod (ns name : string) : statusE (result api_error Pod)
| SListPods (ns : string) : statusE (result api_error (list Pod))
| SValidate (run : CoderRun) (pod : Pod) (patch : HarnessPatch) : statusE (result validation_error unit)
| SUpdate (run : CoderRun) : statusE (result api_error unit).

Abbreviation status A := (prog statusE (result status_error A)).

Definition denied {A} (msg : string) : status A := Ret (Err (StatusDenied msg false)).

(** ** Assignments to harness fields *)

Definition set_LastCommit (s : CoderRunStatus) (v : string) : CoderRunStatus := ltac:(with_field LastCommit).
Definition set_st_Checkpoint (s : CoderRunStatus) (v : option Checkpoint) : CoderRunStatus := ltac:(with_field st_Checkpoint).
Definition set_st_Heartbeat (s : CoderRunStatus) (v : option Heartbeat) : CoderRunStatus := ltac:(with_field st_Heartbeat).
Definition set_ActiveOperations (s : CoderRunStatus) (v : gmap string ActiveOperation) : CoderRunStatus := ltac:(with_field ActiveOperations).
Definition set_st_NativeResult (s : CoderRunStatus) (v : option NativeResult) : CoderRunStatus := ltac:(with_field st_NativeResult).
Definition set_ModelSurface (s : CoderRunStatus) (v : option ModelSurfaceProvenance) : CoderRunStatus := ltac:(with_field ModelSurface).

(** ** Structural checks *)

Definition MaxNativeResultReasonBytes : Z := 1024.
Definition MaxNoChangeCriteria : Z := 12.
Definition MaxNoChangeCriterionBytes : Z := 300.
Definition MaxNoChangeExcerptBytes : Z := 300.
Definition MinNoChangeExcerptBytes : Z := 24.
Definition MaxNoChangeEvidenceBytes : Z := 2000.
Definition MaxNoChangeClosePathBytes : Z := 1024.
Definition ModelSurfaceSchemaV1 : Z := 1.
Definition maxActiveOperations : nat := 64.

Definition time_zero (t : Time) : bool := t =? zero_time.

Definition native_result_kinds : list string :=
  [NativeResultPublished; NativeResultNoChange; NativeResultNeedsHuman; NativeResultBlockedExternal;
   NativeResultCapacityExhausted; NativeResultWorkloadFailed; NativeResultInfrastructureFailed].

Definition validTerminalResult (r : NativeResult) : result string unit :=
  if negb (contains native_result_kinds (nr_Kind r)) then Err "terminal result kind is malformed" else
  if time_zero (nr_At r) then Err "terminal result carries no time" else
  if MaxNativeResultReasonBytes <? slen (nr_Reason r) then Err "terminal result reason exceeds its bound" else
  Ok tt.

(** Time comparisons are of instants. *)
Definition sameTerminalResult (a b : NativeResult) : bool :=
  String.eqb (nr_Kind a) (nr_Kind b) && String.eqb (nr_Reason a) (nr_Reason b) &&
  String.eqb (nr_CoordinatorPodUID a) (nr_CoordinatorPodUID b) && (nr_At a =? nr_At b).

Definition modelSurfaceDigestPattern : re :=
  RSeqs [RBegin; RLit "sha256:"; RTimes 64 (RSet is_hex); REnd].

Definition validModelSurface (m : ModelSurfaceProvenance) : result string unit :=
  if ms_SchemaVersion m <? ModelSurfaceSchemaV1 then Err "model-surface provenance carries an unknown schema version" else
  if negb (MatchString modelSurfaceDigestPattern (ms_Digest m)) then Err "model-surface provenance digest is malformed" else
  if time_zero (ms_At m) then Err "model-surface provenance carries no time" else
  if String.eqb (ms_CoordinatorPodUID m) "" || (128 <? slen (ms_CoordinatorPodUID m)) then
    Err "model-surface provenance UID is malformed" else
  Ok tt.

Definition sameModelSurface (a b : ModelSurfaceProvenance) : bool :=
  (ms_SchemaVersion a =? ms_SchemaVersion b) && String.eqb (ms_Digest a) (ms_Digest b) &&
  String.eqb (ms_CoordinatorPodUID a) (ms_CoordinatorPodUID b) && (ms_At a =? ms_At b).

(** A backslash or a control rune ([unicode.IsControl]: U+0000..U+001F and
    U+007F..U+009F; the second range's upper part is C2 80..C2 9F in UTF-8, and
    C2 never continues a rune). *)
Fixpoint bad_path_rune (s : string) : bool :=
  match s with
  | "" => false
  | String c r =>
      let b := byte_of c in
      (b =? 92) || (b <? 32) || (b =? 127) ||
      ((b =? 194) && match r with String d _ => (128 <=? byte_of d) && (byte_of d <=? 159) | "" => false end) ||
      bad_path_rune r
  end.

Definition bad_segment (seg : string) : bool :=
  String.eqb seg "" || String.eqb seg "." || String.eqb seg "..".

Definition ValidNoChangeClosePath (path : string) : bool :=
  if String.eqb path "" || (MaxNoChangeClosePathBytes <? slen path) then false else
  if negb (String.eqb path (TrimSpace path)) then false else
  if bad_path_rune path then false else
  negb (existsb bad_segment (Split path "/")).

Definition valid_close_row (c : NoChangeCloseCriterion) : result string unit :=
  if String.eqb (ncc_Criterion c) "" || (MaxNoChangeCriterionBytes <? slen (ncc_Criterion c)) then
    Err "no-change close criterion text is out of bounds" else
  if negb (ValidNoChangeClosePath (ncc_Path c)) then Err "no-change close criterion path is malformed" else
  if (RuneCountInString (ncc_Excerpt c) <? MinNoChangeExcerptBytes) || (MaxNoChangeExcerptBytes <? slen (ncc_Excerpt c)) then
    Err "no-change close excerpt is out of bounds" else
  Ok tt.

Fixpoint valid_close_rows (cs : list NoChangeCloseCriterion) : result string unit :=
  match cs with [] => Ok tt | c :: rest => _ ← valid_close_row c; valid_close_rows rest end.

Definition validNoChange (p : NoChangeClose) : result string unit :=
  let n := Z.of_nat (length (nc_Criteria p)) in
  if (n <? 1) || (MaxNoChangeCriteria <? n) then Err "no-change close criterion count is out of bounds" else
  if MaxNoChangeEvidenceBytes <? slen (nc_Evidence p) then Err "no-change close evidence exceeds its bound" else
  if time_zero (nc_At p) then Err "no-change close carries no time" else
  if String.eqb (nc_CoordinatorPodUID p) "" || (128 <? slen (nc_CoordinatorPodUID p)) then
    Err "no-change close UID is malformed" else
  valid_close_rows (nc_Criteria p).

Definition sameNoChange (a b : NoChangeClose) : bool :=
  String.eqb (nc_CoordinatorPodUID a) (nc_CoordinatorPodUID b) && (nc_At a =? nc_At b) &&
  String.eqb (nc_Evidence a) (nc_Evidence b) && bool_decide (nc_Criteria a = nc_Criteria b).

Definition sameOperationEvidence (a b : ActiveOperation) : bool :=
  String.eqb (op_BriefID a) (op_BriefID b) && String.eqb (op_CoordinatorPodUID a) (op_CoordinatorPodUID b) &&
  String.eqb (op_WorkerPodUID a) (op_WorkerPodUID b) && (DispatchedAt a =? DispatchedAt b).

(** The alphabet is ASCII, so a rune of it is a byte. *)
Definition op_id_char (c : ascii) : bool :=
  let b := byte_of c in
  ((97 <=? b) && (b <=? 122)) || ((65 <=? b) && (b <=? 90)) || ((48 <=? b) && (b <=? 57)) || (b =? 46) || (b =? 45) || (b =? 95).

Fixpoint op_id_chars (s : string) : bool := match s with "" => true | String c r => op_id_char c && op_id_chars r end.

Definition validOperationID (id : string) : bool :=
  if String.eqb id "" || (128 <? slen id) then false else op_id_chars id.

Definition validOperationIdentity (identity : StatusIdentity) (a : OperationAddition) : result string unit :=
  if negb (validOperationID (OpID a)) then Err "operation ID is malformed" else
  if negb (validOperationID (op_BriefID (Operation a))) then Err "operation brief ID is malformed" else
  if negb (String.eqb (op_CoordinatorPodUID (Operation a)) (si_ControlPodUID identity)) then
    Err "operation UID does not match the authenticated control incarnation" else
  if String.eqb (op_WorkerPodUID (Operation a)) "" then Err "operation carries no worker pod UID" else
  Ok tt.

(** ** Applying a patch *)

(** Set once per incarnation: a record of the same incarnation must be the same. *)
Definition once_per_incarnation {A} (uid : A -> string) (same : A -> A -> bool) (msg : string) (existing : option A) (new : A) :
    result string (option A) :=
  match existing with
  | Some e => if String.eqb (uid e) (uid new) && negb (same e new) then Err msg else Ok (Some new)
  | None => Ok (Some new)
  end.

Definition apply_operation (ops : gmap string ActiveOperation) (a : OperationAddition) :
    result string (gmap string ActiveOperation) :=
  match ops !! OpID a with
  | Some e => if negb (sameOperationEvidence e (Operation a))
              then Err ("operation " ++ OpID a ++ " is already recorded with different evidence") else Ok ops
  | None => if bool_decide (maxActiveOperations <= size ops)%nat then Err "active-operation set is full (64 entries)"
            else Ok (<[OpID a := Operation a]> ops)
  end.

(** An optional field of the patch. *)
Definition applying {A} (o : option A) (s : CoderRunStatus) (f : A -> result string CoderRunStatus) : result string CoderRunStatus :=
  match o with Some v => f v | None => Ok s end.

(** The assignments of one attempt, in order, to the copy of the run's status. *)
Definition apply_harness (s : CoderRunStatus) (p : HarnessPatch) : result string CoderRunStatus :=
  s ← applying (hp_Checkpoint p) s (fun v => Ok (set_st_Checkpoint s (Some v)));
  s ← applying (hp_Heartbeat p) s (fun v => Ok (set_st_Heartbeat s (Some v)));
  s ← applying (hp_LastCommit p) s (fun v => Ok (set_LastCommit s v));
  s ← applying (hp_ControlRequestAck p) s (fun v => Ok (set_st_ControlRequestAck s (Some v)));
  s ← applying (TerminalResult p) s (fun v =>
        r ← once_per_incarnation nr_CoordinatorPodUID sameTerminalResult "a terminal result is already recorded for this control incarnation"
              (st_NativeResult s) v; Ok (set_st_NativeResult s r));
  s ← applying (hp_NoChange p) s (fun v =>
        r ← once_per_incarnation nc_CoordinatorPodUID sameNoChange "a no-change close is already recorded for this control incarnation"
              (NoChange s) v; Ok (set_NoChange s r));
  s ← applying (hp_ModelSurface p) s (fun v =>
        r ← once_per_incarnation ms_CoordinatorPodUID sameModelSurface "a model-surface provenance is already recorded for this control incarnation"
              (ModelSurface s) v; Ok (set_ModelSurface s r));
  let s := if ReconcileOperations p then set_ActiveOperations s ∅ else s in
  s ← applying (AddOperation p) s (fun v => ops ← apply_operation (ActiveOperations s) v; Ok (set_ActiveOperations s ops));
  Ok (if String.eqb (ClearOperation p) "" then s
      else set_ActiveOperations s (delete (ClearOperation p) (ActiveOperations s))).

(** ** Write *)

Section Write.
Variables (w : StatusWriter) (identity : StatusIdentity) (patch : HarnessPatch) (validates : bool).

Definition live_read_failed {A} (e : api_error) (msg : string) : status A :=
  if IsNotFound e then denied msg else Ret (Err (StatusUnavailable msg (IsConflict e))).

Definition owned_by (pod : Pod) : bool :=
  match controllerRunOwner pod with
  | Some (name, uid) => String.eqb name (sw_runName w) && String.eqb uid (si_RunUID identity)
  | None => false
  end.

Definition current_pod (pod : Pod) : bool :=
  String.eqb (pod_UID pod) (si_ControlPodUID identity) && negb (terminating pod) &&
  String.eqb (pod_ServiceAccountName pod) (si_ControlServiceAccount identity) && owned_by pod &&
  String.eqb (default "" (pod_Labels pod !! LabelRun)) (RunLabelValue (sw_runName w)) &&
  String.eqb (default "" (pod_Labels pod !! LabelComponent)) "coordinator".

Definition live_candidate (pod : Pod) : bool :=
  negb (terminating pod) && String.eqb (pod_ServiceAccountName pod) (si_ControlServiceAccount identity) && owned_by pod.

(** The loop over the namespace's pods; no list in memory overflows the count. *)
Fixpoint count_current (n : Z) (pods : list Pod) : option Z :=
  match pods with
  | [] => Some n
  | c :: rest =>
      if live_candidate c then
        if negb (String.eqb (pod_UID c) (si_ControlPodUID identity)) || negb (String.eqb (pod_Name c) (si_ControlPod identity))
        then None else count_current (n + 1) rest
      else count_current n rest
  end.

(** The acknowledgement names the live request of this incarnation. *)
Definition ack_fenced (run : CoderRun) : bool :=
  match hp_ControlRequestAck patch with
  | None => true
  | Some ack =>
      match st_ControlRequest (Status run) with
      | Some req => String.eqb (cr_ID req) (ack_ID ack) && String.eqb (cr_TargetPodUID req) (si_ControlPodUID identity)
      | None => false
      end
  end.

(** From the validated world on: apply and update. *)
Definition attempt_update (run : CoderRun) : status unit :=
  match apply_harness (Status run) patch with
  | Err m => denied m
  | Ok st =>
      r ← call (SUpdate (set_Status run st));
      match r with
      | Ok _ => Ret (Ok tt)
      | Err e => Ret (Err (if IsConflict e then StatusConflict else StatusUnavailable "update CoderRun status" false))
      end
  end.

Definition attempt : status unit :=
  run ← call (SReadRun (sw_namespace w) (sw_runName w));
  match run with
  | Err e => live_read_failed e "read CoderRun for status"
  | Ok run =>
      if negb (String.eqb (UID run) (si_RunUID identity)) || run_terminating run then
        denied "authenticated CoderRun incarnation is no longer live" else
      pod ← call (SReadPod (sw_namespace w) (si_ControlPod identity));
      match pod with
      | Err e => live_read_failed e "read current control pod"
      | Ok pod =>
          if negb (current_pod pod) then denied "authenticated control pod is stale or is not owned by this CoderRun" else
          pods ← call (SListPods (sw_namespace w));
          match pods with
          | Err e => Ret (Err (StatusUnavailable "list current control pods" (IsConflict e)))
          | Ok pods =>
              match count_current 0 pods with
              | None => denied "authenticated control pod is not the current run incarnation"
              | Some n =>
                  if negb (n =? 1) then denied "expected exactly one live control pod for CoderRun" else
                  if negb (ack_fenced run) then denied "control request acknowledgement does not fence to the live request" else
                  if validates then
                    v ← call (SValidate run pod patch);
                    match v with
                    | Err e => Ret (Err (if ve_unavailable e then StatusUnavailable "validator" (ve_conflict e)
                                         else StatusDenied "validate live status preconditions" (ve_conflict e)))
                    | Ok _ => attempt_update run
                    end
                  else attempt_update run
              end
          end
      end
  end.

(** [retry.RetryOnConflict]: up to [tries] attempts. *)
Fixpoint attempts (tries : nat) : status unit :=
  match tries with
  | O => attempt
  | S k => r ← attempt;
           match r with
           | Err e => if status_is_conflict e then attempts k else Ret (Err e)
           | Ok _ => Ret (Ok tt)
           end
  end.

Definition empty_patch : bool :=
  omitted (hp_Checkpoint patch) && omitted (hp_Heartbeat patch) && omitted (hp_LastCommit patch) &&
  omitted (AddOperation patch) && String.eqb (ClearOperation patch) "" && negb (ReconcileOperations patch) &&
  omitted (hp_ControlRequestAck patch) && omitted (TerminalResult patch) && omitted (hp_NoChange patch) &&
  omitted (hp_ModelSurface patch).

(** A record of the patch: well formed, and of the authenticated incarnation. *)
Definition fenced_record {A} (o : option A) (valid : A -> result string unit) (uid : A -> string) (msg : string) : result string unit :=
  match o with
  | None => Ok tt
  | Some v => _ ← valid v; if negb (String.eqb (uid v) (si_ControlPodUID identity)) then Err msg else Ok tt
  end.

(** The checks ahead of any live read. *)
Definition check_patch : result string unit :=
  if String.eqb (si_RunUID identity) "" || String.eqb (si_ControlPod identity) "" || String.eqb (si_ControlPodUID identity) "" ||
     String.eqb (si_ControlServiceAccount identity) "" then Err "authenticated status identity is incomplete" else
  if empty_patch then Err "empty harness status patch" else
  if match hp_ControlRequestAck patch with Some a => String.eqb (ack_ID a) "" || time_zero (ack_At a) | None => false end then
    Err "control request acknowledgement is malformed" else
  _ ← fenced_record (TerminalResult patch) validTerminalResult nr_CoordinatorPodUID
        "terminal result UID does not match the authenticated control incarnation";
  _ ← fenced_record (hp_NoChange patch) validNoChange nc_CoordinatorPodUID
        "no-change close UID does not match the authenticated control incarnation";
  _ ← fenced_record (hp_ModelSurface patch) validModelSurface ms_CoordinatorPodUID
        "model-surface provenance UID does not match the authenticated control incarnation";
  if match hp_LastCommit patch with Some _ => negb validates | None => false end then
    Err "lastCommit requires live-world validation" else
  if match hp_Heartbeat patch with Some h => negb (String.eqb (hb_CoordinatorPodUID h) (si_ControlPodUID identity)) | None => false end then
    Err "heartbeat UID does not match the authenticated control incarnation" else
  match AddOperation patch with Some a => validOperationIdentity identity a | None => Ok tt end.

Definition Write : status unit :=
  match check_patch with
  | Err m => denied m
  | Ok _ =>
      r ← attempts 4;
      match r with
      | Ok _ => Ret (Ok tt)
      | Err e => Ret (Err (if status_is_conflict e then StatusConflict else e))
      end
  end.
End Write.

(** ** The API server under optimistic concurrency

    The run as persisted, with every resource version it ever had.  Other
    clients may write any run at any time; every write gets a version never used
    before; an update is committed only against the version it was computed
    from.  A failed read says nothing; a failed update may have been committed,
    unless it failed with a conflict. *)
Record api_server := { live : CoderRun; versions : list string }.

Definition with_version (r : CoderRun) (v : string) : CoderRun :=
  {| Namespace := Namespace r; run_Name := run_Name r; UID := UID r; ResourceVersion := v; Generation := Generation r;
     CreationTimestamp := CreationTimestamp r; DeletionTimestamp := DeletionTimestamp r; Finalizers := Finalizers r;
     Annotations := Annotations r; Spec := Spec r; Status := Status r |}.

Definition commit (sv : api_server) (r : CoderRun) (v : string) : api_server :=
  {| live := with_version r v; versions := v :: versions sv |}.

Definition other_write (sv sv' : api_server) : Prop := exists r v, v ∉ versions sv /\ sv' = commit sv r v.

(** A status update: the version must match; the status replaces the live one. *)
Definition committed (sv : api_server) (r : CoderRun) (m : list (CoderRun * CoderRun)) (sv' : api_server) : Prop :=
  ResourceVersion r = ResourceVersion (live sv) /\
  exists v, v ∉ versions sv /\ sv' = commit sv (set_Status (live sv) (Status r)) v /\ m = [(live sv, live sv')].

(** One request of the writer; [m] lists the versions it replaced and wrote. *)
Definition api_step (sv : api_server) (ev : event statusE) (m : list (CoderRun * CoderRun)) (sv' : api_server) : Prop :=
  match ev with
  | Ev op ans =>
      match op in statusE X return X -> Prop with
      | SReadRun _ _ => fun r => sv' = sv /\ m = [] /\ forall x, r = Ok x -> x = live sv
      | SUpdate run => fun r =>
          match r with
          | Ok _ => committed sv run m sv'
          | Err e => (sv' = sv /\ m = []) \/ (IsConflict e = false /\ committed sv run m sv')
          end
      | _ => fun _ => sv' = sv /\ m = []
      end ans
  end.

(** The requests of the writer, with the writes of other clients in between. *)
Inductive api_serves : api_server -> trace statusE -> list (CoderRun * CoderRun) -> api_server -> Prop :=
| as_nil sv : api_serves sv [] [] sv
| as_cons sv sv1 sv2 sv3 ev m t ms :
    rtc other_write sv sv1 -> api_step sv1 ev m sv2 -> api_serves sv2 t ms sv3 ->
    api_serves sv (ev :: t) (m ++ ms)%list sv3.

(** [r] is a version the server had; it is the live one when its version is. *)
Definition seen (sv : api_server) (r : CoderRun) : Prop :=
  ResourceVersion r ∈ versions sv /\ (ResourceVersion r = ResourceVersion (live sv) -> r = live sv).

(** ** What one write commits *)

Section Applied.
Variables (w : StatusWriter) (identity : StatusIdentity) (patch : HarnessPatch) (validates : bool).

(** [after] is the version [before] of the authenticated incarnation, live and
    with the acknowledged request pending, with exactly the patch applied. *)
Record applied (before after : CoderRun) : Prop := {
  ap_live : UID before = si_RunUID identity /\ DeletionTimestamp before = None;
  ap_ack : ack_fenced identity patch before = true;
  ap_patch : exists st v, apply_harness (Status before) patch = Ok st /\ after = with_version (set_Status before st) v
}.

(** The control pod was read and is the run's current one; the namespace's pods
    were read and it is the only live control pod. *)
Record control_seen (t : trace statusE) : Prop := {
  cs_pod : exists pod, Ev (SReadPod (sw_namespace w) (si_ControlPod identity)) (Ok pod) ∈ t /\ current_pod w identity pod = true;
  cs_only : exists pods, Ev (SListPods (sw_namespace w)) (Ok pods) ∈ t /\
    length (List.filter (live_candidate w identity) pods) = 1%nat /\
    forall c, c ∈ pods -> live_candidate w identity c = true ->
      pod_Name c = si_ControlPod identity /\ pod_UID c = si_ControlPodUID identity
}.

(** What the writer's versions are, by its result: one on success, none on a
    refusal or a conflict, at most one when the server's answer was lost. *)
Definition outcome (t : trace statusE) (ms : list (CoderRun * CoderRun)) (r : result status_error unit) : Prop :=
  let once := exists before after, ms = [(before, after)] /\ applied before after /\ control_seen t in
  match r with
  | Ok _ => once
  | Err (StatusUnavailable _ false) => ms = [] \/ once
  | Err _ => ms = []
  end.

Lemma control_seen_mono t t' : t ⊆ t' -> control_seen t -> control_seen t'.
Proof.
  intros Hsub [(pod & Hp & ?) (pods & Hl & ? & ?)]. split; [exists pod|exists pods]; split_and!; auto.
Qed.

Lemma outcome_mono t t' ms r : t ⊆ t' -> outcome t ms r -> outcome t' ms r.
Proof.
  intros Hsub. assert (Ho : (exists b a, ms = [(b, a)] /\ applied b a /\ control_seen t) ->
    exists b a, ms = [(b, a)] /\ applied b a /\ control_seen t').
  { intros (b & a & ? & ? & ?). exists b, a. split_and!; try done. by eapply control_seen_mono. }
  unfold outcome. destruct r as [|[| |]]; [exact Ho|done| |done]. destruct conflict; [done|]. intros [|]; auto.
Qed.

Lemma count_current_ok n pods m :
  count_current w identity n pods = Some m ->
  m = n + Z.of_nat (length (List.filter (live_candidate w identity) pods)) /\
  forall c, c ∈ pods -> live_candidate w identity c = true ->
    pod_Name c = si_ControlPod identity /\ pod_UID c = si_ControlPodUID identity.
Proof.
  revert n. induction pods as [|c pods IH]; intros n; cbn [count_current List.filter].
  - intros [= <-]. split; [cbn; lia|]. by intros c Hc%not_elem_of_nil.
  - destruct (live_candidate w identity c) eqn:Hl.
    + destruct (_ || _) eqn:Hg; [done|]. rewrite orb_false_iff, !negb_false_iff, !String.eqb_eq in Hg.
      intros [H1 H2]%IH. split; [cbn [length]; lia|]. intros d [->|Hd]%elem_of_cons; [tauto|auto].
    + intros [H1 H2]%IH. split; [done|]. intros d [->|Hd]%elem_of_cons; [congruence|auto].
Qed.

Lemma seen_other sv sv' r : seen sv r -> rtc other_write sv sv' -> seen sv' r.
Proof.
  intros Hs Hr. induction Hr as [|sv sv1 sv' (r' & v & Hv & ->) _ IH]; [done|]. apply IH.
  destruct Hs as [Hin Hlive]. split; [by apply elem_of_cons; right|]. cbn. intros <-. done.
Qed.

(** Against a version it saw, the update commits the patch or nothing. *)
Lemma update_outcome sv run t r ms sv' t0 :
  seen sv run -> UID run = si_RunUID identity -> DeletionTimestamp run = None -> ack_fenced identity patch run = true ->
  control_seen t0 -> exec (attempt_update patch run) t r -> api_serves sv t ms sv' -> outcome t0 ms r.
Proof.
  intros Hseen Hu Hd Ha Hc Hex Hs. unfold attempt_update in Hex.
  destruct (apply_harness (Status run) patch) as [st|e] eqn:Hap; [|destruct Hex as [-> ->]; by inversion Hs].
  destruct Hex as (x & t' & -> & Hex). cbn in Hex.
  inversion Hs as [|? sv1 sv2 ? ? m ? ms' Hr Hstep Hrest]; subst.
  assert (Ht : t' = []) by (destruct x; by destruct Hex). subst t'. inversion Hrest; subst. rewrite app_nil_r.
  pose proof (seen_other _ _ _ Hseen Hr) as [_ Hlive].
  assert (Hone : committed sv1 (set_Status run st) m sv' ->
    exists before after, m = [(before, after)] /\ applied before after /\ control_seen t0).
  { intros (Hv & v & _ & -> & ->). cbn in Hv. rewrite <- (Hlive Hv). exists run, (with_version (set_Status run st) v).
    split_and!; [done| |done]. split; [done|done|]. eauto. }
  destruct x as [u|e]; destruct Hex as [_ ->]; cbn in Hstep; [by apply Hone|].
  destruct (IsConflict e) eqn:He; cbn.
  - by destruct Hstep as [[_ ->]|[? _]].
  - destruct Hstep as [[_ ->]|[_ Hstep]]; [by left|right; by apply Hone].
Qed.
End Applied.

(** ** Whole writes *)

Definition known (sv : api_server) : Prop := ResourceVersion (live sv) ∈ versions sv.

Lemma others_known sv sv' : known sv -> rtc other_write sv sv' -> known sv'.
Proof. intros Hk Hr. induction Hr as [|sv sv1 sv' (r & v & _ & ->) _ IH]; [done|]. apply IH. apply list_elem_of_here. Qed.

Lemma committed_known sv r m sv' : committed sv r m sv' -> known sv'.
Proof. intros (_ & v & _ & -> & _). apply list_elem_of_here. Qed.

Lemma step_known sv ev m sv' : known sv -> api_step sv ev m sv' -> known sv'.
Proof.
  destruct ev as [X op ans]. destruct op; cbn; intros Hk Hs; try (by destruct Hs as (-> & _)).
  destruct ans; [by eapply committed_known|]. destruct Hs as [[-> _]|[_ Hs]]; [done|by eapply committed_known].
Qed.

Lemma serves_known sv t ms sv' : api_serves sv t ms sv' -> known sv -> known sv'.
Proof.
  induction 1 as [|sv sv1 sv2 sv3 ev m t ms Hr Hs _ IH]; [done|]. intros Hk. apply IH.
  eapply step_known; [|exact Hs]. by eapply others_known.
Qed.

Lemma serves_app sv t1 t2 ms sv' :
  api_serves sv (t1 ++ t2)%list ms sv' ->
  exists ms1 ms2 sv1, ms = (ms1 ++ ms2)%list /\ api_serves sv t1 ms1 sv1 /\ api_serves sv1 t2 ms2 sv'.
Proof.
  revert sv ms. induction t1 as [|ev t1 IH]; intros sv ms; cbn [app].
  - intros Hs. exists [], ms, sv. split; [done|]. split; [constructor|done].
  - inversion 1 as [|? sv1 sv2 ? ? m ? ms' Hr Hstep Hrest]; subst.
    apply IH in Hrest as (m1 & m2 & sv3 & -> & H1 & H2). exists (m ++ m1)%list, m2, sv3.
    rewrite app_assoc. split; [done|]. split; [by econstructor|done].
Qed.

(** A request that writes nothing. *)
Definition quiet {X} (e : statusE X) : bool := match e with SUpdate _ => false | _ => true end.

Lemma serves_quiet {X} (e : statusE X) x sv t ms sv' run :
  quiet e = true -> seen sv run -> api_serves sv (Ev e x :: t) ms sv' -> exists sv1, seen sv1 run /\ api_serves sv1 t ms sv'.
Proof.
  intros Hq Hseen. inversion 1 as [|? sv1 sv2 ? ? m ? ms' Hr Hstep Hrest]; subst. exists sv1.
  assert (Hst : sv2 = sv1 /\ m = []) by (destruct e; try done; cbn in Hstep; tauto). destruct Hst as [-> ->].
  split; [by eapply seen_other|done].
Qed.

Lemma serves_read ns name run sv t ms sv' :
  known sv -> api_serves sv (Ev (SReadRun ns name) (Ok run) :: t) ms sv' -> exists sv1, seen sv1 run /\ api_serves sv1 t ms sv'.
Proof.
  intros Hk. inversion 1 as [|? sv1 sv2 ? ? m ? ms' Hr Hstep Hrest]; subst. destruct Hstep as (-> & -> & Hrun).
  exists sv1. rewrite (Hrun run eq_refl). split; [|done]. split; [by eapply others_known|done].
Qed.

(** A failure ahead of the update: nothing was written. *)
Lemma serves_silent sv t ms sv' :
  Forall (fun ev : event statusE => quiet (ev_op ev) = true) t -> api_serves sv t ms sv' -> ms = [].
Proof.
  induction 2 as [|sv sv1 sv2 sv3 ev m t ms Hr Hs _ IH]; [done|]. apply Forall_cons in H as [Hq Hrest].
  rewrite (IH Hrest), app_nil_r. destruct ev as [X op ans]. destruct op; cbn in *; try done; tauto.
Qed.

Lemma outcome_silent w i p t r : (forall u, r <> Ok u) -> outcome w i p t [] r.
Proof. intros H. unfold outcome. destruct r as [u|[| |]]; [by destruct (H u)|done| |done]. destruct conflict; auto. Qed.

Section Whole.
Variables (w : StatusWriter) (identity : StatusIdentity) (patch : HarnessPatch) (validates : bool).

(** The attempt as its reads, then the update. *)
Inductive attempt_shape (t : trace statusE) (r : result status_error unit) : Prop :=
| shape_failed : Forall (fun ev : event statusE => quiet (ev_op ev) = true) t -> (forall u, r <> Ok u) -> attempt_shape t r
| shape_updated run t1 t2 :
    t = (Ev (SReadRun (sw_namespace w) (sw_runName w)) (Ok run) :: t1 ++ t2)%list ->
    Forall (fun ev : event statusE => quiet (ev_op ev) = true) t1 -> control_seen w identity t1 ->
    UID run = si_RunUID identity -> DeletionTimestamp run = None -> ack_fenced identity patch run = true ->
    exec (attempt_update patch run) t2 r -> attempt_shape t r.

Lemma read_failed_shape {A} e m t (r : result status_error A) :
  exec (live_read_failed e m) t r -> t = [] /\ forall u, r <> Ok u.
Proof. unfold live_read_failed. destruct (IsNotFound e); by intros [-> ->]. Qed.

Ltac failing := apply shape_failed; [repeat constructor|done].

Lemma attempt_shape_ok t r : exec (attempt w identity patch validates) t r -> attempt_shape t r.
Proof.
  intros (run & t1 & -> & Hex). cbn [exec mbind prog_bind bind_prog] in Hex.
  destruct run as [run|e]; [|apply read_failed_shape in Hex as [-> ?]; failing].
  destruct (String.eqb_spec (UID run) (si_RunUID identity)) as [Hu|]; [|destruct Hex as [-> ->]; failing]. cbn [negb orb] in Hex.
  destruct (run_terminating run) eqn:Hd; [destruct Hex as [-> ->]; failing|].
  destruct Hex as (pod & t2 & -> & Hex). cbn [exec mbind prog_bind bind_prog] in Hex.
  destruct pod as [pod|e]; [|apply read_failed_shape in Hex as [-> ?]; failing].
  destruct (current_pod w identity pod) eqn:Hp; [|destruct Hex as [-> ->]; failing]. cbn [negb] in Hex.
  destruct Hex as (pods & t3 & -> & Hex). cbn [exec mbind prog_bind bind_prog] in Hex.
  destruct pods as [pods|e]; [|destruct Hex as [-> ->]; failing].
  destruct (count_current w identity 0 pods) as [n|] eqn:Hn; [|destruct Hex as [-> ->]; failing].
  destruct (Z.eqb_spec n 1) as [->|]; [|destruct Hex as [-> ->]; failing]. cbn [negb] in Hex.
  destruct (ack_fenced identity patch run) eqn:Ha; [|destruct Hex as [-> ->]; failing]. cbn [negb] in Hex.
  apply count_current_ok in Hn as [Hlen Honly].
  assert (Hseen : control_seen w identity [Ev (SReadPod (sw_namespace w) (si_ControlPod identity)) (Ok pod);
                                           Ev (SListPods (sw_namespace w)) (Ok pods)]).
  { split; [exists pod|exists pods]; split_and!; try done; [apply list_elem_of_here| |lia].
    apply list_elem_of_further, list_elem_of_here. }
  assert (Hlive : DeletionTimestamp run = None) by (unfold run_terminating in Hd; by destruct (DeletionTimestamp run)).
  destruct validates.
  - destruct Hex as (v & t4 & -> & Hex). cbn [exec mbind prog_bind bind_prog] in Hex.
    destruct v as [v|e]; [|destruct Hex as [-> ->]; failing].
    eapply (shape_updated _ _ run [_; _; _] t4); try done; [repeat constructor|].
    eapply control_seen_mono; [|exact Hseen]. intros ev [->|[->|H]%elem_of_cons]%elem_of_cons; [| |by apply not_elem_of_nil in H];
      [apply list_elem_of_here|apply list_elem_of_further, list_elem_of_here].
  - eapply (shape_updated _ _ run [_; _] t3); try done. repeat constructor.
Qed.

Lemma serves_quiets run t1 : forall sv t2 ms sv',
  Forall (fun ev : event statusE => quiet (ev_op ev) = true) t1 -> seen sv run -> api_serves sv (t1 ++ t2)%list ms sv' ->
  exists sv1, seen sv1 run /\ api_serves sv1 t2 ms sv'.
Proof.
  induction t1 as [|ev t1 IH]; intros sv t2 ms sv' Hq Hseen Hs; [eauto|]. apply Forall_cons in Hq as [Hev Hq].
  destruct ev as [X op ans]. apply (serves_quiet op ans _ _ _ _ run Hev Hseen) in Hs as (sv1 & H1 & H2). by eapply IH.
Qed.

Lemma attempt_outcome sv t r ms sv' :
  known sv -> exec (attempt w identity patch validates) t r -> api_serves sv t ms sv' -> outcome w identity patch t ms r.
Proof.
  intros Hk Hex Hs. destruct (attempt_shape_ok t r Hex) as [Hq Hr|run t1 t2 -> Hq Hc Hu Hd Ha Hup].
  - apply (serves_silent _ _ _ _ Hq) in Hs as ->. by apply outcome_silent.
  - apply serves_read in Hs as (sv1 & Hseen & Hs); [|done].
    apply (serves_quiets run) in Hs as (sv2 & Hseen2 & Hs); [|done..].
    eapply outcome_mono; [|by eapply update_outcome].
    intros ev Hev. apply elem_of_cons. right. apply elem_of_app. by left.
Qed.

Lemma attempts_outcome tries : forall sv t r ms sv',
  known sv -> exec (attempts w identity patch validates tries) t r -> api_serves sv t ms sv' ->
  outcome w identity patch t ms r.
Proof.
  induction tries as [|k IH]; intros sv t r ms sv' Hk Hex Hs; [by eapply attempt_outcome|].
  cbn [attempts] in Hex. apply exec_bind in Hex as (t1 & t2 & r1 & -> & H1 & H2).
  apply serves_app in Hs as (m1 & m2 & sv1 & -> & Hs1 & Hs2).
  pose proof (attempt_outcome _ _ _ _ _ Hk H1 Hs1) as Ho.
  assert (Hdone : r = r1 -> t2 = [] -> outcome w identity patch (t1 ++ t2)%list (m1 ++ m2)%list r).
  { intros -> ->. inversion Hs2; subst. by rewrite !app_nil_r. }
  destruct r1 as [u|e]; [by destruct u; destruct H2; auto|].
  destruct (status_is_conflict e) eqn:He; [|destruct H2; auto].
  assert (m1 = []) as -> by (by destruct e as [| ? []|]).
  eapply outcome_mono; [|exact (IH _ _ _ _ _ (serves_known _ _ _ _ Hs1 Hk) H2 Hs2)].
  intros ev Hev. apply elem_of_app. by right.
Qed.
End Whole.

(** ** Frames *)

(** The status without what the harness writes: its own fields and the
    acknowledgement, which both sides write. *)
Definition operator_view (s : CoderRunStatus) : CoderRunStatus :=
  set_st_ControlRequestAck (set_LastCommit (set_NoChange (set_st_Checkpoint (set_st_Heartbeat (set_ActiveOperations
    (set_st_NativeResult (set_ModelSurface s None) None) ∅) None) None) None) "") None.

(** The operations after the patch. *)
Definition operations_after (ops : gmap string ActiveOperation) (p : HarnessPatch) : gmap string ActiveOperation :=
  let ops := if ReconcileOperations p then ∅ else ops in
  let ops := match AddOperation p with
             | Some a => match ops !! OpID a with Some _ => ops | None => <[OpID a := Operation a]> ops end
             | None => ops
             end in
  if String.eqb (ClearOperation p) "" then ops else delete (ClearOperation p) ops.

(** What the patch writes, field by field. *)
Definition patched_records (s : CoderRunStatus) (p : HarnessPatch) : CoderRunStatus :=
  let s := set_st_NativeResult s (keep_o (st_NativeResult s) (TerminalResult p)) in
  let s := set_NoChange s (keep_o (NoChange s) (hp_NoChange p)) in
  let s := set_ModelSurface s (keep_o (ModelSurface s) (hp_ModelSurface p)) in
  set_ActiveOperations s (operations_after (ActiveOperations s) p).

Definition patched (s : CoderRunStatus) (p : HarnessPatch) : CoderRunStatus :=
  let s := set_st_Checkpoint s (keep_o (st_Checkpoint s) (hp_Checkpoint p)) in
  let s := set_st_Heartbeat s (keep_o (st_Heartbeat s) (hp_Heartbeat p)) in
  let s := set_LastCommit s (default (LastCommit s) (hp_LastCommit p)) in
  let s := set_st_ControlRequestAck s (keep_o (st_ControlRequestAck s) (hp_ControlRequestAck p)) in
  patched_records s p.

(** No record of the same incarnation is replaced by a different one. *)
Definition once_ok {A} (uid : A -> string) (same : A -> A -> bool) (old new : option A) : bool :=
  match old, new with Some e, Some n => negb (String.eqb (uid e) (uid n)) || same e n | _, _ => true end.

(** The added operation is new and there is room, or it is recorded already. *)
Definition operation_ok (ops : gmap string ActiveOperation) (p : HarnessPatch) : bool :=
  let ops := if ReconcileOperations p then ∅ else ops in
  match AddOperation p with
  | None => true
  | Some a => match ops !! OpID a with
              | Some e => sameOperationEvidence e (Operation a)
              | None => bool_decide (size ops < maxActiveOperations)%nat
              end
  end.

Definition acceptable (s : CoderRunStatus) (p : HarnessPatch) : bool :=
  once_ok nr_CoordinatorPodUID sameTerminalResult (st_NativeResult s) (TerminalResult p) &&
  once_ok nc_CoordinatorPodUID sameNoChange (NoChange s) (hp_NoChange p) &&
  once_ok ms_CoordinatorPodUID sameModelSurface (ModelSurface s) (hp_ModelSurface p) &&
  operation_ok (ActiveOperations s) p.

Definition ok_value {E A} (r : result E A) : option A := match r with Ok a => Some a | Err _ => None end.

Lemma set_once_value {A} uid same m (old : option A) new :
  ok_value (once_per_incarnation uid same m old new) = if once_ok uid same old (Some new) then Some (Some new) else None.
Proof. destruct old as [e|]; cbn; [|done]. by destruct (String.eqb _ _), (same e new). Qed.

Lemma ok_bind {E A B} (m : result E A) (f : A -> result E B) :
  ok_value (m ≫= f) = match ok_value m with Some a => ok_value (f a) | None => None end.
Proof. by destruct m. Qed.

(** One optional assignment. *)
Lemma applying_value {A} (o : option A) s (f : A -> result string CoderRunStatus) (g : option A -> CoderRunStatus) (b : bool) :
  g None = s -> (o = None -> b = true) -> (forall v, o = Some v -> ok_value (f v) = if b then Some (g (Some v)) else None) ->
  ok_value (applying o s f) = if b then Some (g o) else None.
Proof. intros Hg Hb Hf. destruct o as [v|]; cbn [applying]; [by apply Hf|]. rewrite (Hb eq_refl). cbn. by rewrite Hg. Qed.

Lemma record_stage {A} uid same m (o old : option A) s (set : CoderRunStatus -> option A -> CoderRunStatus) :
  set s old = s ->
  ok_value (applying o s (fun v => r ← once_per_incarnation uid same m old v; Ok (set s r))) =
  if once_ok uid same old o then Some (set s (keep_o old o)) else None.
Proof.
  intros Hs. apply (applying_value o s _ (fun o => set s (keep_o old o))); [done|by intros ->; destruct old|].
  intros v ->. rewrite ok_bind, set_once_value. by destruct (once_ok uid same old (Some v)).
Qed.

Lemma operation_stage o s :
  ok_value (applying o s (fun v => ops ← apply_operation (ActiveOperations s) v; Ok (set_ActiveOperations s ops))) =
  match o with
  | None => Some s
  | Some a => match ActiveOperations s !! OpID a with
              | Some e => if sameOperationEvidence e (Operation a) then Some s else None
              | None => if bool_decide (size (ActiveOperations s) < maxActiveOperations)%nat
                        then Some (set_ActiveOperations s (<[OpID a := Operation a]> (ActiveOperations s))) else None
              end
  end.
Proof.
  destruct o as [a|]; cbn [applying]; [|done]. unfold apply_operation. destruct (ActiveOperations s !! OpID a) as [e|].
  - destruct (sameOperationEvidence e (Operation a)); cbn; [|done]. by destruct s.
  - case_bool_decide; case_bool_decide; try lia; done.
Qed.

(** The operations of a patch, in one step. *)
Lemma operations_stage s p :
  let s' := if ReconcileOperations p then set_ActiveOperations s ∅ else s in
  match match AddOperation p with
        | None => Some s'
        | Some a => match ActiveOperations s' !! OpID a with
                    | Some e => if sameOperationEvidence e (Operation a) then Some s' else None
                    | None => if bool_decide (size (ActiveOperations s') < maxActiveOperations)%nat
                              then Some (set_ActiveOperations s' (<[OpID a := Operation a]> (ActiveOperations s'))) else None
                    end
        end with
  | Some a => ok_value (@Ok string _ (if String.eqb (ClearOperation p) "" then a
                                      else set_ActiveOperations a (delete (ClearOperation p) (ActiveOperations a))))
  | None => None
  end = if operation_ok (ActiveOperations s) p then Some (set_ActiveOperations s (operations_after (ActiveOperations s) p)) else None.
Proof.
  intros s'. unfold operation_ok, operations_after. cbv zeta.
  set (ops := if ReconcileOperations p then ∅ else ActiveOperations s).
  assert (Hsame : s' = set_ActiveOperations s ops) by (subst s' ops; destruct (ReconcileOperations p); [reflexivity|by destruct s]).
  clearbody s' ops. subst s'. cbn [ActiveOperations set_ActiveOperations].
  destruct (AddOperation p) as [a|]; [destruct (ops !! OpID a) as [e|]|].
  - destruct (sameOperationEvidence e (Operation a)); [|reflexivity]. destruct (String.eqb _ ""); reflexivity.
  - destruct (bool_decide _); [|reflexivity]. destruct (String.eqb _ ""); reflexivity.
  - destruct (String.eqb _ ""); reflexivity.
Qed.

(** The patch is applied exactly when it is acceptable. *)
Lemma records_value s p :
  ok_value (
    s ← applying (TerminalResult p) s (fun v =>
          r ← once_per_incarnation nr_CoordinatorPodUID sameTerminalResult "a terminal result is already recorded for this control incarnation"
                (st_NativeResult s) v; Ok (set_st_NativeResult s r));
    s ← applying (hp_NoChange p) s (fun v =>
          r ← once_per_incarnation nc_CoordinatorPodUID sameNoChange "a no-change close is already recorded for this control incarnation"
                (NoChange s) v; Ok (set_NoChange s r));
    s ← applying (hp_ModelSurface p) s (fun v =>
          r ← once_per_incarnation ms_CoordinatorPodUID sameModelSurface "a model-surface provenance is already recorded for this control incarnation"
                (ModelSurface s) v; Ok (set_ModelSurface s r));
    let s := if ReconcileOperations p then set_ActiveOperations s ∅ else s in
    s ← applying (AddOperation p) s (fun v => ops ← apply_operation (ActiveOperations s) v; Ok (set_ActiveOperations s ops));
    Ok (if String.eqb (ClearOperation p) "" then s
        else set_ActiveOperations s (delete (ClearOperation p) (ActiveOperations s)))) =
  if acceptable s p then Some (patched_records s p) else None.
Proof.
  unfold acceptable, patched_records. rewrite ok_bind, record_stage by (by destruct s).
  destruct (once_ok nr_CoordinatorPodUID _ _ _); [|reflexivity].
  change (NoChange s) with (NoChange (set_st_NativeResult s (keep_o (st_NativeResult s) (TerminalResult p)))).
  change (ModelSurface s) with (ModelSurface (set_st_NativeResult s (keep_o (st_NativeResult s) (TerminalResult p)))).
  change (ActiveOperations s) with (ActiveOperations (set_st_NativeResult s (keep_o (st_NativeResult s) (TerminalResult p)))).
  generalize (set_st_NativeResult s (keep_o (st_NativeResult s) (TerminalResult p))). clear s. intros s.
  rewrite ok_bind, record_stage by (by destruct s). destruct (once_ok nc_CoordinatorPodUID _ _ _); [|reflexivity].
  change (ModelSurface s) with (ModelSurface (set_NoChange s (keep_o (NoChange s) (hp_NoChange p)))).
  change (ActiveOperations s) with (ActiveOperations (set_NoChange s (keep_o (NoChange s) (hp_NoChange p)))).
  generalize (set_NoChange s (keep_o (NoChange s) (hp_NoChange p))). clear s. intros s.
  rewrite ok_bind, record_stage by (by destruct s). destruct (once_ok ms_CoordinatorPodUID _ _ _); [|reflexivity].
  change (ActiveOperations s) with (ActiveOperations (set_ModelSurface s (keep_o (ModelSurface s) (hp_ModelSurface p)))).
  generalize (set_ModelSurface s (keep_o (ModelSurface s) (hp_ModelSurface p))). clear s. intros s.
  cbv zeta. rewrite ok_bind, operation_stage. exact (operations_stage s p).
Qed.

(** The records a patch must be consistent with. *)
Definition recorded (s : CoderRunStatus) := (st_NativeResult s, NoChange s, ModelSurface s, ActiveOperations s).

Lemma acceptable_recorded s s' p : recorded s = recorded s' -> acceptable s p = acceptable s' p.
Proof. unfold recorded, acceptable. intros [= -> -> -> ->]. reflexivity. Qed.

Lemma apply_harness_value s p : ok_value (apply_harness s p) = if acceptable s p then Some (patched s p) else None.
Proof.
  unfold apply_harness, patched. rewrite ok_bind.
  rewrite (applying_value _ s _ (fun o => set_st_Checkpoint s (keep_o (st_Checkpoint s) o)) true) by (try done; by destruct s).
  cbv iota zeta. rewrite (acceptable_recorded s (set_st_Checkpoint s (keep_o (st_Checkpoint s) (hp_Checkpoint p)))) by reflexivity.
  generalize (set_st_Checkpoint s (keep_o (st_Checkpoint s) (hp_Checkpoint p))). clear s. intros s. rewrite ok_bind.
  rewrite (applying_value _ s _ (fun o => set_st_Heartbeat s (keep_o (st_Heartbeat s) o)) true) by (try done; by destruct s).
  cbv iota. rewrite (acceptable_recorded s (set_st_Heartbeat s (keep_o (st_Heartbeat s) (hp_Heartbeat p)))) by reflexivity.
  generalize (set_st_Heartbeat s (keep_o (st_Heartbeat s) (hp_Heartbeat p))). clear s. intros s. rewrite ok_bind.
  rewrite (applying_value _ s _ (fun o => set_LastCommit s (default (LastCommit s) o)) true) by (try done; by destruct s).
  cbv iota. rewrite (acceptable_recorded s (set_LastCommit s (default (LastCommit s) (hp_LastCommit p)))) by reflexivity.
  generalize (set_LastCommit s (default (LastCommit s) (hp_LastCommit p))). clear s. intros s. rewrite ok_bind.
  rewrite (applying_value _ s _ (fun o => set_st_ControlRequestAck s (keep_o (st_ControlRequestAck s) o)) true) by (try done; by destruct s).
  cbv iota. rewrite (acceptable_recorded s (set_st_ControlRequestAck s (keep_o (st_ControlRequestAck s) (hp_ControlRequestAck p)))) by reflexivity.
  apply records_value.
Qed.

Lemma apply_harness_ok s p s' : apply_harness s p = Ok s' <-> acceptable s p = true /\ s' = patched s p.
Proof.
  pose proof (apply_harness_value s p) as H. destruct (apply_harness s p) as [x|e], (acceptable s p); cbn in H; try done.
  - injection H as ->. split; [by intros [= <-]|by intros [_ ->]].
  - split; [done|by intros [? _]].
Qed.

(** ** Two writers *)

(** A write of one of the two sides, as the API server commits it. *)
Inductive status_edit := ByOperator (p : OperatorPatch) | ByHarness (p : HarnessPatch).

Definition edit (s : CoderRunStatus) (e : status_edit) : CoderRunStatus :=
  match e with
  | ByOperator p => apply_patch s p
  | ByHarness p => match apply_harness s p with Ok s' => s' | Err _ => s end
  end.

Definition by_harness (e : status_edit) : bool := match e with ByHarness _ => true | ByOperator _ => false end.

(** What the harness reads of the status it writes. *)
Definition harness_after (s : CoderRunStatus) (p : HarnessPatch) :=
  (default (LastCommit s) (hp_LastCommit p), keep_o (NoChange s) (hp_NoChange p), keep_o (st_Checkpoint s) (hp_Checkpoint p),
   keep_o (st_Heartbeat s) (hp_Heartbeat p), operations_after (ActiveOperations s) p, keep_o (st_NativeResult s) (TerminalResult p),
   keep_o (ModelSurface s) (hp_ModelSurface p)).

Lemma patched_fields s p : harness_fields (patched s p) = harness_after s p.
Proof. reflexivity. Qed.

Lemma patched_view s p : operator_view (patched s p) = operator_view s.
Proof. reflexivity. Qed.

Lemma edit_harness s s' e : harness_fields s = harness_fields s' -> harness_fields (edit s e) = harness_fields (edit s' e).
Proof.
  intros H. destruct e as [p|p]; [exact H|]. cbn [edit].
  pose proof (apply_harness_value s p) as H1. pose proof (apply_harness_value s' p) as H2.
  assert (Hacc : acceptable s p = acceptable s' p).
  { apply acceptable_recorded. unfold harness_fields in H. unfold recorded. congruence. }
  rewrite <- Hacc in H2. destruct (apply_harness s p), (apply_harness s' p), (acceptable s p); cbn in H1, H2; try done.
  injection H1 as ->. injection H2 as ->. rewrite !patched_fields. unfold harness_fields in H. unfold harness_after. congruence.
Qed.

Lemma edit_operator_harness s p : operator_view (edit s (ByHarness p)) = operator_view s.
Proof.
  cbn [edit]. destruct (apply_harness s p) as [s'|] eqn:H; [|done]. apply apply_harness_ok in H as [_ ->]. apply patched_view.
Qed.

Lemma patch_view s p : operator_view (apply_patch s p) = operator_view (apply_patch (operator_view s) p).
Proof. reflexivity. Qed.

Lemma edit_operator s s' p :
  operator_view s = operator_view s' -> operator_view (edit s (ByOperator p)) = operator_view (edit s' (ByOperator p)).
Proof. intros H. cbn [edit]. rewrite patch_view, H. symmetry. apply patch_view. Qed.

Lemma edits_harness es : forall s s', harness_fields s = harness_fields s' ->
  harness_fields (foldl edit s es) = harness_fields (foldl edit s' (List.filter by_harness es)).
Proof.
  induction es as [|e es IH]; intros s s' H; [done|]. cbn [foldl List.filter].
  destruct e as [p|p]; cbn [by_harness foldl]; apply IH; [exact H|by apply edit_harness].
Qed.

Lemma edits_operator es : forall s s', operator_view s = operator_view s' ->
  operator_view (foldl edit s es) = operator_view (foldl edit s' (List.filter (fun e => negb (by_harness e)) es)).
Proof.
  induction es as [|e es IH]; intros s s' H; [done|]. cbn [foldl List.filter].
  destruct e as [p|p]; cbn [by_harness negb foldl]; apply IH; [by apply edit_operator|]. by rewrite edit_operator_harness.
Qed.

Lemma operations_bounded ops p :
  operation_ok ops p = true -> (size ops <= maxActiveOperations)%nat -> (size (operations_after ops p) <= maxActiveOperations)%nat.
Proof.
  unfold operation_ok, operations_after. cbv zeta. intros Hok Hb.
  set (o := if ReconcileOperations p then ∅ else ops) in *.
  assert (Ho : (size o <= maxActiveOperations)%nat) by (subst o; destruct (ReconcileOperations p); [rewrite map_size_empty; lia|done]).
  assert (Hdel : forall m : gmap string ActiveOperation, (size m <= maxActiveOperations)%nat ->
    (size (if String.eqb (ClearOperation p) "" then m else delete (ClearOperation p) m) <= maxActiveOperations)%nat).
  { intros m Hm. destruct (String.eqb _ ""); [done|]. rewrite map_size_delete. destruct (m !! _); [etrans; [apply Nat.le_pred_l|done]|done]. }
  apply Hdel. destruct (AddOperation p) as [a|]; [|done]. destruct (o !! OpID a) eqn:Hl; [done|].
  apply bool_decide_eq_true in Hok. rewrite map_size_insert_None by done. lia.
Qed.

Lemma write_outcome w identity patch validates sv sv' t ms r :
  known sv -> exec (Write w identity patch validates) t r -> api_serves sv t ms sv' -> outcome w identity patch t ms r.
Proof.
  intros Hknown Hexec Hserved.
  unfold Write in Hexec. destruct (check_patch identity patch validates) as [u|m];
    [|destruct Hexec as [-> ->]; inversion Hserved; by apply outcome_silent].
  apply exec_bind in Hexec as (t1 & t2 & r1 & -> & H1 & H2).
  apply serves_app in Hserved as (m1 & m2 & sv1 & -> & Hs1 & Hs2).
  pose proof (attempts_outcome w identity patch validates 4 _ _ _ _ _ Hknown H1 Hs1) as Ho.
  assert (Hend : t2 = [] /\ r = match r1 with Ok _ => Ok tt | Err e => Err (if status_is_conflict e then StatusConflict else e) end)
    by (by destruct r1). destruct Hend as [-> ->]. inversion Hs2; subst. rewrite !app_nil_r.
  destruct r1 as [[]|e]; [exact Ho|]. destruct (status_is_conflict e) eqn:He; [|exact Ho].
  by destruct e as [| ? []|].
Qed.

(** ** Properties *)

(** A status write is atomic and happens at most once.  Whatever other clients
    write between the requests of the call, a successful write replaced exactly
    one version of the run, the authenticated incarnation, live, by that same
    version with exactly the patch applied, after the control pod was seen to be
    the run's only current one; a refused or conflicting write replaced nothing;
    and only a lost answer of the server leaves open whether it did. *)
Theorem status_write_atomic (w : StatusWriter) (identity : StatusIdentity) (patch : HarnessPatch) (validates : bool)
    (sv sv' : api_server) (t : trace statusE) (ms : list (CoderRun * CoderRun)) (r : result status_error unit)
    (Hknown : known sv) (Hexec : exec (Write w identity patch validates) t r) (Hserved : api_serves sv t ms sv') :
  outcome w identity patch t ms r.
Proof. by eapply write_outcome. Qed.


(** What a harness write does to a status: it is accepted exactly when no record
    of the same incarnation would change and the added operation is recorded
    already or fits; it then changes exactly the named fields, keeps at most 64
    operations, and leaves every other field alone. *)
Theorem harness_patch_exact (s s' : CoderRunStatus) (p : HarnessPatch) :
  (apply_harness s p = Ok s' <-> acceptable s p = true /\ s' = patched s p) /\
  harness_fields (patched s p) = harness_after s p /\
  st_ControlRequestAck (patched s p) = keep_o (st_ControlRequestAck s) (hp_ControlRequestAck p) /\
  operator_view (patched s p) = operator_view s /\
  (acceptable s p = true -> (size (ActiveOperations s) <= maxActiveOperations)%nat ->
   (size (ActiveOperations (patched s p)) <= maxActiveOperations)%nat).
Proof.
  split; [apply apply_harness_ok|]. split; [apply patched_fields|]. split; [reflexivity|]. split; [apply patched_view|].
  intros Hacc Hb. change (ActiveOperations (patched s p)) with (operations_after (ActiveOperations s) p).
  apply operations_bounded; [|done]. unfold acceptable in Hacc. by apply andb_true_iff in Hacc as [_ ?].
Qed.

(** ** Witnesses *)

Definition status_example_identity : StatusIdentity :=
  {| si_RunUID := "uid-1"; si_ControlPod := "run-1-control"; si_ControlPodUID := "c-1"; si_ControlServiceAccount := "control" |}.

Definition status_example_patch : HarnessPatch :=
  {| hp_Checkpoint := None; hp_Heartbeat := Some {| hb_CoordinatorPodUID := "c-1"; hb_Kind := "progress"; hb_At := 9 |}; hp_LastCommit := None;
     AddOperation := None; ClearOperation := ""; ReconcileOperations := false; hp_ControlRequestAck := None;
     TerminalResult := None; hp_NoChange := None; hp_ModelSurface := None |}.

Definition status_example_writer : StatusWriter := {| sw_namespace := "runs"; sw_runName := "run-1" |}.

(** A server that holds the live run. *)
Definition status_example_server (X : Type) (e : statusE X) (w : unit) : unit * X :=
  (w, match e in statusE Y return Y with
      | SReadRun _ _ => Ok auth_run
      | SReadPod _ name => Ok (auth_pod name "c-1" "coordinator")
      | SListPods _ => Ok [auth_pod "run-1-control" "c-1" "coordinator"; auth_pod "run-1-broker" "b-1" "broker"]
      | SValidate _ _ _ => Ok tt
      | SUpdate _ => Ok tt
      end).

Definition status_example_run := Effects.run status_example_server (Write status_example_writer status_example_identity status_example_patch false) tt.

Lemma status_write_atomic_witness :
  exists before after, applied status_example_identity status_example_patch before after.
Proof.
  pose proof (run_exec status_example_server (Write status_example_writer status_example_identity status_example_patch false) tt) as H.
  fold status_example_run in H.
  assert (Hs : exists ms sv', api_serves {| live := auth_run; versions := ["1"] |} status_example_run.1.2 ms sv').
  { vm_compute status_example_run. do 2 eexists. cbn [fst snd].
    eapply as_cons; [apply rtc_refl|split; [reflexivity|split; [reflexivity|intros x [= <-]; reflexivity]]|].
    eapply as_cons; [apply rtc_refl|split; reflexivity|]. eapply as_cons; [apply rtc_refl|split; reflexivity|].
    eapply as_cons; [apply rtc_refl| |apply as_nil].
    split; [reflexivity|]. exists "2". split; [apply (bool_decide_eq_true_1 ("2" ∉ ["1"])); reflexivity|split; reflexivity]. }
  destruct Hs as (ms & sv' & Hs).
  pose proof (status_write_atomic status_example_writer status_example_identity status_example_patch false
    {| live := auth_run; versions := ["1"] |} sv' _ ms _ (list_elem_of_here _ _) H Hs) as Ho.
  replace status_example_run.2 with (@Ok status_error unit tt) in Ho by (vm_compute; reflexivity).
  destruct Ho as (b & a & _ & Ha & _). exists b, a. exact Ha.
Defined.

Lemma harness_patch_exact_witness :
  operator_view (patched (Status auth_run) status_example_patch) = operator_view (Status auth_run) /\
  apply_harness (Status auth_run) status_example_patch = Ok (patched (Status auth_run) status_example_patch).
Proof.
  destruct (harness_patch_exact (Status auth_run) (patched (Status auth_run) status_example_patch) status_example_patch)
    as ([_ Hok] & _ & _ & Hview & _).
  split; [exact Hview|]. apply Hok. split; reflexivity.
Defined.
