(* ===== verification/BrokerServer.v ===== *)
(** * The broker's HTTP API (internal/broker/server.go, capabilities.go)

    The routes trusted control calls: each handler authenticates the request
    anew, decodes its body, and runs one operation of the policy engine; a
    bundle import re-observes the pinned refs under its own lock before the
    importer runs.  The engine is state passed from request to request (its own
    lock serialises the operations).

    The identity backend, the forge, the file system, the importer, the body
    reader with its JSON decoder and the request's context are the environment:
    they answer arbitrarily.  [net/url]'s path escaping and the part of
    [http.ServeMux] these routes use are modelled; deadlines, headers other than
    those read and the TLS listener are not. *)

From S2P Require Import Prelude Effects GoStrings GoTime Sha256 Run StatusPatch Kube World Pods Linkage Criteria Policy Binding ForgeAdapter GitTransport BrokerAuth.
Local Open Scope string_scope.
Local Open Scope Z_scope.

(** ** Paths *)

Definition PathPublish : string := "/v1/publication".
Definition PathImportBundle : string := "/v1/bundles/import".
Definition PathSnapshot : string := "/v1/git/snapshot".
Definition PathCreatePR : string := "/v1/pull-requests".
Definition PathUpdatePR : string := "/v1/pull-requests/update".
Definition PathCapabilities : string := "/v1/capabilities".

(** [strings.Contains]. *)
Fixpoint Contains (s sub : string) : bool :=
  HasPrefix s sub || match s with "" => false | String _ r => Contains r sub end.

Definition backslash : string := str1 92.

Definition in_bytes (l : list Z) (c : ascii) : bool := existsb (Z.eqb (byte_of c)) l.

(** [url.shouldEscape] in a path: letters, digits, [-_.~] and [$&+,/:;=@] stay. *)
Definition shouldEscape (c : ascii) : bool :=
  let b := byte_of c in
  if ((97 <=? b) && (b <=? 122)) || ((65 <=? b) && (b <=? 90)) || ((48 <=? b) && (b <=? 57)) then false else
  if in_bytes [45; 95; 46; 126] c then false else
  if in_bytes [36; 38; 43; 44; 47; 58; 59; 61; 63; 64] c then b =? 63 else true.

Definition upper_hex (d : Z) : ascii := if d <? 10 then chr (48 + d) else chr (55 + d).

Fixpoint escape (s : string) : string :=
  match s with
  | "" => ""
  | String c r =>
      if shouldEscape c
      then String (chr 37) (String (upper_hex (byte_of c / 16)) (String (upper_hex (byte_of c mod 16)) (escape r)))
      else String c (escape r)
  end.

(** [url.PathUnescape]. *)
Fixpoint PathUnescape (s : string) : option string :=
  match s with
  | "" => Some ""
  | String c r =>
      if byte_of c =? 37 then
        match r with
        | String a (String b r') =>
            match hex_value a, hex_value b with
            | Some x, Some y => rest ← PathUnescape r'; Some (String (chr (16 * x + y)) rest)
            | _, _ => None
            end
        | _ => None
        end
      else rest ← PathUnescape r; Some (String c rest)
  end.

(** [url.validEncoded] in a path. *)
Fixpoint validEncoded (s : string) : bool :=
  match s with
  | "" => true
  | String c r =>
      (in_bytes [33; 36; 38; 39; 40; 41; 42; 43; 44; 59; 61; 58; 64; 91; 93; 37] c || negb (shouldEscape c)) && validEncoded r
  end.

(** ** Requests and replies *)

Record Request := {
  Method : string;
  Path : string;
  RawPath : string;
  RawQuery : string;
  ContentLength : Z;
  HasBody : bool;
  Authorization : string;
  ExpectedTipHeader : string;
  ProposedOIDHeader : string
}.

Definition EscapedPath (r : Request) : string :=
  if negb (String.eqb (RawPath r) "") && validEncoded (RawPath r) && bool_decide (PathUnescape (RawPath r) = Some (Path r))
  then RawPath r
  else if String.eqb (Path r) "*" then "*" else escape (Path r).

(** A failed body read: the read deadline passed, or anything else. *)
Inductive read_error := DeadlineExceeded | BadBody.

Inductive reply :=
| Failure (code : Z) (text : string)
| Redirected
| PublishedReply (r : PublicationResult)
| CreatedReply (pr : PullRequestState) (coverage : option string)
| UpdatedReply
| ImportedReply
| SnapshotReply (s : EngineSnapshot)
| CapabilityReply
| ViolationReply (e : CriteriaError).

Inductive serverE : Type -> Type :=
| OnAuth X (e : authE X) : serverE X
| OnEngine X (e : brokerE X) : serverE X
| ContextErr : serverE bool
| ReadPublish : serverE (result read_error (string * string))
| ReadCreate : serverE (result read_error (string * string * string * bool))
| ReadUpdate : serverE (result read_error (string * string))
| ReadAll (limit : Z) : serverE (result read_error (list Z))
| Lstat (path : string) : serverE (option (bool * bool))     (* a directory, a symbolic link *)
| CreateTemp (dir : string) : serverE (option string)
| ChmodFile (path : string) : serverE bool
| WriteFile (path : string) (data : list Z) : serverE bool
| CloseFile (path : string) : serverE bool
| RemoveFile (path : string) : serverE unit
| LockImport : serverE unit
| UnlockImport : serverE unit
| ImportBundle (path proposedOID expectedTip : string) : serverE bool
| MkdirAll (path : string) : serverE bool
| LoadX509KeyPair (cert key : string) : serverE bool.

Arguments OnAuth {X} e.
Arguments OnEngine {X} e.

Definition on_auth {A} : prog authE A -> prog serverE A := lift (@OnAuth).
Definition on_engine {A} : prog brokerE A -> prog serverE A := lift (@OnEngine).

(** The engine after the request, and the reply. *)
Abbreviation handler := (prog serverE (PolicyEngine * reply)).

Record Server := {
  sv_authenticator : Authenticator;
  sv_importer : bool;
  sv_snapshot : bool;
  sv_scratchDir : string;
  sv_capabilities : bool
}.

(** A directory, not a symbolic link. *)
Definition private_dir (info : option (bool * bool)) : bool :=
  match info with Some (dir, link) => dir && negb link | None => false end.

(** [NewServer]; the configuration's policy and authenticator are present by
    construction. *)
Definition NewServer (s : Server) (certFile keyFile : string) : prog serverE (result string Server) :=
  let tls : prog serverE (result string Server) :=
    if String.eqb certFile "" || String.eqb keyFile "" then Ret (Err "broker startup requires TLS certificate and key") else
    ok ← call (LoadX509KeyPair certFile keyFile);
    Ret (if ok : bool then Ok s else Err "load broker TLS identity") in
  if negb (sv_importer s) then tls else
  if negb (IsAbs (sv_scratchDir s)) || negb (String.eqb (TrimSpace (sv_scratchDir s)) (sv_scratchDir s)) then
    Ret (Err "broker startup requires an absolute private scratch directory for bundle import") else
  ok ← call (MkdirAll (sv_scratchDir s));
  if negb ok then Ret (Err "broker startup cannot create private scratch directory") else
  info ← call (Lstat (sv_scratchDir s));
  if negb (private_dir info) then Ret (Err "broker startup requires a non-symlink scratch directory private to the broker") else
  ok ← call (ChmodFile (sv_scratchDir s));
  if negb ok then Ret (Err "broker startup cannot secure private scratch directory") else tls.

Section Server.
Variable s : Server.

(** ** Handlers *)

Definition denyBodyRead (e : read_error) : reply :=
  match e with DeadlineExceeded => Failure 408 "request timed out" | BadBody => Failure 400 "invalid request" end.

(** The body is decoded only behind the shape checks. *)
Definition decodeJSONBody {T} (r : Request) (read : serverE (result read_error T)) : prog serverE (result read_error T) :=
  if negb (String.eqb (RawQuery r) "") || (ContentLength r =? 0) then Ret (Err BadBody) else call read.

Definition unauthorized : reply := Failure 401 "unauthorized".

Definition authenticate (e : PolicyEngine) (r : Request) : prog serverE (result reply Identity) :=
  let value := Authorization r in
  let token := TrimPrefix value "Bearer " in
  if negb (HasPrefix value "Bearer ") || String.eqb (TrimSpace token) "" || negb (String.eqb (TrimSpace token) token) then
    Ret (Err unauthorized) else
  id ← on_auth (Authenticate (sv_authenticator s) token);
  match id with
  | Err (IdentityUnavailable _) => Ret (Err (Failure 503 "identity backend unavailable"))
  | Err (Refused _) => Ret (Err unauthorized)
  | Ok id =>
      if String.eqb (id_RunUID id) "" || negb (String.eqb (id_RunUID id) (RunUID (policy e))) then Ret (Err unauthorized)
      else Ret (Ok id)
  end.

Definition authenticated (e : PolicyEngine) (r : Request) (k : handler) : handler :=
  id ← authenticate e r;
  match id with Err rep => Ret (e, rep) | Ok _ => k end.

Definition operation_denied : reply := Failure 422 "operation denied".

Definition respond {A} (value : A -> reply) (r : result string A) : reply :=
  match r with Ok a => value a | Err _ => operation_denied end.

Definition publish (e : PolicyEngine) (r : Request) : handler :=
  authenticated e r (
    body ← decodeJSONBody r ReadPublish;
    match body with
    | Err err => Ret (e, denyBodyRead err)
    | Ok (expected, proposed) =>
        out ← on_engine (Publish e {| req_RunUID := RunUID (policy e); ExpectedWorkOID := expected; ProposedOID := proposed |});
        Ret (out.1, respond PublishedReply out.2)
    end).

(** [errors.As] finds the criterion violation in the chain. *)
Definition respond_created (r : created) : reply :=
  match r with
  | Ok (pr, report) => CreatedReply pr (match report with Some rep => Some (Coverage rep) | None => None end)
  | Err (CrCriteria _ (CCriteria v)) => ViolationReply v
  | Err _ => operation_denied
  end.

Definition createPR (e : PolicyEngine) (r : Request) : handler :=
  authenticated e r (
    body ← decodeJSONBody r ReadCreate;
    match body with
    | Err err => Ret (e, denyBodyRead err)
    | Ok (oid, title, text, draft) =>
        out ← on_engine (CreatePullRequest e oid title text draft);
        Ret (e, respond_created out)
    end).

Definition updatePR (e : PolicyEngine) (r : Request) : handler :=
  authenticated e r (
    body ← decodeJSONBody r ReadUpdate;
    match body with
    | Err err => Ret (e, denyBodyRead err)
    | Ok (title, text) =>
        out ← on_engine (UpdateFixPR e {| up_Title := title; up_Body := text; up_Draft := None |});
        Ret (e, respond (fun _ => UpdatedReply) out)
    end).

Definition snapshotForControl (e : PolicyEngine) (r : Request) : handler :=
  authenticated e r (
    if negb (String.eqb (RawQuery r) "") || (HasBody r && negb (ContentLength r =? 0)) then Ret (e, Failure 400 "invalid request") else
    snap ← on_engine (SnapshotForControl e);
    Ret (e, match snap with
            | Ok snap => SnapshotReply snap
            | Err ErrSnapshotTipMoved => Failure 503 "snapshot race, retry"
            | Err (SnapshotFailed _) => operation_denied
            end)).

Definition capabilityHandler (e : PolicyEngine) (r : Request) : handler := authenticated e r (Ret (e, CapabilityReply)).

(** ** Bundle import *)

Definition maxBundleRequestBytes : Z := Z.shiftl 65 20.

(** What the observation must show for an import on top of [expected]. *)
Definition import_tip_ok (e : PolicyEngine) (expected : string) (o : observation) : bool :=
  let '(base, work, pr) := o in
  let p := policy e in
  if negb (is_ok (checkBase p base)) || negb (is_ok (checkDestination p work)) then false else
  if negb (is_ok (checkPR e pr (rs_OID work) (confirmed e))) then false else
  if String.eqb expected "" then WorkInitiallyAbsent p && negb (Exists work) else
  if negb (Exists work) || negb (String.eqb (rs_OID work) expected) then false else
  String.eqb expected (WorkAnchorOID p) || String.eqb expected (HeadAnchorOID p) || String.eqb expected (confirmed e).

Definition validImportTip (e : PolicyEngine) (expected : string) : prog serverE bool :=
  ended ← call ContextErr;
  if ended : bool then Ret false else
  o ← on_engine (observe (policy e));
  Ret (match o with Err _ => false | Ok o => import_tip_ok e expected o end).

Definition canceled : reply := Failure 408 "request canceled".

(** With the bundle in the temporary file at [path]: the last tip check and the
    import. *)
Definition import_file (e : PolicyEngine) (r : Request) (path : string) : prog serverE reply :=
  ok ← validImportTip e (ExpectedTipHeader r);
  if negb ok then Ret (Failure 422 "import denied") else
  done ← call (ImportBundle path (ProposedOIDHeader r) (ExpectedTipHeader r));
  if negb done then Ret (Failure 422 "bundle import failed") else
  ended ← call ContextErr;
  Ret (if ended : bool then canceled else ImportedReply).

(** Under the import lock: the temporary file lives for this block only. *)
Definition import_locked (e : PolicyEngine) (r : Request) (bundle : list Z) : prog serverE reply :=
  ended ← call ContextErr;
  if ended : bool then Ret canceled else
  info ← call (Lstat (sv_scratchDir s));
  if negb (private_dir info) then Ret (Failure 500 "bundle import unavailable") else
  file ← call (CreateTemp (sv_scratchDir s));
  match file with
  | None => Ret (Failure 500 "bundle import failed")
  | Some path =>
      moded ← call (ChmodFile path);
      written ← (if moded : bool then call (WriteFile path bundle) else Ret false);
      closed ← call (CloseFile path);
      rep ← (if negb written || negb closed then Ret (Failure 422 "bundle import failed") else import_file e r path);
      _ ← call (RemoveFile path);
      Ret rep
  end.

(** The checks between the body and the lock. *)
Definition import_body (e : PolicyEngine) (r : Request) (bundle : list Z) : prog serverE reply :=
  if match bundle with [] => true | _ => false end then Ret (Failure 400 "invalid request") else
  if negb (validOID (ProposedOIDHeader r)) ||
     (negb (String.eqb (ExpectedTipHeader r) "") && negb (validOID (ExpectedTipHeader r))) then
    Ret (Failure 400 "invalid request") else
  ok ← validImportTip e (ExpectedTipHeader r);
  if negb ok then Ret (Failure 422 "import denied") else
  ended ← call ContextErr;
  if ended : bool then Ret canceled else
  _ ← call LockImport;
  rep ← import_locked e r bundle;
  _ ← call UnlockImport;
  Ret rep.

Definition importBundle (e : PolicyEngine) (r : Request) : handler :=
  authenticated e r (
    info ← call (Lstat (sv_scratchDir s));
    if negb (private_dir info) then Ret (e, Failure 500 "bundle import unavailable") else
    if negb (String.eqb (RawQuery r) "") || (ContentLength r =? 0) || (maxBundleRequestBytes <? ContentLength r) then
      Ret (e, Failure 400 "invalid request") else
    bundle ← call (ReadAll maxBundleRequestBytes);
    match bundle with
    | Err err => Ret (e, denyBodyRead err)
    | Ok bundle => rep ← import_body e r bundle; Ret (e, rep)
    end).

(** ** Routing *)

Inductive route := RPublish | RImport | RSnapshot | RCapabilities | RCreate | RUpdate.

Definition routes : list (string * string * route) :=
  [("POST", PathPublish, RPublish)] ++
  (if sv_importer s then [("POST", PathImportBundle, RImport)] else []) ++
  (if sv_snapshot s then [("GET", PathSnapshot, RSnapshot)] else []) ++
  (if sv_capabilities s then [("GET", PathCapabilities, RCapabilities)] else []) ++
  [("POST", PathCreatePR, RCreate); ("PATCH", PathUpdatePR, RUpdate)].

(** A GET pattern also serves HEAD. *)
Definition serves (method : string) (entry : string * string * route) : bool :=
  String.eqb entry.1.1 method || (String.eqb entry.1.1 "GET" && String.eqb method "HEAD").

Definition at_path (path : string) (entry : string * string * route) : bool := String.eqb entry.1.2 path.

Definition run_route (rt : route) : PolicyEngine -> Request -> handler :=
  match rt with
  | RPublish => publish | RImport => importBundle | RSnapshot => snapshotForControl
  | RCapabilities => capabilityHandler | RCreate => createPR | RUpdate => updatePR
  end.

(** [ServeMux] on a path that needs no cleaning but for its leading slash. *)
Definition mux_ServeHTTP (e : PolicyEngine) (r : Request) : handler :=
  if String.eqb (Path r) "*" then Ret (e, Failure 400 "") else
  if negb (String.eqb (Method r) "CONNECT") && negb (HasPrefix (Path r) "/") then Ret (e, Redirected) else
  match List.find (fun entry => at_path (Path r) entry && serves (Method r) entry) routes with
  | Some entry => run_route entry.2 e r
  | None => Ret (e, if existsb (at_path (Path r)) routes then Failure 405 "Method Not Allowed" else Failure 404 "404 page not found")
  end.

(** A spelling of the path the mux would redirect, or an escaped one. *)
Definition uncanonical (r : Request) : bool :=
  match PathUnescape (EscapedPath r) with None => true | Some decoded => negb (String.eqb decoded (Path r)) end ||
  negb (String.eqb (RawPath r) "") || Contains (Path r) "//" || Contains (Path r) backslash ||
  Contains (Path r) "/../" || HasSuffix (Path r) "/.." || Contains (Path r) "/./" || HasSuffix (Path r) "/.".

Definition ServeHTTP (e : PolicyEngine) (r : Request) : handler :=
  if uncanonical r then Ret (e, Failure 404 "404 page not found") else mux_ServeHTTP e r.
End Server.

(** ** Paths: lemmas *)

Lemma unescape_byte c r :
  PathUnescape (if shouldEscape c
                then String (chr 37) (String (upper_hex (byte_of c / 16)) (String (upper_hex (byte_of c mod 16)) r))
                else String c r) = rest ← PathUnescape r; Some (String c rest).
Proof. destruct c as [[] [] [] [] [] [] [] []]; reflexivity. Qed.

Lemma unescape_escape p : PathUnescape (escape p) = Some p.
Proof.
  induction p as [|c p IH]; [done|]. cbn [escape]. rewrite unescape_byte, IH. reflexivity.
Qed.

(** The escaped path always decodes to the path. *)
Lemma escaped_path_decodes r : PathUnescape (EscapedPath r) = Some (Path r).
Proof.
  unfold EscapedPath. destruct (_ && _ && _) eqn:H.
  - apply andb_true_iff in H as [_ H]. by apply bool_decide_eq_true in H.
  - destruct (String.eqb_spec (Path r) "*") as [->|]; [done|]. apply unescape_escape.
Qed.

(** ** The engine's own history *)

Definition engine_of (ev : event serverE) : option (event brokerE) :=
  match ev with
  | Ev op ans =>
      match op in serverE X return X -> option (event brokerE) with
      | OnEngine e => fun x => Some (Ev e x)
      | _ => fun _ => None
      end ans
  end.

Definition engine_trace (t : trace serverE) : trace brokerE := omap engine_of t.

Lemma engine_trace_app t1 t2 : engine_trace (t1 ++ t2)%list = (engine_trace t1 ++ engine_trace t2)%list.
Proof. apply omap_app. Qed.

Lemma engine_trace_engine t : engine_trace (inj_event (@OnEngine) <$> t) = t.
Proof. induction t as [|[X op ans] t IH]; [done|]. cbn. f_equal. exact IH. Qed.

Lemma engine_trace_auth t : engine_trace (inj_event (@OnAuth) <$> t) = [].
Proof. induction t as [|[X op ans] t IH]; [done|]. exact IH. Qed.

(** Operations one after the other. *)
Inductive engine_steps (e : PolicyEngine) : trace brokerE -> PolicyEngine -> Prop :=
| es_nil : engine_steps e [] e
| es_cons t e1 t' e2 : step e t e1 -> engine_steps e1 t' e2 -> engine_steps e (t ++ t')%list e2.

Lemma engine_steps_one e t e' : step e t e' -> engine_steps e t e'.
Proof. intros H. rewrite <- (app_nil_r t). econstructor; [exact H|constructor]. Qed.

Lemma engine_steps_app e t1 e1 t2 e2 : engine_steps e t1 e1 -> engine_steps e1 t2 e2 -> engine_steps e (t1 ++ t2)%list e2.
Proof. induction 1 as [|e t e1' t' e2' Hs _ IH]; [done|]. intros H. rewrite <- app_assoc. econstructor; eauto. Qed.

Lemma engine_steps_reachable p h e t e' : reachable p h e -> engine_steps e t e' -> reachable p (h ++ t)%list e'.
Proof.
  intros Hr Hs. revert h Hr. induction Hs as [|e t e1 t' e2 Hs _ IH]; intros h Hr; [by rewrite app_nil_r|].
  rewrite app_assoc. apply IH. by eapply reach_step.
Qed.

(** ** Guarded handlers *)

(** The requests that act: on the engine's environment or on the repository. *)
Definition acting (ev : event serverE) : bool :=
  match ev_op ev with OnEngine _ => true | ImportBundle _ _ _ => true | _ => false end.

(** The request was authenticated for the policy's run, ahead of everything it did. *)
Record authorised (s : Server) (p : Policy) (r : Request) (id : Identity) (t1 : trace authE) : Prop := {
  az_token : exists token, Authorization r = "Bearer " ++ token /\ exec (Authenticate (sv_authenticator s) token) t1 (Ok id);
  az_run : id_RunUID id = RunUID p /\ RunUID p <> ""
}.

Lemma bearer_split value : HasPrefix value "Bearer " = true -> value = "Bearer " ++ TrimPrefix value "Bearer ".
Proof. apply prefix_app. Qed.

(** What ended an unauthenticated request. *)
Inductive refused_by (s : Server) (r : Request) (t : trace serverE) (rep : reply) : Prop :=
| rb_malformed : t = [] -> rep = unauthorized -> refused_by s r t rep
| rb_refused token t1 m : t = (inj_event (@OnAuth) <$> t1)%list -> exec (Authenticate (sv_authenticator s) token) t1 (Err (Refused m)) ->
    rep = unauthorized -> refused_by s r t rep
| rb_foreign token t1 id : t = (inj_event (@OnAuth) <$> t1)%list -> exec (Authenticate (sv_authenticator s) token) t1 (Ok id) ->
    rep = unauthorized -> refused_by s r t rep
| rb_unavailable token t1 m : t = (inj_event (@OnAuth) <$> t1)%list ->
    exec (Authenticate (sv_authenticator s) token) t1 (Err (IdentityUnavailable m)) ->
    rep = Failure 503 "identity backend unavailable" -> refused_by s r t rep.

Lemma authenticated_exec s e r k t e' rep :
  exec (authenticated s e r k) t (e', rep) ->
  (e' = e /\ refused_by s r t rep) \/
  exists id t1 t2, t = ((inj_event (@OnAuth) <$> t1) ++ t2)%list /\ authorised s (policy e) r id t1 /\ exec k t2 (e', rep).
Proof.
  unfold authenticated. intros (ta & t2 & id & -> & Ha & Hk)%exec_bind. unfold authenticate in Ha. cbv zeta in Ha.
  destruct (HasPrefix (Authorization r) "Bearer ") eqn:Hp; cbn [negb orb] in Ha.
  2: { destruct Ha as [-> ->]. destruct Hk as [-> [= -> ->]]. left. split; [done|by apply rb_malformed]. }
  destruct (_ || _) in Ha. { destruct Ha as [-> ->]. destruct Hk as [-> [= -> ->]]. left. split; [done|by apply rb_malformed]. }
  apply exec_bind in Ha as (t1 & t1' & r1 & -> & Hauth & Ha). apply lift_exec in Hauth as (ta & -> & Hauth).
  destruct r1 as [i|[m|m]].
  - destruct (String.eqb_spec (id_RunUID i) "") as [He|He]; cbn [orb] in Ha.
    { destruct Ha as [-> ->]. destruct Hk as [-> [= -> ->]]. left. split; [done|]. rewrite !app_nil_r. by eapply rb_foreign. }
    destruct (String.eqb_spec (id_RunUID i) (RunUID (policy e))) as [Hr|Hr]; cbn [negb] in Ha; destruct Ha as [-> ->].
    + right. exists i, ta, t2. rewrite app_nil_r. split; [done|]. split; [|done]. split; [|by rewrite <- Hr].
      eexists. split; [by apply bearer_split|exact Hauth].
    + destruct Hk as [-> [= -> ->]]. left. split; [done|]. rewrite !app_nil_r. by eapply rb_foreign.
  - destruct Ha as [-> ->]. destruct Hk as [-> [= -> ->]]. left. split; [done|]. rewrite !app_nil_r. by eapply rb_refused.
  - destruct Ha as [-> ->]. destruct Hk as [-> [= -> ->]]. left. split; [done|]. rewrite !app_nil_r. by eapply rb_unavailable.
Qed.

(** What a handler does to the engine. *)
Definition steps_only (e : PolicyEngine) (k : handler) : Prop :=
  wp k (fun t out => engine_steps e (engine_trace t) out.1).

(** A program that leaves the engine alone but may observe. *)
Definition observing {A} (e : PolicyEngine) (k : prog serverE A) : Prop :=
  wp k (fun t _ => engine_steps e (engine_trace t) e).

Lemma observing_ret {A} e (a : A) : observing e (Ret a).
Proof. constructor. Qed.

Lemma observing_bind {A B} e (p : prog serverE A) (f : A -> prog serverE B) :
  observing e p -> (forall a, observing e (f a)) -> observing e (p ≫= f).
Proof.
  intros Hp Hf. apply wp_bind. eapply wp_mono; [|exact Hp]. intros t a Ht. eapply wp_mono; [|apply Hf].
  intros t' b Ht'. cbn beta in *. rewrite engine_trace_app. by eapply engine_steps_app.
Qed.

Lemma observing_call {A} e (op : serverE A) : (forall x, engine_of (Ev op x) = None) -> observing e (call op).
Proof. intros H x. cbn [wp]. unfold engine_trace. cbn [omap list_omap]. rewrite H. constructor. Qed.

Lemma observing_observe {A} e (f : result string observation -> A) :
  observing e (o ← on_engine (observe (policy e)); Ret (f o)).
Proof.
  apply wp_bind. apply wp_exec. intros t o (t' & -> & Hex)%lift_exec. cbn [wp].
  rewrite engine_trace_app, engine_trace_engine, app_nil_r. apply engine_steps_one. by eapply step_observe.
Qed.

Lemma engine_op_steps {A} e (p : prog brokerE A) (f : A -> PolicyEngine * reply) :
  (forall t a, exec p t a -> step e t (f a).1) -> steps_only e (out ← on_engine p; Ret (f out)).
Proof.
  intros H. apply wp_bind. apply wp_exec. intros t a (t' & -> & Hex)%lift_exec. cbn [wp].
  rewrite engine_trace_app, engine_trace_engine, app_nil_r. apply engine_steps_one. eauto.
Qed.

Lemma observing_steps e (k : prog serverE reply) : observing e k -> steps_only e (rep ← k; Ret (e, rep)).
Proof.
  intros H. apply wp_bind. eapply wp_mono; [|exact H]. intros t rep Ht. cbn [wp]. by rewrite app_nil_r.
Qed.

Lemma steps_only_ret e rep : steps_only e (Ret (e, rep)).
Proof. constructor. Qed.

Lemma steps_only_bind {A} e (p : prog serverE A) (f : A -> handler) :
  observing e p -> (forall a, steps_only e (f a)) -> steps_only e (p ≫= f).
Proof.
  intros Hp Hf. apply wp_bind. eapply wp_mono; [|exact Hp]. intros t a Ht. eapply wp_mono; [|apply Hf].
  intros t' b Ht'. cbn beta in *. rewrite engine_trace_app. by eapply engine_steps_app.
Qed.

Lemma observing_decode {T} e r (op : serverE (result read_error T)) :
  (forall x, engine_of (Ev op x) = None) -> observing e (decodeJSONBody r op).
Proof. intros H. unfold decodeJSONBody. destruct (_ || _); [apply observing_ret|by apply observing_call]. Qed.

Lemma observing_tip e tip : observing e (validImportTip e tip).
Proof.
  unfold validImportTip. apply observing_bind; [by apply observing_call|]. intros []; [apply observing_ret|].
  apply (observing_observe e (fun o => match o with Err _ => false | Ok o => import_tip_ok e tip o end)).
Qed.

(** One step of a program that only observes. *)
Ltac observing_step :=
  match goal with
  | |- observing _ (Ret _) => apply observing_ret
  | |- observing _ (call _) => by apply observing_call
  | |- observing _ (validImportTip _ _) => apply observing_tip
  | |- observing _ (if ?b then _ else _) => destruct b
  | |- observing _ (match ?o with Some _ => _ | None => _ end) => destruct o
  | |- observing _ (_ ≫= _) => apply observing_bind; [|intros ?]
  | |- observing _ (mbind _ _) => apply observing_bind; [|intros ?]
  end.

Lemma observing_import s e r bundle : observing e (import_body s e r bundle).
Proof. unfold import_body, import_locked, import_file. repeat observing_step. Qed.

Lemma import_steps s e r :
  steps_only e (
    info ← call (Lstat (sv_scratchDir s));
    if negb (private_dir info) then Ret (e, Failure 500 "bundle import unavailable") else
    if negb (String.eqb (RawQuery r) "") || (ContentLength r =? 0) || (maxBundleRequestBytes <? ContentLength r) then
      Ret (e, Failure 400 "invalid request") else
    bundle ← call (ReadAll maxBundleRequestBytes);
    match bundle with
    | Err err => Ret (e, denyBodyRead err)
    | Ok bundle => rep ← import_body s e r bundle; Ret (e, rep)
    end).
Proof.
  apply steps_only_bind; [by apply observing_call|]. intros info. destruct (negb _); [apply steps_only_ret|].
  destruct (_ || _); [apply steps_only_ret|]. apply steps_only_bind; [by apply observing_call|].
  intros [b|err]; [|apply steps_only_ret]. apply observing_steps, observing_import.
Qed.

(** Every route is authenticated, and steps the engine by whole operations. *)
Lemma route_guarded s rt e r : exists k, run_route s rt e r = authenticated s e r k /\ steps_only e k.
Proof.
  destruct rt; cbn [run_route]; eexists; (split; [reflexivity|]).
  - apply steps_only_bind; [by apply observing_decode|]. intros [[expected proposed]|err]; [|apply steps_only_ret].
    apply (engine_op_steps e _ (fun out => (out.1, respond PublishedReply out.2))). intros t [e1 out] Hex. by eapply step_publish.
  - apply import_steps.
  - destruct (_ || _); [apply steps_only_ret|].
    apply (engine_op_steps e _ (fun snap => (e, match snap with
      | Ok snap => SnapshotReply snap | Err ErrSnapshotTipMoved => Failure 503 "snapshot race, retry"
      | Err (SnapshotFailed _) => operation_denied end))). intros t out Hex. by eapply step_snapshot.
  - apply steps_only_ret.
  - apply steps_only_bind; [by apply observing_decode|]. intros [[[[oid title] text] draft]|err]; [|apply steps_only_ret].
    apply (engine_op_steps e _ (fun out => (e, respond_created out))). intros t out Hex. by eapply step_create.
  - apply steps_only_bind; [by apply observing_decode|]. intros [[title text]|err]; [|apply steps_only_ret].
    apply (engine_op_steps e _ (fun out => (e, respond (fun _ => UpdatedReply) out))). intros t out Hex. by eapply step_update.
Qed.

(** One request: nothing was done, or it was authorised first. *)
Lemma request_exec s e r t e' rep :
  exec (ServeHTTP s e r) t (e', rep) ->
  (e' = e /\ forallb (fun ev => negb (acting ev)) t = true) \/
  exists id t1 t2, t = ((inj_event (@OnAuth) <$> t1) ++ t2)%list /\ authorised s (policy e) r id t1 /\
    engine_steps e (engine_trace t2) e'.
Proof.
  unfold ServeHTTP, mux_ServeHTTP. intros Hex.
  destruct (uncanonical r); [destruct Hex as [-> [= -> ->]]; by left|].
  destruct (String.eqb (Path r) "*"); [destruct Hex as [-> [= -> ->]]; by left|].
  destruct (negb _ && _); [destruct Hex as [-> [= -> ->]]; by left|].
  destruct (List.find _ _) as [entry|]; [|destruct Hex as [-> [= -> ->]]; by left].
  destruct (route_guarded s entry.2 e r) as (k & Hk & Hsteps). rewrite Hk in Hex.
  destruct (authenticated_exec _ _ _ _ _ _ _ Hex) as [[-> Hr]|(id & t1 & t2 & -> & Haz & Hex2)].
  - left. split; [done|].
    assert (Hauth : forall u : trace authE, forallb (fun ev => negb (acting ev)) (inj_event (@OnAuth) <$> u) = true).
    { intros u. induction u as [|[X op ans] u IH]; [done|exact IH]. }
    destruct Hr as [->|? ? ? -> _ _|? ? ? -> _ _|? ? ? -> _ _]; [done|apply Hauth..].
  - right. exists id, t1, t2. split; [done|]. split; [done|].
    exact (proj1 (wp_exec _ _) Hsteps t2 (e', rep) Hex2).
Qed.

(** ** The whole process

    The server over the engine's environment: the forge adapter over the
    provider and the git transport. *)
Inductive systemE : Type -> Type :=
| Host X (e : serverE X) : systemE X
| Process X (e : processE X) : systemE X.
Arguments Host {X} e.
Arguments Process {X} e.

Definition host {X} (e : serverE X) (a : ForgeAdapter) : prog systemE (ForgeAdapter * X) :=
  x ← call (Host e); Ret (a, x).

Definition serve_server (valid_url : string -> bool) (t : gitTransport) (X : Type) (e : serverE X) (a : ForgeAdapter) :
    prog systemE (ForgeAdapter * X) :=
  match e in serverE Y return prog systemE (ForgeAdapter * Y) with
  | OnEngine e => r ← lift (@Process) (interp (serve_stack valid_url t) (serve _ e a) tt); Ret r.2
  | e => host e a
  end.

(** One request as the process performs it. *)
Definition process_request (valid_url : string -> bool) (t : gitTransport) (s : Server) (e : PolicyEngine) (a : ForgeAdapter) (r : Request) :
    prog systemE (ForgeAdapter * (PolicyEngine * reply)) :=
  interp (serve_server valid_url t) (ServeHTTP s e r) a.

Record exchange := { x_request : Request; x_trace : trace systemE; x_reply : reply }.

(** A broker process: built for its policy, then any requests in any order. *)
Inductive server_history (valid_url : string -> bool) (t : gitTransport) (s : Server) :
    list exchange -> PolicyEngine -> ForgeAdapter -> Prop :=
| sh_start snap e facets base work a :
    newPolicyEngine (gt_policy t) snap = Ok e -> NewForgeAdapter (gt_policy t) facets base work = Ok a ->
    server_history valid_url t s [] e a
| sh_request xs e a r tr e' a' rep :
    server_history valid_url t s xs e a -> exec (process_request valid_url t s e a r) tr (a', (e', rep)) ->
    server_history valid_url t s (xs ++ [{| x_request := r; x_trace := tr; x_reply := rep |}])%list e' a'.

(** What every event of the process satisfies. *)
Definition system_ok (t : gitTransport) (ev : event systemE) : Prop :=
  match ev with
  | Ev op ans =>
      match op in systemE X return X -> Prop with
      | Host _ => fun _ => True
      | Process e => fun x => process_ok (gt_policy t) (gt_endpoints t) (Ev e x)
      end ans
  end.

(** A request of the process to a forge, to git or to the bundle importer. *)
Definition system_acts (ev : event systemE) : bool :=
  match ev_op ev with
  | Process _ => true
  | Host e => match e with ImportBundle _ _ _ => true | _ => false end
  end.

Definition auth_event (ev : event authE) : event systemE := inj_event (@Host) (inj_event (@OnAuth) ev).

Lemma host_exec {X} (e : serverE X) a tr a' x : exec (host e a) tr (a', x) -> tr = [Ev (Host e) x] /\ a' = a.
Proof. intros (y & t' & -> & -> & [= -> ->]). done. Qed.

Lemma serve_server_ok valid_url t X (e : serverE X) a tr a' x :
  adapter_inv (gt_policy t) a -> exec (serve_server valid_url t X e a) tr (a', x) ->
  Forall (system_ok t) tr /\ adapter_inv (gt_policy t) a'.
Proof.
  intros Ha Hex. destruct e; cbn [serve_server] in Hex;
    try (apply host_exec in Hex as [-> ->]; split; [by repeat constructor|done]).
  apply exec_bind in Hex as (t1 & t2 & r & -> & H1 & [-> Hr]). apply lift_exec in H1 as (tp & -> & H1).
  destruct r as [[] [a1 x1]]. injection Hr as -> ->. apply interp_exec in H1 as (hs & Hs & Hserved).
  destruct (guarded_exec _ _ _ _ _ (serve_ok (gt_policy t) _ e a Ha) Hs) as [Hw Hinv]. split; [|done].
  rewrite app_nil_r. apply Forall_fmap. pose proof (served_stack_ok _ _ _ _ _ _ Hserved Hw) as Hp.
  eapply Forall_impl; [exact Hp|]. by intros [Y op ans].
Qed.

Lemma serve_server_quiet valid_url t X (e : serverE X) a tr a' x :
  acting (Ev e x) = false -> exec (serve_server valid_url t X e a) tr (a', x) -> tr = [Ev (Host e) x] /\ a' = a /\ system_acts (Ev (Host e) x) = false.
Proof.
  intros Hq Hex. destruct e; cbn [serve_server] in Hex; try done; apply host_exec in Hex as [-> ->]; done.
Qed.

Section Layers.
Variables (valid_url : string -> bool) (t : gitTransport).

Lemma served_quiet a hi tr a' :
  served (serve_server valid_url t) a hi tr a' -> forallb (fun ev => negb (acting ev)) hi = true ->
  tr = (inj_event (@Host) <$> hi) /\ forallb (fun ev => negb (system_acts ev)) tr = true.
Proof.
  induction 1 as [|a X e x tr a1 hi tr' a2 Hex _ IH]; [done|]. cbn [forallb].
  intros [Hq Hrest]%andb_true_iff. apply negb_true_iff in Hq.
  destruct (serve_server_quiet _ _ _ _ _ _ _ _ Hq Hex) as (-> & -> & Hs). destruct (IH Hrest) as [-> Hall].
  split; [done|]. cbn [app forallb]. by rewrite Hs.
Qed.

Lemma served_split a hi1 hi2 tr a' :
  served (serve_server valid_url t) a (hi1 ++ hi2)%list tr a' ->
  exists tr1 tr2 a1, tr = (tr1 ++ tr2)%list /\ served (serve_server valid_url t) a hi1 tr1 a1 /\
    served (serve_server valid_url t) a1 hi2 tr2 a'.
Proof.
  revert a tr. induction hi1 as [|ev hi1 IH]; intros a tr; cbn [app].
  - intros H. exists [], tr, a. split; [done|]. split; [constructor|done].
  - intros H. remember (ev :: (hi1 ++ hi2)%list) as h eqn:Hh. destruct H as [|a X e x t1 a1 hi t2 a2 Hex Hrest]; [done|].
    injection Hh as <- ->. apply IH in Hrest as (tr1 & tr2 & a3 & -> & H1 & H2).
    exists (t1 ++ tr1)%list, tr2, a3. rewrite app_assoc. split; [done|]. split; [by econstructor|done].
Qed.

Lemma auth_quiet (u : trace authE) : forallb (fun ev => negb (acting ev)) (inj_event (@OnAuth) <$> u) = true.
Proof. induction u as [|[X op ans] u IH]; [done|exact IH]. Qed.

(** One request of the process. *)
Lemma process_request_exec s e a r tr a' e' rep :
  adapter_inv (gt_policy t) a -> exec (process_request valid_url t s e a r) tr (a', (e', rep)) ->
  adapter_inv (gt_policy t) a' /\ Forall (system_ok t) tr /\
  (exists hi, engine_steps e hi e') /\
  ((exists ev, ev ∈ tr /\ system_acts ev = true) ->
   exists id t1 tr2, tr = ((auth_event <$> t1) ++ tr2)%list /\ authorised s (policy e) r id t1).
Proof.
  intros Ha Hex. apply interp_exec in Hex as (hi & Hreq & Hserved).
  destruct (served_inv _ (adapter_inv (gt_policy t)) (system_ok t) (serve_server_ok valid_url t) _ _ _ _ Hserved Ha) as [Hok Hinv].
  split; [done|]. split; [done|].
  destruct (request_exec _ _ _ _ _ _ Hreq) as [[-> Hq]|(id & t1 & t2 & -> & Haz & Hsteps)].
  - split; [exists []; constructor|]. intros (ev & Hin & Hact). exfalso.
    destruct (served_quiet _ _ _ _ Hserved Hq) as [_ Hall].
    rewrite forallb_forall in Hall. apply list_elem_of_In in Hin. specialize (Hall ev Hin). by rewrite Hact in Hall.
  - split; [by eexists|]. intros _. apply served_split in Hserved as (tr1 & tr2 & a1 & -> & H1 & H2).
    destruct (served_quiet _ _ _ _ H1 (auth_quiet t1)) as [-> _]. exists id, t1, tr2. split; [|done].
    by rewrite <- list_fmap_compose.
Qed.

(** What a history keeps. *)
Lemma server_history_inv s xs e a :
  server_history valid_url t s xs e a ->
  adapter_inv (gt_policy t) a /\ (exists hi, reachable (gt_policy t) hi e) /\
  Forall (fun x => Forall (system_ok t) (x_trace x) /\
    ((exists ev, ev ∈ x_trace x /\ system_acts ev = true) ->
     exists id t1 tr2, x_trace x = ((auth_event <$> t1) ++ tr2)%list /\ authorised s (gt_policy t) (x_request x) id t1)) xs.
Proof.
  induction 1 as [snap e facets base work a He Ha|xs e a r tr e' a' rep _ (Hinv & [hi Hr] & Hall) Hex].
  - split; [by eapply new_adapter_inv|]. split; [|done]. exists []. by eapply reach_new.
  - destruct (process_request_exec _ _ _ _ _ _ _ _ Hinv Hex) as (Hinv' & Hok & [hi' Hsteps] & Hauth).
    destruct (reachable_inv _ _ _ Hr) as (Hpol & _).
    split; [done|]. split; [eexists; by eapply engine_steps_reachable|].
    apply Forall_app. split; [done|]. constructor; [|done]. cbn [x_trace x_request]. split; [done|]. by rewrite <- Hpol.
Qed.
End Layers.

(** ** Import *)

(** Neither an import nor the end of the locked section. *)
Definition calm (ev : event serverE) : bool :=
  match ev_op ev with ImportBundle _ _ _ => false | UnlockImport => false | _ => true end.

(** The import lock was taken and not released. *)
Definition lock_held (pre : trace serverE) : Prop :=
  exists u1 x u2, pre = (u1 ++ Ev LockImport x :: u2)%list /\ forallb calm u2 = true.

(** After [pre]: the lock is held and the last thing that happened is an
    observation of the pinned refs that allows an import on top of [tip]. *)
Definition import_allowed (e : PolicyEngine) (pre : trace serverE) (tip : string) : Prop :=
  lock_held pre /\
  exists t0 o, pre = (t0 ++ (inj_event (@OnEngine) <$> obs_trace (policy e) o))%list /\ import_tip_ok e tip o = true.

Section BundleImport.
Variables (s : Server) (e : PolicyEngine) (r : Request).

(** Every import of [t], after [pre], is of the request's commits and allowed. *)
Fixpoint imports_ok (pre t : trace serverE) : Prop :=
  match t with
  | [] => True
  | ev :: t' =>
      match ev_op ev with
      | ImportBundle path oid tip => oid = ProposedOIDHeader r /\ tip = ExpectedTipHeader r /\ import_allowed e pre tip
      | _ => True
      end /\ imports_ok (pre ++ [ev])%list t'
  end.

Lemma imports_ok_app pre t1 t2 : imports_ok pre t1 -> imports_ok (pre ++ t1)%list t2 -> imports_ok pre (t1 ++ t2)%list.
Proof.
  revert pre. induction t1 as [|ev t1 IH]; intros pre; cbn [app imports_ok]; [by rewrite app_nil_r|].
  intros [H1 H2] H3. split; [done|]. apply IH; [done|]. by rewrite <- app_assoc.
Qed.

Lemma imports_ok_at pre t t1 path oid tip x t2 :
  imports_ok pre t -> t = (t1 ++ Ev (ImportBundle path oid tip) x :: t2)%list ->
  oid = ProposedOIDHeader r /\ tip = ExpectedTipHeader r /\ import_allowed e (pre ++ t1)%list tip.
Proof.
  intros H ->. revert pre H. induction t1 as [|ev t1 IH]; intros pre; cbn [app imports_ok ev_op].
  - rewrite app_nil_r. by intros [H _].
  - intros [_ H]. apply IH in H. by rewrite <- app_assoc in H.
Qed.

Lemma imports_ok_calm pre t : forallb calm t = true -> imports_ok pre t.
Proof.
  revert pre. induction t as [|[X op ans] t IH]; intros pre; cbn [forallb imports_ok ev_op]; [done|].
  intros [Hc Ht]%andb_true_iff. split; [by destruct op|auto].
Qed.

Lemma held_app pre t : lock_held pre -> forallb calm t = true -> lock_held (pre ++ t)%list.
Proof.
  intros (u1 & x & u2 & -> & Hc) Ht. exists u1, x, (u2 ++ t)%list. rewrite <- app_assoc. split; [done|].
  by rewrite forallb_app, Hc, Ht.
Qed.

Definition calm_prog {A} (k : prog serverE A) : Prop := wp k (fun t _ => forallb calm t = true).

Lemma calm_ret {A} (a : A) : calm_prog (Ret a).
Proof. done. Qed.

Lemma calm_call {A} (op : serverE A) : (forall x, calm (Ev op x) = true) -> calm_prog (call op).
Proof. intros H x. cbn [wp forallb]. by rewrite H. Qed.

Lemma calm_bind {A B} (p : prog serverE A) (f : A -> prog serverE B) :
  calm_prog p -> (forall a, calm_prog (f a)) -> calm_prog (p ≫= f).
Proof.
  intros Hp Hf. apply wp_bind. eapply wp_mono; [|exact Hp]. intros t a Ht. eapply wp_mono; [|apply Hf].
  intros t' b Ht'. cbn beta in *. by rewrite forallb_app, Ht, Ht'.
Qed.

Lemma calm_lifted {A} (p : prog brokerE A) : calm_prog (on_engine p).
Proof.
  apply wp_exec. intros t a (u & -> & _)%lift_exec. induction u as [|[X op ans] u IH]; [done|exact IH].
Qed.

Lemma calm_auth {A} (p : prog authE A) : calm_prog (on_auth p).
Proof.
  apply wp_exec. intros t a (u & -> & _)%lift_exec. induction u as [|[X op ans] u IH]; [done|exact IH].
Qed.

(** The program's imports are allowed, wherever it starts. *)
Definition fenced {A} (pre : trace serverE) (k : prog serverE A) : Prop := wp k (fun t _ => imports_ok pre t).

Lemma fenced_calm {A} pre (k : prog serverE A) : calm_prog k -> fenced pre k.
Proof. apply wp_mono. intros t _. apply imports_ok_calm. Qed.

Lemma fenced_bind {A B} pre (p : prog serverE A) (f : A -> prog serverE B) :
  fenced pre p -> (forall t a, exec p t a -> fenced (pre ++ t)%list (f a)) -> fenced pre (p ≫= f).
Proof.
  intros Hp Hf. apply wp_exec. intros t b (t1 & t2 & a & -> & H1 & H2)%exec_bind. apply imports_ok_app.
  - exact (proj1 (wp_exec _ _) Hp t1 a H1).
  - exact (proj1 (wp_exec _ _) (Hf t1 a H1) t2 b H2).
Qed.

(** A calm first part keeps the lock. *)
Lemma fenced_calm_bind {A B} pre (p : prog serverE A) (f : A -> prog serverE B) :
  lock_held pre -> calm_prog p -> (forall pre' a, lock_held pre' -> fenced pre' (f a)) -> fenced pre (p ≫= f).
Proof.
  intros Hl Hp Hf. apply fenced_bind; [by apply fenced_calm|]. intros t a Hex. apply Hf. apply held_app; [done|].
  exact (proj1 (wp_exec _ _) Hp t a Hex).
Qed.

Lemma calm_tip tip : calm_prog (validImportTip e tip).
Proof.
  unfold validImportTip. apply calm_bind; [by apply calm_call|]. intros []; [apply calm_ret|].
  apply calm_bind; [apply calm_lifted|]. intros o. apply calm_ret.
Qed.

(** A tip check that passed ends in the observation that allows it. *)
Lemma tip_checked tip t :
  exec (validImportTip e tip) t true ->
  exists t0 o, t = (t0 ++ (inj_event (@OnEngine) <$> obs_trace (policy e) o))%list /\ import_tip_ok e tip o = true.
Proof.
  unfold validImportTip. intros (ended & t1 & -> & Hex). destruct ended; [by destruct Hex|].
  cbn [bind_prog] in Hex. apply (exec_bind (on_engine (observe (policy e)))) in Hex as (t2 & t3 & o & -> & H1 & H2).
  destruct H2 as [-> Ho]. apply lift_exec in H1 as (u & -> & Hu).
  destruct o as [o|]; [|done]. rewrite app_nil_r. exists [Ev ContextErr false], o. split; [|done].
  cbn [app]. do 2 f_equal. exact (proj1 (wp_exec _ _) (observe_trace (policy e)) _ _ Hu o eq_refl).
Qed.

Lemma fenced_file pre path : lock_held pre -> fenced pre (import_file e r path).
Proof.
  intros Hl. unfold import_file. apply fenced_bind; [apply fenced_calm, calm_tip|]. intros t ok Hex.
  destruct ok; cbn [negb]; [|done]. intros done_. cbn [wp imports_ok ev_op].
  assert (Ha : import_allowed e (pre ++ t)%list (ExpectedTipHeader r)).
  { split; [apply held_app; [done|exact (proj1 (wp_exec _ _) (calm_tip _) t true Hex)]|].
    destruct (tip_checked _ _ Hex) as (t0 & o & -> & Ho). exists (pre ++ t0)%list, o. by rewrite app_assoc. }
  destruct done_; cbn [negb wp imports_ok ev_op]; [|done]. intros x. cbn [wp imports_ok ev_op]. done.
Qed.

Lemma fenced_locked pre bundle : lock_held pre -> fenced pre (import_locked s e r bundle).
Proof.
  intros Hl. unfold import_locked. apply fenced_calm_bind; [done|by apply calm_call|]. clear pre Hl. intros pre ended Hl.
  destruct ended; [done|]. apply fenced_calm_bind; [done|by apply calm_call|]. clear pre Hl. intros pre info Hl.
  destruct (negb _); [done|]. apply fenced_calm_bind; [done|by apply calm_call|]. clear pre Hl. intros pre file Hl.
  destruct file as [path|]; [|done]. apply fenced_calm_bind; [done|by apply calm_call|]. clear pre Hl. intros pre moded Hl.
  apply fenced_calm_bind; [done|destruct moded; [by apply calm_call|apply calm_ret]|]. clear pre Hl. intros pre written Hl.
  apply fenced_calm_bind; [done|by apply calm_call|]. clear pre Hl. intros pre closed Hl.
  apply fenced_bind; [destruct (_ || _); [done|by apply fenced_file]|]. intros t rep _.
  apply fenced_calm. apply calm_bind; [by apply calm_call|]. intros []. apply calm_ret.
Qed.

Lemma fenced_unlock {A} pre (a : A) : fenced pre (_ ← call UnlockImport; Ret a).
Proof. intros x. cbn. done. Qed.

Lemma fenced_body pre bundle : fenced pre (import_body s e r bundle).
Proof.
  unfold import_body. destruct bundle as [|b bundle]; [done|]. destruct (_ || _); [done|].
  apply fenced_bind; [apply fenced_calm, calm_tip|]. intros t ok _. destruct ok; cbn [negb]; [|done].
  apply fenced_bind; [apply fenced_calm; by apply calm_call|]. intros t' ended _. destruct ended; [done|].
  apply fenced_bind; [apply fenced_calm; by apply calm_call|]. intros t2 u Hex.
  apply fenced_bind; [|intros t3 rep _; apply fenced_unlock]. apply fenced_locked.
  destruct Hex as (x & t4 & -> & -> & _). eexists _, x, []. split; [reflexivity|done].
Qed.
End BundleImport.

Lemma fenced_authenticated s e r pre (k : handler) :
  (forall pre, fenced e r pre k) -> fenced e r pre (authenticated s e r k).
Proof.
  intros Hk. unfold authenticated. apply fenced_bind.
  - apply fenced_calm. unfold authenticate. destruct (_ || _); [apply calm_ret|].
    apply calm_bind; [apply calm_auth|]. intros [id|[m|m]]; [destruct (_ || _)| |]; apply calm_ret.
  - intros t [id|rep] _; [apply Hk|apply fenced_calm, calm_ret].
Qed.

Lemma calm_decode {T} r (op : serverE (result read_error T)) :
  (forall x, calm (Ev op x) = true) -> calm_prog (decodeJSONBody r op).
Proof. intros H. unfold decodeJSONBody. destruct (_ || _); [apply calm_ret|by apply calm_call]. Qed.

(** A handler without an import. *)
Ltac calm_handler :=
  intros ?; apply fenced_calm; apply calm_bind; [by apply calm_decode|];
  intros [?|?]; [repeat case_match; (apply calm_bind; [apply calm_lifted|intros ?; apply calm_ret])|apply calm_ret].

Lemma fenced_route s rt e r pre : fenced e r pre (run_route s rt e r).
Proof.
  destruct rt; cbn [run_route]; apply fenced_authenticated; try calm_handler.
  - intros pre'. apply fenced_bind; [apply fenced_calm; by apply calm_call|]. intros t info _.
    destruct (negb _); [apply fenced_calm, calm_ret|]. destruct (_ || _); [apply fenced_calm, calm_ret|].
    apply fenced_bind; [apply fenced_calm; by apply calm_call|]. intros t' [b|err] _; [|apply fenced_calm, calm_ret].
    apply fenced_bind; [apply fenced_body|]. intros t2 rep _. apply fenced_calm, calm_ret.
  - intros pre'. destruct (_ || _); [apply fenced_calm, calm_ret|].
    apply fenced_calm, calm_bind; [apply calm_lifted|]. intros snap. apply calm_ret.
  - intros pre'. apply fenced_calm, calm_ret.
Qed.

Lemma fenced_request s e r pre : fenced e r pre (ServeHTTP s e r).
Proof.
  unfold ServeHTTP, mux_ServeHTTP. destruct (uncanonical r); [apply fenced_calm, calm_ret|].
  destruct (String.eqb (Path r) "*"); [apply fenced_calm, calm_ret|]. destruct (negb _ && _); [apply fenced_calm, calm_ret|].
  destruct (List.find _ _) as [entry|]; [apply fenced_route|apply fenced_calm, calm_ret].
Qed.

(** ** Availability *)

Definition unavailable_reply : reply := Failure 503 "identity backend unavailable".

(** A request to the identity backend that went without a definite answer. *)
Definition auth_unanswered (ev : event serverE) : bool :=
  match ev with
  | Ev op ans => match op in serverE X return X -> bool with OnAuth e => fun x => unanswered (Ev e x) | _ => fun _ => false end ans
  end.

Definition answered (ev : event serverE) : Prop := auth_unanswered ev = false.

Abbreviation conclusive k := (guarded answered k (fun out : PolicyEngine * reply => out.2 <> unavailable_reply)).
Abbreviation quietly k := (guarded answered k (fun _ => True)).

Lemma answered_call {A} (op : serverE A) : (forall x, answered (Ev op x)) -> quietly (call op).
Proof. intros H. apply guarded_call; [done|]. intros x. by apply guarded_ret. Qed.

Lemma answered_engine {A} (p : prog brokerE A) : quietly (on_engine p).
Proof. apply guarded_lift. apply wp_exec. intros t a _. split; [|done]. apply Forall_forall. by intros [X op ans] _. Qed.

Lemma answered_decode {T} r (op : serverE (result read_error T)) : (forall x, answered (Ev op x)) -> quietly (decodeJSONBody r op).
Proof. intros H. unfold decodeJSONBody. destruct (_ || _); [by apply guarded_ret|by apply answered_call]. Qed.

Lemma answered_tip e tip : quietly (validImportTip e tip).
Proof.
  unfold validImportTip. eapply guarded_bind; [by apply answered_call|]. intros [] _; [by apply guarded_ret|].
  eapply guarded_bind; [apply answered_engine|]. intros o _. by apply guarded_ret.
Qed.

Abbreviation conclusive_reply k := (guarded answered k (fun rep : reply => rep <> unavailable_reply)).

(** One step of a program that asks the identity backend nothing. *)
Ltac answered_step :=
  match goal with
  | |- guarded _ (Ret _) _ => apply guarded_ret; first [exact I | done | by case_match]
  | |- guarded _ (if ?b then _ else _) _ => destruct b
  | |- guarded _ (match ?o with Some _ => _ | None => _ end) _ => destruct o
  | |- guarded _ (call _ ≫= _) _ => eapply guarded_bind; [by apply answered_call|intros ? _]
  | |- guarded _ (mbind _ (call _)) _ => eapply guarded_bind; [by apply answered_call|intros ? _]
  | |- guarded _ (mbind _ (validImportTip _ _)) _ => eapply guarded_bind; [apply answered_tip|intros ? _]
  end.

Lemma conclusive_file e r path : conclusive_reply (import_file e r path).
Proof. unfold import_file. repeat answered_step. Qed.

Lemma conclusive_locked s e r bundle : conclusive_reply (import_locked s e r bundle).
Proof.
  unfold import_locked. repeat answered_step.
  eapply (guarded_bind _ _ _ (fun _ => True)); [case_match; [by apply answered_call|by apply guarded_ret]|]. intros written _.
  answered_step. eapply (guarded_bind _ _ _ (fun rep : reply => rep <> unavailable_reply)).
  - destruct (_ || _); [by apply guarded_ret|apply conclusive_file].
  - intros rep Hrep. answered_step. by apply guarded_ret.
Qed.

Lemma conclusive_body s e r bundle : conclusive_reply (import_body s e r bundle).
Proof.
  unfold import_body. repeat answered_step.
  eapply (guarded_bind _ _ _ (fun rep : reply => rep <> unavailable_reply)); [apply conclusive_locked|].
  intros rep Hrep. answered_step. by apply guarded_ret.
Qed.

Lemma deny_conclusive err : denyBodyRead err <> unavailable_reply.
Proof. by destruct err. Qed.

(** Behind authentication no reply blames the identity backend. *)
Lemma route_conclusive s rt e r : exists k, run_route s rt e r = authenticated s e r k /\ conclusive k.
Proof.
  destruct rt; cbn [run_route]; eexists; (split; [reflexivity|]).
  - eapply guarded_bind; [by apply answered_decode|]. intros [[x y]|err] _; [|apply guarded_ret, deny_conclusive].
    eapply guarded_bind; [apply answered_engine|]. intros [e1 [v|m]] _; by apply guarded_ret.
  - eapply guarded_bind; [by apply answered_call|]. intros info _. do 2 answered_step; try (by apply guarded_ret).
    eapply guarded_bind; [by apply answered_call|]. intros [b|err] _; [|apply guarded_ret, deny_conclusive].
    eapply guarded_bind; [apply conclusive_body|]. intros rep Hrep. by apply guarded_ret.
  - destruct (_ || _); [by apply guarded_ret|]. eapply guarded_bind; [apply answered_engine|].
    intros [v|[|m]] _; by apply guarded_ret.
  - by apply guarded_ret.
  - eapply guarded_bind; [by apply answered_decode|]. intros [[[[x y] z] d]|err] _; [|apply guarded_ret, deny_conclusive].
    eapply guarded_bind; [apply answered_engine|]. intros [[pr rep]|[m|m v|m [v|v]]] _; by apply guarded_ret.
  - eapply guarded_bind; [by apply answered_decode|]. intros [[x y]|err] _; [|apply guarded_ret, deny_conclusive].
    eapply guarded_bind; [apply answered_engine|]. intros [v|m] _; by apply guarded_ret.
Qed.

Lemma auth_unanswered_auth (u : trace authE) : existsb auth_unanswered (inj_event (@OnAuth) <$> u) = existsb unanswered u.
Proof. induction u as [|[X op ans] u IH]; [done|]. cbn. f_equal. exact IH. Qed.

Lemma authenticate_answers a token t r : exec (Authenticate a token) t r -> existsb unanswered t = is_unavailable r.
Proof. intros H. symmetry. exact (proj1 (wp_exec _ _) (authenticate_classified_wp a token) t r H). Qed.

Lemma answered_forall t : Forall answered t -> existsb auth_unanswered t = false.
Proof. induction 1 as [|ev t Hev _ IH]; [done|]. cbn [existsb]. by rewrite Hev. Qed.

Lemma authenticated_classified s e r k t e' rep :
  conclusive k -> exec (authenticated s e r k) t (e', rep) -> rep = unavailable_reply <-> existsb auth_unanswered t = true.
Proof.
  intros Hk Hex. destruct (authenticated_exec _ _ _ _ _ _ _ Hex) as [[_ Hr]|(id & t1 & t2 & -> & [(token & _ & Ha) _] & Hex2)].
  - destruct Hr as [-> ->|token t1 m -> Ha ->|token t1 id -> Ha ->|token t1 m -> Ha ->]; [done|..];
      rewrite auth_unanswered_auth, (authenticate_answers _ _ _ _ Ha); by split.
  - destruct (guarded_exec _ _ _ _ _ Hk Hex2) as [Hall Hne]. cbn [snd] in Hne.
    rewrite existsb_app, auth_unanswered_auth, (authenticate_answers _ _ _ _ Ha), (answered_forall _ Hall). cbn. by split.
Qed.

(** ** Properties *)



(** C27: A refusal is never an outage.  The API answers "identity backend
    unavailable" exactly when a request to the identity backend went without a
    definite answer; every other reply, a 401 in particular, rests on definite
    answers alone. *)
Theorem server_denials_definite (s : Server) (e e' : PolicyEngine) (r : Request) (t : trace serverE) (rep : reply)
    (Hexec : exec (ServeHTTP s e r) t (e', rep)) :
  rep = unavailable_reply <-> existsb auth_unanswered t = true.
Proof.
  unfold ServeHTTP, mux_ServeHTTP in Hexec.
  destruct (uncanonical r); [destruct Hexec as [-> [= -> ->]]; by split|].
  destruct (String.eqb (Path r) "*"); [destruct Hexec as [-> [= -> ->]]; by split|].
  destruct (negb _ && _); [destruct Hexec as [-> [= -> ->]]; by split|].
  destruct (List.find _ _) as [entry|]; [|destruct Hexec as [-> [= -> ->]]; split; [case_match; discriminate|discriminate]].
  destruct (route_conclusive s entry.2 e r) as (k & Hk & Hc). rewrite Hk in Hexec. by eapply authenticated_classified.
Qed.

(** ** Witnesses *)

Definition server_example : Server :=
  {| sv_authenticator := auth_example; sv_importer := true; sv_snapshot := true; sv_scratchDir := "/scratch"; sv_capabilities := true |}.

Definition publish_request : Request :=
  {| Method := "POST"; Path := PathPublish; RawPath := ""; RawQuery := ""; ContentLength := 80; HasBody := true;
     Authorization := "Bearer token"; ExpectedTipHeader := ""; ProposedOIDHeader := "" |}.

Definition import_request : Request :=
  {| Method := "POST"; Path := PathImportBundle; RawPath := ""; RawQuery := ""; ContentLength := 80; HasBody := true;
     Authorization := "Bearer token"; ExpectedTipHeader := ""; ProposedOIDHeader := example_oid |}.

(** A healthy host, with a forge that holds the base and no work ref. *)
Definition server_world (X : Type) (e : serverE X) (w : unit) : unit * X :=
  (w, match e in serverE Y return Y with
      | OnAuth e => (auth_server _ e tt).2
      | OnEngine e => (forge bound_policy (fun _ _ => true) (Ok tt) _ e {| w_base := BaseOID bound_policy; w_work := None; w_prs := [] |}).2
      | ContextErr => false
      | ReadPublish => Ok ("", example_oid)
      | ReadCreate => Err BadBody
      | ReadUpdate => Err BadBody
      | ReadAll _ => Ok [0]
      | Lstat _ => Some (true, false)
      | CreateTemp _ => Some "/scratch/bundle-1"
      | ChmodFile _ | WriteFile _ _ | CloseFile _ | ImportBundle _ _ _ | MkdirAll _ | LoadX509KeyPair _ _ => true
      | RemoveFile _ | LockImport | UnlockImport => tt
      end).

(** The same host around the forge and git of [process_world]. *)
Definition system_world (X : Type) (e : systemE X) (tip : option string) : option string * X :=
  match e in systemE Y return option string * Y with
  | Host e => (tip, (server_world _ e tt).2)
  | Process e => process_world _ e tip
  end.

Definition system_publication := process_request (fun _ => true) transport_example server_example stack_engine stack_adapter publish_request.


Definition import_call := Effects.run server_world (ServeHTTP server_example stack_engine import_request) tt.


Lemma server_denials_definite_witness : import_call.2.2 = unavailable_reply <-> existsb auth_unanswered import_call.1.2 = true.
Proof.
  apply (server_denials_definite server_example stack_engine import_call.2.1 import_request import_call.1.2 import_call.2.2).
  pose proof (run_exec server_world (ServeHTTP server_example stack_engine import_request) tt) as H. fold import_call in H.
  by destruct import_call.2 as [e rep].
Defined.
