(* ===== verification/TrustedStatus.v ===== *)
(** * The trusted status endpoint (internal/broker/trusted_status.go)

    The one route through which trusted control writes its run's status, and
    the read of the operator's control request.  Each request is authenticated
    anew; a write goes through the status writer with the identity that was just
    authenticated.

    The identity backend, the API server, the validator and the body reader
    answer arbitrarily.  Whether an error in hand means that the request itself
    ended (its budget ran out or the caller hung up) is asked of the environment:
    errors do not keep their causes here. *)

From S2P Require Import Prelude Effects GoStrings GoTime Sha256 Run StatusPatch Kube World Pods BrokerAuth HarnessStatus BrokerServer.
Local Open Scope string_scope.
Local Open Scope Z_scope.

Definition PathTrustedStatus : string := "/trusted/v1/status".
Definition PathControlRequest : string := "/trusted/v1/control-request".

Inductive trusted_reply :=
| TFailure (code : Z) (text : string)
| NoContent
| ControlRequestReply (req : ControlRequest).

Inductive trustedE : Type -> Type :=
| TAuth X (e : authE X) : trustedE X
| TStatus X (e : statusE X) : trustedE X
| ReadPatch : trustedE (result read_error HarnessPatch)
| RequestUnfinished : trustedE bool.
Arguments TAuth {X} e.
Arguments TStatus {X} e.

(** [http.NotFound]. *)
Definition not_found : trusted_reply := TFailure 404 "404 page not found".

Definition bearerToken (value : string) : string * bool :=
  if negb (HasPrefix value "Bearer ") then ("", false) else
  let token := TrimPrefix value "Bearer " in
  (token, negb (String.eqb token "") && String.eqb (TrimSpace token) token).

Definition canonicalPath (r : Request) (want : string) : bool :=
  match PathUnescape (EscapedPath r) with Some decoded => String.eqb decoded (Path r) | None => false end &&
  String.eqb (RawPath r) "" && String.eqb (Path r) want && negb (Contains (Path r) "//") && negb (Contains (Path r) backslash) &&
  String.eqb (RawQuery r) "".

Section Handler.
Variables (a : Authenticator) (w : StatusWriter).

(** The authenticated identity speaks for the writer's run. *)
Definition writer_identity (id : Identity) : bool :=
  negb (String.eqb (id_RunUID id) "") && String.eqb (id_RunName id) (sw_runName w) &&
  String.eqb (id_Namespace id) (sw_namespace w) && negb (String.eqb (ControlPod id) "") &&
  negb (String.eqb (ControlPodUID id) "") && negb (String.eqb (ServiceAccount id) "").

Definition status_identity (id : Identity) : StatusIdentity :=
  {| si_RunUID := id_RunUID id; si_ControlPod := ControlPod id; si_ControlPodUID := ControlPodUID id;
     si_ControlServiceAccount := ServiceAccount id |}.

Definition serveControlRequest (r : Request) (id : Identity) : prog trustedE trusted_reply :=
  if HasBody r && negb (ContentLength r =? 0) then Ret (TFailure 400 "invalid request") else
  run ← call (TStatus (SReadRun (sw_namespace w) (sw_runName w)));
  match run with
  | Err e => Ret (if IsNotFound e then not_found else TFailure 503 "control request unavailable")
  | Ok run =>
      match st_ControlRequest (Status run) with
      | None => Ret not_found
      | Some request =>
          if negb (String.eqb (UID run) (id_RunUID id)) || negb (String.eqb (cr_TargetPodUID request) (ControlPodUID id))
          then Ret not_found else Ret (ControlRequestReply request)
      end
  end.

Definition bad_heartbeat (p : HarnessPatch) : bool :=
  match hp_Heartbeat p with
  | None => false
  | Some h => time_zero (hb_At h) || (negb (String.eqb (hb_Kind h) "stream") && negb (String.eqb (hb_Kind h) "tool")) ||
              String.eqb (hb_CoordinatorPodUID h) ""
  end.

Definition unfinished (otherwise : trusted_reply) : prog trustedE trusted_reply :=
  ended ← call RequestUnfinished;
  Ret (if ended : bool then TFailure 503 "status update unavailable" else otherwise).

Definition answer_write (r : result status_error unit) : prog trustedE trusted_reply :=
  match r with
  | Ok _ => Ret NoContent
  | Err StatusConflict => Ret (TFailure 503 "status update conflicted")
  | Err (StatusUnavailable _ _) => Ret (TFailure 503 "status update unavailable")
  | Err (StatusDenied _ _) => unfinished (TFailure 422 "status update denied")
  end.

Definition serve_status (r : Request) (id : Identity) : prog trustedE trusted_reply :=
  patch ← (if negb (String.eqb (RawQuery r) "") || (ContentLength r =? 0) then Ret (Err BadBody) else call ReadPatch);
  match patch with
  | Err DeadlineExceeded => Ret (TFailure 503 "status update unavailable")
  | Err BadBody => Ret (TFailure 400 "invalid request")
  | Ok patch =>
      if bad_heartbeat patch then Ret (TFailure 400 "invalid request") else
      out ← lift (@TStatus) (Write w (status_identity id) patch true);
      answer_write out
  end.

Definition trusted_ServeHTTP (r : Request) : prog trustedE trusted_reply :=
  let controlRequest := canonicalPath r PathControlRequest && String.eqb (Method r) "GET" in
  if negb controlRequest && (negb (canonicalPath r PathTrustedStatus) || negb (String.eqb (Method r) "POST")) then Ret not_found else
  let '(token, ok) := bearerToken (Authorization r) in
  if negb ok then Ret (TFailure 401 "unauthorized") else
  id ← lift (@TAuth) (Authenticate a token);
  match id with
  | Err (IdentityUnavailable _) => unfinished (TFailure 503 "identity backend unavailable")
  | Err (Refused _) => unfinished (TFailure 401 "unauthorized")
  | Ok id =>
      if negb (writer_identity id) then Ret (TFailure 401 "unauthorized") else
      if controlRequest then serveControlRequest r id else serve_status r id
  end.
End Handler.

(** ** Lemmas *)

Definition status_of (ev : event trustedE) : option (event statusE) :=
  match ev with
  | Ev op ans => match op in trustedE X return X -> option (event statusE) with
                 | TStatus e => fun x => Some (Ev e x)
                 | _ => fun _ => None
                 end ans
  end.

(** What the request asked of the API server's runs and pods. *)
Definition status_trace (t : trace trustedE) : trace statusE := omap status_of t.

Lemma status_trace_app t1 t2 : status_trace (t1 ++ t2)%list = (status_trace t1 ++ status_trace t2)%list.
Proof. apply omap_app. Qed.

Lemma status_trace_status t : status_trace (inj_event (@TStatus) <$> t) = t.
Proof. induction t as [|[X op ans] t IH]; [done|]. cbn. f_equal. exact IH. Qed.

Lemma status_trace_auth t : status_trace (inj_event (@TAuth) <$> t) = [].
Proof. induction t as [|[X op ans] t IH]; [done|]. exact IH. Qed.

(** The two token checks of the broker agree. *)
Lemma bearer_agrees value :
  (bearerToken value).2 =
  negb (negb (HasPrefix value "Bearer ") || String.eqb (TrimSpace (TrimPrefix value "Bearer ")) "" ||
        negb (String.eqb (TrimSpace (TrimPrefix value "Bearer ")) (TrimPrefix value "Bearer "))).
Proof.
  unfold bearerToken. destruct (HasPrefix value "Bearer "); [|done]. cbn [negb orb snd].
  set (tok := TrimPrefix value "Bearer ").
  destruct (String.eqb_spec (TrimSpace tok) tok) as [->|]; cbn; [by rewrite negb_orb, andb_true_r, andb_true_r|].
  by rewrite andb_false_r, orb_true_r.
Qed.

Lemma bearer_token value token : bearerToken value = (token, true) -> value = "Bearer " ++ token.
Proof.
  unfold bearerToken. destruct (HasPrefix value "Bearer ") eqn:Hp; [|done]. cbn [negb]. intros [= <- _]. by apply prefix_app.
Qed.

(** Who the request spoke for. *)
Record trusted_caller (a : Authenticator) (w : StatusWriter) (r : Request) (t1 : trace authE) (id : Identity) : Prop := {
  tc_token : exists token, Authorization r = "Bearer " ++ token /\ authentic a token t1 id;
  tc_writer : writer_identity w id = true
}.

(** A request without a caller touched no run and replied a failure. *)
Definition uncalled (t : trace trustedE) (rep : trusted_reply) : Prop :=
  status_trace t = [] /\ exists code text, rep = TFailure code text.

Lemma unfinished_exec m c text t rep :
  m = TFailure c text -> exec (unfinished m) t rep -> status_trace t = [] /\ (rep = m \/ rep = TFailure 503 "status update unavailable").
Proof. intros ->. intros (ended & t' & -> & -> & ->). by destruct ended; auto. Qed.

Lemma trusted_exec a w r t rep :
  exec (trusted_ServeHTTP a w r) t rep ->
  uncalled t rep \/
  exists t1 t2 id, t = ((inj_event (@TAuth) <$> t1) ++ t2)%list /\ trusted_caller a w r t1 id /\
    (exec (serveControlRequest w r id) t2 rep \/ exec (serve_status w r id) t2 rep).
Proof.
  unfold trusted_ServeHTTP, uncalled. cbv zeta. destruct (negb _ && _); [intros [-> ->]; left; unfold not_found; eauto|].
  destruct (bearerToken (Authorization r)) as [token ok] eqn:Hb. destruct ok; [|intros [-> ->]; left; eauto]. cbn [negb].
  intros (ta & t2 & id & -> & (t1 & -> & Ha)%lift_exec & Hk)%exec_bind.
  destruct id as [id|[m|m]].
  - destruct (writer_identity w id) eqn:Hw; cbn [negb] in Hk.
    2: { destruct Hk as [-> ->]. left. rewrite app_nil_r, status_trace_auth. eauto. }
    right. exists t1, t2, id. split; [done|]. split.
    + split; [|done]. exists token. split; [by apply bearer_token|by apply authenticate_authentic].
    + destruct (_ && _); auto.
  - left. apply (unfinished_exec _ 401 "unauthorized") in Hk as [Ht [-> | ->]]; [| |done];
      rewrite status_trace_app, status_trace_auth, Ht; eauto.
  - left. apply (unfinished_exec _ 503 "identity backend unavailable") in Hk as [Ht [-> | ->]]; [| |done];
      rewrite status_trace_app, status_trace_auth, Ht; eauto.
Qed.

(** A read writes nothing. *)
Lemma control_request_silent w r id t rep sv ms sv' :
  exec (serveControlRequest w r id) t rep -> api_serves sv (status_trace t) ms sv' -> ms = [] /\ rep <> NoContent.
Proof.
  intros Hex Hs. split.
  - apply (serves_silent sv (status_trace t) ms sv'); [|done]. unfold serveControlRequest in Hex.
    destruct (_ && _); [by destruct Hex as [-> _]|]. destruct Hex as (x & t' & -> & Hex). cbn in Hex.
    assert (t' = []) as -> by (repeat case_match; by destruct Hex). by constructor.
  - unfold serveControlRequest in Hex. destruct (_ && _); [by destruct Hex as [_ ->]|]. destruct Hex as (x & t' & -> & Hex).
    cbn in Hex. repeat case_match; by destruct Hex as [_ ->].
Qed.

(** What a status request committed, by its reply. *)
Definition status_effect (w : StatusWriter) (id : Identity) (t : trace trustedE) (ms : list (CoderRun * CoderRun)) (rep : trusted_reply) : Prop :=
  let once := exists patch before after, ms = [(before, after)] /\ applied (status_identity id) patch before after /\
                control_seen w (status_identity id) (status_trace t) in
  match rep with
  | NoContent => once
  | TFailure 503 _ => ms = [] \/ once
  | _ => ms = []
  end.

Lemma status_effect_none w id t ms rep : ms = [] -> rep <> NoContent -> status_effect w id t ms rep.
Proof. intros -> H. unfold status_effect. repeat case_match; auto; done. Qed.

Lemma serve_status_effect w r id t rep sv ms sv' :
  known sv -> exec (serve_status w r id) t rep -> api_serves sv (status_trace t) ms sv' -> status_effect w id t ms rep.
Proof.
  intros Hk (t0 & t1 & patch & -> & Hp & Hex)%exec_bind. rewrite status_trace_app.
  assert (Ht0 : status_trace t0 = []).
  { destruct (_ || _); [by destruct Hp as [-> _]|]. by destruct Hp as (x & t' & -> & -> & _). }
  rewrite Ht0. cbn [app]. destruct patch as [patch|[|]].
  2,3: destruct Hex as [-> ->]; intros Hs; inversion Hs; by apply status_effect_none.
  destruct (bad_heartbeat patch); [destruct Hex as [-> ->]; intros Hs; inversion Hs; by apply status_effect_none|].
  apply exec_bind in Hex as (tw & t2 & out & -> & (u & -> & Hw)%lift_exec & Ha).
  rewrite status_trace_app, status_trace_status.
  assert (Ht2 : status_trace t2 = []).
  { destruct out as [[]|[m c|m c|]]; cbn [answer_write] in Ha; try (by destruct Ha as [-> _]).
    by apply (unfinished_exec _ 422 "status update denied") in Ha as [? _]. }
  rewrite Ht2, app_nil_r. intros Hs.
  pose proof (write_outcome w (status_identity id) patch true _ _ _ _ _ Hk Hw Hs) as Ho.
  unfold status_effect. rewrite !status_trace_app, status_trace_status, Ht0, Ht2, app_nil_r. cbn [app].
  destruct out as [[]|[m c|m c|]]; cbn [answer_write outcome] in Ha, Ho.
  - destruct Ha as [_ ->]. destruct Ho as (b & af & H). eauto.
  - apply (unfinished_exec _ 422 "status update denied") in Ha as [_ [-> | ->]]; auto.
  - destruct Ha as [_ ->]. destruct c; [by left|]. destruct Ho as [|(b & af & H)]; eauto.
  - destruct Ha as [_ ->]. by left.
Qed.

(** ** Properties *)


(** A control request is shown only to the pod it is addressed to: when the
    endpoint returns one, the caller was authenticated in the same request, the
    run just read is the caller's incarnation, and the request names the
    caller's own pod. *)
Theorem control_request_private (a : Authenticator) (w : StatusWriter) (r : Request) (t : trace trustedE) (req : ControlRequest)
    (Hexec : exec (trusted_ServeHTTP a w r) t (ControlRequestReply req)) :
  exists t1 id run, t = ((inj_event (@TAuth) <$> t1) ++ [Ev (TStatus (SReadRun (sw_namespace w) (sw_runName w))) (Ok run)])%list /\
    trusted_caller a w r t1 id /\ UID run = id_RunUID id /\ st_ControlRequest (Status run) = Some req /\
    cr_TargetPodUID req = ControlPodUID id.
Proof.
  destruct (trusted_exec _ _ _ _ _ Hexec) as [[_ (c & x & Hx)]|(t1 & t2 & id & -> & Hc & [Hex|Hex])]; [done| |].
  - unfold serveControlRequest in Hex. destruct (_ && _); [by destruct Hex|]. destruct Hex as (run & t' & -> & Hex). cbn in Hex.
    destruct run as [run|e]; [|destruct Hex as [_ Hex]; by destruct (IsNotFound e)].
    destruct (st_ControlRequest (Status run)) as [q|] eqn:Hq; [|by destruct Hex].
    destruct (String.eqb_spec (UID run) (id_RunUID id)) as [Hu|]; [|by destruct Hex]. cbn [negb orb] in Hex.
    destruct (String.eqb_spec (cr_TargetPodUID q) (ControlPodUID id)) as [Hp|]; [|by destruct Hex]. cbn [negb] in Hex.
    destruct Hex as [-> [= <-]]. by exists t1, id, run.
  - exfalso. unfold serve_status in Hex. apply exec_bind in Hex as (t0 & t3 & patch & -> & _ & Hex).
    destruct patch as [patch|[|]]; [|by destruct Hex..]. destruct (bad_heartbeat patch); [by destruct Hex|].
    apply exec_bind in Hex as (tw & t4 & out & -> & _ & Ha).
    destruct out as [[]|[m c|m c|]]; cbn [answer_write] in Ha; try (by destruct Ha).
    apply (unfinished_exec _ 422 "status update denied") in Ha as [_ [? | ?]]; done.
Qed.

(** ** Witnesses *)

Definition heartbeat_request : Request :=
  {| Method := "POST"; Path := PathTrustedStatus; RawPath := ""; RawQuery := ""; ContentLength := 60; HasBody := true;
     Authorization := "Bearer token"; ExpectedTipHeader := ""; ProposedOIDHeader := "" |}.

Definition control_read : Request :=
  {| Method := "GET"; Path := PathControlRequest; RawPath := ""; RawQuery := ""; ContentLength := 0; HasBody := false;
     Authorization := "Bearer token"; ExpectedTipHeader := ""; ProposedOIDHeader := "" |}.

Definition heartbeat_patch : HarnessPatch :=
  {| hp_Checkpoint := None; hp_Heartbeat := Some {| hb_CoordinatorPodUID := "c-1"; hb_Kind := "tool"; hb_At := 9 |}; hp_LastCommit := None;
     AddOperation := None; ClearOperation := ""; ReconcileOperations := false; hp_ControlRequestAck := None;
     TerminalResult := None; hp_NoChange := None; hp_ModelSurface := None |}.

Definition example_control_request : ControlRequest :=
  {| cr_ID := "req-1"; cr_Kind := "soft-stop"; cr_TargetPodUID := "c-1"; cr_RequestedAt := 1 |}.

(** A healthy namespace around the run [run]. *)
Definition trusted_world (run : CoderRun) (X : Type) (e : trustedE X) (u : unit) : unit * X :=
  (u, match e in trustedE Y return Y with
      | TAuth e => (auth_server _ e tt).2
      | TStatus e => match e in statusE Y return Y with
                     | SReadRun _ _ => Ok run
                     | SReadPod _ name => Ok (auth_pod name "c-1" "coordinator")
                     | SListPods _ => Ok [auth_pod "run-1-control" "c-1" "coordinator"; auth_pod "run-1-broker" "b-1" "broker"]
                     | SValidate _ _ _ => Ok tt
                     | SUpdate _ => Ok tt
                     end
      | ReadPatch => Ok heartbeat_patch
      | RequestUnfinished => false
      end).

Definition heartbeat_call := Effects.run (trusted_world auth_run) (trusted_ServeHTTP auth_example status_example_writer heartbeat_request) tt.


Definition requested_run : CoderRun := set_Status auth_run (set_st_ControlRequest (Status auth_run) (Some example_control_request)).

Definition control_call := Effects.run (trusted_world requested_run) (trusted_ServeHTTP auth_example status_example_writer control_read) tt.

Lemma control_request_private_witness : exists t1 id, trusted_caller auth_example status_example_writer control_read t1 id /\ ControlPodUID id = "c-1".
Proof.
  assert (H : exec (trusted_ServeHTTP auth_example status_example_writer control_read) control_call.1.2 (ControlRequestReply example_control_request)).
  { pose proof (run_exec (trusted_world requested_run) (trusted_ServeHTTP auth_example status_example_writer control_read) tt) as H.
    fold control_call in H. replace control_call.2 with (ControlRequestReply example_control_request) in H by (vm_compute; reflexivity). exact H. }
  destruct (control_request_private _ _ _ _ _ H) as (t1 & id & run & _ & Hc & _ & _ & Hp). exists t1, id. split; [exact Hc|].
  rewrite <- Hp. reflexivity.
Defined.
