(* ===== verification/HarnessErrors.v ===== *)
(** * Failures of the native harness (internal/harness)

    The typed errors trusted control tells apart, and the three classifiers
    that read them: the provider-availability classes of availability.go, the
    prerequisite classes of prerequisite.go with the latch they trip, and the
    broker-call and worker-rejection rules of broker.go and coordinator.go.

    An error is the tree [errors.Unwrap] walks: a node with its typed payload,
    its text and the errors it wraps, so [errors.As] and [errors.Is] are the
    first node, in preorder, of the asked type. *)

From S2P Require Import Prelude Effects GoStrings GoTime Run Pods.
Local Open Scope string_scope.
Local Open Scope Z_scope.

(** ** Error trees *)

(** The typed payloads.  [NText] is an error no modelled code inspects. *)
Inductive node :=
| NText
| NContext
| NGatewayTransport
| NGateway (status : Z) (availability code : string) (retryAfter : Z) (retryable : bool)
| NBrokerCall (status : Z) (category : string) (retryable : bool)
| NTransport (status : Z)
| NPrerequisite (class kind : string)
| NBootstrapBlocker
| NWorkerFence
| NStatusPersist (opID : string)
| NPublicationBlocked
| NTransientPublication
| NNothingToPublish
| NTerminationUnverified
| NArtifactRejected (category : string).

Inductive herror := HErr (payload : node) (text : string) (causes : list herror).

Definition payload (e : herror) : node := let '(HErr n _ _) := e in n.
Definition text (e : herror) : string := let '(HErr _ t _) := e in t.
Definition causes (e : herror) : list herror := let '(HErr _ _ cs) := e in cs.

(** The preorder walk of [errors.As]. *)
Fixpoint chain (e : herror) : list herror :=
  match e with HErr _ _ cs => e :: flat_map chain cs end.

(** The first error of the chain a selector recognizes. *)
Fixpoint first_some {A B} (f : A -> option B) (l : list A) : option B :=
  match l with [] => None | x :: l => match f x with Some y => Some y | None => first_some f l end end.

Definition errors_as {A} (sel : herror -> option A) (e : herror) : option A := first_some sel (chain e).

Definition errors_is (f : node -> bool) (e : herror) : bool := existsb (fun x => f (payload x)) (chain e).

Definition new_error (t : string) : herror := HErr NText t [].
Definition wrap_error (t : string) (cs : list herror) : herror := HErr NText t cs.

Definition is_unverified (n : node) : bool := match n with NTerminationUnverified => true | _ => false end.
Definition is_nothing (n : node) : bool := match n with NNothingToPublish => true | _ => false end.
Definition is_blocker (n : node) : bool := match n with NBootstrapBlocker => true | _ => false end.
Definition is_fence (n : node) : bool := match n with NWorkerFence => true | _ => false end.

Definition ErrTerminationUnverified : herror :=
  HErr NTerminationUnverified "harness: operation termination could not be verified" [].
Definition ErrNothingToPublish : herror :=
  HErr NNothingToPublish "harness: no work was integrated or published in this incarnation" [].

(** ** Broker call failures (broker.go) *)

Record BrokerCallError := { StatusCode : Z; Category : string; bc_Retryable : bool }.

Definition broker_error (e : BrokerCallError) : herror :=
  HErr (NBrokerCall (StatusCode e) (Category e) (bc_Retryable e)) ("harness: broker " ++ Category e) [].

Definition as_broker (e : herror) : option BrokerCallError :=
  match payload e with
  | NBrokerCall s c r => Some {| StatusCode := s; Category := c; bc_Retryable := r |}
  | _ => None
  end.

Definition brokerTransportError : BrokerCallError :=
  {| StatusCode := 0; Category := "is unreachable"; bc_Retryable := true |}.

Definition brokerStatusError (status : Z) : BrokerCallError :=
  let retryable := (status =? 408) || (status =? 429) || (500 <=? status) in
  {| StatusCode := status;
     Category := if retryable then "is temporarily unavailable" else "denied the operation";
     bc_Retryable := retryable |}.

Definition isBrokerRetryable (e : herror) : bool :=
  match errors_as as_broker e with Some c => bc_Retryable c | None => false end.

(** [statusError]: a 401 whose credential was rotated under the request is
    retried; [rotated] is what re-reading the projected token says. *)
Definition statusError (status : Z) (rotated : bool) : BrokerCallError :=
  if (status =? 401) && rotated
  then {| StatusCode := status; Category := "refused the rotated-out credential"; bc_Retryable := true |}
  else brokerStatusError status.

(** A definite refusal: a 4xx that is neither a timeout nor a rate limit. *)
Definition definiteWorkerRejectionStatus (status : Z) : bool :=
  if (status =? 408) || (status =? 429) then false else (400 <=? status) && (status <? 500).

Definition as_transport (e : herror) : option Z := match payload e with NTransport s => Some s | _ => None end.

Definition definiteWorkerRejection (e : herror) : bool :=
  match errors_as as_transport e with Some s => definiteWorkerRejectionStatus s | None => false end.

(** [PublicationBlockedError] and [TransientPublicationError]. *)
Definition blocked_error (reason : string) (cause : option herror) : herror :=
  HErr NPublicationBlocked ("harness: publication blocked: " ++ reason) (option_list cause).
Definition transient_error (cause : herror) : herror :=
  HErr NTransientPublication ("harness: publication unavailable: " ++ text cause) [cause].

Definition as_blocked (e : herror) : option herror :=
  match payload e with NPublicationBlocked => Some e | _ => None end.

(** ** Prerequisite failures (prerequisite.go) *)

Definition prerequisiteRefused : string := "refused".
Definition prerequisiteMismatch : string := "mismatch".
Definition prerequisiteTaskFailed : string := "task_failed".
Definition prerequisiteLocalFailure : string := "local_failure".
Definition prerequisiteStatusRefused : string := "status_refused".
Definition prerequisiteStatusLocal : string := "status_local".
Definition prerequisiteFenced : string := "fenced".

Definition prerequisiteFailureTripCount : Z := 2.

Record prerequisiteFailure := { pf_class : string; pf_reason : string; pf_kind : string }.

Definition refusedPrerequisite : prerequisiteFailure :=
  {| pf_class := prerequisiteRefused;
     pf_reason := "the workspace snapshot prerequisite was refused by the trusted world";
     pf_kind := NativeResultBlockedExternal |}.
Definition mismatchedPrerequisite : prerequisiteFailure :=
  {| pf_class := prerequisiteMismatch;
     pf_reason := "the worker workspace does not hold the dispatched snapshot";
     pf_kind := NativeResultBlockedExternal |}.
Definition failedPrerequisiteTask (exitCode : Z) : prerequisiteFailure :=
  {| pf_class := prerequisiteTaskFailed;
     pf_reason := "the fixed workspace preparation task failed with exit code " ++ Itoa exitCode;
     pf_kind := NativeResultBlockedExternal |}.
Definition localBrokerFailure : prerequisiteFailure :=
  {| pf_class := prerequisiteLocalFailure;
     pf_reason := "the workspace snapshot could not be prepared: the broker call failed locally and the failure recurred";
     pf_kind := NativeResultInfrastructureFailed |}.
Definition fencedPrerequisite : prerequisiteFailure :=
  {| pf_class := prerequisiteFenced;
     pf_reason := "the worker is fenced: no further workspace operation may run against it";
     pf_kind := NativeResultInfrastructureFailed |}.
Definition statusPathRefused : prerequisiteFailure :=
  {| pf_class := prerequisiteStatusRefused;
     pf_reason := "the trusted status path refused the operation's status record; no operation can be dispatched";
     pf_kind := NativeResultInfrastructureFailed |}.
Definition statusPathLocalFailure : prerequisiteFailure :=
  {| pf_class := prerequisiteStatusLocal;
     pf_reason := "the trusted status path failed to persist the operation's status record; no operation can be dispatched";
     pf_kind := NativeResultInfrastructureFailed |}.

Definition prerequisite_error (f : prerequisiteFailure) : herror :=
  HErr (NPrerequisite (pf_class f) (pf_kind f)) (pf_reason f) [].

Definition as_prerequisite (e : herror) : option prerequisiteFailure :=
  match payload e with
  | NPrerequisite c k => Some {| pf_class := c; pf_reason := text e; pf_kind := k |}
  | _ => None
  end.

(** [statusPersistFailure] wraps the one error of the status path. *)
Definition statusPersistFailure (opID : string) (err : herror) : herror :=
  HErr (NStatusPersist opID)
    ("operation " ++ opID ++ " was not dispatched because its status entry could not be persisted: " ++ text err) [err].

Definition as_persist (e : herror) : option herror :=
  match payload e with NStatusPersist _ => head (causes e) | _ => None end.

Definition workerFence (reason : string) : herror := HErr NWorkerFence reason [].
Definition bootstrapBlocker (reason : string) : herror := HErr NBootstrapBlocker reason [].

Definition classifyPrerequisite (err : option herror) : option prerequisiteFailure :=
  match err with
  | None => None
  | Some e =>
      match errors_as as_prerequisite e with
      | Some failure => Some failure
      | None =>
          if errors_is is_blocker e then None else
          if errors_is is_fence e then Some fencedPrerequisite else
          if errors_is is_unverified e then None else
          match errors_as as_persist e with
          | Some inner =>
              if isBrokerRetryable inner then None else
              match errors_as as_broker inner with
              | Some c => if definiteWorkerRejectionStatus (StatusCode c) then Some statusPathRefused else Some statusPathLocalFailure
              | None => Some statusPathLocalFailure
              end
          | None =>
              match errors_as as_broker e with
              | Some c =>
                  if bc_Retryable c then None else
                  if definiteWorkerRejectionStatus (StatusCode c) then Some refusedPrerequisite else Some localBrokerFailure
              | None =>
                  match errors_as as_transport e with
                  | Some s => if definiteWorkerRejectionStatus s then Some refusedPrerequisite else None
                  | None => None
                  end
              end
          end
      end
  end.

(** ** The latch *)

Record prerequisiteLatch := { failures : Z; trip : option prerequisiteFailure; consumed : bool }.

Definition new_latch : prerequisiteLatch := {| failures := 0; trip := None; consumed := false |}.

(** The classes one observation establishes. *)
Definition final_class (class : string) : bool :=
  existsb (String.eqb class)
    [prerequisiteRefused; prerequisiteMismatch; prerequisiteFenced; prerequisiteStatusRefused; prerequisiteStatusLocal].

Definition observe (l : prerequisiteLatch) (failure : option prerequisiteFailure) : prerequisiteLatch :=
  match failure with
  | None => l
  | Some f =>
      let failures := int_add (failures l) 1 in
      match trip l with
      | Some _ => {| failures := failures; trip := trip l; consumed := consumed l |}
      | None =>
          if final_class (pf_class f) || (prerequisiteFailureTripCount <=? failures)
          then {| failures := failures; trip := Some f; consumed := consumed l |}
          else {| failures := failures; trip := None; consumed := consumed l |}
      end
  end.

Definition peek (l : prerequisiteLatch) : option prerequisiteFailure := trip l.

Definition take_trip (l : prerequisiteLatch) : prerequisiteLatch * option prerequisiteFailure :=
  match trip l with
  | None => (l, None)
  | Some f =>
      if consumed l then (l, None)
      else ({| failures := failures l; trip := trip l; consumed := true |}, Some f)
  end.

(** ** Provider availability (availability.go) *)

Definition ProviderTransientRateLimit : string := "transient-rate-limit".
Definition ProviderAllowanceExhausted : string := "allowance-exhausted".
Definition ProviderAuthenticationFailed : string := "authentication-failed".
Definition ProviderRequestRejected : string := "request-rejected".
Definition ProviderContextExhausted : string := "context-exhausted".
Definition ProviderUnavailable : string := "provider-unavailable".
Definition ProviderUnknown : string := "unknown".

Definition maxProviderSignalLength : Z := 64.
Definition second : Z := 1000000000.
Definition maxRetryAfter : Z := 24 * 60 * 60 * second.
Definition maxInProcessRetryAfter : Z := 5 * second.

Record ExhaustionSignals := { Codes : list string; Types : list string }.

Definition DefaultExhaustionSignals : ExhaustionSignals :=
  {| Codes := ["insufficient_quota"; "quota_exceeded"; "usage_limit_reached"; "insufficient_balance"; "billing_hard_limit_reached"];
     Types := ["insufficient_quota"; "quota_exceeded"; "billing_error"] |}.

Definition signals_empty (s : ExhaustionSignals) : bool :=
  match Codes s, Types s with [], [] => true | _, _ => false end.

Definition splitSignals (raw : string) : list string :=
  List.filter (fun p => negb (String.eqb p "")) (TrimSpace <$> Split raw ",").

(** The [seen] set of the source holds the lower-cased members of [base]. *)
Fixpoint appendUniqueSignals (base extra : list string) : list string :=
  match extra with
  | [] => base
  | v :: extra =>
      if existsb (fun b => String.eqb (ToLower b) (ToLower v)) base then appendUniqueSignals base extra
      else appendUniqueSignals (base ++ [v]) extra
  end.

Definition ParseExhaustionSignals (codes types : string) : ExhaustionSignals :=
  {| Codes := appendUniqueSignals (Codes DefaultExhaustionSignals) (splitSignals codes);
     Types := appendUniqueSignals (Types DefaultExhaustionSignals) (splitSignals types) |}.

Record ProviderClassification := {
  Availability : string; pc_Code : string; RetryAfter : Z; pc_Retryable : bool
}.

Definition Deferred (c : ProviderClassification) : bool :=
  if String.eqb (Availability c) ProviderAllowanceExhausted || String.eqb (Availability c) ProviderTransientRateLimit
  then true else pc_Retryable c && (maxInProcessRetryAfter <? RetryAfter c).

Definition signal_matches (s : ExhaustionSignals) (code errType : string) : bool :=
  existsb (fun candidate =>
      negb (String.eqb candidate "") &&
      (existsb (EqualFold candidate) (Codes s) || existsb (EqualFold candidate) (Types s)))
    [code; errType].

Definition firstSignal (code errType : string) : string := if String.eqb code "" then errType else code.

Definition isContextSignal (code errType : string) : bool :=
  existsb (fun candidate =>
      existsb (String.eqb (ToLower candidate))
        ["context_length_exceeded"; "context_length_exceeded_error"; "max_tokens_exceeded"; "string_above_max_length"])
    [code; errType].

Definition signal_char (c : ascii) : bool :=
  in_range 97 122 c || in_range 65 90 c || in_range 48 57 c ||
  Ascii.eqb c "_" || Ascii.eqb c "." || Ascii.eqb c "-".

Fixpoint signal_chars (s : string) : bool :=
  match s with "" => true | String c r => signal_char c && signal_chars r end.

Definition normalizeProviderSignalText (value : string) : string :=
  let value := TrimSpace value in
  if String.eqb value "" || (maxProviderSignalLength <? slen value) then "" else
  if signal_chars value then value else "".

(** The JSON shape of a provider's error body; a code is kept as its raw
    bytes until [code_text] renders it. *)
Record providerErrorEnvelope := {
  pe_Error : option (string * string); pe_Code : string; pe_Type : string
}.

(** [encoding/json] on the two shapes, and [http.ParseTime]. *)
Class ErrorBody := {
  decode_envelope : string -> option providerErrorEnvelope;
  code_text : string -> string;
  ParseHTTPTime : string -> option Time
}.

Section Classification.
Context {EB : ErrorBody}.

Definition normalizeProviderSignal (raw : string) : string :=
  if String.eqb raw "" then "" else normalizeProviderSignalText (code_text raw).

Definition structuredErrorSignal (body : string) : string * string :=
  if String.eqb body "" then ("", "") else
  match decode_envelope body with
  | None => ("", "")
  | Some envelope =>
      let '(rawCode, errType) :=
        match pe_Error envelope with
        | None => (pe_Code envelope, pe_Type envelope)
        | Some (code, type) =>
            (if String.eqb code "" then pe_Code envelope else code,
             if String.eqb type "" then pe_Type envelope else type)
        end in
      (normalizeProviderSignal rawCode, normalizeProviderSignalText errType)
  end.

Definition boundRetryAfter (d : Z) : Z := if maxRetryAfter <? d then maxRetryAfter else d.

(** [header] is the Retry-After header, [""] when absent.  The product with
    [time.Second] wraps, as a [time.Duration] does. *)
Definition parseRetryAfter (header : string) (now : Time) : Z :=
  let raw := TrimSpace header in
  if String.eqb raw "" then 0 else
  let '(seconds, ok) := Atoi raw in
  if ok then if seconds <=? 0 then 0 else boundRetryAfter (int_mul seconds second) else
  match ParseHTTPTime raw with
  | Some when => let until := Sub when now in if until <=? 0 then 0 else boundRetryAfter until
  | None => 0
  end.

Definition classified (availability code : string) (retryAfter : Z) (retryable : bool) : ProviderClassification :=
  {| Availability := availability; pc_Code := code; RetryAfter := retryAfter; pc_Retryable := retryable |}.

Definition ClassifyProviderError (status : Z) (header body : string) (signals : ExhaustionSignals) (now : Time) :
    ProviderClassification :=
  let signals := if signals_empty signals then DefaultExhaustionSignals else signals in
  let retryAfter := parseRetryAfter header now in
  let '(code, errType) := structuredErrorSignal body in
  if isContextSignal code errType then classified ProviderContextExhausted (firstSignal code errType) retryAfter false else
  if signal_matches signals code errType then classified ProviderAllowanceExhausted (firstSignal code errType) retryAfter false else
  if status =? 402 then classified ProviderAllowanceExhausted (firstSignal code errType) retryAfter false else
  if status =? 429 then classified ProviderTransientRateLimit "" retryAfter true else
  if (status =? 401) || (status =? 403) then classified ProviderAuthenticationFailed "" retryAfter false else
  if status =? 408 then classified ProviderUnavailable "" retryAfter true else
  if 500 <=? status then classified ProviderUnavailable "" retryAfter true else
  if (status =? 400) || (status =? 404) || (status =? 422) || (status =? 413)
  then classified ProviderRequestRejected "" retryAfter false
  else classified ProviderUnknown "" retryAfter false.

Definition classifyStreamSignal (code errType : string) (signals : ExhaustionSignals) : ProviderClassification :=
  let signals := if signals_empty signals then DefaultExhaustionSignals else signals in
  let code := normalizeProviderSignalText code in
  let errType := normalizeProviderSignalText errType in
  if isContextSignal code errType then classified ProviderContextExhausted (firstSignal code errType) 0 false else
  if signal_matches signals code errType then classified ProviderAllowanceExhausted (firstSignal code errType) 0 false else
  classified ProviderUnknown "" 0 false.

(** [GatewayError.classification]: an error built without a class falls back
    to its status, with no header and no body. *)
Definition as_gateway (e : herror) : option ProviderClassification :=
  match payload e with
  | NGateway status availability code retryAfter retryable =>
      Some (if String.eqb availability "" then ClassifyProviderError status "" "" DefaultExhaustionSignals 0
            else classified availability code retryAfter retryable)
  | _ => None
  end.

Definition providerClassificationOf (err : option herror) : option ProviderClassification :=
  match err with None => None | Some e => errors_as as_gateway e end.

End Classification.

(** ** Lemmas *)

Lemma first_some_in {A B} (f : A -> option B) l y : first_some f l = Some y -> exists x, x ∈ l /\ f x = Some y.
Proof.
  induction l as [|x l IH]; simpl; [done|]. destruct (f x) as [z|] eqn:Hx.
  - intros [= <-]. exists x. split; [left|done].
  - intros H. destruct (IH H) as (x' & Hin & Hf). exists x'. split; [by right|done].
Qed.

Lemma errors_as_in {A} (sel : herror -> option A) e a : errors_as sel e = Some a -> exists x, x ∈ chain e /\ sel x = Some a.
Proof. apply first_some_in. Qed.

(** A signal that is kept is a short token of the safe alphabet. *)
Definition safe_signal (s : string) : Prop := slen s <= maxProviderSignalLength /\ signal_chars s = true.

Lemma normalize_safe s : safe_signal (normalizeProviderSignalText s).
Proof.
  unfold normalizeProviderSignalText, safe_signal. set (v := TrimSpace s).
  destruct (String.eqb v "" || (maxProviderSignalLength <? slen v)) eqn:Hv; [done|].
  apply orb_false_iff in Hv as [_ Hv]. destruct (signal_chars v) eqn:Hc; [|done]. split; [lia|done].
Qed.

Lemma structured_safe `{ErrorBody} body :
  safe_signal (structuredErrorSignal body).1 /\ safe_signal (structuredErrorSignal body).2.
Proof.
  assert (Hempty : safe_signal "") by done.
  assert (Hsig : forall raw, safe_signal (normalizeProviderSignal raw)).
  { intros raw. unfold normalizeProviderSignal. destruct (String.eqb raw ""); [done|apply normalize_safe]. }
  unfold structuredErrorSignal. destruct (String.eqb body ""); [done|].
  destruct (decode_envelope body) as [env|]; [|done].
  destruct (pe_Error env) as [[code type]|]; simpl; auto using normalize_safe.
Qed.

Lemma first_safe code errType : safe_signal code -> safe_signal errType -> safe_signal (firstSignal code errType).
Proof. unfold firstSignal. destruct (String.eqb code ""); auto. Qed.

Lemma retry_after_bounded `{ErrorBody} header now : parseRetryAfter header now <= maxRetryAfter.
Proof.
  unfold parseRetryAfter, boundRetryAfter. destruct (String.eqb _ ""); [done|].
  destruct (Atoi _) as [seconds ok]. repeat case_match; try done; lia.
Qed.

(** The effective signal set of a classification. *)
Definition effective_signals (signals : ExhaustionSignals) : ExhaustionSignals :=
  if signals_empty signals then DefaultExhaustionSignals else signals.

(** ** The latch *)

Lemma observe_some l f : trip l = Some f -> forall g, trip (observe l g) = Some f.
Proof. intros H [g|]; simpl; [by rewrite H|done]. Qed.

Lemma observe_all_tripped fs l f : trip l = Some f -> trip (foldl observe l fs) = Some f.
Proof. revert l. induction fs as [|g fs IH]; intros l H; simpl; [done|]. apply IH. by apply observe_some. Qed.

(** What the latch of an incarnation reports after a sequence of observations:
    the first stable failure when its class is final, else the second. *)
Definition decisive (fs : list (option prerequisiteFailure)) : option prerequisiteFailure :=
  match omap (fun f => f) fs with
  | [] => None
  | [f] => if final_class (pf_class f) then Some f else None
  | f :: g :: _ => if final_class (pf_class f) then Some f else Some g
  end.

(** One observed failure that did not trip. *)
Lemma observe_second l g : trip l = None -> failures l = 1 -> trip (observe l (Some g)) = Some g.
Proof. intros Ht Hf. simpl. rewrite Ht, Hf. by rewrite orb_true_r. Qed.

Lemma observe_rest fs l :
  trip l = None -> failures l = 1 -> trip (foldl observe l fs) = head (omap (fun f => f) fs).
Proof.
  revert l. induction fs as [|[g|] fs IH]; intros l Ht Hf; [done| |].
  - cbn [foldl omap list_omap head]. apply observe_all_tripped. by apply observe_second.
  - cbn [foldl omap list_omap]. by apply IH.
Qed.

Lemma latch_decisive fs l :
  trip l = None -> failures l = 0 -> trip (foldl observe l fs) = decisive fs.
Proof.
  revert l. unfold decisive. induction fs as [|[f|] fs IH]; intros l Ht Hf; [done| |].
  - cbn [foldl omap list_omap]. destruct (final_class (pf_class f)) eqn:Hc.
    + rewrite (observe_all_tripped fs _ f); [by destruct (omap _ fs)|]. simpl. by rewrite Ht, Hc.
    + rewrite observe_rest; [by destruct (omap _ fs)| |]; simpl; rewrite Ht, Hc, Hf; done.
  - cbn [foldl omap list_omap]. by apply IH.
Qed.

(** ** Properties *)

(** The provider classification is bounded and never guesses: the code that is
    kept is a short token of a fixed alphabet; exhaustion is declared exactly on
    a configured signal or a 402, and never over a context signal; only a rate
    limit, a timeout or a 5xx is worth an in-process retry; the retry hint is at
    most a day. *)
Theorem provider_classification_sound `{ErrorBody} (status : Z) (header body : string) (signals : ExhaustionSignals) (now : Time) :
  let c := ClassifyProviderError status header body signals now in
  let '(code, errType) := structuredErrorSignal body in
  safe_signal (pc_Code c) /\ RetryAfter c <= maxRetryAfter /\
  (Availability c = ProviderAllowanceExhausted <->
     isContextSignal code errType = false /\ (signal_matches (effective_signals signals) code errType = true \/ status = 402)) /\
  (pc_Retryable c = true -> status = 429 \/ status = 408 \/ 500 <= status).
Proof.
  pose proof (structured_safe body) as [Hc He]. destruct (structuredErrorSignal body) as [code errType] eqn:Hs.
  simpl in Hc, He. pose proof (first_safe _ _ Hc He) as Hf. assert (Hempty : safe_signal "") by done.
  pose proof (retry_after_bounded header now) as Hr.
  unfold ClassifyProviderError, effective_signals. rewrite Hs.
  destruct (isContextSignal code errType); [by intuition|].
  destruct (signal_matches _ code errType); [by intuition|].
  repeat case_match; simpl; split_and!; try done; try (intros; lia);
    try (split; [done|intros [_ [?|?]]; [done|lia]]).
  split; [intros _; split; [done|right; lia]|done].
Qed.

(** The latch of an incarnation, over any sequence of observations: a failure
    of a final class trips it at once, two failures of any classes always do,
    the failure that tripped it is the one it reports from then on, and it is
    handed to one consumer only. *)
Theorem latch_trips_once (fs : list (option prerequisiteFailure)) :
  let l := foldl observe new_latch fs in
  peek l = decisive fs /\
  (forall g, peek l <> None -> peek (observe l g) = peek l) /\
  (take_trip l).2 = peek l /\ (take_trip (take_trip l).1).2 = None /\ peek (take_trip l).1 = peek l.
Proof.
  cbn zeta. assert (Hcons : forall fs l, consumed l = false -> consumed (foldl observe l fs) = false).
  { clear fs. induction fs as [|[f|] fs IH]; intros l Hl; simpl; [done| |by apply IH].
    apply IH. by destruct (trip l); [|destruct (_ || _)]. }
  specialize (Hcons fs new_latch eq_refl).
  assert (Hd : trip (foldl observe new_latch fs) = decisive fs) by by apply latch_decisive.
  set (l := foldl observe new_latch fs) in *. unfold peek. rewrite Hd. split; [done|].
  split; [|unfold take_trip; rewrite Hd; destruct (decisive fs) as [f|]; [rewrite Hcons; cbn; done|cbn; by rewrite Hd]].
  intros g Hne. destruct (decisive fs) as [f|]; [|done]. by apply observe_some.
Qed.

(** A refusal is a fact the trusted world stated: unless the failure is already
    typed, an error is classified as refused only when its chain carries a
    non-retryable broker denial or a definite worker rejection, and an error
    whose termination could not be verified is never a refusal. *)
Theorem refusal_is_stated (e : herror) (f : prerequisiteFailure)
    (Hun : errors_as as_prerequisite e = None) (Hf : classifyPrerequisite (Some e) = Some f)
    (Hk : pf_kind f = NativeResultBlockedExternal) :
  errors_is is_unverified e = false /\ pf_class f = prerequisiteRefused /\
  exists x, x ∈ chain e /\
    ((exists c, as_broker x = Some c /\ bc_Retryable c = false /\ definiteWorkerRejectionStatus (StatusCode c) = true) \/
     (exists s, as_transport x = Some s /\ definiteWorkerRejectionStatus s = true)).
Proof.
  unfold classifyPrerequisite in Hf. rewrite Hun in Hf.
  destruct (errors_is is_blocker e); [done|]. destruct (errors_is is_fence e); [by injection Hf as <-|].
  destruct (errors_is is_unverified e); [done|]. split; [done|].
  destruct (errors_as as_persist e) as [inner|].
  { destruct (isBrokerRetryable inner); [done|]. repeat case_match; by injection Hf as <-. }
  destruct (errors_as as_broker e) as [c|] eqn:Hb.
  - destruct (bc_Retryable c) eqn:Hr; [done|]. destruct (definiteWorkerRejectionStatus (StatusCode c)) eqn:Hd;
      injection Hf as <-; [|done]. split; [done|]. apply errors_as_in in Hb as (x & Hin & Hx). exists x. eauto 8.
  - destruct (errors_as as_transport e) as [s|] eqn:Ht; [|done].
    destruct (definiteWorkerRejectionStatus s) eqn:Hd; [|done]. injection Hf as <-. split; [done|].
    apply errors_as_in in Ht as (x & Hin & Hx). exists x. eauto 8.
Qed.

Lemma refusal_is_stated_witness :
  errors_is is_unverified (wrap_error "snapshot" [broker_error (brokerStatusError 403)]) = false.
Proof.
  exact (proj1 (refusal_is_stated (wrap_error "snapshot" [broker_error (brokerStatusError 403)]) refusedPrerequisite
                  eq_refl eq_refl eq_refl)).
Defined.
