(* ===== verification/Session.v ===== *)
(** * Model sessions (internal/harness/session.go)

    One role-bound conversation: its transcript, the pinned prefix compaction
    never digests, the step-boundary compaction that applies Budget.v's plan to
    a real transcript, and the turn loop with its bounded in-process retries.

    The model gateway, the telemetry sinks and the activity sink are requests
    of [sessionE].  A tool's [Parameters] are kept as the JSON text the wire
    carries, empty when there are none.  String lengths are mathematical
    integers: they are bounded by memory. *)

From S2P Require Import Prelude Effects GoStrings GoTime Run Pods Budget HarnessErrors.
Local Open Scope string_scope.
Local Open Scope Z_scope.

(** ** Transcripts and events (gateway.go, events.go) *)

Record ToolCall := { tc_ID : string; tc_Name : string; tc_Arguments : string }.

Record ToolResult := { tr_ToolCallID : string; tr_Name : string; Content : string; IsError : bool }.

Record Message := {
  m_Role : string; m_Content : string; m_ToolCallID : string; m_ToolCalls : list ToolCall; m_Blocks : list string
}.

Record ToolDef := { td_Name : string; td_Description : string; td_Parameters : string }.

Record Usage := { InputTokens : Z; OutputTokens : Z; CacheReadTokens : Z; CacheWriteTokens : Z }.

Definition KindDelta : string := "delta".
Definition KindToolRequest : string := "tool-request".
Definition KindToolResult : string := "tool-result".
Definition KindFinal : string := "final".
Definition KindError : string := "error".

Record Event := {
  Kind : string; ev_Text : string; ev_Tool : ToolCall; ev_Blocks : list string; ev_Err : herror;
  ev_Usage : option Usage; RejectedRequests : nat
}.

Definition text_message (role content : string) : Message :=
  {| m_Role := role; m_Content := content; m_ToolCallID := ""; m_ToolCalls := []; m_Blocks := [] |}.

Definition ToolResultMessage (result : ToolResult) : Message :=
  {| m_Role := "tool"; m_Content := Content result; m_ToolCallID := tr_ToolCallID result; m_ToolCalls := []; m_Blocks := [] |}.

Definition AssistantMessageWithBlocks (text : string) (calls : list ToolCall) (blocks : list string) : Message :=
  {| m_Role := "assistant"; m_Content := text; m_ToolCallID := ""; m_ToolCalls := calls; m_Blocks := blocks |}.

(** ** Bindings *)

Definition RoleCoordinator : string := "coordinator".

Definition Bindings : Type := gmap string string.

(** [BindRoles] ranges over a Go map: [roles] lists it in the order it was
    ranged over. *)
Fixpoint bind_roles (roles : list (string * string)) (out : Bindings) : result herror Bindings :=
  match roles with
  | [] => Ok out
  | (role, model) :: rest =>
      let role := TrimSpace role in
      let model := TrimSpace model in
      if String.eqb role "" || String.eqb model "" then Err (new_error "harness: role has an empty model binding")
      else bind_roles rest (<[role := model]> out)
  end.

Definition Model (b : Bindings) (role : string) : string := default "" (b !! role).

Definition BindRoles (roles : list (string * string)) : result herror Bindings :=
  out ← bind_roles roles ∅;
  if String.eqb (Model out RoleCoordinator) "" then Err (new_error "harness: lane binds no coordinator model") else Ok out.

(** ** Sessions *)

Record Session := {
  s_binding : string; Messages : list Message; s_role : string; s_budget : ContextBudget;
  s_pinned : nat; s_settled : string;
  s_activity : bool; s_compactions : bool; s_requests : bool
}.

Definition with_messages (s : Session) (ms : list Message) : Session :=
  {| s_binding := s_binding s; Messages := ms; s_role := s_role s; s_budget := s_budget s; s_pinned := s_pinned s;
     s_settled := s_settled s; s_activity := s_activity s; s_compactions := s_compactions s; s_requests := s_requests s |}.

Definition NewSession (binding : Bindings) (role : string) (budget : ContextBudget) (activity compactions requests : bool) :
    result herror Session :=
  let model := Model binding role in
  if String.eqb model "" then Err (new_error "harness: no model is bound to role") else
  Ok {| s_binding := model; Messages := []; s_role := role; s_budget := budget; s_pinned := 0; s_settled := "";
        s_activity := activity; s_compactions := compactions; s_requests := requests |}.

Definition Append (s : Session) (m : Message) : Session := with_messages s (Messages s ++ [m]).

Definition Pin (s : Session) (m : Message) : Session :=
  let ms := (Messages s ++ [m])%list in
  {| s_binding := s_binding s; Messages := ms; s_role := s_role s; s_budget := s_budget s; s_pinned := length ms;
     s_settled := s_settled s; s_activity := s_activity s; s_compactions := s_compactions s; s_requests := s_requests s |}.

Definition Settle (s : Session) (t : string) : Session :=
  {| s_binding := s_binding s; Messages := Messages s; s_role := s_role s; s_budget := s_budget s; s_pinned := s_pinned s;
     s_settled := t; s_activity := s_activity s; s_compactions := s_compactions s; s_requests := s_requests s |}.

(** ** Estimates *)

Definition tokensPerChar : Z := 4.
Definition toolWireEnvelopeChars : Z := 48.

Definition sum_of {A} (f : A -> Z) (l : list A) : Z := foldr (fun x n => f x + n) 0 l.

Definition message_chars (m : Message) : Z :=
  slen (m_Role m) + slen (m_Content m) + slen (m_ToolCallID m) +
  sum_of (fun c => slen (tc_ID c) + slen (tc_Name c) + slen (tc_Arguments c)) (m_ToolCalls m) +
  sum_of slen (m_Blocks m).

Definition at_least_one (tokens : Z) : Z := if tokens <? 1 then 1 else tokens.

Definition estimateMessageTokens (m : Message) : Z := at_least_one (message_chars m / tokensPerChar).

Definition tool_chars (t : ToolDef) : Z :=
  toolWireEnvelopeChars + slen (td_Name t) + slen (td_Description t) + slen (td_Parameters t).

Definition estimateToolTokens (tools : list ToolDef) : Z :=
  sum_of (fun t => at_least_one (tool_chars t / tokensPerChar)) tools.

Definition messageTokens (ms : list Message) : list Z := estimateMessageTokens <$> ms.

(** ** Digests *)

Definition digestLineChars : nat := 96.
Definition maxDigestLines : nat := 20.

(** [string([]rune(s)[:n])]: an invalid byte becomes U+FFFD. *)
Definition replacement : string := str1 0xEF ++ str1 0xBF ++ str1 0xBD.

Fixpoint rune_take (skip n : nat) (s : string) : string :=
  match s with
  | "" => ""
  | String c r =>
      match skip with
      | S k => String c (rune_take k n r)
      | O =>
          match n with
          | O => ""
          | S n =>
              let '(w, ok) := decode_rune s in
              if ok then String c (rune_take (w - 1) n r) else replacement ++ rune_take 0 n r
          end
      end
  end.

Definition digestLine (m : Message) : string :=
  let t := Join (Fields (m_Content m)) " " in
  let t := if Z.of_nat digestLineChars <? RuneCountInString t then rune_take 0 digestLineChars t ++ "..." else t in
  if String.eqb t "" then m_Role m ++ ": (no text)" else m_Role m ++ ": " ++ t.

Definition digest_lines (ms : list Message) : string :=
  foldr (fun m acc => nl ++ "- " ++ digestLine m ++ acc) "" ms.

Definition compactDigest (count : nat) (settled : string) (digested : list Message) : Message :=
  text_message "system"
    ("[compacted: " ++ Itoa (Z.of_nat count) ++
     " earlier messages were summarized to save context; their tool results and file contents are no longer available]" ++
     (if String.eqb settled "" then "" else nl ++ settled) ++
     digest_lines (take maxDigestLines digested) ++
     (if (maxDigestLines <? length digested)%nat
      then nl ++ "- ... and " ++ Itoa (Z.of_nat (length digested - maxDigestLines)) ++ " more messages" else "")).

(** ** Compaction *)

(** The index of the last assistant message. *)
Fixpoint last_assistant (ms : list Message) : option nat :=
  match ms with
  | [] => None
  | m :: r =>
      match last_assistant r with
      | Some i => Some (S i)
      | None => if String.eqb (m_Role m) "assistant" then Some 0%nat else None
      end
  end.

Definition protected_index (s : Session) (i : nat) : bool :=
  (i <? s_pinned s)%nat || match last_assistant (Messages s) with Some a => (a <=? i)%nat | None => false end.

Definition protectedMessages (s : Session) : list bool := protected_index s <$> seq 0 (length (Messages s)).

Definition digestibleIndexes (protected : list bool) : list nat :=
  filter (fun i => protectedAt protected i = false) (seq 0 (length protected)).

Definition countDigestable (protected : list bool) : nat := length (digestibleIndexes protected).

Definition messagesAt (ms : list Message) (indexes : list nat) : list Message := omap (fun i => ms !! i) indexes.

(** The tool results that follow index [i]. *)
Fixpoint grow (ms : list Message) (protected : list bool) (i : nat) : list nat :=
  match ms with
  | [] => []
  | m :: r =>
      if negb (String.eqb (m_Role m) "tool") || protectedAt protected i then [] else i :: grow r protected (S i)
  end.

Definition digestedSpan (ms : list Message) (digested : list nat) (protected : list bool) : list nat :=
  match last digested with
  | None => digested
  | Some i => (digested ++ grow (drop (S i) ms) protected (S i))%list
  end.

Fixpoint apply_from (i : nat) (replaced : bool) (digested : list nat) (digest : Message) (ms : list Message) : list Message :=
  match ms with
  | [] => []
  | m :: r =>
      if bool_decide (i ∈ digested)
      then if replaced then apply_from (S i) true digested digest r else digest :: apply_from (S i) true digested digest r
      else m :: apply_from (S i) replaced digested digest r
  end.

Definition applyCompaction (ms : list Message) (digested : list nat) (digest : Message) : list Message :=
  match digested with [] => ms | _ => apply_from 0 false digested digest ms end.

Record CompactEvent := {
  ce_Role : string; ce_Model : string; ce_Before : Z; ce_After : Z; ce_NetSaved : Z; ce_DigestedTokens : Z
}.

Inductive compact_error :=
| EPlan (e : budget_error)
| EApplied (after : Z) (b : ContextBudget).

Definition compaction_input (s : Session) (tools : list ToolDef) : CompactionInput :=
  let protected := protectedMessages s in
  {| MessageTokens := messageTokens (Messages s);
     Protected := protected;
     DigestTokens := estimateMessageTokens
       (compactDigest (countDigestable protected) (s_settled s) (messagesAt (Messages s) (digestibleIndexes protected)));
     FixedTokens := estimateToolTokens tools;
     Budget := s_budget s |}.

(** [Compact], but for the delivery of its event to the sink. *)
Definition compact_step (s : Session) (tools : list ToolDef) : result compact_error (Session * option CompactEvent) :=
  if EffectiveLimit (s_budget s) <=? 0 then Ok (s, None) else
  match PlanCompaction (compaction_input s tools) with
  | Err e => Err (EPlan e)
  | Ok plan =>
      if negb (Compacted plan) then Ok (s, None) else
      let span := digestedSpan (Messages s) (Digested plan) (protectedMessages s) in
      let digest := compactDigest (length span) (s_settled s) (messagesAt (Messages s) span) in
      let digestedTokens := foldl (fun n i => int_add n (default 0 (messageTokens (Messages s) !! i))) 0 span in
      let after := int_add (int_sub (Before plan) digestedTokens) (estimateMessageTokens digest) in
      if negb (FitsAfterCompaction (s_budget s) after) then Err (EApplied after (s_budget s)) else
      Ok ({| s_binding := s_binding s; Messages := applyCompaction (Messages s) span digest; s_role := s_role s;
             s_budget := BudgetAfter plan; s_pinned := s_pinned s; s_settled := s_settled s; s_activity := s_activity s;
             s_compactions := s_compactions s; s_requests := s_requests s |},
          Some {| ce_Role := s_role s; ce_Model := s_binding s; ce_Before := Before plan; ce_After := after;
                  ce_NetSaved := int_sub (Before plan) after; ce_DigestedTokens := digestedTokens |})
  end.

(** ** Turns *)

Record ChatRequest := { cq_Model : string; cq_Messages : list Message; cq_Tools : list ToolDef; cq_MaxTokens : Z }.

Record RequestObservation := {
  ro_Role : string; ro_Model : string; ro_Attempt : nat; ro_OK : bool; ro_Usage : option Usage;
  ro_EstimatedPromptTokens : Z; ro_Rejected : bool
}.

(** [StreamChat] answers the turn's events with its terminal event apart: a
    transport always ends a stream with one. *)
Inductive sessionE : Type -> Type :=
| StreamChat (req : ChatRequest) : sessionE (result herror (list Event * Event))
| ModelRequestObserved (o : RequestObservation) : sessionE unit
| SessionCompacted (e : CompactEvent) : sessionE unit
| StreamChunk : sessionE unit
| RetryWait (delay : Z) : sessionE bool.

Definition maxStreamRetries : nat := 3.
Definition retryBackoff : Z := 250000000.

(** [Compact]: the sink hears of an applied compaction. *)
Definition Compact (s : Session) (tools : list ToolDef) : prog sessionE (result compact_error (Session * option CompactEvent)) :=
  match compact_step s tools with
  | Ok (s', Some event) =>
      if s_compactions s then _ ← call (SessionCompacted event); mret (Ok (s', Some event)) else mret (Ok (s', Some event))
  | r => mret r
  end.

Section Turn.
Context {EB : ErrorBody}.

Definition as_gateway_transport (e : herror) : option unit := match payload e with NGatewayTransport => Some tt | _ => None end.

(** The wait before the next attempt, when the failure is worth one. *)
Definition turnRetryDelay (err : herror) : option Z :=
  match errors_as as_gateway_transport err with
  | Some _ => Some retryBackoff
  | None =>
      match errors_as as_gateway err with
      | None => None
      | Some c =>
          if negb (pc_Retryable c) || (maxInProcessRetryAfter <? RetryAfter c) then None else
          if 0 <? RetryAfter c then Some (RetryAfter c) else
          if String.eqb (Availability c) ProviderTransientRateLimit then None else Some retryBackoff
      end
  end.

Fixpoint observe_rejected (s : Session) (attempt : nat) (estimated : Z) (n : nat) : prog sessionE unit :=
  match n with
  | O => mret tt
  | S n =>
      _ ← call (ModelRequestObserved
            {| ro_Role := s_role s; ro_Model := s_binding s; ro_Attempt := attempt; ro_OK := false; ro_Usage := None;
               ro_EstimatedPromptTokens := estimated; ro_Rejected := true |});
      observe_rejected s attempt estimated n
  end.

Definition observeRequest (s : Session) (attempt : nat) (estimated : Z) (terminal : Event) : prog sessionE unit :=
  if negb (s_requests s) then mret tt else
  _ ← observe_rejected s attempt estimated (RejectedRequests terminal);
  call (ModelRequestObserved
    {| ro_Role := s_role s; ro_Model := s_binding s; ro_Attempt := attempt;
       ro_OK := negb (String.eqb (Kind terminal) KindError); ro_Usage := ev_Usage terminal;
       ro_EstimatedPromptTokens := estimated; ro_Rejected := false |}).

Definition recordActivity (s : Session) (events : list Event) : prog sessionE unit :=
  if s_activity s && existsb (fun e => String.eqb (Kind e) KindDelta) events then call StreamChunk else mret tt.

Definition error_event (e : herror) : Event :=
  {| Kind := KindError; ev_Text := ""; ev_Tool := {| tc_ID := ""; tc_Name := ""; tc_Arguments := "" |}; ev_Blocks := [];
     ev_Err := e; ev_Usage := None; RejectedRequests := 0 |}.

Definition chat_request (s : Session) (tools : list ToolDef) : ChatRequest :=
  {| cq_Model := s_binding s; cq_Messages := Messages s; cq_Tools := tools; cq_MaxTokens := OutputReservation (s_budget s) |}.

(** The attempts of one turn; [retries] counts the retries still allowed. *)
Fixpoint turn_attempts (s : Session) (tools : list ToolDef) (estimated : Z) (attempt retries : nat) : prog sessionE (list Event) :=
  answer ← call (StreamChat (chat_request s tools));
  match answer with
  | Err e => mret [error_event e]
  | Ok (events, terminal) =>
      let events := (events ++ [terminal])%list in
      _ ← observeRequest s attempt estimated terminal;
      if negb (String.eqb (Kind terminal) KindError) then _ ← recordActivity s events; mret events else
      match turnRetryDelay (ev_Err terminal), retries with
      | Some delay, S retries =>
          done ← call (RetryWait delay);
          if done : bool then mret events else turn_attempts s tools estimated (S attempt) retries
      | _, _ => mret events
      end
  end.

Definition Turn (s : Session) (tools : list ToolDef) : prog sessionE (list Event) :=
  let estimated := if s_requests s then estimateToolTokens tools + sum_of estimateMessageTokens (Messages s) else 0 in
  turn_attempts s tools estimated 0 maxStreamRetries.

End Turn.

(** ** Lane context policy *)

Record RoleContextPolicy := { rc_MaxInputTokens : Z; rc_CompactAtPercent : Z; rc_OutputReservation : Z }.
Record HarnessContextPolicy := { hc_CompactAtPercent : Z; hc_OutputReservation : Z; hc_Roles : gmap string RoleContextPolicy }.

Definition zero_role_policy : RoleContextPolicy := {| rc_MaxInputTokens := 0; rc_CompactAtPercent := 0; rc_OutputReservation := 0 |}.

Definition forRole (p : HarnessContextPolicy) (role : string) : ContextBudgetInput :=
  let declared := default zero_role_policy (hc_Roles p !! role) in
  {| in_Role := role;
     DeclaredMaxInputTokens := rc_MaxInputTokens declared;
     ProbedMaxInputTokens := 0;
     in_CompactAtPercent := if rc_CompactAtPercent declared =? 0 then hc_CompactAtPercent p else rc_CompactAtPercent declared;
     in_OutputReservation := if rc_OutputReservation declared =? 0 then hc_OutputReservation p else rc_OutputReservation declared |}.

Definition DeclaresRole (p : HarnessContextPolicy) (role : string) : bool :=
  let declared := default zero_role_policy (hc_Roles p !! role) in
  negb (hc_CompactAtPercent p =? 0) || negb (hc_OutputReservation p =? 0) || (0 <? rc_MaxInputTokens declared) ||
  negb (rc_CompactAtPercent declared =? 0) || negb (rc_OutputReservation declared =? 0).

Definition BudgetInput (p : HarnessContextPolicy) (role : string) (probed : Z) : ContextBudgetInput :=
  let inp := forRole p role in
  {| in_Role := in_Role inp; DeclaredMaxInputTokens := DeclaredMaxInputTokens inp; ProbedMaxInputTokens := probed;
     in_CompactAtPercent := in_CompactAtPercent inp; in_OutputReservation := in_OutputReservation inp |}.

(** The zero budget: no policy, no compaction. *)
Definition zero_budget : ContextBudget :=
  {| Role := ""; State := ""; EffectiveLimit := 0; CompactPoint := 0; OutputReservation := 0; Detail := "" |}.

Definition RoleBudget (p : HarnessContextPolicy) (role : string) (probed : Z) : result budget_error ContextBudget :=
  match ResolveContextBudget (BudgetInput p role probed) with
  | Ok b => Ok b
  | Err (ErrNoContextCapacity r) => if DeclaresRole p role then Err (ErrNoContextCapacity r) else Ok zero_budget
  | Err e => Err e
  end.

(** ** The shape of a compaction *)

(** Where the last turn starts: the end when no model turn was taken. *)
Definition turn_start (s : Session) : nat := default (length (Messages s)) (last_assistant (Messages s)).

Lemma last_assistant_spec ms a :
  last_assistant ms = Some a -> (a < length ms)%nat /\ exists m, ms !! a = Some m /\ m_Role m = "assistant".
Proof.
  revert a. induction ms as [|m ms IH]; intros a; simpl; [done|].
  destruct (last_assistant ms) as [i|].
  - intros [= <-]. destruct (IH i eq_refl) as [Hi Hm]. split; [lia|done].
  - destruct (String.eqb_spec (m_Role m) "assistant"); [|done]. intros [= <-]. split; [lia|]. by exists m.
Qed.

Lemma turn_start_le s : (turn_start s <= length (Messages s))%nat.
Proof.
  unfold turn_start. destruct (last_assistant (Messages s)) as [a|] eqn:H; simpl; [|done].
  apply last_assistant_spec in H. lia.
Qed.

Lemma protectedAt_spec s i :
  (i < length (Messages s))%nat ->
  protectedAt (protectedMessages s) i = true <-> (i < s_pinned s \/ turn_start s <= i)%nat.
Proof.
  intros Hi. unfold protectedAt, protectedMessages. rewrite list_lookup_fmap, lookup_seq_lt by done. simpl.
  unfold protected_index, turn_start. destruct (last_assistant (Messages s)) as [a|] eqn:Ha; simpl.
  - rewrite orb_true_iff, Nat.ltb_lt, Nat.leb_le. done.
  - rewrite orb_false_r, Nat.ltb_lt. lia.
Qed.

Lemma filter_seq_interval (P : nat -> Prop) `{forall i, Decision (P i)} lo hi k n :
  (forall i, (k <= i < k + n)%nat -> P i <-> (lo <= i < hi)%nat) ->
  filter P (seq k n) = seq (Nat.max lo k) (Nat.min hi (k + n) - Nat.max lo k).
Proof.
  revert k. induction n as [|n IH]; intros k HP; simpl.
  - replace (Nat.min hi (k + 0) - Nat.max lo k)%nat with 0%nat by lia. done.
  - rewrite filter_cons, IH by (intros i Hi; apply HP; lia). destruct (decide (P k)) as [Hk|Hk]; rewrite HP in Hk by lia.
    + replace (Nat.max lo (S k)) with (S k) by lia. replace (Nat.max lo k) with k by lia.
      replace (Nat.min hi (k + S n) - k)%nat with (S (Nat.min hi (S k + n) - S k)) by lia. done.
    + destruct (decide (lo <= k)%nat).
      * replace (Nat.min hi (S k + n) - Nat.max lo (S k))%nat with 0%nat by lia.
        replace (Nat.min hi (k + S n) - Nat.max lo k)%nat with 0%nat by lia. done.
      * replace (Nat.max lo (S k)) with (Nat.max lo k) by lia. f_equal. lia.
Qed.

Lemma digestible_interval s :
  digestibleIndexes (protectedMessages s) = seq (s_pinned s) (turn_start s - s_pinned s).
Proof.
  unfold digestibleIndexes.
  replace (length (protectedMessages s)) with (length (Messages s)) by (unfold protectedMessages; by rewrite length_fmap, length_seq).
  rewrite (filter_seq_interval _ (s_pinned s) (turn_start s)).
  - pose proof (turn_start_le s). f_equal; lia.
  - intros i Hi. pose proof (protectedAt_spec s i ltac:(lia)) as Hp. destruct (protectedAt _ _).
    + split; [done|]. destruct Hp as [Hp _]. specialize (Hp eq_refl). lia.
    + split; [|done]. intros _. destruct Hp as [_ Hp]. destruct (decide (i < s_pinned s \/ turn_start s <= i)%nat) as [H|H];
        [by apply Hp in H|lia].
Qed.

Lemma digest_below_interval s tools j :
  (j < length (Messages s))%nat ->
  digest_below (compaction_input s tools) (S j) = seq (s_pinned s) (Nat.min (turn_start s) (S j) - s_pinned s).
Proof.
  intros Hj. unfold digest_below. rewrite (filter_seq_interval _ (s_pinned s) (turn_start s)).
  - f_equal; lia.
  - intros i Hi. unfold unprotected. cbn [compaction_input Protected].
    pose proof (protectedAt_spec s i ltac:(lia)) as Hp. destruct (protectedAt _ _); cbn.
    + split; [done|]. destruct Hp as [Hp _]. specialize (Hp eq_refl). lia.
    + split; [|done]. intros _. destruct Hp as [_ Hp]. destruct (decide (i < s_pinned s \/ turn_start s <= i)%nat) as [H|H];
        [by apply Hp in H|lia].
Qed.

(** The grown part of the span: it stops before the last turn and before any
    message that is not a tool result. *)
Lemma grow_spec s ms i :
  (i + length ms = length (Messages s))%nat -> ms = drop i (Messages s) -> (s_pinned s <= i <= turn_start s)%nat ->
  exists k, grow ms (protectedMessages s) i = seq i k /\ (i + k <= turn_start s)%nat /\
    forall m, Messages s !! (i + k)%nat = Some m -> m_Role m <> "tool".
Proof.
  revert i. induction ms as [|m ms IH]; intros i Hlen Hms Hi; simpl in *.
  - exists 0%nat. split; [done|]. split; [lia|]. intros m Hm. apply lookup_lt_Some in Hm. lia.
  - assert (Hm : Messages s !! i = Some m) by (rewrite <- (Nat.add_0_r i), <- lookup_drop, <- Hms; done).
    pose proof (protectedAt_spec s i ltac:(lia)) as Hp.
    destruct (String.eqb_spec (m_Role m) "tool") as [Ht|Ht]; simpl.
    + destruct (protectedAt (protectedMessages s) i).
      * exists 0%nat. split; [done|]. split; [lia|]. rewrite Nat.add_0_r, Hm. intros m' [= <-]. exfalso.
        destruct Hp as [Hp _]. specialize (Hp eq_refl). assert (i = turn_start s) as Heq by lia.
        unfold turn_start in Heq. destruct (last_assistant (Messages s)) as [a|] eqn:Ha; simpl in Heq; [|lia].
        apply last_assistant_spec in Ha as [_ (m'' & Hm'' & Hr)]. subst i. congruence.
      * destruct (IH (S i)) as (k & Hk & Hle & Hne); [lia| | |].
        { rewrite (drop_S _ _ _ Hm) in Hms. by injection Hms. }
        { destruct (decide (i < turn_start s)%nat); [lia|]. destruct Hp as [_ Hp]. discriminate Hp. lia. }
        exists (S k). rewrite Hk. split; [done|]. split; [lia|]. by rewrite <- Nat.add_succ_comm.
    + exists 0%nat. split; [done|]. split; [lia|]. rewrite Nat.add_0_r, Hm. by intros m' [= <-].
Qed.

Lemma apply_tail lo len i digest ms :
  (lo <= i)%nat -> apply_from i true (seq lo len) digest ms = drop (lo + len - i) ms.
Proof.
  revert i. induction ms as [|m ms IH]; intros i Hi; simpl; [by rewrite drop_nil|].
  destruct (bool_decide (i ∈ seq lo len)) eqn:Hin.
  - apply bool_decide_eq_true in Hin. rewrite elem_of_seq in Hin. rewrite IH by lia.
    replace (lo + len - i)%nat with (S (lo + len - S i)) by lia. done.
  - apply bool_decide_eq_false in Hin. rewrite elem_of_seq in Hin. rewrite IH by lia.
    replace (lo + len - i)%nat with 0%nat by lia. replace (lo + len - S i)%nat with 0%nat by lia. done.
Qed.

(** Replacing an interval puts the digest where the interval was. *)
Lemma apply_interval lo len i digest ms :
  (i <= lo)%nat -> (0 < len)%nat -> (lo + len <= i + length ms)%nat ->
  apply_from i false (seq lo len) digest ms = (take (lo - i) ms ++ digest :: drop (lo + len - i) ms)%list.
Proof.
  revert i. induction ms as [|m ms IH]; intros i Hi Hlen Hle; simpl in *; [lia|].
  destruct (bool_decide (i ∈ seq lo len)) eqn:Hin.
  - apply bool_decide_eq_true in Hin. rewrite elem_of_seq in Hin. rewrite apply_tail by lia.
    replace (lo - i)%nat with 0%nat by lia. simpl. replace (lo + len - i)%nat with (S (lo + len - S i)) by lia. done.
  - apply bool_decide_eq_false in Hin. rewrite elem_of_seq in Hin. rewrite IH by lia.
    replace (lo - i)%nat with (S (lo - S i)) by lia. replace (lo + len - i)%nat with (S (lo + len - S i)) by lia. done.
Qed.

Lemma messagesAt_interval ms lo len :
  (lo + len <= length ms)%nat -> messagesAt ms (seq lo len) = take len (drop lo ms).
Proof.
  revert lo. unfold messagesAt. induction len as [|len IH]; intros lo H; [done|]. cbn [seq omap list_omap].
  destruct (lookup_lt_is_Some_2 ms lo ltac:(lia)) as [m Hm]. rewrite Hm, (drop_S _ _ _ Hm). cbn [take]. f_equal.
  apply IH. lia.
Qed.

(** ** The digest of a shorter span is no longer *)

Lemma digits_fuel_longer fuel n acc : (0 < fuel)%nat -> (String.length acc < String.length (digits_fuel fuel n acc))%nat.
Proof.
  revert n acc. induction fuel as [|fuel IH]; intros n acc Hf; [lia|]. cbn [digits_fuel].
  destruct (n <? 10); [simpl; lia|]. destruct fuel as [|fuel]; [simpl; lia|].
  etrans; [|apply IH; lia]. simpl. lia.
Qed.

Lemma digits_fuel_mono f f' m n acc acc' :
  0 <= m <= n -> m < 2 ^ Z.of_nat f -> n < 2 ^ Z.of_nat f' -> (0 < f)%nat -> (0 < f')%nat ->
  (String.length acc <= String.length acc')%nat ->
  (String.length (digits_fuel f m acc) <= String.length (digits_fuel f' n acc'))%nat.
Proof.
  revert f' m n acc acc'. induction f as [|f IH]; intros f' m n acc acc' Hmn Hm Hn Hf Hf' Hacc; [lia|].
  destruct (m <? 10) eqn:Hm10.
  - cbn [digits_fuel]. rewrite Hm10. simpl. pose proof (digits_fuel_longer f' n acc' Hf'). lia.
  - destruct f' as [|f']; [lia|]. cbn [digits_fuel]. rewrite Hm10. replace (n <? 10) with false by lia.
    assert (f <> 0%nat) by (intros ->; simpl in Hm; lia). assert (f' <> 0%nat) by (intros ->; simpl in Hn; lia).
    rewrite Nat2Z.inj_succ, Z.pow_succ_r in Hm, Hn by lia.
    apply IH; [|apply Z.div_lt_upper_bound; lia|apply Z.div_lt_upper_bound; lia|lia|lia|simpl; lia].
    split; [apply Z.div_pos; lia|apply Z.div_le_mono; lia].
Qed.

Lemma Itoa_mono m n : 0 <= m <= n -> slen (Itoa m) <= slen (Itoa n).
Proof.
  intros H. unfold Itoa. replace (m <? 0) with false by lia. replace (n <? 0) with false by lia.
  rewrite !Z.abs_eq by lia. unfold slen. apply inj_le. cbn [String.append].
  apply digits_fuel_mono; [done|apply log2_fuel; lia|apply log2_fuel; lia|lia|lia|simpl; lia].
Qed.

Lemma sum_of_app {A} (f : A -> Z) l1 l2 : sum_of f (l1 ++ l2) = sum_of f l1 + sum_of f l2.
Proof. induction l1 as [|x l1 IH]; simpl; [done|]. rewrite IH. lia. Qed.

Lemma sum_of_nonneg {A} (f : A -> Z) l : (forall x, 0 <= f x) -> 0 <= sum_of f l.
Proof. intros Hf. induction l as [|x l IH]; simpl; [done|]. specialize (Hf x). lia. Qed.

Lemma digest_lines_length ms : slen (digest_lines ms) = sum_of (fun m => 3 + slen (digestLine m)) ms.
Proof.
  induction ms as [|m ms IH]; [done|]. cbn [digest_lines foldr sum_of]. rewrite !slen_app.
  fold (digest_lines ms). fold (sum_of (fun m => 3 + slen (digestLine m)) ms). rewrite IH.
  change (slen nl) with 1. change (slen "- ") with 2. lia.
Qed.

Lemma digest_chars_mono (c c' : nat) settled (l l' : list Message) :
  (c <= c')%nat -> l `prefix_of` l' ->
  message_chars (compactDigest c settled l) <= message_chars (compactDigest c' settled l').
Proof.
  intros Hc [r ->]. unfold message_chars, compactDigest, text_message. cbn [m_Role m_Content m_ToolCallID m_ToolCalls m_Blocks].
  rewrite !slen_app, !digest_lines_length, take_app, sum_of_app.
  pose proof (Itoa_mono (Z.of_nat c) (Z.of_nat c') ltac:(lia)) as H1.
  pose proof (sum_of_nonneg (fun m => 3 + slen (digestLine m)) (take (maxDigestLines - length l) r)
                (fun m => ltac:(pose proof (slen_nonneg (digestLine m)); lia))) as H2.
  assert (H3 : slen (if (maxDigestLines <? length l)%nat
                     then nl ++ "- ... and " ++ Itoa (Z.of_nat (length l - maxDigestLines)) ++ " more messages" else "") <=
               slen (if (maxDigestLines <? length (l ++ r))%nat
                     then nl ++ "- ... and " ++ Itoa (Z.of_nat (length (l ++ r) - maxDigestLines)) ++ " more messages" else "")).
  { rewrite length_app. destruct (maxDigestLines <? length l)%nat eqn:Hl; [|case_match; apply slen_nonneg].
    apply Nat.ltb_lt in Hl. replace (maxDigestLines <? length l + length r)%nat with true by (symmetry; apply Nat.ltb_lt; lia).
    rewrite !slen_app. pose proof (Itoa_mono (Z.of_nat (length l - maxDigestLines)) (Z.of_nat (length l + length r - maxDigestLines)) ltac:(lia)).
    lia. }
  lia.
Qed.

Lemma estimate_mono m m' : message_chars m <= message_chars m' -> estimateMessageTokens m <= estimateMessageTokens m'.
Proof.
  intros H. unfold estimateMessageTokens, at_least_one, tokensPerChar. pose proof (Z.div_le_mono _ _ 4 ltac:(lia) H).
  repeat case_match; lia.
Qed.

Lemma estimate_positive m : 1 <= estimateMessageTokens m.
Proof. unfold estimateMessageTokens, at_least_one. case_match; lia. Qed.

(** ** What a compaction does *)

(** The prompt size of the next request, in the estimate's tokens. *)
Definition request_size (s : Session) (tools : list ToolDef) : Z := request_tokens (compaction_input s tools).

(** Sessions whose token counts fit a machine integer. *)
Definition session_bounded (s : Session) (tools : list ToolDef) : Prop :=
  (s_pinned s <= length (Messages s))%nat /\ 0 <= OutputReservation (s_budget s) /\
  request_size s tools + DigestTokens (compaction_input s tools) + OutputReservation (s_budget s) < int64_max.

(** Every tool result answers a call of the assistant message its group
    follows: the shape a gateway accepts. *)
Fixpoint answered (open : list string) (ms : list Message) : Prop :=
  match ms with
  | [] => True
  | m :: r =>
      if String.eqb (m_Role m) "tool" then m_ToolCallID m ∈ open /\ answered open r
      else if String.eqb (m_Role m) "assistant" then answered (tc_ID <$> m_ToolCalls m) r
      else answered [] r
  end.

Lemma answered_app open l1 l2 : answered open (l1 ++ l2) -> answered open l1.
Proof.
  revert open. induction l1 as [|m l1 IH]; intros open; simpl; [done|].
  destruct (String.eqb (m_Role m) "tool"); [intros [? ?]; auto|]. destruct (String.eqb (m_Role m) "assistant"); apply IH.
Qed.

(** A suffix that does not start with a tool result needs nothing open. *)
Lemma answered_suffix open l1 l2 open' :
  answered open (l1 ++ l2) -> (forall m, head l2 = Some m -> m_Role m <> "tool") -> answered open' l2.
Proof.
  revert open. induction l1 as [|m l1 IH]; intros open; simpl.
  - destruct l2 as [|m l2]; [done|]. intros H Hm. specialize (Hm m eq_refl). simpl in *.
    destruct (String.eqb_spec (m_Role m) "tool"); [done|]. done.
  - destruct (String.eqb (m_Role m) "tool"); [intros [_ ?]; eauto|]. destruct (String.eqb (m_Role m) "assistant"); apply IH.
Qed.

Lemma answered_join open l1 m l2 :
  answered open l1 -> m_Role m <> "tool" -> m_Role m <> "assistant" -> answered [] l2 -> answered open (l1 ++ m :: l2).
Proof.
  revert open. induction l1 as [|x l1 IH]; intros open; simpl.
  - intros _ Ht Ha H2. destruct (String.eqb_spec (m_Role m) "tool"); [done|].
    by destruct (String.eqb_spec (m_Role m) "assistant").
  - destruct (String.eqb (m_Role x) "tool"); [intros [? ?]; auto|]. destruct (String.eqb (m_Role x) "assistant"); apply IH.
Qed.

Lemma estimateToolTokens_nonneg tools : 0 <= estimateToolTokens tools.
Proof. apply sum_of_nonneg. intros t. unfold at_least_one. case_match; lia. Qed.

Lemma messageTokens_nonneg ms : Forall (fun t => 0 <= t) (messageTokens ms).
Proof. apply Forall_fmap, Forall_true. intros m. simpl. pose proof (estimate_positive m). lia. Qed.

Lemma session_plan_bounded s tools : session_bounded s tools -> plan_bounded (compaction_input s tools).
Proof.
  intros (_ & Hr & Hmax). unfold plan_bounded. cbn [compaction_input FixedTokens MessageTokens DigestTokens Budget] in *.
  split; [apply estimateToolTokens_nonneg|]. split; [apply messageTokens_nonneg|].
  split; [pose proof (estimate_positive (compactDigest (countDigestable (protectedMessages s)) (s_settled s)
            (messagesAt (Messages s) (digestibleIndexes (protectedMessages s))))); lia|]. done.
Qed.

Lemma total_interval (l : list Z) lo len :
  (lo + len <= length l)%nat ->
  total_tokens ((fun i => default 0 (l !! i)) <$> seq lo len) = total_tokens (take len (drop lo l)).
Proof.
  revert lo. induction len as [|len IH]; intros lo H; [done|].
  destruct (lookup_lt_is_Some_2 l lo ltac:(lia)) as [t Ht]. rewrite (drop_S _ _ _ Ht). cbn [seq fmap list_fmap take].
  rewrite Ht. simpl. fold (total_tokens (take len (drop (S lo) l))). rewrite <- IH by lia. done.
Qed.

Lemma foldl_wrap (f : nat -> Z) span acc :
  in_int64 acc -> foldl (fun n i => int_add n (f i)) acc span = wrap64 (acc + total_tokens (f <$> span)).
Proof.
  assert (Hw : forall x y, wrap64 (wrap64 x + y) = wrap64 (x + y)).
  { intros x y. unfold wrap64. f_equal. replace ((x + 2 ^ 63) mod 2 ^ 64 - 2 ^ 63 + y + 2 ^ 63) with ((x + 2 ^ 63) mod 2 ^ 64 + y) by lia.
    rewrite Zplus_mod_idemp_l. f_equal. lia. }
  revert acc. induction span as [|i span IH]; intros acc Hacc; cbn [foldl fmap list_fmap].
  - change (total_tokens []) with 0. rewrite Z.add_0_r. by rewrite wrap64_id.
  - rewrite IH.
    + unfold int_add. rewrite Hw, <- Z.add_assoc. done.
    + unfold int_add, in_int64, wrap64, int64_min, int64_max. pose proof (Z.mod_pos_bound (acc + f i + 2 ^ 63) (2 ^ 64) ltac:(lia)). lia.
Qed.

(** The tokens left when an interval is replaced. *)
Lemma replaced_total ms lo e digest :
  (lo <= e <= length ms)%nat ->
  total_tokens (messageTokens (take lo ms ++ digest :: drop e ms)) =
  total_tokens (messageTokens ms) - total_tokens (take (e - lo) (drop lo (messageTokens ms))) + estimateMessageTokens digest.
Proof.
  intros H.
  assert (Ht : total_tokens (messageTokens ms) =
               total_tokens (messageTokens (take lo ms)) + total_tokens (messageTokens (take (e - lo) (drop lo ms))) +
               total_tokens (messageTokens (drop e ms))).
  { transitivity (total_tokens (messageTokens (take lo ms ++ take (e - lo) (drop lo ms) ++ drop e ms))).
    - do 2 f_equal. rewrite <- (take_drop lo ms) at 1. f_equal. rewrite <- (take_drop (e - lo) (drop lo ms)) at 1. f_equal.
      rewrite drop_drop. f_equal. lia.
    - unfold messageTokens. rewrite !fmap_app, !total_tokens_app. lia. }
  rewrite Ht. unfold messageTokens. rewrite <- fmap_drop, <- fmap_take, fmap_app, fmap_cons, total_tokens_app.
  cbn [total_tokens foldr]. fold (total_tokens (estimateMessageTokens <$> drop e ms)). lia.
Qed.

Lemma unprotected_range s tools j :
  (j < length (Messages s))%nat -> unprotected (compaction_input s tools) j = true -> (s_pinned s <= j < turn_start s)%nat.
Proof.
  intros Hj Hu. unfold unprotected in Hu. cbn [compaction_input Protected] in Hu.
  pose proof (protectedAt_spec s j Hj) as [_ Hp]. destruct (protectedAt _ _); [done|].
  destruct (decide (j < s_pinned s \/ turn_start s <= j)%nat) as [H|H]; [by apply Hp in H|lia].
Qed.

(** The applied span is an interval that starts at the first unpinned message,
    ends at or before the last turn, and leaves no tool result behind it. *)
Lemma span_interval s tools j :
  first_cut (compaction_input s tools) 0 j ->
  exists e, digestedSpan (Messages s) (digest_below (compaction_input s tools) (S j)) (protectedMessages s) =
              seq (s_pinned s) (e - s_pinned s) /\
    (s_pinned s <= j < e)%nat /\ (e <= turn_start s)%nat /\ (forall m, Messages s !! e = Some m -> m_Role m <> "tool").
Proof.
  intros (Hj & Hu & _ & _). cbn [compaction_input MessageTokens] in Hj. unfold messageTokens in Hj. rewrite length_fmap in Hj.
  pose proof (unprotected_range s tools j ltac:(lia) Hu) as Hr. pose proof (turn_start_le s) as Hle.
  rewrite digest_below_interval by lia. replace (Nat.min (turn_start s) (S j)) with (S j) by lia.
  unfold digestedSpan. replace (S j - s_pinned s)%nat with (S (j - s_pinned s)) by lia.
  rewrite seq_S, last_snoc. replace (s_pinned s + (j - s_pinned s))%nat with j by lia.
  destruct (grow_spec s (drop (S j) (Messages s)) (S j)) as (k & -> & Hk & Hne); [rewrite length_drop; lia|done|lia|].
  exists (S j + k)%nat. split; [|split; [lia|split; [done|done]]].
  replace (S j + k - s_pinned s)%nat with (S (j - s_pinned s) + k)%nat by lia.
  rewrite seq_app, seq_S. replace (s_pinned s + (j - s_pinned s))%nat with j by lia.
  do 2 f_equal. lia.
Qed.

(** What an applied compaction is, given the plan that was found. *)
Definition compacted_to (s : Session) (e : nat) : list Message :=
  (take (s_pinned s) (Messages s) ++
   compactDigest (e - s_pinned s) (s_settled s) (take (e - s_pinned s) (drop (s_pinned s) (Messages s))) ::
   drop e (Messages s))%list.

Lemma digest_estimate s e tools :
  (s_pinned s <= e <= turn_start s)%nat ->
  estimateMessageTokens (compactDigest (e - s_pinned s) (s_settled s) (take (e - s_pinned s) (drop (s_pinned s) (Messages s)))) <=
  DigestTokens (compaction_input s tools).
Proof.
  intros He. pose proof (turn_start_le s) as Hle. cbn [compaction_input DigestTokens]. unfold countDigestable.
  rewrite digestible_interval, length_seq, messagesAt_interval by lia.
  apply estimate_mono, digest_chars_mono; [lia|].
  replace (turn_start s - s_pinned s)%nat with ((e - s_pinned s) + (turn_start s - e))%nat by lia.
  rewrite <- take_take_drop. by eexists.
Qed.

Lemma applied_interval s e digest :
  (s_pinned s < e <= length (Messages s))%nat ->
  applyCompaction (Messages s) (seq (s_pinned s) (e - s_pinned s)) digest =
  (take (s_pinned s) (Messages s) ++ digest :: drop e (Messages s))%list.
Proof.
  intros He. pose proof (apply_interval (s_pinned s) (e - s_pinned s) 0 digest (Messages s)) as H.
  rewrite Nat.sub_0_r in H. replace (s_pinned s + (e - s_pinned s) - 0)%nat with e in H by lia.
  rewrite <- H by lia. clear H. by replace (e - s_pinned s)%nat with (S (e - s_pinned s - 1)) by lia.
Qed.

(** The digest of an interval and the tokens it replaces. *)
Definition span_digest (s : Session) (e : nat) : Message :=
  compactDigest (e - s_pinned s) (s_settled s) (take (e - s_pinned s) (drop (s_pinned s) (Messages s))).

Definition span_total (s : Session) (e : nat) : Z :=
  total_tokens (take (e - s_pinned s) (drop (s_pinned s) (messageTokens (Messages s)))).

Lemma interval_total_nonneg s k n : 0 <= total_tokens (take k (drop n (messageTokens (Messages s)))).
Proof. apply total_tokens_nonneg, Forall_take, Forall_drop, messageTokens_nonneg. Qed.

(** A longer span reclaims more. *)
Lemma span_total_split s tools j e :
  (s_pinned s <= j < e)%nat -> (e <= turn_start s)%nat ->
  span_tokens (compaction_input s tools) (digest_below (compaction_input s tools) (S j)) <= span_total s e.
Proof.
  intros Hje Het. pose proof (turn_start_le s) as Hle. unfold span_tokens, span_total. rewrite digest_below_interval by lia.
  cbn [compaction_input MessageTokens]. replace (Nat.min (turn_start s) (S j)) with (S j) by lia.
  rewrite total_interval by (unfold messageTokens; rewrite length_fmap; lia).
  replace (e - s_pinned s)%nat with ((S j - s_pinned s) + (e - S j))%nat by lia.
  rewrite <- take_take_drop, total_tokens_app, drop_drop. pose proof (interval_total_nonneg s (e - S j) (s_pinned s + (S j - s_pinned s))). lia.
Qed.

Lemma compacted_size s tools e :
  (s_pinned s <= e <= length (Messages s))%nat ->
  estimateToolTokens tools + total_tokens (messageTokens (compacted_to s e)) =
  request_size s tools - span_total s e + estimateMessageTokens (span_digest s e).
Proof.
  intros He. unfold compacted_to. fold (span_digest s e). rewrite replaced_total by lia.
  unfold request_size, request_tokens, span_total. cbn [compaction_input FixedTokens MessageTokens]. lia.
Qed.

(** The arithmetic of an applied compaction, without wrap-around. *)
Lemma span_accounting s tools j e :
  session_bounded s tools -> acceptable_cut (compaction_input s tools) j ->
  (s_pinned s <= j < e)%nat -> (e <= turn_start s)%nat ->
  let after := request_size s tools - span_total s e + estimateMessageTokens (span_digest s e) in
  foldl (fun n i => int_add n (default 0 (messageTokens (Messages s) !! i))) 0 (seq (s_pinned s) (e - s_pinned s)) = span_total s e /\
  int_add (int_sub (request_size s tools) (span_total s e)) (estimateMessageTokens (span_digest s e)) = after /\
  int_sub (request_size s tools) after = request_size s tools - after /\
  FitsAfterCompaction (s_budget s) after = true /\ after <= after_cut (compaction_input s tools) j /\ 0 <= after.
Proof.
  intros (Hpin & Hr & Hmax) [Hlt Hfit] Hje Het after. pose proof (turn_start_le s) as Hle.
  change (Budget (compaction_input s tools)) with (s_budget s) in Hfit.
  pose proof (digest_estimate s e tools ltac:(lia)) as Hdig. fold (span_digest s e) in Hdig.
  pose proof (estimate_positive (span_digest s e)) as Hpos. pose proof (interval_total_nonneg s (e - s_pinned s) (s_pinned s)) as Htot.
  fold (span_total s e) in Htot. pose proof (span_total_split s tools j e Hje Het) as Hsplit.
  pose proof (compacted_size s tools e ltac:(lia)) as Hsize. fold after in Hsize.
  pose proof (total_tokens_nonneg _ (messageTokens_nonneg (compacted_to s e))) as Hcnn.
  pose proof (estimateToolTokens_nonneg tools) as Htool.
  assert (Hnn : 0 <= request_size s tools).
  { unfold request_size, request_tokens. cbn [compaction_input FixedTokens MessageTokens].
    pose proof (total_tokens_nonneg _ (messageTokens_nonneg (Messages s))). lia. }
  assert (Heq : after = request_size s tools - span_total s e + estimateMessageTokens (span_digest s e)) by done.
  assert (Hafter : after <= after_cut (compaction_input s tools) j) by (unfold after_cut; fold (request_size s tools); lia).
  fold (request_size s tools) in Hlt. clearbody after. rewrite (foldl_wrap (fun i => default 0 (messageTokens (Messages s) !! i))) by done.
  rewrite total_interval by (unfold messageTokens; rewrite length_fmap; lia). fold (span_total s e).
  unfold FitsAfterCompaction, int_add, int_sub.
  rewrite (wrap64_id (request_size s tools - span_total s e)) by (unfold in_int64, int64_min, int64_max in *; lia).
  rewrite !wrap64_id by (unfold in_int64, int64_min, int64_max in *; lia). split_and!; lia.
Qed.

Lemma compact_applies s tools j :
  session_bounded s tools -> 0 < EffectiveLimit (s_budget s) ->
  PlanCompaction (compaction_input s tools) = Ok (plan_at (compaction_input s tools) j) ->
  first_cut (compaction_input s tools) 0 j ->
  exists e s' ev, compact_step s tools = Ok (s', Some ev) /\ (s_pinned s < e <= turn_start s)%nat /\
    (forall m, Messages s !! e = Some m -> m_Role m <> "tool") /\ Messages s' = compacted_to s e /\
    s_pinned s' = s_pinned s /\ s_settled s' = s_settled s /\
    s_budget s' = BudgetAfter (plan_at (compaction_input s tools) j) /\
    ce_Before ev = request_size s tools /\ ce_After ev = request_size s' tools /\
    ce_After ev <= after_cut (compaction_input s tools) j /\ ce_NetSaved ev = ce_Before ev - ce_After ev.
Proof.
  intros Hb Hlim HP Hj. destruct (span_interval s tools j Hj) as (e & Hspan & Hje & Het & Hne).
  pose proof (turn_start_le s) as Hle. pose proof Hj as (_ & _ & Hacc & _).
  destruct (span_accounting s tools j e Hb Hacc Hje Het) as (H1 & H2 & H3 & H4 & H5 & H6).
  unfold compact_step. replace (EffectiveLimit (s_budget s) <=? 0) with false by lia. rewrite HP.
  cbn [plan_at Compacted Digested Before BudgetAfter negb]. fold (request_size s tools).
  rewrite Hspan, length_seq, messagesAt_interval, H1 by lia. fold (span_digest s e). rewrite H2, H4, H3. cbn [negb].
  rewrite applied_interval by lia. change (take _ _ ++ span_digest s e :: _)%list with (compacted_to s e).
  eexists e, _, _. split; [reflexivity|]. cbn [Messages s_pinned s_settled s_budget ce_Before ce_After ce_NetSaved].
  split_and!; try done; try lia. unfold request_size at 2, request_tokens. cbn [compaction_input FixedTokens MessageTokens Messages].
  by rewrite compacted_size by lia.
Qed.

(** ** Properties *)

(** A step-boundary compaction is exact.  When it applies, it replaces an
    interval of the transcript, between the pinned prefix and the last turn, by
    one digest that carries the settled state; everything else keeps its bytes
    and its place, no tool result loses the call it answers, the reported sizes
    are those of the two requests, the new request fits and does not fire
    again.  Otherwise the transcript is unchanged, and the only failure is the
    planner's: no cut of this transcript fits. *)
Theorem session_compaction_exact (s : Session) (tools : list ToolDef)
    (Hb : session_bounded s tools) (Hans : answered [] (Messages s)) :
  match compact_step s tools with
  | Ok (s', None) => s' = s /\ ShouldCompact (s_budget s) (request_size s tools) = false
  | Ok (s', Some ev) =>
      (exists e, (s_pinned s < e <= turn_start s)%nat /\ Messages s' = compacted_to s e) /\
      answered [] (Messages s') /\ s_pinned s' = s_pinned s /\
      ce_Before ev = request_size s tools /\ ce_After ev = request_size s' tools /\
      ce_NetSaved ev = ce_Before ev - ce_After ev /\ 0 < ce_NetSaved ev /\
      ce_After ev + OutputReservation (s_budget s) <= EffectiveLimit (s_budget s) /\
      ShouldCompact (s_budget s') (request_size s' tools) = false
  | Err err => exists b, err = EPlan b /\ ShouldCompact (s_budget s) (request_size s tools) = true /\
                         no_cut (compaction_input s tools) 0
  end.
Proof.
  pose proof (session_plan_bounded s tools Hb) as Hpb.
  destruct (EffectiveLimit (s_budget s) <=? 0) eqn:Hlim.
  { unfold compact_step, ShouldCompact. by rewrite Hlim. }
  destruct (PlanCompaction_cases _ Hpb) as [[Hs HP]|[(Hs & j & Hj & HP)|(Hs & Hno & e & HP)]].
  - unfold compact_step. rewrite Hlim, HP. by cbn.
  - destruct (compact_applies s tools j Hb ltac:(lia) HP Hj) as (e & s' & ev & -> & He & Hne & Hm & Hp & _ & Hbud & H1 & H2 & H3 & H4).
    pose proof Hj as (_ & _ & (Hlt & Hfit) & _). fold (request_size s tools) in Hlt.
    change (Budget (compaction_input s tools)) with (s_budget s) in Hfit.
    split; [by exists e|]. split; [|split_and!; try done; try lia].
    + rewrite Hm. pose proof (turn_start_le s). apply answered_join; [|done|done|].
      * apply (answered_app _ _ (drop (s_pinned s) (Messages s))). by rewrite take_drop.
      * apply (answered_suffix [] (take e (Messages s))); [by rewrite take_drop|].
        intros m Hd. apply Hne. rewrite <- (Nat.add_0_r e), <- lookup_drop. by destruct (drop e (Messages s)).
    + rewrite Hbud, <- H2. cbn [plan_at BudgetAfter]. destruct Hb as (_ & Hr & Hmax).
      unfold ShouldCompact, int_add. cbn [withCompactPoint EffectiveLimit CompactPoint OutputReservation].
      change (Budget (compaction_input s tools)) with (s_budget s).
      assert (0 <= request_size s' tools).
      { unfold request_size, request_tokens. cbn [compaction_input FixedTokens MessageTokens].
        pose proof (total_tokens_nonneg _ (messageTokens_nonneg (Messages s'))). pose proof (estimateToolTokens_nonneg tools). lia. }
      pose proof (estimate_positive (compactDigest (countDigestable (protectedMessages s)) (s_settled s)
        (messagesAt (Messages s) (digestibleIndexes (protectedMessages s))))). cbn [compaction_input DigestTokens] in Hmax.
      rewrite wrap64_id by (unfold in_int64, int64_min, int64_max in *; lia). repeat case_match; lia.
  - unfold compact_step. rewrite Hlim, HP. exists e. done.
Qed.

(** A session near its limit, with one finished tool round. *)
Definition example_call : ToolCall := {| tc_ID := "c1"; tc_Name := "shell"; tc_Arguments := "" |}.
Definition example_output : string := Join (repeat "ninety bytes of untrusted worker output, one line of many in this long build log, repeated" 12) nl.
Definition example_session : Session :=
  {| s_binding := "model"; s_role := "coder"; s_pinned := 2; s_settled := "Owned files: a.go";
     s_activity := true; s_compactions := true; s_requests := false;
     Messages := [text_message "system" "framing"; text_message "user" "the brief";
                  AssistantMessageWithBlocks "" [example_call] [];
                  ToolResultMessage {| tr_ToolCallID := "c1"; tr_Name := "shell"; Content := example_output; IsError := false |};
                  AssistantMessageWithBlocks "more" [{| tc_ID := "c2"; tc_Name := "shell"; tc_Arguments := "" |}] [];
                  ToolResultMessage {| tr_ToolCallID := "c2"; tr_Name := "shell"; Content := "ok"; IsError := false |}];
     s_budget := {| Role := "coder"; State := "healthy"; EffectiveLimit := 200; CompactPoint := 150;
                    OutputReservation := 20; Detail := "" |} |}.

Lemma session_compaction_exact_witness :
  (exists s' ev, compact_step example_session [] = Ok (s', Some ev) /\ length (Messages s') = 5%nat) /\
  answered [] (Messages (match compact_step example_session [] with Ok (s', _) => s' | Err _ => example_session end)).
Proof.
  assert (Hb : session_bounded example_session []) by (vm_compute; split_and!; [lia|done|done]).
  assert (Ha : answered [] (Messages example_session)) by (cbn; split_and!; repeat constructor).
  pose proof (session_compaction_exact example_session [] Hb Ha) as H.
  assert (Hc : exists s' ev, compact_step example_session [] = Ok (s', Some ev) /\ length (Messages s') = 5%nat)
    by (eexists _, _; split; [vm_compute; reflexivity|reflexivity]).
  split; [exact Hc|]. destruct Hc as (s' & ev & Hs & _). rewrite Hs in H |- *. exact (proj1 (proj2 H)).
Defined.

(** ** Turns *)

(** What a turn may ask of its environment: the session's own request, waits an
    incarnation may take, observations, and earned activity. *)
Definition turn_event (s : Session) (tools : list ToolDef) (ev : event sessionE) : Prop :=
  match ev_op ev with
  | StreamChat req => req = chat_request s tools
  | RetryWait delay => 0 < delay <= maxInProcessRetryAfter
  | SessionCompacted _ => False
  | _ => True
  end.

Definition is_chat (ev : event sessionE) : bool := match ev_op ev with StreamChat _ => true | _ => false end.
Definition is_chunk (ev : event sessionE) : bool := match ev_op ev with StreamChunk => true | _ => false end.
Definition chats (t : trace sessionE) : nat := length (List.filter is_chat t).
Definition chunks (t : trace sessionE) : nat := length (List.filter is_chunk t).

Lemma chats_app t t' : chats (t ++ t')%list = (chats t + chats t')%nat.
Proof. unfold chats. by rewrite List.filter_app, length_app. Qed.

Lemma chunks_app t t' : chunks (t ++ t')%list = (chunks t + chunks t')%nat.
Proof. unfold chunks. by rewrite List.filter_app, length_app. Qed.

(** Whether the turn ended in an error. *)
Definition turn_failed (events : list Event) : bool :=
  match last events with Some e => String.eqb (Kind e) KindError | None => true end.

Lemma turnRetryDelay_bounded `{ErrorBody} e d : turnRetryDelay e = Some d -> 0 < d <= maxInProcessRetryAfter.
Proof.
  unfold turnRetryDelay. destruct (errors_as as_gateway_transport e); [by intros [= <-]|].
  destruct (errors_as as_gateway e) as [c|]; [|done]. destruct (negb _ || _) eqn:Hn; [done|].
  apply orb_false_iff in Hn as [_ Hn]. destruct (0 <? RetryAfter c) eqn:Hp; [intros [= <-]; lia|].
  destruct (String.eqb _ _); [done|]. by intros [= <-].
Qed.

Lemma observe_rejected_spec s tools attempt estimated n :
  wp (observe_rejected s attempt estimated n) (fun t _ => Forall (turn_event s tools) t /\ chats t = 0%nat /\ chunks t = 0%nat).
Proof.
  induction n as [|n IH]; [done|]. cbn [observe_rejected]. wp_cbn. intros []. eapply wp_mono; [|exact IH].
  intros t _ (H1 & H2 & H3). split; [by constructor|done].
Qed.

Lemma observeRequest_spec s tools attempt estimated terminal :
  wp (observeRequest s attempt estimated terminal) (fun t _ => Forall (turn_event s tools) t /\ chats t = 0%nat /\ chunks t = 0%nat).
Proof.
  unfold observeRequest. destruct (s_requests s); [|done]. cbn [negb]. apply wp_bind.
  eapply wp_mono; [|apply (observe_rejected_spec s tools)]. intros t _ (H1 & H2 & H3). wp_cbn. intros [].
  split; [apply Forall_app; split; [done|by repeat constructor]|]. by rewrite chats_app, chunks_app, H2, H3.
Qed.

Lemma turn_attempts_spec `{ErrorBody} s tools estimated attempt retries :
  wp (turn_attempts s tools estimated attempt retries) (fun t events =>
    Forall (turn_event s tools) t /\ (chats t <= S retries)%nat /\ (chunks t <= 1)%nat /\
    (turn_failed events = true -> chunks t = 0%nat) /\ events <> []).
Proof.
  revert attempt. induction retries as [|retries IH]; intros attempt; cbn [turn_attempts]; wp_cbn; (intros [[events terminal]|e];
    [|wp_cbn; split; [by repeat constructor|]; unfold chats, chunks; cbn; split_and!; [lia|lia|done|done]]).
  all: apply wp_bind; eapply wp_mono; [|apply (observeRequest_spec s tools)]; intros t1 _ (H1 & H2 & H3).
  all: assert (Hfail : turn_failed (events ++ [terminal])%list = String.eqb (Kind terminal) KindError) by (unfold turn_failed; by rewrite last_snoc).
  all: destruct (String.eqb (Kind terminal) KindError) eqn:Hk; cbn [negb].
  all: assert (Hne : (events ++ [terminal])%list <> []) by (by destruct events).
  all: assert (Hq : Forall (turn_event s tools) (Ev (StreamChat (chat_request s tools)) (Ok (events, terminal)) :: t1)) by (by constructor).
  all: assert (Hq1 : chats (Ev (StreamChat (chat_request s tools)) (Ok (events, terminal)) :: t1) = 1%nat) by (cbn; f_equal; exact H2).
  all: assert (Hq2 : chunks (Ev (StreamChat (chat_request s tools)) (Ok (events, terminal)) :: t1) = 0%nat) by exact H3.
  all: try (unfold recordActivity; destruct (s_activity s && _); wp_cbn; intros;
    rewrite ?app_comm_cons, ?chats_app, ?chunks_app, ?Hq1, ?Hq2, ?app_nil_r, ?Hfail; split_and!; try done; try lia;
    try (apply Forall_app; split; [done|by repeat constructor]); unfold chats, chunks; simpl; lia).
  - destruct (turnRetryDelay (ev_Err terminal)); wp_cbn; rewrite app_nil_r, Hq1, Hq2; split_and!; try done; lia.
  - destruct (turnRetryDelay (ev_Err terminal)) as [delay|] eqn:Hd; [|wp_cbn; rewrite app_nil_r, Hq1, Hq2; split_and!; try done; lia].
    apply turnRetryDelay_bounded in Hd. wp_cbn. intros [].
    + wp_cbn. rewrite app_comm_cons, chats_app, chunks_app, Hq1, Hq2. split_and!; try done; try (unfold chats, chunks; simpl; lia).
      apply Forall_app. split; [done|]. by apply Forall_singleton.
    + eapply wp_mono; [|apply (IH (S attempt))]. intros t events' (G1 & G2 & G3 & G4 & G5).
      rewrite app_comm_cons, chats_app, chunks_app, Hq1, Hq2.
      assert (Hc : chats (Ev (RetryWait delay) false :: t) = chats t) by done.
      assert (Hk' : chunks (Ev (RetryWait delay) false :: t) = chunks t) by done. rewrite Hc, Hk'.
      split_and!; try done; try lia. apply Forall_app. split; [done|by constructor].
Qed.

(** A turn sends its one request at most four times, unchanged; it waits at
    most the in-process bound between attempts, so a long or missing hint is
    never spun on; and a turn that ends in an error earns no activity. *)
Theorem turn_bounded `{ErrorBody} (s : Session) (tools : list ToolDef) (t : trace sessionE) (events : list Event)
    (Hex : exec (Turn s tools) t events) :
  Forall (turn_event s tools) t /\ (chats t <= 4)%nat /\ (turn_failed events = true -> chunks t = 0%nat) /\ events <> [].
Proof.
  destruct (proj1 (wp_exec _ _) (turn_attempts_spec s tools _ 0 maxStreamRetries) t events Hex) as (H1 & H2 & _ & H4 & H5).
  unfold maxStreamRetries in H2. by split_and!.
Qed.

Definition plain_bodies : ErrorBody :=
  {| decode_envelope := fun _ => None; code_text := fun _ => ""; ParseHTTPTime := fun _ => None |}.

Lemma turn_bounded_witness :
  turn_failed [error_event ErrNothingToPublish] = true /\
  chunks [Ev (StreamChat (chat_request example_session [])) (Err ErrNothingToPublish)] = 0%nat.
Proof.
  split; [reflexivity|].
  refine (proj1 (proj2 (proj2 (@turn_bounded plain_bodies example_session []
           [Ev (StreamChat (chat_request example_session [])) (Err ErrNothingToPublish)] [error_event ErrNothingToPublish] _))) _);
    [|reflexivity].
  eexists (Err ErrNothingToPublish), []. repeat split.
Defined.
