(* ===== verification/HarnessLedger.v ===== *)
(** * The coordinator's ledgers (internal/harness/brief.go, checks.go)

    The brief registry: one execution per brief ID, cancellation final.  The
    check registry: receipts of tracked checks by state key, bounded.  Both are
    guarded by a mutex in the source and are plain state here.  A Go map used as
    a set is a [gset].

    The harness's own [Brief] is [DelegatedBrief] here; [Brief] is the API
    type's record of a completed one. *)

From S2P Require Import Prelude Effects GoStrings GoTime Sha256 Run Pods BrokerAuth HarnessStatus HarnessErrors Session.
Local Open Scope string_scope.
Local Open Scope Z_scope.

(** ** Briefs *)

Record Decision := { d_Summary : string; d_Value : string }.

Record DelegatedBrief := {
  b_ID : string; b_Role : string; Objective : string; Decisions : list Decision; OwnedFiles : list string;
  NonGoals : list string; SuccessCheck : string
}.

Record BriefResult := { res_BriefID : string; res_Summary : string; res_Commit : string }.

Definition maxBriefIDLength : Z := 96.

Definition brief_id_char (c : ascii) : bool :=
  in_range 97 122 c || in_range 65 90 c || in_range 48 57 c || Ascii.eqb c "." || Ascii.eqb c "-" || Ascii.eqb c "_".

Fixpoint brief_id_chars (s : string) : bool :=
  match s with "" => true | String c r => brief_id_char c && brief_id_chars r end.

Definition isBriefID (id : string) : bool :=
  if String.eqb id "" || (maxBriefIDLength <? slen id) then false else brief_id_chars id.

Definition Validate (b : DelegatedBrief) : option herror :=
  if String.eqb (TrimSpace (b_ID b)) "" then Some (new_error "harness: brief requires an ID") else
  if negb (isBriefID (b_ID b)) then Some (new_error "harness: brief ID must be letters, digits, dots, dashes, or underscores") else
  if String.eqb (TrimSpace (b_Role b)) "" then Some (new_error "harness: brief requires a role") else
  if String.eqb (TrimSpace (Objective b)) "" then Some (new_error "harness: brief requires an objective") else
  if String.eqb (TrimSpace (SuccessCheck b)) "" then Some (new_error "harness: brief requires an observable success check") else
  if existsb (fun d => String.eqb (TrimSpace (d_Summary d)) "" || String.eqb (TrimSpace (d_Value d)) "") (Decisions b)
  then Some (new_error "harness: brief decisions must carry a summary and an exact value") else None.

Definition settledStateBlock (b : DelegatedBrief) : string :=
  (match Decisions b with
   | [] => ""
   | ds => nl ++ "Settled decisions (apply exactly, do not re-derive):" ++
           foldr (fun d acc => nl ++ "- " ++ d_Summary d ++ ": " ++ d_Value d ++ acc) "" ds
   end) ++
  match OwnedFiles b with [] => "" | fs => nl ++ "Owned files: " ++ Join fs ", " end.

Definition briefText (b : DelegatedBrief) : string :=
  "Brief " ++ b_ID b ++ nl ++ "Role: " ++ b_Role b ++ nl ++ "Objective: " ++ Objective b ++ nl ++
  "Success check: " ++ SuccessCheck b ++ settledStateBlock b ++
  match NonGoals b with [] => "" | gs => nl ++ "Non-goals: " ++ Join gs "; " end.

(** An operation ID: the kind, the brief and eight random bytes in hex. *)
Definition newOpID (kind briefID : string) (nonce : list Z) : string :=
  if String.eqb briefID "" then kind ++ "." ++ EncodeToString nonce
  else kind ++ "." ++ briefID ++ "." ++ EncodeToString nonce.

(** ** The brief registry *)

Record BriefRegistry := {
  briefs : gmap string DelegatedBrief; order : list string; tombs : gset string;
  results : gmap string BriefResult; terminal : gset string
}.

Definition NewBriefRegistry : BriefRegistry :=
  {| briefs := ∅; order := []; tombs := ∅; results := ∅; terminal := ∅ |}.

Definition RecordResult (r : BriefRegistry) (id summary commit : string) : BriefRegistry :=
  match briefs r !! id with
  | None => r
  | Some _ =>
      {| briefs := briefs r; order := order r; tombs := tombs r;
         results := <[id := {| res_BriefID := id; res_Summary := summary; res_Commit := commit |}]> (results r);
         terminal := {[id]} ∪ terminal r |}
  end.

Definition MarkTerminal (r : BriefRegistry) (id : string) : BriefRegistry :=
  match briefs r !! id with
  | None => r
  | Some _ =>
      {| briefs := briefs r; order := order r; tombs := tombs r; results := results r; terminal := {[id]} ∪ terminal r |}
  end.

Definition HasInFlight (r : BriefRegistry) : bool :=
  existsb (fun id => negb (bool_decide (is_Some (results r !! id))) && negb (bool_decide (id ∈ terminal r))) (order r).

Definition Register (r : BriefRegistry) (b : DelegatedBrief) : result herror (BriefRegistry * DelegatedBrief) :=
  match Validate b with
  | Some e => Err e
  | None =>
      match briefs r !! b_ID b with
      | Some _ => Err (wrap_error ("harness: brief ID already exists in this run: " ++ b_ID b) [])
      | None =>
          Ok ({| briefs := <[b_ID b := b]> (briefs r); order := order r ++ [b_ID b]; tombs := tombs r;
                 results := results r; terminal := terminal r |}, b)
      end
  end.

Definition Cancel (r : BriefRegistry) (id : string) : result herror BriefRegistry :=
  match briefs r !! id with
  | None => Err (wrap_error ("harness: unknown brief ID: " ++ id) [])
  | Some _ =>
      Ok {| briefs := briefs r; order := order r; tombs := {[id]} ∪ tombs r; results := results r; terminal := terminal r |}
  end.

Definition Cancelled (r : BriefRegistry) (id : string) : bool := bool_decide (id ∈ tombs r).

Definition CompletedBriefs (r : BriefRegistry) : list Brief :=
  omap (fun id => match results r !! id with
                  | Some res => Some {| br_ID := id; br_Summary := res_Summary res; br_Commit := res_Commit res |}
                  | None => None
                  end) (order r).

(** ** Tracked checks *)

Definition ResultCompleted : string := "completed".
Definition ResultCancelled : string := "cancelled".
Definition WorkerResultFailed : string := "failed".

Definition maxTrackedReceipts : nat := 32.

Record checkReceipt := {
  cr_opID : string; cr_command : string; cr_tip : string; cr_envDigest : string; cr_gen : Z;
  cr_status : string; cr_exitCode : Z; cr_stdoutTail : string; cr_stderrTail : string
}.

Definition completedRun (status : string) (exitCode : Z) : bool :=
  if String.eqb status ResultCompleted then true else
  if String.eqb status WorkerResultFailed then 0 <=? exitCode else false.

Definition reusable (r : checkReceipt) : bool := completedRun (cr_status r) (cr_exitCode r).

(** An entry is in flight until [ce_done]: its channel is closed then. *)
Record checkEntry := { ce_receipt : option checkReceipt; ce_done : bool }.

Record checkRegistry := { cr_order : list string; cr_entries : gmap string checkEntry }.

Definition newCheckRegistry : checkRegistry := {| cr_order := []; cr_entries := ∅ |}.

Inductive claimOutcome := claimReuse (receipt : checkReceipt) | claimActive | claimFresh.

Fixpoint dropOrder (key : string) (order : list string) : list string :=
  match order with [] => [] | k :: rest => if String.eqb k key then rest else k :: dropOrder key rest end.

Definition install (r : checkRegistry) (key : string) (entry : checkEntry) : checkRegistry :=
  let order := if bool_decide (is_Some (cr_entries r !! key)) then dropOrder key (cr_order r) else cr_order r in
  {| cr_order := order ++ [key]; cr_entries := <[key := entry]> (cr_entries r) |}.

Definition claim (r : checkRegistry) (key : string) (force : bool) : checkRegistry * claimOutcome :=
  let fresh := (install r key {| ce_receipt := None; ce_done := false |}, claimFresh) in
  match cr_entries r !! key with
  | None => fresh
  | Some entry =>
      if negb (ce_done entry) then (r, claimActive) else
      match ce_receipt entry with
      | Some receipt => if negb force && reusable receipt then (r, claimReuse receipt) else fresh
      | None => fresh
      end
  end.

Definition drop_key (r : checkRegistry) (key : string) : checkRegistry :=
  {| cr_order := dropOrder key (cr_order r); cr_entries := delete key (cr_entries r) |}.

Definition invalidate (r : checkRegistry) (key : string) : checkRegistry :=
  match cr_entries r !! key with
  | None => r
  | Some entry => if ce_done entry then drop_key r key else r
  end.

(** The least recently tracked terminal entry other than [own]. *)
Definition evictable (r : checkRegistry) (own key : string) : bool :=
  negb (String.eqb key own) && match cr_entries r !! key with Some e => ce_done e | None => false end.

(** The eviction loop: each round drops one entry, so the number of entries is
    enough fuel. *)
Fixpoint evict (fuel : nat) (own : string) (r : checkRegistry) : checkRegistry :=
  match fuel with
  | O => r
  | S fuel =>
      if (maxTrackedReceipts <? size (cr_entries r))%nat then
        match List.find (evictable r own) (cr_order r) with
        | Some key => evict fuel own (drop_key r key)
        | None => r
        end
      else r
  end.

(** The caller owns the entry it claimed: it is the one at its key. *)
Definition complete (r : checkRegistry) (key : string) (receipt : option checkReceipt) : checkRegistry :=
  let r := {| cr_order := cr_order r; cr_entries := <[key := {| ce_receipt := receipt; ce_done := true |}]> (cr_entries r) |} in
  evict (size (cr_entries r)) key r.

Definition digestOf (value : string) : string := sha256_hex value.

Definition bootstrapEnvDigest (env : list string) : string := digestOf (Join (sort_strings env) (str1 0)).

Definition checkStateKey (command tip : string) : string := digestOf (command ++ str1 0 ++ tip).

(** ** Tool text (coordinator.go) *)

(** [strings.Map] over the runes: an invalid byte becomes U+FFFD. *)
Fixpoint sanitize (skip : nat) (s : string) : string :=
  match s with
  | "" => ""
  | String c r =>
      match skip with
      | S k => String c (sanitize k r)
      | O =>
          let '(w, ok) := decode_rune s in
          if negb ok then replacement ++ sanitize 0 r else
          if in_range 9 10 c || Ascii.eqb c (chr 13) then String (chr 32) (sanitize 0 r) else
          if (byte_of c <? 0x20) || (byte_of c =? 0x7f) then sanitize 0 r
          else String c (sanitize (w - 1) r)
      end
  end.

Definition sanitizeExcerpt (value : string) : string :=
  let v := sanitize 0 value in if 500 <? slen v then stake 500 v else v.

Definition safeToolError (e : herror) : string := sanitizeExcerpt (text e).

(** ** The ledger's invariant *)

Definition ledger_inv (r : BriefRegistry) : Prop :=
  NoDup (order r) /\ (forall id, id ∈ order r <-> is_Some (briefs r !! id)) /\
  map_Forall (fun id b => b_ID b = id /\ Validate b = None) (briefs r) /\
  (forall id, is_Some (results r !! id) -> id ∈ terminal r) /\
  (forall id, id ∈ terminal r -> is_Some (briefs r !! id)) /\ (forall id, id ∈ tombs r -> is_Some (briefs r !! id)).

Lemma ledger_new : ledger_inv NewBriefRegistry.
Proof.
  unfold ledger_inv, NewBriefRegistry; cbn [briefs order tombs results terminal].
  split_and!; [constructor| |apply map_Forall_empty| | |]; intros id; rewrite ?lookup_empty; set_solver.
Qed.

Lemma ledger_register r b r' b' :
  ledger_inv r -> Register r b = Ok (r', b') ->
  ledger_inv r' /\ b' = b /\ Validate b = None /\ briefs r !! b_ID b = None /\ r' =
    {| briefs := <[b_ID b := b]> (briefs r); order := order r ++ [b_ID b]; tombs := tombs r;
       results := results r; terminal := terminal r |}.
Proof.
  intros (H1 & H2 & H3 & H4 & H5 & H6). unfold Register. destruct (Validate b) eqn:Hv; [done|].
  destruct (briefs r !! b_ID b) eqn:Hb; [done|]. intros [= <- <-]. split; [|done].
  assert (Hnew : forall id, is_Some (briefs r !! id) -> is_Some (<[b_ID b:=b]> (briefs r) !! id)).
  { intros id Hid. destruct (decide (b_ID b = id)) as [<-|]; [rewrite lookup_insert_eq; eauto|by rewrite lookup_insert_ne]. }
  split_and!; cbn.
  - apply NoDup_app. split; [done|]. split; [|apply NoDup_singleton]. intros id Hid ->%list_elem_of_singleton.
    apply H2 in Hid. rewrite Hb in Hid. by destruct Hid.
  - intros id. rewrite elem_of_app, list_elem_of_singleton. destruct (decide (id = b_ID b)) as [->|Hne].
    + rewrite lookup_insert_eq. split; eauto.
    + rewrite lookup_insert_ne by done. rewrite <- H2. naive_solver.
  - apply map_Forall_insert_2; [done|done].
  - done.
  - auto.
  - auto.
Qed.

Lemma ledger_terminal r id : ledger_inv r -> ledger_inv (MarkTerminal r id).
Proof.
  intros (H1 & H2 & H3 & H4 & H5 & H6). unfold MarkTerminal. destruct (briefs r !! id) as [b|] eqn:Hb; [|by split_and!].
  split_and!; cbn; [done|done|done|set_solver| |done]. intros i [->%elem_of_singleton|Hi]%elem_of_union; [rewrite Hb; eauto|auto].
Qed.

Lemma ledger_record r id s c : ledger_inv r -> ledger_inv (RecordResult r id s c).
Proof.
  intros (H1 & H2 & H3 & H4 & H5 & H6). unfold RecordResult. destruct (briefs r !! id) as [b|] eqn:Hb; [|by split_and!].
  split_and!; cbn; [done|done|done| | |done].
  - intros i. destruct (decide (id = i)) as [->|Hne]; [set_solver|]. rewrite lookup_insert_ne by done. set_solver.
  - intros i [->%elem_of_singleton|Hi]%elem_of_union; [rewrite Hb; eauto|auto].
Qed.

Lemma ledger_cancel r id r' : ledger_inv r -> Cancel r id = Ok r' -> ledger_inv r'.
Proof.
  intros (H1 & H2 & H3 & H4 & H5 & H6). unfold Cancel. destruct (briefs r !! id) as [b|] eqn:Hb; [|done]. intros [= <-].
  split_and!; cbn; try done. intros i [->%elem_of_singleton|Hi]%elem_of_union; [rewrite Hb; eauto|auto].
Qed.

Lemma no_flight r : ledger_inv r -> HasInFlight r = false <-> forall id, is_Some (briefs r !! id) -> id ∈ terminal r.
Proof.
  intros (H1 & H2 & H3 & H4 & H5 & H6). unfold HasInFlight. rewrite existsb_false_iff. split.
  - intros H id Hid%H2. specialize (H id (proj1 (list_elem_of_In _ _) Hid)). apply andb_false_iff in H as [H|H];
      apply negb_false_iff, bool_decide_eq_true in H; auto.
  - intros H id Hin%list_elem_of_In%H2%H. apply andb_false_iff. right. by apply negb_false_iff, bool_decide_eq_true.
Qed.

(** ** Histories of the ledger *)

Inductive ledger_op :=
| LRegister (b : DelegatedBrief)
| LRecord (id summary commit : string)
| LTerminal (id : string)
| LCancel (id : string).

(** A refused operation leaves the ledger as it was. *)
Definition ledger_step (r : BriefRegistry) (op : ledger_op) : BriefRegistry :=
  match op with
  | LRegister b => match Register r b with Ok (r', _) => r' | Err _ => r end
  | LRecord id s c => RecordResult r id s c
  | LTerminal id => MarkTerminal r id
  | LCancel id => match Cancel r id with Ok r' => r' | Err _ => r end
  end.

Definition ledger_le (r r' : BriefRegistry) : Prop :=
  order r `prefix_of` order r' /\ briefs r ⊆ briefs r' /\ tombs r ⊆ tombs r' /\ terminal r ⊆ terminal r' /\
  dom (results r) ⊆ dom (results r').

#[export] Instance ledger_le_preorder : PreOrder ledger_le.
Proof.
  split; [intros r; by split_and!|]. intros r1 r2 r3 (A1 & A2 & A3 & A4 & A5) (B1 & B2 & B3 & B4 & B5). split_and!; by etrans.
Qed.

Lemma ledger_step_inv r op : ledger_inv r -> ledger_inv (ledger_step r op) /\ ledger_le r (ledger_step r op).
Proof.
  intros Hr. destruct op as [b|id s c|id|id]; cbn [ledger_step].
  - destruct (Register r b) as [[r' b']|e] eqn:H; [|done]. destruct (ledger_register r b r' b' Hr H) as (Hi & _ & _ & Hn & ->).
    split; [done|]. split_and!; cbn; [by eexists|by apply insert_subseteq|done|done|done].
  - split; [by apply ledger_record|]. unfold RecordResult. destruct (briefs r !! id); [|done].
    split_and!; cbn; [done|done|done|set_solver|]. rewrite dom_insert_L. set_solver.
  - split; [by apply ledger_terminal|]. unfold MarkTerminal. destruct (briefs r !! id); [|done]. split_and!; cbn; set_solver.
  - destruct (Cancel r id) as [r'|e] eqn:H; [|done]. split; [by eapply ledger_cancel|]. unfold Cancel in H.
    destruct (briefs r !! id); [|done]. injection H as <-. split_and!; cbn; set_solver.
Qed.

Lemma ledger_history r ops : ledger_inv r -> ledger_inv (foldl ledger_step r ops) /\ ledger_le r (foldl ledger_step r ops).
Proof.
  revert r. induction ops as [|op ops IH]; intros r Hr; [done|]. cbn [foldl].
  destruct (ledger_step_inv r op Hr) as [H1 H2]. destruct (IH _ H1) as [H3 H4]. split; [done|by etrans].
Qed.

Lemma completed_sublist r l :
  br_ID <$> omap (fun id => match results r !! id with
                  | Some res => Some {| br_ID := id; br_Summary := res_Summary res; br_Commit := res_Commit res |}
                  | None => None end) l `sublist_of` l.
Proof.
  induction l as [|id l IH]; [done|]. cbn [omap list_omap]. destruct (results r !! id); cbn [fmap list_fmap br_ID].
  - by apply sublist_skip.
  - by apply sublist_cons.
Qed.

(** ** The check registry *)

Definition checks_inv (r : checkRegistry) : Prop :=
  NoDup (cr_order r) /\ forall key, key ∈ cr_order r <-> is_Some (cr_entries r !! key).

Lemma dropOrder_spec key l : NoDup l -> NoDup (dropOrder key l) /\ forall k, k ∈ dropOrder key l <-> k ∈ l /\ k <> key.
Proof.
  induction 1 as [|k l Hk Hl [IH1 IH2]]; cbn [dropOrder]; [split; [constructor|intros k; rewrite elem_of_nil; tauto]|]. destruct (String.eqb_spec k key) as [->|Hne].
  - split; [done|]. intros k. rewrite elem_of_cons. split; [|naive_solver]. intros Hin. split; [by right|]. by intros ->.
  - split; [apply NoDup_cons; split; [rewrite IH2; tauto|done]|]. intros k'. rewrite !elem_of_cons, IH2. naive_solver.
Qed.

Lemma checks_drop r key : checks_inv r -> checks_inv (drop_key r key).
Proof.
  intros [H1 H2]. destruct (dropOrder_spec key _ H1) as [H3 H4]. split; [done|]. intros k. cbn.
  rewrite H4, H2. destruct (decide (k = key)) as [->|Hne]; [rewrite lookup_delete_eq; split; [tauto|by intros []]|].
  rewrite lookup_delete_ne by done. tauto.
Qed.

Lemma checks_install r key e : checks_inv r -> checks_inv (install r key e).
Proof.
  intros [H1 H2]. destruct (dropOrder_spec key _ H1) as [H3 H4]. unfold install.
  assert (Hl : NoDup (if bool_decide (is_Some (cr_entries r !! key)) then dropOrder key (cr_order r) else cr_order r) /\
    forall k, k ∈ (if bool_decide (is_Some (cr_entries r !! key)) then dropOrder key (cr_order r) else cr_order r) <-> k ∈ cr_order r /\ k <> key).
  { case_bool_decide as Hd; [done|]. split; [done|]. intros k. split; [|tauto]. intros Hk. split; [done|]. intros ->. by apply Hd, H2. }
  destruct Hl as [Hl1 Hl2]. split; cbn.
  - apply NoDup_app. split; [done|]. split; [|apply NoDup_singleton]. intros k Hk ->%list_elem_of_singleton. by apply Hl2 in Hk as [_ ?].
  - intros k. rewrite elem_of_app, list_elem_of_singleton, Hl2, H2. destruct (decide (k = key)) as [->|Hne].
    + rewrite lookup_insert_eq. split; eauto.
    + rewrite lookup_insert_ne by done. tauto.
Qed.

Lemma claim_inv r key force : checks_inv r -> checks_inv (claim r key force).1.
Proof. intros Hr. unfold claim. repeat case_match; cbn; auto using checks_install. Qed.

Lemma invalidate_inv r key : checks_inv r -> checks_inv (invalidate r key).
Proof. intros Hr. unfold invalidate. repeat case_match; auto using checks_drop. Qed.

(** An eviction keeps the entry that was just completed and stops at the bound,
    or when nothing terminal is left to drop. *)
Lemma evict_spec fuel own r :
  checks_inv r -> (size (cr_entries r) <= fuel)%nat ->
  checks_inv (evict fuel own r) /\ cr_entries (evict fuel own r) ⊆ cr_entries r /\
  cr_entries (evict fuel own r) !! own = cr_entries r !! own /\
  ((size (cr_entries (evict fuel own r)) <= maxTrackedReceipts)%nat \/
   forall key e, key <> own -> cr_entries (evict fuel own r) !! key = Some e -> ce_done e = false).
Proof.
  revert r. induction fuel as [|fuel IH]; intros r Hr Hf; cbn [evict].
  { split_and!; try done. left. lia. }
  destruct (maxTrackedReceipts <? size (cr_entries r))%nat eqn:Hsz; [|apply Nat.ltb_ge in Hsz; split_and!; try done; by left].
  destruct (List.find (evictable r own) (cr_order r)) as [key|] eqn:Hfind.
  - apply List.find_some in Hfind as [Hin Hev]. unfold evictable in Hev. apply andb_true_iff in Hev as [Hne He].
    apply negb_true_iff, String.eqb_neq in Hne. destruct (cr_entries r !! key) as [e|] eqn:Hk; [|done].
    destruct (IH (drop_key r key)) as (G1 & G2 & G3 & G4); [by apply checks_drop|cbn; rewrite map_size_delete_Some by eauto; lia|].
    split; [done|]. split; [etrans; [exact G2|apply delete_subseteq]|]. split; [|done].
    rewrite G3. cbn. by rewrite lookup_delete_ne.
  - split_and!; try done. right. intros key e Hne Hk. destruct (ce_done e) eqn:Hd; [|done]. exfalso.
    assert (Hin : In key (cr_order r)) by (apply list_elem_of_In; destruct Hr as [_ ->]; rewrite Hk; eauto).
    apply (List.find_none _ _ Hfind) in Hin. unfold evictable in Hin. rewrite Hk, Hd in Hin.
    destruct (String.eqb_spec key own); done.
Qed.

Lemma complete_spec r key receipt :
  checks_inv r -> is_Some (cr_entries r !! key) ->
  let r' := complete r key receipt in
  checks_inv r' /\ cr_entries r' !! key = Some {| ce_receipt := receipt; ce_done := true |} /\
  (forall k e, k <> key -> cr_entries r' !! k = Some e -> cr_entries r !! k = Some e) /\
  ((size (cr_entries r') <= maxTrackedReceipts)%nat \/ forall k e, k <> key -> cr_entries r' !! k = Some e -> ce_done e = false).
Proof.
  intros [H1 H2] Hk r'. subst r'. unfold complete.
  set (r1 := {| cr_order := cr_order r; cr_entries := <[key := {| ce_receipt := receipt; ce_done := true |}]> (cr_entries r) |}).
  destruct (evict_spec (size (cr_entries r1)) key r1) as (G1 & G2 & G3 & G4); [|done|].
  { split; [done|]. intros k. cbn. rewrite H2. destruct (decide (key = k)) as [->|Hne]; [rewrite lookup_insert_eq; split; eauto|by rewrite lookup_insert_ne]. }
  split; [done|]. split; [rewrite G3; apply lookup_insert_eq|]. split; [|done].
  intros k e Hne He. apply (lookup_weaken _ _ _ _ He) in G2. cbn in G2. by rewrite lookup_insert_ne in G2.
Qed.

(** ** Operation IDs *)

Definition operation_kinds : list string := ["shell"; "snapshot"; "bootstrap"; "bootstrap-env"; "pack"; "check"].

Lemma op_id_chars_app s t : op_id_chars (s ++ t) = op_id_chars s && op_id_chars t.
Proof. induction s as [|c s IH]; [done|]. rewrite sapp_cons. cbn [op_id_chars]. by rewrite IH, andb_assoc. Qed.

Lemma brief_chars_op s : brief_id_chars s = true -> op_id_chars s = true.
Proof.
  induction s as [|c s IH]; [done|]. cbn [brief_id_chars op_id_chars]. intros [Hc Hs]%andb_true_iff.
  rewrite (IH Hs), andb_true_r. clear -Hc. destruct c as [[] [] [] [] [] [] [] []]; vm_compute in Hc |- *; congruence.
Qed.

Lemma hex_digit_op d : 0 <= d < 16 -> op_id_char (hex_digit d) = true.
Proof.
  intros H. assert (Hd : d ∈ seqZ 0 16) by (apply elem_of_seqZ; lia). clear H. revert d Hd.
  apply Forall_forall. vm_compute. repeat constructor.
Qed.

Lemma hex_chars_op bytes : Forall (fun b => 0 <= b < 256) bytes -> op_id_chars (EncodeToString bytes) = true.
Proof.
  induction 1 as [|b l Hb _ IH]; [done|]. change (EncodeToString (b :: l)) with (hex_byte b ++ EncodeToString l).
  rewrite op_id_chars_app, IH. unfold hex_byte. cbn [op_id_chars].
  rewrite !hex_digit_op; [done|apply Z.mod_pos_bound; lia|]. split; [apply Z.div_pos; lia|apply Z.div_lt_upper_bound; lia].
Qed.

Lemma kind_chars kind : kind ∈ operation_kinds -> op_id_chars kind = true /\ 1 <= slen kind <= 13.
Proof.
  revert kind. apply Forall_forall. repeat constructor; vm_compute; done.
Qed.

(** ** Properties *)

(** The run's brief ledger, over any history: an ID that was registered is
    never registered again and its brief is never amended; a tombstone is
    final; what has ended stays ended; and the completed briefs are reported
    once each, in registration order. *)
Theorem brief_ledger_final (before after : list ledger_op) :
  let r := foldl ledger_step NewBriefRegistry before in
  let r' := foldl ledger_step r after in
  ledger_inv r' /\ ledger_le r r' /\
  (forall b, is_Some (briefs r !! b_ID b) -> is_ok (Register r' b) = false) /\
  (forall id, Cancelled r id = true -> Cancelled r' id = true) /\
  (br_ID <$> CompletedBriefs r') `sublist_of` order r'.
Proof.
  cbn zeta. destruct (ledger_history NewBriefRegistry before ledger_new) as [H1 _].
  destruct (ledger_history _ after H1) as [H2 Hle]. pose proof Hle as (_ & Hb & Ht & _ & _).
  split; [done|]. split; [done|]. split; [|split].
  - intros b [b' Hb']. unfold Register. destruct (Validate b); [done|]. by rewrite (lookup_weaken _ _ _ _ Hb' Hb).
  - intros id. unfold Cancelled. rewrite !bool_decide_eq_true. apply Ht.
  - apply completed_sublist.
Qed.

(** The operation IDs control composes are well-formed: for a valid brief, or
    for the coordinator's own work, every kind of operation gets an ID within
    the 128-byte single-segment bound the broker's status writer enforces, and
    IDs with different nonces differ. *)
Theorem operation_ids_accepted (kind briefID : string) (nonce : list Z)
    (Hkind : kind ∈ operation_kinds) (Hid : isBriefID briefID = true)
    (Hlen : length nonce = 8%nat) (Hbytes : Forall (fun b => 0 <= b < 256) nonce) :
  validOperationID (newOpID kind briefID nonce) = true /\ validOperationID briefID = true /\
  (forall kind' briefID' nonce', length nonce' = 8%nat -> EncodeToString nonce <> EncodeToString nonce' ->
     newOpID kind briefID nonce <> newOpID kind' briefID' nonce').
Proof.
  destruct (kind_chars kind Hkind) as [Hk Hkl]. unfold isBriefID in Hid.
  destruct (String.eqb_spec briefID "") as [|Hne]; [done|]. destruct (maxBriefIDLength <? slen briefID) eqn:Hl; [done|].
  cbn [orb] in Hid. unfold maxBriefIDLength in Hl. apply brief_chars_op in Hid.
  assert (Hn : slen (EncodeToString nonce) = 16) by (unfold slen; rewrite EncodeToString_length, Hlen; reflexivity).
  assert (Hop : newOpID kind briefID nonce = kind ++ "." ++ briefID ++ "." ++ EncodeToString nonce).
  { unfold newOpID. by destruct (String.eqb_spec briefID ""). }
  assert (Hsz : slen (newOpID kind briefID nonce) <= 127).
  { rewrite Hop, !slen_app, Hn. change (slen ".") with 1. lia. }
  split; [|split].
  - unfold validOperationID. destruct (String.eqb_spec (newOpID kind briefID nonce) "") as [He|_].
    { rewrite Hop in He. apply (f_equal slen) in He. rewrite !slen_app, Hn in He. change (slen ".") with 1 in He.
      change (slen "") with 0 in He. pose proof (slen_nonneg briefID). lia. }
    replace (128 <? slen (newOpID kind briefID nonce)) with false by lia. cbn [orb].
    rewrite Hop, !op_id_chars_app, Hk, Hid, hex_chars_op by done. reflexivity.
  - unfold validOperationID. destruct (String.eqb_spec briefID ""); [done|]. replace (128 <? slen briefID) with false by lia. done.
  - intros kind' briefID' nonce' Hlen' Hne' He. apply Hne'.
    assert (Hop' : exists pre, newOpID kind' briefID' nonce' = pre ++ EncodeToString nonce').
    { unfold newOpID. destruct (String.eqb briefID' ""); [exists (kind' ++ ".")|exists (kind' ++ "." ++ briefID' ++ ".")];
        by rewrite !sapp_assoc. }
    destruct Hop' as [pre Hop']. rewrite Hop' in He. rewrite Hop in He.
    assert (Hpre : (kind ++ "." ++ briefID ++ ".") ++ EncodeToString nonce = pre ++ EncodeToString nonce') by (by rewrite !sapp_assoc).
    apply (sapp_inj_length (kind ++ "." ++ briefID ++ ".") pre) in Hpre as [_ ?]; [done|].
    pose proof (f_equal slen Hpre) as Hll. rewrite (slen_app (_ ++ _)), (slen_app pre) in Hll. unfold slen in Hll.
    rewrite !EncodeToString_length, Hlen, Hlen' in Hll. lia.
Qed.

Lemma operation_ids_accepted_witness :
  validOperationID (newOpID "bootstrap-env" (Join (repeat "brief-12" 12) "") [1; 2; 3; 4; 5; 6; 7; 8]) = true.
Proof.
  apply (operation_ids_accepted "bootstrap-env" (Join (repeat "brief-12" 12) "") [1; 2; 3; 4; 5; 6; 7; 8]);
    [right; right; right; left|vm_compute; reflexivity|reflexivity|repeat constructor; lia].
Defined.

(** The check registry stays consistent and bounded: after a check completes,
    its own entry holds its receipt, no other entry was touched but dropped,
    and the registry is within its bound unless everything left is in flight;
    and a claim reuses a receipt only when it records a completed run and the
    caller did not ask for a fresh one. *)
Theorem check_registry_bounded (r : checkRegistry) (key : string) (receipt : option checkReceipt)
    (Hr : checks_inv r) (Hk : is_Some (cr_entries r !! key)) :
  let r' := complete r key receipt in
  checks_inv r' /\ cr_entries r' !! key = Some {| ce_receipt := receipt; ce_done := true |} /\
  (forall k e, k <> key -> cr_entries r' !! k = Some e -> cr_entries r !! k = Some e) /\
  ((size (cr_entries r') <= maxTrackedReceipts)%nat \/ forall k e, k <> key -> cr_entries r' !! k = Some e -> ce_done e = false) /\
  (forall k force receipt', (claim r' k force).2 = claimReuse receipt' ->
     force = false /\ reusable receipt' = true /\ cr_entries r' !! k = Some {| ce_receipt := Some receipt'; ce_done := true |}).
Proof.
  destruct (complete_spec r key receipt Hr Hk) as (H1 & H2 & H3 & H4). split_and!; try done.
  intros k force receipt'. unfold claim. destruct (cr_entries (complete r key receipt) !! k) as [[rc d]|]; [|done].
  destruct d; cbn [ce_done ce_receipt negb]; [|done]. destruct rc as [rc|]; [|done].
  destruct (negb force && reusable rc) eqn:Hf; [|done]. intros [= <-]. apply andb_true_iff in Hf as [Hf Hre].
  by apply negb_true_iff in Hf.
Qed.

Definition example_receipt : checkReceipt :=
  {| cr_opID := "op"; cr_command := "go test"; cr_tip := "tip"; cr_envDigest := ""; cr_gen := 1; cr_status := ResultCompleted;
     cr_exitCode := 0; cr_stdoutTail := "ok"; cr_stderrTail := "" |}.

Lemma check_registry_bounded_witness :
  checks_inv (complete (claim newCheckRegistry "key" false).1 "key" (Some example_receipt)).
Proof.
  apply (check_registry_bounded (claim newCheckRegistry "key" false).1 "key" (Some example_receipt)).
  - apply claim_inv. split; [constructor|]. intros k. split; [by intros ?%elem_of_nil|]. intros [? ?]. done.
  - by eexists.
Defined.
