(* ===== verification/Devenv.v ===== *)
(** * The development-bootstrap contract (internal/devenv)

    The trust decision over the contract files of two revisions, the fixed task
    scripts built from a validated base revision, the parsing of the environment
    capture, and the merge of the captured delta over an environment.

    [dq] is a double quote and [bs] a backslash inside the shell scripts. *)

From S2P Require Import Prelude Effects GoStrings.
Local Open Scope string_scope.
Local Open Scope Z_scope.

(** ** The contract *)

Definition ConfigPath : string := ".mise/config.toml".
Definition LockPath : string := ".mise/mise.lock".

Definition StateAbsent : string := "absent".
Definition StateApproved : string := "approved".
Definition StateModified : string := "modified".

Record Files := {
  f_Config : string; f_Lock : string; HasConfig : bool; HasLock : bool; ConfigRegular : bool; LockRegular : bool
}.

Definition Compare (base head : Files) : string :=
  if negb (HasConfig head) then StateAbsent else
  if negb (HasConfig base) then StateModified else
  if negb (ConfigRegular base) || negb (ConfigRegular head) then StateModified else
  if negb (HasLock base) || negb (HasLock head) then StateModified else
  if negb (LockRegular base) || negb (LockRegular head) then StateModified else
  if negb (String.eqb (f_Config base) (f_Config head)) || negb (String.eqb (f_Lock base) (f_Lock head)) then StateModified else
  StateApproved.

(** One revision-scoped read: the bytes, whether the entry is a regular blob,
    and whether it is present. *)
Record Blob := { bl_Data : string; bl_Regular : bool; bl_Present : bool }.

Section Classify.
Context {E : Type -> Type} {Er : Type}.
Variable read : string -> string -> prog E (result Er Blob).

Definition readContractFiles (revision : string) : prog E (result Er Files) :=
  config ←? read revision ConfigPath;
  lock ←? read revision LockPath;
  mret (Ok {| f_Config := bl_Data config; f_Lock := bl_Data lock; HasConfig := bl_Present config; HasLock := bl_Present lock;
              ConfigRegular := bl_Regular config; LockRegular := bl_Regular lock |}).

Definition Classify (baseRev headRev : string) : prog E (result Er string) :=
  base ←? readContractFiles baseRev;
  head ←? readContractFiles headRev;
  mret (Ok (Compare base head)).

End Classify.

(** ** Environments *)

(** [strings.Cut] at the first [=]. *)
Fixpoint Cut (s : string) : option (string * string) :=
  match s with
  | "" => None
  | String c r =>
      if Ascii.eqb c "=" then Some ("", r)
      else match Cut r with Some (name, value) => Some (String c name, value) | None => None end
  end.

Definition ProtectedKeys (name : string) : bool :=
  String.eqb name "IFS" || String.eqb name "SHELL" ||
  existsb (HasPrefix name) ["GIT_"; "COURIER_"; "LD_"; "DYLD_"].

(** The first loop of [MergeEnv]: the applied values and the order in which
    their names first appeared. *)
Fixpoint applied_delta (delta : list string) (applied : gmap string string) (order : list string) :
    gmap string string * list string :=
  match delta with
  | [] => (applied, order)
  | kv :: rest =>
      match Cut kv with
      | None => applied_delta rest applied order
      | Some (name, value) =>
          if ProtectedKeys name then applied_delta rest applied order else
          applied_delta rest (<[name := value]> applied)
            (if bool_decide (is_Some (applied !! name)) then order else (order ++ [name])%list)
      end
  end.

Fixpoint last_index (i : nat) (base : list string) (acc : gmap string nat) : gmap string nat :=
  match base with
  | [] => acc
  | kv :: rest =>
      match Cut kv with
      | Some (name, _) => last_index (S i) rest (<[name := i]> acc)
      | None => last_index (S i) rest acc
      end
  end.

Fixpoint merge_base (i : nat) (base : list string) (lastIndex : gmap string nat) (applied : gmap string string)
    (emitted : gset string) : list string * gset string :=
  match base with
  | [] => ([], emitted)
  | kv :: rest =>
      match Cut kv with
      | None => let '(out, emitted) := merge_base (S i) rest lastIndex applied emitted in (kv :: out, emitted)
      | Some (name, _) =>
          if negb (bool_decide (lastIndex !! name = Some i)) || bool_decide (name ∈ emitted)
          then merge_base (S i) rest lastIndex applied emitted
          else
            let entry := match applied !! name with Some value => name ++ "=" ++ value | None => kv end in
            let '(out, emitted) := merge_base (S i) rest lastIndex applied ({[name]} ∪ emitted) in (entry :: out, emitted)
      end
  end.

Fixpoint merge_order (order : list string) (applied : gmap string string) (emitted : gset string) : list string :=
  match order with
  | [] => []
  | name :: rest =>
      if bool_decide (name ∈ emitted) then merge_order rest applied emitted
      else (name ++ "=" ++ default "" (applied !! name)) :: merge_order rest applied ({[name]} ∪ emitted)
  end.

Definition MergeEnv (base delta : list string) : list string :=
  let '(applied, order) := applied_delta delta ∅ [] in
  let '(out, emitted) := merge_base 0 base (last_index 0 base ∅) applied ∅ in
  (out ++ merge_order order applied emitted)%list.

(** ** Scripts *)

Definition dq : string := str1 34.
Definition bs : string := str1 92.

Definition MaxCaptureBytes : Z := 64 * 1024.

Definition lower_hex (c : ascii) : bool := in_range 48 57 c || in_range 97 102 c.

Fixpoint all_lower_hex (s : string) : bool :=
  match s with "" => true | String c r => lower_hex c && all_lower_hex r end.

Definition validBaseOID (oid : string) : bool := ((slen oid =? 40) || (slen oid =? 64)) && all_lower_hex oid.

Definition lines (ls : list string) : string := foldr (fun l acc => l ++ nl ++ acc) "" ls.

Definition BootstrapScript (baseOID : string) : result string string :=
  if negb (validBaseOID baseOID) then Err "bootstrap base revision is not a git object ID" else
  Ok (lines [
    "set -eu";
    "base='" ++ baseOID ++ "'";
    "workspace=" ++ dq ++ "$(pwd)" ++ dq;
    "src=" ++ dq ++ "$(mktemp -d)" ++ dq;
    "courier_diag() {";
    "  printf 'courier-mise-path=%s" ++ bs ++ "n' " ++ dq ++ "$(command -v mise)" ++ dq;
    "  printf 'courier-mise-version=%s" ++ bs ++ "n' " ++ dq ++ "$(mise --version)" ++ dq;
    "  printf 'courier-mise-data-dir=%s" ++ bs ++ "n' " ++ dq ++ "${MISE_DATA_DIR:-${XDG_DATA_HOME:-$HOME/.local/share}/mise}" ++ dq;
    "}";
    "archive=" ++ dq ++ "$(mktemp)" ++ dq;
    "trap 'rc=$?; rm -rf " ++ dq ++ "$src" ++ dq ++ " " ++ dq ++ "$archive" ++ dq ++
      " || true; courier_diag || true; exit " ++ dq ++ "$rc" ++ dq ++ "' EXIT";
    "git archive --format=tar -o " ++ dq ++ "$archive" ++ dq ++ " " ++ dq ++ "$base" ++ dq;
    "tar -xf " ++ dq ++ "$archive" ++ dq ++ " -C " ++ dq ++ "$src" ++ dq;
    "test -f " ++ dq ++ "$src/" ++ ConfigPath ++ dq;
    "cd " ++ dq ++ "$src" ++ dq;
    "mise run bootstrap";
    "if [ -d " ++ dq ++ "$src/bin" ++ dq ++ " ]; then";
    "  mkdir -p " ++ dq ++ "$workspace/bin" ++ dq;
    "  cp -a " ++ dq ++ "$src/bin/." ++ dq ++ " " ++ dq ++ "$workspace/bin/" ++ dq;
    "fi"]).

Definition EnvCaptureScript (baseOID : string) : result string string :=
  if negb (validBaseOID baseOID) then Err "environment-capture base revision is not a git object ID" else
  Ok (lines [
    "set -eu";
    "base='" ++ baseOID ++ "'";
    "src=" ++ dq ++ "$(mktemp -d)" ++ dq;
    "capture=" ++ dq ++ "$(mktemp)" ++ dq;
    "archive=" ++ dq ++ "$(mktemp)" ++ dq;
    "trap 'rm -rf " ++ dq ++ "$src" ++ dq ++ " " ++ dq ++ "$capture" ++ dq ++ " " ++ dq ++ "$archive" ++ dq ++ " || true' EXIT";
    "git archive --format=tar -o " ++ dq ++ "$archive" ++ dq ++ " " ++ dq ++ "$base" ++ dq;
    "tar -xf " ++ dq ++ "$archive" ++ dq ++ " -C " ++ dq ++ "$src" ++ dq;
    "test -f " ++ dq ++ "$src/" ++ ConfigPath ++ dq;
    "cd " ++ dq ++ "$src" ++ dq;
    "mise x -- env -0 > " ++ dq ++ "$capture" ++ dq;
    "size=" ++ dq ++ "$(wc -c < " ++ dq ++ "$capture" ++ dq ++ ")" ++ dq;
    "test " ++ dq ++ "$size" ++ dq ++ " -le " ++ Itoa MaxCaptureBytes;
    "cat " ++ dq ++ "$capture" ++ dq]).

(** ** Diagnostics *)

Definition diagnostic_keys : list string := ["courier-mise-path"; "courier-mise-version"; "courier-mise-data-dir"].
Definition maxDiagnosticValueBytes : Z := 300.

Fixpoint printableASCII (s : string) : bool :=
  match s with "" => true | String c r => in_range 0x20 0x7e c && printableASCII r end.

Definition diagnostic (line : string) : option (string * string) :=
  match Cut line with
  | None => None
  | Some (key, value) =>
      if negb (existsb (String.eqb key) diagnostic_keys) then None else
      if (maxDiagnosticValueBytes <? slen value) || negb (printableASCII value) then None else Some (key, value)
  end.

Definition ParseBootstrapDiagnostics (stdout : string) : gmap string string :=
  foldl (fun m line => match diagnostic line with Some (k, v) => <[k := v]> m | None => m end) ∅ (Split stdout newline).

(** ** Captures *)

Definition nul : ascii := chr 0.

Definition splitNUL (capture : string) : result string (list string) :=
  if String.eqb capture "" then Err "empty environment capture" else
  if negb (HasSuffix capture (str1 0)) then Err "truncated environment capture" else
  Ok (Split capture nul).

Definition baseEnvMap (env : list string) : gmap string string :=
  foldl (fun m kv => match Cut kv with Some (n, v) => <[n := v]> m | None => m end) ∅ env.

(** A rune below 0x20 or 0x7f is a byte of that value. *)
Fixpoint hasControl (name : string) : bool :=
  match name with "" => false | String c r => (byte_of c <? 0x20) || (byte_of c =? 0x7f) || hasControl r end.

Fixpoint envDelta (records : list string) (base : gmap string string) : result string (list string) :=
  match records with
  | [] => Ok []
  | record :: rest =>
      if String.eqb record "" then envDelta rest base else
      match Cut record with
      | None => Err "malformed environment capture"
      | Some (name, value) =>
          if String.eqb name "" || hasControl name then Err "malformed environment capture" else
          if ProtectedKeys name || bool_decide (base !! name = Some value) then envDelta rest base else
          delta ← envDelta rest base; Ok (record :: delta)
      end
  end.

Definition ParseEnvCapture (stdout : string) (baseEnv : list string) : result string (list string * list string) :=
  records ← splitNUL stdout;
  match envDelta records (baseEnvMap baseEnv) with
  | Err _ => Err "malformed environment capture"
  | Ok delta => Ok (delta, sort_strings (omap (fun kv => option_map fst (Cut kv)) delta))
  end.

(** ** What an environment means

    A process sees the last entry of a name. *)
Fixpoint env_get (env : list string) (name : string) : option string :=
  match env with
  | [] => None
  | kv :: rest =>
      match env_get rest name with
      | Some v => Some v
      | None => match Cut kv with Some (n, v) => if String.eqb n name then Some v else None | None => None end
      end
  end.

Lemma env_get_app l1 l2 name :
  env_get (l1 ++ l2) name = match env_get l2 name with Some v => Some v | None => env_get l1 name end.
Proof. induction l1 as [|kv l1 IH]; simpl; [by destruct (env_get l2 name)|]. rewrite IH. by destruct (env_get l2 name). Qed.

Lemma Cut_spec s name value : Cut s = Some (name, value) -> s = name ++ "=" ++ value /\ no_byte "=" name = true.
Proof.
  revert name. induction s as [|c s IH]; intros name; simpl; [done|]. destruct (Ascii.eqb_spec c "=") as [->|Hc].
  - intros [= <- <-]. done.
  - destruct (Cut s) as [[n v]|]; [|done]. intros [= <- <-]. destruct (IH n eq_refl) as [-> Hn]. split; [done|].
    cbn [no_byte]. rewrite Hn, andb_true_r. apply negb_true_iff. by apply Ascii.eqb_neq.
Qed.

Lemma Cut_join name value : no_byte "=" name = true -> Cut (name ++ "=" ++ value) = Some (name, value).
Proof.
  induction name as [|c name IH]; [done|]. cbn [no_byte]. intros [Hc Hn]%andb_true_iff. rewrite sapp_cons. cbn [Cut].
  rewrite (IH Hn). apply negb_true_iff in Hc. by rewrite Hc.
Qed.

(** *** The delta *)

Lemma applied_delta_spec delta applied order :
  NoDup order -> (forall n, n ∈ order <-> is_Some (applied !! n)) ->
  (forall n, is_Some (applied !! n) -> ProtectedKeys n = false /\ no_byte "=" n = true) ->
  let '(applied', order') := applied_delta delta applied order in
  NoDup order' /\ (forall n, n ∈ order' <-> is_Some (applied' !! n)) /\
  (forall n, is_Some (applied' !! n) -> ProtectedKeys n = false /\ no_byte "=" n = true) /\
  forall n, applied' !! n = if ProtectedKeys n then None else match env_get delta n with Some v => Some v | None => applied !! n end.
Proof.
  revert applied order. induction delta as [|kv delta IH]; intros applied order H1 H2 H3; cbn [applied_delta env_get].
  { split_and!; try done. intros n. destruct (ProtectedKeys n) eqn:Hp; [|done].
    destruct (applied !! n) eqn:Hn; [|done]. destruct (H3 n) as [? _]; [eauto|congruence]. }
  destruct (Cut kv) as [[name value]|] eqn:Hc.
  2:{ specialize (IH applied order H1 H2 H3). destruct (applied_delta delta applied order) as [a' o'].
      destruct IH as (G1 & G2 & G3 & G4). split_and!; try done. intros n. rewrite G4. by destruct (env_get delta n). }
  apply Cut_spec in Hc as [_ Hname]. destruct (ProtectedKeys name) eqn:Hp.
  - specialize (IH applied order H1 H2 H3). destruct (applied_delta delta applied order) as [a' o'].
    destruct IH as (G1 & G2 & G3 & G4). split_and!; try done. intros n. rewrite G4. destruct (ProtectedKeys n) eqn:Hn; [done|].
    destruct (env_get delta n); [done|]. destruct (String.eqb_spec name n); [congruence|done].
  - set (order1 := if bool_decide (is_Some (applied !! name)) then order else (order ++ [name])%list).
    specialize (IH (<[name := value]> applied) order1).
    assert (A1 : NoDup order1).
    { unfold order1. case_bool_decide as Hd; [done|]. apply NoDup_app. split; [done|]. split; [|apply NoDup_singleton].
      intros n Hn ->%list_elem_of_singleton. by apply Hd, H2. }
    assert (A2 : forall n, n ∈ order1 <-> is_Some (<[name := value]> applied !! n)).
    { intros n. unfold order1. destruct (decide (name = n)) as [->|Hne].
      - rewrite lookup_insert_eq. split; [eauto|]. intros _. case_bool_decide; [by apply H2|]. apply elem_of_app. right. by left.
      - rewrite lookup_insert_ne by done. rewrite <- (H2 n). case_bool_decide; [done|]. rewrite elem_of_app, list_elem_of_singleton. naive_solver. }
    assert (A3 : forall n, is_Some (<[name := value]> applied !! n) -> ProtectedKeys n = false /\ no_byte "=" n = true).
    { intros n. destruct (decide (name = n)) as [->|Hne]; [done|]. rewrite lookup_insert_ne by done. auto. }
    specialize (IH A1 A2 A3). destruct (applied_delta delta _ order1) as [a' o']. destruct IH as (G1 & G2 & G3 & G4).
    split_and!; try done. intros n. rewrite G4. destruct (ProtectedKeys n) eqn:Hn; [done|]. destruct (env_get delta n); [done|].
    destruct (String.eqb_spec name n) as [->|Hne]; [by rewrite lookup_insert_eq|by rewrite lookup_insert_ne].
Qed.

(** *** The base *)

(** [last_index] names the last entry of each name. *)
Lemma last_index_spec i base acc n :
  last_index i base acc !! n =
  match env_get base n with
  | None => acc !! n
  | Some _ => last_index i base acc !! n
  end /\
  (is_Some (env_get base n) -> exists j kv v, last_index i base acc !! n = Some j /\ (i <= j)%nat /\
     base !! (j - i)%nat = Some kv /\ Cut kv = Some (n, v) /\ env_get base n = Some v).
Proof.
  revert i acc. induction base as [|kv base IH]; intros i acc; cbn [last_index env_get]; [split; [done|by intros []]|].
  assert (Hrest : forall acc', last_index (S i) base acc' !! n =
    match env_get base n with None => acc' !! n | Some _ => last_index (S i) base acc' !! n end) by (intros acc'; apply IH).
  assert (Hin : forall acc', is_Some (env_get base n) -> exists j kv' v, last_index (S i) base acc' !! n = Some j /\ (i <= j)%nat /\
     (kv :: base) !! (j - i)%nat = Some kv' /\ Cut kv' = Some (n, v) /\ env_get base n = Some v).
  { intros acc' H. destruct (proj2 (IH (S i) acc') H) as (j & kv' & v & H1 & H2 & H3 & H4 & H5).
    exists j, kv', v. split_and!; try done; [lia|]. by replace (j - i)%nat with (S (j - S i)) by lia. }
  destruct (Cut kv) as [[name value]|] eqn:Hc; destruct (env_get base n) as [v0|] eqn:He.
  - split; [done|]. intros _. apply Hin. eauto.
  - destruct (String.eqb_spec name n) as [->|Hne].
    + split; [done|]. intros _. exists i, kv, value. rewrite Hrest, lookup_insert_eq, Nat.sub_diag. done.
    + rewrite Hrest, lookup_insert_ne by done. split; [done|]. by intros [].
  - split; [done|]. intros _. apply Hin. eauto.
  - rewrite Hrest. split; [done|]. by intros [].
Qed.

Section Merge.
Variables (base0 : list string) (applied : gmap string string).
Let L : gmap string nat := last_index 0 base0 ∅.

Lemma last_at n j : L !! n = Some j -> exists kv v, base0 !! j = Some kv /\ Cut kv = Some (n, v) /\ env_get base0 n = Some v.
Proof.
  intros H. destruct (last_index_spec 0 base0 ∅ n) as [H1 H2]. fold L in H1, H2.
  destruct (env_get base0 n) as [v|] eqn:He; [|rewrite lookup_empty in H1; congruence].
  destruct (H2 ltac:(eauto)) as (j' & kv & v' & G1 & _ & G3 & G4 & G5). rewrite H in G1. injection G1 as <-.
  rewrite Nat.sub_0_r in G3. exists kv, v. injection G5 as ->. done.
Qed.

Lemma last_some n : is_Some (L !! n) <-> is_Some (env_get base0 n).
Proof.
  split; [intros [j Hj]; destruct (last_at n j Hj) as (kv & v & _ & _ & ->); eauto|].
  intros H. destruct (proj2 (last_index_spec 0 base0 ∅ n) H) as (j & kv & v & Hj & _). fold L in Hj. rewrite Hj. eauto.
Qed.

(** What the base part holds from index [i] on. *)
Definition base_value (i : nat) (n : string) : option string :=
  match L !! n with
  | Some j => if (i <=? j)%nat then Some (default (default "" (env_get base0 n)) (applied !! n)) else None
  | None => None
  end.

Lemma base_value_other i kv n :
  base0 !! i = Some kv -> (forall v, Cut kv <> Some (n, v)) -> base_value i n = base_value (S i) n.
Proof.
  intros Hkv Hne. unfold base_value. destruct (L !! n) as [j|] eqn:Hj; [|done].
  destruct (last_at n j Hj) as (kv' & v & H1 & H2 & _).
  assert (j <> i) by (intros ->; rewrite Hkv in H1; injection H1 as ->; by apply (Hne v)).
  destruct (Nat.leb_spec i j), (Nat.leb_spec (S i) j); try done; lia.
Qed.

Lemma merge_base_spec i base emitted :
  base = drop i base0 -> (forall n, n ∈ emitted -> exists j, L !! n = Some j /\ (j < i)%nat) ->
  let '(out, emitted') := merge_base i base L applied emitted in
  (forall n, env_get out n = base_value i n) /\
  (forall n, n ∈ emitted' <-> n ∈ emitted \/ is_Some (base_value i n)).
Proof.
  revert i emitted. induction base as [|kv base IH]; intros i emitted Hb He; cbn [merge_base].
  { assert (Hn : forall n, base_value i n = None).
    { intros n. unfold base_value. destruct (L !! n) as [j|] eqn:Hj; [|done]. destruct (last_at n j Hj) as (kv & v & H1 & _).
      destruct (Nat.leb_spec i j); [|done]. apply lookup_lt_Some in H1. assert (Hl : length (drop i base0) = 0%nat) by (by rewrite <- Hb).
      rewrite length_drop in Hl. lia. }
    split; [intros n; by rewrite Hn|]. intros n. rewrite Hn. split; [by left|]. by intros [?|[]]. }
  assert (Hkv : base0 !! i = Some kv) by (rewrite <- (Nat.add_0_r i), <- lookup_drop, <- Hb; done).
  assert (Hb' : base = drop (S i) base0) by (rewrite (drop_S _ _ _ Hkv) in Hb; by injection Hb).
  assert (He' : forall n, n ∈ emitted -> exists j, L !! n = Some j /\ (j < S i)%nat)
    by (intros n Hn; destruct (He n Hn) as (j & ? & ?); exists j; split; [done|lia]).
  destruct (Cut kv) as [[name value]|] eqn:Hc.
  2:{ specialize (IH (S i) emitted Hb' He'). destruct (merge_base (S i) base L applied emitted) as [out emitted'].
      destruct IH as [G1 G2]. assert (Hv : forall n, base_value i n = base_value (S i) n) by (intros n; apply (base_value_other i kv); [done|by rewrite Hc]).
      split; intros n; rewrite Hv; [|apply G2]. cbn [env_get]. rewrite Hc, G1. by destruct (base_value (S i) n). }
  destruct (negb _ || _) eqn:Hskip.
  - specialize (IH (S i) emitted Hb' He'). destruct (merge_base (S i) base L applied emitted) as [out emitted'].
    destruct IH as [G1 G2]. assert (Hv : forall n, base_value i n = base_value (S i) n).
    { intros n. destruct (decide (n = name)) as [->|Hne]; [|apply (base_value_other i kv); [done|rewrite Hc; congruence]].
      assert (HL : L !! name <> Some i).
      { intros HL. apply orb_true_iff in Hskip as [H|H]; [by rewrite bool_decide_eq_true_2 in H|].
        apply bool_decide_eq_true, He in H as (j & Hj & Hlt). rewrite HL in Hj. injection Hj. lia. }
      unfold base_value. destruct (L !! name) as [j|]; [|done]. destruct (Nat.leb_spec i j), (Nat.leb_spec (S i) j); try done; [|lia].
      exfalso. apply HL. f_equal. lia. }
    split; intros n; rewrite Hv; [apply G1|apply G2].
  - apply orb_false_iff in Hskip as [HL _]. apply negb_false_iff, bool_decide_eq_true in HL.
    specialize (IH (S i) ({[name]} ∪ emitted) Hb'). destruct (merge_base (S i) base L applied _) as [out emitted'].
    destruct IH as [G1 G2]; [intros n [->%elem_of_singleton|Hn]%elem_of_union; [exists i; split; [done|lia]|auto]|].
    assert (Hname : base_value (S i) name = None) by (unfold base_value; rewrite HL; by destruct (Nat.leb_spec (S i) i); [lia|]).
    assert (Hval : base_value i name = Some (default value (applied !! name))).
    { unfold base_value. rewrite HL, Nat.leb_refl. destruct (last_at name i HL) as (kv' & v & H1 & H2 & ->).
      rewrite Hkv in H1. injection H1 as <-. rewrite Hc in H2. by injection H2 as ->. }
    pose proof (Cut_spec kv name value Hc) as [Heq Hno].
    assert (Hcut : Cut (match applied !! name with Some value => name ++ "=" ++ value | None => kv end) = Some (name, default value (applied !! name))).
    { destruct (applied !! name); [by apply Cut_join|done]. }
    split; intros n.
    + cbn [env_get]. rewrite G1, Hcut. destruct (String.eqb_spec name n) as [->|Hne]; [by rewrite Hname, Hval|].
      rewrite (base_value_other i kv n Hkv) by (rewrite Hc; congruence). by destruct (base_value (S i) n).
    + rewrite G2, elem_of_union, elem_of_singleton. destruct (decide (n = name)) as [->|Hne]; [rewrite Hval; naive_solver|].
      rewrite (base_value_other i kv n Hkv) by (rewrite Hc; congruence). naive_solver.
Qed.

Lemma merge_order_spec order emitted :
  NoDup order -> Forall (fun n => no_byte "=" n = true /\ is_Some (applied !! n)) order ->
  forall n, env_get (merge_order order applied emitted) n =
    if bool_decide (n ∈ order) && negb (bool_decide (n ∈ emitted)) then applied !! n else None.
Proof.
  revert emitted. induction order as [|name order IH]; intros emitted Hd Hf n; cbn [merge_order]; [done|].
  apply NoDup_cons in Hd as [Hnin Hd]. apply Forall_cons in Hf as [[Hno [v Hv]] Hf].
  destruct (bool_decide (name ∈ emitted)) eqn:Hem.
  - rewrite (IH emitted Hd Hf). destruct (decide (n = name)) as [->|Hne].
    + rewrite (bool_decide_eq_false_2 (name ∈ order)) by done. rewrite Hem. cbn [andb negb]. by rewrite andb_false_r.
    + replace (bool_decide (n ∈ name :: order)) with (bool_decide (n ∈ order)) by (apply bool_decide_ext; set_solver). done.
  - cbn [env_get]. rewrite (IH _ Hd Hf), Hv. cbn [default]. rewrite Cut_join by done.
    destruct (decide (n = name)) as [->|Hne].
    + rewrite (bool_decide_eq_false_2 (name ∈ order)) by done. cbn [andb]. rewrite String.eqb_refl.
      rewrite (bool_decide_eq_true_2 (name ∈ name :: order)) by (by left). by rewrite Hem, Hv.
    + destruct (String.eqb_spec name n); [congruence|].
      replace (bool_decide (n ∈ name :: order)) with (bool_decide (n ∈ order)) by (apply bool_decide_ext; set_solver).
      replace (bool_decide (n ∈ {[name]} ∪ emitted)) with (bool_decide (n ∈ emitted)) by (apply bool_decide_ext; set_solver).
      destruct (bool_decide (n ∈ order) && negb (bool_decide (n ∈ emitted))); [|done]. by destruct (applied !! n).
Qed.

End Merge.

(** The merged environment, name by name. *)
Lemma merge_env_get base delta n :
  env_get (MergeEnv base delta) n =
  if ProtectedKeys n then env_get base n else match env_get delta n with Some v => Some v | None => env_get base n end.
Proof.
  unfold MergeEnv. pose proof (applied_delta_spec delta ∅ []) as Ha. destruct (applied_delta delta ∅ []) as [applied order].
  destruct Ha as (H1 & H2 & H3 & H4); [constructor|intros m; rewrite lookup_empty; split; [by intros ?%elem_of_nil|by intros []]|
    intros m; rewrite lookup_empty; by intros []|].
  pose proof (merge_base_spec base applied 0 base ∅ eq_refl ltac:(set_solver)) as Hm.
  destruct (merge_base 0 base (last_index 0 base ∅) applied ∅) as [out emitted]. destruct Hm as [G1 G2].
  rewrite env_get_app, merge_order_spec; [|done|apply Forall_forall; intros m Hm; split; [apply H3; by apply H2|by apply H2]].
  rewrite G1. assert (Hn : applied !! n = if ProtectedKeys n then None else env_get delta n).
  { rewrite H4, lookup_empty. destruct (ProtectedKeys n); [done|]. by destruct (env_get delta n). }
  assert (Hbv : base_value base applied 0 n = match env_get base n with Some v => Some (default v (applied !! n)) | None => None end).
  { unfold base_value. pose proof (last_some base n) as Hs. destruct (last_index 0 base ∅ !! n) as [j|] eqn:Hj.
    - destruct (proj1 Hs ltac:(eauto)) as [v ->]. done.
    - destruct (env_get base n) as [v|]; [|done]. by destruct (proj2 Hs ltac:(eauto)). }
  rewrite Hbv. specialize (G2 n). rewrite Hbv in G2. specialize (H2 n).
  destruct (env_get base n) as [v|] eqn:Hbase.
  - rewrite (bool_decide_eq_true_2 (n ∈ emitted)) by (apply G2; right; eauto). rewrite andb_false_r, Hn.
    destruct (ProtectedKeys n); [done|]. by destruct (env_get delta n).
  - rewrite (bool_decide_eq_false_2 (n ∈ emitted)) by (rewrite G2; intros [?|[]]; set_solver). rewrite andb_true_r, Hn in *.
    destruct (ProtectedKeys n).
    + rewrite bool_decide_eq_false_2; [done|]. rewrite H2. by intros [].
    + destruct (env_get delta n) as [v|]; [by rewrite bool_decide_eq_true_2 by (apply H2; eauto)|].
      rewrite bool_decide_eq_false_2; [done|]. rewrite H2. by intros [].
Qed.

(** ** Captures *)

(** An entry of the delta: a well-formed pair whose name may be set. *)
Definition settable (record : string) : Prop :=
  exists n v, Cut record = Some (n, v) /\ n <> "" /\ hasControl n = false /\ ProtectedKeys n = false.

Lemma envDelta_spec records delta :
  envDelta records ∅ = Ok delta ->
  Forall settable delta /\ forall n, env_get delta n = if ProtectedKeys n then None else env_get records n.
Proof.
  revert delta. induction records as [|record records IH]; intros delta; cbn [envDelta env_get].
  { intros [= <-]. split; [done|]. intros n. by destruct (ProtectedKeys n). }
  destruct (String.eqb_spec record "") as [->|Hne].
  { intros H. destruct (IH delta H) as [H1 H2]. split; [done|]. intros n. rewrite H2. cbn [Cut]. by destruct (env_get records n). }
  destruct (Cut record) as [[name value]|] eqn:Hc; [|done].
  destruct (String.eqb name "" || hasControl name) eqn:Hbad; [done|]. apply orb_false_iff in Hbad as [Hn Hctl]. apply String.eqb_neq in Hn.
  rewrite lookup_empty, (bool_decide_eq_false_2 (None = Some value)) by done. rewrite orb_false_r.
  destruct (ProtectedKeys name) eqn:Hp.
  - intros H. destruct (IH delta H) as [H1 H2]. split; [done|]. intros n. rewrite H2. destruct (ProtectedKeys n) eqn:Hpn; [done|].
    destruct (env_get records n); [done|]. destruct (String.eqb_spec name n); [congruence|done].
  - destruct (envDelta records ∅) as [d|e]; [|done]. cbn. intros [= <-]. destruct (IH d eq_refl) as [H1 H2]. split.
    + constructor; [|done]. by exists name, value.
    + intros n. cbn [env_get]. rewrite H2, Hc. destruct (ProtectedKeys n) eqn:Hpn; [|done].
      destruct (String.eqb_spec name n); [congruence|done].
Qed.

(** ** Properties *)

(** An environment capture is applied exactly or not at all: when it parses,
    the environment merged from it gives every unprotected name its captured
    value, leaves every other name as it was, never sets or overrides a
    protected one, and every entry of the delta is a well-formed pair. *)
Theorem bootstrap_environment_exact (stdout : string) (delta keys : list string)
    (H : ParseEnvCapture stdout [] = Ok (delta, keys)) :
  (forall base n, env_get (MergeEnv base delta) n =
     if ProtectedKeys n then env_get base n
     else match env_get (Split stdout nul) n with Some v => Some v | None => env_get base n end) /\
  Forall settable delta /\ HasSuffix stdout (str1 0) = true /\
  keys ≡ₚ omap (fun kv => option_map fst (Cut kv)) delta /\ length keys = length delta.
Proof.
  unfold ParseEnvCapture, splitNUL in H. destruct (String.eqb stdout ""); [done|].
  destruct (HasSuffix stdout (str1 0)) eqn:Hsuf; [|done]. cbn [negb mbind result_bind] in H.
  change (baseEnvMap []) with (∅ : gmap string string) in H.
  destruct (envDelta (Split stdout nul) ∅) as [d|e] eqn:Hd; [|done]. injection H as <- <-.
  destruct (envDelta_spec _ _ Hd) as [Hs Hg]. split_and!; try done.
  - intros base n. rewrite merge_env_get, Hg. by destruct (ProtectedKeys n).
  - apply sort_strings_perm.
  - rewrite sort_strings_perm. clear -Hs. induction Hs as [|r l (n & v & Hc & _) _ IH]; [done|]. cbn. rewrite Hc. cbn. by rewrite IH.
Qed.

Definition example_capture : string := "PATH=/opt/bin" ++ str1 0 ++ "GIT_DIR=/evil" ++ str1 0 ++ "A=1" ++ str1 0.

Lemma bootstrap_environment_exact_witness :
  env_get (MergeEnv ["PATH=/bin"; "GIT_DIR=/work"] ["PATH=/opt/bin"; "A=1"]) "GIT_DIR" = Some "/work".
Proof.
  rewrite (proj1 (bootstrap_environment_exact example_capture ["PATH=/opt/bin"; "A=1"] ["A"; "PATH"] ltac:(vm_compute; reflexivity))).
  reflexivity.
Defined.

(** A contract is approved only when both of its files were read at both
    revisions, each is a regular blob of both, and their bytes are the same; a
    failed read is never a verdict. *)
Theorem contract_approval_sound {E Er} (read : string -> string -> prog E (result Er Blob)) (base head : string)
    (t : trace E) (state : string) (Hex : exec (Classify read base head) t (Ok state)) :
  exists bc bl hc hl t1 t2 t3 t4,
    t = (t1 ++ t2 ++ t3 ++ t4)%list /\
    exec (read base ConfigPath) t1 (Ok bc) /\ exec (read base LockPath) t2 (Ok bl) /\
    exec (read head ConfigPath) t3 (Ok hc) /\ exec (read head LockPath) t4 (Ok hl) /\
    (state = StateApproved <->
       bl_Present bc = true /\ bl_Present bl = true /\ bl_Present hc = true /\ bl_Present hl = true /\
       bl_Regular bc = true /\ bl_Regular bl = true /\ bl_Regular hc = true /\ bl_Regular hl = true /\
       bl_Data bc = bl_Data hc /\ bl_Data bl = bl_Data hl) /\
    (state = StateAbsent <-> bl_Present hc = false).
Proof.
  assert (Hread : forall rev t fs, exec (readContractFiles read rev) t (Ok fs) -> exists c l t1 t2,
    t = (t1 ++ t2)%list /\ exec (read rev ConfigPath) t1 (Ok c) /\ exec (read rev LockPath) t2 (Ok l) /\
    fs = {| f_Config := bl_Data c; f_Lock := bl_Data l; HasConfig := bl_Present c; HasLock := bl_Present l;
            ConfigRegular := bl_Regular c; LockRegular := bl_Regular l |}).
  { intros rev u fs Hu. unfold readContractFiles, bind_err in Hu. apply exec_bind in Hu as (t1 & t2 & [c|e] & -> & H1 & H2); [|by destruct H2 as [_ ?]].
    apply exec_bind in H2 as (t3 & t4 & [l|e] & -> & H3 & H4); [|by destruct H4 as [_ ?]]. destruct H4 as [-> [= ->]].
    exists c, l, t1, t3. by rewrite app_nil_r. }
  unfold Classify, bind_err in Hex. apply exec_bind in Hex as (t1 & t2 & [b|e] & -> & H1 & H2); [|by destruct H2 as [_ ?]].
  apply exec_bind in H2 as (t3 & t4 & [h|e] & -> & H3 & H4); [|by destruct H4 as [_ ?]]. destruct H4 as [-> [= ->]].
  apply Hread in H1 as (bc & bl & u1 & u2 & -> & G1 & G2 & ->). apply Hread in H3 as (hc & hl & u3 & u4 & -> & G3 & G4 & ->).
  exists bc, bl, hc, hl, u1, u2, u3, u4. split; [by rewrite app_nil_r, <- !app_assoc|]. split_and!; try done;
    unfold Compare; cbn [f_Config f_Lock HasConfig HasLock ConfigRegular LockRegular];
    destruct (bl_Present hc), (bl_Present bc), (bl_Regular bc), (bl_Regular hc), (bl_Present bl), (bl_Present hl), (bl_Regular bl), (bl_Regular hl);
    cbn [negb orb]; try (split; [done|naive_solver]);
    destruct (String.eqb_spec (bl_Data bc) (bl_Data hc)), (String.eqb_spec (bl_Data bl) (bl_Data hl)); cbn [negb orb]; naive_solver.
Qed.

(** A repository whose files are the same at every revision. *)
Definition steady_read (rev path : string) : prog (fun _ => Empty_set) (result string Blob) :=
  Ret (Ok {| bl_Data := path; bl_Regular := true; bl_Present := true |}).

Lemma contract_approval_sound_witness :
  exists bc, exec (steady_read "base" ConfigPath) [] (Ok bc) /\ bl_Regular bc = true.
Proof.
  destruct (contract_approval_sound steady_read "base" "head" [] StateApproved (conj eq_refl eq_refl))
    as (bc & bl & hc & hl & t1 & t2 & t3 & t4 & Ht & H1 & _ & _ & _ & [Happ _] & _).
  exists bc. symmetry in Ht. apply app_eq_nil in Ht as [-> _]. split; [exact H1|]. by destruct (Happ eq_refl) as (_ & _ & _ & _ & ? & _).
Defined.
