(* ===== verification/HarnessWorld.v ===== *)
(** * The trusted control pod's world (internal/harness)

    What the coordinator talks to: its broker's status path, the untrusted
    worker over the signed protocol, the snapshot provider, the publisher, the
    forge seam and its model sessions; and the three clients of it that keep
    state, the status reporter (status.go), the soft-stop watcher (softstop.go)
    and the delegator's reconciliation (delegate.go).

    Every operation of these clients runs in a state monad over requests: it
    returns the state it leaves, on every path.  The reporter and the broker's
    status writer exchange one JSON shape, [HarnessPatch]. *)

From S2P Require Import Prelude Effects GoStrings GoTime Run Pods BrokerAuth HarnessStatus HarnessErrors Session HarnessLedger.
Local Open Scope string_scope.
Local Open Scope Z_scope.

(** ** The worker protocol's data (internal/protocol) *)

Record Task := { t_Command : list string; t_ArtifactPath : string; t_Env : list string }.

Record WorkerResult := {
  wr_Status : string; wr_ExitCode : Z; StdoutTail : string; StderrTail : string; Artifact : string; LiveDescendants : Z
}.

Record ResultState := { rs_Status : string; rs_Result : option WorkerResult }.

Definition terminal_status (status : string) : bool :=
  String.eqb status ResultCompleted || String.eqb status WorkerResultFailed || String.eqb status ResultCancelled.

Definition terminationObserved (s : ResultState) : bool :=
  if String.eqb (rs_Status s) "" then true else
  if terminal_status (rs_Status s) then match rs_Result s with None => true | Some r => LiveDescendants r =? 0 end
  else false.

(** ** Snapshots and publication (publisher.go, integrator.go) *)

Record Snapshot := { sn_Data : string; sn_Tip : string; sn_BaseTip : string; ContractState : string }.

Record IntegrationRequest := {
  ir_BriefID : string; DispatchedTip : string; Bundle : string; ir_Brief : DelegatedBrief; ir_Summary : string
}.

Record Integration := { in_Commit : string; Changed : bool }.

Record Publication := { pub_OID : string; AlreadyPublished : bool }.

Record WorkspaceSafetyEvidence := { ws_State : string; ws_Branch : string; ws_Head : string; ws_RemoteHead : string }.

Record BootstrapReceipt := {
  rc_Status : string; rc_Reason : string; BootstrapElapsedMs : Z; CaptureElapsedMs : Z;
  BootstrapExitCode : Z; CaptureExitCode : Z; EnvKeys : Z; Diagnostics : gmap string string
}.

(** ** Requests *)

(** [Nonce] answers eight random bytes as a 64-bit number.  [ContextErr] is
    [ctx.Err()] of the run's context, or of the current stage's.  [PollWait] and
    [CheckWait] are the two waits that watch the context: they answer its error
    when it ended first.  [StillGoing] has no answer: a program that issues it is
    still in one of its unbounded loops, see [still_going]. *)
Inductive harnessE : Type -> Type :=
| PostStatus (patch : HarnessPatch) : harnessE (result herror unit)
| StatusRetryWait : harnessE bool
| ReadControlRequest : harnessE (result herror (option ControlRequest))
| ClockNow : harnessE Time
| Nonce : harnessE Z
| ContextErr (stage : bool) : harnessE (option herror)
| PollWait : harnessE (option herror)
| WorkerDispatch (opID briefID : string) (task : Task) : harnessE (result herror string)
| WorkerCancel (opID briefID : string) : harnessE (result herror unit)
| WorkerRelease (opID briefID : string) : harnessE (result herror unit)
| WorkerPoll (opID : string) : harnessE (result herror ResultState)
| UploadSnapshot (data : string) : harnessE (result herror unit)
| SnapshotRequest : harnessE (result herror Snapshot)
| IntegrateRequest (req : IntegrationRequest) : harnessE (result herror Integration)
| PublishRequest : harnessE (result herror Publication)
| WorkRefBeyondAnchor : harnessE (result herror bool)
| CapacityWorkspaceSafety : harnessE (result herror WorkspaceSafetyEvidence)
| ForgeCall (operation arguments : string) : harnessE (result herror string)
| BootstrapRecorded (receipt : BootstrapReceipt) : harnessE unit
| CheckWait : harnessE (option herror)
| StillGoing : harnessE Empty_set
| InSession X (e : sessionE X) : harnessE X.
Arguments InSession {X} e.

(** ** State passing *)

Definition ST (S A : Type) : Type := S -> prog harnessE (S * A).

#[export] Instance ST_ret {S} : MRet (ST S) := fun A a s => Ret (s, a).
#[export] Instance ST_bind {S} : MBind (ST S) := fun A B f p s => bind_prog (p s) (fun r => f r.2 r.1).

Definition io {S X} (e : harnessE X) : ST S X := fun s => Vis e (fun x => Ret (s, x)).
Definition gets {S A} (f : S -> A) : ST S A := fun s => Ret (s, f s).
Definition modify {S} (f : S -> S) : ST S unit := fun s => Ret (f s, tt).

(** The coordinator has three loops without a bound of their own: polling an
    operation, a brief's turns, the run's turns.  Each takes fuel, and a loop
    that needs more is left at this point with no execution to its end: what is
    proved for every fuel holds of every execution that ends, and, for
    [partial] executions, of every moment of the others. *)
Definition still_going {S A} : ST S A := fun _ => Vis StillGoing (fun x : Empty_set => match x with end).

(** A component's operation on its part of a larger state. *)
Definition zoom {S T A} (get : S -> T) (set : S -> T -> S) (p : ST T A) : ST S A :=
  fun s => bind_prog (p (get s)) (fun r => Ret (set s r.1, r.2)).

(** The early return on an error. *)
Definition or_return {S Er A B} (p : ST S (result Er A)) (f : A -> ST S (result Er B)) : ST S (result Er B) :=
  r ← p; match r with Ok a => f a | Err e => mret (Err e) end.

Notation "x ←! p ; q" := (or_return p (fun x => q))
  (at level 20, p at level 100, q at level 200, only parsing).

(** The big-endian bytes of a nonce. *)
Definition nonce_bytes (z : Z) : list Z :=
  (fun i => (u64 z / 2 ^ (8 * i)) mod 256) <$> [7; 6; 5; 4; 3; 2; 1; 0].

Definition mint {S} (kind briefID : string) : ST S string :=
  z ← io Nonce; mret (newOpID kind briefID (nonce_bytes z)).

(** ** The status reporter (status.go) *)

Definition statusRetryRounds : nat := 3.
Definition defaultHeartbeatCadence : Z := 15 * second.

Record StatusReporter := {
  sr_controlUID : string; sr_workerUID : string; sr_cadence : Z;
  lastWritten : option Time; sr_writing : bool; pendingClears : list string; statusDebt : option HarnessPatch
}.

Definition NewStatusReporter (controlUID workerUID : string) (cadence : Z) : StatusReporter :=
  {| sr_controlUID := controlUID; sr_workerUID := workerUID;
     sr_cadence := if cadence <=? 0 then defaultHeartbeatCadence else cadence;
     lastWritten := None; sr_writing := false; pendingClears := []; statusDebt := None |}.

Definition set_lastWritten (r : StatusReporter) (v : option Time) : StatusReporter :=
  {| sr_controlUID := sr_controlUID r; sr_workerUID := sr_workerUID r; sr_cadence := sr_cadence r; lastWritten := v;
     sr_writing := sr_writing r; pendingClears := pendingClears r; statusDebt := statusDebt r |}.
Definition set_writing (r : StatusReporter) (v : bool) : StatusReporter :=
  {| sr_controlUID := sr_controlUID r; sr_workerUID := sr_workerUID r; sr_cadence := sr_cadence r; lastWritten := lastWritten r;
     sr_writing := v; pendingClears := pendingClears r; statusDebt := statusDebt r |}.
Definition set_pendingClears (r : StatusReporter) (v : list string) : StatusReporter :=
  {| sr_controlUID := sr_controlUID r; sr_workerUID := sr_workerUID r; sr_cadence := sr_cadence r; lastWritten := lastWritten r;
     sr_writing := sr_writing r; pendingClears := v; statusDebt := statusDebt r |}.
Definition set_statusDebt (r : StatusReporter) (v : option HarnessPatch) : StatusReporter :=
  {| sr_controlUID := sr_controlUID r; sr_workerUID := sr_workerUID r; sr_cadence := sr_cadence r; lastWritten := lastWritten r;
     sr_writing := sr_writing r; pendingClears := pendingClears r; statusDebt := v |}.

(** The patches the reporter sends. *)
Definition no_patch : HarnessPatch :=
  {| hp_Checkpoint := None; hp_Heartbeat := None; hp_LastCommit := None; AddOperation := None; ClearOperation := "";
     ReconcileOperations := false; hp_ControlRequestAck := None; TerminalResult := None; hp_NoChange := None; hp_ModelSurface := None |}.

Definition heartbeat (r : StatusReporter) (now : Time) (kind : string) : Heartbeat :=
  {| hb_At := now; hb_Kind := kind; hb_CoordinatorPodUID := sr_controlUID r |}.

Definition heartbeat_patch (h : Heartbeat) : HarnessPatch :=
  {| hp_Checkpoint := None; hp_Heartbeat := Some h; hp_LastCommit := None; AddOperation := None; ClearOperation := "";
     ReconcileOperations := false; hp_ControlRequestAck := None; TerminalResult := None; hp_NoChange := None; hp_ModelSurface := None |}.

Definition add_patch (a : OperationAddition) : HarnessPatch :=
  {| hp_Checkpoint := None; hp_Heartbeat := None; hp_LastCommit := None; AddOperation := Some a; ClearOperation := "";
     ReconcileOperations := false; hp_ControlRequestAck := None; TerminalResult := None; hp_NoChange := None; hp_ModelSurface := None |}.

Definition clear_patch (opID : string) (h : option Heartbeat) : HarnessPatch :=
  {| hp_Checkpoint := None; hp_Heartbeat := h; hp_LastCommit := None; AddOperation := None; ClearOperation := opID;
     ReconcileOperations := false; hp_ControlRequestAck := None; TerminalResult := None; hp_NoChange := None; hp_ModelSurface := None |}.

Definition checkpoint_patch (c : Checkpoint) (lastCommit : string) : HarnessPatch :=
  {| hp_Checkpoint := Some c; hp_Heartbeat := None; hp_LastCommit := if String.eqb lastCommit "" then None else Some lastCommit;
     AddOperation := None; ClearOperation := ""; ReconcileOperations := false; hp_ControlRequestAck := None;
     TerminalResult := None; hp_NoChange := None; hp_ModelSurface := None |}.

Definition ack_patch (a : ControlRequestAck) : HarnessPatch :=
  {| hp_Checkpoint := None; hp_Heartbeat := None; hp_LastCommit := None; AddOperation := None; ClearOperation := "";
     ReconcileOperations := false; hp_ControlRequestAck := Some a; TerminalResult := None; hp_NoChange := None; hp_ModelSurface := None |}.

Definition terminal_patch (result : NativeResult) (noChange : option NoChangeClose) : HarnessPatch :=
  {| hp_Checkpoint := None; hp_Heartbeat := None; hp_LastCommit := None; AddOperation := None; ClearOperation := "";
     ReconcileOperations := false; hp_ControlRequestAck := None; TerminalResult := Some result; hp_NoChange := noChange; hp_ModelSurface := None |}.

Definition surface_patch (m : ModelSurfaceProvenance) : HarnessPatch :=
  {| hp_Checkpoint := None; hp_Heartbeat := None; hp_LastCommit := None; AddOperation := None; ClearOperation := "";
     ReconcileOperations := false; hp_ControlRequestAck := None; TerminalResult := None; hp_NoChange := None; hp_ModelSurface := Some m |}.

Definition reconcile_patch : HarnessPatch :=
  {| hp_Checkpoint := None; hp_Heartbeat := None; hp_LastCommit := None; AddOperation := None; ClearOperation := "";
     ReconcileOperations := true; hp_ControlRequestAck := None; TerminalResult := None; hp_NoChange := None; hp_ModelSurface := None |}.

(** [retried]: up to [rounds] further attempts of a retryable failure. *)
Fixpoint retried {S} (rounds : nat) (patch : HarnessPatch) : ST S (result herror unit) :=
  r ← io (PostStatus patch);
  match r with
  | Ok _ => mret (Ok tt)
  | Err e =>
      if negb (isBrokerRetryable e) then mret (Err e) else
      match rounds with
      | O => mret (Err e)
      | Datatypes.S rounds =>
          done ← io StatusRetryWait;
          if done : bool then mret (Err e) else retried rounds patch
      end
  end.

Definition retry_write {S} (patch : HarnessPatch) : ST S (result herror unit) := retried statusRetryRounds patch.

Definition Rep (A : Type) : Type := ST StatusReporter A.

(** The write runs outside the lock; its own deadline is not modelled. *)
Definition recordHeartbeat (kind : string) : Rep unit :=
  now ← io ClockNow;
  r ← gets (fun r => r);
  if sr_writing r || match lastWritten r with Some t => Sub now t <? sr_cadence r | None => false end then mret tt else
  _ ← modify (fun r => set_writing r true);
  answer ← io (PostStatus (heartbeat_patch (heartbeat r now kind)));
  _ ← modify (fun r => set_writing r false);
  match answer with Ok _ => modify (fun r => set_lastWritten r (Some now)) | Err _ => mret tt end.

Definition DropOperations : Rep (result herror unit) := retry_write reconcile_patch.

Fixpoint flush_clears (pending : list string) : Rep unit :=
  match pending with
  | [] => mret tt
  | opID :: rest =>
      answer ← io (PostStatus (clear_patch opID None));
      _ ← (match answer with
           | Ok _ => mret tt
           | Err _ => modify (fun r => set_pendingClears r (pendingClears r ++ [opID]))
           end);
      flush_clears rest
  end.

Definition flushPendingClears : Rep unit :=
  pending ← gets pendingClears;
  _ ← modify (fun r => set_pendingClears r []);
  flush_clears pending.

Definition BeginOperation (opID briefID : string) : Rep (result herror unit) :=
  _ ← flushPendingClears;
  now ← io ClockNow;
  r ← gets (fun r => r);
  retry_write (add_patch {| OpID := opID;
    Operation := {| op_BriefID := briefID; op_CoordinatorPodUID := sr_controlUID r; op_WorkerPodUID := sr_workerUID r; DispatchedAt := now |} |}).

Definition EndOperation (opID : string) (completed : bool) : Rep (result herror unit) :=
  r ← gets (fun r => r);
  hb ← (if completed then now ← io ClockNow; mret (Some (heartbeat r now "tool")) else mret None);
  answer ← retry_write (clear_patch opID hb);
  match answer with
  | Ok _ =>
      _ ← (if completed then now ← io ClockNow; modify (fun r => set_lastWritten r (Some now)) else mret tt);
      mret (Ok tt)
  | Err e =>
      _ ← modify (fun r => set_pendingClears r (pendingClears r ++ [opID]));
      mret (Err e)
  end.

Definition CheckpointPublished (checkpoint : Checkpoint) (lastCommit : string) : Rep (result herror unit) :=
  let patch := checkpoint_patch checkpoint lastCommit in
  answer ← retry_write patch;
  match answer with
  | Ok _ => _ ← modify (fun r => set_statusDebt r None); mret (Ok tt)
  | Err e => _ ← modify (fun r => set_statusDebt r (Some patch)); mret (Err e)
  end.

Definition AckControlRequest (id : string) : Rep (result herror unit) :=
  now ← io ClockNow;
  retry_write (ack_patch {| ack_ID := id; ack_At := now |}).

Definition ReportTerminalResult (result : NativeResult) (noChange : option NoChangeClose) : Rep (Prelude.result herror unit) :=
  if String.eqb (nr_Kind result) "" then mret (Ok tt) else retry_write (terminal_patch result noChange).

Definition ReportModelSurface (schemaVersion : Z) (digest : string) : Rep (result herror unit) :=
  r ← gets (fun r => r);
  if String.eqb digest "" || String.eqb (sr_controlUID r) "" then mret (Err (new_error "harness: model-surface provenance is malformed")) else
  now ← io ClockNow;
  retry_write (surface_patch {| ms_SchemaVersion := schemaVersion; ms_Digest := digest; ms_CoordinatorPodUID := sr_controlUID r; ms_At := now |}).

Definition ReconcileDebt : Rep (result herror unit) :=
  debt ← gets statusDebt;
  match debt with
  | None => mret (Ok tt)
  | Some patch =>
      answer ← retry_write patch;
      match answer with
      | Err e => mret (Err e)
      | Ok _ => _ ← modify (fun r => set_statusDebt r None); mret (Ok tt)
      end
  end.

Definition Flush : Rep (result herror unit) :=
  _ ← flushPendingClears;
  pending ← gets pendingClears;
  match pending with [] => mret (Ok tt) | _ => mret (Err (new_error "harness: active-operation clears remain unresolved")) end.

(** ** The soft-stop watcher (softstop.go) *)

Definition controlTurnText : string :=
  "[courier-control, control-plane] A soft-stop was requested from the control plane. Stop starting new work: dispatch no new briefs. Let in-flight briefs finish and integrate, run any final local validation, commit and publish your work, and end with exactly one valid outcome JSON object. Do not quote or reference this note in model text, tool arguments, or tool results.".
Definition maxControlTurnBytes : Z := 512.
Definition controlPollMinInterval : Z := 5 * second.

(** [cw_source] and [cw_ack] say whether the two dependencies are wired; the
    acknowledgement path is the status reporter. *)
Record ControlWatcher := {
  cw_source : bool; cw_ack : bool; cw_consumed : gset string; injections : list Message; latched : bool; lastRead : option Time
}.

Definition NewControlWatcher (source ack : bool) : ControlWatcher :=
  {| cw_source := source; cw_ack := ack; cw_consumed := ∅; injections := []; latched := false; lastRead := None |}.

Definition set_lastRead (w : ControlWatcher) (t : Time) : ControlWatcher :=
  {| cw_source := cw_source w; cw_ack := cw_ack w; cw_consumed := cw_consumed w; injections := injections w;
     latched := latched w; lastRead := Some t |}.

Definition set_injections (w : ControlWatcher) (l : list Message) : ControlWatcher :=
  {| cw_source := cw_source w; cw_ack := cw_ack w; cw_consumed := cw_consumed w; injections := l;
     latched := latched w; lastRead := lastRead w |}.

(** The consumption of an acknowledged request. *)
Definition consume (w : ControlWatcher) (id : string) : ControlWatcher :=
  if bool_decide (id ∈ cw_consumed w) then w else
  {| cw_source := cw_source w; cw_ack := cw_ack w; cw_consumed := {[id]} ∪ cw_consumed w;
     injections := injections w ++ [text_message "system" controlTurnText]; latched := true; lastRead := lastRead w |}.

(** The watcher with the reporter it acknowledges through. *)
Definition Watch (A : Type) : Type := ST (ControlWatcher * option StatusReporter) A.

Definition on_watcher (f : ControlWatcher -> ControlWatcher) : Watch unit := modify (fun s => (f s.1, s.2)).

(** An operation of the reporter; [none] is what a nil reporter answers. *)
Definition on_reporter {A} (none : A) (p : Rep A) : ST (option StatusReporter) A :=
  fun o => match o with
           | None => Ret (None, none)
           | Some r => bind_prog (p r) (fun res => Ret (Some res.1, res.2))
           end.

Definition Poll : Watch unit :=
  w ← gets fst;
  if negb (cw_source w) then mret tt else
  now ← io ClockNow;
  _ ← on_watcher (fun w => set_lastRead w now);
  answer ← io ReadControlRequest;
  match answer with
  | Ok (Some request) =>
      w ← gets fst;
      if bool_decide (cr_ID request ∈ cw_consumed w) || negb (cw_ack w) then mret tt else
      acked ← zoom snd (fun s r => (s.1, r))
        (on_reporter (Err (new_error "harness: control acknowledgement has no trusted status path")) (AckControlRequest (cr_ID request)));
      match acked with
      | Err _ => mret tt
      | Ok _ => on_watcher (fun w => consume w (cr_ID request))
      end
  | _ => mret tt
  end.

Definition PollThrottled : Watch unit :=
  w ← gets fst;
  match lastRead w with
  | Some t => now ← io ClockNow; if Sub now t <? controlPollMinInterval then mret tt else Poll
  | None => Poll
  end.

Definition Stopped (w : option ControlWatcher) : bool := match w with Some w => latched w | None => false end.

Definition TakeControlTurn (w : ControlWatcher) : ControlWatcher * option Message :=
  match injections w with [] => (w, None) | m :: rest => (set_injections w rest, Some m) end.

(** ** The delegator (delegate.go) *)

Definition ReconcileAmbiguous {S} (opID briefID : string) : ST S (result herror ResultState) :=
  cancelled ← io (WorkerCancel opID briefID);
  match cancelled with
  | Err e => mret (Err (wrap_error ("harness: reconcile cancel for " ++ opID ++ ": " ++ text e) [e]))
  | Ok _ =>
      polled ← io (WorkerPoll opID);
      match polled with
      | Err e => mret (Err (wrap_error ("harness: reconcile result for " ++ opID ++ ": " ++ text e) [e]))
      | Ok state => mret (Ok state)
      end
  end.
