(* ===== verification/WorkerDispatch.v ===== *)
(** * Worker dispatch (internal/harness/coordinator.go)

    The coordinator's state and the half of it that reaches the untrusted
    worker: the fence, the prerequisite breaker, one operation from its
    persisted entry to its verified end, the workspace snapshot and the
    development bootstrap.

    The run's context and a stage's own deadline appear as the answers of
    [ContextErr] and [PollWait]; the reconciliation that follows an expiry runs
    on a context of its own, so its requests are issued whatever the caller's
    context says.  [polls] bounds the polls of one operation (see
    [still_going]).  A function of the source that returns a result beside its
    error returns the error alone here: no caller reads the result then. *)

From S2P Require Import Prelude Effects GoStrings GoTime Run Pods BrokerAuth HarnessStatus Budget HarnessErrors Session HarnessLedger Devenv HarnessWorld.
Local Open Scope string_scope.
Local Open Scope Z_scope.

(** ** The coordinator *)

(** What it is built from.  The two sinks and the telemetry say whether they are
    wired; the activity sink is the status reporter. *)
Record Wiring := {
  w_bindings : Bindings; w_budgets : gmap string ContextBudget; w_worker : bool; w_forge : bool; w_snapshot : bool;
  w_publisher : bool; w_activity : bool; w_compactions : bool; w_telemetry : bool; w_bootstrapReceipts : bool;
  w_workRefBeyondAnchor : bool; w_capacityWorkspaceSafety : bool
}.

(** What it keeps.  Every field is guarded by a mutex of its own in the source;
    the tool pump is serial. *)
Record Coordinator := {
  snapshotReady : bool;
  snapshotTip : string;
  snapshotGen : Z;
  c_briefs : BriefRegistry;
  c_checks : checkRegistry;
  c_status : option StatusReporter;
  c_control : option ControlWatcher;
  deferredAvailability : option herror;
  bootstrapBlockerErr : option herror;
  workerFenceErr : option herror;
  prerequisite : prerequisiteLatch;
  bootstrapEnv : list string
}.

Definition set_c_briefs (c : Coordinator) (v : BriefRegistry) : Coordinator :=
  {| snapshotReady := snapshotReady c; snapshotTip := snapshotTip c; snapshotGen := snapshotGen c; c_briefs :=
     v; c_checks := c_checks c; c_status := c_status c; c_control := c_control c; deferredAvailability :=
     deferredAvailability c; bootstrapBlockerErr := bootstrapBlockerErr c; workerFenceErr := workerFenceErr c;
     prerequisite := prerequisite c; bootstrapEnv := bootstrapEnv c |}.
Definition set_c_checks (c : Coordinator) (v : checkRegistry) : Coordinator :=
  {| snapshotReady := snapshotReady c; snapshotTip := snapshotTip c; snapshotGen := snapshotGen c; c_briefs :=
     c_briefs c; c_checks := v; c_status := c_status c; c_control := c_control c; deferredAvailability :=
     deferredAvailability c; bootstrapBlockerErr := bootstrapBlockerErr c; workerFenceErr := workerFenceErr c;
     prerequisite := prerequisite c; bootstrapEnv := bootstrapEnv c |}.
Definition set_c_status (c : Coordinator) (v : option StatusReporter) : Coordinator :=
  {| snapshotReady := snapshotReady c; snapshotTip := snapshotTip c; snapshotGen := snapshotGen c; c_briefs :=
     c_briefs c; c_checks := c_checks c; c_status := v; c_control := c_control c; deferredAvailability :=
     deferredAvailability c; bootstrapBlockerErr := bootstrapBlockerErr c; workerFenceErr := workerFenceErr c;
     prerequisite := prerequisite c; bootstrapEnv := bootstrapEnv c |}.
Definition set_c_control (c : Coordinator) (v : option ControlWatcher) : Coordinator :=
  {| snapshotReady := snapshotReady c; snapshotTip := snapshotTip c; snapshotGen := snapshotGen c; c_briefs :=
     c_briefs c; c_checks := c_checks c; c_status := c_status c; c_control := v; deferredAvailability :=
     deferredAvailability c; bootstrapBlockerErr := bootstrapBlockerErr c; workerFenceErr := workerFenceErr c;
     prerequisite := prerequisite c; bootstrapEnv := bootstrapEnv c |}.
Definition set_deferredAvailability (c : Coordinator) (v : option herror) : Coordinator :=
  {| snapshotReady := snapshotReady c; snapshotTip := snapshotTip c; snapshotGen := snapshotGen c; c_briefs :=
     c_briefs c; c_checks := c_checks c; c_status := c_status c; c_control := c_control c; deferredAvailability
     := v; bootstrapBlockerErr := bootstrapBlockerErr c; workerFenceErr := workerFenceErr c; prerequisite :=
     prerequisite c; bootstrapEnv := bootstrapEnv c |}.
Definition set_bootstrapBlockerErr (c : Coordinator) (v : option herror) : Coordinator :=
  {| snapshotReady := snapshotReady c; snapshotTip := snapshotTip c; snapshotGen := snapshotGen c; c_briefs :=
     c_briefs c; c_checks := c_checks c; c_status := c_status c; c_control := c_control c; deferredAvailability
     := deferredAvailability c; bootstrapBlockerErr := v; workerFenceErr := workerFenceErr c; prerequisite :=
     prerequisite c; bootstrapEnv := bootstrapEnv c |}.
Definition set_workerFenceErr (c : Coordinator) (v : option herror) : Coordinator :=
  {| snapshotReady := snapshotReady c; snapshotTip := snapshotTip c; snapshotGen := snapshotGen c; c_briefs :=
     c_briefs c; c_checks := c_checks c; c_status := c_status c; c_control := c_control c; deferredAvailability
     := deferredAvailability c; bootstrapBlockerErr := bootstrapBlockerErr c; workerFenceErr := v; prerequisite
     := prerequisite c; bootstrapEnv := bootstrapEnv c |}.
Definition set_prerequisite (c : Coordinator) (v : prerequisiteLatch) : Coordinator :=
  {| snapshotReady := snapshotReady c; snapshotTip := snapshotTip c; snapshotGen := snapshotGen c; c_briefs :=
     c_briefs c; c_checks := c_checks c; c_status := c_status c; c_control := c_control c; deferredAvailability
     := deferredAvailability c; bootstrapBlockerErr := bootstrapBlockerErr c; workerFenceErr := workerFenceErr
     c; prerequisite := v; bootstrapEnv := bootstrapEnv c |}.
Definition set_bootstrapEnv (c : Coordinator) (v : list string) : Coordinator :=
  {| snapshotReady := snapshotReady c; snapshotTip := snapshotTip c; snapshotGen := snapshotGen c; c_briefs :=
     c_briefs c; c_checks := c_checks c; c_status := c_status c; c_control := c_control c; deferredAvailability
     := deferredAvailability c; bootstrapBlockerErr := bootstrapBlockerErr c; workerFenceErr := workerFenceErr
     c; prerequisite := prerequisite c; bootstrapEnv := v |}.

(** What a materialization settles. *)
Definition settle_snapshot (c : Coordinator) (tip : string) : Coordinator :=
  {| snapshotReady := true; snapshotTip := tip; snapshotGen := u64 (snapshotGen c + 1); c_briefs := c_briefs c;
     c_checks := c_checks c; c_status := c_status c; c_control := c_control c; deferredAvailability :=
     deferredAvailability c; bootstrapBlockerErr := bootstrapBlockerErr c; workerFenceErr := workerFenceErr c;
     prerequisite := prerequisite c; bootstrapEnv := bootstrapEnv c |}.

Definition M (A : Type) : Type := ST Coordinator A.

(** The reporter, when there is one. *)
Definition on_status {A} (none : A) (p : Rep A) : M A := zoom c_status set_c_status (on_reporter none p).

(** The soft-stop watcher with the reporter it acknowledges through. *)
Definition on_control (p : Watch unit) : M unit :=
  fun c => match c_control c with
           | None => Ret (c, tt)
           | Some w => bind_prog (p (w, c_status c)) (fun r => Ret (set_c_control (set_c_status c r.1.2) (Some r.1.1), tt))
           end.

(** [strconv.Quote], in error texts. *)
Class Quoted := quoted : string -> string.

(** ** First causes *)

Definition recordDeferredAvailability (err : herror) : M unit :=
  modify (fun c => match deferredAvailability c with None => set_deferredAvailability c (Some err) | Some _ => c end).

Definition takeDeferredAvailability : M (option herror) :=
  err ← gets deferredAvailability; _ ← modify (fun c => set_deferredAvailability c None); mret err.

Definition recordBootstrapBlocker (err : herror) : M unit :=
  modify (fun c => match bootstrapBlockerErr c with None => set_bootstrapBlockerErr c (Some err) | Some _ => c end).

Definition takeBootstrapBlocker : M (option herror) :=
  err ← gets bootstrapBlockerErr; _ ← modify (fun c => set_bootstrapBlockerErr c None); mret err.

Definition hasBootstrapBlocker (c : Coordinator) : bool := bool_decide (is_Some (bootstrapBlockerErr c)).

Definition fence (c : Coordinator) (opID : string) (cause : herror) : Coordinator :=
  match workerFenceErr c with
  | Some _ => c
  | None =>
      set_prerequisite
        (set_workerFenceErr c (Some (workerFence ("the worker is fenced: termination of operation " ++ opID ++
           " could not be verified (" ++ text cause ++ "); no further workspace operation may run against it"))))
        (observe (prerequisite c) (Some fencedPrerequisite))
  end.

Definition fenceWorker (opID : string) (cause : herror) : M unit := modify (fun c => fence c opID cause).

Definition observePrerequisite (err : herror) : M unit :=
  modify (fun c => set_prerequisite c (observe (prerequisite c) (classifyPrerequisite (Some err)))).

Definition storeBootstrapEnv (delta : list string) : M unit := modify (fun c => set_bootstrapEnv c delta).

(** ** One operation *)

Definition closeOperation (wiring : Wiring) (opID : string) (completed : bool) : M unit :=
  _ ← on_status (Ok tt) (EndOperation opID completed);
  if completed && w_activity wiring then on_status tt (recordHeartbeat "tool") else mret tt.

Section Dispatch.
Context {Q : Quoted} (wiring : Wiring) (polls : nat).

Definition unverifiedTerminationDetail (s : ResultState) : herror :=
  let reported := new_error ("the worker still reports the operation as " ++ quoted (rs_Status s)) in
  match rs_Result s with
  | Some r =>
      if 0 <? LiveDescendants r
      then new_error (Itoa (LiveDescendants r) ++ " live processes still unaccounted for in the worker pod") else reported
  | None => reported
  end.

Definition verifiedResult (opID : string) (s : ResultState) : M (result herror WorkerResult) :=
  match rs_Result s with
  | None =>
      _ ← closeOperation wiring opID false;
      mret (Err (new_error ("reconciliation of " ++ opID ++ " observed status " ++ quoted (rs_Status s) ++ " without a result")))
  | Some r =>
      if 0 <? LiveDescendants r then
        let err := wrap_error ("operation " ++ opID ++ " ended as " ++ rs_Status s ++ " with " ++ Itoa (LiveDescendants r) ++
          " live processes still unaccounted for in the worker pod: " ++ text ErrTerminationUnverified) [ErrTerminationUnverified] in
        _ ← fenceWorker opID err;
        mret (Err err)
      else
        _ ← closeOperation wiring opID (String.eqb (rs_Status s) ResultCompleted);
        mret (Ok r)
  end.

Definition releaseConsumed (opID briefID : string) : M unit := _ ← io (WorkerRelease opID briefID); mret tt.

(** A verified result is held: the worker may drop its copy. *)
Definition settle_result (opID briefID : string) (s : ResultState) : M (result herror WorkerResult) :=
  r ← verifiedResult opID s;
  match r with
  | Ok v => _ ← releaseConsumed opID briefID; mret (Ok v)
  | Err e => mret (Err e)
  end.

(** The reconciliation of an operation whose fate is unknown; [failed] and
    [unproven] are the two errors it may end with. *)
Definition reconcile_operation (opID briefID : string) (failed : herror -> herror) (unproven : herror -> herror) :
    M (result herror WorkerResult) :=
  reconciled ← ReconcileAmbiguous opID briefID;
  match reconciled with
  | Err e => _ ← fenceWorker opID e; mret (Err (failed e))
  | Ok s =>
      if negb (terminationObserved s) then
        let detail := unverifiedTerminationDetail s in
        _ ← fenceWorker opID detail;
        mret (Err (unproven detail))
      else settle_result opID briefID s
  end.

Definition dispatch_failed (opID : string) (err : herror) (e : herror) : herror :=
  wrap_error ("dispatch of " ++ opID ++ " failed and reconciliation failed: dispatch: " ++ text err ++ "; reconcile: " ++ text e ++ ": " ++
    text ErrTerminationUnverified) [e; ErrTerminationUnverified].
Definition dispatch_unproven (opID : string) (detail : herror) : herror :=
  wrap_error ("dispatch of " ++ opID ++ " failed and reconciliation did not observe termination: " ++ text detail ++ ": " ++
    text ErrTerminationUnverified) [ErrTerminationUnverified].
Definition poll_failed (opID : string) (err : herror) (e : herror) : herror :=
  wrap_error ("result poll for " ++ opID ++ " failed and reconciliation failed: poll: " ++ text err ++ "; reconcile: " ++ text e ++ ": " ++
    text ErrTerminationUnverified) [ErrTerminationUnverified].
Definition poll_unproven (opID : string) (detail : herror) : herror :=
  wrap_error ("result poll for " ++ opID ++ " failed and reconciliation did not observe termination: " ++ text detail ++ ": " ++
    text ErrTerminationUnverified) [ErrTerminationUnverified].

(** The context ended while the operation was running. *)
Definition expire_operation (opID briefID : string) (ctxErr : herror) : M (result herror WorkerResult) :=
  let unverified detail := wrap_error (text ctxErr ++ ": termination of operation " ++ opID ++ " is unverified: " ++ text detail ++ ": " ++
    text ErrTerminationUnverified) [ctxErr; ErrTerminationUnverified] in
  reconciled ← ReconcileAmbiguous opID briefID;
  match reconciled with
  | Ok s =>
      if terminationObserved s then
        _ ← settle_result opID briefID s;
        mret (Err ctxErr)
      else
        let detail := unverifiedTerminationDetail s in
        _ ← fenceWorker opID detail;
        mret (Err (unverified detail))
  | Err e => _ ← fenceWorker opID e; mret (Err (unverified e))
  end.

Fixpoint await_result (fuel : nat) (opID briefID : string) : M (result herror WorkerResult) :=
  match fuel with
  | O => still_going
  | S fuel =>
      polled ← io (WorkerPoll opID);
      match polled with
      | Err err => reconcile_operation opID briefID (poll_failed opID err) (poll_unproven opID)
      | Ok s =>
          if terminal_status (rs_Status s) then
            match rs_Result s with
            | None =>
                _ ← closeOperation wiring opID false;
                mret (Err (new_error ("operation " ++ opID ++ " ended as " ++ rs_Status s ++ " without a result")))
            | Some _ => settle_result opID briefID s
            end
          else if String.eqb (rs_Status s) "" then
            _ ← closeOperation wiring opID false;
            mret (Err (new_error ("operation " ++ opID ++ " is unknown to the worker")))
          else
            waited ← io PollWait;
            match waited with
            | Some ctxErr => expire_operation opID briefID ctxErr
            | None => _ ← on_control PollThrottled; await_result fuel opID briefID
            end
      end
  end.

Definition dispatchAndAwait (opID briefID : string) (task : Task) : M (result herror WorkerResult) :=
  fenced ← gets workerFenceErr;
  match fenced with
  | Some e => mret (Err e)
  | None =>
      begun ← on_status (Ok tt) (BeginOperation opID briefID);
      match begun with
      | Err err =>
          let persist := statusPersistFailure opID err in
          _ ← observePrerequisite persist;
          mret (Err persist)
      | Ok _ =>
          sent ← io (WorkerDispatch opID briefID task);
          match sent with
          | Err err =>
              if definiteWorkerRejection err then
                _ ← closeOperation wiring opID false;
                mret (Err err)
              else reconcile_operation opID briefID (dispatch_failed opID err) (dispatch_unproven opID)
          | Ok _ => await_result polls opID briefID
          end
      end
  end.

(** ** The development bootstrap *)

Definition bootstrapBlockerReasonPrefix : string := "the approved bootstrap contract failed".
Definition BootstrapReceiptApplied : string := "applied".
Definition BootstrapReceiptFailed : string := "failed".

Definition recordBootstrapReceipt (r : BootstrapReceipt) : M unit :=
  if w_bootstrapReceipts wiring then io (BootstrapRecorded r) else mret tt.

Definition bootstrapElapsedMs (started : Time) : M Z := now ← io ClockNow; mret (Z.quot (Sub now started) 1000000).

Definition shell_task (script : string) (env : list string) : Task :=
  {| t_Command := ["sh"; "-c"; script]; t_ArtifactPath := ""; t_Env := env |}.

(** One bounded stage: its task under the stage's own deadline, and what its end
    means.  An expiry is read from the stage's context, never from the error. *)
Inductive stage_end := SFailed (e : herror) | SExpired | SRan (r : WorkerResult).

Definition bootstrap_stage (kind script briefID : string) : M stage_end :=
  opID ← mint kind briefID;
  r ← dispatchAndAwait opID briefID (shell_task script []);
  parent ← io (ContextErr false);
  match parent with
  | Some _ =>
      match r with
      | Err e => mret (SFailed e)
      | Ok _ => mret (SFailed (new_error ("operation " ++ opID ++ " was cancelled with the run")))
      end
  | None =>
      match r with
      | Err e =>
          if errors_is is_unverified e then _ ← fenceWorker opID e; mret (SFailed e) else
          stage ← io (ContextErr true);
          match stage with Some _ => mret SExpired | None => mret (SFailed e) end
      | Ok v =>
          stage ← io (ContextErr true);
          match stage with Some _ => mret SExpired | None => mret (SRan v) end
      end
  end.

Definition blocked (r : BootstrapReceipt) : M (option herror) :=
  _ ← recordBootstrapReceipt r; mret (Some (bootstrapBlocker (rc_Reason r))).

Definition failed_receipt (reason : string) (bElapsed cElapsed bExit cExit : Z) (diagnostics : gmap string string) : BootstrapReceipt :=
  {| rc_Status := BootstrapReceiptFailed; rc_Reason := reason; BootstrapElapsedMs := bElapsed; CaptureElapsedMs := cElapsed;
     BootstrapExitCode := bExit; CaptureExitCode := cExit; EnvKeys := 0; Diagnostics := diagnostics |}.

(** Why a stage's task that ran and exited nonzero blocks the run. *)
Definition exit_reason (what : string) (r : WorkerResult) : string :=
  if String.eqb (wr_Status r) ResultCancelled
  then bootstrapBlockerReasonPrefix ++ ": the " ++ what ++ " task was cancelled before it completed"
  else bootstrapBlockerReasonPrefix ++ " with exit code " ++ Itoa (wr_ExitCode r).

Definition capture_environment (captureScript briefID : string) (bElapsed bExit : Z) (diagnostics : gmap string string) : M (option herror) :=
  started ← io ClockNow;
  stage ← bootstrap_stage "bootstrap-env" captureScript briefID;
  match stage with
  | SFailed e => mret (Some e)
  | SExpired =>
      elapsed ← bootstrapElapsedMs started;
      blocked (failed_receipt (bootstrapBlockerReasonPrefix ++ ": the environment-capture task exceeded its liveness bound")
        bElapsed elapsed bExit (-1) diagnostics)
  | SRan capture =>
      elapsed ← bootstrapElapsedMs started;
      if negb (wr_ExitCode capture =? 0) then
        blocked (failed_receipt (exit_reason "environment-capture" capture) bElapsed elapsed bExit (wr_ExitCode capture) diagnostics)
      else
        match ParseEnvCapture (StdoutTail capture) [] with
        | Err _ =>
            blocked (failed_receipt (bootstrapBlockerReasonPrefix ++ ": bootstrap environment capture malformed")
              bElapsed elapsed bExit (wr_ExitCode capture) diagnostics)
        | Ok (delta, keys) =>
            _ ← recordBootstrapReceipt
                  {| rc_Status := BootstrapReceiptApplied; rc_Reason := ""; BootstrapElapsedMs := bElapsed; CaptureElapsedMs := elapsed;
                     BootstrapExitCode := bExit; CaptureExitCode := wr_ExitCode capture; EnvKeys := Z.of_nat (length keys);
                     Diagnostics := diagnostics |};
            _ ← storeBootstrapEnv delta;
            mret None
        end
  end.

Definition bootstrapWorkspace (briefID baseOID : string) : M (option herror) :=
  match BootstrapScript baseOID, EnvCaptureScript baseOID with
  | Err e, _ => mret (Some (new_error ("bootstrap task could not be prepared: " ++ e)))
  | Ok _, Err e => mret (Some (new_error ("environment-capture task could not be prepared: " ++ e)))
  | Ok bootstrapScript, Ok captureScript =>
      started ← io ClockNow;
      stage ← bootstrap_stage "bootstrap" bootstrapScript briefID;
      match stage with
      | SFailed e => mret (Some e)
      | SExpired =>
          elapsed ← bootstrapElapsedMs started;
          blocked (failed_receipt (bootstrapBlockerReasonPrefix ++ ": the bootstrap task exceeded its liveness bound") elapsed 0 (-1) (-1) ∅)
      | SRan r =>
          let diagnostics := ParseBootstrapDiagnostics (StdoutTail r) in
          elapsed ← bootstrapElapsedMs started;
          if negb (wr_ExitCode r =? 0) then blocked (failed_receipt (exit_reason "bootstrap" r) elapsed 0 (wr_ExitCode r) (-1) diagnostics)
          else capture_environment captureScript briefID elapsed (wr_ExitCode r) diagnostics
      end
  end.

(** ** The workspace snapshot *)

Definition workerUnpackScript : string :=
  Join ["set -eu"; "git init -q --initial-branch=integration ."; "git config user.name courier"; "git config user.email courier@invalid";
        "git fetch -q --no-tags snapshot.pack +refs/courier/snapshot/work:refs/heads/work"; "git symbolic-ref HEAD refs/heads/work";
        "git reset -q --hard refs/heads/work"; "git clean -qfdx"; "git rev-parse HEAD"] nl.

Definition noticeNoWorker : string := "no worker is configured in this build".

Definition renderSnapshot : M (result herror Snapshot) :=
  if negb (w_snapshot wiring) then
    let err := new_error "no snapshot provider is configured in this build" in
    _ ← observePrerequisite err; mret (Err err)
  else
    snap ← io SnapshotRequest;
    match snap with
    | Err err => _ ← observePrerequisite err; mret (Err err)
    | Ok s => mret (Ok s)
    end.

Definition refuse_preparation (err : herror) : M (option herror) := _ ← observePrerequisite err; mret (Some err).

Definition as_blocker (e : herror) : option herror := if is_blocker (payload e) then Some e else None.

(** The environment the materialized workspace runs under. *)
Definition settle_environment (briefID : string) (snap : Snapshot) : M (option herror) :=
  if String.eqb (ContractState snap) StateApproved then
    failed ← bootstrapWorkspace briefID (sn_BaseTip snap);
    match failed with
    | None => mret None
    | Some err =>
        _ ← (match errors_as as_blocker err with Some blocker => recordBootstrapBlocker blocker | None => mret tt end);
        refuse_preparation err
    end
  else _ ← storeBootstrapEnv []; mret None.

Definition materializeSnapshot (briefID : string) (snap : Snapshot) : M (option herror) :=
  if negb (w_worker wiring) then refuse_preparation (new_error noticeNoWorker) else
  uploaded ← io (UploadSnapshot (sn_Data snap));
  match uploaded with
  | Err err => refuse_preparation err
  | Ok _ =>
      opID ← mint "snapshot" briefID;
      r ← dispatchAndAwait opID briefID (shell_task workerUnpackScript []);
      match r with
      | Err err => refuse_preparation err
      | Ok v =>
          if negb (wr_ExitCode v =? 0) then refuse_preparation (prerequisite_error (failedPrerequisiteTask (wr_ExitCode v))) else
          if negb (String.eqb (TrimSpace (StdoutTail v)) (sn_Tip snap)) then refuse_preparation (prerequisite_error mismatchedPrerequisite) else
          failed ← settle_environment briefID snap;
          match failed with
          | Some err => mret (Some err)
          | None => _ ← modify (fun c => settle_snapshot c (sn_Tip snap)); mret None
          end
      end
  end.

Definition ensureSnapshot : M (option herror) :=
  ready ← gets snapshotReady;
  if ready : bool then mret None else
  rendered ← renderSnapshot;
  match rendered with Err e => mret (Some e) | Ok snap => materializeSnapshot "control" snap end.

Definition prepareSnapshot (briefID : string) : M (result herror string) :=
  rendered ← renderSnapshot;
  match rendered with
  | Err e => mret (Err e)
  | Ok snap =>
      failed ← materializeSnapshot briefID snap;
      match failed with Some e => mret (Err e) | None => mret (Ok (sn_Tip snap)) end
  end.

End Dispatch.
