(* ===== verification/HarnessLogic.v ===== *)
(** * A program logic for the control pod

    A handler of the coordinator is a state transformer over requests.  [triple]
    runs an automaton beside it: from any automaton state and program state in
    [P], no request is refused and [R] holds of the states and the value it
    ends with.  Executions that never end are covered too: their requests are
    accepted one by one. *)

From S2P Require Import Prelude Effects HarnessErrors Session HarnessWorld.

Section Triples.
Context {T : Type} (step : T -> event harnessE -> option T).

Definition triple {S A} (P : T -> S -> Prop) (p : ST S A) (R : T -> S -> A -> Prop) : Prop :=
  forall m s, P m s -> mon step (fun _ => True) (p s) m (fun m' r => R m' r.1 r.2).

Lemma triple_ret {S A} (P : T -> S -> Prop) (a : A) (R : T -> S -> A -> Prop) :
  (forall m s, P m s -> R m s a) -> triple P (mret a) R.
Proof. intros H m s HP. by apply H. Qed.

Lemma triple_bind {S A B} (P : T -> S -> Prop) (p : ST S A) (f : A -> ST S B) Q R :
  triple P p Q -> (forall a, triple (fun m s => Q m s a) (f a) R) -> triple P (p ≫= f) R.
Proof.
  intros Hp Hf m s HP. apply mon_bind. eapply mon_mono; [|exact (Hp m s HP)]. intros m' [s' a] HQ. exact (Hf a m' s' HQ).
Qed.

Lemma triple_conseq {S A} (P P' : T -> S -> Prop) (p : ST S A) (R R' : T -> S -> A -> Prop) :
  triple P' p R' -> (forall m s, P m s -> P' m s) -> (forall m s a, R' m s a -> R m s a) -> triple P p R.
Proof. intros H HP HR m s Hm. eapply mon_mono; [|exact (H m s (HP m s Hm))]. intros m' [s' a]. apply HR. Qed.

Lemma triple_io {S X} (P : T -> S -> Prop) (e : harnessE X) (R : T -> S -> X -> Prop) :
  (forall m s x, P m s -> match step m (Ev e x) with Some m' => R m' s x | None => False end) -> triple P (io e) R.
Proof. intros H m s HP x _. specialize (H m s x HP). by destruct (step m (Ev e x)). Qed.

Lemma triple_gets {S A} (P : T -> S -> Prop) (f : S -> A) (R : T -> S -> A -> Prop) :
  (forall m s, P m s -> R m s (f s)) -> triple P (gets f) R.
Proof. intros H m s HP. by apply H. Qed.

Lemma triple_modify {S} (P : T -> S -> Prop) (f : S -> S) (R : T -> S -> unit -> Prop) :
  (forall m s, P m s -> R m (f s) tt) -> triple P (modify f) R.
Proof. intros H m s HP. by apply H. Qed.

Lemma triple_still {S A} (P : T -> S -> Prop) (R : T -> S -> A -> Prop) : triple P still_going R.
Proof. intros m s HP []. Qed.

Lemma triple_zoom {S U A} (get : S -> U) (set : S -> U -> S) (p : ST U A) (P : T -> S -> Prop) (R : T -> S -> A -> Prop) :
  (forall s, triple (fun m u => P m s /\ u = get s) p (fun m u a => R m (set s u) a)) -> triple P (zoom get set p) R.
Proof.
  intros H m s HP. apply mon_bind. eapply mon_mono; [|exact (H s m (get s) (conj HP eq_refl))]. by intros m' [u a].
Qed.

Lemma triple_or_return {S Er A B} (P : T -> S -> Prop) (p : ST S (result Er A)) (f : A -> ST S (result Er B)) Q R :
  triple P p Q -> (forall a, triple (fun m s => Q m s (Ok a)) (f a) R) ->
  (forall m s e, Q m s (Err e) -> R m s (Err e)) -> triple P (or_return p f) R.
Proof.
  intros Hp Hf He. eapply triple_bind; [exact Hp|]. intros [a|e]; [apply Hf|]. apply triple_ret. intros m s HQ. by apply He.
Qed.

(** The state the program starts in may be fixed. *)
Lemma triple_fix {S A} (P : T -> S -> Prop) (p : ST S A) R :
  (forall m0 s0, P m0 s0 -> triple (fun m s => m = m0 /\ s = s0) p R) -> triple P p R.
Proof. intros H m s HP. by apply (H m s HP). Qed.

Lemma triple_pure {S A} (F : Prop) (P : T -> S -> Prop) (p : ST S A) R :
  (F -> triple P p R) -> triple (fun m s => P m s /\ F) p R.
Proof. intros H m s [HP HF]. by apply H. Qed.

(** A session's requests, each served by a handler. *)
Lemma triple_interp {S A} (serve : forall X, sessionE X -> ST S X) (P : T -> S -> Prop) (p : prog sessionE A) :
  (forall X (e : sessionE X), triple P (serve X e) (fun m s _ => P m s)) ->
  triple P (interp serve p) (fun m s _ => P m s).
Proof.
  intros Hs. induction p as [a|X e k IH]; intros m s HP; simpl; [done|].
  apply mon_bind. eapply mon_mono; [|exact (Hs X e m s HP)]. intros m' [s' x] HP'. exact (IH x m' s' HP').
Qed.

(** What a triple says of executions, complete or not. *)
Lemma triple_partial {S A} (P : T -> S -> Prop) (p : ST S A) R m s t :
  triple P p R -> P m s -> partial (p s) t -> is_Some (accepts step m t).
Proof.
  intros H HP Ht. eapply mon_partial; [exact (H m s HP)|exact Ht|]. by apply Forall_forall.
Qed.

Lemma triple_exec {S A} (P : T -> S -> Prop) (p : ST S A) R m s t s' a :
  triple P p R -> P m s -> exec (p s) t (s', a) -> exists m', accepts step m t = Some m' /\ R m' s' a.
Proof.
  intros H HP Ht. eapply (mon_exec step _ _ m) in Ht; [|exact (H m s HP)|by apply Forall_forall]. done.
Qed.

(** ** Invariants *)

Definition keeps {S A} (I : T -> S -> Prop) (p : ST S A) : Prop := triple I p (fun m s _ => I m s).

Lemma keeps_ret {S A} (I : T -> S -> Prop) (a : A) : keeps I (mret a).
Proof. by apply triple_ret. Qed.

Lemma keeps_bind {S A B} (I : T -> S -> Prop) (p : ST S A) (f : A -> ST S B) :
  keeps I p -> (forall a, keeps I (f a)) -> keeps I (p ≫= f).
Proof. intros Hp Hf. eapply triple_bind; [exact Hp|]. exact Hf. Qed.

Lemma keeps_or_return {S Er A B} (I : T -> S -> Prop) (p : ST S (result Er A)) (f : A -> ST S (result Er B)) :
  keeps I p -> (forall a, keeps I (f a)) -> keeps I (or_return p f).
Proof. intros Hp Hf. eapply triple_or_return; [exact Hp|exact Hf|done]. Qed.

Lemma keeps_gets {S A} (I : T -> S -> Prop) (f : S -> A) : keeps I (gets f).
Proof. by apply triple_gets. Qed.

Lemma keeps_modify {S} (I : T -> S -> Prop) (f : S -> S) : (forall m s, I m s -> I m (f s)) -> keeps I (modify f).
Proof. intros H. by apply triple_modify. Qed.

Lemma keeps_still {S A} (I : T -> S -> Prop) : keeps I (still_going : ST S A).
Proof. apply triple_still. Qed.

(** A request the automaton does not look at. *)
Definition unwatched {S X} (I : T -> S -> Prop) (e : harnessE X) : Prop := forall m s x, I m s -> step m (Ev e x) = Some m.

Lemma keeps_io {S X} (I : T -> S -> Prop) (e : harnessE X) : unwatched I e -> keeps I (io e).
Proof. intros H. apply triple_io. intros m s x HI. by rewrite (H m s x HI). Qed.

End Triples.

(** Decompose a handler; [harness] holds the lemmas of the handlers it calls. *)
Create HintDb harness.
#[export] Hint Resolve keeps_ret keeps_gets keeps_still : harness.

Ltac keeps_step :=
  lazymatch goal with
  | |- keeps _ _ (mbind _ _) => apply keeps_bind; [|intros ?]
  | |- keeps _ _ (or_return _ _) => apply keeps_or_return; [|intros ?]
  | |- keeps _ _ (match ?x with _ => _ end) => destruct x
  | |- keeps _ _ (let '(_, _) := ?x in _) => destruct x
  | |- keeps _ _ (let _ := _ in _) => cbv zeta
  end.
Ltac keeps_all := repeat first [solve [eauto with harness] | keeps_step].
