(* ===== verification/CoordinatorProtocol.v ===== *)
(** * What the coordinator may do

    The abstract specification of a run of the coordinator: an automaton over
    its requests, and the proof that every handler of Coordinator.v respects it,
    whatever the worker, the broker, the forge and the models answer.

    - One operation at a time: a task is dispatched only when no operation may
      still be running, and, with a reporter, only after the broker acknowledged
      its entry.  An operation is cleared only after its end was observed.
    - After an acknowledged soft stop no new work unit reaches the worker.
    - A brief is integrated at most once, by trusted control, after it reached
      the worker; a change that was integrated is published next.
    - Any other publication is the run's last request. *)

From S2P Require Import Prelude Effects GoStrings GoTime Sha256 Run Pods BrokerAuth HarnessStatus Budget HarnessErrors Session HarnessLedger Devenv HarnessWorld HarnessSkills WorkerDispatch HarnessLogic Coordinator.
Local Open Scope string_scope.
Local Open Scope Z_scope.

(** ** The automaton *)

Record hstate := {
  persisted : option string; active : option string; ended_ops : gset string; stopped : bool; known : gset string;
  integrated : gset string; owed : bool; unpublished : bool; closing : option bool; anchor : option bool
}.

Definition start : hstate :=
  {| persisted := None; active := None; ended_ops := ∅; stopped := false; known := {["control"]}; integrated := ∅; owed := false;
     unpublished := false; closing := None; anchor := None |}.

Definition with_persisted (m : hstate) (v : option string) : hstate :=
  {| persisted := v; active := active m; ended_ops := ended_ops m; stopped := stopped m; known := known m;
     integrated := integrated m; owed := owed m; unpublished := unpublished m; closing := closing m; anchor :=
     anchor m |}.
Definition with_active (m : hstate) (v : option string) : hstate :=
  {| persisted := persisted m; active := v; ended_ops := ended_ops m; stopped := stopped m; known := known m;
     integrated := integrated m; owed := owed m; unpublished := unpublished m; closing := closing m; anchor :=
     anchor m |}.
Definition with_ended_ops (m : hstate) (v : gset string) : hstate :=
  {| persisted := persisted m; active := active m; ended_ops := v; stopped := stopped m; known := known m;
     integrated := integrated m; owed := owed m; unpublished := unpublished m; closing := closing m; anchor :=
     anchor m |}.
Definition with_stopped (m : hstate) (v : bool) : hstate :=
  {| persisted := persisted m; active := active m; ended_ops := ended_ops m; stopped := v; known := known m;
     integrated := integrated m; owed := owed m; unpublished := unpublished m; closing := closing m; anchor :=
     anchor m |}.
Definition with_known (m : hstate) (v : gset string) : hstate :=
  {| persisted := persisted m; active := active m; ended_ops := ended_ops m; stopped := stopped m; known := v;
     integrated := integrated m; owed := owed m; unpublished := unpublished m; closing := closing m; anchor :=
     anchor m |}.
Definition with_integrated (m : hstate) (v : gset string) : hstate :=
  {| persisted := persisted m; active := active m; ended_ops := ended_ops m; stopped := stopped m; known :=
     known m; integrated := v; owed := owed m; unpublished := unpublished m; closing := closing m; anchor :=
     anchor m |}.
Definition with_owed (m : hstate) (v : bool) : hstate :=
  {| persisted := persisted m; active := active m; ended_ops := ended_ops m; stopped := stopped m; known :=
     known m; integrated := integrated m; owed := v; unpublished := unpublished m; closing := closing m; anchor
     := anchor m |}.
Definition with_unpublished (m : hstate) (v : bool) : hstate :=
  {| persisted := persisted m; active := active m; ended_ops := ended_ops m; stopped := stopped m; known :=
     known m; integrated := integrated m; owed := owed m; unpublished := v; closing := closing m; anchor :=
     anchor m |}.
Definition with_closing (m : hstate) (v : option bool) : hstate :=
  {| persisted := persisted m; active := active m; ended_ops := ended_ops m; stopped := stopped m; known :=
     known m; integrated := integrated m; owed := owed m; unpublished := unpublished m; closing := v; anchor :=
     anchor m |}.
Definition with_anchor (m : hstate) (v : option bool) : hstate :=
  {| persisted := persisted m; active := active m; ended_ops := ended_ops m; stopped := stopped m; known :=
     known m; integrated := integrated m; owed := owed m; unpublished := unpublished m; closing := closing m;
     anchor := v |}.

(** The operation is over: the worker said so and named no process left. *)
Definition over (s : ResultState) : bool :=
  String.eqb (rs_Status s) "" ||
  (terminal_status (rs_Status s) && match rs_Result s with None => true | Some r => negb (0 <? LiveDescendants r) end).

Definition accepted {Er A} (r : result Er A) : bool := match r with Ok _ => true | Err _ => false end.

Definition end_op (m : hstate) (op : string) : hstate :=
  let m := with_ended_ops m ({[op]} ∪ ended_ops m) in
  if bool_decide (active m = Some op) then with_active m None else m.

Definition step_status (m : hstate) (p : HarnessPatch) (ok : bool) : option hstate :=
  if negb (String.eqb (ClearOperation p) "") && negb (bool_decide (ClearOperation p ∈ ended_ops m)) then None else
  match AddOperation p with
  | Some a => if bool_decide (active m = None) then Some (with_persisted m (if ok then Some (OpID a) else None)) else None
  | None =>
      let m := match hp_Checkpoint p with Some _ => with_owed m (negb ok) | None => m end in
      Some (match hp_ControlRequestAck p with Some _ => if ok then with_stopped m true else m | None => m end)
  end.

Section Protocol.
Context (wired : bool).

Definition step_dispatch (m : hstate) (op brief : string) (r : result herror string) : option hstate :=
  if bool_decide (active m = None) && (negb wired || bool_decide (persisted m = Some op)) &&
     (negb (stopped m) || bool_decide (brief ∈ known m)) then
    let m := with_known (with_persisted m None) ({[brief]} ∪ known m) in
    match r with
    | Err e => if definiteWorkerRejection e then Some (end_op m op) else Some (with_active m (Some op))
    | Ok _ => Some (with_active m (Some op))
    end
  else None.

Definition step_integrate (m : hstate) (req : IntegrationRequest) (r : result herror Integration) : option hstate :=
  if bool_decide (ir_BriefID req ∉ integrated m) && bool_decide (ir_BriefID req ∈ known m) && bool_decide (active m = None) then
    let m := with_integrated m ({[ir_BriefID req]} ∪ integrated m) in
    Some (match r with Ok i => with_unpublished m (Changed i) | Err _ => m end)
  else None.

Definition protocol (m : hstate) (ev : event harnessE) : option hstate :=
  if bool_decide (is_Some (closing m)) then None else
  match ev with
  | Ev e x =>
      match e in harnessE X return X -> option hstate with
      | PublishRequest => fun r => if unpublished m then Some (with_unpublished m false) else Some (with_closing m (Some (accepted r)))
      | e' =>
          fun x =>
          if unpublished m then None else
          match e' in harnessE X return X -> option hstate with
          | PostStatus p => fun r => step_status m p (accepted r)
          | WorkerDispatch op brief _ => fun r => step_dispatch m op brief r
          | WorkerPoll op => fun r => Some (match r with Ok s => if over s then end_op m op else m | Err _ => m end)
          | IntegrateRequest req => fun r => step_integrate m req r
          | WorkRefBeyondAnchor => fun r => Some (match r with Ok b => with_anchor m (Some b) | Err _ => m end)
          | _ => fun _ => Some m
          end x
      end x
  end.

(** Between its requests the coordinator is neither closing nor holding a change
    it has not published. *)
Definition open (m : hstate) : Prop := closing m = None /\ unpublished m = false.

#[local] Notation "'triple'" := (triple protocol).
#[local] Notation "'keeps'" := (keeps protocol).

(** ** The status reporter *)

(** Pending clears are of operations that ended; a retained checkpoint is the
    debt of the run. *)
Definition debt_ok (m : hstate) (d : option HarnessPatch) : Prop :=
  match d with
  | None => owed m = false
  | Some p => owed m = true /\ exists c l, p = checkpoint_patch c l
  end.

Definition rep_inv (m : hstate) (r : StatusReporter) : Prop :=
  Forall (fun op => op ∈ ended_ops m \/ op = "") (pendingClears r) /\ debt_ok m (statusDebt r).

(** A retried write moves the automaton once, by what it ended with. *)
Lemma retried_triple {S} n patch (m0 mOk mErr : hstate) (s0 : S) :
  (forall m r, m = m0 \/ m = mErr -> protocol m (Ev (PostStatus patch) r) = Some (if accepted r then mOk else mErr)) ->
  open mErr ->
  triple (fun m s => (m = m0 \/ m = mErr) /\ s = s0) (retried n patch)
    (fun m s r => s = s0 /\ m = if accepted r then mOk else mErr).
Proof.
  intros Hstep [Hcl Hun]. induction n as [|n IH]; simpl.
  all: eapply triple_bind; [apply (triple_io _ _ _ (fun m s r => s = s0 /\ m = if accepted r then mOk else mErr));
         intros m s r [Hm ->]; rewrite (Hstep m r Hm); done|].
  all: intros [[]|e]; [by apply triple_ret|]; destruct (negb (isBrokerRetryable e)); [by apply triple_ret|].
  1: by apply triple_ret.
  eapply triple_bind; [apply (triple_io _ _ _ (fun m s _ => s = s0 /\ m = mErr))|].
  { intros m s x [-> ->]. simpl. unfold protocol. rewrite Hcl, Hun. done. }
  intros [|]; [apply triple_ret; by intros m s [-> ->]|].
  eapply triple_conseq; [exact IH| |done]. intros m s [-> ->]. auto.
Qed.

Lemma retry_write_triple {S} patch (m0 mOk mErr : hstate) (s0 : S) :
  (forall m r, m = m0 \/ m = mErr -> protocol m (Ev (PostStatus patch) r) = Some (if accepted r then mOk else mErr)) ->
  open mErr ->
  triple (fun m s => m = m0 /\ s = s0) (retry_write patch) (fun m s r => s = s0 /\ m = if accepted r then mOk else mErr).
Proof. intros H1 H2. eapply triple_conseq; [by apply (retried_triple _ patch m0 mOk mErr s0)| |done]. intuition. Qed.

(** The clock and the other requests nothing depends on. *)
Lemma protocol_quiet {X} (e : harnessE X) m x :
  open m ->
  match e with
  | PostStatus _ | WorkerDispatch _ _ _ | WorkerPoll _ | IntegrateRequest _ | WorkRefBeyondAnchor | PublishRequest => True
  | _ => protocol m (Ev e x) = Some m
  end.
Proof. intros [Hc Hu]. destruct e; simpl; try done; unfold protocol; rewrite Hc, Hu; done. Qed.

Lemma step_clear m op hb r :
  open m -> op ∈ ended_ops m \/ op = "" -> protocol m (Ev (PostStatus (clear_patch op hb)) r) = Some m.
Proof.
  intros [Hc Hu] Hop. unfold protocol. rewrite Hc, Hu. simpl. unfold step_status. simpl.
  destruct Hop as [Hop| ->]; [|done]. rewrite (bool_decide_true _ Hop), andb_false_r. done.
Qed.

Lemma step_checkpoint m c l r :
  open m -> protocol m (Ev (PostStatus (checkpoint_patch c l)) r) = Some (with_owed m (negb (accepted r))).
Proof. intros [Hc Hu]. unfold protocol. rewrite Hc, Hu. done. Qed.

Lemma step_heartbeat m h r : open m -> protocol m (Ev (PostStatus (heartbeat_patch h)) r) = Some m.
Proof. intros [Hc Hu]. unfold protocol. rewrite Hc, Hu. done. Qed.

Lemma step_ack m a r :
  open m -> protocol m (Ev (PostStatus (ack_patch a)) r) = Some (if accepted r then with_stopped m true else m).
Proof. intros [Hc Hu]. unfold protocol. rewrite Hc, Hu. simpl. unfold step_status. simpl. done. Qed.

Lemma step_add m a r :
  open m -> active m = None ->
  protocol m (Ev (PostStatus (add_patch a)) r) = Some (with_persisted m (if accepted r then Some (OpID a) else None)).
Proof.
  intros [Hc Hu] Ha. unfold protocol. rewrite Hc, Hu. simpl. unfold step_status. simpl. rewrite Ha. done.
Qed.

(** The reporter's operations leave the automaton where it was, but for what
    they are for. *)
Definition at_state {S} (m0 : hstate) (I : hstate -> S -> Prop) : hstate -> S -> Prop := fun m s => m = m0 /\ I m s.

Lemma at_clock {S} (m0 : hstate) (I : hstate -> S -> Prop) :
  open m0 -> triple (at_state m0 I) (io ClockNow) (fun m s _ => at_state m0 I m s).
Proof. intros Hm. apply triple_io. intros m s x [-> HI]. by rewrite (protocol_quiet ClockNow _ _ Hm). Qed.

Lemma recordHeartbeat_triple m0 kind :
  open m0 -> triple (at_state m0 rep_inv) (recordHeartbeat kind) (fun m r _ => at_state m0 rep_inv m r).
Proof.
  intros Hm. unfold recordHeartbeat. eapply triple_bind; [by apply at_clock|]. intros now.
  eapply triple_bind; [apply (triple_gets _ _ _ (fun m r _ => at_state m0 rep_inv m r)); done|]. intros r0.
  destruct (_ || _); [by apply triple_ret|].
  eapply triple_bind; [apply (triple_modify _ _ _ (fun m r _ => at_state m0 rep_inv m r)); done|]. intros [].
  eapply triple_bind; [apply (triple_io _ _ _ (fun m r _ => at_state m0 rep_inv m r))|].
  { intros m r x [-> HI]. by rewrite step_heartbeat. }
  intros answer. eapply triple_bind; [apply (triple_modify _ _ _ (fun m r _ => at_state m0 rep_inv m r)); done|]. intros [].
  destruct answer; [|by apply triple_ret]. by apply triple_modify.
Qed.

Lemma flush_clears_triple m0 pending :
  open m0 -> Forall (fun op => op ∈ ended_ops m0 \/ op = "") pending ->
  triple (at_state m0 rep_inv) (flush_clears pending) (fun m r _ => at_state m0 rep_inv m r).
Proof.
  intros Hm. induction 1 as [|op rest Hop _ IH]; simpl; [by apply triple_ret|].
  eapply triple_bind; [apply (triple_io _ _ _ (fun m r _ => at_state m0 rep_inv m r))|].
  { intros m r x [-> HI]. by rewrite step_clear. }
  intros [[]|e].
  - eapply triple_bind with (Q := fun m r _ => at_state m0 rep_inv m r); [by apply triple_ret|]. intros []. exact IH.
  - eapply triple_bind; [apply (triple_modify _ _ _ (fun m r _ => at_state m0 rep_inv m r))|intros []; exact IH].
    intros m r [-> [H1 H2]]. split; [done|]. split; [|done]. simpl. apply Forall_app. split; [done|]. by constructor.
Qed.

Lemma flushPendingClears_triple m0 :
  open m0 -> triple (at_state m0 rep_inv) flushPendingClears (fun m r _ => at_state m0 rep_inv m r).
Proof.
  intros Hm. apply triple_fix. intros m r [-> [H1 H2]]. unfold flushPendingClears.
  eapply triple_bind; [apply (triple_gets _ _ _ (fun m' r' p => m' = m0 /\ r' = r /\ p = pendingClears r)); by intros ? ? [-> ->]|].
  intros pending. eapply triple_bind; [apply (triple_modify _ _ _ (fun m' r' _ => at_state m0 rep_inv m' r' /\ pending = pendingClears r))|].
  { intros m' r' (-> & -> & ->). split; [|done]. split; [done|]. by split; [constructor|]. }
  intros []. apply triple_pure. intros ->. by apply flush_clears_triple.
Qed.

Lemma rep_inv_persisted m v r : rep_inv (with_persisted m v) r <-> rep_inv m r.
Proof. done. Qed.

Lemma BeginOperation_triple m0 op brief :
  open m0 -> active m0 = None ->
  triple (at_state m0 rep_inv) (BeginOperation op brief)
    (fun m r res => rep_inv m r /\ m = with_persisted m0 (if accepted res then Some op else None)).
Proof.
  intros Hm Ha. unfold BeginOperation. eapply triple_bind; [by apply flushPendingClears_triple|]. intros [].
  eapply triple_bind; [by apply at_clock|]. intros now. apply triple_fix. intros m r [-> HI].
  eapply triple_bind; [apply (triple_gets _ _ _ (fun m r' _ => m = m0 /\ r' = r)); done|]. intros r1.
  eapply triple_conseq; [apply (retry_write_triple _ m0 (with_persisted m0 (Some op)) (with_persisted m0 None) r)|done|].
  - intros m res [-> | ->]; [by rewrite step_add; [destruct res|..]|]. rewrite step_add; [by destruct res|exact Hm|exact Ha].
  - exact Hm.
  - intros m s res [-> ->]. destruct res; by split.
Qed.

Lemma EndOperation_triple m0 op completed :
  open m0 -> op ∈ ended_ops m0 \/ op = "" ->
  triple (at_state m0 rep_inv) (EndOperation op completed) (fun m r _ => at_state m0 rep_inv m r).
Proof.
  intros Hm Hop. unfold EndOperation.
  eapply triple_bind; [apply (triple_gets _ _ _ (fun m r _ => at_state m0 rep_inv m r)); done|]. intros r0.
  eapply triple_bind with (Q := fun m r _ => at_state m0 rep_inv m r).
  { destruct completed; [|by apply triple_ret]. eapply triple_bind; [by apply at_clock|]. intros. by apply triple_ret. }
  intros hb. apply triple_fix. intros m r [-> HI].
  eapply triple_bind; [apply (retry_write_triple _ m0 m0 m0 r)|].
  { intros m res [-> | ->]; rewrite step_clear by done; by destruct res. }
  { exact Hm. }
  intros [[]|e].
  - eapply triple_bind with (Q := fun m r _ => at_state m0 rep_inv m r); [|intros []; by apply triple_ret].
    destruct completed; [|apply triple_ret; by intros m s [-> ->]].
    eapply triple_bind; [eapply triple_conseq; [apply (at_clock m0 rep_inv Hm)|by intros m s [-> ->]|intros ? ? ? H; exact H]|].
    intros now. by apply triple_modify.
  - eapply triple_bind; [apply (triple_modify _ _ _ (fun m r _ => at_state m0 rep_inv m r))|intros []; by apply triple_ret].
    intros m s [-> ->]. split; [done|]. destruct HI as [H1 H2]. split; [|done]. simpl. apply Forall_app. split; [done|]. by constructor.
Qed.

Lemma CheckpointPublished_triple m0 c l :
  open m0 ->
  triple (at_state m0 rep_inv) (CheckpointPublished c l)
    (fun m r res => rep_inv m r /\ m = with_owed m0 (negb (accepted res))).
Proof.
  intros Hm. unfold CheckpointPublished. apply triple_fix. intros m r [-> HI].
  eapply triple_bind; [apply (retry_write_triple _ m0 (with_owed m0 false) (with_owed m0 true) r)|].
  { intros m res [-> | ->]; rewrite step_checkpoint by done; by destruct res. }
  { exact Hm. }
  intros [[]|e].
  - eapply triple_bind; [apply (triple_modify _ _ _ (fun m r _ => rep_inv m r /\ m = with_owed m0 false))|intros []; by apply triple_ret].
    intros m s [-> ->]. split; [|done]. split; [apply HI|done].
  - eapply triple_bind; [apply (triple_modify _ _ _ (fun m r _ => rep_inv m r /\ m = with_owed m0 true))|intros []; by apply triple_ret].
    intros m s [-> ->]. split; [|done]. split; [apply HI|]. split; [done|]. by eexists _, _.
Qed.

Lemma with_owed_same m b : owed m = b -> with_owed m b = m.
Proof. by destruct m; simpl; intros ->. Qed.

Lemma ReconcileDebt_triple m0 :
  open m0 ->
  triple (at_state m0 rep_inv) ReconcileDebt
    (fun m r res => rep_inv m r /\ m = if accepted res then with_owed m0 false else m0).
Proof.
  intros Hm. unfold ReconcileDebt. apply triple_fix. intros m r [-> [H1 H2]].
  eapply triple_bind; [apply (triple_gets _ _ _ (fun m r' d => m = m0 /\ r' = r /\ d = statusDebt r)); by intros ? ? [-> ->]|].
  intros debt. destruct (statusDebt r) as [p|] eqn:Hd.
  - destruct H2 as (Hb & c & l & ->).
    apply triple_fix. intros m s (-> & -> & ->).
    eapply triple_bind; [apply (retry_write_triple _ m0 (with_owed m0 false) m0 r)|].
    { intros m res [-> | ->]; rewrite step_checkpoint by done; destruct res; simpl; [done|by rewrite with_owed_same|done|by rewrite with_owed_same]. }
    { exact Hm. }
    intros [[]|e].
    + eapply triple_bind; [apply (triple_modify _ _ _ (fun m r _ => rep_inv m r /\ m = with_owed m0 false))|intros []; by apply triple_ret].
      intros m s' [-> ->]. by split.
    + apply triple_ret. intros m s' [-> ->]. split; [|done]. split; [done|]. rewrite Hd. split; [done|]. by eexists _, _.
  - apply triple_fix. intros m s (-> & -> & ->). apply triple_ret. intros m s [-> ->]. split; [split; [done|by rewrite Hd]|].
    by rewrite with_owed_same.
Qed.

Lemma AckControlRequest_triple m0 id :
  open m0 ->
  triple (at_state m0 rep_inv) (AckControlRequest id)
    (fun m r res => rep_inv m r /\ m = if accepted res then with_stopped m0 true else m0).
Proof.
  intros Hm. unfold AckControlRequest. eapply triple_bind; [by apply at_clock|]. intros now. apply triple_fix. intros m r [-> HI].
  eapply triple_conseq; [apply (retry_write_triple _ m0 (with_stopped m0 true) m0 r)|done|].
  - intros m res [-> | ->]; by rewrite step_ack.
  - exact Hm.
  - intros m s res [-> ->]. by destruct res.
Qed.

(** ** The invariant of the coordinator *)

Definition status_ok (m : hstate) (o : option StatusReporter) : Prop :=
  match o with Some r => wired = true /\ rep_inv m r | None => wired = false /\ owed m = false end.

Definition fenced (c : Coordinator) : bool := bool_decide (is_Some (workerFenceErr c)).

(** [X] are the integrated briefs, [L] is the ledger, [K] are work units known to
    the worker, [a] is the operation that may be running, [f] the fence. *)
Definition base_inv (X : gset string) (L : BriefRegistry) (K : gset string) (a : option string) (f : bool)
    (m : hstate) (c : Coordinator) : Prop :=
  open m /\ status_ok m (c_status c) /\ stopped m = Stopped (c_control c) /\ active m = a /\ integrated m = X /\
  K ⊆ known m /\ c_briefs c = L /\ fenced c = f.

(** At rest: an operation that may be running has fenced the worker. *)
Definition coord_inv (X : gset string) (L : BriefRegistry) (K : gset string) (m : hstate) (c : Coordinator) : Prop :=
  exists a f, base_inv X L K a f m c /\ (a = None \/ f = true).

Lemma on_reporter_triple {A} (none : A) (p : Rep A) m0 (R : hstate -> A -> Prop) :
  triple (at_state m0 rep_inv) p (fun m r a => rep_inv m r /\ R m a) -> (wired = false -> owed m0 = false -> R m0 none) ->
  triple (at_state m0 status_ok) (on_reporter none p) (fun m o a => status_ok m o /\ R m a).
Proof.
  intros Hp Hnone m o [-> Ho]. destruct o as [r|]; simpl; [|destruct Ho; split; [done|auto]].
  destruct Ho as [Hw Hr]. apply mon_bind. eapply mon_mono; [|exact (Hp m0 r (conj eq_refl Hr))]. intros m' [r' a] [H1 H2]. done.
Qed.

(** An operation of the reporter leaves everything else of the coordinator. *)
Lemma on_status_triple {A} (none : A) (p : Rep A) m0 (R : hstate -> A -> Prop) (c0 : Coordinator) :
  triple (at_state m0 rep_inv) p (fun m r a => rep_inv m r /\ R m a) -> (wired = false -> owed m0 = false -> R m0 none) ->
  triple (fun m c => m = m0 /\ c = c0 /\ status_ok m (c_status c)) (on_status none p)
    (fun m c a => R m a /\ exists o, c = set_c_status c0 o /\ status_ok m o).
Proof.
  intros Hp Hnone m c (-> & -> & Hs). apply mon_bind.
  eapply mon_mono; [|exact (on_reporter_triple none p m0 R Hp Hnone m0 _ (conj eq_refl Hs))].
  intros m' [o a] [H1 H2]. simpl. eauto.
Qed.

(** An operation that does not move the automaton; [F] is what is known of it. *)
Lemma on_status_same {A} (none : A) (p : Rep A) X L K a f (F : hstate -> Prop) :
  (forall m0, open m0 -> F m0 -> triple (at_state m0 rep_inv) p (fun m r _ => at_state m0 rep_inv m r)) ->
  triple (fun m c => base_inv X L K a f m c /\ F m) (on_status none p) (fun m c _ => base_inv X L K a f m c /\ F m).
Proof.
  intros Hp. apply triple_fix. intros m c [Hb HF]. destruct Hb as (Ho & Hs & Hrest).
  eapply triple_conseq; [apply (on_status_triple none p m (fun m' _ => m' = m) c)|intros ? ? [-> ->]; by split|].
  - eapply triple_conseq; [exact (Hp m Ho HF)|done|]. intros m' r res [-> H]. done.
  - done.
  - intros m' c' res [-> (o & -> & Ho')]. split; [|done]. split; [done|]. by split.
Qed.

Lemma closeOperation_triple wiring X L K f op completed :
  triple (fun m c => base_inv X L K None f m c /\ op ∈ ended_ops m) (closeOperation wiring op completed)
    (fun m c _ => base_inv X L K None f m c).
Proof.
  unfold closeOperation. eapply triple_bind.
  - apply (on_status_same _ _ X L K None f (fun m => op ∈ ended_ops m)). intros m0 Hm Hop. apply EndOperation_triple; auto.
  - intros r. destruct (_ && _); [|apply triple_ret; by intros m c []].
    eapply triple_conseq; [apply (on_status_same tt (recordHeartbeat "tool") X L K None f (fun _ => True))| |].
    + intros m0 Hm _. by apply recordHeartbeat_triple.
    + by intros m c [].
    + by intros m c ? [].
Qed.

Lemma fenceWorker_triple X L K a f op e :
  triple (base_inv X L K a f) (fenceWorker op e) (fun m c _ => base_inv X L K a true m c).
Proof.
  apply triple_modify. intros m c (? & ? & ? & ? & ? & ? & ? & Hf). unfold fence.
  destruct (workerFenceErr c) eqn:Hw; (split_and!; [done..|]); unfold fenced; simpl; [by rewrite Hw|done].
Qed.

Lemma observePrerequisite_triple X L K a f e :
  triple (base_inv X L K a f) (observePrerequisite e) (fun m c _ => base_inv X L K a f m c).
Proof. by apply triple_modify. Qed.

(** ** One operation *)

(** What a poll of [op] that answered [s] leaves. *)
Definition polled (X : gset string) (L : BriefRegistry) (K : gset string) (f : bool) (op : string) (s : ResultState)
    (m : hstate) (c : Coordinator) : Prop :=
  exists a, base_inv X L K a f m c /\ if over s then a = None /\ op ∈ ended_ops m else a = Some op.

Lemma poll_triple X L K f op :
  triple (base_inv X L K (Some op) f) (io (WorkerPoll op))
    (fun m c r => match r with Ok s => polled X L K f op s m c | Err _ => base_inv X L K (Some op) f m c end).
Proof.
  apply triple_io. intros m c r (Ho & Hs & Hst & Ha & HX & HK & HL & Hf). pose proof Ho as [Hc Hu]. unfold protocol. rewrite Hc, Hu. simpl.
  destruct r as [s|e]; [|by split_and!]. destruct (over s) eqn:Hov; [|exists (Some op); rewrite Hov; by split_and!].
  exists None. rewrite Hov. unfold end_op. simpl. rewrite Ha, bool_decide_true by done. split; [|split; [done|simpl; set_solver]].
  split; [done|]. split; [|by split_and!]. unfold status_ok, rep_inv in *. destruct (c_status c); [|done].
  destruct Hs as (Hw & Hp & Hd). split; [done|]. split; [|done]. simpl. eapply Forall_impl; [exact Hp|]. simpl. intros x [Hx|Hx]; [left; set_solver|by right].
Qed.

Lemma quiet_triple {X : Type} (e : harnessE X) (P : hstate -> Coordinator -> Prop) :
  (forall m c, P m c -> open m) ->
  (forall m x, open m -> protocol m (Ev e x) = Some m) -> triple P (io e) (fun m c _ => P m c).
Proof. intros HP He. apply triple_io. intros m c x H. rewrite (He m x (HP m c H)). done. Qed.

Lemma ReconcileAmbiguous_triple X L K f op b :
  triple (base_inv X L K (Some op) f) (ReconcileAmbiguous op b)
    (fun m c r => match r with Ok s => polled X L K f op s m c | Err _ => base_inv X L K (Some op) f m c end).
Proof.
  unfold ReconcileAmbiguous. eapply triple_bind; [apply quiet_triple|].
  - by intros m c [].
  - intros m x Hm. exact (protocol_quiet (WorkerCancel op b) m x Hm).
  - intros [[]|e]; [|by apply triple_ret]. eapply triple_bind; [apply poll_triple|]. intros [s|e]; by apply triple_ret.
Qed.

Definition known_status (s : ResultState) : bool := String.eqb (rs_Status s) "" || terminal_status (rs_Status s).

Lemma terminationObserved_over s : terminationObserved s = true -> over s = true /\ known_status s = true.
Proof.
  unfold terminationObserved, over, known_status. destruct (String.eqb (rs_Status s) ""); [done|]. simpl.
  destruct (terminal_status (rs_Status s)); [|done]. simpl. destruct (rs_Result s) as [r|]; [|done].
  intros ->%Z.eqb_eq. done.
Qed.

Lemma known_over s :
  known_status s = true -> match rs_Result s with Some r => 0 <? LiveDescendants r | None => false end = false -> over s = true.
Proof.
  unfold known_status, over. destruct (String.eqb _ _); [done|]. simpl. intros -> H. simpl. by destruct (rs_Result s); [rewrite H|].
Qed.

Lemma base_coord X L K a m c : base_inv X L K a true m c -> coord_inv X L K m c.
Proof. intros H. exists a, true. auto. Qed.
Lemma none_coord X L K f m c : base_inv X L K None f m c -> coord_inv X L K m c.
Proof. intros H. exists None, f. auto. Qed.

(** ** The soft stop *)

Definition watch_inv (m0 : hstate) (m : hstate) (s : ControlWatcher * option StatusReporter) : Prop :=
  (m = m0 \/ m = with_stopped m0 true) /\ status_ok m s.2 /\ stopped m = latched s.1.

Lemma watch_open m0 m s : open m0 -> watch_inv m0 m s -> open m.
Proof. by intros Ho [[-> | ->] _]. Qed.

Lemma watch_quiet {X} (e : harnessE X) m0 :
  open m0 -> (forall m x, open m -> protocol m (Ev e x) = Some m) -> keeps (watch_inv m0) (io e).
Proof. intros Ho He. apply keeps_io. intros m s x HI. apply He. by eapply watch_open. Qed.

Lemma status_ok_stopped m v o : status_ok m o -> status_ok (with_stopped m v) o.
Proof. by destruct o. Qed.

(** Acknowledged first, consumed next. *)
Lemma serve_stop_keeps m0 id m w o :
  open m0 -> watch_inv m0 m (w, o) -> id ∉ cw_consumed w ->
  triple (fun m' s => m' = m /\ s = (w, o))
    (acked ← zoom snd (fun s r => (s.1, r))
       (on_reporter (Err (new_error "harness: control acknowledgement has no trusted status path")) (AckControlRequest id));
     match acked with Err _ => mret tt | Ok _ => on_watcher (fun w => consume w id) end : Watch unit)
    (fun m' s _ => watch_inv m0 m' s).
Proof.
  intros Ho HI Hid. assert (Hm : open m) by (by eapply watch_open). destruct HI as (H1 & H2 & H3). simpl in *.
  eapply triple_bind with (Q := fun m' s r => m' = (if accepted r then with_stopped m true else m) /\ s.1 = w /\ status_ok m' s.2).
  - apply triple_zoom. intros s m' u [[-> ->] ->].
    eapply mon_mono; [|apply (on_reporter_triple _ _ m (fun m' r => m' = if accepted r then with_stopped m true else m) (AckControlRequest_triple m id Hm))]; [|done..].
    intros m' [u r] [Hu ->]. done.
  - intros [[]|e].
    + apply triple_modify. intros m' [w' o'] (-> & Hw & Hs). simpl in *. subst w'. unfold consume.
      rewrite bool_decide_false by done. split; [destruct H1 as [-> | ->]; by right|]. split; [|done]. simpl. by destruct o'.
    + apply triple_ret. intros m' [w' o'] (-> & Hw & Hs). simpl in *. subst w'. by split.
Qed.

Lemma Poll_keeps m0 : open m0 -> keeps (watch_inv m0) Poll.
Proof.
  intros Ho. unfold Poll. apply keeps_bind; [apply keeps_gets|]. intros w0. destruct (negb _); [apply keeps_ret|].
  apply keeps_bind; [apply watch_quiet; [done|]; intros m x Hm; exact (protocol_quiet ClockNow m x Hm)|]. intros now.
  apply keeps_bind; [apply keeps_modify; by intros m [w o]|]. intros [].
  apply keeps_bind; [apply watch_quiet; [done|]; intros m x Hm; exact (protocol_quiet ReadControlRequest m x Hm)|].
  intros [[req|]|e]; try apply keeps_ret.
  apply triple_fix. intros m [w o] HI.
  eapply triple_bind; [apply (triple_gets _ _ _ (fun m' s w' => m' = m /\ s = (w, o) /\ w' = w)); by intros ? ? [-> ->]|].
  intros w'. apply triple_fix. intros m' s (-> & -> & ->).
  destruct (bool_decide_reflect (cr_ID req ∈ cw_consumed w)); simpl; [apply triple_ret; by intros ? ? [-> ->]|].
  destruct (negb (cw_ack w)); [apply triple_ret; by intros ? ? [-> ->]|]. by apply serve_stop_keeps.
Qed.

Lemma PollThrottled_keeps m0 : open m0 -> keeps (watch_inv m0) PollThrottled.
Proof.
  intros Ho. unfold PollThrottled. apply keeps_bind; [apply keeps_gets|]. intros w. destruct (lastRead w); [|by apply Poll_keeps].
  apply keeps_bind; [apply watch_quiet; [done|]; intros m x Hm; exact (protocol_quiet ClockNow m x Hm)|]. intros now.
  destruct (_ <? _); [apply keeps_ret|by apply Poll_keeps].
Qed.

Lemma on_control_keeps X L K a f p :
  (forall m0, open m0 -> keeps (watch_inv m0) p) -> keeps (base_inv X L K a f) (on_control p).
Proof.
  intros Hp m c Hb. pose proof Hb as (Ho & Hs & Hst & Ha & HX & HK & HL & Hf). unfold on_control.
  destruct (c_control c) as [w|] eqn:Hw; [|exact Hb].
  apply mon_bind. eapply mon_mono; [|apply (Hp m Ho m (w, c_status c))]; [|split; [by left|]; split; [done|]; by rewrite Hst].
  intros m' [[w' o'] []] (H1 & H2 & H3). simpl in *. split_and!; destruct H1 as [-> | ->]; try done; apply Ho.
Qed.

Section Operation.
Context {Q : Quoted} (wiring : Wiring) (polls : nat).

(** After an operation: one that gave a result is over. *)
Definition settled {A} (X : gset string) (L : BriefRegistry) (K : gset string) (m : hstate) (c : Coordinator) (r : result herror A) : Prop :=
  coord_inv X L K m c /\ (accepted r = true -> active m = None).

Lemma settled_err {A} X L K m c e : coord_inv X L K m c -> settled X L K m c (Err e : result herror A).
Proof. by intros H. Qed.

Lemma settled_none {A} X L K f m c (r : result herror A) : base_inv X L K None f m c -> settled X L K m c r.
Proof. intros H. split; [by eapply none_coord|]. intros _. apply H. Qed.

Lemma close_polled_triple {A} X L K f op s completed (r : result herror A) :
  over s = true ->
  triple (polled X L K f op s) (_ ← closeOperation wiring op completed; mret r) (settled X L K).
Proof.
  intros Hov. eapply triple_bind with (Q := fun m c _ => base_inv X L K None f m c).
  - eapply triple_conseq; [apply (closeOperation_triple wiring X L K f op)| |intros ? ? ? H; exact H].
    intros m c (a & Hb & Ho). rewrite Hov in Ho. by destruct Ho as [-> Hop].
  - intros []. apply triple_ret. intros m c. apply settled_none.
Qed.

(** Fencing after a poll, and while the operation runs. *)
Lemma fence_polled_triple {A} X L K f op s e (err : herror) :
  triple (polled X L K f op s) (_ ← fenceWorker op e; mret (Err err : result herror A)) (settled X L K).
Proof.
  apply triple_fix. intros m c (a & Hb & _). eapply triple_bind.
  - eapply triple_conseq; [apply (fenceWorker_triple X L K a f)|by intros ? ? [-> ->]|]. intros ? ? ? H. exact H.
  - intros []. apply triple_ret. intros m' c' H. by eapply settled_err, base_coord.
Qed.

Lemma fence_running_triple {A} X L K f op e (err : herror) :
  triple (base_inv X L K (Some op) f) (_ ← fenceWorker op e; mret (Err err : result herror A)) (settled X L K).
Proof.
  eapply triple_bind; [apply fenceWorker_triple|]. intros []. apply triple_ret. intros m' c' H. by eapply settled_err, base_coord.
Qed.

Lemma verifiedResult_triple X L K f op s :
  known_status s = true ->
  triple (polled X L K f op s) (verifiedResult wiring op s) (settled X L K).
Proof.
  intros Hk. unfold verifiedResult. destruct (rs_Result s) as [r|] eqn:Hr.
  - destruct (0 <? LiveDescendants r) eqn:Hl; [apply fence_polled_triple|].
    apply close_polled_triple, known_over; [done|by rewrite Hr].
  - apply close_polled_triple, known_over; [done|by rewrite Hr].
Qed.

Lemma coord_open X L K m c : coord_inv X L K m c -> open m.
Proof. by intros (a & f & [Ho _] & _). Qed.

Lemma coord_quiet {Y} (e : harnessE Y) X L K :
  (forall m x, open m -> protocol m (Ev e x) = Some m) -> triple (coord_inv X L K) (io e) (fun m c _ => coord_inv X L K m c).
Proof. intros He. apply quiet_triple; [|done]. intros m c. apply coord_open. Qed.

Lemma settle_result_triple X L K f op b s :
  known_status s = true ->
  triple (polled X L K f op s) (settle_result wiring op b s) (settled X L K).
Proof.
  intros Hk. eapply triple_bind; [by apply verifiedResult_triple|]. intros [v|e]; [|by apply triple_ret].
  eapply triple_bind with (Q := fun m c _ => settled X L K m c (Ok v)); [|intros []; by apply triple_ret].
  unfold releaseConsumed. eapply triple_bind; [apply quiet_triple|intros; by apply triple_ret].
  - intros m c [H _]. by eapply coord_open.
  - intros m x Hm. exact (protocol_quiet (WorkerRelease op b) m x Hm).
Qed.

Lemma reconcile_operation_triple X L K f op b failed unproven :
  triple (base_inv X L K (Some op) f) (reconcile_operation wiring op b failed unproven) (settled X L K).
Proof.
  eapply triple_bind; [apply ReconcileAmbiguous_triple|]. intros [s|e]; [|apply fence_running_triple].
  destruct (terminationObserved s) eqn:Ht; simpl; [|apply fence_polled_triple].
  apply settle_result_triple. by apply terminationObserved_over in Ht as [_ ?].
Qed.

Lemma expire_operation_triple X L K f op b e :
  triple (base_inv X L K (Some op) f) (expire_operation wiring op b e) (settled X L K).
Proof.
  eapply triple_bind; [apply ReconcileAmbiguous_triple|]. intros [s|e']; [|apply fence_running_triple].
  destruct (terminationObserved s) eqn:Ht; [|apply fence_polled_triple].
  eapply triple_bind; [apply settle_result_triple; by apply terminationObserved_over in Ht as [_ ?]|].
  intros r. apply triple_ret. intros m c [H _]. by apply settled_err.
Qed.

Lemma await_result_triple fuel X L K f op b :
  triple (base_inv X L K (Some op) f) (await_result wiring fuel op b) (settled X L K).
Proof.
  induction fuel as [|fuel IH]; [apply triple_still|]. simpl.
  eapply triple_bind; [apply poll_triple|]. intros [s|e]; [|apply reconcile_operation_triple].
  destruct (terminal_status (rs_Status s)) eqn:Ht.
  { assert (Hk : known_status s = true) by (unfold known_status; by rewrite Ht, orb_true_r).
    destruct (rs_Result s) eqn:Hr; [by apply settle_result_triple|].
    apply close_polled_triple, known_over; [done|by rewrite Hr]. }
  destruct (String.eqb (rs_Status s) "") eqn:He.
  { apply close_polled_triple. unfold over. by rewrite He. }
  apply (triple_conseq _ _ (base_inv X L K (Some op) f) _ _ (settled X L K)); [| |done].
  2: { intros m c (a & Hb & Ho). unfold over in Ho. rewrite He, Ht in Ho. simpl in Ho. by subst. }
  eapply triple_bind; [apply quiet_triple|].
  { by intros m c []. }
  { intros m x Hm. exact (protocol_quiet PollWait m x Hm). }
  intros [e|]; [apply expire_operation_triple|].
  eapply triple_bind; [apply on_control_keeps, PollThrottled_keeps|]. intros []. exact IH.
Qed.

Lemma coord_mono X L K K' m c : K' ⊆ K -> coord_inv X L K m c -> coord_inv X L K' m c.
Proof.
  intros HK (a & f & Hb & Ha). exists a, f. split; [|done]. destruct Hb as (? & ? & ? & ? & ? & ? & ? & ?). split_and!; try done; [..|set_solver].
Qed.

(** The entry is written: nothing else moved, and the write's fate is known. *)
Lemma begin_triple X L K op b m c :
  base_inv X L K None false m c ->
  triple (fun m' c' => m' = m /\ c' = c) (on_status (Ok tt) (BeginOperation op b))
    (fun m' c' r => base_inv X L K None false m' c' /\ stopped m' = stopped m /\ (r = Ok tt -> wired = true -> persisted m' = Some op)).
Proof.
  intros (Ho & Hs & Hst & Ha & HX & HK & HL & Hf).
  eapply triple_conseq.
  - apply (on_status_triple (Ok tt) (BeginOperation op b) m
      (fun m' r => (exists v, m' = with_persisted m v) /\ (r = Ok tt -> wired = true -> persisted m' = Some op)) c).
    + eapply triple_conseq; [by apply BeginOperation_triple|done|]. intros m' r res [Hr ->]. split; [done|].
      split; [by eexists|]. intros ->. done.
    + intros Hw _. split; [exists (persisted m); by destruct m|]. intros _ Hw'. congruence.
  - by intros ? ? [-> ->].
  - intros m' c' r [[[v ->] Hp] (o & -> & Hs')]. split; [|done]. by split_and!.
Qed.

(** The dispatch: the operation is over, or it may be running. *)
Lemma send_triple X L K op b task :
  triple (fun m c => base_inv X L K None false m c /\ (wired = true -> persisted m = Some op) /\ (b ∈ K \/ stopped m = false))
    (io (WorkerDispatch op b task))
    (fun m c r =>
       match r with
       | Err e => if definiteWorkerRejection e then base_inv X L ({[b]} ∪ K) None false m c /\ op ∈ ended_ops m
                  else base_inv X L ({[b]} ∪ K) (Some op) false m c
       | Ok _ => base_inv X L ({[b]} ∪ K) (Some op) false m c
       end).
Proof.
  apply triple_io. intros m c r ((Ho & Hs & Hst & Ha & HX & HK & HL & Hf) & Hp & Hb). pose proof Ho as [Hc Hu].
  unfold protocol. rewrite Hc, Hu. simpl. unfold step_dispatch. rewrite Ha, (bool_decide_true (@None string = None)) by done.
  assert (Hok : (negb wired || bool_decide (persisted m = Some op)) && (negb (stopped m) || bool_decide (b ∈ known m)) = true).
  { apply andb_true_iff. split.
    - destruct wired; [|done]. by rewrite Hp, bool_decide_true.
    - destruct Hb as [Hb| ->]; [|done]. rewrite (bool_decide_true (b ∈ known m)) by set_solver. apply orb_true_r. }
  rewrite andb_true_l, Hok. destruct r as [?|e]; [split_and!; try done; simpl; set_solver|].
  destruct (definiteWorkerRejection e); [|split_and!; try done; simpl; set_solver].
  unfold end_op. simpl. rewrite Ha. rewrite bool_decide_false by done. split; [|simpl; set_solver]. split_and!; try done; [|simpl; set_solver].
  unfold status_ok, rep_inv in *. destruct (c_status c); [|done].
  destruct Hs as (Hw & Hpc & Hd). split; [done|]. split; [|done]. simpl. eapply Forall_impl; [exact Hpc|]. simpl. intros x [Hx|Hx]; [left; set_solver|by right].
Qed.

Lemma settled_mono {A} X L K b m c (r : result herror A) :
  settled X L ({[b]} ∪ K) m c r -> settled X L (if accepted r then {[b]} ∪ K else K) m c r.
Proof. destruct r; [done|]. intros [H _]. apply settled_err. eapply coord_mono; [|exact H]. set_solver. Qed.

(** What an operation leaves: its work unit is known when it ran. *)
Lemma dispatchAndAwait_triple X L K op b task :
  triple (fun m c => coord_inv X L K m c /\ (b ∈ K \/ stopped m = false)) (dispatchAndAwait wiring polls op b task)
    (fun m c r => settled X L (if accepted r then {[b]} ∪ K else K) m c r).
Proof.
  unfold dispatchAndAwait. apply triple_fix. intros m c [HI Hb].
  eapply triple_bind; [apply (triple_gets _ _ _ (fun m' c' e => m' = m /\ c' = c /\ e = workerFenceErr c)); by intros ? ? [-> ->]|].
  intros fe. apply triple_fix. intros ? ? (-> & -> & ->). destruct (workerFenceErr c) as [e|] eqn:Hf.
  { apply triple_ret. intros ? ? [-> ->]. by apply settled_err. }
  assert (Hbase : base_inv X L K None false m c).
  { destruct HI as (a & f & Hbase & Ha). assert (f = false) as ->.
    { destruct Hbase as (_ & _ & _ & _ & _ & _ & _ & <-). unfold fenced. by rewrite Hf. }
    destruct Ha as [-> |]; done. }
  eapply triple_bind with (Q := fun m' c' r => base_inv X L K None false m' c' /\ (r = Ok tt -> wired = true -> persisted m' = Some op) /\
                                   (b ∈ K \/ stopped m' = false)).
  { eapply triple_conseq; [by apply (begin_triple X L K op b m c)|done|]. intros ? ? ? (? & -> & ?). auto. }
  intros [[]|err].
  2: { eapply triple_bind with (Q := fun m c _ => base_inv X L K None false m c); [|intros []; apply triple_ret; intros; by eapply settled_none].
       eapply triple_conseq; [apply observePrerequisite_triple|by intros ? ? []|done]. }
  eapply triple_bind.
  { eapply triple_conseq; [apply (send_triple X L K op b task)| |intros ? ? ? H; exact H]. intros m' c' (? & Hp & ?). auto. }
  intros [ans|err].
  - eapply triple_conseq; [apply await_result_triple|intros ? ? H; exact H|]. intros m' c' r H. by apply settled_mono.
  - destruct (definiteWorkerRejection err).
    + eapply triple_bind; [apply closeOperation_triple|]. intros []. apply triple_ret. intros m' c' H. apply settled_mono. by eapply settled_none.
    + eapply triple_conseq; [apply reconcile_operation_triple|intros ? ? H; exact H|]. intros m' c' r H. by apply settled_mono.
Qed.

(** ** Preparing the workspace *)

(** A change of the coordinator the invariant does not look at. *)
Lemma coord_modify X L K (g : Coordinator -> Coordinator) :
  (forall c, c_status (g c) = c_status c /\ c_control (g c) = c_control c /\ c_briefs (g c) = c_briefs c /\ workerFenceErr (g c) = workerFenceErr c) ->
  keeps (coord_inv X L K) (modify g).
Proof.
  intros Hg. apply keeps_modify. intros m c (a & f & Hb & Ha). exists a, f. split; [|done]. destruct (Hg c) as (H1 & H2 & H3 & H4).
  destruct Hb as (? & ? & ? & ? & ? & ? & ? & ?). unfold base_inv, fenced in *. rewrite H1, H2, H3, H4. by split_and!.
Qed.

#[local] Hint Extern 1 (HarnessLogic.keeps protocol (coord_inv _ _ _) (modify _)) =>
  apply coord_modify; intros ?; repeat case_match; done : harness.
#[local] Hint Extern 1 (HarnessLogic.keeps protocol (coord_inv _ _ _) (io ?e)) =>
  apply coord_quiet; intros; by apply (protocol_quiet e) : harness.

Lemma coord_fence X L K op e : keeps (coord_inv X L K) (fenceWorker op e).
Proof.
  apply triple_fix. intros m c (a & f & Hb & _). eapply triple_conseq; [apply (fenceWorker_triple X L K a f)|by intros ? ? [-> ->]|].
  intros m' c' []. apply base_coord.
Qed.

Lemma dispatch_keeps X L K op b task : b ∈ K -> keeps (coord_inv X L K) (dispatchAndAwait wiring polls op b task).
Proof.
  intros Hb. eapply triple_conseq; [apply (dispatchAndAwait_triple X L K op b task)|intros; split; auto|].
  intros m c r [H _]. eapply coord_mono; [|exact H]. destruct r; simpl; set_solver.
Qed.

Lemma mint_keeps X L K kind b : keeps (coord_inv X L K) (mint kind b).
Proof. unfold mint. keeps_all. Qed.

#[local] Hint Resolve coord_fence dispatch_keeps mint_keeps : harness.

Lemma bootstrap_stage_keeps X L K kind script b : b ∈ K -> keeps (coord_inv X L K) (bootstrap_stage wiring polls kind script b).
Proof. intros Hb. unfold bootstrap_stage. keeps_all. Qed.

Lemma bootstrapElapsedMs_keeps X L K t : keeps (coord_inv X L K) (bootstrapElapsedMs t).
Proof. unfold bootstrapElapsedMs. keeps_all. Qed.

Lemma recordBootstrapReceipt_keeps X L K r : keeps (coord_inv X L K) (recordBootstrapReceipt wiring r).
Proof. unfold recordBootstrapReceipt. keeps_all. Qed.

Lemma blocked_keeps X L K r : keeps (coord_inv X L K) (blocked wiring r).
Proof. unfold blocked. apply keeps_bind; [apply recordBootstrapReceipt_keeps|intros; apply keeps_ret]. Qed.

#[local] Hint Resolve bootstrap_stage_keeps bootstrapElapsedMs_keeps recordBootstrapReceipt_keeps blocked_keeps : harness.

Lemma storeBootstrapEnv_keeps X L K d : keeps (coord_inv X L K) (storeBootstrapEnv d).
Proof. unfold storeBootstrapEnv. keeps_all. Qed.
Lemma recordBootstrapBlocker_keeps X L K d : keeps (coord_inv X L K) (recordBootstrapBlocker d).
Proof. unfold recordBootstrapBlocker. keeps_all. Qed.
Lemma observePrerequisite_keeps X L K d : keeps (coord_inv X L K) (observePrerequisite d).
Proof. unfold observePrerequisite. keeps_all. Qed.
#[local] Hint Resolve storeBootstrapEnv_keeps recordBootstrapBlocker_keeps observePrerequisite_keeps : harness.

Lemma bootstrapWorkspace_keeps X L K b oid : b ∈ K -> keeps (coord_inv X L K) (bootstrapWorkspace wiring polls b oid).
Proof. intros Hb. unfold bootstrapWorkspace, capture_environment. keeps_all. Qed.
#[local] Hint Resolve bootstrapWorkspace_keeps : harness.

Lemma refuse_preparation_keeps X L K e : keeps (coord_inv X L K) (refuse_preparation e).
Proof. unfold refuse_preparation. keeps_all. Qed.
#[local] Hint Resolve refuse_preparation_keeps : harness.

Lemma settle_environment_keeps X L K b snap : b ∈ K -> keeps (coord_inv X L K) (settle_environment wiring polls b snap).
Proof. intros Hb. unfold settle_environment. keeps_all. Qed.

Lemma renderSnapshot_keeps X L K : keeps (coord_inv X L K) (renderSnapshot wiring).
Proof. unfold renderSnapshot. keeps_all. Qed.
#[local] Hint Resolve settle_environment_keeps renderSnapshot_keeps : harness.

(** A work unit that may reach the worker: it did already, or no stop was
    acknowledged yet. *)
Definition may_start (X : gset string) (L : BriefRegistry) (K : gset string) (b : string) (m : hstate) (c : Coordinator) : Prop :=
  coord_inv X L K m c /\ (b ∈ K \/ stopped m = false).

Lemma may_start_quiet {Y} (e : harnessE Y) X L K b :
  (forall m x, open m -> protocol m (Ev e x) = Some m) -> keeps (may_start X L K b) (io e).
Proof. intros He. apply quiet_triple; [|done]. intros m c [H _]. by eapply coord_open. Qed.

(** Preparation makes its work unit known. *)
Definition prepared {A} (X : gset string) (L : BriefRegistry) (K : gset string) (b : string) (ok : A -> bool) (m : hstate) (c : Coordinator) (r : A) : Prop :=
  coord_inv X L (if ok r then {[b]} ∪ K else K) m c.

Definition no_error {Er} (r : option Er) : bool := match r with None => true | Some _ => false end.

Lemma refused_prepared X L K b e : triple (may_start X L K b) (refuse_preparation e) (prepared X L K b no_error).
Proof.
  unfold refuse_preparation. eapply triple_bind with (Q := fun m c _ => coord_inv X L K m c).
  - eapply triple_conseq; [apply (observePrerequisite_keeps X L K e)|by intros ? ? []|done].
  - intros []. by apply triple_ret.
Qed.

Lemma materializeSnapshot_triple X L K b snap :
  triple (may_start X L K b) (materializeSnapshot wiring polls b snap) (prepared X L K b no_error).
Proof.
  unfold materializeSnapshot. destruct (negb (w_worker wiring)); [apply refused_prepared|].
  eapply triple_bind; [apply may_start_quiet; intros m x Hm; exact (protocol_quiet (UploadSnapshot (sn_Data snap)) m x Hm)|].
  intros [[]|e]; [|apply refused_prepared].
  eapply triple_bind with (Q := fun m c _ => may_start X L K b m c).
  { unfold mint. eapply triple_bind; [apply may_start_quiet; intros m x Hm; exact (protocol_quiet Nonce m x Hm)|]. intros z. by apply triple_ret. }
  intros op. eapply triple_bind; [apply dispatchAndAwait_triple|]. intros [v|e].
  - set (K' := {[b]} ∪ K). assert (Hb : b ∈ K') by set_solver.
    apply (triple_conseq _ _ (coord_inv X L K') _ _ (prepared X L K b no_error)); [|by intros ? ? [? _]|done].
    assert (Hrefuse : forall e, triple (coord_inv X L K') (refuse_preparation e) (prepared X L K b no_error)).
    { intros e. unfold refuse_preparation. eapply triple_bind; [apply observePrerequisite_keeps|]. intros []. apply triple_ret.
      intros m c H. eapply coord_mono; [|exact H]. unfold K'. simpl. set_solver. }
    destruct (negb _); [apply Hrefuse|]. destruct (negb _); [apply Hrefuse|].
    eapply triple_bind; [by apply settle_environment_keeps|]. intros [e|].
    + apply triple_ret. intros m c H. eapply coord_mono; [|exact H]. unfold K'. simpl. set_solver.
    + eapply triple_bind with (Q := fun m c _ => coord_inv X L K' m c); [|intros []; by apply triple_ret].
      eapply coord_modify. by intros c.
  - unfold refuse_preparation. eapply triple_bind with (Q := fun m c _ => coord_inv X L K m c); [|intros []; by apply triple_ret].
    eapply triple_conseq; [apply (observePrerequisite_keeps X L K e)|by intros ? ? []|done].
Qed.

Lemma materializeSnapshot_keeps X L K b snap : b ∈ K -> keeps (coord_inv X L K) (materializeSnapshot wiring polls b snap).
Proof.
  intros Hb. eapply triple_conseq; [apply (materializeSnapshot_triple X L K b snap)|intros; split; auto|].
  intros m c r H. eapply coord_mono; [|exact H]. destruct r; simpl; set_solver.
Qed.

Lemma prepareSnapshot_triple X L K b :
  triple (may_start X L K b) (prepareSnapshot wiring polls b) (prepared X L K b accepted).
Proof.
  unfold prepareSnapshot, renderSnapshot. destruct (negb (w_snapshot wiring)).
  { eapply triple_bind with (Q := fun m c r => coord_inv X L K m c /\ accepted r = false).
    - eapply triple_bind with (Q := fun m c _ => coord_inv X L K m c).
      + eapply triple_conseq; [apply (observePrerequisite_keeps X L K)|by intros ? ? []|done].
      + intros []. by apply triple_ret.
    - intros [snap|e]; [by intros m c []|]. apply triple_ret. by intros m c []. }
  eapply triple_bind with (Q := fun m c r => match r with Ok _ => may_start X L K b m c | Err _ => coord_inv X L K m c end).
  - eapply triple_bind; [apply may_start_quiet; intros m x Hm; exact (protocol_quiet SnapshotRequest m x Hm)|]. intros [s|e].
    + by apply triple_ret.
    + eapply triple_bind with (Q := fun m c _ => coord_inv X L K m c); [|intros []; by apply triple_ret].
      eapply triple_conseq; [apply (observePrerequisite_keeps X L K)|by intros ? ? []|done].
  - intros [snap|e]; [|by apply triple_ret]. eapply triple_bind; [apply materializeSnapshot_triple|]. intros [e|]; by apply triple_ret.
Qed.

Lemma prepareSnapshot_keeps X L K b : b ∈ K -> keeps (coord_inv X L K) (prepareSnapshot wiring polls b).
Proof.
  intros Hb. eapply triple_conseq; [apply (prepareSnapshot_triple X L K b)|intros; split; auto|].
  intros m c r H. eapply coord_mono; [|exact H]. destruct r; simpl; set_solver.
Qed.
#[local] Hint Resolve materializeSnapshot_keeps prepareSnapshot_keeps : harness.

Lemma ensureSnapshot_keeps X L K : "control" ∈ K -> keeps (coord_inv X L K) (ensureSnapshot wiring polls).
Proof. intros Hc. unfold ensureSnapshot. keeps_all. Qed.
#[local] Hint Resolve ensureSnapshot_keeps : harness.

(** ** Sessions and tools *)

Lemma heartbeat_keeps X L K kind : keeps (coord_inv X L K) (on_status tt (recordHeartbeat kind)).
Proof.
  apply triple_fix. intros m c (a & f & Hb & Ha).
  eapply triple_conseq; [apply (on_status_same tt (recordHeartbeat kind) X L K a f (fun _ => True))| |].
  - intros m0 Hm _. by apply recordHeartbeat_triple.
  - by intros ? ? [-> ->].
  - intros m' c' [] [H _]. by exists a, f.
Qed.

Lemma in_session_keeps {A} X L K (p : prog sessionE A) : keeps (coord_inv X L K) (in_session p).
Proof. apply triple_interp. intros Y e. destruct e; [..|apply heartbeat_keeps|]; apply coord_quiet; intros m x Hm; exact (protocol_quiet (InSession _) m x Hm). Qed.

Context {EB : ErrorBody} {TC : ToolCodec} (skills : option SkillSet) (turns : nat).

Lemma run_calls_keeps I (tool : ToolCall -> M ToolResult) b session calls rs :
  (forall call, keeps I (tool call)) -> keeps I takeDeferredAvailability -> keeps I takeBootstrapBlocker ->
  (forall l, keeps I (modify (fun c => set_prerequisite c l))) ->
  keeps I (run_calls tool b session calls rs).
Proof.
  intros H1 H2 H3 H4. revert session rs. induction calls as [|call rest IH]; intros session rs; simpl; [apply keeps_ret|].
  apply keeps_bind; [apply H1|]. intros r. destruct (String.eqb b "").
  - apply keeps_bind; [exact H2|]. intros [e|]; [apply keeps_ret|]. apply keeps_bind; [exact H3|]. intros [e|]; [apply keeps_ret|].
    apply keeps_bind; [apply keeps_gets|]. intros l. destruct (take_trip l) as [l' failure]. apply keeps_bind; [apply H4|]. intros [].
    destruct failure as [f|]; [destruct (String.eqb _ _); apply keeps_ret|apply IH].
  - apply keeps_bind; [apply keeps_gets|]. intros l. destruct (peek l); [apply keeps_ret|apply IH].
Qed.

Lemma pump_keeps I (tool : ToolCall -> M ToolResult) b session tools :
  (forall A (p : prog sessionE A), keeps I (in_session p)) -> (forall call, keeps I (tool call)) ->
  keeps I takeDeferredAvailability -> keeps I takeBootstrapBlocker -> (forall l, keeps I (modify (fun c => set_prerequisite c l))) ->
  keeps I (pump tool b session tools).
Proof.
  intros H0 H1 H2 H3 H4. unfold pump. apply keeps_bind; [apply H0|]. intros [[session' ce]|e]; [|apply keeps_ret].
  apply keeps_bind; [apply H0|]. intros events. destruct (read_events events no_events) as [te|e]; [|apply keeps_ret].
  destruct (te_final te); [apply keeps_ret|]. destruct (te_calls te); [apply keeps_ret|]. by apply run_calls_keeps.
Qed.

Lemma takeDeferred_keeps X L K : keeps (coord_inv X L K) takeDeferredAvailability.
Proof. unfold takeDeferredAvailability. keeps_all. Qed.
Lemma takeBootstrap_keeps X L K : keeps (coord_inv X L K) takeBootstrapBlocker.
Proof. unfold takeBootstrapBlocker. keeps_all. Qed.
Lemma set_prerequisite_keeps X L K l : keeps (coord_inv X L K) (modify (fun c => set_prerequisite c l)).
Proof. keeps_all. Qed.

Lemma shell_workspace_keeps X L K b : b ∈ K -> "control" ∈ K -> keeps (coord_inv X L K) (shell_workspace wiring polls b).
Proof. intros Hb Hc. unfold shell_workspace. keeps_all. Qed.
#[local] Hint Resolve shell_workspace_keeps : harness.

Lemma runShell_keeps X L K call b r : b = "" \/ b ∈ K -> "control" ∈ K -> keeps (coord_inv X L K) (runShell wiring polls call b r).
Proof.
  intros Hb Hc. unfold runShell. set (b' := if String.eqb b "" then "control" else b).
  assert (Hb' : b' ∈ K) by (unfold b'; destruct (String.eqb_spec b ""); [done|by destruct Hb]).
  clearbody b'. cbv zeta. keeps_all.
Qed.
#[local] Hint Resolve runShell_keeps : harness.

(** A delegated session reaches the worker through its shell, and nothing else. *)
Lemma subagent_tool_keeps X L K b call :
  b <> "" -> b ∈ K -> "control" ∈ K -> keeps (coord_inv X L K) (subagent_tool wiring skills polls b call).
Proof.
  intros Hne Hb Hc. unfold subagent_tool, runTool. apply String.eqb_neq in Hne. rewrite Hne. cbn [negb].
  repeat (destruct (String.eqb (tc_Name call) _); [by auto with harness|]). apply keeps_ret.
Qed.

Lemma brief_turns_keeps X L K fuel brief session :
  b_ID brief <> "" -> b_ID brief ∈ K -> "control" ∈ K ->
  keeps (coord_inv X L K) (brief_turns wiring skills polls fuel brief session).
Proof.
  intros Hne Hb Hc. revert session. induction fuel as [|fuel IH]; intros session; simpl; [apply keeps_still|].
  apply keeps_bind; [apply keeps_gets|]. intros [why|]; [apply keeps_ret|].
  apply keeps_bind.
  { apply pump_keeps; [intros; apply in_session_keeps|intros; by apply subagent_tool_keeps|apply takeDeferred_keeps|apply takeBootstrap_keeps|apply set_prerequisite_keeps]. }
  intros [session' turn]. apply keeps_bind; [apply keeps_gets|]. intros [why|]; [apply keeps_ret|].
  keeps_all.
Qed.

Lemma runBrief_keeps X L K brief :
  b_ID brief <> "" -> b_ID brief ∈ K -> "control" ∈ K -> keeps (coord_inv X L K) (runBrief wiring skills polls turns brief).
Proof. intros. unfold runBrief. destruct (newSession _ _); [by apply brief_turns_keeps|apply keeps_ret]. Qed.

(** ** Delegation *)

(** The run at a turn boundary: every integrated brief is in the ledger. *)
Definition top_inv (m : hstate) (c : Coordinator) : Prop :=
  exists X L, coord_inv X L {["control"]} m c /\ X ⊆ dom (briefs L).

Lemma keeps_top {A} (p : M A) : (forall X L, keeps (coord_inv X L {["control"]}) p) -> keeps top_inv p.
Proof.
  intros Hp m c (X & L & HI & HX). eapply mon_mono; [|exact (Hp X L m c HI)]. intros m' [c' a] H. by exists X, L.
Qed.

(** A change of the ledger that keeps its briefs. *)
Lemma ledger_keeps (g : Coordinator -> BriefRegistry) :
  (forall c, dom (briefs (g c)) = dom (briefs (c_briefs c))) -> keeps top_inv (modify (fun c => set_c_briefs c (g c))).
Proof.
  intros Hg. apply keeps_modify. intros m c (X & L & (a & f & Hb & Ha) & HX). exists X, (g c).
  destruct Hb as (? & ? & ? & ? & ? & ? & HL & ?). split; [exists a, f; split; [by split_and!|done]|]. by rewrite Hg, HL.
Qed.

Lemma dom_RecordResult L id su co : dom (briefs (RecordResult L id su co)) = dom (briefs L).
Proof. unfold RecordResult. by destruct (briefs L !! id). Qed.
Lemma dom_MarkTerminal L id : dom (briefs (MarkTerminal L id)) = dom (briefs L).
Proof. unfold MarkTerminal. by destruct (briefs L !! id). Qed.

Lemma checkpoint_keeps X L K c l : keeps (coord_inv X L K) (on_status (Ok tt) (CheckpointPublished c l)).
Proof.
  apply triple_fix. intros m co (a & f & (Ho & Hs & Hst & Ha & HX & HK & HL & Hf) & Haf).
  eapply triple_conseq; [apply (on_status_triple (Ok tt) (CheckpointPublished c l) m (fun m' _ => exists v, m' = with_owed m v) co)| |].
  - eapply triple_conseq; [by apply CheckpointPublished_triple|done|]. intros m' r res [H ->]. split; [done|by eexists].
  - intros _ Hw. exists false. by rewrite with_owed_same.
  - by intros ? ? [-> ->].
  - intros m' c' r [[v ->] (o & -> & Hs')]. exists a, f. split; [|done]. by split_and!.
Qed.

Lemma record_brief_keeps brief i out r : keeps top_inv (record_brief brief i out r).
Proof.
  unfold record_brief. apply keeps_bind; [apply ledger_keeps; intros c; apply dom_RecordResult|]. intros [].
  apply keeps_bind; [apply keeps_gets|]. intros [st|]; [|apply keeps_ret].
  apply keeps_bind; [apply keeps_gets|]. intros L. apply keeps_bind; [apply keeps_top; intros; apply checkpoint_keeps|].
  intros [[]|e]; apply keeps_ret.
Qed.

(** A brief is integrated once; a change is published at once. *)
Lemma integrate_triple X L K req :
  ir_BriefID req ∈ K -> ir_BriefID req ∉ X ->
  triple (fun m c => coord_inv X L K m c /\ active m = None)
    (integration ←! io (IntegrateRequest req);
     if negb (Changed integration) then mret (Ok integration) else _ ←! io PublishRequest; mret (Ok integration))
    (fun m c _ => exists X', coord_inv X' L K m c /\ X' ⊆ {[ir_BriefID req]} ∪ X).
Proof.
  intros HbK HbX.
  eapply triple_or_return with (Q := fun m c r =>
    match r with
    | Ok i => exists a f m0, base_inv X L K a f m0 c /\ (a = None \/ f = true) /\
                m = with_unpublished (with_integrated m0 ({[ir_BriefID req]} ∪ X)) (Changed i)
    | Err _ => exists X', coord_inv X' L K m c /\ X' ⊆ {[ir_BriefID req]} ∪ X
    end).
  - apply triple_io. intros m c r [(a & f & Hb & Haf) Hact]. pose proof Hb as (Ho & Hs & Hst & Ha & HX & HK & HL & Hf). destruct Ho as [Hc Hu].
    unfold protocol. rewrite Hc, Hu. simpl. unfold step_integrate. rewrite HX, Hact.
    rewrite (bool_decide_true (ir_BriefID req ∉ X)), (bool_decide_true (ir_BriefID req ∈ known m)), (bool_decide_true (None = None)) by set_solver. simpl.
    destruct r as [i|e]; [by exists a, f, m|]. exists ({[ir_BriefID req]} ∪ X). split; [|done]. exists a, f. split; [|done]. by split_and!.
  - intros i. destruct (Changed i); simpl.
    + eapply triple_or_return with (Q := fun m c _ => exists X', coord_inv X' L K m c /\ X' ⊆ {[ir_BriefID req]} ∪ X); [|by intros; apply triple_ret|done].
      apply triple_io. intros m c r (a & f & m0 & Hb & Haf & ->). destruct Hb as (Ho & Hs & Hst & Ha & HX & HK & HL & Hf). pose proof Ho as [Hc Hu].
      unfold protocol. simpl. rewrite Hc. simpl. exists ({[ir_BriefID req]} ∪ X). split; [|done]. exists a, f. split; [|done]. by split_and!.
    + apply triple_ret. intros m c (a & f & m0 & Hb & Haf & ->). destruct Hb as (Ho & Hs & Hst & Ha & HX & HK & HL & Hf). destruct Ho as [Hc Hu].
      exists ({[ir_BriefID req]} ∪ X). split; [|done]. exists a, f. split; [|done]. by split_and!.
  - done.
Qed.

Lemma packAndIntegrate_triple X L K brief tip su :
  b_ID brief ∈ K -> b_ID brief ∉ X ->
  triple (coord_inv X L K) (packAndIntegrate wiring polls brief tip su)
    (fun m c _ => exists X', coord_inv X' L K m c /\ X' ⊆ {[b_ID brief]} ∪ X).
Proof.
  intros HK HX. assert (Hsame : forall m c, coord_inv X L K m c -> exists X', coord_inv X' L K m c /\ X' ⊆ {[b_ID brief]} ∪ X).
  { intros m c H. exists X. split; [done|set_solver]. }
  unfold packAndIntegrate. destruct (negb (w_publisher wiring)); [apply triple_ret; exact Hsame|].
  eapply triple_bind; [apply mint_keeps|]. intros op.
  eapply triple_or_return with (Q := fun m c r => coord_inv X L K m c /\ (accepted r = true -> active m = None)).
  - eapply triple_conseq; [apply (dispatchAndAwait_triple X L K)|intros; split; auto|]. intros m c r [H Ha]. split; [|done].
    eapply coord_mono; [|exact H]. destruct r; simpl; set_solver.
  - intros w. destruct (negb (wr_ExitCode w =? 0)); [apply triple_ret; intros m c [H _]; by apply Hsame|].
    destruct (String.eqb (Artifact w) ""); [apply triple_ret; intros m c [H _]; by apply Hsame|].
    eapply triple_conseq; [by apply (integrate_triple X L K)|intros m c [H Ha]; auto|intros ? ? ? H; exact H].
  - intros m c e [H _]. by apply Hsame.
Qed.

Lemma delegate_registered_triple X L brief r :
  b_ID brief <> "" -> b_ID brief ∉ X -> X ⊆ dom (briefs L) -> b_ID brief ∈ dom (briefs L) ->
  triple (fun m c => coord_inv X L {["control"]} m c /\ stopped m = false) (delegate_registered wiring skills polls turns brief r) (fun m c _ => top_inv m c).
Proof.
  intros Hne HbX HX HbL. set (K := {[b_ID brief]} ∪ {["control"]} : gset string).
  assert (Htop : forall m c, coord_inv X L K m c -> top_inv m c).
  { intros m c H. exists X, L. split; [|done]. eapply coord_mono; [|exact H]. unfold K. set_solver. }
  unfold delegate_registered.
  eapply triple_bind with (Q := fun m c res => match res with Ok _ => coord_inv X L K m c | Err _ => top_inv m c end).
  { eapply triple_conseq; [apply (prepareSnapshot_triple X L {["control"]} (b_ID brief))|intros m c [H1 H2]; split; auto|].
    intros m c [tip|e] H; [exact H|by exists X, L]. }
  intros [tip|e]; [|by apply triple_ret].
  eapply triple_bind; [apply runBrief_keeps; [done|unfold K; set_solver..]|].
  intros [su|su|e].
  - eapply triple_bind; [apply (packAndIntegrate_triple X L K); [unfold K; set_solver|done]|].
    assert (Htop' : forall m c, (exists X', coord_inv X' L K m c /\ X' ⊆ {[b_ID brief]} ∪ X) -> top_inv m c).
    { intros m c (X' & H & HX'). exists X', L. split; [eapply coord_mono; [|exact H]; unfold K; set_solver|set_solver]. }
    intros [i|e]; [|apply triple_ret; by intros m c ?%Htop'].
    eapply triple_conseq; [apply record_brief_keeps|intros m c H; by apply Htop'|done].
  - apply triple_ret. intros m c H. by apply Htop.
  - eapply triple_bind with (Q := fun m c _ => coord_inv X L K m c); [|intros []; apply triple_ret; intros m c H; by apply Htop].
    apply coord_modify. intros c. by case_match.
Qed.

Lemma Validate_id brief : Validate brief = None -> b_ID brief <> "".
Proof. unfold Validate. repeat (case_match; [done|]). intros _ He. rewrite He in *. done. Qed.

Lemma runDelegate_keeps call r : keeps top_inv (runDelegate wiring skills polls turns call r).
Proof.
  unfold runDelegate. apply triple_fix. intros m c (X & L & HI & HX).
  eapply triple_bind; [apply (triple_gets _ _ _ (fun m' c' s => m' = m /\ c' = c /\ s = Stopped (c_control c))); by intros ? ? [-> ->]|].
  intros st. apply triple_fix. intros ? ? (-> & -> & ->).
  assert (Hret : forall r', triple (fun m' c' => m' = m /\ c' = c) (mret r' : M ToolResult) (fun m c _ => top_inv m c)).
  { intros r'. apply triple_ret. intros ? ? [-> ->]. by exists X, L. }
  destruct (Stopped (c_control c)) eqn:Hst; [apply Hret|].
  destruct (decode_delegate (tc_Arguments call)) as [brief|]; [|apply Hret].
  destruct (Validate brief) eqn:Hv; [apply Hret|]. destruct (String.eqb _ _); [apply Hret|].
  assert (Hfacts : c_briefs c = L /\ stopped m = false).
  { destruct HI as (a & f & (Ho & Hs & Hstop & Ha & HX' & HK & HL & Hf) & Haf). by rewrite Hstop. }
  destruct Hfacts as [HL Hm].
  eapply triple_bind; [apply (triple_gets _ _ _ (fun m' c' s => m' = m /\ c' = c /\ s = L)); by intros ? ? [-> ->]|].
  intros L0. apply triple_fix. intros ? ? (-> & -> & ->).
  unfold Register. rewrite Hv. destruct (briefs L !! b_ID brief) eqn:Hb; [apply Hret|].
  set (L' := {| briefs := _ |}).
  eapply triple_bind with (Q := fun m' c' _ => coord_inv X L' {["control"]} m' c' /\ stopped m' = false).
  { apply triple_modify. intros ? ? [-> ->]. split; [|done]. destruct HI as (a & f & (Ho & Hs & Hstop & Ha & HX' & HK & HL' & Hf) & Haf).
    exists a, f. split; [|done]. by split_and!. }
  intros []. eapply triple_bind.
  { apply (delegate_registered_triple X L').
    - by apply Validate_id.
    - intros Hin. apply HX, elem_of_dom in Hin as [? Hin]. congruence.
    - simpl. rewrite dom_insert. set_solver.
    - simpl. rewrite dom_insert. set_solver. }
  intros r'. eapply triple_bind; [apply ledger_keeps; intros ?; apply dom_MarkTerminal|]. intros []. by apply triple_ret.
Qed.

(** ** The coordinator's own tools *)

Lemma claim_check_keeps X L K key force : keeps (coord_inv X L K) (claim_check key force).
Proof.
  unfold claim_check. apply keeps_bind; [apply keeps_gets|]. intros checks. destruct (claim checks key force). keeps_all.
Qed.
#[local] Hint Resolve claim_check_keeps : harness.

Lemma fresh_check_keeps X L K command key snap r :
  "control" ∈ K -> keeps (coord_inv X L K) (fresh_check wiring polls "control" command key snap r).
Proof. intros Hc. unfold fresh_check, complete_check. keeps_all. Qed.
#[local] Hint Resolve fresh_check_keeps : harness.

Lemma check_loop_keeps X L K fuel command key snap force r :
  "control" ∈ K -> keeps (coord_inv X L K) (check_loop wiring polls fuel "control" command key snap force r).
Proof.
  intros Hc. revert force. induction fuel as [|fuel IH]; intros force; simpl; [apply keeps_still|].
  apply keeps_bind; [auto with harness|]. intros o. keeps_all.
Qed.
#[local] Hint Resolve check_loop_keeps : harness.

Lemma runCheck_keeps X L K call r : "control" ∈ K -> keeps (coord_inv X L K) (runCheck wiring polls call "" r).
Proof. intros Hc. unfold runCheck. cbn [String.eqb]. cbv zeta. keeps_all. Qed.

Lemma runForge_keeps X L K call r : keeps (coord_inv X L K) (runForge wiring call r).
Proof. unfold runForge. keeps_all. Qed.

Lemma dom_Cancel L id L' : Cancel L id = Ok L' -> dom (briefs L') = dom (briefs L).
Proof. unfold Cancel. intros H. by case_match; simplify_eq. Qed.

Lemma runCancelBrief_keeps call r : keeps top_inv (runCancelBrief call r).
Proof.
  unfold runCancelBrief. destruct (decode_cancel _) as [id|]; [|apply keeps_ret]. destruct (String.eqb _ _); [apply keeps_ret|].
  apply triple_fix. intros m c (X & L & HI & HX).
  eapply triple_bind; [apply (triple_gets _ _ _ (fun m' c' l => m' = m /\ c' = c /\ l = c_briefs c)); by intros ? ? [-> ->]|].
  intros ledger. apply triple_fix. intros ? ? (-> & -> & ->).
  destruct (Cancel (c_briefs c) id) as [L'|e] eqn:Hc; [|apply triple_ret; intros ? ? [-> ->]; by exists X, L].
  eapply triple_bind; [apply (triple_modify _ _ _ (fun m c _ => top_inv m c))|intros []; by apply triple_ret].
  intros ? ? [-> ->]. destruct HI as (a & f & (? & ? & ? & ? & ? & ? & HL & ?) & Haf). exists X, L'.
  split; [exists a, f; split; [by split_and!|done]|]. rewrite (dom_Cancel _ _ _ Hc). by rewrite HL.
Qed.

(** Every tool of the coordinator, delegation included. *)
Lemma runTool_keeps call : keeps top_inv (runTool wiring skills polls (runDelegate wiring skills polls turns) "" call).
Proof.
  unfold runTool. cbn [String.eqb negb].
  destruct (String.eqb (tc_Name call) toolShell); [apply keeps_top; intros; apply runShell_keeps; [by left|set_solver]|].
  destruct (String.eqb (tc_Name call) toolCheck); [apply keeps_top; intros; apply runCheck_keeps; set_solver|].
  destruct (String.eqb (tc_Name call) toolDelegate); [apply runDelegate_keeps|].
  destruct (String.eqb (tc_Name call) toolCancelBrief); [apply runCancelBrief_keeps|].
  destruct (String.eqb (tc_Name call) toolForge); [apply keeps_top; intros; apply runForge_keeps|].
  destruct (String.eqb (tc_Name call) toolSkill); apply keeps_ret.
Qed.

(** ** A turn of the run *)

Lemma poll_control_keeps : keeps top_inv (on_control Poll).
Proof.
  apply keeps_top. intros X L. apply triple_fix. intros m c (a & f & Hb & Haf).
  eapply triple_conseq; [apply (on_control_keeps X L {["control"]} a f Poll); intros; by apply Poll_keeps|by intros ? ? [-> ->]|].
  intros m' c' [] H. by exists a, f.
Qed.

Lemma take_control_turn_keeps session : keeps top_inv (take_control_turn session).
Proof.
  apply keeps_top. intros X L. unfold take_control_turn. apply triple_fix. intros m c HI.
  eapply triple_bind; [apply (triple_gets _ _ _ (fun m' c' w => m' = m /\ c' = c /\ w = c_control c)); by intros ? ? [-> ->]|].
  intros w. apply triple_fix. intros ? ? (-> & -> & ->).
  destruct (c_control c) as [w|] eqn:Hw; [|apply triple_ret; by intros ? ? [-> ->]].
  destruct (TakeControlTurn w) as [w' note] eqn:Ht.
  eapply triple_bind; [apply (triple_modify _ _ _ (fun m c _ => coord_inv X L {["control"]} m c))|intros []; by apply triple_ret].
  intros ? ? [-> ->]. destruct HI as (a & f & (? & ? & Hst & ? & ? & ? & ? & ?) & Haf). exists a, f. split; [|done].
  split_and!; try done. rewrite Hst, Hw. unfold TakeControlTurn in Ht. destruct (injections w); simplify_eq/=; done.
Qed.

Lemma turn_keeps session :
  keeps top_inv (pump (runTool wiring skills polls (runDelegate wiring skills polls turns) "") "" session (coordinatorTools wiring skills)).
Proof.
  apply pump_keeps.
  - intros. apply keeps_top. intros. apply in_session_keeps.
  - apply runTool_keeps.
  - apply keeps_top. intros. apply takeDeferred_keeps.
  - apply keeps_top. intros. apply takeBootstrap_keeps.
  - intros l. apply keeps_top. intros. apply set_prerequisite_keeps.
Qed.

(** ** Endings *)

(** Everything an ending depends on. *)
Definition quiet (b : bool) (m : hstate) (c : Coordinator) : Prop := open m /\ status_ok m (c_status c) /\ stopped m = b.

Lemma top_quiet m c : top_inv m c -> quiet (Stopped (c_control c)) m c.
Proof. intros (X & L & (a & f & (? & ? & ? & _) & _) & _). by split_and!. Qed.

(** What a result claims is so: published when the last publication was
    accepted, no claim about the work while a completed brief's record is owed,
    and after a stop only the observed work ref decides. *)
Definition truthful (m : hstate) (r : HarnessResult) : Prop :=
  (hr_Kind r = NativeResultPublished <-> closing m = Some true) /\
  (hr_Kind r = NativeResultPublished \/ hr_Kind r = NativeResultNoChange \/ hr_Kind r = NativeResultNeedsHuman -> owed m = false) /\
  (hr_Kind r = NativeResultNoChange \/ hr_Kind r = NativeResultNeedsHuman -> closing m = None) /\
  (stopped m = true -> hr_Kind r <> NativeResultNeedsHuman /\ (hr_Kind r = NativeResultNoChange -> anchor m = Some false)).

(** A result that claims nothing. *)
Definition dull (r : HarnessResult) : Prop :=
  hr_Kind r <> NativeResultPublished /\ hr_Kind r <> NativeResultNoChange /\ hr_Kind r <> NativeResultNeedsHuman.

Lemma dull_truthful m r : closing m <> Some true -> dull r -> truthful m r.
Proof. intros Hc (H1 & H2 & H3). split; [done|]. split; [intuition done|]. split; [intuition done|]. intros _. split; [done|]. intros ?. done. Qed.

Lemma quiet_dull b m c r : quiet b m c -> dull r -> truthful m r.
Proof. intros ([Hc _] & _) Hr. apply dull_truthful; [by rewrite Hc|done]. Qed.

Lemma dull_ret b r : dull r -> triple (quiet b) (mret r) (fun m _ r => truthful m r).
Proof. intros Hr. apply triple_ret. intros m c H. by eapply quiet_dull. Qed.

Lemma on_status_quiet {A} (none : A) (p : Rep A) b (R : hstate -> A -> Prop) :
  (forall m0, open m0 -> triple (at_state m0 rep_inv) p (fun m r a => rep_inv m r /\ exists v, m = with_owed m0 v /\ R m a)) ->
  (forall m0, owed m0 = false -> R m0 none) ->
  triple (quiet b) (on_status none p) (fun m c a => quiet b m c /\ R m a).
Proof.
  intros Hp Hn. apply triple_fix. intros m c (Ho & Hs & Hst).
  eapply triple_conseq; [apply (on_status_triple none p m (fun m' a => exists v, m' = with_owed m v /\ R m' a) c)| |].
  - by apply Hp.
  - intros _ Hw. exists false. rewrite with_owed_same by done. auto.
  - by intros ? ? [-> ->].
  - intros m' c' a [(v & -> & HR) (o & -> & Hs')]. split; [|done]. by split_and!.
Qed.

Lemma Flush_triple m0 : open m0 -> triple (at_state m0 rep_inv) Flush (fun m r _ => at_state m0 rep_inv m r).
Proof.
  intros Hm. unfold Flush. eapply triple_bind; [by apply flushPendingClears_triple|]. intros [].
  eapply triple_bind; [apply (triple_gets _ _ _ (fun m r _ => at_state m0 rep_inv m r)); done|]. intros [|]; by apply triple_ret.
Qed.

(** A settled run owes no record. *)
Lemma settleStatus_triple b :
  triple (quiet b) settleStatus (fun m c r => quiet b m c /\ (r = None -> owed m = false)).
Proof.
  unfold settleStatus. eapply triple_bind with (Q := fun m c _ => quiet b m c).
  - eapply triple_conseq; [apply (on_status_quiet (Ok tt) Flush b (fun _ _ => True))|done|by intros ? ? ? []]; [|done].
    intros m0 Hm. eapply triple_conseq; [by apply Flush_triple|done|]. intros m r a [-> H]. split; [done|]. exists (owed m0). by rewrite with_owed_same.
  - intros _. eapply triple_bind.
    + apply (on_status_quiet (Ok tt) ReconcileDebt b (fun m r => accepted r = true -> owed m = false)); [|done].
      intros m0 Hm. eapply triple_conseq; [by apply ReconcileDebt_triple|done|]. intros m r res [Hr ->]. split; [done|].
      destruct res; simpl; [by exists false|]. exists (owed m0). by rewrite with_owed_same.
    + intros [u|e]; apply triple_ret; intros m c [H HR]; split; auto. done.
Qed.

Lemma settled_ending_triple b r : dull r -> triple (quiet b) (settled_ending r) (fun m _ r => truthful m r).
Proof.
  intros Hr. unfold settled_ending. eapply triple_bind; [apply settleStatus_triple|].
  intros [e|]; (eapply triple_conseq; [apply (dull_ret b)|by intros m c []|done]); done.
Qed.

Lemma availability_dull e r : availabilityEnding e = Some r -> dull r.
Proof. unfold availabilityEnding. intros H. repeat case_match; by simplify_eq. Qed.

Lemma streamEnding_triple b e : triple (quiet b) (streamEnding wiring e) (fun m _ r => truthful m r).
Proof.
  unfold streamEnding. destruct (availabilityEnding e) as [r|] eqn:Hr; [|by apply dull_ret].
  apply availability_dull in Hr. destruct (String.eqb _ _); [|by apply dull_ret]. destruct (negb _); [by apply dull_ret|].
  eapply triple_bind; [apply (quiet_triple CapacityWorkspaceSafety (quiet b))|].
  - by intros m c [].
  - intros m x Hm. exact (protocol_quiet CapacityWorkspaceSafety m x Hm).
  - intros [ev|e']; by apply dull_ret.
Qed.

(** The last publication. *)
Definition closed_by (b : bool) (m : hstate) (r : result herror Publication) : Prop :=
  closing m = Some (accepted r) /\ owed m = false /\ stopped m = b.

Lemma publish_triple b :
  triple (fun m c => quiet b m c /\ owed m = false) (io PublishRequest) (fun m _ r => closed_by b m r).
Proof. apply triple_io. intros m c r [([Hc Hu] & _ & Hs) Ho]. unfold protocol. rewrite Hc, Hu. done. Qed.

Lemma published_ret b (p : Publication) outcome reason :
  triple (fun m (_ : Coordinator) => closed_by b m (Ok p)) (mret (ended NativeResultPublished outcome reason)) (fun m _ r => truthful m r).
Proof. apply triple_ret. intros m c (Hc & Ho & _). split; [done|]. split; [done|]. split; [by intros [|]|]. intros _. by split. Qed.

Lemma unpublished_ret b e r :
  dull r -> triple (fun m (_ : Coordinator) => closed_by b m (Err e)) (mret r) (fun m _ r => truthful m r).
Proof. intros Hr. apply triple_ret. intros m c (Hc & _). apply dull_truthful; [by rewrite Hc|done]. Qed.

Lemma quiet_settled_dull b r : dull r -> triple (fun m c => quiet b m c /\ owed m = false) (mret r) (fun m _ r => truthful m r).
Proof. intros Hr. eapply triple_conseq; [by apply (dull_ret b)|by intros ? ? []|done]. Qed.

Lemma finish_changes_triple b :
  triple (fun m c => quiet b m c /\ owed m = false) (finish_changes wiring) (fun m _ r => truthful m r).
Proof.
  unfold finish_changes. destruct (negb _); [by apply quiet_settled_dull|].
  eapply triple_bind; [apply publish_triple|]. intros [p|e]; [by apply published_ret|].
  destruct (errors_is _ e); [by apply unpublished_ret|]. destruct (errors_as _ e); by apply unpublished_ret.
Qed.

Lemma soft_stop_publish_triple b :
  triple (fun m c => quiet b m c /\ owed m = false) (soft_stop_publish wiring) (fun m _ r => truthful m r).
Proof.
  unfold soft_stop_publish. destruct (negb _); [by apply quiet_settled_dull|].
  eapply triple_bind; [apply publish_triple|]. intros [p|e]; [by apply published_ret|].
  destruct (errors_as _ e); by apply unpublished_ret.
Qed.

(** A declaration is settled before it is believed. *)
Lemma finish_triple outcome summary nc :
  triple (quiet false) (finish wiring outcome summary nc) (fun m _ r => truthful m r).
Proof.
  unfold finish. eapply triple_bind; [apply settleStatus_triple|].
  intros [e|]; [eapply triple_conseq; [by apply (dull_ret false (infra_failed e))|by intros ? ? []|done]|].
  apply (triple_conseq _ _ (fun m c => quiet false m c /\ owed m = false) _ _ (fun m _ r => truthful m r)); [|intros m c [H Ho]; auto|done].
  destruct (String.eqb outcome OutcomeChanges); [apply finish_changes_triple|].
  destruct (_ || _); [|by apply quiet_settled_dull].
  apply triple_ret. intros m c [([Hc Hu] & _ & Hs) Ho]. unfold truthful. simpl. rewrite Hc, Hs.
  by destruct (String.eqb outcome OutcomeNeedsDecision), (String.eqb outcome OutcomeBlockedExternal).
Qed.

(** A soft stop ends by what the work ref holds. *)
Lemma finishSoftStop_triple b : triple (quiet b) (finishSoftStop wiring) (fun m _ r => truthful m r).
Proof.
  unfold finishSoftStop. eapply triple_bind; [apply (quiet_triple (ContextErr false) (quiet b))|].
  { by intros m c []. }
  { intros m x Hm. exact (protocol_quiet (ContextErr false) m x Hm). }
  intros [e|]; [by apply dull_ret|]. eapply triple_bind; [apply settleStatus_triple|].
  intros [e|]; [eapply triple_conseq; [by apply (dull_ret b (infra_failed e))|by intros ? ? []|done]|].
  apply (triple_conseq _ _ (fun m c => quiet b m c /\ owed m = false) _ _ (fun m _ r => truthful m r)); [|intros m c [H Ho]; auto|done].
  destruct (negb _); [by apply quiet_settled_dull|].
  eapply triple_bind with (Q := fun m c r => quiet b m c /\ owed m = false /\ (forall v, r = Ok v -> anchor m = Some v)).
  { apply triple_io. intros m c r [([Hc Hu] & Hs & Hst) Ho]. unfold protocol. rewrite Hc, Hu. simpl.
    destruct r as [v|e]; (split; [by split_and!|]); (split; [done|]); [by intros ? [= ->]|done]. }
  intros [[|]|e].
  - eapply triple_conseq; [apply (soft_stop_publish_triple b)|intros m c (H & Ho & _); by split|done].
  - apply triple_ret. intros m c (([Hc Hu] & _ & Hs) & Ho & Ha). unfold truthful. simpl. rewrite Hc. by rewrite (Ha false).
  - eapply triple_conseq; [by apply (quiet_settled_dull b)|intros m c (H & Ho & _); by split|done].
Qed.

(** ** The run *)

Lemma final_ending_triple session n t :
  triple top_inv (final_ending wiring session n t)
    (fun m c res => match res with inl r => truthful m r | inr _ => top_inv m c end).
Proof.
  unfold final_ending. apply triple_fix. intros m c HI. pose proof (top_quiet m c HI) as Hq.
  set (here := fun (m' : hstate) (c' : Coordinator) => m' = m /\ c' = c).
  assert (Hend : forall b p, Stopped (c_control c) = b -> triple (quiet b) p (fun m _ r => truthful m r) ->
    triple here (r ← p; mret (inl r) : M (HarnessResult + Session * nat))
      (fun m c res => match res with inl r => truthful m r | inr _ => top_inv m c end)).
  { intros b p Hb Hp. eapply triple_bind; [eapply triple_conseq; [exact Hp| |intros ? ? ? H; exact H]|intros r; by apply triple_ret].
    unfold here. intros ? ? [-> ->]. by rewrite <- Hb. }
  eapply triple_bind; [apply (triple_gets _ _ _ (fun m c _ => here m c)); done|]. intros latch.
  destruct (peek latch) as [f|].
  { destruct (String.eqb _ _); by apply (Hend (Stopped (c_control c))), settled_ending_triple. }
  eapply triple_bind; [apply (triple_gets _ _ _ (fun m' c' s => here m' c' /\ s = Stopped (c_control c))); by intros ? ? [-> ->]|].
  intros st. apply triple_pure. intros ->. destruct (Stopped (c_control c)) eqn:Hst.
  - eapply triple_bind; [apply (triple_gets _ _ _ (fun m c _ => here m c)); done|]. intros ledger.
    destruct (HasInFlight ledger); [apply triple_ret; by intros ? ? [-> ->]|]. apply (Hend true); [done|]. apply finishSoftStop_triple.
  - destruct (parseOutcome t) as [[o nc]|e]; [apply (Hend false); [done|]; apply finish_triple|].
    destruct (_ <? _)%nat; apply triple_ret; intros ? ? [-> ->]; [done|]. by eapply quiet_dull.
Qed.

Lemma top_ending p :
  (forall b, triple (quiet b) p (fun m _ r => truthful m r)) -> triple top_inv p (fun m _ r => truthful m r).
Proof.
  intros Hp. apply triple_fix. intros m c HI. eapply triple_conseq; [apply (Hp (Stopped (c_control c)))| |done].
  intros ? ? [-> ->]. by apply top_quiet.
Qed.

Lemma run_turns_triple fuel session n :
  triple top_inv (run_turns wiring skills polls turns fuel session n) (fun m _ r => truthful m r).
Proof.
  revert session n. induction fuel as [|fuel IH]; intros session n; simpl; [apply triple_still|].
  eapply triple_bind; [apply poll_control_keeps|]. intros []. eapply triple_bind; [apply take_control_turn_keeps|]. intros session1.
  eapply triple_bind; [apply turn_keeps|]. intros [session2 turn].
  destruct (tn_blocker turn); [apply top_ending; intros b; by apply settled_ending_triple|].
  destruct (infraErr turn); [apply top_ending; intros b; by apply settled_ending_triple|].
  destruct (harnessErr turn); [apply top_ending; intros b; by apply dull_ret|].
  destruct (streamErr turn); [apply top_ending; intros b; apply streamEnding_triple|].
  destruct (tn_final turn); [|apply IH].
  eapply triple_bind; [apply final_ending_triple|]. intros [r|[session3 n']]; [by apply triple_ret|apply IH].
Qed.

Lemma RunCoordinator_triple inv :
  triple top_inv (RunCoordinator wiring skills polls turns inv) (fun m _ r => truthful m r).
Proof.
  unfold RunCoordinator. destruct (newSession _ _); [apply run_turns_triple|]. apply top_ending. intros b. by apply dull_ret.
Qed.

End Operation.

(** ** A fresh coordinator *)

Definition fresh_reporter (r : StatusReporter) : Prop := pendingClears r = [] /\ statusDebt r = None.

(** What the control pod starts with. *)
Definition fresh (status : option StatusReporter) (control : option ControlWatcher) : Prop :=
  wired = bool_decide (is_Some status) /\ (forall r, status = Some r -> fresh_reporter r) /\ Stopped control = false.

Lemma start_top status control : fresh status control -> top_inv start (new_coordinator status control).
Proof.
  intros (Hw & Hr & Hc). exists ∅, NewBriefRegistry. split; [|set_solver]. exists None, false. split; [|by left].
  split_and!; try done. simpl. destruct status as [r|]; simpl.
  - destruct (Hr r eq_refl) as [H1 H2]. split; [done|]. split; [by rewrite H1|by rewrite H2].
  - done.
Qed.
End Protocol.
