(* ===== verification/CoordinatorContract.v ===== *)
(** * What every run of the coordinator does

    The automaton of CoordinatorProtocol.v read back as facts about traces: at
    every moment of every run, whatever the worker, the broker, the forge and the
    models answer, and of the ending of every run that ends. *)

From S2P Require Import Prelude Effects GoStrings GoTime Sha256 Run Pods BrokerAuth HarnessStatus Budget HarnessErrors Session HarnessLedger Devenv HarnessWorld HarnessSkills WorkerDispatch HarnessLogic Coordinator CoordinatorProtocol.
Local Open Scope string_scope.
Local Open Scope Z_scope.

(** ** What is read off one request *)

Definition refused {A} (r : result herror A) : bool := match r with Ok _ => false | Err e => definiteWorkerRejection e end.

(** A dispatch: its operation, its work unit and whether the worker certainly
    never took it. *)
Definition dispatch_of (ev : event harnessE) : option (string * string * bool) :=
  match ev with
  | Ev e x => match e in harnessE X return X -> _ with
              | WorkerDispatch op b _ => fun r => Some (op, b, refused r)
              | _ => fun _ => None
              end x
  end.

(** An observation that an operation is over. *)
Definition end_of (ev : event harnessE) : option string :=
  match ev with
  | Ev e x => match e in harnessE X return X -> _ with
              | WorkerPoll op => fun r => match r with Ok s => if over s then Some op else None | Err _ => None end
              | _ => fun _ => None
              end x
  end.

(** A status write and whether the broker acknowledged it. *)
Definition status_of (ev : event harnessE) : option (HarnessPatch * bool) :=
  match ev with
  | Ev e x => match e in harnessE X return X -> _ with
              | PostStatus p => fun r => Some (p, accepted r)
              | _ => fun _ => None
              end x
  end.

Definition integration_of (ev : event harnessE) : option (string * bool) :=
  match ev with
  | Ev e x => match e in harnessE X return X -> _ with
              | IntegrateRequest req => fun r => Some (ir_BriefID req, match r with Ok i => Changed i | Err _ => false end)
              | _ => fun _ => None
              end x
  end.

Definition publication_of (ev : event harnessE) : option bool :=
  match ev with
  | Ev e x => match e in harnessE X return X -> _ with
              | PublishRequest => fun r => Some (accepted r)
              | _ => fun _ => None
              end x
  end.

(** Whether the work ref was seen beyond its admission anchor. *)
Definition anchor_of (ev : event harnessE) : option bool :=
  match ev with
  | Ev e x => match e in harnessE X return X -> _ with
              | WorkRefBeyondAnchor => fun r => match r with Ok b => Some b | Err _ => None end
              | _ => fun _ => None
              end x
  end.

(** The durable entry of an operation. *)
Definition entry_of (ev : event harnessE) : option string :=
  match status_of ev with
  | Some (p, true) => OpID <$> AddOperation p
  | _ => None
  end.

(** The acknowledged stop; every patch that carries one carries nothing else. *)
Definition stop_of (ev : event harnessE) : bool :=
  match status_of ev with
  | Some (p, true) => match AddOperation p, hp_ControlRequestAck p with None, Some _ => true | _, _ => false end
  | _ => false
  end.

Definition clear_of (ev : event harnessE) : option string :=
  match status_of ev with
  | Some (p, _) => if String.eqb (ClearOperation p) "" then None else Some (ClearOperation p)
  | None => None
  end.

(** A write of the completed briefs, and whether it was acknowledged. *)
Definition record_of (ev : event harnessE) : option bool :=
  match status_of ev with
  | Some (p, ok) => match AddOperation p, hp_Checkpoint p with None, Some _ => Some ok | _, _ => None end
  | None => None
  end.

(** ** One step of the automaton, by what is read off it *)

Section Reading.
Context (wired : bool).

Record stepped (m : hstate) (ev : event harnessE) (m' : hstate) : Prop := {
  on_closing : closing m = None /\ closing m' = (if unpublished m then None else publication_of ev);
  on_unpublished : (unpublished m = true -> publication_of ev <> None) /\
    unpublished m' = match integration_of ev with Some (_, f) => f | None => false end;
  on_stopped : stopped m' = stopped m || stop_of ev;
  on_owed : owed m' = match record_of ev with Some ok => negb ok | None => owed m end;
  on_anchor : anchor m' = match anchor_of ev with Some b => Some b | None => anchor m end;
  on_known : known m' = match dispatch_of ev with Some (_, b, _) => {[b]} ∪ known m | None => known m end;
  on_integrated : integrated m' = match integration_of ev with Some (b, _) => {[b]} ∪ integrated m | None => integrated m end;
  on_persisted : forall op, persisted m' = Some op ->
    dispatch_of ev = None /\ (entry_of ev = Some op \/ persisted m = Some op);
  on_active : active m' = match dispatch_of ev with
    | Some (op, _, r) => if r then None else Some op
    | None => if bool_decide (active m = end_of ev) then None else active m
    end;
  on_ended : forall op, op ∈ ended_ops m' -> op ∈ ended_ops m \/ end_of ev = Some op \/ exists b, dispatch_of ev = Some (op, b, true);
  may_dispatch : forall op b f, dispatch_of ev = Some (op, b, f) ->
    active m = None /\ (wired = true -> persisted m = Some op) /\ (stopped m = true -> b ∈ known m);
  may_integrate : forall b f, integration_of ev = Some (b, f) -> (b ∉ integrated m) /\ (b ∈ known m) /\ active m = None;
  may_clear : forall op, clear_of ev = Some op -> op ∈ ended_ops m
}.

(** Nothing is read off a request the automaton does not look at. *)
Definition unread (ev : event harnessE) : Prop :=
  dispatch_of ev = None /\ end_of ev = None /\ status_of ev = None /\ integration_of ev = None /\ publication_of ev = None.

Lemma stepped_unread m ev v :
  closing m = None -> unpublished m = false -> unread ev -> v = match anchor_of ev with Some b => Some b | None => anchor m end ->
  stepped m ev (with_anchor m v).
Proof.
  intros Hc Hu (H1 & H2 & H3 & H4 & H5) ->.
  constructor; unfold stop_of, record_of, entry_of, clear_of; rewrite ?H1, ?H2, ?H3, ?H4, ?H5, ?Hu; simpl; try done; auto.
  - by rewrite orb_false_r.
  - by case_bool_decide.
Qed.

Lemma with_anchor_same m : with_anchor m (anchor m) = m.
Proof. by destruct m. Qed.

Lemma stepped_status m p r m' :
  closing m = None -> unpublished m = false -> step_status m p (accepted r) = Some m' -> stepped m (Ev (PostStatus p) r) m'.
Proof.
  intros Hc Hu. unfold step_status.
  destruct (negb (String.eqb (ClearOperation p) "") && negb (bool_decide (ClearOperation p ∈ ended_ops m))) eqn:Hcl; [done|].
  assert (Hclear : forall op, clear_of (Ev (PostStatus p) r) = Some op -> op ∈ ended_ops m).
  { unfold clear_of. simpl. destruct (String.eqb (ClearOperation p) ""); [done|]. intros op [= <-]. simpl in Hcl. by case_bool_decide. }
  destruct (AddOperation p) as [a|] eqn:Ha.
  - clear Hcl. case_bool_decide as Hact; [|done]. intros [= <-].
    constructor; unfold stop_of, record_of, entry_of; simpl; rewrite ?Ha, ?Hu; simpl; try done; auto.
    + destruct (accepted r); by rewrite orb_false_r.
    + by case_bool_decide.
  - clear Hcl. intros [= <-]. constructor; unfold stop_of, record_of, entry_of; simpl; rewrite ?Ha, ?Hu; simpl;
      destruct (hp_Checkpoint p), (hp_ControlRequestAck p), (accepted r); simpl; rewrite ?orb_true_r, ?orb_false_r; try done; auto;
      by case_bool_decide.
Qed.

Lemma end_op_fields m op :
  closing (end_op m op) = closing m /\ unpublished (end_op m op) = unpublished m /\ stopped (end_op m op) = stopped m /\
  owed (end_op m op) = owed m /\ anchor (end_op m op) = anchor m /\ known (end_op m op) = known m /\ integrated (end_op m op) = integrated m /\
  persisted (end_op m op) = persisted m /\ ended_ops (end_op m op) = {[op]} ∪ ended_ops m /\
  active (end_op m op) = if bool_decide (active m = Some op) then None else active m.
Proof. unfold end_op. simpl. by case_bool_decide. Qed.

Lemma stepped_poll m op r :
  closing m = None -> unpublished m = false ->
  stepped m (Ev (WorkerPoll op) r) (match r with Ok s => if over s then end_op m op else m | Err _ => m end).
Proof.
  intros Hc Hu. set (ev := Ev (WorkerPoll op) r). destruct (end_of ev) as [op'|] eqn:He.
  - unfold ev in He. simpl in He. destruct r as [s|e]; [|done]. destruct (over s) eqn:Ho; [|done]. injection He as <-.
    destruct (end_op_fields m op) as (F1 & F2 & F3 & F4 & F10 & F5 & F6 & F7 & F8 & F9).
    constructor; unfold stop_of, record_of, entry_of, clear_of; simpl; rewrite ?Ho, ?F1, ?F2, ?F3, ?F4, ?F5, ?F6, ?F7, ?F8, ?F9, ?F10, ?Hu; try done; auto.
    + by rewrite orb_false_r.
    + set_solver.
  - assert (Hm : match r with Ok s => if over s then end_op m op else m | Err _ => m end = m).
    { unfold ev in He. simpl in He. destruct r as [s|e]; [|done]. by destruct (over s). }
    rewrite Hm, <- (with_anchor_same m). rewrite with_anchor_same at 1. by apply stepped_unread.
Qed.

Lemma stepped_dispatch m op b task r m' :
  closing m = None -> unpublished m = false -> step_dispatch wired m op b r = Some m' -> stepped m (Ev (WorkerDispatch op b task) r) m'.
Proof.
  intros Hc Hu. unfold step_dispatch. case_bool_decide as Ha; [|done]. simpl.
  destruct (negb wired || bool_decide (persisted m = Some op)) eqn:Hp; [|done].
  destruct (negb (stopped m) || bool_decide (b ∈ known m)) eqn:Hs; [|done]. simpl.
  assert (Hguard : active m = None /\ (wired = true -> persisted m = Some op) /\ (stopped m = true -> b ∈ known m)).
  { split; [done|]. split; intros Hw; rewrite Hw in *; by eapply bool_decide_eq_true. }
  set (m1 := with_known (with_persisted m None) ({[b]} ∪ known m)).
  intros Hm. assert (Hm' : m' = if refused r then end_op m1 op else with_active m1 (Some op)).
  { destruct r as [?|e]; simpl; [by simplify_eq|]. by destruct (definiteWorkerRejection e); simplify_eq. }
  subst m'. destruct (end_op_fields m1 op) as (F1 & F2 & F3 & F4 & F10 & F5 & F6 & F7 & F8 & F9).
  constructor; unfold stop_of, record_of, entry_of, clear_of; simpl; destruct (refused r) eqn:Hr;
    rewrite ?F1, ?F2, ?F3, ?F4, ?F5, ?F6, ?F7, ?F8, ?F9, ?F10, ?Hu; simpl; rewrite ?orb_false_r; try done; auto.
  - rewrite Ha. by case_bool_decide.
  - intros op'. rewrite elem_of_union, elem_of_singleton. intros [-> |]; eauto.
  - intros op' b' f [= <- <- <-]. by apply Hguard.
  - intros op' b' f [= <- <- <-]. by apply Hguard.
Qed.

Lemma stepped_integrate m req r m' :
  closing m = None -> unpublished m = false -> step_integrate m req r = Some m' -> stepped m (Ev (IntegrateRequest req) r) m'.
Proof.
  intros Hc Hu. unfold step_integrate. case_bool_decide as H1; [|done]. case_bool_decide as H2; [|done]. case_bool_decide as H3; [|done].
  intros [= <-]. constructor; unfold stop_of, record_of, entry_of, clear_of; simpl; destruct r as [i|e]; simpl; rewrite ?Hu, ?orb_false_r; try done; auto.
  - by case_bool_decide.
  - by case_bool_decide.
  - by intros b f [= <- _].
  - by intros b f [= <- _].
Qed.

Lemma stepped_publish m r :
  closing m = None ->
  stepped m (Ev PublishRequest r) (if unpublished m then with_unpublished m false else with_closing m (Some (accepted r))).
Proof.
  intros Hc. destruct (unpublished m) eqn:Hu; constructor; unfold stop_of, record_of, entry_of, clear_of; simpl; rewrite ?Hu, ?orb_false_r; try done; auto;
    by case_bool_decide.
Qed.

Lemma protocol_stepped m ev m' : protocol wired m ev = Some m' -> stepped m ev m'.
Proof.
  unfold protocol. destruct (closing m) eqn:Hc; [done|]. intros H.
  assert (Hsame : forall v, unpublished m = false -> unread ev -> v = match anchor_of ev with Some b => Some b | None => anchor m end ->
    stepped m ev (with_anchor m v)) by (intros; by apply stepped_unread).
  assert (Hquiet : unpublished m = false -> unread ev -> anchor_of ev = None -> stepped m ev m).
  { intros Hu He Hn. pose proof (Hsame (anchor m) Hu He) as Hq. rewrite Hn in Hq. specialize (Hq eq_refl). by rewrite with_anchor_same in Hq. }
  destruct ev as [X e x]; destruct e; simpl in H;
    try (destruct (unpublished m) eqn:Hu; [done|]; injection H as <-; by apply Hquiet).
  - destruct (unpublished m) eqn:Hu; [done|]. by apply stepped_status.
  - destruct (unpublished m) eqn:Hu; [done|]. by apply stepped_dispatch.
  - destruct (unpublished m) eqn:Hu; [done|]. injection H as <-. by apply stepped_poll.
  - destruct (unpublished m) eqn:Hu; [done|]. by apply stepped_integrate.
  - assert (m' = if unpublished m then with_unpublished m false else with_closing m (Some (accepted x))) as -> by (destruct (unpublished m); by simplify_eq).
    by apply stepped_publish.
  - destruct (unpublished m) eqn:Hu; [done|]. injection H as <-. destruct x; [by apply Hsame|by apply Hquiet].
Qed.

(** ** The automaton's state, read back *)

Lemma accepts_ind (P : trace harnessE -> hstate -> Prop) :
  P [] start -> (forall t m ev m', P t m -> stepped m ev m' -> P (t ++ [ev])%list m') ->
  forall t m, accepts (protocol wired) start t = Some m -> P t m.
Proof.
  intros H0 Hs. induction t as [|ev t IH] using rev_ind; intros m; [by intros [= <-]|].
  rewrite accepts_app. destruct (accepts (protocol wired) start t) as [m1|]; [|done]. simpl.
  destruct (protocol wired m1 ev) as [m2|] eqn:He; [|done]. intros [= <-]. eapply Hs; [by apply IH|by apply protocol_stepped].
Qed.

(** The split of an accepted trace at a request. *)
Lemma accepts_at t t1 ev t2 m :
  accepts (protocol wired) start t = Some m -> t = (t1 ++ ev :: t2)%list ->
  exists m1 m2, accepts (protocol wired) start t1 = Some m1 /\ stepped m1 ev m2 /\ accepts (protocol wired) m2 t2 = Some m.
Proof.
  intros Ha ->. rewrite accepts_app in Ha. destruct (accepts (protocol wired) start t1) as [m1|]; [|done]. simpl in Ha.
  destruct (protocol wired m1 ev) as [m2|] eqn:He; [|done]. exists m1, m2. split; [done|]. split; [by apply protocol_stepped|done].
Qed.

Definition was_over (t : trace harnessE) (op : string) : Prop :=
  Exists (fun ev => end_of ev = Some op \/ exists b, dispatch_of ev = Some (op, b, true)) t.

Definition dispatched (t : trace harnessE) (b : string) : Prop := Exists (fun ev => exists op f, dispatch_of ev = Some (op, b, f)) t.

(** Whether the last write of the completed briefs failed. *)
Definition record_owed (t : trace harnessE) : bool :=
  match last (omap record_of t) with Some ok => negb ok | None => false end.

Definition stop_acknowledged (t : trace harnessE) : bool := existsb stop_of t.

Lemma snoc_eq {A} (t u1 u2 : list A) a b :
  (t ++ [a] = u1 ++ b :: u2)%list -> (u2 = [] /\ t = u1 /\ a = b) \/ exists u3, u2 = (u3 ++ [a])%list /\ t = (u1 ++ b :: u3)%list.
Proof.
  destruct u2 as [|c u2 _] using rev_ind; intros H.
  - apply app_inj_tail in H as [-> ->]. auto.
  - right. exists u2. rewrite app_comm_cons, app_assoc in H. by apply app_inj_tail in H as [-> ->].
Qed.

Lemma active_reads t m :
  accepts (protocol wired) start t = Some m -> forall u1 ev u2 op b, t = (u1 ++ ev :: u2)%list -> dispatch_of ev = Some (op, b, false) ->
  active m = Some op \/ Exists (fun ev => end_of ev = Some op) u2.
Proof.
  revert t m. apply (accepts_ind (fun t m => forall u1 ev u2 op b, t = (u1 ++ ev :: u2)%list -> dispatch_of ev = Some (op, b, false) ->
    active m = Some op \/ Exists (fun ev => end_of ev = Some op) u2)).
  { intros [|] ev u2 op b H; discriminate. }
  intros t m ev m' IH Hs u1 ev' u2 op b Ht Hd. rewrite (on_active _ _ _ Hs).
  apply snoc_eq in Ht as [(-> & -> & ->)|(u3 & -> & ->)]; [rewrite Hd; by left|].
  destruct (IH u1 ev' u3 op b eq_refl Hd) as [Ha|He]; [|right; apply Exists_app; by left].
  destruct (dispatch_of ev) as [[[op1 b1] r1]|] eqn:Hdev.
  { destruct (may_dispatch _ _ _ Hs _ _ _ Hdev) as [Hn _]. congruence. }
  case_bool_decide as Hact; [|by left]. right. apply Exists_app. right. constructor. congruence.
Qed.

Lemma entry_reads t m :
  accepts (protocol wired) start t = Some m -> forall op, persisted m = Some op ->
  exists u1 ev u2, t = (u1 ++ ev :: u2)%list /\ entry_of ev = Some op /\ Forall (fun ev => dispatch_of ev = None) u2.
Proof.
  revert t m. apply (accepts_ind (fun t m => forall op, persisted m = Some op ->
    exists u1 ev u2, t = (u1 ++ ev :: u2)%list /\ entry_of ev = Some op /\ Forall (fun ev => dispatch_of ev = None) u2)); [done|].
  intros t m ev m' IH Hs op Hp. destruct (on_persisted _ _ _ Hs op Hp) as [Hd [He|Hm]].
  - by exists t, ev, [].
  - destruct (IH op Hm) as (u1 & ev' & u2 & -> & He & Hf). exists u1, ev', (u2 ++ [ev])%list.
    rewrite <- app_assoc. split; [done|]. split; [done|]. apply Forall_app. by repeat constructor.
Qed.

Lemma ended_reads t m : accepts (protocol wired) start t = Some m -> forall op, op ∈ ended_ops m -> was_over t op.
Proof.
  revert t m. apply (accepts_ind (fun t m => forall op, op ∈ ended_ops m -> was_over t op)); [set_solver|].
  intros t m ev m' IH Hs op Hop. apply Exists_app. destruct (on_ended _ _ _ Hs op Hop) as [H|H]; [left; by apply IH|right; by constructor].
Qed.

Lemma stopped_reads t m : accepts (protocol wired) start t = Some m -> stopped m = stop_acknowledged t.
Proof.
  revert t m. apply (accepts_ind (fun t m => stopped m = stop_acknowledged t)); [done|].
  intros t m ev m' IH Hs. rewrite (on_stopped _ _ _ Hs), IH. unfold stop_acknowledged. rewrite existsb_app. simpl. by rewrite orb_false_r.
Qed.

(** What the run last saw of its work ref. *)
Definition last_anchor (t : trace harnessE) : option bool := last (omap anchor_of t).

Lemma anchor_reads t m : accepts (protocol wired) start t = Some m -> anchor m = last_anchor t.
Proof.
  revert t m. apply (accepts_ind (fun t m => anchor m = last_anchor t)); [done|].
  intros t m ev m' IH Hs. rewrite (on_anchor _ _ _ Hs), IH. unfold last_anchor. rewrite omap_app. simpl.
  destruct (anchor_of ev); [by rewrite last_snoc|]. by rewrite app_nil_r.
Qed.

Lemma known_reads t m : accepts (protocol wired) start t = Some m -> forall b, b ∈ known m -> b = "control" \/ dispatched t b.
Proof.
  revert t m. apply (accepts_ind (fun t m => forall b, b ∈ known m -> b = "control" \/ dispatched t b)); [set_solver|].
  intros t m ev m' IH Hs b Hb. rewrite (on_known _ _ _ Hs) in Hb. unfold dispatched. rewrite Exists_app.
  destruct (dispatch_of ev) as [[[op b'] f]|] eqn:Hd; [|destruct (IH b Hb); auto].
  apply elem_of_union in Hb as [->%elem_of_singleton|Hb]; [|destruct (IH b Hb); auto]. right. right. constructor. eauto.
Qed.

Lemma integrated_reads t m :
  accepts (protocol wired) start t = Some m -> forall b, Exists (fun ev => exists f, integration_of ev = Some (b, f)) t -> b ∈ integrated m.
Proof.
  revert t m. apply (accepts_ind (fun t m => forall b, Exists (fun ev => exists f, integration_of ev = Some (b, f)) t -> b ∈ integrated m)).
  { intros b H. by apply Exists_nil in H. }
  intros t m ev m' IH Hs b. rewrite Exists_app, Exists_cons, Exists_nil, (on_integrated _ _ _ Hs).
  intros [H|[[f Hf]|[]]]; [apply IH in H; destruct (integration_of ev) as [[]|]; set_solver|]. rewrite Hf. set_solver.
Qed.

Lemma owed_reads t m : accepts (protocol wired) start t = Some m -> owed m = record_owed t.
Proof.
  revert t m. apply (accepts_ind (fun t m => owed m = record_owed t)); [done|].
  intros t m ev m' IH Hs. rewrite (on_owed _ _ _ Hs), IH. unfold record_owed. rewrite omap_app. simpl.
  destruct (record_of ev); [by rewrite last_snoc|]. by rewrite app_nil_r.
Qed.

(** The trace ends with an integrated change. *)
Definition pending_change (t : trace harnessE) : bool :=
  match last t with Some ev => match integration_of ev with Some (_, f) => f | None => false end | None => false end.

Lemma unpublished_reads t m : accepts (protocol wired) start t = Some m -> unpublished m = pending_change t.
Proof.
  revert t m. apply (accepts_ind (fun t m => unpublished m = pending_change t)); [done|].
  intros t m ev m' _ Hs. unfold pending_change. rewrite last_snoc. by destruct (on_unpublished _ _ _ Hs) as [_ ->].
Qed.

(** The trace ends with a publication of the whole run. *)
Definition closed (t : trace harnessE) (b : bool) : Prop :=
  exists u ev, t = (u ++ [ev])%list /\ publication_of ev = Some b /\ pending_change u = false.

Lemma closing_reads t m b : accepts (protocol wired) start t = Some m -> closing m = Some b <-> closed t b.
Proof.
  intros Ha. split.
  - destruct t as [|ev t _] using rev_ind; [by injection Ha as <-|]. destruct (accepts_at _ t ev [] m Ha eq_refl) as (m1 & m2 & H1 & Hs & [= <-]).
    destruct (on_closing _ _ _ Hs) as [_ ->]. rewrite (unpublished_reads _ _ H1). intros Hb. exists t, ev. split; [done|]. by destruct (pending_change t).
  - intros (u & ev & -> & Hp & Hu). destruct (accepts_at _ u ev [] m Ha eq_refl) as (m1 & m2 & H1 & Hs & [= <-]).
    destruct (on_closing _ _ _ Hs) as [_ ->]. by rewrite (unpublished_reads _ _ H1), Hu.
Qed.
End Reading.

(** ** The runs *)

Section Runs.
Context {EB : ErrorBody} {Q : Quoted} {TC : ToolCodec}.

(** What the control pod starts with: a new reporter and a new watcher. *)
Definition fresh_config (cfg : CoordinatorConfig) : Prop :=
  (forall r, cc_Status cfg = Some r -> exists controlUID workerUID cadence, r = NewStatusReporter controlUID workerUID cadence) /\
  (forall w, cc_Control cfg = Some w -> exists source ack, w = NewControlWatcher source ack).

Definition reports (cfg : CoordinatorConfig) : bool := bool_decide (is_Some (cc_Status cfg)).

Lemma built_top cfg wiring c : NewCoordinator cfg = Ok (wiring, c) -> fresh_config cfg -> top_inv (reports cfg) start c.
Proof.
  unfold NewCoordinator. intros H [Hr Hw]. repeat case_match; try done. injection H as <- <-. apply start_top.
  split; [done|]. split.
  - intros r Hs. destruct (Hr r Hs) as (? & ? & ? & ->). done.
  - destruct (cc_Control cfg) as [w|] eqn:Hc; [|done]. by destruct (Hw w eq_refl) as (? & ? & ->).
Qed.

Section OneRun.
Context (cfg : CoordinatorConfig) (wiring : Wiring) (c : Coordinator) (skills : option SkillSet) (polls turns : nat) (inv : Invocation).

Lemma run_accepted t :
  NewCoordinator cfg = Ok (wiring, c) -> fresh_config cfg -> partial (RunCoordinator wiring skills polls turns inv c) t ->
  exists m, accepts (protocol (reports cfg)) start t = Some m.
Proof.
  intros Hb Hf Ht. eapply triple_partial in Ht; [|apply RunCoordinator_triple|by eapply built_top]. exact Ht.
Qed.

Lemma run_ended t c' r :
  NewCoordinator cfg = Ok (wiring, c) -> fresh_config cfg -> exec (RunCoordinator wiring skills polls turns inv c) t (c', r) ->
  exists m, accepts (protocol (reports cfg)) start t = Some m /\ truthful m r.
Proof.
  intros Hb Hf Ht. eapply triple_exec in Ht; [|apply RunCoordinator_triple|by eapply built_top]. exact Ht.
Qed.

Lemma run_at t t1 ev t2 :
  NewCoordinator cfg = Ok (wiring, c) -> fresh_config cfg -> partial (RunCoordinator wiring skills polls turns inv c) t ->
  t = (t1 ++ ev :: t2)%list -> exists m1 m2 m, accepts (protocol (reports cfg)) start t1 = Some m1 /\
    stepped (reports cfg) m1 ev m2 /\ accepts (protocol (reports cfg)) m2 t2 = Some m.
Proof.
  intros Hb Hf Ht Heq. destruct (run_accepted t Hb Hf Ht) as [m Hm]. destruct (accepts_at _ _ _ _ _ _ Hm Heq) as (m1 & m2 & ?). by exists m1, m2, m.
Qed.
End OneRun.

(** C3: At every moment of every run of the coordinator, whatever the worker, the
    broker, the forge and the models answer: a task is sent to the worker only
    when every earlier task was observed to be over or was certainly refused
    (so at most one operation is ever live), and, when a status path is wired,
    only after the broker acknowledged that operation's own entry with no other
    dispatch in between; and an entry is cleared only for an operation that was
    observed over or refused before. *)
Theorem coordinator_one_operation (cfg : CoordinatorConfig) (wiring : Wiring) (c : Coordinator) (skills : option SkillSet)
    (polls turns : nat) (inv : Invocation) (t t1 t2 : trace harnessE) (ev : event harnessE)
    (Hbuilt : NewCoordinator cfg = Ok (wiring, c)) (Hfresh : fresh_config cfg)
    (Hrun : partial (RunCoordinator wiring skills polls turns inv c) t) (Ht : t = (t1 ++ ev :: t2)%list) :
  (forall op b f, dispatch_of ev = Some (op, b, f) ->
     (forall u1 ev' u2 op' b', t1 = (u1 ++ ev' :: u2)%list -> dispatch_of ev' = Some (op', b', false) ->
        Exists (fun e => end_of e = Some op') u2) /\
     (is_Some (cc_Status cfg) -> exists u1 ev' u2, t1 = (u1 ++ ev' :: u2)%list /\ entry_of ev' = Some op /\
        Forall (fun e => dispatch_of e = None) u2)) /\
  (forall op, clear_of ev = Some op -> was_over t1 op).
Proof.
  destruct (run_at cfg wiring c skills polls turns inv t t1 ev t2 Hbuilt Hfresh Hrun Ht) as (m1 & m2 & m & H1 & Hs & _). split.
  - intros op b f Hd. destruct (may_dispatch _ _ _ _ Hs _ _ _ Hd) as (Ha & Hp & _). split.
    + intros u1 ev' u2 op' b' Hu Hd'. destruct (active_reads _ _ _ H1 _ _ _ _ _ Hu Hd') as [H|H]; [congruence|done].
    + intros Hw. apply (entry_reads _ _ _ H1). apply Hp. by apply bool_decide_eq_true.
  - intros op Hc. apply (ended_reads _ _ _ H1). by eapply may_clear.
Qed.

(** C13: A soft stop binds the run: once the broker acknowledged a stop, no task of a
    work unit that had not reached the worker before is ever sent, however long
    the run goes on and whatever the models ask for.  The coordinator's own work
    unit stays open for its final validation. *)
Theorem coordinator_stop_binds (cfg : CoordinatorConfig) (wiring : Wiring) (c : Coordinator) (skills : option SkillSet)
    (polls turns : nat) (inv : Invocation) (t t1 t2 : trace harnessE) (ev : event harnessE) (op b : string) (f : bool)
    (Hbuilt : NewCoordinator cfg = Ok (wiring, c)) (Hfresh : fresh_config cfg)
    (Hrun : partial (RunCoordinator wiring skills polls turns inv c) t) (Ht : t = (t1 ++ ev :: t2)%list)
    (Hstop : stop_acknowledged t1 = true) (Hd : dispatch_of ev = Some (op, b, f)) :
  b = "control" \/ dispatched t1 b.
Proof.
  destruct (run_at cfg wiring c skills polls turns inv t t1 ev t2 Hbuilt Hfresh Hrun Ht) as (m1 & m2 & m & H1 & Hs & _).
  destruct (may_dispatch _ _ _ _ Hs _ _ _ Hd) as (_ & _ & Hk). apply (known_reads _ _ _ H1), Hk. by rewrite (stopped_reads _ _ _ H1).
Qed.


End Runs.

(** ** A sample run

    The coordinator delegates one brief, its delegate answers at once, the worker
    returns a bundle that changes the branch, and the run declares its changes.
    [stop] is a soft stop requested from the start. *)

Definition sample_brief : DelegatedBrief :=
  {| b_ID := "b1"; b_Role := "coder"; Objective := "fix it"; Decisions := []; OwnedFiles := []; NonGoals := []; SuccessCheck := "go test" |}.

Definition sample_tools : ToolCodec :=
  {| decode_shell := fun a => Some (a, ""); decode_check := fun a => Some (a, false); decode_delegate := fun _ => Some sample_brief;
     decode_cancel := fun a => Some a; decode_forge := fun a => Some (a, ""); decode_skill := fun a => Some a;
     decode_declaration := fun t => Ok {| dc_Outcome := t; dc_Evidence := ""; dc_Question := ""; dc_Missing := ""; dc_Close := None |};
     decode_close := fun _ => None |}.

Definition sample_quoted : Quoted := fun s => s.

Definition sample_event (kind : string) (text : string) (tool : ToolCall) : Event :=
  {| Kind := kind; ev_Text := text; ev_Tool := tool; ev_Blocks := []; ev_Err := ErrNothingToPublish; ev_Usage := None; RejectedRequests := 0 |}.

Definition sample_call (name : string) : ToolCall := {| tc_ID := "1"; tc_Name := name; tc_Arguments := "make test" |}.

(** The models' turns, in order. *)
Definition sample_turn (stop : bool) (n : nat) : result herror (list Event * Event) :=
  match n with
  | O => Ok ([sample_event KindToolRequest "" (sample_call (if stop then toolShell else toolDelegate))], sample_event "done" "" (sample_call ""))
  | _ => Ok ([sample_event KindDelta OutcomeChanges (sample_call "")], sample_event KindFinal "" (sample_call ""))
  end.

Definition sample_session (stop : bool) (n : nat) (X : Type) (e : sessionE X) : option (nat * X) :=
  match e in sessionE X return option (nat * X) with
  | StreamChat _ => Some (S n, sample_turn stop n)
  | RetryWait _ => Some (n, false)
  | ModelRequestObserved _ | SessionCompacted _ | StreamChunk => Some (n, tt)
  end.

Definition sample_world (stop : bool) (X : Type) (e : harnessE X) (n : nat) : option (nat * X) :=
  match e in harnessE X return option (nat * X) with
  | PostStatus _ | WorkerCancel _ _ | WorkerRelease _ _ | UploadSnapshot _ => Some (n, Ok tt)
  | StatusRetryWait => Some (n, false)
  | ReadControlRequest =>
      Some (n, Ok (if stop then Some {| cr_ID := "stop-1"; cr_Kind := "soft-stop"; cr_TargetPodUID := "control-1"; cr_RequestedAt := 0 |} else None))
  | ClockNow => Some (n, 0)
  | Nonce => Some (n, Z.of_nat n)
  | ContextErr _ | PollWait | CheckWait => Some (n, None)
  | WorkerDispatch op _ _ => Some (n, Ok op)
  | WorkerPoll _ => Some (n, Ok {| rs_Status := ResultCompleted; rs_Result := Some
      {| wr_Status := ResultCompleted; wr_ExitCode := 0; StdoutTail := "tip-1"; StderrTail := ""; Artifact := "bundle"; LiveDescendants := 0 |} |})
  | SnapshotRequest => Some (n, Ok {| sn_Data := "pack"; sn_Tip := "tip-1"; sn_BaseTip := "base-1"; ContractState := StateAbsent |})
  | IntegrateRequest _ => Some (n, Ok {| in_Commit := "commit-1"; Changed := true |})
  | PublishRequest => Some (n, Ok {| pub_OID := "commit-1"; AlreadyPublished := false |})
  | WorkRefBeyondAnchor => Some (n, Ok false)
  | CapacityWorkspaceSafety => Some (n, Ok unknown_safety)
  | ForgeCall _ _ => Some (n, Ok "")
  | BootstrapRecorded _ => Some (n, tt)
  | StillGoing => None
  | InSession e => sample_session stop n _ e
  end.

Definition sample_config : CoordinatorConfig :=
  {| cc_Transport := true;
     cc_Wiring := {| w_bindings := <["coder" := "model-b"]> {[RoleCoordinator := "model-a"]}; w_budgets := ∅; w_worker := true; w_forge := false;
       w_snapshot := true; w_publisher := true; w_activity := true; w_compactions := false; w_telemetry := false; w_bootstrapReceipts := false;
       w_workRefBeyondAnchor := true; w_capacityWorkspaceSafety := false |};
     cc_ContextBudgets := []; cc_Status := Some (NewStatusReporter "control-1" "worker-1" 0); cc_Control := Some (NewControlWatcher true true) |}.

Definition sample_wiring : Wiring := with_budgets (cc_Wiring sample_config) ∅.
Definition sample_coordinator : Coordinator := new_coordinator (cc_Status sample_config) (cc_Control sample_config).

Lemma sample_built : NewCoordinator sample_config = Ok (sample_wiring, sample_coordinator).
Proof. reflexivity. Qed.

Lemma sample_fresh : fresh_config sample_config.
Proof. split; [intros r [= <-]; by eexists _, _, _|intros w [= <-]; by eexists _, _]. Qed.

Definition sample_run : prog harnessE (Coordinator * HarnessResult) :=
  RunCoordinator (EB := plain_bodies) (Q := sample_quoted) (TC := sample_tools) sample_wiring None 3 3
    {| inv_Framing := ""; inv_Goal := "do it" |} sample_coordinator.

Definition sample_trace (stop : bool) : trace harnessE := (play (sample_world stop) (sample_run) 0%nat).1.

(** The request of a sample run at a position, with what is read off it. *)
Lemma sample_at {A} stop i (f : event harnessE -> A) a :
  f <$> sample_trace stop !! i = Some a ->
  exists ev, f ev = a /\ sample_trace stop = (take i (sample_trace stop) ++ ev :: drop (S i) (sample_trace stop))%list.
Proof. destruct (sample_trace stop !! i) as [ev|] eqn:Hi; [|done]. intros [= <-]. exists ev. split; [done|]. by rewrite take_drop_middle. Qed.

Lemma coordinator_one_operation_witness :
  exists u1 ev u2, take 20 (sample_trace false) = (u1 ++ ev :: u2)%list /\ entry_of ev = Some "pack.b1.0000000000000002" /\
    Forall (fun e => dispatch_of e = None) u2.
Proof.
  destruct (sample_at false 20 dispatch_of (Some ("pack.b1.0000000000000002", "b1", false)) ltac:(vm_compute; reflexivity)) as (ev & Hd & Ht).
  pose proof (coordinator_one_operation (EB := plain_bodies) (Q := sample_quoted) (TC := sample_tools) sample_config sample_wiring
    sample_coordinator None 3 3 {| inv_Framing := ""; inv_Goal := "do it" |} _ _ _ ev sample_built sample_fresh
    (play_partial (sample_world false) (sample_run) 0%nat) Ht) as [H _].
  apply (H _ _ _ Hd). by eexists.
Defined.

Lemma coordinator_stop_binds_witness :
  stop_acknowledged (take 10 (sample_trace true)) = true /\ ("control" = "control" \/ dispatched (take 10 (sample_trace true)) "control").
Proof.
  split; [vm_compute; reflexivity|].
  destruct (sample_at true 10 dispatch_of (Some ("snapshot.control.0000000000000001", "control", false)) ltac:(vm_compute; reflexivity)) as (ev & Hd & Ht).
  exact (coordinator_stop_binds (EB := plain_bodies) (Q := sample_quoted) (TC := sample_tools) sample_config sample_wiring
    sample_coordinator None 3 3 {| inv_Framing := ""; inv_Goal := "do it" |} _ _ _ ev _ _ _ sample_built sample_fresh
    (play_partial (sample_world true) (sample_run) 0%nat) Ht ltac:(vm_compute; reflexivity) Hd).
Defined.


