(* ===== verification/WorkerWire.v ===== *)
(** * The signed worker protocol: envelopes and the control side
    (internal/protocol/envelope.go, control.go; internal/harness/delegate.go)

    An envelope binds one dispatch, cancellation or release to a run, a control
    pod and a worker pod, and to the digest of its payload.  The control side
    signs it and posts it to the worker; everything the worker answers is
    untrusted data.

    Ed25519 and [encoding/json] are classes: what the code calls of them, with
    their documented laws apart.  Keys, signatures and bodies are byte strings. *)

From S2P Require Import Prelude Effects GoStrings GoTime Sha256 Run Pods HarnessErrors Session HarnessLedger HarnessWorld.
Local Open Scope string_scope.
Local Open Scope Z_scope.

(** ** Envelopes *)

Definition KindDispatch : string := "dispatch".
Definition KindCancel : string := "cancel".
Definition KindRelease : string := "release".

Record Envelope := {
  en_RunUID : string; en_ControlPodUID : string; en_WorkerPodUID : string; en_BriefID : string; en_OpID : string;
  en_Kind : string; PayloadDigest : string; Sequence : Z; en_Nonce : string; en_ExpiresAt : Time
}.

Record signedRequest := { sg_Envelope : Envelope; Signature : string; Payload : string }.

Record SnapshotUpload := { up_Digest : string; up_Data : string }.

Definition PrivateKeySize : Z := 64.
Definition PublicKeySize : Z := 32.

Class Ed25519 := {
  ed_public : string -> string;
  ed_sign : string -> string -> string;
  ed_verify : string -> string -> string -> bool
}.

(** [json.Marshal] and [json.Unmarshal] on the protocol's shapes.  Encoding an
    envelope fails on a time outside its range.  [decode_signed] is a decoder
    under a byte limit; its flag says that nothing follows the value. *)
Class Wire := {
  canonical : Envelope -> option string;
  encode_signed : signedRequest -> option string;
  decode_signed : Z -> string -> option (signedRequest * bool);
  encode_task : Task -> option string;
  decode_task : string -> option Task;
  encode_snapshot : SnapshotUpload -> option string;
  decode_snapshot : Z -> string -> option SnapshotUpload;
  decode_ack : string -> option string;
  decode_state : string -> option ResultState
}.

Section Envelopes.
Context {ED : Ed25519} {WI : Wire}.

Definition Sign (e : Envelope) (key : string) : result herror string :=
  if negb (slen key =? PrivateKeySize) then Err (new_error "protocol: signing key has the wrong size") else
  match canonical e with
  | None => Err (new_error "protocol: canonicalize envelope")
  | Some bytes => Ok (ed_sign key bytes)
  end.

Definition Verify (e : Envelope) (key signature : string) : option string :=
  if negb (slen key =? PublicKeySize) then Some "protocol: verification key has the wrong size" else
  match canonical e with
  | None => Some "protocol: canonicalize envelope"
  | Some bytes => if ed_verify key bytes signature then None else Some "protocol: envelope signature is invalid"
  end.

(** [hex.DecodeString] accepts both cases and an even number of digits. *)
Definition hex_any (c : ascii) : bool := is_hex c || in_range 65 70 c.

Fixpoint hex_digits (s : string) : bool := match s with "" => true | String c r => hex_any c && hex_digits r end.

Definition isHex (value : string) : bool := hex_digits value && (slen value mod 2 =? 0).

Definition Validate (e : Envelope) (now : Time) : option string :=
  let shape :=
    if String.eqb (en_Kind e) KindDispatch then
      if negb (Sequence e =? 0) then Some "protocol: dispatch must carry sequence 0" else
      if String.eqb (en_BriefID e) "" then Some "protocol: dispatch requires a brief ID" else None
    else if String.eqb (en_Kind e) KindCancel then
      if Sequence e =? 0 then Some "protocol: cancellation sequence must be strictly greater than zero" else None
    else if String.eqb (en_Kind e) KindRelease then
      if Sequence e =? 0 then Some "protocol: release sequence must be strictly greater than zero" else None
    else Some "protocol: unknown envelope kind" in
  match shape with
  | Some err => Some err
  | None =>
      if String.eqb (en_RunUID e) "" || String.eqb (en_ControlPodUID e) "" || String.eqb (en_WorkerPodUID e) ""
      then Some "protocol: envelope must bind run, control, and worker incarnations" else
      if String.eqb (en_OpID e) "" then Some "protocol: envelope requires an operation ID" else
      if negb (slen (PayloadDigest e) =? 64) || negb (isHex (PayloadDigest e)) then Some "protocol: payload digest must be a SHA-256 hex string" else
      if slen (en_Nonce e) <? 16 then Some "protocol: nonce is too short" else
      if en_ExpiresAt e =? zero_time then Some "protocol: admission expiration is required" else
      if en_ExpiresAt e <? now then Some ("protocol: envelope expired at " ++ FormatRFC3339 (en_ExpiresAt e)) else None
  end.

Definition PayloadDigestOf (payload : string) : string := sha256_hex payload.

Definition CancelPayloadDigest : string := PayloadDigestOf "".

(** The identity fields, kind, sequence and identifiers are the caller's. *)
Definition NewEnvelope (nonce : list Z) (now : Time) (admissionWindow : Z) (payload : string) : Envelope :=
  {| en_RunUID := ""; en_ControlPodUID := ""; en_WorkerPodUID := ""; en_BriefID := ""; en_OpID := ""; en_Kind := "";
     PayloadDigest := PayloadDigestOf payload; Sequence := 0; en_Nonce := EncodeToString nonce; en_ExpiresAt := now + admissionWindow |}.

(** ** The client *)

(** [NewRequest] answers the error of a malformed URL.  [Do] answers a transport
    error, or the status with the body or the error of reading it. *)
Inductive clientE : Type -> Type :=
| ClientNow : clientE Time
| EnvelopeNonce : clientE (list Z)
| NewRequest (method path : string) : clientE (option string)
| Do (method path body opID : string) : clientE (result string (Z * result string string)).

Definition maxAckBytes : nat := Z.to_nat (2 ^ 20).

Definition transport_error (status : Z) (message : string) : herror :=
  HErr (NTransport status) ("protocol: worker rejected the request (" ++ Itoa status ++ "): " ++ message) [].

Definition post (path body opID : string) : prog clientE (result herror string) :=
  bad ← call (NewRequest "POST" path);
  match bad with
  | Some err => mret (Err (new_error ("protocol: build request: " ++ err)))
  | None =>
      resp ← call (Do "POST" path body opID);
      match resp with
      | Err err => mret (Err (new_error ("protocol: transport: " ++ err)))
      | Ok (_, Err err) => mret (Err (new_error ("protocol: read response: " ++ err)))
      | Ok (status, Ok data) =>
          let data := stake maxAckBytes data in
          if (status <? 200) || (300 <=? status) then mret (Err (transport_error status (TrimSpace data))) else
          match decode_ack data with
          | None => mret (Err (new_error "protocol: decode ack"))
          | Some ack => mret (Ok ack)
          end
      end
  end.

(** Sign, encode, post. *)
Definition deliver (path encoding : string) (key : string) (envelope : Envelope) (payload : string) : prog clientE (result herror string) :=
  match Sign envelope key with
  | Err e => mret (Err e)
  | Ok signature =>
      match encode_signed {| sg_Envelope := envelope; Signature := signature; Payload := payload |} with
      | None => mret (Err (new_error ("protocol: encode " ++ encoding)))
      | Some body => post path body (en_OpID envelope)
      end
  end.

Definition client_Dispatch (key : string) (envelope : Envelope) (payload : string) : prog clientE (result herror string) :=
  deliver "/v1/tasks" "dispatch" key envelope payload.

Definition client_Cancel (key : string) (envelope : Envelope) : prog clientE (result herror string) :=
  deliver "/v1/tasks/cancel" "cancel" key envelope "".

Definition client_Release (key : string) (envelope : Envelope) : prog clientE (result herror string) :=
  deliver ("/v1/tasks/" ++ en_OpID envelope ++ "/release") "release" key envelope "".

Definition no_state : ResultState := {| rs_Status := ""; rs_Result := None |}.

Definition client_Result (opID : string) : prog clientE (result herror ResultState) :=
  let path := "/v1/tasks/" ++ opID ++ "/result" in
  bad ← call (NewRequest "GET" path);
  match bad with
  | Some err => mret (Err (new_error ("protocol: build request: " ++ err)))
  | None =>
      resp ← call (Do "GET" path "" "");
      match resp with
      | Err err => mret (Err (new_error ("protocol: transport: " ++ err)))
      | Ok (status, body) =>
          if status =? 404 then mret (Ok no_state) else
          if negb ((status =? 200) || (status =? 202)) then
            mret (Err (transport_error status (match body with Ok data => TrimSpace (stake maxAckBytes data) | Err _ => "" end)))
          else
            match body with
            | Err err => mret (Err (new_error ("protocol: decode result: " ++ err)))
            | Ok data => match decode_state data with Some s => mret (Ok s) | None => mret (Err (new_error "protocol: decode result")) end
            end
      end
  end.

Definition client_UploadSnapshot (data : string) : prog clientE (result herror unit) :=
  match encode_snapshot {| up_Digest := PayloadDigestOf data; up_Data := data |} with
  | None => mret (Err (new_error "protocol: encode snapshot"))
  | Some body =>
      bad ← call (NewRequest "POST" "/v1/snapshot");
      match bad with
      | Some err => mret (Err (new_error ("protocol: build request: " ++ err)))
      | None =>
          resp ← call (Do "POST" "/v1/snapshot" body "");
          match resp with
          | Err err => mret (Err (new_error ("protocol: transport: " ++ err)))
          | Ok (status, answer) =>
              if status =? 204 then mret (Ok tt) else
              mret (Err (transport_error status (match answer with Ok d => TrimSpace (stake maxAckBytes d) | Err _ => "" end)))
          end
      end
  end.

(** ** The delegator *)

Record WorkerIdentity := { wi_RunUID : string; wi_ControlPodUID : string; wi_WorkerPodUID : string; wi_Key : string; wi_AdmissionWindow : Z }.

Definition minute : Z := 60 * second.

Record Delegator := { dl_identity : WorkerIdentity; admission : Z }.

Definition NewDelegator (baseURL : string) (identity : WorkerIdentity) : result string Delegator :=
  if String.eqb baseURL "" then Err "harness: worker protocol client is required" else
  if String.eqb (wi_RunUID identity) "" || String.eqb (wi_ControlPodUID identity) "" || String.eqb (wi_WorkerPodUID identity) ""
  then Err "harness: worker identity is incomplete" else
  if negb (slen (wi_Key identity) =? PrivateKeySize) then Err "harness: worker signing key is unusable" else
  Ok {| dl_identity := identity; admission := if wi_AdmissionWindow identity =? 0 then 10 * minute else wi_AdmissionWindow identity |}.

(** The envelope of an attempt. *)
Definition addressed (d : Delegator) (e : Envelope) (kind opID briefID : string) (sequence : Z) : Envelope :=
  {| en_RunUID := wi_RunUID (dl_identity d); en_ControlPodUID := wi_ControlPodUID (dl_identity d);
     en_WorkerPodUID := wi_WorkerPodUID (dl_identity d); en_BriefID := briefID; en_OpID := opID; en_Kind := kind;
     PayloadDigest := PayloadDigest e; Sequence := sequence; en_Nonce := en_Nonce e; en_ExpiresAt := en_ExpiresAt e |}.

Definition new_envelope (d : Delegator) (kind opID briefID : string) (sequence : Z) (payload : string) : prog clientE Envelope :=
  now ← call ClientNow;
  nonce ← call EnvelopeNonce;
  mret (addressed d (NewEnvelope nonce now (admission d) payload) kind opID briefID sequence).

Definition delegator_Dispatch (d : Delegator) (opID briefID : string) (task : Task) : prog clientE (result herror string) :=
  match encode_task task with
  | None => mret (Err (new_error "harness: encode task"))
  | Some payload =>
      envelope ← new_envelope d KindDispatch opID briefID 0 payload;
      client_Dispatch (wi_Key (dl_identity d)) envelope payload
  end.

Definition drop_status (p : prog clientE (result herror string)) : prog clientE (result herror unit) :=
  r ← p; mret (match r with Ok _ => Ok tt | Err e => Err e end).

Definition delegator_Cancel (d : Delegator) (opID briefID : string) : prog clientE (result herror unit) :=
  envelope ← new_envelope d KindCancel opID briefID 1 "";
  drop_status (client_Cancel (wi_Key (dl_identity d)) envelope).

Definition delegator_Release (d : Delegator) (opID briefID : string) : prog clientE (result herror unit) :=
  envelope ← new_envelope d KindRelease opID briefID 1 "";
  drop_status (client_Release (wi_Key (dl_identity d)) envelope).

Definition delegator_Result (opID : string) : prog clientE (result herror ResultState) := client_Result opID.

End Envelopes.
