(* ===== verification/WorkerTask.v ===== *)
(** * One task on the worker (internal/protocol/worker.go, containment.go)

    The execution of an untrusted command and the proof that nothing of it is
    left running: its own process group, killed and listed until it is empty,
    and the sweep of every process the worker has adopted.  Both end by a
    deadline on the clock; a loop that needs more passes than its fuel is left
    at [TaskStillGoing] (see [still_going] of HarnessWorld.v).

    The kernel answers arbitrarily.  Go leaves the order in which a map is ranged
    over open; here it is the order of [map_to_list]. *)

From S2P Require Import Prelude Effects GoStrings GoTime HarnessErrors Session HarnessLedger Devenv HarnessWorld.
Local Open Scope string_scope.
Local Open Scope Z_scope.

(** ** The operating system *)

Inductive stat_read := StatData (data : string) | StatGone | StatFailed.

(** A refused system call: [ESRCH], [ELOOP], or another error. *)
Inductive errno := ESRCH | ELOOP | EUnsupported | EOther.

(** How [cmd.Wait] ended: an exit status, a clean exit, or another error with
    the process state it left. *)
Inductive wait_end := WExit (code : Z) | WClean | WOther (state : option Z).

Record waited := { wt_end : wait_end; wt_stdout : list string; wt_stderr : list string }.

Inductive taskE : Type -> Type :=
| Environ : taskE (list string)
| TaskCancelled (opID : string) : taskE bool
| TaskNow : taskE Time
| TaskSleep : taskE unit
| TaskStillGoing : taskE Empty_set
| SelfPID : taskE Z
| StartChild (argv : list string) (env : option (list string)) : taskE (result string Z)
| KillChild (pid : Z) : taskE unit
| WaitChild (pid : Z) : taskE waited
| SignalGroup (pgid : Z) : taskE unit
| ProbeGroup (pgid : Z) : taskE (option errno)
| OpenPidfd (pid : Z) : taskE (result errno Z)
| PidfdSignal (fd : Z) : taskE (option errno)
| CloseFd (fd : Z) : taskE unit
| ReapNoHang (pid : Z) : taskE bool
| ReadProc : taskE (result string (list string))
| ReadTaskDir : taskE (result string (list string))
| ReadChildren (tid : Z) : taskE (option string)
| ReadStat (pid : Z) : taskE stat_read
| GateLock : taskE unit
| GateUnlock : taskE unit
| Supervision X (f : gmap Z Z -> gmap Z Z * X) : taskE X
| OpenWorkspace : taskE (option Z)
| Openat (dirfd : Z) (name : string) (parent : bool) : taskE (result errno Z)
| FileStat (fd : Z) : taskE (option (bool * Z))
| ReadLimited (fd limit : Z) : taskE (option string).
Arguments Supervision {X} f.

Definition task_still_going {A} : prog taskE A := Vis TaskStillGoing (fun x : Empty_set => match x with end).

(** ** Captured streams *)

Definition maxArtifactBytes : Z := 64 * 2 ^ 20.
Definition maxResultStreamBytes : Z := 64 * 2 ^ 20.
Definition resultTailBytes : Z := 64 * 2 ^ 10.

Record tailBuffer := { tb_max : Z; tailSize : Z; tb_buf : string; tb_total : Z }.

Definition newTailBuffer (max tail : Z) : tailBuffer := {| tb_max := max; tailSize := tail; tb_buf := ""; tb_total := 0 |}.

(** [Write]: the flag is the error. *)
Definition tail_Write (t : tailBuffer) (p : string) : tailBuffer * bool :=
  let total := tb_total t + slen p in
  if tb_max t <? total then ({| tb_max := tb_max t; tailSize := tailSize t; tb_buf := tb_buf t; tb_total := total |}, false) else
  let buf := tb_buf t ++ p in
  let buf := if tailSize t <? slen buf then sdrop (Z.to_nat (slen buf - tailSize t)) buf else buf in
  ({| tb_max := tb_max t; tailSize := tailSize t; tb_buf := buf; tb_total := total |}, true).

(** [os/exec] copies a stream chunk by chunk and stops at a failed write. *)
Fixpoint copy_stream (t : tailBuffer) (chunks : list string) : tailBuffer :=
  match chunks with
  | [] => t
  | p :: rest => let '(t, ok) := tail_Write t p in if ok : bool then copy_stream t rest else t
  end.

Definition captured_tail (chunks : list string) : string :=
  tb_buf (copy_stream (newTailBuffer maxResultStreamBytes resultTailBytes) chunks).

(** ** Processes *)

Record procInfo := { pi_state : string; pi_ppid : Z; pi_pgid : Z; pi_fd : Z }.

Inductive stat_error := EGone | EUnreadable.

Definition parse_stat (stat : string) : option procInfo :=
  match LastIndexByte stat ")" with
  | None => None
  | Some i =>
      match Fields (sdrop (S i) stat) with
      | state :: parent :: group :: _ =>
          match Atoi parent, Atoi group with
          | (p, true), (g, true) => Some {| pi_state := state; pi_ppid := p; pi_pgid := g; pi_fd := -1 |}
          | _, _ => None
          end
      | _ => None
      end
  end.

Definition processStat (pid : Z) : prog taskE (result stat_error procInfo) :=
  data ← call (ReadStat pid);
  mret (match data with
        | StatGone => Err EGone
        | StatFailed => Err EUnreadable
        | StatData stat => match parse_stat stat with Some i => Ok i | None => Err EUnreadable end
        end).

Definition leadsOwnProcessGroup (pid : Z) : prog taskE bool :=
  info ← processStat pid; mret (match info with Ok i => pi_pgid i =? pid | Err _ => false end).

(** A zombie holds nothing. *)
Definition is_live (i : procInfo) : bool := negb (String.eqb (pi_state i) "Z") && negb (String.eqb (pi_state i) "X").

Fixpoint live_members (pgid : Z) (entries : list string) (live : list Z) : prog taskE (result stat_error (list Z)) :=
  match entries with
  | [] => mret (Ok live)
  | name :: rest =>
      match Atoi name with
      | (pid, true) =>
          info ← processStat pid;
          match info with
          | Err EGone => live_members pgid rest live
          | Err e => mret (Err e)
          | Ok i =>
              if negb (pi_pgid i =? pgid) then live_members pgid rest live else
              live_members pgid rest (if is_live i then live ++ [pid] else live)%list
          end
      | _ => live_members pgid rest live
      end
  end.

Definition liveGroupMembers (pgid : Z) : prog taskE (result stat_error (list Z)) :=
  entries ← call ReadProc;
  match entries with Err _ => mret (Err EUnreadable) | Ok names => live_members pgid names [] end.

Definition taskTreeVerifyBound : Z := 5 * second.

Section Passes.
Context (passes : nat).

Fixpoint await_group_empty (fuel : nat) (pgid deadline : Z) : prog taskE Z :=
  match fuel with
  | O => task_still_going
  | S fuel =>
      info ← processStat pgid;
      if match info with Ok i => negb (pi_pgid i =? pgid) | Err _ => false end then mret 0 else
      _ ← call (SignalGroup pgid);
      live ← liveGroupMembers pgid;
      match live with
      | Err _ =>
          probe ← call (ProbeGroup pgid);
          match probe with Some ESRCH => mret 0 | _ => mret 1 end
      | Ok [] => mret 0
      | Ok pids =>
          now ← call TaskNow;
          if negb (now <? deadline) then mret (Z.of_nat (length pids)) else
          _ ← call TaskSleep;
          await_group_empty fuel pgid deadline
      end
  end.

Definition awaitProcessGroupEmpty (pgid : Z) : prog taskE Z :=
  now ← call TaskNow; await_group_empty passes pgid (now + taskTreeVerifyBound).

(** ** The sweep of adopted trees *)

Fixpoint close_fds (infos : list (Z * procInfo)) : prog taskE unit :=
  match infos with
  | [] => mret tt
  | (_, i) :: rest => _ ← (if 0 <=? pi_fd i then call (CloseFd (pi_fd i)) else mret tt); close_fds rest
  end.

Definition closeProcFds (snapshot : gmap Z procInfo) : prog taskE unit := close_fds (map_to_list snapshot).

Definition with_fd (i : procInfo) (fd : Z) : procInfo := {| pi_state := pi_state i; pi_ppid := pi_ppid i; pi_pgid := pi_pgid i; pi_fd := fd |}.

Fixpoint snapshot_entries (entries : list string) (snapshot : gmap Z procInfo) : prog taskE (option (gmap Z procInfo)) :=
  match entries with
  | [] => mret (Some snapshot)
  | name :: rest =>
      match Atoi name with
      | (pid, true) =>
          pinned ← call (OpenPidfd pid);
          match pinned with
          | Err ESRCH => snapshot_entries rest snapshot
          | Err _ => _ ← closeProcFds snapshot; mret None
          | Ok fd =>
              info ← processStat pid;
              match info with
              | Err EGone => _ ← call (CloseFd fd); snapshot_entries rest snapshot
              | Err _ => _ ← call (CloseFd fd); _ ← closeProcFds snapshot; mret None
              | Ok i => snapshot_entries rest (<[pid := with_fd i fd]> snapshot)
              end
          end
      | _ => snapshot_entries rest snapshot
      end
  end.

Definition processSnapshot : prog taskE (option (gmap Z procInfo)) :=
  entries ← call ReadProc;
  match entries with Err _ => mret None | Ok names => snapshot_entries names ∅ end.

Definition supervises (pid : Z) : prog taskE bool := call (Supervision (fun m => (m, bool_decide (is_Some (m !! pid))))).

Fixpoint reap_zombies (infos : list (Z * procInfo)) (self : Z) : prog taskE unit :=
  match infos with
  | [] => mret tt
  | (pid, i) :: rest =>
      _ ← (if negb (pi_ppid i =? self) || (pid =? self) then mret tt else
           s ← supervises pid;
           if (s : bool) || is_live i then mret tt else _ ← call (ReapNoHang pid); mret tt);
      reap_zombies rest self
  end.

Definition reapAdoptedZombies (snapshot : gmap Z procInfo) (self : Z) : prog taskE unit := reap_zombies (map_to_list snapshot) self.

Definition children_of (snapshot : gmap Z procInfo) (parent : Z) : list Z :=
  omap (fun e => if pi_ppid e.2 =? parent then Some e.1 else None) (map_to_list snapshot).

(** The roots: direct children that are not task leaders. *)
Fixpoint adopted_roots (self : Z) (pids : list Z) : prog taskE (list Z) :=
  match pids with
  | [] => mret []
  | pid :: rest =>
      keep ← (if pid =? self then mret false else s ← supervises pid; mret (negb s));
      roots ← adopted_roots self rest;
      mret (if keep : bool then pid :: roots else roots)
  end.

(** The closure of the roots over the parent map: a stack of pids to visit. *)
Fixpoint visit (fuel : nat) (snapshot : gmap Z procInfo) (queue : list Z) (seen : gset Z) (live : list procInfo) : list procInfo :=
  match fuel, queue with
  | O, _ | _, [] => live
  | S fuel, pid :: rest =>
      if bool_decide (pid ∈ seen) then visit fuel snapshot rest seen live else
      let seen := {[pid]} ∪ seen in
      match snapshot !! pid with
      | None => visit fuel snapshot rest seen live
      | Some i => visit fuel snapshot (rev (children_of snapshot pid) ++ rest) seen (if is_live i then live ++ [i] else live)
      end
  end.

(** A process enters the stack once as a root and once as a child. *)
Definition visits (snapshot : gmap Z procInfo) (roots : list Z) : nat := S (length roots + size snapshot).

Definition adoptedLiveProcesses (snapshot : gmap Z procInfo) (self : Z) : prog taskE (list procInfo) :=
  roots ← adopted_roots self (children_of snapshot self);
  mret (visit (visits snapshot roots) snapshot (rev roots) ∅ []).

(** A killed process that is gone is a success; another refusal is not. *)
Fixpoint kill_adopted (live : list procInfo) : prog taskE bool :=
  match live with
  | [] => mret true
  | i :: rest =>
      failed ← call (PidfdSignal (pi_fd i));
      match failed with
      | None | Some ESRCH => kill_adopted rest
      | Some _ => mret false
      end
  end.

Fixpoint sweep (fuel : nat) (self deadline : Z) : prog taskE (option Z) :=
  match fuel with
  | O => task_still_going
  | S fuel =>
      _ ← call GateLock;
      snap ← processSnapshot;
      match snap with
      | None => _ ← call GateUnlock; mret None
      | Some snapshot =>
          _ ← reapAdoptedZombies snapshot self;
          live ← adoptedLiveProcesses snapshot self;
          killed ← (match live with
                    | [] => mret true
                    | _ => now ← call TaskNow; if now <? deadline then kill_adopted live else mret true
                    end);
          _ ← closeProcFds snapshot;
          _ ← call GateUnlock;
          if negb killed then mret None else
          match live with
          | [] => mret (Some 0)
          | _ =>
              now ← call TaskNow;
              if negb (now <? deadline) then mret (Some (Z.of_nat (length live))) else
              _ ← call TaskSleep;
              sweep fuel self deadline
          end
      end
  end.

(** [None] is the error: without a listing nothing is proved. *)
Definition sweepAdoptedTrees : prog taskE (option Z) :=
  now ← call TaskNow; self ← call SelfPID; sweep passes self (now + taskTreeVerifyBound).

(** ** Task children *)

Definition no_output : waited := {| wt_end := WOther None; wt_stdout := []; wt_stderr := [] |}.

Inductive start_error := StartFailed (text : string) | NoProcessGroup | Unproven (survivors : Z) (cause : start_error).

Definition errNoProcessGroup : string := "task process group was not established".

Definition supervise (pid fd : Z) : prog taskE unit := call (Supervision (fun m => (<[pid := fd]> m, tt))).

Definition registerSupervised (pid : Z) : prog taskE bool :=
  pinned ← call (OpenPidfd pid);
  match pinned with Err _ => mret false | Ok fd => _ ← supervise pid fd; mret true end.

Definition releaseTaskChild (pid : Z) : prog taskE unit :=
  pin ← call (Supervision (fun m => (delete pid m, m !! pid)));
  match pin with Some fd => if 0 <=? fd then call (CloseFd fd) else mret tt | None => mret tt end.

(** With what the child had written. *)
Definition terminateUnregistered (pid : Z) (cause : start_error) : prog taskE (start_error * waited) :=
  _ ← call (KillChild pid);
  _ ← call (SignalGroup pid);
  pin ← call (OpenPidfd pid);
  w ← call (WaitChild pid);
  _ ← call GateUnlock;
  match pin with
  | Err _ => _ ← sweepAdoptedTrees; mret (Unproven 1 cause, w)
  | Ok fd =>
      survivors ← awaitProcessGroupEmpty pid;
      swept ← sweepAdoptedTrees;
      _ ← call (CloseFd fd);
      match swept with
      | None => mret (Unproven (survivors + 1) cause, w)
      | Some n => if 0 <? survivors + n then mret (Unproven (survivors + n) cause, w) else mret (cause, w)
      end
  end.

Definition startTaskChild (argv : list string) (env : option (list string)) : prog taskE (result (start_error * waited) Z) :=
  _ ← call GateLock;
  started ← call (StartChild argv env);
  match started with
  | Err text => _ ← call GateUnlock; mret (Err (StartFailed text, no_output))
  | Ok pid =>
      registered ← registerSupervised pid;
      if registered : bool then _ ← call GateUnlock; mret (Ok pid) else
      e ← terminateUnregistered pid (StartFailed "protocol: could not pin supervised pid"); mret (Err e)
  end.

Fixpoint is_no_group (e : start_error) : bool :=
  match e with NoProcessGroup => true | StartFailed _ => false | Unproven _ cause => is_no_group cause end.

(** ** The adopted-child reaper *)

Fixpoint read_children (tids : list string) (pids : list Z) (read : nat) : prog taskE (list Z * nat) :=
  match tids with
  | [] => mret (pids, read)
  | name :: rest =>
      match Atoi name with
      | (tid, true) =>
          data ← call (ReadChildren tid);
          match data with
          | None => read_children rest pids read
          | Some d => read_children rest (pids ++ omap (fun f => match Atoi f with (pid, true) => Some pid | _ => None end) (Fields d)) (S read)
          end
      | _ => read_children rest pids read
      end
  end.

Definition directChildPIDs : prog taskE (option (list Z)) :=
  tasks ← call ReadTaskDir;
  match tasks with
  | Err _ => mret None
  | Ok names => '(pids, read) ← read_children names [] 0; mret (if (read =? 0)%nat then None else Some pids)
  end.

Fixpoint reap_unsupervised (pids : list Z) : prog taskE bool :=
  match pids with
  | [] => mret false
  | pid :: rest =>
      collected ← (s ← supervises pid; if s : bool then mret false else call (ReapNoHang pid));
      more ← reap_unsupervised rest;
      mret (collected || more)
  end.

Fixpoint drain_loop (fuel : nat) : prog taskE unit :=
  match fuel with
  | O => task_still_going
  | S fuel =>
      pids ← directChildPIDs;
      match pids with
      | None => mret tt
      | Some pids => collected ← reap_unsupervised pids; if collected : bool then drain_loop fuel else mret tt
      end
  end.

Definition drain : prog taskE unit := _ ← call GateLock; _ ← drain_loop passes; call GateUnlock.

(** ** Artifacts *)

(** [filepath.Clean] of a rooted path, by its elements. *)
Fixpoint clean_elements (parts : list string) (acc : list string) : list string :=
  match parts with
  | [] => rev acc
  | p :: rest =>
      if String.eqb p "" || String.eqb p "." then clean_elements rest acc else
      if String.eqb p ".." then clean_elements rest (tail acc) else clean_elements rest (p :: acc)
  end.

Definition artifact_elements (declared : string) : list string := clean_elements (Split declared "/") [].

Fixpoint walk_artifact (dirfd : Z) (first : bool) (elements : list string) : prog taskE (result string Z) :=
  match elements with
  | [] => mret (Ok dirfd)
  | name :: rest =>
      let parent := match rest with [] => false | _ => true end in
      opened ← call (Openat dirfd name parent);
      _ ← (if first then mret tt else call (CloseFd dirfd));
      match opened with
      | Ok next => walk_artifact next false rest
      | Err EUnsupported => mret (Err "artifact confinement openat is unsupported on this platform")
      | Err ELOOP => mret (Err (if parent then "artifact path escapes the workspace" else "artifact must be a regular file"))
      | Err _ => mret (Err "declared artifact is unavailable")
      end
  end.

Definition readArtifactBounded (fd : Z) : prog taskE (result string string) :=
  data ← call (ReadLimited fd (maxArtifactBytes + 1));
  mret (match data with
        | None => Err "artifact read failed"
        | Some d => if maxArtifactBytes <? slen d then Err "artifact exceeds the bound and is rejected whole" else Ok d
        end).

Definition readArtifact (declared : string) : prog taskE (result string string) :=
  match artifact_elements declared with
  | [] => mret (Err "declared artifact is unavailable")
  | elements =>
      let rel := Join elements "/" in
      if String.eqb rel ".." || HasPrefix rel "../" then mret (Err "artifact path escapes the workspace") else
      dir ← call OpenWorkspace;
      match dir with
      | None => mret (Err "declared artifact is unavailable")
      | Some dirfd =>
          walked ← walk_artifact dirfd true elements;
          r ← (match walked with
               | Err e => mret (Err e)
               | Ok fd =>
                   info ← call (FileStat fd);
                   r ← (match info with
                        | None => mret (Err "artifact read failed")
                        | Some (regular, size) =>
                            if negb regular then mret (Err "artifact must be a regular file") else
                            if maxArtifactBytes <? size then mret (Err "artifact exceeds the bound and is rejected whole") else
                            readArtifactBounded fd
                        end);
                   _ ← call (CloseFd fd); mret r
               end);
          _ ← call (CloseFd dirfd);
          mret r
      end
  end.

(** ** The task *)

Definition maxTaskEnvBytes : Z := 64 * 2 ^ 10.

Definition taskEnvBytes (env : list string) : Z := foldr (fun record total => slen record + 1 + total) 0 env.

Definition env_rejected : WorkerResult :=
  {| wr_Status := WorkerResultFailed; wr_ExitCode := -1; StdoutTail := "";
     StderrTail := "task environment exceeds the 64 KiB dispatch bound and the task was rejected before execution";
     Artifact := ""; LiveDescendants := 0 |}.

(** A child that started without its own group is killed; its escapees are
    swept, and survivors keep the failure unproven. *)
Definition ungrouped (pid : Z) : prog taskE (start_error * waited) :=
  _ ← call (KillChild pid);
  w ← call (WaitChild pid);
  swept ← sweepAdoptedTrees;
  mret (match swept with
        | None => Unproven 1 NoProcessGroup
        | Some n => if 0 <? n then Unproven n NoProcessGroup else NoProcessGroup
        end, w).

Definition exit_of (e : wait_end) : Z :=
  match e with WExit code => code | WClean => 0 | WOther (Some code) => code | WOther None => -1 end.

Definition unproven_survivors (e : start_error) : option Z := match e with Unproven n _ => Some n | _ => None end.

Definition add_line (t line : string) : string := TrimSpace (t ++ nl ++ line).

(** What a grouped task left behind. *)
Definition left_running (pid : Z) : prog taskE Z :=
  group ← awaitProcessGroupEmpty pid;
  swept ← sweepAdoptedTrees;
  mret (match swept with None => group + 1 | Some n => group + n end).

(** The result of a task whose child ran, before its artifact is read. *)
Definition task_result (status : string) (exitCode : Z) (w : waited) (failed : option start_error) (live : Z) : WorkerResult :=
  {| wr_Status := status; wr_ExitCode := exitCode; StdoutTail := captured_tail (wt_stdout w);
     StderrTail := (if match failed with Some e => is_no_group e | None => false end
                    then add_line (captured_tail (wt_stderr w)) errNoProcessGroup else captured_tail (wt_stderr w));
     Artifact := "";
     LiveDescendants := match failed ≫= unproven_survivors with Some n => if n <? 1 then 1 else n | None => live end |}.

Definition with_artifact (r : WorkerResult) (artifact : result string string) : WorkerResult :=
  match artifact with
  | Err e => {| wr_Status := WorkerResultFailed; wr_ExitCode := wr_ExitCode r; StdoutTail := StdoutTail r;
                StderrTail := add_line (StderrTail r) e; Artifact := Artifact r; LiveDescendants := LiveDescendants r |}
  | Ok a => {| wr_Status := wr_Status r; wr_ExitCode := wr_ExitCode r; StdoutTail := StdoutTail r;
               StderrTail := StderrTail r; Artifact := a; LiveDescendants := LiveDescendants r |}
  end.

Definition task_status (cancelled : bool) (failed : option start_error) (exitCode : Z) : string :=
  if cancelled then ResultCancelled else
  if match failed with Some _ => true | None => false end || negb (exitCode =? 0) then WorkerResultFailed else ResultCompleted.

(** From the end of the child to its result. *)
Definition conclude (opID : string) (task : Task) (pid : option Z) (failed : option start_error) (w : waited) (exitCode : Z) : prog taskE WorkerResult :=
  cancelled ← call (TaskCancelled opID);
  let status := task_status cancelled failed exitCode in
  live ← (match pid with Some p => left_running p | None => mret 0 end);
  let r := task_result status exitCode w failed live in
  if negb (String.eqb (t_ArtifactPath task) "") && String.eqb status ResultCompleted
  then artifact ← readArtifact (t_ArtifactPath task); mret (with_artifact r artifact)
  else mret r.

Definition run_child (opID : string) (task : Task) (env : option (list string)) : prog taskE WorkerResult :=
  started ← startTaskChild (t_Command task) env;
  match started with
  | Err (e, w) => conclude opID task None (Some e) w (-1)
  | Ok pid =>
      grouped ← leadsOwnProcessGroup pid;
      r ← (if grouped : bool then
             w ← call (WaitChild pid);
             cancelled ← call (TaskCancelled opID);
             conclude opID task (Some pid) None w (if cancelled : bool then -1 else exit_of (wt_end w))
           else
             '(e, w) ← ungrouped pid;
             conclude opID task None (Some e) w (-1));
      _ ← releaseTaskChild pid;
      mret r
  end.

Definition runTask (opID : string) (task : Task) : prog taskE WorkerResult :=
  match t_Env task with
  | [] => run_child opID task None
  | env =>
      if maxTaskEnvBytes <? taskEnvBytes env then mret env_rejected else
      base ← call Environ;
      run_child opID task (Some (MergeEnv base env))
  end.
End Passes.

(** ** The closure of the adopted trees *)

(** The processes under the roots, by the parent map. *)
Inductive adopted (snapshot : gmap Z procInfo) (roots : list Z) : Z -> Prop :=
| adopted_root pid : pid ∈ roots -> adopted snapshot roots pid
| adopted_child pid parent i : adopted snapshot roots parent -> is_Some (snapshot !! parent) ->
    snapshot !! pid = Some i -> pi_ppid i = parent -> adopted snapshot roots pid.

Lemma children_of_spec snapshot parent pid :
  pid ∈ children_of snapshot parent <-> exists i, snapshot !! pid = Some i /\ pi_ppid i = parent.
Proof.
  unfold children_of. rewrite list_elem_of_omap. split.
  - intros ([p i] & He & Hs). apply elem_of_map_to_list in He. simpl in Hs. destruct (Z.eqb_spec (pi_ppid i) parent); simplify_eq. eauto.
  - intros (i & He & Hp). exists (pid, i). split; [by apply elem_of_map_to_list|]. simpl. by rewrite (proj2 (Z.eqb_eq _ _) Hp).
Qed.

(** The processes whose parent was not visited: what may still be pushed. *)
Definition unvisited (snapshot : gmap Z procInfo) (seen : gset Z) : nat :=
  length (filter (fun e => pi_ppid e.2 ∉ seen) (map_to_list snapshot)).

Lemma unvisited_step snapshot seen pid :
  pid ∉ seen -> (unvisited snapshot ({[pid]} ∪ seen) + length (children_of snapshot pid))%nat = unvisited snapshot seen.
Proof.
  intros Hn. unfold unvisited, children_of. induction (map_to_list snapshot) as [|[p i] l IH]; [done|].
  rewrite !filter_cons. cbn [omap list_omap snd]. 
  destruct (Z.eqb_spec (pi_ppid i) pid) as [->|Hne].
  - rewrite decide_False by set_solver. rewrite decide_True by done. cbn [length]. lia.
  - destruct (decide (pi_ppid i ∉ seen)) as [Hs|Hs].
    + rewrite decide_True by set_solver. cbn [length]. lia.
    + rewrite decide_False by set_solver. lia.
Qed.

Lemma unvisited_size snapshot : unvisited snapshot ∅ = size snapshot.
Proof.
  unfold unvisited. rewrite <- length_map_to_list. induction (map_to_list snapshot) as [|e l IH]; [done|].
  rewrite filter_cons, decide_True by set_solver. cbn [length]. by rewrite IH.
Qed.

Lemma elem_of_rev {A} (x : A) l : x ∈ rev l <-> x ∈ l.
Proof. rewrite !list_elem_of_In. symmetry. apply in_rev. Qed.

(** What the traversal has established: its stack and what it saw are adopted,
    every root and every child of what it saw is seen or on the stack, and
    [live] are the live ones it saw. *)
Record traversal (snapshot : gmap Z procInfo) (roots : list Z) (queue : list Z) (seen : gset Z) (live : list procInfo) : Prop := {
  tv_sound : forall p, p ∈ queue \/ p ∈ seen -> adopted snapshot roots p;
  tv_roots : forall p, p ∈ roots -> p ∈ queue \/ p ∈ seen;
  tv_closed : forall p q i, p ∈ seen -> is_Some (snapshot !! p) -> snapshot !! q = Some i -> pi_ppid i = p -> q ∈ queue \/ q ∈ seen;
  tv_live : forall i, i ∈ live <-> exists p, p ∈ seen /\ snapshot !! p = Some i /\ is_live i = true
}.

Lemma visit_spec snapshot roots fuel queue seen live :
  traversal snapshot roots queue seen live -> (length queue + unvisited snapshot seen < fuel)%nat ->
  forall i, i ∈ visit fuel snapshot queue seen live <-> exists p, adopted snapshot roots p /\ snapshot !! p = Some i /\ is_live i = true.
Proof.
  revert queue seen live. induction fuel as [|fuel IH]; intros queue seen live T Hf; [lia|]. destruct queue as [|pid rest]; simpl.
  { intros i. rewrite (tv_live _ _ _ _ _ T). assert (Hall : forall p, adopted snapshot roots p -> p ∈ seen).
    { induction 1 as [p Hp|p parent j _ IHp Hs Hj Hpp].
      - destruct (tv_roots _ _ _ _ _ T p Hp) as [H|H]; [set_solver|done].
      - destruct (tv_closed _ _ _ _ _ T parent p j IHp Hs Hj Hpp) as [H|H]; [set_solver|done]. }
    split; intros (p & Hp & Hi); exists p; split; auto. apply (tv_sound _ _ _ _ _ T). by right. }
  simpl in Hf. destruct (bool_decide_reflect (pid ∈ seen)) as [Hin|Hout].
  { apply IH; [|lia]. destruct T as [T1 T2 T3 T4]. constructor; [intros p Hp; apply T1; set_solver| | |done].
    - intros p Hp. destruct (T2 p Hp); set_solver.
    - intros p q j H1 H2 H3 H4. destruct (T3 p q j H1 H2 H3 H4); set_solver. }
  pose proof (unvisited_step snapshot seen pid Hout) as Hu.
  destruct (snapshot !! pid) as [info|] eqn:Hi.
  - apply IH; [|rewrite length_app, length_rev; lia]. destruct T as [T1 T2 T3 T4].
    assert (Hpid : adopted snapshot roots pid) by (apply T1; left; set_solver). constructor.
    + intros p [[Hp|Hp]%elem_of_app|Hp].
      * apply elem_of_rev, children_of_spec in Hp as (j & Hj & Hpp). eapply adopted_child; [exact Hpid|by rewrite Hi|exact Hj|done].
      * apply T1. set_solver.
      * apply elem_of_union in Hp as [->%elem_of_singleton|Hp]; [done|]. apply T1. by right.
    + intros p Hp. destruct (T2 p Hp); set_solver.
    + intros p q j [->%elem_of_singleton|H1]%elem_of_union H2 H3 H4.
      * left. apply elem_of_app. left. apply elem_of_rev, children_of_spec. eauto.
      * destruct (T3 p q j H1 H2 H3 H4); set_solver.
    + intros j. destruct (is_live info) eqn:Hl.
      * rewrite elem_of_app, T4, list_elem_of_singleton. split.
        -- intros [(p & ? & ?)| ->]; [exists p; set_solver|exists pid; set_solver].
        -- intros (p & [->%elem_of_singleton|Hp]%elem_of_union & Hpi & Hlive); [right; congruence|left; eauto].
      * rewrite T4. split; intros (p & Hp & Hpi & Hlive); exists p; split; auto; [set_solver|].
        apply elem_of_union in Hp as [->%elem_of_singleton|Hp]; [congruence|done].
  - apply IH; [|lia]. destruct T as [T1 T2 T3 T4]. constructor.
    + intros p [Hp|[->%elem_of_singleton|Hp]%elem_of_union]; apply T1; set_solver.
    + intros p Hp. destruct (T2 p Hp); set_solver.
    + intros p q j [->%elem_of_singleton|H1]%elem_of_union H2 H3 H4; [by destruct H2 as [? ?]; congruence|].
      destruct (T3 p q j H1 H2 H3 H4); set_solver.
    + intros j. rewrite T4. split; intros (p & Hp & Hpi & Hlive); exists p; split; auto; [set_solver|].
      apply elem_of_union in Hp as [->%elem_of_singleton|Hp]; [congruence|done].
Qed.

(** The traversal finds exactly the live processes under the roots. *)
Lemma visit_exact snapshot roots i :
  i ∈ visit (visits snapshot roots) snapshot (rev roots) ∅ [] <-> exists p, adopted snapshot roots p /\ snapshot !! p = Some i /\ is_live i = true.
Proof.
  apply visit_spec.
  - constructor.
    + intros p [Hp|Hp]; [|set_solver]. apply adopted_root. by rewrite elem_of_rev in Hp.
    + intros p Hp. left. by rewrite elem_of_rev.
    + set_solver.
    + intros j. split; [intros Hj; by apply elem_of_nil in Hj|intros (p & Hp & _); set_solver].
  - rewrite length_rev, unvisited_size. unfold visits. lia.
Qed.

(** ** What a pass proves *)

(** A child that was started. *)
Definition child_of (ev : event taskE) : option Z :=
  match ev with
  | Ev e x => match e in taskE X return X -> option Z with
              | StartChild _ _ => fun r => match r with Ok pid => Some pid | Err _ => None end
              | _ => fun _ => None
              end x
  end.

(** A pass of the sweep whose listing, under the gate, holds no live process
    under an adopted root. *)
Definition swept_clean (self : Z) (t : trace taskE) : Prop :=
  exists snapshot roots ts tr ta tc,
    t = (Ev GateLock tt :: ts ++ tr ++ ta ++ tc ++ [Ev GateUnlock tt])%list /\
    exec processSnapshot ts (Some snapshot) /\ exec (reapAdoptedZombies snapshot self) tr tt /\
    exec (adopted_roots self (children_of snapshot self)) ta roots /\ exec (closeProcFds snapshot) tc tt /\
    forall pid i, adopted snapshot roots pid -> snapshot !! pid = Some i -> is_live i = false.

Lemma still_never {A} t (a : A) : ~ exec (task_still_going) t a.
Proof. intros ([] & _). Qed.

Lemma sweep_result fuel self deadline t r :
  exec (sweep fuel self deadline) t (Some r) -> 0 <= r /\ (r = 0 -> exists t1 t2, t = (t1 ++ t2)%list /\ swept_clean self t2).
Proof.
  revert t. induction fuel as [|fuel IH]; intros t H; [by apply still_never in H|]. cbn [sweep] in H.
  ecall H as u. destruct u. ebind H as snap ts Hsnap. destruct snap as [snapshot|]; [|ecall H as u; by apply exec_mret in H as [_ ?]].
  ebind H as u tr Htr. destruct u. ebind H as live ta Hta. unfold adoptedLiveProcesses in Hta. ebind Hta as roots ta' Hroots.
  apply exec_mret in Hta as [-> Hlive]. rewrite app_nil_r in *. ebind H as killed tk Hk. ebind H as u tc Htc. destruct u. ecall H as u. destruct u.
  destruct (negb killed); [by apply exec_mret in H as [_ ?]|]. destruct live as [|i rest'].
  - apply exec_mret in H as [-> [= ->]]. split; [done|]. intros _. apply exec_mret in Hk as [-> ->]. exists [].
    eexists. split; [done|]. exists snapshot, roots, ts, tr, ta', tc. split_and!; try done.
    intros pid j Hp Hj. destruct (is_live j) eqn:Hl; [|done]. exfalso.
    assert (Hin : j ∈ ([] : list procInfo)) by (rewrite Hlive; apply visit_exact; eauto). by apply elem_of_nil in Hin.
  - ecall H as now. destruct (negb (now <? deadline)).
    + apply exec_mret in H as [-> [= ->]]. simpl. split; [lia|]. lia.
    + ecall H as u. destruct u. apply IH in H as [H1 H2]. split; [done|]. intros Hr. destruct (H2 Hr) as (u1 & u2 & -> & Hc).
      eexists _, u2. split; [|done]. rewrite !app_assoc. done.
Qed.

Lemma sweepAdoptedTrees_result passes t r :
  exec (sweepAdoptedTrees passes) t (Some r) ->
  0 <= r /\ (r = 0 -> exists self t1 t2, t = (t1 ++ t2)%list /\ swept_clean self t2).
Proof.
  intros H. unfold sweepAdoptedTrees in H. ecall H as now. ecall H as self. apply sweep_result in H as [H1 H2]. split; [done|].
  intros Hr. destruct (H2 Hr) as (u1 & u2 & -> & Hc). eexists self, _, u2. split; [|done]. by rewrite !app_assoc.
Qed.

(** The snapshot is complete: a listed process is in it, or was confirmed gone. *)
Lemma snapshot_entries_complete names snapshot0 t snapshot :
  exec (snapshot_entries names snapshot0) t (Some snapshot) ->
  (forall pid, is_Some (snapshot0 !! pid) -> is_Some (snapshot !! pid)) /\
  forall name pid, name ∈ names -> Atoi name = (pid, true) ->
    is_Some (snapshot !! pid) \/ Ev (OpenPidfd pid) (Err ESRCH) ∈ t \/ Ev (ReadStat pid) StatGone ∈ t.
Proof.
  revert snapshot0 t. induction names as [|name names IH]; intros snapshot0 t H; cbn [snapshot_entries] in H.
  { apply exec_mret in H as [-> [= ->]]. split; [done|]. intros ? ? Hin. by apply elem_of_nil in Hin. }
  assert (Hskip : forall P : Z -> Prop, (forall pid, Atoi name = (pid, true) -> P pid) ->
    (forall name' pid, name' ∈ names -> Atoi name' = (pid, true) -> P pid) ->
    forall name' pid, name' ∈ name :: names -> Atoi name' = (pid, true) -> P pid).
  { intros P H1 H2 name' pid [->|Hin]%elem_of_cons; eauto. }
  destruct (Atoi name) as [pid0 [|]] eqn:Hname.
  2: { apply IH in H as [H1 H2]. split; [done|]. apply Hskip; [congruence|done]. }
  ecall H as pinned. destruct pinned as [fd|[]]; try (ebind H as u tc Htc; by apply exec_mret in H as [_ ?]).
  - ebind H as info ti Hi. destruct info as [i|[|]].
    + apply IH in H as [H1 H2]. split; [intros p Hp; apply H1; destruct (decide (p = pid0)) as [->|]; simplify_map_eq; eauto|].
      apply Hskip; [intros p [= <-]; left; apply H1; simplify_map_eq; eauto|]. intros n p Hn Hp. destruct (H2 n p Hn Hp) as [?|[?|?]]; [by left|..].
      * right. left. set_solver.
      * right. right. set_solver.
    + assert (Hg : Ev (ReadStat pid0) StatGone ∈ ti).
      { unfold processStat in Hi. ecall Hi as d. apply exec_mret in Hi as [-> Hi]. destruct d as [d| |]; [|set_solver|done]. by destruct (parse_stat d). }
      ecall H as u. apply IH in H as [H1 H2]. split; [done|]. apply Hskip; [intros p [= <-]; right; right; set_solver|].
      intros n p Hn Hp. destruct (H2 n p Hn Hp) as [?|[?|?]]; [by left|right; left; set_solver|right; right; set_solver].
    + ecall H as u. ebind H as u' tc Htc. by apply exec_mret in H as [_ ?].
  - apply IH in H as [H1 H2]. split; [done|]. apply Hskip; [intros p [= <-]; right; left; set_solver|].
    intros n p Hn Hp. destruct (H2 n p Hn Hp) as [?|[?|?]]; [by left|right; left; set_solver|right; right; set_solver].
Qed.

(** A listing that found no live member saw every listed process gone, in
    another group, or dead. *)
Definition not_member (pgid pid : Z) (t : trace taskE) : Prop :=
  Ev (ReadStat pid) StatGone ∈ t \/
  exists d i, Ev (ReadStat pid) (StatData d) ∈ t /\ parse_stat d = Some i /\ (pi_pgid i <> pgid \/ is_live i = false).

Lemma not_member_app pgid pid t1 t2 : not_member pgid pid t2 -> not_member pgid pid (t1 ++ t2)%list.
Proof. unfold not_member. setoid_rewrite elem_of_app. naive_solver. Qed.

Lemma processStat_read pid t r :
  exec (processStat pid) t r ->
  match r with
  | Ok i => exists d, t = [Ev (ReadStat pid) (StatData d)] /\ parse_stat d = Some i
  | Err EGone => t = [Ev (ReadStat pid) StatGone]
  | Err EUnreadable => True
  end.
Proof.
  intros H. unfold processStat in H. ecall H as d. apply exec_mret in H as [-> ->]. destruct d as [d| |]; [|done..].
  destruct (parse_stat d) eqn:Hp; [|done]. by exists d.
Qed.

Lemma live_members_complete pgid names live t :
  exec (live_members pgid names live) t (Ok []) ->
  live = [] /\ forall name pid, name ∈ names -> Atoi name = (pid, true) -> not_member pgid pid t.
Proof.
  revert live t. induction names as [|name names IH]; intros live t H; cbn [live_members] in H.
  { apply exec_mret in H as [-> [= ->]]. split; [done|]. intros ? ? Hin. by apply elem_of_nil in Hin. }
  destruct (Atoi name) as [pid0 [|]] eqn:Hname.
  2: { apply IH in H as [H1 H2]. split; [done|]. intros n p [->|Hn]%elem_of_cons Hp; [congruence|eauto]. }
  ebind H as info ti Hi. apply processStat_read in Hi.
  assert (Hcons : forall t2, not_member pgid pid0 (ti ++ t2)%list ->
    (forall n p, n ∈ names -> Atoi n = (p, true) -> not_member pgid p t2) ->
    forall n p, n ∈ name :: names -> Atoi n = (p, true) -> not_member pgid p (ti ++ t2)%list).
  { intros t2 H1 H2 n p [->|Hn]%elem_of_cons Hp; [congruence|]. apply not_member_app. eauto. }
  destruct info as [i|[|]]; [|subst ti|by apply exec_mret in H as [_ ?]].
  - destruct Hi as (d & -> & Hd). assert (Hread : Ev (ReadStat pid0) (StatData d) ∈ ([Ev (ReadStat pid0) (StatData d)] ++ rest)%list) by set_solver.
    destruct (Z.eqb_spec (pi_pgid i) pgid) as [Hg|Hg]; cbn [negb] in H.
    + apply IH in H as [H1 H2]. destruct (is_live i) eqn:Hl; [by apply app_eq_nil in H1 as [_ ?]|]. split; [done|].
      apply Hcons; [|done]. right. exists d, i. auto.
    + apply IH in H as [H1 H2]. split; [done|]. apply Hcons; [|done]. right. exists d, i. auto.
  - apply IH in H as [H1 H2]. split; [done|]. apply Hcons; [|done]. left. set_solver.
Qed.

(** The proofs that a process group is empty: its number answers for another
    group, a listing found no live member, or the kernel knows no member. *)
Inductive emptied (pgid : Z) : trace taskE -> Prop :=
| emptied_other d i : parse_stat d = Some i -> pi_pgid i <> pgid -> emptied pgid [Ev (ReadStat pgid) (StatData d)]
| emptied_listing names t : (forall name pid, name ∈ names -> Atoi name = (pid, true) -> not_member pgid pid t) ->
    emptied pgid (Ev (SignalGroup pgid) tt :: Ev ReadProc (Ok names) :: t)
| emptied_probe t : emptied pgid (Ev (SignalGroup pgid) tt :: (t ++ [Ev (ProbeGroup pgid) (Some ESRCH)])%list).

Lemma await_group_result fuel pgid deadline t r :
  exec (await_group_empty fuel pgid deadline) t r -> 0 <= r /\ (r = 0 -> exists t1 t2, t = (t1 ++ t2)%list /\ emptied pgid t2).
Proof.
  revert t. induction fuel as [|fuel IH]; intros t H; [by apply still_never in H|]. cbn [await_group_empty] in H.
  ebind H as info ti Hi. apply processStat_read in Hi.
  destruct (match info with Ok i => negb (pi_pgid i =? pgid) | Err _ => false end) eqn:Hother.
  { apply exec_mret in H as [-> ->]. split; [done|]. intros _. destruct info as [i|]; [|done]. destruct Hi as (d & -> & Hd).
    exists [], [Ev (ReadStat pgid) (StatData d)]. split; [done|]. apply (emptied_other pgid d i Hd). by apply negb_true_iff, Z.eqb_neq in Hother. }
  ecall H as u. destruct u. ebind H as live tl Hl. destruct live as [pids|e].
  - unfold liveGroupMembers in Hl. ecall Hl as names. destruct names as [names|]; [|by apply exec_mret in Hl as [_ ?]].
    destruct pids as [|pid pids].
    + apply exec_mret in H as [-> ->]. split; [done|]. intros _. apply live_members_complete in Hl as [_ Hl].
      eexists ti, _. split; [|by apply (emptied_listing pgid names)]. by rewrite app_nil_r.
    + ecall H as now. destruct (negb (now <? deadline)); [apply exec_mret in H as [-> ->]; simpl; lia|].
      ecall H as u. apply IH in H as [H1 H2]. split; [done|]. intros Hr. destruct (H2 Hr) as (u1 & u2 & -> & Hc).
      eexists _, u2. split; [|done]. by rewrite !app_assoc.
  - ecall H as probe. destruct probe as [[]|]; apply exec_mret in H as [-> ->]; (split; [lia|]); intros Hr; try done.
    eexists ti, _. split; [|apply (emptied_probe pgid tl)]. by rewrite app_nil_r.
Qed.

Lemma awaitProcessGroupEmpty_result passes pgid t r :
  exec (awaitProcessGroupEmpty passes pgid) t r -> 0 <= r /\ (r = 0 -> exists t1 t2, t = (t1 ++ t2)%list /\ emptied pgid t2).
Proof.
  intros H. unfold awaitProcessGroupEmpty in H. ecall H as now. apply await_group_result in H as [H1 H2]. split; [done|].
  intros Hr. destruct (H2 Hr) as (u1 & u2 & -> & Hc). eexists _, u2. split; [|done]. by rewrite app_assoc.
Qed.

(** ** Only one child is started *)

Definition childless {A} (p : prog taskE A) : Prop := forall t a, exec p t a -> Forall (fun ev => child_of ev = None) t.

Lemma childless_ret {A} (a : A) : childless (mret a).
Proof. intros t b [-> _]%exec_mret. done. Qed.

Lemma childless_bind {A B} (p : prog taskE A) (f : A -> prog taskE B) :
  childless p -> (forall a, childless (f a)) -> childless (p ≫= f).
Proof. intros Hp Hf t b H. ebind H as a t1 Ha. apply Forall_app. split; [by eapply Hp|by eapply Hf]. Qed.

Lemma childless_call {X} (e : taskE X) : (forall x, child_of (Ev e x) = None) -> childless (call e).
Proof. intros He t x ->%exec_call. by repeat constructor. Qed.

Lemma childless_still {A} : childless (task_still_going : prog taskE A).
Proof. intros t a H. by apply still_never in H. Qed.

Create HintDb childless.
#[export] Hint Resolve childless_ret childless_still : childless.
#[export] Hint Extern 1 (childless (call _)) => apply childless_call; intros; reflexivity : childless.

Ltac childless_step :=
  lazymatch goal with
  | |- childless (mbind _ _) => apply childless_bind; [|intros ?]
  | |- childless (match ?x with _ => _ end) => destruct x
  | |- childless (let _ := _ in _) => cbv zeta
  end.
Ltac childless := repeat first [solve [eauto with childless] | childless_step].

Lemma processStat_childless pid : childless (processStat pid).
Proof. unfold processStat. childless. Qed.
#[export] Hint Resolve processStat_childless : childless.

Lemma live_members_childless pgid names live : childless (live_members pgid names live).
Proof. revert live. induction names as [|n l IH]; intros live; cbn [live_members]; childless. Qed.
Lemma await_group_childless fuel pgid deadline : childless (await_group_empty fuel pgid deadline).
Proof.
  induction fuel as [|fuel IH]; cbn [await_group_empty]; [childless|]. unfold liveGroupMembers.
  pose proof live_members_childless. childless.
Qed.
Lemma awaitGroup_childless passes pgid : childless (awaitProcessGroupEmpty passes pgid).
Proof. pose proof await_group_childless. unfold awaitProcessGroupEmpty. childless. Qed.
Lemma close_fds_childless l : childless (close_fds l).
Proof. induction l as [|[p i] l IH]; cbn [close_fds]; childless. Qed.
#[export] Hint Resolve awaitGroup_childless close_fds_childless : childless.
Lemma snapshot_childless names s : childless (snapshot_entries names s).
Proof. revert s. induction names as [|n l IH]; intros s; cbn [snapshot_entries]; unfold closeProcFds; childless. Qed.
Lemma reap_childless l self : childless (reap_zombies l self).
Proof. induction l as [|[p i] l IH]; cbn [reap_zombies]; unfold supervises; childless. Qed.
Lemma roots_childless self l : childless (adopted_roots self l).
Proof. induction l as [|p l IH]; cbn [adopted_roots]; unfold supervises; childless. Qed.
Lemma kill_childless l : childless (kill_adopted l).
Proof. induction l as [|p l IH]; cbn [kill_adopted]; childless. Qed.
#[export] Hint Resolve snapshot_childless reap_childless roots_childless kill_childless : childless.
Lemma sweep_childless passes : childless (sweepAdoptedTrees passes).
Proof.
  unfold sweepAdoptedTrees. apply childless_bind; [childless|intros now]. apply childless_bind; [childless|intros self].
  induction passes as [|n IH]; cbn [sweep]; [childless|].
  unfold processSnapshot, reapAdoptedZombies, adoptedLiveProcesses, closeProcFds. childless.
Qed.
#[export] Hint Resolve sweep_childless : childless.
Lemma walk_childless d f l : childless (walk_artifact d f l).
Proof. revert d f. induction l as [|n l IH]; intros d f; cbn [walk_artifact]; childless. Qed.
#[export] Hint Resolve walk_childless : childless.
Lemma artifact_childless d : childless (readArtifact d).
Proof. unfold readArtifact, readArtifactBounded. childless. Qed.
#[export] Hint Resolve artifact_childless : childless.
Lemma conclude_childless passes op task pid failed w code : childless (conclude passes op task pid failed w code).
Proof. unfold conclude, left_running. childless. Qed.

(** ** A zero count is a proof *)

(** Nothing of the child's tree is left: its group was emptied, or it never led
    one, and then a sweep of the adopted processes came back clean. *)
Definition stop_proof (pid : Z) (t : trace taskE) : Prop :=
  exists t1 t2 t3 self, t = (t1 ++ t2 ++ t3)%list /\ swept_clean self t2 /\
    exists u1 u2 u3, t1 = (u1 ++ u2 ++ u3)%list /\ (emptied pid u2 \/ exec (leadsOwnProcessGroup pid) u2 false).

Lemma stop_proof_app pid t t' : stop_proof pid t -> stop_proof pid (t ++ t')%list.
Proof.
  intros (t1 & t2 & t3 & self & -> & H1 & H2). exists t1, t2, (t3 ++ t')%list, self. by rewrite <- !app_assoc.
Qed.

Lemma stop_proof_after pid t t' : stop_proof pid t -> stop_proof pid (t' ++ t)%list.
Proof.
  intros (t1 & t2 & t3 & self & -> & H1 & u1 & u2 & u3 & -> & H2). exists (t' ++ u1 ++ u2 ++ u3)%list, t2, t3, self.
  rewrite <- !app_assoc. split; [done|]. split; [done|]. exists (t' ++ u1)%list, u2, u3. by rewrite <- !app_assoc.
Qed.

Lemma stop_proof_intro pid tg tm ts self u1 u2 :
  (emptied pid tg \/ exec (leadsOwnProcessGroup pid) tg false) -> ts = (u1 ++ u2)%list -> swept_clean self u2 ->
  stop_proof pid (tg ++ tm ++ ts)%list.
Proof.
  intros Hg -> Hs. exists (tg ++ tm ++ u1)%list, u2, [], self. rewrite app_nil_r, <- !app_assoc. split; [done|]. split; [done|].
  exists [], tg, (tm ++ u1)%list. done.
Qed.

(** What a zero of the two proofs gives. *)
Lemma emptied_then_swept passes pid t1 t2 n :
  exec (awaitProcessGroupEmpty passes pid) t1 0 -> exec (sweepAdoptedTrees passes) t2 (Some n) -> n = 0 -> stop_proof pid (t1 ++ t2)%list.
Proof.
  intros Hg Hs ->. apply awaitProcessGroupEmpty_result in Hg as [_ Hg]. destruct (Hg eq_refl) as (u1 & u2 & -> & He).
  apply sweepAdoptedTrees_result in Hs as [_ Hs]. destruct (Hs eq_refl) as (self & v1 & v2 & Ht & Hc).
  rewrite <- app_assoc. apply stop_proof_after. by apply (stop_proof_intro pid u2 [] t2 self v1 v2); [left|..].
Qed.

Lemma left_running_zero passes pid t : exec (left_running passes pid) t 0 -> stop_proof pid t.
Proof.
  intros H. unfold left_running in H. ebind H as group tg Hg. ebind H as swept ts Hs. apply exec_mret in H as [-> H]. rewrite app_nil_r.
  pose proof (awaitProcessGroupEmpty_result _ _ _ _ Hg) as [Hg0 _]. destruct swept as [n|]; [|lia].
  pose proof (sweepAdoptedTrees_result _ _ _ Hs) as [Hn0 _]. assert (group = 0) as -> by lia. eapply emptied_then_swept; [exact Hg|exact Hs|lia].
Qed.

Lemma unregistered_zero passes pid cause t e w :
  unproven_survivors cause = None -> exec (terminateUnregistered passes pid cause) t (e, w) -> unproven_survivors e = None -> stop_proof pid t.
Proof.
  intros Hcause H He. unfold terminateUnregistered in H. ecall H as u1. ecall H as u2. ecall H as pin. ecall H as w'. ecall H as u3. destruct pin as [fd|err].
  - ebind H as survivors tg Hg. ebind H as swept ts Hs. ecall H as u4. destruct swept as [n|].
    2: { apply exec_mret in H as [_ [= -> ->]]. done. }
    pose proof (awaitProcessGroupEmpty_result _ _ _ _ Hg) as [Hg0 _]. pose proof (sweepAdoptedTrees_result _ _ _ Hs) as [Hn0 _].
    destruct (0 <? survivors + n) eqn:Hz; apply exec_mret in H as [-> [= -> ->]]; [done|]. assert (survivors = 0) as -> by lia.
    do 5 apply stop_proof_after. rewrite app_assoc. apply stop_proof_app. eapply emptied_then_swept; [exact Hg|exact Hs|lia].
  - ebind H as swept ts Hs. apply exec_mret in H as [_ [= -> ->]]. done.
Qed.

Lemma ungrouped_zero passes pid tl t e w :
  exec (leadsOwnProcessGroup pid) tl false -> exec (ungrouped passes pid) t (e, w) -> unproven_survivors e = None -> stop_proof pid (tl ++ t)%list.
Proof.
  intros Hl H He. unfold ungrouped in H. ecall H as u1. ecall H as w'. ebind H as swept ts Hs. apply exec_mret in H as [-> [= -> ->]].
  destruct swept as [n|]; [|done]. pose proof (sweepAdoptedTrees_result _ _ _ Hs) as [Hn0 Hn]. destruct (0 <? n) eqn:Hz; [done|].
  destruct (Hn ltac:(lia)) as (self & v1 & v2 & Ht & Hc). rewrite app_nil_r.
  exact (stop_proof_intro pid tl [Ev (KillChild pid) u1; Ev (WaitChild pid) w'] ts self v1 v2 (or_intror Hl) Ht Hc).
Qed.

(** The concluded count: the unproven survivors, or what the group left. *)
Lemma conclude_count passes opID task pid failed w code t r :
  exec (conclude passes opID task pid failed w code) t r -> LiveDescendants r = 0 ->
  (failed ≫= unproven_survivors) = None /\ (failed = None -> forall p, pid = Some p -> stop_proof p t).
Proof.
  intros H Hr. unfold conclude in H. ecall H as cancelled. ebind H as live tl Hl.
  assert (Hlive : LiveDescendants (task_result (task_status cancelled failed code) code w failed live) = 0).
  { destruct (_ && _) in H.
    - ebind H as artifact ta Ha. apply exec_mret in H as [_ ->]. by destruct artifact.
    - by apply exec_mret in H as [_ ->]. }
  simpl in Hlive. destruct (failed ≫= unproven_survivors) as [n|] eqn:Hf; [destruct (Z.ltb_spec n 1); lia|].
  split; [done|]. intros -> p ->. subst live. rewrite app_assoc. apply stop_proof_app, stop_proof_after. by eapply left_running_zero.
Qed.

(** One start at most, and what a zero count says of it. *)
Definition one_start (r : WorkerResult) (t : trace taskE) : Prop :=
  Forall (fun ev => child_of ev = None) t \/
  exists tA argv env pid tB, t = (tA ++ Ev (StartChild argv env) (Ok pid) :: tB)%list /\
    Forall (fun ev => child_of ev = None) tA /\ Forall (fun ev => child_of ev = None) tB /\ (LiveDescendants r = 0 -> stop_proof pid tB).

Lemma leads_childless pid : childless (leadsOwnProcessGroup pid).
Proof. unfold leadsOwnProcessGroup. childless. Qed.

Lemma terminate_childless passes pid cause : childless (terminateUnregistered passes pid cause).
Proof. unfold terminateUnregistered. childless. Qed.

Lemma run_child_one_start passes opID task env t r : exec (run_child passes opID task env) t r -> one_start r t.
Proof.
  intros H. unfold run_child in H. ebind H as started ts Hs. unfold startTaskChild in Hs.
  ecall Hs as u. destruct u. ecall Hs as child. destruct child as [pid|text].
  2: { left. ecall Hs as u. apply exec_mret in Hs as [-> ->]. simpl. repeat (apply Forall_cons; split; [done|]). by eapply conclude_childless. }
  right. exists [Ev GateLock tt], (t_Command task), env, pid. ebind Hs as registered tp Hp.
  assert (Hpc : Forall (fun ev => child_of ev = None) tp).
  { revert Hp. assert (Hc : childless (registerSupervised pid)) by (unfold registerSupervised, supervise; childless). apply Hc. }
  destruct registered.
  - ecall Hs as u. apply exec_mret in Hs as [-> ->]. ebind H as grouped tl Hl. ebind H as r' tr Hr. ebind H as u' tx Hx. apply exec_mret in H as [-> ->].
    assert (Hlc : Forall (fun ev => child_of ev = None) tl) by (by eapply leads_childless).
    assert (Hxc : Forall (fun ev => child_of ev = None) tx).
    { revert Hx. assert (Hc : childless (releaseTaskChild pid)) by (unfold releaseTaskChild; childless). apply Hc. }
    assert (Htr : Forall (fun ev => child_of ev = None) tr /\ (LiveDescendants r' = 0 -> stop_proof pid (tl ++ tr)%list)).
    { destruct grouped.
      - ecall Hr as w. ecall Hr as cancelled. split; [repeat (apply Forall_cons; split; [done|]); by eapply conclude_childless|].
        intros Hz. do 3 apply stop_proof_after. by eapply conclude_count in Hr as [_ Hr]; [apply Hr|].
      - ebind Hr as e te He. destruct e as [e w]. split.
        + apply Forall_app. split; [|by eapply conclude_childless]. revert He. assert (Hc : childless (ungrouped passes pid)) by (unfold ungrouped; childless). apply Hc.
        + intros Hz. eapply conclude_count in Hr as [Hr _]; [|done]. rewrite app_assoc. apply stop_proof_app. by eapply ungrouped_zero. }
    destruct Htr as [Htr Hz]. eexists. simpl. rewrite app_nil_r. split; [rewrite <- app_assoc; reflexivity|]. split; [by repeat constructor|].
    split; [repeat (apply Forall_app; split); repeat constructor; done|]. intros Hr0. do 2 apply stop_proof_after. rewrite app_assoc. by apply stop_proof_app, Hz.
  - ebind Hs as e te He. destruct e as [e w]. apply exec_mret in Hs as [-> ->]. eexists. simpl. rewrite app_nil_r. split; [rewrite <- app_assoc; reflexivity|].
    split; [by repeat constructor|]. split.
    + repeat (apply Forall_app; split); [done|by eapply terminate_childless|by eapply conclude_childless].
    + intros Hr0. eapply conclude_count in H as [H _]; [|done]. apply stop_proof_after, stop_proof_app. by eapply unregistered_zero in He.
Qed.

Lemma start_unique t1 ev t2 pid tA ev' tB :
  (tA ++ ev' :: tB = t1 ++ ev :: t2)%list -> Forall (fun e => child_of e = None) tA -> Forall (fun e => child_of e = None) tB ->
  child_of ev = Some pid -> t1 = tA /\ ev = ev' /\ t2 = tB.
Proof.
  intros Heq HA HB Hev. apply app_eq_inv in Heq as [(k & -> & Hk)|(k & -> & Hk)].
  - destruct k as [|x k]; simplify_eq/=; [by rewrite app_nil_r|]. exfalso. apply Forall_app in HA as [_ HA]. apply Forall_cons in HA as [HA _]. congruence.
  - destruct k as [|x k]; simplify_eq/=; [by rewrite app_nil_r|]. exfalso. apply Forall_app in HB as [_ HB]. apply Forall_cons in HB as [HB _]. congruence.
Qed.


(** A task that ran and left nothing. *)
Definition sample_kernel (X : Type) (e : taskE X) (s : unit) : option (unit * X) :=
  match e in taskE X return option (unit * X) with
  | Environ => Some (tt, [])
  | TaskCancelled _ => Some (tt, false)
  | TaskNow => Some (tt, 0)
  | SelfPID => Some (tt, 1)
  | StartChild _ _ => Some (tt, Ok 7)
  | WaitChild _ => Some (tt, {| wt_end := WClean; wt_stdout := ["ok"]; wt_stderr := [] |})
  | OpenPidfd _ => Some (tt, Ok 3)
  | ReadProc => Some (tt, Ok ["7"; "self"])
  | ReadStat _ => Some (tt, StatData "7 (sh) Z 1 7 7")
  | ReapNoHang _ => Some (tt, true)
  | Supervision f => Some (tt, (f ∅).2)
  | KillChild _ | SignalGroup _ | CloseFd _ | GateLock | GateUnlock | TaskSleep => Some (tt, tt)
  | _ => None
  end.

Definition sample_child : Task := {| t_Command := ["sh"; "-c"; "true"]; t_ArtifactPath := ""; t_Env := [] |}.

Definition sample_child_run : trace taskE * option WorkerResult := play sample_kernel (runTask 2 "op-1" sample_child) tt.

