(* ===== verification/Worker.v ===== *)
(** * The worker's listener (internal/protocol/worker.go)

    The honest worker: it verifies signed envelopes, keeps its replay state and
    its cancellation tombstones in memory, runs one goroutine per task and
    answers polls.  Handlers and tasks interleave: a handler is a program whose
    atomic steps are the sections its code runs under the mutex ([Locked]), the
    wait for a task ([WaitDone]) and what it asks of the host; [advance] lets one
    thread take one step, and a schedule is any sequence of steps and arrivals.

    A dispatch registers its operation and starts its goroutine in one step: no
    code runs between the two, and a goroutine may be delayed arbitrarily. *)

From S2P Require Import Prelude Effects GoStrings GoTime Sha256 Run Pods HarnessErrors Session HarnessLedger Devenv HarnessWorld WorkerWire WorkerTask.
Local Open Scope string_scope.
Local Open Scope Z_scope.

(** ** State *)

Record WorkerConfig := { wc_RunUID : string; wc_ControlPodUID : string; wc_WorkerPodUID : string; wc_PublicKey : string; WorkspaceDir : string }.

(** [op_cancelled] is the operation's context, [op_closed] its closed channel. *)
Record operation := {
  op_envelope : Envelope; op_task : Task; op_cancelled : bool; op_closed : bool; op_result : option WorkerResult
}.

Record Worker := { ops : gmap string operation; tombstones : gset string; nonces : gset string }.

Definition set_ops (w : Worker) (v : gmap string operation) : Worker := {| ops := v; tombstones := tombstones w; nonces := nonces w |}.

Definition NewWorker (config : WorkerConfig) : result string Worker :=
  if String.eqb (wc_RunUID config) "" || String.eqb (wc_ControlPodUID config) "" || String.eqb (wc_WorkerPodUID config) ""
  then Err "protocol: worker identity configuration is incomplete" else
  if negb (slen (wc_PublicKey config) =? 32) then Err "protocol: worker verification key has the wrong size" else
  if String.eqb (TrimSpace (WorkspaceDir config)) "" || negb (HasPrefix (WorkspaceDir config) "/")
  then Err "protocol: worker workspace directory must be absolute" else
  Ok {| ops := ∅; tombstones := ∅; nonces := ∅ |}.

(** ** Requests and replies *)

Record wrequest := { wq_path : string; wq_RawQuery : string; wq_ContentLength : Z; wq_Body : string }.

Inductive body := Text (s : string) | State (status : string) (r : option WorkerResult) | Empty.

Record reply := { rp_code : Z; rp_body : body }.

Definition http_error (code : Z) (message : string) : reply := {| rp_code := code; rp_body := Text message |}.

(** ** Threads *)

(** [LockedGo] is a section that may start the goroutine of a task.  [WaitDone]
    answers true when the task's channel is closed and false when the request's
    context ended first. *)
Inductive workerE : Type -> Type :=
| Locked X (f : Worker -> Worker * X) : workerE X
| LockedGo X (f : Worker -> Worker * X * option (string * Task)) : workerE X
| WaitDone (opID : string) : workerE bool
| WorkerNow : workerE Time
| WriteSnapshot (data : string) : workerE bool
| OnHost X (e : taskE X) : workerE X.
Arguments Locked {X} f.
Arguments LockedGo {X} f.
Arguments OnHost {X} e.

Definition maxNonces : Z := 2 ^ 16.
Definition maxSnapshotBytes : Z := 65 * 2 ^ 20.
Definition WorkspaceSnapshotName : string := "snapshot.pack".

Section Listener.
Context {ED : Ed25519} {WI : Wire} (config : WorkerConfig) (passes : nat).

(** ** Verification *)

Definition verifySigned (r : wrequest) (wantKind : string) (maxPayload : Z) : prog workerE (result reply (Envelope * string)) :=
  let invalid := http_error 400 "invalid request" in
  if negb (String.eqb (wq_RawQuery r) "") || (wq_ContentLength r <=? 0) then mret (Err invalid) else
  match decode_signed (maxPayload + 2 ^ 20) (wq_Body r) with
  | None => mret (Err invalid)
  | Some (_, false) => mret (Err invalid)
  | Some (req, true) =>
      let envelope := sg_Envelope req in
      if negb (String.eqb (en_Kind envelope) wantKind) then mret (Err (http_error 400 "unexpected envelope kind")) else
      now ← call WorkerNow;
      match WorkerWire.Validate envelope now with
      | Some _ => mret (Err (http_error 401 "envelope rejected"))
      | None =>
          if negb (String.eqb (en_RunUID envelope) (wc_RunUID config)) || negb (String.eqb (en_ControlPodUID envelope) (wc_ControlPodUID config)) ||
             negb (String.eqb (en_WorkerPodUID envelope) (wc_WorkerPodUID config))
          then mret (Err (http_error 401 "envelope identity does not match this worker incarnation")) else
          match Verify envelope (wc_PublicKey config) (Signature req) with
          | Some _ => mret (Err (http_error 401 "envelope signature is invalid"))
          | None =>
              let dispatching := String.eqb wantKind KindDispatch in
              if dispatching && (maxPayload <? slen (Payload req)) then mret (Err (http_error 413 "payload exceeds the transport bound")) else
              let wantDigest := if dispatching then PayloadDigestOf (Payload req) else CancelPayloadDigest in
              if negb (String.eqb (PayloadDigest envelope) wantDigest)
              then mret (Err (http_error 401 "payload digest does not match the envelope")) else
              mret (Ok (envelope, Payload req))
          end
      end
  end.

(** The answers: accepted, exhausted. *)
Definition consumeNonce (envelope : Envelope) (w : Worker) : Worker * (bool * bool) :=
  if bool_decide (en_Nonce envelope ∈ nonces w) then (w, (false, false)) else
  if maxNonces <=? Z.of_nat (size (nonces w)) then (w, (false, true)) else
  ({| ops := ops w; tombstones := tombstones w; nonces := {[en_Nonce envelope]} ∪ nonces w |}, (true, false)).

(** The refusal of a nonce, if any. *)
Definition take_nonce (envelope : Envelope) : prog workerE (option reply) :=
  '(accepted, exhausted) ← call (Locked (consumeNonce envelope));
  mret (if exhausted : bool then Some (http_error 503 "replay state exhausted; worker must be replaced")
        else if negb accepted then Some (http_error 401 "nonce replay rejected") else None).

(** ** Replies about an operation *)

Definition known_result (w : Worker) (opID : string) : option WorkerResult := o ← ops w !! opID; op_result o.

Definition status_view (opID : string) (w : Worker) : Worker * (bool * bool * option WorkerResult) :=
  (w, (bool_decide (is_Some (ops w !! opID)), bool_decide (opID ∈ tombstones w), known_result w opID)).

Definition respondStatus (opID : string) (code : Z) : prog workerE reply :=
  '(_, tombstoned, result) ← call (Locked (status_view opID));
  mret {| rp_code := code;
          rp_body := match result with
                     | Some r => State (wr_Status r) (Some r)
                     | None => State (if tombstoned : bool then ResultCancelled else "running") None
                     end |}.

Definition bad_opID (opID : string) : bool := String.eqb opID "" || (128 <? slen opID) || ContainsAny opID ("/" ++ str1 92).

Definition handleResult (opID : string) : prog workerE reply :=
  if bad_opID opID then mret (http_error 400 "invalid request") else
  '(known, tombstoned, result) ← call (Locked (status_view opID));
  mret (match result with
        | Some r => {| rp_code := 200; rp_body := State (wr_Status r) (Some r) |}
        | None =>
            if known : bool then {| rp_code := 202; rp_body := State "running" None |} else
            if tombstoned : bool then {| rp_code := 200; rp_body := State ResultCancelled None |} else http_error 404 "unknown operation"
        end).

(** ** Dispatch *)

Definition register (envelope : Envelope) (task : Task) (w : Worker) : Worker * option reply * option (string * Task) :=
  let opID := en_OpID envelope in
  if bool_decide (opID ∈ tombstones w) then (w, Some (http_error 409 "operation is tombstoned and must never run"), None) else
  if bool_decide (is_Some (ops w !! opID))
  then (w, Some (http_error 409 "operation is already registered; redelivery never starts a second execution"), None) else
  (set_ops w (<[opID := {| op_envelope := envelope; op_task := task; op_cancelled := false; op_closed := false; op_result := None |}]> (ops w)),
   None, Some (opID, task)).

Definition handleDispatch (r : wrequest) : prog workerE reply :=
  verified ← verifySigned r KindDispatch maxArtifactBytes;
  match verified with
  | Err refusal => mret refusal
  | Ok (envelope, payload) =>
      match decode_task payload with
      | None => mret (http_error 400 "dispatch payload is not a task")
      | Some task =>
          if match t_Command task with [] => true | c :: _ => String.eqb (TrimSpace c) "" end
          then mret (http_error 400 "dispatch payload requires a command") else
          refused ← take_nonce envelope;
          match refused with
          | Some refusal => mret refusal
          | None =>
              conflict ← call (LockedGo (register envelope task));
              match conflict with
              | Some refusal => mret refusal
              | None => respondStatus (en_OpID envelope) 202
              end
          end
      end
  end.

(** The task's goroutine: its result, then its channel. *)
Definition store_result (opID : string) (r : WorkerResult) (w : Worker) : Worker * unit :=
  (set_ops w (alter (fun o => {| op_envelope := op_envelope o; op_task := op_task o; op_cancelled := op_cancelled o;
                                 op_closed := op_closed o; op_result := Some r |}) opID (ops w)), tt).

Definition close_wait (opID : string) (w : Worker) : Worker * unit :=
  (set_ops w (alter (fun o => {| op_envelope := op_envelope o; op_task := op_task o; op_cancelled := op_cancelled o;
                                 op_closed := true; op_result := op_result o |}) opID (ops w)), tt).

Definition task_thread (opID : string) (task : Task) : prog workerE unit :=
  result ← lift (@OnHost) (runTask passes opID task);
  _ ← call (Locked (store_result opID result));
  call (Locked (close_wait opID)).

(** ** Cancellation and release *)

(** Whether the operation is active. *)
Definition entomb (opID : string) (w : Worker) : Worker * bool :=
  ({| ops := ops w; tombstones := {[opID]} ∪ tombstones w; nonces := nonces w |}, bool_decide (is_Some (ops w !! opID))).

Definition cancel_op (opID : string) (w : Worker) : Worker * unit :=
  (set_ops w (alter (fun o => {| op_envelope := op_envelope o; op_task := op_task o; op_cancelled := true;
                                 op_closed := op_closed o; op_result := op_result o |}) opID (ops w)), tt).

Definition read_result (opID : string) (w : Worker) : Worker * option WorkerResult := (w, known_result w opID).

Definition handleCancel (r : wrequest) : prog workerE reply :=
  verified ← verifySigned r KindCancel 0;
  match verified with
  | Err refusal => mret refusal
  | Ok (envelope, _) =>
      refused ← take_nonce envelope;
      match refused with
      | Some refusal => mret refusal
      | None =>
          let opID := en_OpID envelope in
          active ← call (Locked (entomb opID));
          if negb active then respondStatus opID 200 else
          _ ← call (Locked (cancel_op opID));
          finished ← call (WaitDone opID);
          if negb finished then mret (http_error 408 "cancellation interrupted") else
          result ← call (Locked (read_result opID));
          if match result with Some r => 0 <? LiveDescendants r | None => false end
          then mret (http_error 500 "task tree outlived cancellation; termination is unverified")
          else respondStatus opID 200
      end
  end.

(** A terminal result is reduced to its status; an unproven one is kept. *)
Inductive release_view := NotTerminated | Unverified | Released | UnknownOp.

Definition status_only (r : WorkerResult) : WorkerResult :=
  {| wr_Status := wr_Status r; wr_ExitCode := 0; StdoutTail := ""; StderrTail := ""; Artifact := ""; LiveDescendants := 0 |}.

Definition release_op (opID : string) (w : Worker) : Worker * release_view :=
  match ops w !! opID with
  | Some o =>
      match op_result o with
      | None => (w, NotTerminated)
      | Some r =>
          if LiveDescendants r =? 0 then
            (set_ops w (<[opID := {| op_envelope := op_envelope o; op_task := op_task o; op_cancelled := op_cancelled o;
                                     op_closed := op_closed o; op_result := Some (status_only r) |}]> (ops w)), Released)
          else (w, Unverified)
      end
  | None => (w, if bool_decide (opID ∈ tombstones w) then Released else UnknownOp)
  end.

Definition handleRelease (opID : string) (r : wrequest) : prog workerE reply :=
  if bad_opID opID then mret (http_error 400 "invalid request") else
  verified ← verifySigned r KindRelease 0;
  match verified with
  | Err refusal => mret refusal
  | Ok (envelope, _) =>
      if negb (String.eqb (en_OpID envelope) opID) then mret (http_error 400 "release envelope does not address this operation") else
      refused ← take_nonce envelope;
      match refused with
      | Some refusal => mret refusal
      | None =>
          view ← call (Locked (release_op opID));
          match view with
          | NotTerminated => mret (http_error 409 "operation has not terminated; nothing to release")
          | Unverified => mret (http_error 409 "termination is unverified; result is retained")
          | Released => respondStatus opID 200
          | UnknownOp => mret (http_error 404 "unknown operation")
          end
      end
  end.

(** ** Snapshots and shutdown *)

Definition handleSnapshot (r : wrequest) : prog workerE reply :=
  let invalid := http_error 400 "invalid request" in
  if negb (String.eqb (wq_RawQuery r) "") || (wq_ContentLength r <=? 0) then mret invalid else
  match decode_snapshot (maxSnapshotBytes + Z.quot maxSnapshotBytes 2) (wq_Body r) with
  | None => mret invalid
  | Some s =>
      if String.eqb (up_Data s) "" || (maxSnapshotBytes <? slen (up_Data s)) then mret (http_error 413 "snapshot exceeds the transport bound") else
      if negb (String.eqb (up_Digest s) (sha256_hex (up_Data s))) then mret (http_error 401 "snapshot digest does not match its bytes") else
      stored ← call (WriteSnapshot (up_Data s));
      mret (if stored : bool then {| rp_code := 204; rp_body := Empty |} else http_error 500 "snapshot storage failed")
  end.

Definition cancel_all (w : Worker) : Worker * list string :=
  (set_ops w ((fun o => {| op_envelope := op_envelope o; op_task := op_task o; op_cancelled := true; op_closed := op_closed o;
                           op_result := op_result o |}) <$> ops w), (map_to_list (ops w)).*1).

Fixpoint wait_all (opIDs : list string) : prog workerE unit :=
  match opIDs with
  | [] => mret tt
  | op :: rest => finished ← call (WaitDone op); if finished : bool then wait_all rest else mret tt
  end.

Definition Shutdown : prog workerE unit := pending ← call (Locked cancel_all); wait_all pending.

(** ** Routing *)

Inductive route :=
| RDispatch | RCancel | RRelease (opID : string) | RResult (opID : string) | RSnapshot | RHealth.

Definition Handler (route : route) (r : wrequest) : prog workerE reply :=
  match route with
  | RDispatch => handleDispatch r
  | RCancel => handleCancel r
  | RRelease opID => handleRelease opID r
  | RResult opID => handleResult opID
  | RSnapshot => handleSnapshot r
  | RHealth => mret {| rp_code := 200; rp_body := Empty |}
  end.
End Listener.

(** ** What control signs, its worker accepts *)

Lemma EncodeToString_hex_digits l : Forall is_byte l -> hex_digits (EncodeToString l) = true.
Proof.
  induction 1 as [|b l Hb _ IH]; [done|].
  change (EncodeToString (b :: l)) with (String (hex_digit (b / 16)) (String (hex_digit (b mod 16)) (EncodeToString l))). cbn [hex_digits].
  rewrite IH, andb_true_r.
  assert (Hd : forall d, 0 <= d < 16 -> hex_any (hex_digit d) = true).
  { intros d Hd. assert (Hall : forallb (fun n => hex_any (hex_digit (Z.of_nat n))) (seq 0 16) = true) by (vm_compute; reflexivity).
    rewrite forallb_forall in Hall. specialize (Hall (Z.to_nat d)). rewrite Z2Nat.id in Hall by lia. apply Hall, in_seq. lia. }
  unfold is_byte in Hb. rewrite !Hd; [done|apply Z.mod_pos_bound; lia|]. split; [apply Z.div_pos; lia|apply Z.div_lt_upper_bound; lia].
Qed.

Lemma PayloadDigestOf_shape p : (slen (PayloadDigestOf p) =? 64) = true /\ isHex (PayloadDigestOf p) = true.
Proof.
  unfold PayloadDigestOf. assert (Hl : slen (sha256_hex p) = 64) by (unfold slen; by rewrite sha256_hex_length). rewrite Hl. split; [done|].
  unfold isHex. rewrite Hl. unfold sha256_hex. rewrite EncodeToString_hex_digits; [done|]. apply Sum256_shape.
Qed.

(** The worker's identity is the one control signs for. *)
Definition matches {ED : Ed25519} (config : WorkerConfig) (identity : WorkerIdentity) : Prop :=
  wc_RunUID config = wi_RunUID identity /\ wc_ControlPodUID config = wi_ControlPodUID identity /\
  wc_WorkerPodUID config = wi_WorkerPodUID identity /\ wc_PublicKey config = ed_public (wi_Key identity).


(** A toy signature scheme: a signature is the key and the message. *)
Definition sample_ed : Ed25519 :=
  {| ed_public := stake 32; ed_sign := fun key m => stake 32 key ++ m; ed_verify := fun key m s => String.eqb s (key ++ m) |}.

(** A wire that carries one request. *)
Definition echo_wire (body : string) (req : signedRequest) : Wire :=
  {| canonical := fun e => Some (en_OpID e); encode_signed := fun _ => Some body;
     decode_signed := fun _ b => if String.eqb b body then Some (req, true) else None;
     encode_task := fun _ => None; decode_task := fun _ => None; encode_snapshot := fun _ => None; decode_snapshot := fun _ _ => None;
     decode_ack := fun _ => None; decode_state := fun _ => None |}.

Definition sample_key : string := "0123456789abcdef0123456789abcdef".

Definition sample_identity : WorkerIdentity :=
  {| wi_RunUID := "run-1"; wi_ControlPodUID := "control-1"; wi_WorkerPodUID := "worker-1"; wi_Key := sample_key ++ sample_key; wi_AdmissionWindow := 0 |}.

Definition sample_worker_config : WorkerConfig :=
  {| wc_RunUID := "run-1"; wc_ControlPodUID := "control-1"; wc_WorkerPodUID := "worker-1"; wc_PublicKey := sample_key; WorkspaceDir := "/workspace" |}.

Definition sample_delegator : Delegator := {| dl_identity := sample_identity; admission := 10 * minute |}.

Definition sample_cancellation : Envelope :=
  addressed sample_delegator (NewEnvelope (replicate 16 7) 0 (10 * minute) "") KindCancel "op-1" "b1" 1.

Definition sample_signed : signedRequest := {| sg_Envelope := sample_cancellation; Signature := sample_key ++ "op-1"; Payload := "" |}.

Lemma stake_keys key : slen key = PrivateKeySize -> slen (stake 32 key) = PublicKeySize.
Proof.
  unfold slen, PrivateKeySize, PublicKeySize. intros H. assert (Hs : forall n s, (n <= String.length s)%nat -> String.length (stake n s) = n).
  { induction n as [|n IH]; intros [|c s] Hl; simpl in *; [done..|lia|]. rewrite IH; lia. }
  rewrite Hs; lia.
Qed.

