(* ===== verification/WorkerSafety.v ===== *)
(** * The worker under every schedule

    The listener's threads interleave at the sections of Worker.v.  [safe] is a
    rely-guarantee logic for one thread: what a thread knows of the shared state
    is stable under what the others may do ([grows_by]), and every section keeps
    the state's invariant.  A task's goroutine owns its operation: it alone
    stores its result and closes its channel. *)

From S2P Require Import Prelude Effects GoStrings GoTime Sha256 Run Pods HarnessErrors Session HarnessLedger Devenv HarnessWorld WorkerWire WorkerTask Worker.
Local Open Scope string_scope.
Local Open Scope Z_scope.

(** ** Schedules *)

Section Schedule.
Context {ED : Ed25519} {WI : Wire} (config : WorkerConfig) (passes : nat).

Inductive thread :=
| Serving (rt : route) (r : wrequest) (p : prog workerE reply)
| Running (opID : string) (p : prog workerE unit)
| Stopping (p : prog workerE unit).

Record system := { sys_worker : Worker; threads : list thread }.

(** What the host answers at a step; [an_interrupt] ends a waiting request. *)
Record answers := { an_host : forall X, taskE X -> option X; an_now : Time; an_stored : bool; an_interrupt : bool }.

Definition op_is (f : operation -> bool) (w : Worker) (opID : string) : bool := match ops w !! opID with Some o => f o | None => false end.

(** The context of a task is the operation's. *)
Definition host_answer (a : answers) (w : Worker) (X : Type) (e : taskE X) : option X :=
  match e in taskE X return option X with
  | TaskCancelled opID => Some (op_is op_cancelled w opID)
  | e => an_host a _ e
  end.

(** One step of a thread: the state, the thread and the goroutine it started. *)
Definition step_prog {A} (a : answers) (p : prog workerE A) (w : Worker) : option (Worker * prog workerE A * option (string * Task)) :=
  match p with
  | Ret _ => None
  | Vis e k =>
      match e in workerE X return (X -> prog workerE A) -> _ with
      | Locked f => fun k => let '(w, x) := f w in Some (w, k x, None)
      | LockedGo f => fun k => let '(w, x, started) := f w in Some (w, k x, started)
      | WaitDone opID => fun k =>
          if an_interrupt a then Some (w, k false, None) else
          if op_is op_closed w opID then Some (w, k true, None) else None
      | WorkerNow => fun k => Some (w, k (an_now a), None)
      | WriteSnapshot _ => fun k => Some (w, k (an_stored a), None)
      | OnHost e => fun k => match host_answer a w _ e with Some x => Some (w, k x, None) | None => None end
      end k
  end.

Definition step_thread (a : answers) (t : thread) (w : Worker) : option (Worker * thread * option (string * Task)) :=
  match t with
  | Serving rt r p => match step_prog a p w with Some (w, p, s) => Some (w, Serving rt r p, s) | None => None end
  | Running op p => match step_prog a p w with Some (w, p, s) => Some (w, Running op p, s) | None => None end
  | Stopping p => match step_prog a p w with Some (w, p, s) => Some (w, Stopping p, s) | None => None end
  end.

Inductive action := Arrive (rt : route) (r : wrequest) | Stop | Advance (i : nat) (a : answers).

Definition sys_step (s : system) (act : action) : option system :=
  match act with
  | Arrive rt r => Some {| sys_worker := sys_worker s; threads := threads s ++ [Serving rt r (Handler config rt r)] |}
  | Stop => Some {| sys_worker := sys_worker s; threads := threads s ++ [Stopping Shutdown] |}
  | Advance i a =>
      match threads s !! i with
      | None => None
      | Some t =>
          match step_thread a t (sys_worker s) with
          | None => None
          | Some (w, t', started) =>
              Some {| sys_worker := w;
                      threads := <[i := t']> (threads s) ++
                        match started with Some (op, task) => [Running op (task_thread passes op task)] | None => [] end |}
          end
      end
  end.

Fixpoint sys_run (s : system) (acts : list action) : option system :=
  match acts with
  | [] => Some s
  | act :: rest => match sys_step s act with Some s' => sys_run s' rest | None => None end
  end.

(** ** The state's invariant and what threads may do *)

(** An envelope this worker accepted as a dispatch of [task]. *)
Definition authorised (e : Envelope) (task : Task) : Prop :=
  en_Kind e = KindDispatch /\ en_RunUID e = wc_RunUID config /\ en_ControlPodUID e = wc_ControlPodUID config /\
  en_WorkerPodUID e = wc_WorkerPodUID config /\ (exists now, WorkerWire.Validate e now = None) /\
  (exists signature, Verify e (wc_PublicKey config) signature = None) /\
  exists payload, PayloadDigest e = PayloadDigestOf payload /\ decode_task payload = Some task.

Record winv (w : Worker) : Prop := {
  wi_closed : forall op o, ops w !! op = Some o -> op_closed o = true -> is_Some (op_result o);
  wi_authorised : forall op o, ops w !! op = Some o -> en_OpID (op_envelope o) = op /\ authorised (op_envelope o) (op_task o) /\
    en_Nonce (op_envelope o) ∈ nonces w;
  wi_nonces : Z.of_nat (size (nonces w)) <= maxNonces
}.

(** One operation from one state to a later one, when its goroutine did not
    act ([mine = false]), or possibly did. *)
Record op_grows (mine : bool) (o o' : operation) : Prop := {
  og_same : op_envelope o' = op_envelope o /\ op_task o' = op_task o;
  og_cancelled : op_cancelled o = true -> op_cancelled o' = true;
  og_closed : op_closed o = true -> op_closed o' = true;
  og_result : forall r, op_result o = Some r -> exists r', op_result o' = Some r' /\ wr_Status r' = wr_Status r /\ LiveDescendants r' = LiveDescendants r;
  og_mine : mine = false -> (op_result o = None -> op_result o' = None) /\ op_closed o' = op_closed o
}.

Record grows_by (own : option string) (w w' : Worker) : Prop := {
  gb_tombs : tombstones w ⊆ tombstones w';
  gb_nonces : nonces w ⊆ nonces w';
  gb_ops : forall op o, ops w !! op = Some o -> exists o', ops w' !! op = Some o' /\ op_grows (bool_decide (own = Some op)) o o';
  gb_never : forall op, op ∈ tombstones w -> ops w !! op = None -> ops w' !! op = None
}.

(** What a thread knows, whatever the others do. *)
Definition stable (own : option string) (P : Worker -> Prop) : Prop :=
  forall other w w', other = None \/ other <> own -> grows_by other w w' -> P w -> P w'.

Lemma stable_pure own (F : Prop) : stable own (fun _ => F).
Proof. intros other w w' _ _ H. exact H. Qed.

Lemma stable_and own P1 P2 : stable own P1 -> stable own P2 -> stable own (fun w => P1 w /\ P2 w).
Proof. intros H1 H2 other w w' Ho Hg [? ?]. split; [by eapply H1|by eapply H2]. Qed.

(** ** Safe threads *)

(** The operation a goroutine starts with. *)
Definition fresh_op (opID : string) (w : Worker) : Prop := exists o, ops w !! opID = Some o /\ op_result o = None /\ op_closed o = false.

Definition is_closed (opID : string) (w : Worker) : Prop := exists o, ops w !! opID = Some o /\ op_closed o = true.

Fixpoint safe {A} (own : option string) (p : prog workerE A) (P : Worker -> Prop) (Q : A -> Worker -> Prop) : Prop :=
  match p with
  | Ret a => forall w, winv w -> P w -> Q a w
  | Vis e k =>
      match e in workerE X return (X -> (Worker -> Prop) -> Prop) -> Prop with
      | Locked f => fun rest => exists P', (forall x, stable own (P' x)) /\
          (forall w, winv w -> P w -> winv (f w).1 /\ grows_by own w (f w).1 /\ P' (f w).2 (f w).1) /\ forall x, rest x (P' x)
      | LockedGo f => fun rest => exists P', (forall x, stable own (P' x)) /\
          (forall w, winv w -> P w -> let '(w', x, started) := f w in
             winv w' /\ grows_by own w w' /\ P' x w' /\
             forall op task, started = Some (op, task) -> ops w !! op = None /\ fresh_op op w') /\
          forall x, rest x (P' x)
      | WaitDone opID => fun rest => rest true (fun w => P w /\ is_closed opID w) /\ rest false P
      | _ => fun rest => forall x, rest x P
      end (fun x P' => safe own (k x) P' Q)
  end.

Lemma is_closed_stable own op : stable own (is_closed op).
Proof.
  intros other w w' _ Hg (o & Ho & Hc). destruct (gb_ops _ _ _ Hg op o Ho) as (o' & Ho' & G). exists o'. split; [done|]. by apply (og_closed _ _ _ G).
Qed.

Lemma safe_mono {A} own (p : prog workerE A) P P' Q Q' :
  (forall w, winv w -> P' w -> P w) -> (forall a w, winv w -> Q a w -> Q' a w) -> safe own p P Q -> safe own p P' Q'.
Proof.
  revert P P'. induction p as [a|X e k IH]; intros P P' HP HQ; simpl; [auto|]. destruct e.
  - intros (R & H1 & H2 & H3). exists R. split; [done|]. split; [auto|]. intros x. eapply IH; [| |apply H3]; auto.
  - intros (R & H1 & H2 & H3). exists R. split; [done|]. split; [|intros x; eapply IH; [| |apply H3]; auto].
    intros w Hw Hp. apply (H2 w Hw). auto.
  - intros [H1 H2]. split; (eapply IH; [| |eassumption]; [|done]); [intros w ? [? ?]; auto|auto].
  - intros H x. eapply IH; [| |apply H]; auto.
  - intros H x. eapply IH; [| |apply H]; auto.
  - intros H x. eapply IH; [| |apply H]; auto.
Qed.

Lemma safe_bind {A B} own (p : prog workerE A) (f : A -> prog workerE B) P R Q :
  safe own p P R -> (forall a, safe own (f a) (R a) Q) -> safe own (p ≫= f) P Q.
Proof.
  intros Hp Hf. revert P Hp. induction p as [a|X e k IH]; intros P Hp; simpl in *.
  - eapply safe_mono; [| |apply (Hf a)]; [exact Hp|done].
  - destruct e.
    + destruct Hp as (P' & H1 & H2 & H3). exists P'. split; [done|]. split; [done|]. intros x. by apply IH.
    + destruct Hp as (P' & H1 & H2 & H3). exists P'. split; [done|]. split; [done|]. intros x. by apply IH.
    + destruct Hp as [H1 H2]. split; by apply IH.
    + intros x. by apply IH.
    + intros x. by apply IH.
    + intros x. by apply IH.
Qed.

Lemma safe_ret {A} own (a : A) P (Q : A -> Worker -> Prop) : (forall w, winv w -> P w -> Q a w) -> safe own (mret a) P Q.
Proof. done. Qed.

Lemma safe_locked {X} own (f : Worker -> Worker * X) P (Q : X -> Worker -> Prop) :
  (forall x, stable own (Q x)) -> (forall w, winv w -> P w -> winv (f w).1 /\ grows_by own w (f w).1 /\ Q (f w).2 (f w).1) ->
  safe own (call (Locked f)) P Q.
Proof. intros H1 H2. exists Q. split; [done|]. split; [done|]. by intros x w _ HQ. Qed.

(** A thread that asks only the host. *)
Lemma safe_lift {A} own (p : prog taskE A) P : safe own (lift (@OnHost) p) P (fun _ => P).
Proof. induction p as [a|X e k IH]; simpl; [auto|]. intros x. apply IH. Qed.

(** ** Sections *)

Lemma op_grows_refl mine o : op_grows mine o o.
Proof. constructor; try done. intros r H. eauto. Qed.

Lemma grows_refl own w : grows_by own w w.
Proof. constructor; try done. intros op o Ho. exists o. split; [done|]. apply op_grows_refl. Qed.

(** A section that changes one operation. *)
Lemma grows_alter own w op f :
  (forall o, ops w !! op = Some o -> op_grows (bool_decide (own = Some op)) o (f o)) -> grows_by own w (set_ops w (alter f op (ops w))).
Proof.
  intros Hf. constructor; try done; simpl.
  - intros op' o Ho. destruct (decide (op = op')) as [->|Hne].
    + exists (f o). rewrite lookup_alter_eq, Ho. split; [done|]. by apply Hf.
    + exists o. rewrite lookup_alter_ne by done. split; [done|]. apply op_grows_refl.
  - intros op' _ Hn. destruct (decide (op = op')) as [->|Hne]; [by rewrite lookup_alter_eq, Hn|by rewrite lookup_alter_ne].
Qed.

Lemma winv_alter w op f :
  winv w -> (forall o, ops w !! op = Some o -> op_envelope (f o) = op_envelope o /\ op_task (f o) = op_task o /\
    (op_closed (f o) = true -> is_Some (op_result (f o)))) -> winv (set_ops w (alter f op (ops w))).
Proof.
  intros [H1 H2 H3] Hf. constructor; simpl; [| |done].
  - intros op' o. rewrite lookup_alter_Some. intros [(-> & o' & Ho & ->)|[_ Ho]]; [by apply Hf|by eapply H1].
  - intros op' o. rewrite lookup_alter_Some. intros [(-> & o' & Ho & ->)|[_ Ho]]; [|by apply H2].
    destruct (Hf o' Ho) as (-> & -> & _). by apply H2.
Qed.

(** ** What a reply says *)

(** The operation is over for good: its task's result was stored and reports
    nothing left running, or it is tombstoned and never started. *)
Definition over_op (op : string) (w : Worker) : Prop :=
  match ops w !! op with
  | Some o => exists r, op_result o = Some r /\ LiveDescendants r <= 0
  | None => op ∈ tombstones w
  end.

Definition entombed (op : string) (w : Worker) : Prop := op ∈ tombstones w.
Definition known_op (op : string) (w : Worker) : Prop := is_Some (ops w !! op).

Lemma over_op_stable own op : stable own (over_op op).
Proof.
  intros other w w' _ Hg. unfold over_op. destruct (ops w !! op) as [o|] eqn:Ho.
  - intros (r & Hr & Hl). destruct (gb_ops _ _ _ Hg op o Ho) as (o' & -> & G). destruct (og_result _ _ _ G r Hr) as (r' & -> & _ & Hl').
    exists r'. split; [done|lia].
  - intros Ht. rewrite (gb_never _ _ _ Hg op Ht Ho). by apply (gb_tombs _ _ _ Hg).
Qed.

Lemma entombed_stable own op : stable own (entombed op).
Proof. intros other w w' _ Hg H. by apply (gb_tombs _ _ _ Hg). Qed.

Lemma known_op_stable own op : stable own (known_op op).
Proof. intros other w w' _ Hg [o Ho]. destruct (gb_ops _ _ _ Hg op o Ho) as (o' & Ho' & _). by exists o'. Qed.

(** A state reply that says the operation is over. *)
Definition reports_over (b : body) : bool :=
  match b with
  | State st res => terminal_status st && match res with None => true | Some r => negb (0 <? LiveDescendants r) end
  | _ => false
  end.

Definition addressed_op (r : wrequest) (limit : Z) (op : string) : Prop :=
  exists req, decode_signed (limit + 2 ^ 20) (wq_Body r) = Some (req, true) /\ en_OpID (sg_Envelope req) = op.

Definition truthful_reply (rt : route) (r : wrequest) (rp : reply) (w : Worker) : Prop :=
  match rt with
  | RDispatch => rp_code rp = 202 -> exists op, addressed_op r maxArtifactBytes op /\ known_op op w
  | RCancel => rp_code rp = 200 -> exists op, addressed_op r 0 op /\ entombed op w /\ over_op op w
  | RRelease op => rp_code rp = 200 -> over_op op w
  | RResult op => (reports_over (rp_body rp) = true -> over_op op w) /\ (rp_code rp = 200 \/ rp_code rp = 202 -> known_op op w \/ entombed op w)
  | _ => True
  end.

Lemma truthful_reply_stable rt r rp : stable None (truthful_reply rt r rp).
Proof.
  intros other w w' Ho Hg. destruct rt; simpl; try done.
  - intros H Hc. destruct (H Hc) as (op & H1 & H2). exists op. split; [done|]. by eapply known_op_stable.
  - intros H Hc. destruct (H Hc) as (op & H1 & H2 & H3). exists op. split; [done|]. split; [by eapply entombed_stable|by eapply over_op_stable].
  - intros H Hc. eapply over_op_stable; eauto.
  - intros [H1 H2]. split; [intros Hc; eapply over_op_stable; eauto|]. intros Hc.
    destruct (H2 Hc); [left; by eapply known_op_stable|right; by eapply entombed_stable].
Qed.

(** ** The handlers *)

(** What verification establishes. *)
Definition verified (r : wrequest) (kind : string) (limit : Z) (v : result reply (Envelope * string)) : Prop :=
  match v with
  | Err rp => 400 <= rp_code rp
  | Ok (e, payload) =>
      addressed_op r limit (en_OpID e) /\ en_Kind e = kind /\ en_RunUID e = wc_RunUID config /\ en_ControlPodUID e = wc_ControlPodUID config /\
      en_WorkerPodUID e = wc_WorkerPodUID config /\ (exists now, WorkerWire.Validate e now = None) /\
      (exists signature, Verify e (wc_PublicKey config) signature = None) /\
      PayloadDigest e = if String.eqb kind KindDispatch then PayloadDigestOf payload else CancelPayloadDigest
  end.

Lemma verifySigned_safe own r kind limit P :
  safe own (verifySigned config r kind limit) P (fun v w => P w /\ verified r kind limit v).
Proof.
  unfold verifySigned. destruct (_ || _); [by apply safe_ret|].
  destruct (decode_signed _ _) as [[req []]|] eqn:Hd; [|by apply safe_ret..].
  destruct (String.eqb_spec (en_Kind (sg_Envelope req)) kind) as [Hk|]; [|by apply safe_ret]. cbn [negb].
  apply safe_bind with (R := fun _ => P); [by intros now w _ HP|]. intros now.
  destruct (WorkerWire.Validate (sg_Envelope req) now) eqn:Hv; [by apply safe_ret|].
  destruct (String.eqb_spec (en_RunUID (sg_Envelope req)) (wc_RunUID config)) as [H1|]; [|by apply safe_ret].
  destruct (String.eqb_spec (en_ControlPodUID (sg_Envelope req)) (wc_ControlPodUID config)) as [H2|]; [|by apply safe_ret].
  destruct (String.eqb_spec (en_WorkerPodUID (sg_Envelope req)) (wc_WorkerPodUID config)) as [H3|]; [|by apply safe_ret]. cbn [negb orb].
  destruct (Verify _ _ _) eqn:Hs; [by apply safe_ret|]. cbv zeta. destruct (_ && _); [by apply safe_ret|].
  destruct (String.eqb_spec (PayloadDigest (sg_Envelope req)) (if String.eqb kind KindDispatch then PayloadDigestOf (Payload req) else CancelPayloadDigest)) as [Hp|];
    [|by apply safe_ret]. cbn [negb].
  apply safe_ret. intros w _ HP. split; [done|]. split_and!; eauto. exists req. auto.
Qed.

Lemma consumeNonce_section own e w :
  winv w -> winv (consumeNonce e w).1 /\ grows_by own w (consumeNonce e w).1 /\
    ((consumeNonce e w).2 = (true, false) -> en_Nonce e ∈ nonces (consumeNonce e w).1).
Proof.
  intros Hw. unfold consumeNonce. destruct (bool_decide_reflect (en_Nonce e ∈ nonces w)) as [Hin|Hout]; [split; [done|]; by split; [apply grows_refl|]|].
  destruct (Z.leb_spec maxNonces (Z.of_nat (size (nonces w)))); [split; [done|]; by split; [apply grows_refl|]|]. simpl. split; [|split; [|set_solver]].
  - destruct Hw as [H1 H2 H3]. constructor; simpl; [done| |].
    + intros op o Ho. destruct (H2 op o Ho) as (? & ? & ?). split; [done|]. split; [done|]. set_solver.
    + rewrite size_union by set_solver. rewrite size_singleton. lia.
  - constructor; simpl; [done|set_solver| |done]. intros op o Ho. exists o. split; [done|]. apply op_grows_refl.
Qed.

Lemma nonce_stable own n : stable own (fun w => n ∈ nonces w).
Proof. intros other w w' _ Hg H. by apply (gb_nonces _ _ _ Hg). Qed.

Lemma take_nonce_safe own e (P : Worker -> Prop) :
  stable own P -> safe own (take_nonce e) P (fun o w => P w /\ match o with Some rp => 400 <= rp_code rp | None => en_Nonce e ∈ nonces w end).
Proof.
  intros HP. unfold take_nonce.
  apply safe_bind with (R := fun x w => P w /\ (x = (true, false) -> en_Nonce e ∈ nonces w)).
  - apply safe_locked.
    + intros x. apply stable_and; [done|]. intros other w w' Ho Hg H Hx. eapply (nonce_stable own); eauto.
    + intros w Hw Hp. destruct (consumeNonce_section own e w Hw) as (H1 & H2 & H3). split; [done|]. split; [done|]. split; [|done].
      destruct (consumeNonce_section None e w Hw) as (_ & Hg & _). eapply HP; eauto.
  - intros [[] []]; apply safe_ret; intros w _ [Hp Hn]; (split; [exact Hp|]); simpl; first [lia|by apply Hn].
Qed.

(** A section that only reads. *)
Lemma safe_view {X} own (f : Worker -> X) (P : Worker -> Prop) (Q : X -> Worker -> Prop) :
  (forall x, stable own (Q x)) -> (forall w, winv w -> P w -> Q (f w) w) -> safe own (call (Locked (fun w => (w, f w)))) P Q.
Proof. intros H1 H2. apply safe_locked; [done|]. intros w Hw HP. split; [done|]. split; [apply grows_refl|]. by apply H2. Qed.

Lemma respondStatus_safe own op code (P : Worker -> Prop) :
  stable own P -> safe own (respondStatus op code) P (fun rp w => P w /\ rp_code rp = code).
Proof.
  intros HP. unfold respondStatus. apply safe_bind with (R := fun _ => P); [apply safe_view; auto|].
  intros [[kn tb] res]. by apply safe_ret.
Qed.

Lemma handleResult_safe op r : safe None (handleResult op) (fun _ => True) (truthful_reply (RResult op) r).
Proof.
  unfold handleResult. destruct (bad_opID op); [apply safe_ret; intros w _ _; split; [done|]; by intros [|]|].
  apply safe_bind with (R := fun x w => match x with
    | (_, _, Some res) => known_op op w /\ (LiveDescendants res <= 0 -> over_op op w)
    | (true, _, None) => known_op op w
    | (false, true, None) => entombed op w /\ over_op op w
    | (false, false, None) => True
    end).
  - apply safe_view.
    + intros [[[] []] [res|]]; try apply stable_pure; try apply stable_and; try apply known_op_stable; try apply entombed_stable; try apply over_op_stable;
        intros other w w' Ho Hg H Hl; eapply over_op_stable; eauto.
    + intros w Hw _. unfold known_result, known_op, over_op, entombed. destruct (ops w !! op) as [o|] eqn:Ho; simpl.
      * destruct (op_result o) as [res|] eqn:Hres; simpl; [|by eexists]. split; [by eexists|]. intros Hl. by exists res.
      * by case_bool_decide.
  - intros [[kn tb] [res|]].
    + apply safe_ret. intros w _ H. destruct kn, tb; destruct H as [H1 H2]; (split; simpl; [|auto]);
        intros [_ Hl%negb_true_iff]%andb_true_iff; apply H2; lia.
    + destruct kn; [apply safe_ret; intros w _ H; by split; [|auto]|]. destruct tb; apply safe_ret; intros w _ H; simpl.
      * destruct H. split; [done|auto].
      * split; [done|]. by intros [|].
Qed.

Lemma register_section e task w :
  winv w -> authorised e task -> en_Nonce e ∈ nonces w ->
  let '(w', x, started) := register e task w in
  winv w' /\ grows_by None w w' /\ (x = None -> known_op (en_OpID e) w') /\
  forall op task', started = Some (op, task') -> ops w !! op = None /\ fresh_op op w'.
Proof.
  intros Hw Ha Hn. unfold register. destruct (bool_decide_reflect (en_OpID e ∈ tombstones w)) as [|Ht]; [split; [done|]; by split; [apply grows_refl|]|].
  destruct (bool_decide_reflect (is_Some (ops w !! en_OpID e))) as [|Hnone]; [split; [done|]; by split; [apply grows_refl|]|].
  apply eq_None_not_Some in Hnone. split_and!.
  - destruct Hw as [H1 H2 H3]. constructor; simpl; [| |done].
    + intros op o. rewrite lookup_insert_Some. intros [[<- <-]|[_ Ho]]; [done|by eapply H1].
    + intros op o. rewrite lookup_insert_Some. intros [[<- <-]|[_ Ho]]; [done|by apply H2].
  - constructor; simpl; try done.
    + intros op o Ho. exists o. split; [|apply op_grows_refl]. rewrite lookup_insert_ne by congruence. done.
    + intros op Hin Ho. rewrite lookup_insert_ne; [done|]. intros <-. done.
  - intros _. unfold known_op. simpl. rewrite lookup_insert_eq. by eexists.
  - intros op task' [= <- <-]. split; [done|]. eexists. simpl. rewrite lookup_insert_eq. done.
Qed.

Lemma handleDispatch_safe r : safe None (handleDispatch config r) (fun _ => True) (truthful_reply RDispatch r).
Proof.
  unfold handleDispatch. eapply safe_bind; [apply verifySigned_safe|]. intros [[e payload]|rp]; [|apply safe_ret; intros w _ [_ H] Hc; simpl in *; lia].
  destruct (decode_task payload) as [task|] eqn:Htask; [|by apply safe_ret]. destruct (match t_Command task with [] => true | _ => _ end); [by apply safe_ret|].
  eapply safe_bind; [apply take_nonce_safe; apply stable_and; apply stable_pure|]. intros [rp|].
  { apply safe_ret. intros w _ [_ H] Hc. lia. }
  apply safe_bind with (R := fun x w => addressed_op r maxArtifactBytes (en_OpID e) /\ match x with Some rp => rp_code rp = 409 | None => known_op (en_OpID e) w end).
  - eexists. split; [|split; [|intros x w _ H; exact H]].
    + intros [rp|]; apply stable_and; try apply stable_pure. apply known_op_stable.
    + intros w Hw [[_ (Haddr & Hk & H1 & H2 & H3 & H4 & H5 & H6)] Hn].
      assert (Ha : authorised e task) by (split_and!; try done; by exists payload).
      pose proof (register_section e task w Hw Ha Hn) as Hr. destruct (register e task w) as [[w' x] started] eqn:Hreg.
      destruct Hr as (? & ? & Hx & ?). split_and!; try done. destruct x as [rp|]; [|by apply Hx].
      unfold register in Hreg. repeat case_bool_decide; by simplify_eq.
  - intros [rp|]; [apply safe_ret; intros w _ [_ H] Hc; congruence|].
    eapply safe_mono; [| |apply (respondStatus_safe None (en_OpID e) 202 (fun w => addressed_op r maxArtifactBytes (en_OpID e) /\ known_op (en_OpID e) w))].
    + done.
    + intros rp w _ [[Ha Hk] _] _. eauto.
    + apply stable_and; [apply stable_pure|apply known_op_stable].
Qed.

Lemma entomb_section op w : winv w -> winv (entomb op w).1 /\ grows_by None w (entomb op w).1.
Proof.
  intros [H1 H2 H3]. split; [by constructor|]. constructor; simpl; [set_solver|done| |].
  - intros op' o Ho. exists o. split; [done|]. apply op_grows_refl.
  - intros op' _ Ho. done.
Qed.

Lemma cancel_section own op w : winv w -> winv (cancel_op op w).1 /\ grows_by own w (cancel_op op w).1.
Proof.
  intros Hw. split.
  - apply winv_alter; [done|]. intros o Ho. split; [done|]. split; [done|]. simpl. by apply (wi_closed _ Hw op).
  - apply grows_alter. intros o Ho. constructor; try done. simpl. eauto.
Qed.

Lemma handleCancel_safe r : safe None (handleCancel config r) (fun _ => True) (truthful_reply RCancel r).
Proof.
  unfold handleCancel. eapply safe_bind; [apply verifySigned_safe|]. intros [[e payload]|rp]; [|apply safe_ret; intros w _ [_ H] Hc; simpl in *; lia].
  eapply safe_bind; [apply take_nonce_safe; apply stable_and; apply stable_pure|]. intros [rp|].
  { apply safe_ret. intros w _ [_ H] Hc. lia. }
  set (op := en_OpID e). cbv zeta.
  assert (Hend : safe None (respondStatus op 200) (fun w => addressed_op r 0 op /\ entombed op w /\ over_op op w) (truthful_reply RCancel r)).
  { eapply safe_mono; [| |apply respondStatus_safe].
    - intros w _ H. exact H.
    - intros rp w _ [H _] _. eauto.
    - repeat apply stable_and; [apply stable_pure|apply entombed_stable|apply over_op_stable]. }
  apply safe_bind with (R := fun active w => addressed_op r 0 op /\ entombed op w /\ if active : bool then known_op op w else over_op op w).
  { apply safe_locked.
    - intros [|]; repeat apply stable_and; try apply stable_pure; try apply entombed_stable; [apply known_op_stable|apply over_op_stable].
    - intros w Hw [[_ (Haddr & _)] _]. destruct (entomb_section op w Hw) as [H1 H2]. split; [done|]. split; [done|]. split; [done|].
      split; [unfold entombed; simpl; set_solver|]. simpl. case_bool_decide as Hk; [done|]. apply eq_None_not_Some in Hk. unfold over_op. simpl. rewrite Hk. set_solver. }
  intros [|]; cbn [negb]; [|exact Hend].
  assert (Hst : stable None (fun w => addressed_op r 0 op /\ entombed op w /\ known_op op w)) by
    (repeat apply stable_and; [apply stable_pure|apply entombed_stable|apply known_op_stable]).
  apply safe_bind with (R := fun _ w => addressed_op r 0 op /\ entombed op w /\ known_op op w).
  { apply safe_locked; [by intros []|]. intros w Hw H. destruct (cancel_section None op w Hw) as [H1 H2]. split; [done|]. split; [done|]. eapply Hst; eauto. }
  intros []. apply safe_bind with (R := fun fin w => (addressed_op r 0 op /\ entombed op w /\ known_op op w) /\ (fin = true -> is_closed op w)).
  { split; intros w _ H; [destruct H; auto|auto]. split; [done|]. intros [=]. }
  intros [|]; cbn [negb]; [|apply safe_ret; by intros w _ _ [=]].
  apply safe_bind with (R := fun res w => addressed_op r 0 op /\ entombed op w /\ exists x, res = Some x /\ (LiveDescendants x <= 0 -> over_op op w)).
  { apply safe_view.
    - intros res. repeat apply stable_and; [apply stable_pure|apply entombed_stable|]. intros other w w' Ho Hg (x & -> & Hx). exists x. split; [done|].
      intros Hl. eapply over_op_stable; eauto.
    - intros w Hw [(Ha & Ht & _) Hcl]. split; [done|]. split; [done|]. destruct (Hcl eq_refl) as (o & Ho & Hc).
      destruct (wi_closed _ Hw op o Ho Hc) as [x Hx]. exists x. unfold known_result. rewrite Ho. simpl. split; [done|]. intros Hl. unfold over_op. rewrite Ho. eauto. }
  intros res. destruct (match res with Some x => 0 <? LiveDescendants x | None => false end) eqn:Hlive; [apply safe_ret; by intros w _ _ [=]|].
  eapply safe_mono; [| |exact Hend]; [|done]. intros w _ (Ha & Ht & x & -> & Hx). split; [done|]. split; [done|]. apply Hx. lia.
Qed.

Lemma release_section op w :
  winv w -> winv (release_op op w).1 /\ grows_by None w (release_op op w).1 /\ ((release_op op w).2 = Released -> over_op op (release_op op w).1).
Proof.
  intros Hw. unfold release_op. destruct (ops w !! op) as [o|] eqn:Ho.
  - destruct (op_result o) as [x|] eqn:Hx; [|split; [done|]; by split; [apply grows_refl|]].
    destruct (Z.eqb_spec (LiveDescendants x) 0) as [Hz|]; [|split; [done|]; by split; [apply grows_refl|]]. simpl.
    set (o' := {| op_envelope := op_envelope o; op_task := op_task o; op_cancelled := op_cancelled o; op_closed := op_closed o; op_result := Some (status_only x) |}).
    assert (Halt : <[op := o']> (ops w) = alter (fun _ => o') op (ops w)).
    { apply map_eq. intros i. destruct (decide (i = op)) as [->|]; [by rewrite lookup_insert_eq, lookup_alter_eq, Ho|by rewrite lookup_insert_ne, lookup_alter_ne]. }
    rewrite Halt. split_and!.
    + apply winv_alter; [done|]. intros o1 Ho1. simplify_eq. done.
    + apply grows_alter. intros o1 Ho1. simplify_eq. constructor; try done.
      * intros r Hr. rewrite Hx in Hr. injection Hr as ->. exists (status_only r). simpl. by rewrite Hz.
      * intros _. rewrite Hx. done.
    + intros _. unfold over_op. simpl. rewrite lookup_alter_eq, Ho. simpl. exists (status_only x). done.
  - split; [done|]. split; [apply grows_refl|]. simpl. case_bool_decide; [|done]. intros _. unfold over_op. by rewrite Ho.
Qed.

Lemma handleRelease_safe op r : safe None (handleRelease config op r) (fun _ => True) (truthful_reply (RRelease op) r).
Proof.
  unfold handleRelease. destruct (bad_opID op); [by apply safe_ret|].
  eapply safe_bind; [apply verifySigned_safe|]. intros [[e payload]|rp]; [|apply safe_ret; intros w _ [_ H] Hc; simpl in *; lia].
  destruct (negb _); [by apply safe_ret|].
  eapply safe_bind; [apply take_nonce_safe; apply stable_and; apply stable_pure|]. intros [rp|].
  { apply safe_ret. intros w _ [_ H] Hc. lia. }
  apply safe_bind with (R := fun v w => v = Released -> over_op op w).
  { apply safe_locked; [intros v other w w' Ho Hg H Hv; eapply over_op_stable; eauto|]. intros w Hw _. by apply release_section. }
  intros [| | |]; try by apply safe_ret.
  eapply safe_mono; [| |apply (respondStatus_safe None op 200 (over_op op)), over_op_stable]; [auto|]. intros rp w _ [H _] _. exact H.
Qed.

Lemma Handler_safe rt r : safe None (Handler config rt r) (fun _ => True) (truthful_reply rt r).
Proof.
  destruct rt; [apply handleDispatch_safe|apply handleCancel_safe|apply handleRelease_safe|apply handleResult_safe| |by apply safe_ret]. simpl.
  unfold handleSnapshot. destruct (_ || _); [by apply safe_ret|]. destruct (decode_snapshot _ _); [|by apply safe_ret].
  destruct (_ || _); [by apply safe_ret|]. destruct (negb _); [by apply safe_ret|]. intros x. by apply safe_ret.
Qed.

Lemma Shutdown_safe : safe None Shutdown (fun _ => True) (fun _ _ => True).
Proof.
  unfold Shutdown. apply safe_bind with (R := fun _ _ => True).
  - apply safe_locked; [intros; apply stable_pure|]. intros w Hw _. simpl. split; [|split; [|done]].
    + destruct Hw as [H1 H2 H3]. constructor; simpl; [| |done].
      * intros op o. rewrite lookup_fmap_Some. intros (o' & <- & Ho). simpl. by apply (H1 op).
      * intros op o. rewrite lookup_fmap_Some. intros (o' & <- & Ho). simpl. by apply H2.
    + constructor; simpl; try done.
      * intros op o Ho. rewrite lookup_fmap, Ho. simpl. eexists. split; [done|]. constructor; try done. simpl. eauto.
      * intros op _ Ho. by rewrite lookup_fmap, Ho.
  - intros l. induction l as [|op l IH]; [by apply safe_ret|]. split; [|by apply safe_ret].
    eapply safe_mono; [| |exact IH]; done.
Qed.

(** ** The goroutine of a task *)

Definition stored_op (opID : string) (w : Worker) : Prop := exists o, ops w !! opID = Some o /\ is_Some (op_result o) /\ op_closed o = false.

Lemma owned_stable op (F : option WorkerResult -> Prop) :
  (forall r r', F (Some r) -> F (Some r')) -> stable (Some op) (fun w => exists o, ops w !! op = Some o /\ F (op_result o) /\ op_closed o = false).
Proof.
  intros HF other w w' Ho Hg (o & Hop & Hf & Hc). destruct (gb_ops _ _ _ Hg op o Hop) as (o' & Ho' & G). exists o'. split; [done|].
  destruct (og_mine _ _ _ G) as [H1 H2]; [apply bool_decide_false; intros ->; destruct Ho; congruence|]. split; [|by rewrite H2].
  destruct (op_result o) as [r|] eqn:Hr; [|by rewrite H1]. destruct (og_result _ _ _ G r Hr) as (r' & -> & _). by eapply HF.
Qed.

Lemma task_thread_safe op task : safe (Some op) (task_thread passes op task) (fresh_op op) (fun _ _ => True).
Proof.
  assert (Hs : stable (Some op) (stored_op op)) by (apply (owned_stable op is_Some); eauto).
  unfold task_thread. eapply safe_bind; [apply safe_lift|]. intros r.
  apply safe_bind with (R := fun _ w => stored_op op w).
  - apply safe_locked; [done|]. intros w Hw (o & Ho & Hr & Hc). split_and!.
    + apply winv_alter; [done|]. intros o' Ho'. simplify_eq. split; [done|]. split; [done|]. by eexists.
    + apply grows_alter. intros o' Ho'. simplify_eq. rewrite bool_decide_true by done. constructor; try done. simpl. intros r'. by rewrite Hr.
    + eexists. simpl. rewrite lookup_alter_eq, Ho. split; [done|]. split; [by eexists|done].
  - intros []. apply safe_locked; [intros; apply stable_pure|]. intros w Hw (o & Ho & Hr & Hc). split_and!; [| |done].
    + apply winv_alter; [done|]. intros o' Ho'. simplify_eq. done.
    + apply grows_alter. intros o' Ho'. simplify_eq. rewrite bool_decide_true by done. constructor; try done. simpl. eauto.
Qed.

(** ** Soundness *)

Definition own_of (t : thread) : option string := match t with Running op _ => Some op | _ => None end.

Definition safe_from {A} (own : option string) (w : Worker) (p : prog workerE A) (Q : A -> Worker -> Prop) : Prop :=
  exists P, stable own P /\ P w /\ safe own p P Q.

Definition thread_ok (w : Worker) (t : thread) : Prop :=
  match t with
  | Serving rt r p => safe_from None w p (truthful_reply rt r)
  | Running op p => known_op op w /\ safe_from (Some op) w p (fun _ _ => True)
  | Stopping p => safe_from None w p (fun _ _ => True)
  end.

Record sys_ok (s : system) : Prop := {
  so_inv : winv (sys_worker s);
  so_threads : Forall (thread_ok (sys_worker s)) (threads s);
  so_once : NoDup (omap own_of (threads s))
}.

Lemma step_prog_safe {A} a own (p : prog workerE A) Q w w' p' started :
  step_prog a p w = Some (w', p', started) -> winv w -> safe_from own w p Q ->
  winv w' /\ grows_by own w w' /\ safe_from own w' p' Q /\ forall op task, started = Some (op, task) -> ops w !! op = None /\ fresh_op op w'.
Proof.
  intros Hstep Hw (P & HP & Hp & Hs). destruct p as [x|X e k]; [done|]. destruct e; simpl in *.
  - destruct Hs as (P' & H1 & H2 & H3). destruct (H2 w Hw Hp) as (H4 & H5 & H6). destruct (f w) as [w1 x]. simplify_eq. split_and!; try done. by exists (P' x).
  - destruct Hs as (P' & H1 & H2 & H3). specialize (H2 w Hw Hp). destruct (f w) as [[w1 x] st]. simplify_eq. destruct H2 as (H4 & H5 & H6 & H7).
    split_and!; try done. by exists (P' x).
  - destruct Hs as [H1 H2]. assert (w' = w /\ started = None) as [-> ->] by (repeat case_match; by simplify_eq).
    split; [done|]. split; [apply grows_refl|]. split; [|done]. destruct (an_interrupt a); [simplify_eq; by exists P|].
    unfold op_is in Hstep. destruct (ops w !! opID) as [o|] eqn:Ho; [|done]. destruct (op_closed o) eqn:Hc; [|done]. simplify_eq.
    exists (fun w => P w /\ is_closed opID w). split; [apply stable_and; [done|apply is_closed_stable]|]. split; [|done]. split; [done|]. by exists o.
  - simplify_eq. split; [done|]. split; [apply grows_refl|]. split; [by exists P|done].
  - simplify_eq. split; [done|]. split; [apply grows_refl|]. split; [by exists P|done].
  - destruct (host_answer a w X e) as [x|]; [|done]. simplify_eq. split; [done|]. split; [apply grows_refl|]. split; [by exists P|done].
Qed.

Lemma step_thread_safe a t w w' t' started :
  step_thread a t w = Some (w', t', started) -> winv w -> thread_ok w t ->
  winv w' /\ grows_by (own_of t) w w' /\ thread_ok w' t' /\ own_of t' = own_of t /\
  forall op task, started = Some (op, task) -> ops w !! op = None /\ fresh_op op w'.
Proof.
  intros Hstep Hw Ht. destruct t as [rt r p|op p|p]; simpl in *; destruct (step_prog a p w) as [[[w1 p1] st]|] eqn:Hp; simplify_eq; simpl.
  - by destruct (step_prog_safe a None p _ w w' p1 started Hp Hw Ht) as (? & ? & ? & ?).
  - destruct Ht as [Hk Ht]. destruct (step_prog_safe a (Some op) p _ w w' p1 started Hp Hw Ht) as (? & Hg & ? & ?). split_and!; try done.
    destruct Hk as [o Ho]. destruct (gb_ops _ _ _ Hg op o Ho) as (o' & Ho' & _). by exists o'.
  - by destruct (step_prog_safe a None p _ w w' p1 started Hp Hw Ht) as (? & ? & ? & ?).
Qed.

Lemma other_thread_ok own w w' t :
  own = None \/ own <> own_of t -> grows_by own w w' -> thread_ok w t -> thread_ok w' t.
Proof.
  intros Ho Hg. destruct t as [rt r p|op p|p]; simpl in *.
  - intros (P & H1 & H2 & H3). exists P. split; [done|]. split; [by eapply H1|done].
  - intros [Hk (P & H1 & H2 & H3)]. split; [by eapply known_op_stable|]. exists P. split; [done|]. split; [by eapply H1|done].
  - intros (P & H1 & H2 & H3). exists P. split; [done|]. split; [by eapply H1|done].
Qed.

Lemma sys_step_ok s act s' : sys_step s act = Some s' -> sys_ok s -> sys_ok s'.
Proof.
  intros Hstep [H1 H2 H3]. destruct act as [rt r| |i a]; simpl in Hstep; simplify_eq.
  - constructor; simpl; [done| |by rewrite omap_app, app_nil_r]. apply Forall_app. split; [done|]. constructor; [|done].
    exists (fun _ => True). split; [apply stable_pure|]. split; [done|]. apply Handler_safe.
  - constructor; simpl; [done| |by rewrite omap_app, app_nil_r]. apply Forall_app. split; [done|]. constructor; [|done].
    exists (fun _ => True). split; [apply stable_pure|]. split; [done|]. apply Shutdown_safe.
  - destruct (threads s !! i) as [t|] eqn:Ht; [|done]. destruct (step_thread a t (sys_worker s)) as [[[w' t'] started]|] eqn:Hst; [|done]. simplify_eq.
    pose proof (proj1 (Forall_lookup _ _) H2 i t Ht) as Hok.
    destruct (step_thread_safe a t _ _ _ _ Hst H1 Hok) as (Hw & Hg & Hok' & Hown & Hnew).
    assert (Hown' : omap own_of (<[i := t']> (threads s)) = omap own_of (threads s)).
    { clear -Ht Hown. revert i Ht. induction (threads s) as [|x l IH]; intros [|i] Ht; [done|done|..].
      - injection Ht as ->. change (<[0%nat := t']> (t :: l)) with (t' :: l). cbn [omap list_omap]. by rewrite Hown.
      - change (<[S i := t']> (x :: l)) with (x :: <[i := t']> l). cbn [omap list_omap]. by rewrite (IH i Ht). }
    constructor; simpl; [done| |].
    + apply Forall_app. split.
      * apply Forall_lookup. intros j x. rewrite list_lookup_insert_Some. intros [(-> & -> & _)|[Hne Hj]]; [done|].
        eapply other_thread_ok; [|exact Hg|by eapply Forall_lookup_1]. destruct (own_of t) as [op|] eqn:Ho; [|by left]. right. intros Hx.
        clear -H3 Ht Hj Hne Ho Hx. revert i j Ht Hj Hne. induction (threads s) as [|y l IH]; intros [|i] [|j] Ht Hj Hne; simpl in *; simplify_eq.
        -- rewrite Ho in H3. apply NoDup_cons in H3 as [H3 _]. apply H3, list_elem_of_omap. exists x. split; [by eapply list_elem_of_lookup_2|done].
        -- rewrite <- Hx in H3. apply NoDup_cons in H3 as [H3 _]. apply H3, list_elem_of_omap. exists t. split; [by eapply list_elem_of_lookup_2|done].
        -- apply (IH ltac:(destruct (own_of y); [by apply NoDup_cons in H3 as [_ ?]|done]) i j Ht Hj). congruence.
      * destruct started as [[op task]|]; [|done]. constructor; [|done]. destruct (Hnew op task eq_refl) as [_ Hf]. split.
        -- destruct Hf as (o & Ho & _). by exists o.
        -- exists (fresh_op op). split; [|split; [done|apply task_thread_safe]].
           apply (owned_stable op (fun r => r = None)). done.
    + rewrite omap_app, Hown'. destruct started as [[op task]|]; [|by rewrite app_nil_r]. simpl. apply NoDup_app. split; [done|]. split; [|apply NoDup_singleton].
      intros x Hx ->%list_elem_of_singleton. destruct (Hnew op task eq_refl) as [Hn _].
      apply list_elem_of_omap in Hx as (y & Hy & Hoy). apply list_elem_of_lookup_1 in Hy as [j Hj]. pose proof (proj1 (Forall_lookup _ _) H2 j y Hj) as Hyok.
      destruct y as [| op' p|]; simplify_eq/=. destruct Hyok as [[o Ho] _]. congruence.
Qed.

Definition new_system (w : Worker) : system := {| sys_worker := w; threads := [] |}.

Lemma sys_run_ok acts s s' : sys_run s acts = Some s' -> sys_ok s -> sys_ok s'.
Proof.
  revert s. induction acts as [|act acts IH]; intros s; simpl; [by intros [= ->]|]. destruct (sys_step s act) as [s1|] eqn:Hs; [|done].
  intros Hr Hok. eapply IH; [exact Hr|]. by eapply sys_step_ok.
Qed.

Lemma new_system_ok w : NewWorker config = Ok w -> sys_ok (new_system w).
Proof.
  unfold NewWorker. intros H. repeat case_match; simplify_eq. constructor; [|constructor|constructor]. constructor; simpl; try done.
Qed.
End Schedule.

Lemma step_grows {ED : Ed25519} {WI : Wire} config passes s act s' :
  sys_step config passes s act = Some s' -> sys_ok config s -> exists own, grows_by own (sys_worker s) (sys_worker s').
Proof.
  intros Hstep [H1 H2 _]. destruct act as [rt r| |i a]; simpl in Hstep; simplify_eq; [exists None; apply grows_refl..|].
  destruct (threads s !! i) as [t|] eqn:Ht; [|done]. destruct (step_thread a t (sys_worker s)) as [[[w' t'] started]|] eqn:Hst; [|done]. simplify_eq.
  destruct (step_thread_safe config a t _ _ _ _ Hst H1 (proj1 (Forall_lookup _ _) H2 i t Ht)) as (_ & Hg & _). by exists (own_of t).
Qed.

(** What every thread may rely on stays true for the rest of the worker's life. *)
Lemma run_stable {ED : Ed25519} {WI : Wire} config passes P acts s s' :
  stable None P -> sys_run config passes s acts = Some s' -> sys_ok config s -> P (sys_worker s) -> P (sys_worker s').
Proof.
  intros HP. revert s. induction acts as [|act acts IH]; intros s; simpl; [by intros [= ->]|].
  destruct (sys_step config passes s act) as [s1|] eqn:Hs; [|done]. intros Hr Hok Hp.
  destruct (step_grows config passes s act s1 Hs Hok) as [own Hg]. eapply (IH s1 Hr); [by eapply sys_step_ok|].
  eapply HP; [|exact Hg|exact Hp]. destruct own; [by right|by left].
Qed.

Lemma over_not_unfinished op w o : over_op op w -> ops w !! op = Some o -> is_Some (op_result o).
Proof. unfold over_op. intros H Ho. rewrite Ho in H. destruct H as (r & -> & _). by eexists. Qed.

Section Worker.
Context {ED : Ed25519} {WI : Wire}.


(** C6: What the worker answers stays true.  Under every schedule, once a handler
    has answered, then from that moment on: an acknowledged cancellation names
    an operation that is tombstoned and over (its task stored a result with
    nothing left running, or it never started); a released operation is over; a
    poll that reports an operation over means it is, and a poll that knows it
    means it was registered or tombstoned; an accepted dispatch is registered. *)
Theorem worker_replies_truthful (config : WorkerConfig) (passes : nat) (w0 : Worker) (acts acts' : list action) (s s' : system)
    (rt : route) (r : wrequest) (rp : reply)
    (Hnew : NewWorker config = Ok w0) (Hrun : sys_run config passes (new_system w0) acts = Some s)
    (Hdone : Serving rt r (Ret rp) ∈ threads s) (Hlater : sys_run config passes s acts' = Some s') :
  truthful_reply rt r rp (sys_worker s').
Proof.
  pose proof (sys_run_ok config passes acts _ _ Hrun (new_system_ok config w0 Hnew)) as Hok. pose proof Hok as [H1 H2 _].
  pose proof (proj1 (Forall_forall _ _) H2 _ Hdone) as (P & HP & Hp & Hs).
  apply (run_stable config passes (truthful_reply rt r rp) acts' s s'); [apply truthful_reply_stable|done|done|]. by apply Hs.
Qed.
End Worker.

(** ** A sample worker *)

Definition sample_task : Task := {| t_Command := ["sh"; "-c"; "make"]; t_ArtifactPath := ""; t_Env := [] |}.

Definition sample_envelope (kind nonce payload : string) (sequence : Z) : Envelope :=
  {| en_RunUID := "run-1"; en_ControlPodUID := "control-1"; en_WorkerPodUID := "worker-1"; en_BriefID := "b1"; en_OpID := "op-1"; en_Kind := kind;
     PayloadDigest := PayloadDigestOf payload; Sequence := sequence; en_Nonce := nonce; en_ExpiresAt := 1000 |}.

Definition sample_dispatch : Envelope := sample_envelope KindDispatch "nonce-0000000001" "task" 0.
Definition sample_cancel : Envelope := sample_envelope KindCancel "nonce-0000000002" "" 1.

Definition sample_canonical (e : Envelope) : string := en_Kind e ++ en_OpID e ++ en_Nonce e.

Definition sample_wire : Wire :=
  {| canonical := fun e => Some (sample_canonical e);
     encode_signed := fun _ => Some "";
     decode_signed := fun _ b =>
       if String.eqb b "dispatch"
       then Some ({| sg_Envelope := sample_dispatch; Signature := sample_key ++ sample_canonical sample_dispatch; Payload := "task" |}, true) else
       if String.eqb b "cancel"
       then Some ({| sg_Envelope := sample_cancel; Signature := sample_key ++ sample_canonical sample_cancel; Payload := "" |}, true) else None;
     encode_task := fun _ => Some "task"; decode_task := fun p => if String.eqb p "task" then Some sample_task else None;
     encode_snapshot := fun _ => None; decode_snapshot := fun _ _ => None; decode_ack := fun _ => None; decode_state := fun _ => None |}.

Definition sample_body (b : string) : wrequest := {| wq_path := ""; wq_RawQuery := ""; wq_ContentLength := 1; wq_Body := b |}.

(** A host on which no process can be started. *)
Definition sample_host (X : Type) (e : taskE X) : option X :=
  match e in taskE X return option X with
  | StartChild _ _ => Some (Err "no processes")
  | GateLock | GateUnlock => Some tt
  | _ => None
  end.

Definition sample_answers : answers := {| an_host := sample_host; an_now := 0; an_stored := true; an_interrupt := false |}.

Definition go (i : nat) : action := Advance i sample_answers.

(** A dispatch is registered, a cancellation of it arrives and is recorded, then
    the dispatch answers. *)
Definition sample_race : list action :=
  [Arrive RDispatch (sample_body "dispatch"); go 0; go 0; go 0;
   Arrive RCancel (sample_body "cancel"); go 2; go 2; go 2; go 0].

(** The task then ends, and the cancellation is acknowledged. *)
Definition sample_rest : list action := [go 2; go 1; go 1; go 1; go 1; go 1; go 1; go 2; go 2; go 2].

Definition sample_w0 : Worker := {| ops := ∅; tombstones := ∅; nonces := ∅ |}.

Definition sample_sys (acts : list action) : option system :=
  sys_run (ED := sample_ed) (WI := sample_wire) sample_worker_config 1 (new_system sample_w0) acts.

Definition reply_of (t : thread) : option reply := match t with Serving _ _ (Ret rp) => Some rp | _ => None end.

(** The acknowledgement of a dispatch may say cancelled while its task runs. *)
Lemma dispatch_ack_races_cancel :
  (fun s => (reply_of <$> threads s, omap own_of (threads s), known_result (sys_worker s) "op-1")) <$> sample_sys sample_race =
  Some ([Some {| rp_code := 202; rp_body := State ResultCancelled None |}; None; None], ["op-1"], None).
Proof. vm_compute. reflexivity. Qed.


Lemma worker_replies_truthful_witness :
  exists s r rp, sample_sys (sample_race ++ sample_rest) = Some s /\ rp_code rp = 200 /\
    truthful_reply (WI := sample_wire) RCancel r rp (sys_worker s).
Proof.
  assert (Hrep : (fun s => (threads s !! 2%nat) ≫= fun t => match t with Serving RCancel _ (Ret rp) => Some (rp_code rp) | _ => None end) <$>
    sample_sys (sample_race ++ sample_rest) = Some (Some 200)) by (vm_compute; reflexivity).
  destruct (sample_sys (sample_race ++ sample_rest)) as [s|] eqn:Hs; [|discriminate Hrep].
  injection Hrep as Hrep. destruct (threads s !! 2%nat) as [t|] eqn:Ht; [|discriminate Hrep].
  destruct t as [rt r [rp|]| |]; try discriminate Hrep; destruct rt; try discriminate Hrep. injection Hrep as Hcode.
  exists s, r, rp. split; [reflexivity|]. split; [exact Hcode|].
  exact (worker_replies_truthful (ED := sample_ed) (WI := sample_wire) sample_worker_config 1 sample_w0 _ [] s s RCancel r rp ltac:(reflexivity) Hs
    (list_elem_of_lookup_2 _ _ _ Ht) eq_refl).
Defined.
