(* ===== verification/GoPath.v ===== *)
(** * Slash-separated paths

    [path/filepath] on Unix, as far as the sources use it: [Clean], [Dir],
    [Base] and [Join] on strings, by the elements of a path. *)

From S2P Require Import Prelude GoStrings.
Local Open Scope string_scope.

(** ** Definitions *)

(** [filepath.IsAbs]. *)
Definition rooted (path : string) : bool := HasPrefix path "/".

(** One element of a path onto those kept so far, the last one first. *)
Definition clean_step (abs : bool) (kept : list string) (p : string) : list string :=
  if String.eqb p "" || String.eqb p "." then kept else
  if String.eqb p ".." then
    match kept with
    | [] => if abs then [] else [".."]
    | last :: before => if String.eqb last ".." then ".." :: kept else before
    end
  else p :: kept.

Definition elements (path : string) : list string := rev (foldl (clean_step (rooted path)) [] (Split path "/")).

Definition Clean (path : string) : string :=
  match elements path with
  | [] => if rooted path then "/" else "."
  | els => (if rooted path then "/" else "") ++ Join els "/"
  end.

Definition Dir (path : string) : string :=
  Clean (match LastIndexByte path "/" with Some i => stake (S i) path | None => "" end).

Definition Base (path : string) : string :=
  if String.eqb path "" then "." else
  let path := TrimRight path "/" in
  let path := match LastIndexByte path "/" with Some i => sdrop (S i) path | None => path end in
  if String.eqb path "" then "/" else path.

Definition PathJoin (a b : string) : string :=
  if String.eqb a "" then (if String.eqb b "" then "" else Clean b) else Clean (a ++ "/" ++ b).

(** ** Clean paths *)

(** What [Clean] leaves as an element. *)
Definition plain (p : string) : Prop := p <> "" /\ p <> "." /\ no_byte "/" p = true.

Lemma clean_step_plain abs kept p : no_byte "/" p = true -> Forall plain kept -> Forall plain (clean_step abs kept p).
Proof.
  intros Hp Hk. unfold clean_step. destruct (String.eqb_spec p ""), (String.eqb_spec p "."); cbn [orb]; try done.
  assert (Hdots : plain "..") by done.
  destruct (String.eqb_spec p ".."); [|by constructor].
  destruct Hk as [|last before Hl Hb]; [destruct abs; repeat apply Forall_cons_2; done|]. destruct (String.eqb last ".."); repeat apply Forall_cons_2; done.
Qed.

Lemma foldl_clean_plain abs parts kept :
  Forall (fun p => no_byte "/" p = true) parts -> Forall plain kept -> Forall plain (foldl (clean_step abs) kept parts).
Proof. intros H. revert kept. induction H as [|p parts Hp _ IH]; intros kept Hk; [done|]. apply IH. by apply clean_step_plain. Qed.

Lemma elements_plain path : Forall plain (elements path).
Proof.
  unfold elements. apply Forall_rev, foldl_clean_plain; [|done]. apply Forall_forall. intros p. apply Split_no_byte.
Qed.

(** The elements of a joined list. *)
Lemma Split_join_slash l : l <> [] -> Forall (fun s => no_byte "/" s = true) l -> Split (Join l "/") "/" = l.
Proof.
  intros Hne H. induction H as [|s l Hs _ IH]; [done|]. destruct l as [|p l]; [by apply Split_single|].
  change (Join (s :: p :: l) "/") with (s ++ String "/" (Join (p :: l) "/")). rewrite Split_app, Split_single, IH by done. done.
Qed.

(** Parent elements lead a clean relative path, and an absolute one has none. *)
Definition settled (abs : bool) (kept : list string) : Prop :=
  exists ups names, rev kept = (ups ++ names)%list /\ Forall (fun p => p = "..") ups /\ Forall (fun p => p <> "..") names /\ (abs = true -> ups = []).

Lemma clean_step_settled abs kept p : settled abs kept -> settled abs (clean_step abs kept p).
Proof.
  intros (ups & names & Heq & Hu & Hn & Ha). unfold clean_step. destruct (_ || _); [by exists ups, names|].
  destruct (String.eqb_spec p "..") as [->|Hp].
  - destruct kept as [|last before].
    + destruct abs; [by exists [], []|]. exists [".."], []. by repeat constructor.
    + cbn [rev] in Heq. destruct (String.eqb_spec last "..") as [->|Hl].
      * destruct names as [|x names] using rev_ind.
        -- rewrite app_nil_r in Heq. exists (ups ++ [".."])%list, []. rewrite app_nil_r. cbn [rev]. rewrite Heq. split; [done|]. split; [apply Forall_app; by repeat constructor|].
           split; [done|]. intros H. apply Ha in H as ->. by destruct (rev before).
        -- rewrite app_assoc in Heq. apply app_inj_tail in Heq as [_ <-]. apply Forall_app in Hn as [_ Hn]. by apply Forall_cons in Hn as [? _].
      * destruct names as [|x names] using rev_ind.
        -- rewrite app_nil_r in Heq. destruct ups as [|u ups] using rev_ind; [by destruct (rev before)|].
           apply app_inj_tail in Heq as [_ <-]. apply Forall_app in Hu as [_ Hu]. by apply Forall_cons in Hu as [? _].
        -- rewrite app_assoc in Heq. apply app_inj_tail in Heq as [Heq _]. apply Forall_app in Hn as [Hn _]. by exists ups, names.
  - exists ups, (names ++ [p])%list. cbn [rev]. rewrite Heq, app_assoc. split; [done|]. split; [done|]. split; [apply Forall_app; by repeat constructor|done].
Qed.

Lemma elements_settled path : settled (rooted path) (rev (elements path)).
Proof.
  unfold elements. rewrite rev_involutive. assert (H : settled (rooted path) []) by (by exists [], []).
  revert H. generalize (@nil string). induction (Split path "/") as [|p parts IH]; intros kept H; [done|]. by apply IH, clean_step_settled.
Qed.

Lemma rooted_slash s : rooted ("/" ++ s) = true.
Proof. by destruct s. Qed.

Lemma rooted_Clean path : rooted (Clean path) = rooted path.
Proof.
  unfold Clean. destruct (elements path) as [|e els] eqn:He; [by destruct (rooted path)|]. destruct (rooted path); [apply rooted_slash|].
  pose proof (elements_plain path) as Hp. rewrite He in Hp. apply Forall_cons in Hp as [(H1 & _ & H3) _].
  destruct e as [|c e]; [done|]. cbn [no_byte] in H3. apply andb_true_iff in H3 as [H3 _].
  assert (Hc : forall r, rooted (String c r) = false).
  { intros r. unfold rooted, HasPrefix. cbn [String.prefix]. destruct (ascii_dec "/" c) as [<-|]; done. }
  destruct els; apply Hc.
Qed.

Lemma rooted_PathJoin a b : rooted a = true -> rooted (PathJoin a b) = true.
Proof.
  intros Ha. unfold PathJoin. destruct a as [|c a]; [done|]. cbn [String.eqb]. rewrite rooted_Clean. revert Ha.
  unfold rooted, HasPrefix. rewrite !sapp_cons. cbn [String.prefix]. destruct (ascii_dec "/" c); [|done]. by destruct (a ++ _), a.
Qed.

Lemma rooted_Dir path : rooted path = true -> rooted (Dir path) = true.
Proof.
  intros Hp. unfold Dir. rewrite rooted_Clean. destruct path as [|c r]; [done|].
  assert (c = "/"%char) as -> by (revert Hp; unfold rooted, HasPrefix; cbn [String.prefix]; by destruct (ascii_dec "/" c)).
  cbn [LastIndexByte Ascii.eqb]. destruct (LastIndexByte r "/") as [i|]; cbn [stake]; apply rooted_slash.
Qed.
