(* ===== verification/GitTree.v ===== *)
(** * The control pod's private git tree (internal/git/bundle.go, hardened.go,
      git.go)

    The git operations of trusted integration, as the command lines they issue:
    bundles are verified, scanned, unpacked in quarantine and fetched, commits
    resolved, compared and made, and the base merged.  A command is a request
    with its directory, its extra environment and its arguments; git's answer,
    and everything the file system says, is arbitrary.

    Removing temporary files is left to the deferred calls of the code. *)

From S2P Require Import Prelude Effects GoStrings GoPath Sha256 Zlib Pack Devenv GitTransport.
Local Open Scope string_scope.
Local Open Scope Z_scope.

(** ** Requests *)

(** How a streamed command ended: cleanly, with an unreadable output, with a
    failure of the process, or before it started. *)
Inductive lines_end := LinesClean | LinesUnreadable | LinesFailed | LinesNotStarted.

Record listing := { li_lines : list string; li_end : lines_end }.

(** [InGit] is a command in the hardened environment, [RunGit] one in the
    process environment, [GitLines] a streamed one.  [TempDir] and [MessageFile]
    answer the random suffix of a fresh name.  [EvalSymlinks] is asked about
    absolute directories: it answers the elements of the absolute path they
    resolve to. *)
Inductive treeE : Type -> Type :=
| InGit X (e : gitE X) : treeE X
| RunGit (directory : string) (args : list string) : treeE git_answer
| GitLines (directory : string) (env args : list string) : treeE listing
| MkdirAll (path : string) : treeE bool
| TempDir (parent prefix : string) : treeE (option string)
| WriteFile (path data : string) : treeE bool
| ReadBytes (path : string) : treeE (option string)
| EvalSymlinks (directory : string) : treeE (option (list string))
| RegularFile (path : string) : treeE bool
| OpenBundle (path : string) : treeE (bundle_file * (Z -> option string))
| MessageFile (directory message : string) : treeE (option string).
Arguments InGit {X} e.

Abbreviation tree A := (prog treeE (result string A)).

Definition tree_err {A} (msg : string) : tree A := Ret (Err msg).

(** [hardened]. *)
Definition hardened (directory : string) (env args : list string) : prog treeE git_answer := call (InGit (Git directory env args)).

Definition Hardened (directory : string) (args : list string) : tree string :=
  a ← hardened directory [] args;
  match a with Output s => Ret (Ok s) | _ => tree_err "git command failed" end.

(** A git operation shared with the broker. *)
Definition in_tree {A} (p : git A) : tree A := lift (@InGit) p.

(** ** Bundles *)

Definition localBundlePath (bundlePath : string) : tree string :=
  let bundlePath := Clean (TrimSpace bundlePath) in
  if String.eqb bundlePath "." || negb (rooted bundlePath) || hasControl bundlePath
  then tree_err "git bundle: path must be an absolute local path" else
  parent ← call (EvalSymlinks (Dir bundlePath));
  match parent with
  | None => tree_err "git bundle: path is unavailable"
  | Some els =>
      let bundlePath := PathJoin ("/" ++ Join els "/") (Base bundlePath) in
      regular ← call (RegularFile bundlePath);
      if regular : bool then Ret (Ok bundlePath) else tree_err "git bundle: bundle must be a regular non-symlink file"
  end.

Definition VerifyBundle (repoDir bundlePath : string) : tree unit :=
  path ←? localBundlePath bundlePath ;
  _ ←? Hardened repoDir ["bundle"; "verify"; "--quiet"; path] ; Ret (Ok tt).

Record BundleRef := { br_OID : string; br_Name : string }.

Fixpoint parse_heads (lines : list string) : option (list BundleRef) :=
  match lines with
  | [] => Some []
  | line :: rest =>
      let line := TrimSpace line in
      if String.eqb line "" then parse_heads rest else
      match Fields line with
      | [oid; name] =>
          if negb (validOID oid) || String.eqb name "" then None else
          heads ← parse_heads rest; Some ({| br_OID := ToLower oid; br_Name := name |} :: heads)
      | _ => None
      end
  end.

Definition BundleHeads (bundlePath : string) : tree (list BundleRef) :=
  path ←? localBundlePath bundlePath ;
  out ←? Hardened "" ["bundle"; "list-heads"; path] ;
  match parse_heads (Split out newline) with
  | None => tree_err "git bundle: malformed ref advertisement"
  | Some [] => tree_err "git bundle: no refs advertised"
  | Some heads => Ret (Ok heads)
  end.

(** An ordinary failure of a bounded operation. *)
Definition scan_step {A} (p : tree A) : prog treeE (result scan_error A) :=
  r ← p; match r with Ok a => Ret (Ok a) | Err m => Ret (Err (ScanError m)) end.

Section Quarantine.
Context (inflate : list Z -> option zstream).

Definition Unbundle (objectDir bundlePath : string) (limits : ObjectLimits) : prog treeE (result scan_error unit) :=
  match validObjectLimits limits with
  | Err e => Ret (Err e)
  | Ok _ =>
      path ←? scan_step (localBundlePath bundlePath) ;
      '(file, ctxErr) ← call (OpenBundle path);
      match (scanBundlePack inflate ctxErr file limits).2 with
      | Err e => Ret (Err e)
      | Ok _ =>
          scratch ← call (TempDir (Dir objectDir) "courier-unbundle-");
          match scratch with
          | None => Ret (Err (ScanError "git bundle unbundle"))
          | Some suffix =>
              let scratch := PathJoin (Dir objectDir) ("courier-unbundle-" ++ suffix) in
              _ ←? scan_step (Hardened "" ["init"; "--quiet"; "--bare"; scratch]) ;
              a ← hardened scratch ["GIT_OBJECT_DIRECTORY=" ++ objectDir] ["bundle"; "unbundle"; path];
              match a with Output _ => Ret (Ok tt) | _ => Ret (Err (ScanError "git bundle unbundle")) end
          end
      end
  end.
End Quarantine.

Record ObjectInventory := { iv_Count : Z; iv_TotalBytes : Z; iv_MaxBlobBytes : Z }.

(** [strings.SplitN(line, " ", 3)], when it has three parts. *)
Definition split3 (line : string) : option (string * string * string) :=
  match Split line " " with a :: b :: c :: rest => Some (a, b, Join (c :: rest) " ") | _ => None end.

(** One line of the listing. *)
Definition inventory_line (limits : ObjectLimits) (inv : ObjectInventory) (line : string) : result scan_error ObjectInventory :=
  let line := TrimSpace line in
  if String.eqb line "" then Ok inv else
  match split3 line with
  | None => Err (ScanError "malformed listing")
  | Some (oid, kind, digits) =>
      if negb (validOID oid) then Err (ScanError "malformed listing") else
      let '(size, ok) := Atoi digits in
      if negb ok || (size <? 0) then Err (ScanError "malformed object size") else
      let count := iv_Count inv + 1 in
      if MaxObjects limits <? count then Err (LimitError LimitObjects) else
      let blob := String.eqb kind "blob" in
      if blob && (MaxObjectBytes limits <? size) then Err (LimitError LimitObjectBytes) else
      match addScanTotal (iv_TotalBytes inv) size (MaxTotalBytes limits) with
      | Err e => Err e
      | Ok total => Ok {| iv_Count := count; iv_TotalBytes := total;
                          iv_MaxBlobBytes := if blob && (iv_MaxBlobBytes inv <? size) then size else iv_MaxBlobBytes inv |}
      end
  end.

Fixpoint inventory_lines (limits : ObjectLimits) (inv : ObjectInventory) (lines : list string) : result scan_error ObjectInventory :=
  match lines with
  | [] => Ok inv
  | line :: rest => match inventory_line limits inv line with Ok inv => inventory_lines limits inv rest | Err e => Err e end
  end.

Definition no_objects : ObjectInventory := {| iv_Count := 0; iv_TotalBytes := 0; iv_MaxBlobBytes := 0 |}.

Definition InventoryObjects (repoDir objectDir : string) (limits : ObjectLimits) : prog treeE (result scan_error ObjectInventory) :=
  match validObjectLimits limits with
  | Err e => Ret (Err e)
  | Ok _ =>
      l ← call (GitLines repoDir ["GIT_OBJECT_DIRECTORY=" ++ objectDir]
                  ["cat-file"; "--batch-all-objects"; "--batch-check=%(objectname) %(objecttype) %(objectsize)"]);
      match li_end l with
      | LinesNotStarted => Ret (Err (ScanError "git inventory objects"))
      | ended =>
          match inventory_lines limits no_objects (li_lines l) with
          | Err e => Ret (Err e)
          | Ok inv =>
              match ended with
              | LinesClean => if iv_Count inv =? 0 then Ret (Err (ScanError "git inventory objects: no objects found")) else Ret (Ok inv)
              | _ => Ret (Err (ScanError "git inventory objects"))
              end
          end
      end
  end.

Definition FetchBundleIntoFetchHead (repoDir bundlePath remoteRef : string) : tree unit :=
  path ←? localBundlePath bundlePath ;
  if String.eqb remoteRef "" || HasPrefix remoteRef "-" then tree_err "git bundle fetch: ref is required" else
  _ ←? Hardened repoDir ["fetch"; "--no-tags"; "--"; path; remoteRef] ; Ret (Ok tt).

Definition FetchBundleRef (repoDir bundlePath remoteRef localRef : string) : tree unit :=
  path ←? localBundlePath bundlePath ;
  if String.eqb remoteRef "" || String.eqb localRef "" || HasPrefix remoteRef "-" || HasPrefix localRef "-"
  then tree_err "git bundle fetch: refs are required" else
  _ ←? Hardened repoDir ["fetch"; "--no-tags"; "--"; path; "+" ++ remoteRef ++ ":" ++ localRef] ; Ret (Ok tt).

(** ** Commits *)

(** The object ID a command printed. *)
Definition printed_oid (out failure : string) : tree string :=
  let oid := TrimSpace out in
  if negb (validOID oid) then tree_err failure else Ret (Ok (ToLower oid)).

Definition ResolveCommit (repoDir rev : string) : tree string :=
  if String.eqb rev "" || HasPrefix rev "-" then tree_err "git resolve: revision is required" else
  out ←? Hardened repoDir ["rev-parse"; "--verify"; "--quiet"; rev] ;
  printed_oid out "git resolve commit: invalid resolved object ID".

Definition HeadOID (dir : string) : tree string :=
  out ←? Hardened dir ["rev-parse"; "HEAD"] ; printed_oid out "git head: invalid resolved object ID".

(** The verdict of a command whose exit code 1 is an answer. *)
Definition exit_verdict (a : git_answer) (failure : string) : tree bool :=
  match a with
  | Output _ => Ret (Ok true)
  | ExitCode code => if code =? 1 then Ret (Ok false) else tree_err failure
  | NoVerdict => tree_err failure
  end.

Definition IsAncestor (repoDir ancestor descendant : string) : tree bool :=
  if negb (validOID ancestor) || negb (validOID descendant) then tree_err "git ancestry: invalid object ID" else
  a ← hardened repoDir [] ["merge-base"; "--is-ancestor"; ancestor; descendant];
  exit_verdict a "git ancestry".

Definition ChangedPaths (repoDir from to : string) : tree (list string) :=
  if negb (validOID from) || negb (validOID to) then tree_err "git changed paths: invalid object ID" else
  out ←? Hardened repoDir ["diff"; "--no-renames"; "--name-only"; "-z"; from; to] ;
  Ret (Ok (List.filter (fun r => negb (String.eqb r "")) (Split out (chr 0)))).

Definition ReadTreeInto (worktreeDir treeish : string) : tree unit :=
  _ ←? Hardened worktreeDir ["read-tree"; "--reset"; "-u"; treeish] ; Ret (Ok tt).

Definition DiffIndexQuiet (worktreeDir : string) : tree bool :=
  a ← hardened worktreeDir [] ["diff-index"; "--quiet"; "HEAD"]; exit_verdict a "git diff-index".

Definition commitIdentityName : string := "user.name=courier".
Definition commitIdentityEmail : string := "user.email=courier@invalid".

(** The message travels in a file of the tree's own [.git]. *)
Definition CommitIndexed (worktreeDir message : string) : tree string :=
  if String.eqb (TrimSpace message) "" then tree_err "git commit: message is required" else
  let dir := PathJoin worktreeDir ".git" in
  file ← call (MessageFile dir message);
  match file with
  | None => tree_err "git commit: message file unavailable"
  | Some suffix =>
      let path := PathJoin dir ("COMMIT-MSG-" ++ suffix) in
      _ ←? Hardened worktreeDir ["-c"; commitIdentityName; "-c"; commitIdentityEmail; "commit"; "--no-verify"; "--file"; path] ;
      HeadOID worktreeDir
  end.

Inductive merge_error := MergeConflict (paths : list string) | MergeFailed (msg : string).

Definition MergeCommit (worktreeDir commit : string) : prog treeE (result merge_error unit) :=
  if negb (validOID commit) then Ret (Err (MergeFailed "git merge: invalid object ID")) else
  merged ← Hardened worktreeDir ["-c"; commitIdentityName; "-c"; commitIdentityEmail; "merge"; "--no-edit"; "--no-verify"; commit];
  match merged with
  | Ok _ => Ret (Ok tt)
  | Err _ =>
      listed ← Hardened worktreeDir ["diff"; "--name-only"; "--diff-filter=U"];
      match listed with
      | Err _ => Ret (Err (MergeFailed "git merge"))
      | Ok out =>
          match List.filter (fun r => negb (String.eqb r "")) (TrimSpace <$> Split out newline) with
          | [] => Ret (Err (MergeFailed "git merge: merge failed and left no classifiable state"))
          | paths => Ret (Err (MergeConflict paths))
          end
      end
  end.

Definition AbortMerge (worktreeDir : string) : tree unit :=
  aborted ← Hardened worktreeDir ["merge"; "--abort"];
  match aborted with
  | Ok _ => Ret (Ok tt)
  | Err _ =>
      pending ← Hardened worktreeDir ["rev-parse"; "--verify"; "--quiet"; "MERGE_HEAD"];
      match pending with Err _ => Ret (Ok tt) | Ok _ => tree_err "git merge abort" end
  end.

Definition MergeInProgress (worktreeDir : string) : tree bool :=
  a ← hardened worktreeDir [] ["rev-parse"; "--verify"; "--quiet"; "MERGE_HEAD"];
  exit_verdict a "git merge in progress check".

(** ** Blobs of a revision *)

Definition maxBlobAtBytes : Z := 2 ^ 20.

(** [Ok None] is a path that is not there. *)
Definition BlobAt (directory revision path : string) : tree (option string) :=
  if String.eqb (TrimSpace revision) "" || String.eqb (TrimSpace path) "" then tree_err "git blob read: revision and path are required" else
  let spec := revision ++ ":" ++ path in
  sized ← hardened directory [] ["cat-file"; "-s"; spec];
  match sized with
  | ExitCode code => if code =? 128 then Ret (Ok None) else tree_err "git command failed"
  | NoVerdict => tree_err "git command failed"
  | Output out =>
      let '(size, ok) := Atoi (TrimSpace out) in
      if negb ok then tree_err "git blob read: size is not a number" else
      if maxBlobAtBytes <? size then tree_err "git blob read: over the read bound" else
      data ←? Hardened directory ["cat-file"; "blob"; spec] ; Ret (Ok (Some data))
  end.

(** [strings.Cut] at the first tab. *)
Definition cut_tab (entry : string) : option (string * string) :=
  match Split entry (chr 9) with meta :: p :: rest => Some (meta, Join (p :: rest) (str1 9)) | _ => None end.

Definition absent_blob : Blob := {| bl_Data := ""; bl_Regular := false; bl_Present := false |}.

Fixpoint regular_entry (directory revision path : string) (entries : list string) : tree Blob :=
  match entries with
  | [] => Ret (Ok absent_blob)
  | entry :: rest =>
      match (if String.eqb entry "" then None else cut_tab entry) with
      | Some (meta, entryPath) =>
          if negb (String.eqb entryPath path) then regular_entry directory revision path rest else
          match Fields meta with
          | mode :: _ :: _ :: _ =>
              if negb (String.eqb mode "100644") && negb (String.eqb mode "100755")
              then Ret (Ok {| bl_Data := ""; bl_Regular := false; bl_Present := true |}) else
              blob ←? BlobAt directory revision path ;
              Ret (Ok (match blob with Some d => {| bl_Data := d; bl_Regular := true; bl_Present := true |} | None => absent_blob end))
          | _ => tree_err "git blob read: unparseable ls-tree entry"
          end
      | None => regular_entry directory revision path rest
      end
  end.

Definition BlobAtRegular (directory revision path : string) : tree Blob :=
  if String.eqb (TrimSpace revision) "" || String.eqb (TrimSpace path) "" then tree_err "git blob read: revision and path are required" else
  listed ← hardened directory [] ["ls-tree"; "-z"; revision; "--"; path];
  match listed with
  | ExitCode code => if code =? 128 then Ret (Ok absent_blob) else tree_err "git command failed"
  | NoVerdict => tree_err "git command failed"
  | Output out => regular_entry directory revision path (Split out (chr 0))
  end.

(** ** The workspace *)

Definition WorkStateDirty : string := "dirty".
Definition WorkStateCommitted : string := "committed".
Definition WorkStateNone : string := "none".

(** [run]: the output, or an error. *)
Definition run_git (directory : string) (args : list string) : tree string :=
  a ← call (RunGit directory args);
  match a with Output s => Ret (Ok s) | _ => tree_err "git command failed" end.

Definition WorkState (directory startCommit : string) : tree string :=
  if String.eqb (TrimSpace directory) "" then tree_err "git work state: workspace directory is required" else
  let startCommit := TrimSpace startCommit in
  if String.eqb startCommit "" then tree_err "git work state: starting commit is required" else
  dirty ←? run_git directory ["status"; "--porcelain=v1"; "--untracked-files=no"; "--"; "."] ;
  if negb (String.eqb (TrimSpace dirty) "") then Ret (Ok WorkStateDirty) else
  counted ←? run_git directory ["rev-list"; "--count"; startCommit ++ "..HEAD"] ;
  let '(count, ok) := Atoi (TrimSpace counted) in
  if negb ok then tree_err "git work state: parse commit count" else
  if 0 <? count then Ret (Ok WorkStateCommitted) else
  untracked ←? run_git directory ["ls-files"; "--others"; "--exclude-standard"; "--"; "."] ;
  Ret (Ok (if String.eqb untracked "" then WorkStateNone else WorkStateDirty)).

Definition CurrentBranch (directory : string) : tree string :=
  if String.eqb (TrimSpace directory) "" then tree_err "git current branch: workspace directory is required" else
  a ← call (RunGit directory ["symbolic-ref"; "--quiet"; "--short"; "HEAD"]);
  match a with
  | Output out => Ret (Ok (TrimSpace out))
  | ExitCode code => if code =? 1 then Ret (Ok "") else tree_err "git command failed"
  | NoVerdict => tree_err "git command failed"
  end.

(** ** Commit messages *)

Definition CommitMessage (summary objective outcome : string) : option string :=
  let summary := TrimSpace summary in
  let objective := TrimSpace objective in
  let outcome := TrimSpace outcome in
  let summary := if String.eqb summary "" then objective else summary in
  if String.eqb summary "" then None else
  let body := ((if negb (String.eqb objective "") && negb (String.eqb objective summary) then [("Objective: " ++ objective)%string] else []) ++
               (if negb (String.eqb outcome "") then [("Outcome: " ++ outcome)%string] else []))%list in
  Some (match body with [] => summary | _ => summary ++ nl ++ nl ++ Join body nl end).
