(* ===== verification/Integrator.v ===== *)
(** * The integration tree (internal/harness/artifact.go, integrator.go)

    Trusted control keeps a private git tree: seeded from the broker's snapshot,
    it takes the bundle a delegate returned through a fixed pipeline of checks
    and commits what passed.  The bundle is untrusted end to end; the bounds it
    must keep are the pack scanner's (Pack.v).

    [Integrator] is the tree's directory and path policy, which never change,
    and the base tip, which the operations return. *)

From S2P Require Import Prelude Effects GoStrings GoPath Sha256 Zlib Pack Devenv GitTransport HarnessErrors Session HarnessLedger HarnessWorld GitTree.
Local Open Scope string_scope.
Local Open Scope Z_scope.

Abbreviation hgit A := (prog treeE (result herror A)).

Definition fail {A} (msg : string) : hgit A := Ret (Err (new_error msg)).

(** A git step that fails with the caller's own words in front. *)
Definition wrapping {A} (msg : string) (p : tree A) : hgit A :=
  r ← p; match r with Ok a => Ret (Ok a) | Err m => fail (msg ++ ": " ++ m) end.

(** ** Bounds and categories (artifact.go) *)

Definition MaxArtifactBundleBytes : Z := 64 * 2 ^ 20.
Definition MaxArtifactUnpackedBytes : Z := 64 * 2 ^ 20.
Definition MaxArtifactObjects : Z := 100000.
Definition MaxArtifactBlobBytes : Z := 16 * 2 ^ 20.
Definition ResultRefPrefix : string := "refs/courier/briefs/".

Definition rejectMalformed : string := "bundle is malformed or not self-contained (prerequisite-bearing bundles are not accepted)".
Definition rejectBundleSize : string := "bundle exceeds the size bound and is rejected whole".
Definition rejectVerify : string := "bundle verification failed".
Definition rejectRefSet : string := "bundle ref set does not match the expected result ref".
Definition rejectObjects : string := "bundle object-count bound exceeded and the bundle is rejected whole".
Definition rejectUnpacked : string := "bundle unpacked-size bound exceeded and the bundle is rejected whole".
Definition rejectBlob : string := "bundle blob-size bound exceeded and the bundle is rejected whole".
Definition rejectAncestry : string := "artifact head does not descend from the dispatched snapshot tip".
Definition rejectPathScope : string := "artifact changes paths outside the operator-resolved scope".

Definition rejected (category : string) : herror := HErr (NArtifactRejected category) ("harness: artifact rejected: " ++ category) [].

Definition artifactObjectLimits : ObjectLimits :=
  {| MaxObjects := MaxArtifactObjects; MaxTotalBytes := MaxArtifactUnpackedBytes; MaxObjectBytes := MaxArtifactBlobBytes |}.

Definition rejectCategoryFor (e : scan_error) : string :=
  match e with
  | LimitError limit =>
      if String.eqb limit LimitObjects then rejectObjects else
      if String.eqb limit LimitBytes then rejectUnpacked else
      if String.eqb limit LimitObjectBytes then rejectBlob else rejectMalformed
  | ScanError _ => rejectMalformed
  end.

(** A step whose failure is a rejection. *)
Definition rejecting {Er A} (category : Er -> string) (p : prog treeE (result Er A)) : hgit A :=
  r ← p; match r with Ok a => Ret (Ok a) | Err e => Ret (Err (rejected (category e))) end.

(** ** The path policy *)

Definition escapes (clean : string) : bool := String.eqb clean ".." || HasPrefix clean "../" || rooted clean.

(** [None] is an invalid entry; the empty scope is the whole repository. *)
Fixpoint NewPathScope (entries : list string) : option (list string) :=
  match entries with
  | [] => Some []
  | entry :: rest =>
      let clean := Clean (TrimSpace entry) in
      if String.eqb clean "" || String.eqb clean "." then NewPathScope rest else
      if escapes clean || negb (no_byte (chr 0) clean) then None else
      scope ← NewPathScope rest; Some (clean :: scope)
  end.

Definition Contains (scope : list string) (path : string) : bool :=
  match scope with
  | [] => true
  | _ =>
      let clean := Clean path in
      if escapes clean then false else
      existsb (fun entry => String.eqb clean entry || HasPrefix clean (entry ++ "/")) scope
  end.

(** ** Result refs *)

(** [strings.Contains] of a two-byte text. *)
Fixpoint contains2 (a b : ascii) (s : string) : bool :=
  match s with
  | String c (String d _ as r) => (Ascii.eqb c a && Ascii.eqb d b) || contains2 a b r
  | _ => false
  end.

Definition resultRefFor (briefID : string) : result herror string :=
  if negb (isBriefID briefID) then Err (new_error "harness: invalid brief ID") else
  if HasPrefix briefID "." || HasPrefix briefID "-" || HasSuffix briefID "." || HasSuffix briefID ".lock" ||
     HasSuffix briefID "-" || contains2 "." "." briefID || contains2 "@" "{" briefID
  then Err (new_error "harness: brief ID is not a valid result ref component")
  else Ok (ResultRefPrefix ++ briefID).

(** ** The tree *)

Record Integrator := { it_Dir : string; it_scope : list string; it_baseTip : string }.

Definition NewIntegrator (dir : string) (scope : list string) : Integrator := {| it_Dir := dir; it_scope := scope; it_baseTip := "" |}.

Definition set_baseTip (t : Integrator) (tip : string) : Integrator := {| it_Dir := it_Dir t; it_scope := it_scope t; it_baseTip := tip |}.

Definition integrationBranch : string := "refs/heads/integration".

Definition scratchDir (t : Integrator) : hgit string :=
  made ← call (TempDir (Dir (it_Dir t)) "harness-artifact-");
  match made with
  | None => fail "harness: artifact staging unavailable"
  | Some suffix => Ret (Ok (PathJoin (Dir (it_Dir t)) ("harness-artifact-" ++ suffix)))
  end.

(** A bundle staged in a directory of its own. *)
Definition stage (t : Integrator) (name bundle failure : string) : hgit (string * string) :=
  workDir ←? scratchDir t ;
  let path := PathJoin workDir name in
  written ← call (WriteFile path bundle);
  if written : bool then Ret (Ok (workDir, path)) else fail failure.

(** ** Seeding *)

(** The names a bundle advertises, each once. *)
Definition advertised (heads : list BundleRef) : gset string := list_to_set (br_Name <$> heads).

(** Whether the base ref is there; [None] is any other set of refs. *)
Definition snapshot_refs (heads : list BundleRef) : option bool :=
  let names := advertised heads in
  let hasWork := bool_decide (snapshotWorkRef ∈ names) in
  let hasBase := bool_decide (snapshotBaseRef ∈ names) in
  if hasWork && hasBase && (size names =? 2)%nat then Some true else
  if hasWork && (size names =? 1)%nat then Some false else None.

(** From the staged bundle on: the tips. *)
Definition seed_tips (t : Integrator) (path : string) : hgit (string * string) :=
  heads ←? wrapping "harness: seed snapshot is malformed" (BundleHeads path) ;
  match snapshot_refs heads with
  | None => fail "harness: seed snapshot does not carry the expected snapshot refs"
  | Some hasBase =>
      _ ←? wrapping "harness: seed snapshot import failed" (FetchBundleRef (it_Dir t) path snapshotWorkRef snapshotWorkRef) ;
      _ ←? (if hasBase then wrapping "harness: seed snapshot base import failed" (FetchBundleRef (it_Dir t) path snapshotBaseRef snapshotBaseRef)
            else Ret (Ok tt)) ;
      workTip ←? wrapping "harness: seeded work tip is unavailable" (ResolveCommit (it_Dir t) snapshotWorkRef) ;
      baseTip ←? (if hasBase then wrapping "harness: seeded base tip is unavailable" (ResolveCommit (it_Dir t) snapshotBaseRef)
                  else Ret (Ok (it_baseTip t))) ;
      if String.eqb baseTip "" then fail "harness: seed snapshot carries no base tip" else Ret (Ok (workTip, baseTip))
  end.

(** The integration branch at the work tip, checked out. *)
Definition select_branch (t : Integrator) (workTip : string) : hgit unit :=
  _ ←? wrapping "harness: integration branch set failed" (in_tree (UpdateRef (it_Dir t) integrationBranch workTip)) ;
  _ ←? wrapping "harness: integration branch select failed" (Hardened (it_Dir t) ["symbolic-ref"; "HEAD"; integrationBranch]) ;
  _ ←? wrapping "harness: integration tree materialize failed" (Hardened (it_Dir t) ["reset"; "--quiet"; "--hard"; integrationBranch]) ;
  Ret (Ok tt).

Definition Seed (t : Integrator) (bundle : string) : prog treeE (Integrator * result herror string) :=
  r ← (if String.eqb bundle "" then fail "harness: seed snapshot is empty" else
       if MaxArtifactBundleBytes <? slen bundle then fail "harness: seed snapshot exceeds the bundle bound" else
       made ← call (MkdirAll (it_Dir t));
       if negb made then fail "harness: integration tree unavailable" else
       _ ←? wrapping "harness: integration tree init failed" (Hardened "" ["init"; "--quiet"; "--initial-branch"; "integration"; it_Dir t]) ;
       '(_, path) ←? stage t "snapshot.bundle" bundle "harness: stage snapshot" ;
       '(workTip, baseTip) ←? seed_tips t path ;
       _ ←? select_branch t workTip ;
       Ret (Ok (workTip, baseTip)));
  Ret (match r with Ok (workTip, baseTip) => (set_baseTip t baseTip, Ok workTip) | Err e => (t, Err e) end).

Definition Head (t : Integrator) : tree string := HeadOID (it_Dir t).

(** ** Snapshots *)

Definition blobRead (t : Integrator) (revision path : string) : tree Blob := BlobAtRegular (it_Dir t) revision path.

Definition tree_ContractState (t : Integrator) (tip : string) : prog treeE string :=
  if String.eqb (it_baseTip t) "" then Ret StateAbsent else
  state ← Classify (blobRead t) (it_baseTip t) tip;
  Ret (match state with Ok s => s | Err _ => StateModified end).

(** The bundle of the work ref, bounded, with the texts of its caller. *)
Definition bundle_of_head (t : Integrator) (path head rendering missing over reading : string) : hgit string :=
  _ ←? wrapping rendering (in_tree (BundleCreate (it_Dir t) path [snapshotWorkRef])) ;
  size ← call (InGit (BundleSize path));
  match size with
  | None => fail missing
  | Some size =>
      if MaxArtifactBundleBytes <? size then fail over else
      data ← call (ReadBytes path);
      match data with None => fail reading | Some d => Ret (Ok d) end
  end.

Definition point_work_ref (t : Integrator) (head : string) : hgit unit :=
  r ← in_tree (UpdateRef (it_Dir t) snapshotWorkRef head); match r with Ok _ => Ret (Ok tt) | Err m => fail m end.

Definition Render (t : Integrator) : hgit Snapshot :=
  head ←? wrapping "harness: integration head unavailable" (Head t) ;
  _ ←? point_work_ref t head ;
  workDir ←? scratchDir t ;
  data ←? bundle_of_head t (PathJoin workDir "snapshot.bundle") head "harness: snapshot render failed" "harness: snapshot render produced no bundle"
            "harness: repository snapshot exceeds the bundle bound and cannot be dispatched" "harness: snapshot read failed" ;
  state ← tree_ContractState t head;
  Ret (Ok {| sn_Data := data; sn_Tip := head; sn_BaseTip := it_baseTip t; ContractState := state |}).

Definition PublishBundle (t : Integrator) : hgit (string * string) :=
  head ←? wrapping "harness: integration head unavailable" (Head t) ;
  workDir ←? scratchDir t ;
  _ ←? point_work_ref t head ;
  data ←? bundle_of_head t (PathJoin workDir "publish.bundle") head "harness: publication bundle render failed"
            "harness: publication bundle render produced no bundle" "harness: publication bundle exceeds the broker import bound"
            "harness: publication bundle read failed" ;
  Ret (Ok (head, data)).

(** ** Re-synchronization *)

Definition RefreshBase (t : Integrator) (bundle : string) : prog treeE (Integrator * result herror string) :=
  r ← ('(_, path) ←? stage t "snapshot.bundle" bundle "harness: stage snapshot" ;
       heads ← BundleHeads path;
       match heads with
       | Err _ => fail "harness: refresh snapshot is malformed"
       | Ok heads =>
           if negb (existsb (fun h => String.eqb (br_Name h) snapshotBaseRef) heads) then fail "harness: refresh snapshot carries no base ref" else
           _ ←? wrapping "harness: base refresh import failed" (FetchBundleRef (it_Dir t) path snapshotBaseRef snapshotBaseRef) ;
           wrapping "harness: refreshed base tip is unavailable" (ResolveCommit (it_Dir t) snapshotBaseRef)
       end);
  Ret (match r with Ok baseTip => (set_baseTip t baseTip, Ok baseTip) | Err e => (t, Err e) end).

Definition Absorb (t : Integrator) (bundle : string) : hgit (string * string) :=
  '(_, path) ←? stage t "world.bundle" bundle "harness: stage world snapshot" ;
  _ ←? wrapping "harness: world snapshot import failed" (FetchBundleRef (it_Dir t) path snapshotWorkRef snapshotWorkRef) ;
  _ ←? wrapping "harness: world snapshot base import failed" (FetchBundleRef (it_Dir t) path snapshotBaseRef snapshotBaseRef) ;
  workTip ←? wrapping "harness: world snapshot work tip is unavailable" (ResolveCommit (it_Dir t) snapshotWorkRef) ;
  baseTip ←? wrapping "harness: world snapshot base tip is unavailable" (ResolveCommit (it_Dir t) snapshotBaseRef) ;
  Ret (Ok (workTip, baseTip)).

Definition MergeBase (t : Integrator) (baseTip : string) : prog treeE (result merge_error unit) := MergeCommit (it_Dir t) baseTip.

Definition tree_AbortMerge (t : Integrator) : tree unit := AbortMerge (it_Dir t).

(** ** Integration *)

Section Integration.
Context (inflate : list Z -> option zstream).

Definition over_inventory (inventory : ObjectInventory) : option string :=
  if MaxArtifactObjects <? iv_Count inventory then Some rejectObjects else
  if MaxArtifactUnpackedBytes <? iv_TotalBytes inventory then Some rejectUnpacked else
  if MaxArtifactBlobBytes <? iv_MaxBlobBytes inventory then Some rejectBlob else None.

(** The budget: the pack scan, the unpacking in quarantine, the inventory. *)
Definition within_budget (t : Integrator) (workDir path : string) : hgit unit :=
  let objectsDir := PathJoin workDir "objects" in
  made ← call (MkdirAll objectsDir);
  if negb made then fail "harness: quarantine unavailable" else
  _ ←? rejecting rejectCategoryFor (Unbundle inflate objectsDir path artifactObjectLimits) ;
  inventory ←? rejecting rejectCategoryFor (InventoryObjects (it_Dir t) objectsDir artifactObjectLimits) ;
  match over_inventory inventory with Some category => Ret (Err (rejected category)) | None => Ret (Ok tt) end.

(** The refless import of the one expected ref. *)
Definition import_head (t : Integrator) (path ref dispatchedTip : string) : hgit string :=
  heads ←? rejecting (fun _ => rejectMalformed) (BundleHeads path) ;
  if negb (match heads with [h] => String.eqb (br_Name h) ref | _ => false end) then Ret (Err (rejected rejectRefSet)) else
  _ ←? rejecting (fun _ => rejectMalformed) (FetchBundleIntoFetchHead (it_Dir t) path ref) ;
  head ←? rejecting (fun _ => rejectMalformed) (ResolveCommit (it_Dir t) "FETCH_HEAD^{commit}") ;
  ancestor ←? rejecting (fun _ => rejectMalformed) (IsAncestor (it_Dir t) dispatchedTip head) ;
  if ancestor : bool then Ret (Ok head) else Ret (Err (rejected rejectAncestry)).

Definition validateAndImportArtifact (t : Integrator) (briefID dispatchedTip bundle : string) : hgit string :=
  match resultRefFor briefID with
  | Err e => Ret (Err e)
  | Ok ref =>
      if String.eqb bundle "" then Ret (Err (rejected rejectMalformed)) else
      if MaxArtifactBundleBytes <? slen bundle then Ret (Err (rejected rejectBundleSize)) else
      '(workDir, path) ←? stage t "artifact.bundle" bundle "harness: stage artifact" ;
      _ ←? rejecting (fun _ => rejectVerify) (VerifyBundle (it_Dir t) path) ;
      _ ←? within_budget t workDir path ;
      import_head t path ref dispatchedTip
  end.

Definition maxCommitMessageBytes : nat := 2048.

(** The runes kept: newline, tab, and what is not a control character; an
    invalid byte becomes U+FFFD. *)
Fixpoint keep_runes (skip : nat) (s : string) : string :=
  match s with
  | "" => ""
  | String c r =>
      match skip with
      | S k => String c (keep_runes k r)
      | O =>
          let '(w, ok) := decode_rune s in
          if negb ok then replacement ++ keep_runes 0 r else
          if Ascii.eqb c (chr 10) || Ascii.eqb c (chr 9) || (negb (byte_of c <? 0x20) && negb (byte_of c =? 0x7f))
          then String c (keep_runes (w - 1) r)
          else keep_runes 0 r
      end
  end.

Definition sanitizeMessage (value : string) : string :=
  let value := TrimSpace value in
  let value := stake maxCommitMessageBytes value in
  TrimSpace (keep_runes 0 value).

Definition integrationMessage (req : IntegrationRequest) : result herror string :=
  let summary := sanitizeMessage (ir_Summary req) in
  let objective := sanitizeMessage (Objective (ir_Brief req)) in
  let summary := if String.eqb summary "" then objective else summary in
  let summary := if String.eqb summary "" then "completed brief " ++ ir_BriefID req else summary in
  match CommitMessage summary objective "" with
  | Some message => Ok message
  | None => Err (new_error "harness: integration message: commit brief: objective is required")
  end.

(** The validated head over the worktree, and its one commit. *)
Definition commit_head (t : Integrator) (req : IntegrationRequest) (head : string) : hgit Integration :=
  _ ←? wrapping "harness: integration materialize failed" (ReadTreeInto (it_Dir t) head) ;
  quiet ←? wrapping "harness: integration diff failed" (DiffIndexQuiet (it_Dir t)) ;
  if quiet : bool then Ret (Ok {| in_Commit := ""; Changed := false |}) else
  match integrationMessage req with
  | Err e => Ret (Err e)
  | Ok message =>
      commit ←? wrapping "harness: integration commit failed" (CommitIndexed (it_Dir t) message) ;
      Ret (Ok {| in_Commit := commit; Changed := true |})
  end.

(** Every check of the bundle: the head it may integrate. *)
Definition examine (t : Integrator) (req : IntegrationRequest) : hgit string :=
  if negb (validOID (DispatchedTip req)) then fail "harness: dispatched snapshot tip is not an object ID" else
  inProgress ←? wrapping "harness: integration state check failed" (MergeInProgress (it_Dir t)) ;
  if inProgress : bool then fail "harness: a base re-sync merge is still in progress in the integration tree" else
  head ←? validateAndImportArtifact t (ir_BriefID req) (DispatchedTip req) (Bundle req) ;
  paths ←? rejecting (fun _ => rejectMalformed) (ChangedPaths (it_Dir t) (DispatchedTip req) head) ;
  if existsb (fun path => negb (Contains (it_scope t) path)) paths then Ret (Err (rejected rejectPathScope)) else Ret (Ok head).

Definition Integrate (t : Integrator) (req : IntegrationRequest) : hgit Integration :=
  head ←? examine t req ; commit_head t req head.
End Integration.

(** ** What reaches git *)

(** The arguments of a command. *)
Definition argv (ev : event treeE) : list string :=
  match ev_op ev with
  | InGit (Git _ _ args) => args
  | InGit (CheckRefFormat args) => args
  | RunGit _ args => args
  | GitLines _ _ args => args
  | _ => []
  end.

(** The words trusted control writes itself. *)
Definition words : list string :=
  ["bundle"; "verify"; "--quiet"; "list-heads"; "unbundle"; "init"; "--bare"; "rev-parse"; "--verify"; "MERGE_HEAD"; "HEAD";
   "FETCH_HEAD^{commit}"; "fetch"; "--no-tags"; "--"; "merge-base"; "--is-ancestor"; "diff"; "--no-renames"; "--name-only"; "-z";
   "read-tree"; "--reset"; "-u"; "diff-index"; "-c"; commitIdentityName; commitIdentityEmail; "commit"; "--no-verify"; "--file";
   "cat-file"; "--batch-all-objects"; "--batch-check=%(objectname) %(objecttype) %(objectsize)"].

(** Forty or sixty-four hexadecimal digits. *)
Definition is_oid (a : string) : Prop := lower_oid (ToLower a).

(** An argument of trusted control: one of its words, an absolute path, an
    object ID, or the ref of the brief. *)
Definition trusted_argument (briefID a : string) : Prop :=
  a ∈ words \/ rooted a = true \/ is_oid a \/ resultRefFor briefID = Ok a.

Definition trusted_command (briefID : string) (ev : event treeE) : Prop := Forall (trusted_argument briefID) (argv ev).

(** The git command among the arguments, and those that change the worktree, the
    index or a ref. *)
Definition subcommand (args : list string) : string :=
  match args with
  | a :: rest => if String.eqb a "-c" then nth 3 rest "" else a
  | [] => ""
  end.

Definition changing (ev : event treeE) : bool :=
  existsb (String.eqb (subcommand (argv ev))) ["read-tree"; "commit"; "merge"; "reset"; "update-ref"; "symbolic-ref"; "push"; "branch"; "checkout"].

Lemma ToLower_idem s : ToLower (ToLower s) = ToLower s.
Proof. induction s as [|c s IH]; [done|]. cbn [ToLower]. by rewrite ascii_lower_idem, IH. Qed.

Section Arguments.
Context (inflate : list Z -> option zstream) (briefID : string) (examining : bool).

(** What holds of every command: it is trusted, and while the bundle is
    examined it changes nothing. *)
Definition command_ok (ev : event treeE) : Prop := trusted_command briefID ev /\ (examining = true -> changing ev = false).
Abbreviation args_ok args := (command_ok (Ev (InGit (Git "" [] args)) NoVerdict)).
Abbreviation trusts p post := (guarded command_ok p (on_ok post)).
Abbreviation any := (fun _ => True).

Lemma trusts_err {Er A} (e : Er) (post : A -> Prop) : trusts (Ret (Err e)) post.
Proof. by apply guarded_ret. Qed.

Lemma trusts_ok {Er A} (a : A) (post : A -> Prop) : post a -> trusts (Ret (Ok a) : prog treeE (result Er A)) post.
Proof. intros H. by apply guarded_ret. Qed.

(** A request without arguments. *)
Lemma trusts_quiet {X A} (e : treeE X) (k : X -> prog treeE A) post :
  (forall x, argv (Ev e x) = []) -> (forall x, guarded command_ok (k x) post) -> guarded command_ok (call e ≫= k) post.
Proof. intros He Hk. apply guarded_call; [|exact Hk]. intros x. unfold command_ok, trusted_command, changing. rewrite He. by split; [constructor|]. Qed.

Lemma trusts_hardened {A} dir env args (k : git_answer -> prog treeE A) post :
  args_ok args -> (forall x, guarded command_ok (k x) post) -> guarded command_ok (hardened dir env args ≫= k) post.
Proof. intros Ha Hk. apply guarded_call; [|exact Hk]. intros x. exact Ha. Qed.

Lemma trusts_Hardened dir args : args_ok args -> trusts (Hardened dir args) any.
Proof. intros Ha. apply trusts_hardened; [done|]. intros []; [by apply trusts_ok|apply trusts_err..]. Qed.

Lemma trusts_wrapping {A} msg (p : tree A) post : trusts p post -> trusts (wrapping msg p) post.
Proof. intros H. eapply guarded_bind; [exact H|]. intros [a|e]; [intros Ha; by apply trusts_ok|intros _; apply trusts_err]. Qed.

Lemma trusts_rejecting {Er A} (c : Er -> string) (p : prog treeE (result Er A)) post : trusts p post -> trusts (rejecting c p) post.
Proof. intros H. eapply guarded_bind; [exact H|]. intros [a|e]; [intros Ha; by apply trusts_ok|intros _; apply trusts_err]. Qed.

Lemma trusts_scan_step {A} (p : tree A) post : trusts p post -> trusts (scan_step p) post.
Proof. intros H. eapply guarded_bind; [exact H|]. intros [a|e]; [intros Ha; by apply trusts_ok|intros _; apply trusts_err]. Qed.

Lemma trusts_path p : trusts (localBundlePath p) (fun path => rooted path = true).
Proof.
  unfold localBundlePath. destruct (_ || _); [apply trusts_err|]. apply trusts_quiet; [done|]. intros [els|]; [|apply trusts_err].
  apply trusts_quiet; [done|]. intros []; [|apply trusts_err]. apply trusts_ok, rooted_PathJoin, rooted_slash.
Qed.

Lemma trusts_verdict a f : trusts (exit_verdict a f) any.
Proof. destruct a as [|code|]; cbn [exit_verdict]; [by apply trusts_ok|destruct (code =? 1); [by apply trusts_ok|apply trusts_err]|apply trusts_err]. Qed.

Lemma trusts_printed out f : trusts (printed_oid out f) is_oid.
Proof.
  unfold printed_oid. destruct (validOID (TrimSpace out)) eqn:Hv; cbn [negb]; [|apply trusts_err]. apply trusts_ok.
  unfold is_oid. rewrite ToLower_idem. by apply validOID_lower.
Qed.

(** The arguments of one command: words first. *)
Ltac argv_ok := split; [unfold trusted_command, argv; cbn [ev_op]|try done; congruence]; repeat (apply Forall_cons; split); try exact (List.Forall_nil _); try (left; apply list_elem_of_In; simpl; tauto);
  try (right; left; done); try (right; right; left; done); try (right; right; right; done).

Lemma trusts_verify repo p : trusts (VerifyBundle repo p) any.
Proof.
  eapply guarded_bind_err; [apply trusts_path|]. intros path Hp. eapply guarded_bind_err; [apply trusts_Hardened; argv_ok|]. intros _ _. by apply trusts_ok.
Qed.

Lemma trusts_heads p : trusts (BundleHeads p) any.
Proof.
  eapply guarded_bind_err; [apply trusts_path|]. intros path Hp. eapply guarded_bind_err; [apply trusts_Hardened; argv_ok|].
  intros out _. destruct (parse_heads _) as [[|h heads]|]; [apply trusts_err|by apply trusts_ok|apply trusts_err].
Qed.

Lemma trusts_unbundle objectDir p limits : rooted objectDir = true -> trusts (Unbundle inflate objectDir p limits) any.
Proof.
  intros Ho. unfold Unbundle. destruct (validObjectLimits limits); [|apply trusts_err].
  eapply guarded_bind_err; [apply trusts_scan_step, trusts_path|]. intros path Hp. apply trusts_quiet; [done|]. intros [file ctxErr].
  destruct (scanBundlePack _ _ _ _).2; [|apply trusts_err]. apply trusts_quiet; [done|]. intros [suffix|]; [|apply trusts_err].
  assert (Hs : rooted (PathJoin (Dir objectDir) ("courier-unbundle-" ++ suffix)) = true) by (by apply rooted_PathJoin, rooted_Dir).
  eapply guarded_bind_err; [apply trusts_scan_step, trusts_Hardened; argv_ok|]. intros _ _.
  apply trusts_hardened; [argv_ok|]. intros []; [by apply trusts_ok|apply trusts_err..].
Qed.

Lemma trusts_inventory repo objectDir limits : trusts (InventoryObjects repo objectDir limits) any.
Proof.
  unfold InventoryObjects. destruct (validObjectLimits limits); [|apply trusts_err].
  apply guarded_call; [intros x; argv_ok|]. intros l.
  destruct (li_end l); try apply trusts_err; (destruct (inventory_lines _ _ _) as [inv|]; [|apply trusts_err]); try apply trusts_err.
  destruct (_ =? _); [apply trusts_err|by apply trusts_ok].
Qed.

Lemma trusts_scratch t : rooted (it_Dir t) = true -> trusts (scratchDir t) (fun d => rooted d = true).
Proof.
  intros Ht. apply trusts_quiet; [done|]. intros [suffix|]; [|apply trusts_err]. by apply trusts_ok, rooted_PathJoin, rooted_Dir.
Qed.

Lemma trusts_stage t name bundle f : rooted (it_Dir t) = true -> trusts (stage t name bundle f) (fun d => rooted d.1 = true).
Proof.
  intros Ht. eapply guarded_bind_err; [by apply trusts_scratch|]. intros d Hd. apply trusts_quiet; [done|].
  intros []; [by apply trusts_ok|apply trusts_err].
Qed.

Lemma trusts_budget t workDir path : rooted workDir = true -> trusts (within_budget inflate t workDir path) any.
Proof.
  intros Hw. unfold within_budget. apply trusts_quiet; [done|]. intros []; cbn [negb]; [|apply trusts_err].
  eapply guarded_bind_err; [by apply trusts_rejecting, trusts_unbundle, rooted_PathJoin|]. intros _ _.
  eapply guarded_bind_err; [apply trusts_rejecting, trusts_inventory|]. intros inv _. destruct (over_inventory inv); [apply trusts_err|by apply trusts_ok].
Qed.

Lemma trusts_import t path ref tip : resultRefFor briefID = Ok ref -> trusts (import_head t path ref tip) is_oid.
Proof.
  intros Hr. eapply guarded_bind_err; [apply trusts_rejecting, trusts_heads|]. intros heads _. destruct (negb _); [apply trusts_err|].
  eapply (guarded_bind_err _ _ _ any).
  { apply trusts_rejecting. eapply guarded_bind_err; [apply trusts_path|]. intros p Hp. destruct (_ || _); [apply trusts_err|].
    eapply guarded_bind_err; [apply trusts_Hardened; argv_ok|]. intros _ _. by apply trusts_ok. }
  intros _ _. eapply guarded_bind_err.
  { apply trusts_rejecting. unfold ResolveCommit. cbn [String.eqb HasPrefix String.prefix orb].
    eapply guarded_bind_err; [apply trusts_Hardened; argv_ok|]. intros out _. apply trusts_printed. }
  intros head Hh. eapply guarded_bind_err.
  { apply trusts_rejecting. unfold IsAncestor. destruct (validOID tip) eqn:Ht; cbn [negb orb]; [|apply trusts_err].
    destruct (negb (validOID head)); [apply trusts_err|]. apply validOID_lower in Ht.
    apply trusts_hardened; [argv_ok|]. intros a. apply trusts_verdict. }
  intros [] _; [by apply trusts_ok|apply trusts_err].
Qed.

Lemma trusts_validate t tip bundle : rooted (it_Dir t) = true -> trusts (validateAndImportArtifact inflate t briefID tip bundle) is_oid.
Proof.
  intros Ht. unfold validateAndImportArtifact. destruct (resultRefFor briefID) as [ref|] eqn:Hr; [|apply trusts_err].
  destruct (String.eqb bundle ""); [apply trusts_err|]. destruct (_ <? _); [apply trusts_err|].
  eapply guarded_bind_err; [by apply trusts_stage|]. intros [workDir path] Hd.
  eapply guarded_bind_err; [apply trusts_rejecting, trusts_verify|]. intros _ _.
  eapply guarded_bind_err; [by apply trusts_budget|]. intros _ _. by apply trusts_import.
Qed.

Lemma trusts_commit t req head : examining = false -> rooted (it_Dir t) = true -> is_oid head -> trusts (commit_head t req head) any.
Proof.
  intros Hx Ht Hh. eapply (guarded_bind_err _ _ _ any).
  { apply trusts_wrapping. eapply guarded_bind_err; [apply trusts_Hardened; argv_ok|]. intros _ _. by apply trusts_ok. }
  intros _ _. eapply guarded_bind_err; [apply trusts_wrapping, trusts_hardened; [argv_ok|intros a; apply trusts_verdict]|].
  intros [] _; [by apply trusts_ok|]. destruct (integrationMessage req) as [message|]; [|apply trusts_err].
  eapply guarded_bind_err; [|intros commit _; by apply trusts_ok]. apply trusts_wrapping. unfold CommitIndexed.
  destruct (String.eqb _ ""); [apply trusts_err|]. apply trusts_quiet; [done|]. intros [suffix|]; [|apply trusts_err].
  assert (Hp : rooted (PathJoin (PathJoin (it_Dir t) ".git") ("COMMIT-MSG-" ++ suffix)) = true) by (by repeat apply rooted_PathJoin).
  eapply guarded_bind_err; [apply trusts_Hardened; argv_ok|]. intros _ _.
  eapply guarded_bind_err; [apply trusts_Hardened; argv_ok|]. intros out _. eapply guarded_mono; [|apply trusts_printed]. by intros [].
Qed.

Lemma trusts_examine t req : ir_BriefID req = briefID -> rooted (it_Dir t) = true -> trusts (examine inflate t req) is_oid.
Proof.
  intros Hid Hdir. unfold examine. destruct (validOID (DispatchedTip req)) eqn:Ht; cbn [negb]; [|apply trusts_err]. apply validOID_lower in Ht.
  eapply guarded_bind_err; [apply trusts_wrapping, trusts_hardened; [argv_ok|intros a; apply trusts_verdict]|].
  intros [] _; [apply trusts_err|]. rewrite Hid. eapply guarded_bind_err; [by apply trusts_validate|]. intros head Hh.
  eapply (guarded_bind_err _ _ _ any).
  { apply trusts_rejecting. unfold ChangedPaths. destruct (_ || _); [apply trusts_err|].
    eapply guarded_bind_err; [apply trusts_Hardened; argv_ok|]. intros out _. by apply trusts_ok. }
  intros paths _. destruct (existsb _ _); [apply trusts_err|by apply trusts_ok].
Qed.
End Arguments.

(** C9: Nothing a worker or a bundle says reaches a git argument.  Whatever the
    bundle holds, whatever git and the file system answer, every argument of
    every command of an integration is a word of trusted control's own, an
    absolute path, forty or sixty-four hexadecimal digits, or the ref control
    derived from the brief ID, and that ref is the fixed prefix with letters,
    digits, dots, dashes and underscores; the commit message travels in a
    file. *)
Theorem integration_arguments_trusted (inflate : list Z -> option zstream) (t : Integrator) (req : IntegrationRequest) (tr : trace treeE)
    (r : result herror Integration) (Hdir : rooted (it_Dir t) = true) (Hex : exec (Integrate inflate t req) tr r) :
  Forall (trusted_command (ir_BriefID req)) tr /\
  (forall ref, resultRefFor (ir_BriefID req) = Ok ref -> ref = ResultRefPrefix ++ ir_BriefID req /\ brief_id_chars (ir_BriefID req) = true).
Proof.
  split.
  - assert (H : Forall (command_ok (ir_BriefID req) false) tr); [|eapply Forall_impl; [exact H|by intros ev [? _]]].
    refine (proj1 (guarded_exec _ _ (on_ok (fun _ => True)) _ _ _ Hex)).
    eapply guarded_bind_err; [by apply trusts_examine|]. intros head Hh. by apply trusts_commit.
  - intros ref. unfold resultRefFor, isBriefID. destruct (String.eqb _ "" || _); [done|]. destruct (brief_id_chars _); cbn [negb]; [|done].
    destruct (_ || _); [done|]. by intros [= <-].
Qed.

(** ** What an integration rests on *)

(** A command that ran and printed [out]. *)
Abbreviation ran dir args out := (Ev (InGit (Git dir [] args)) (Output out)).

(** A resolved name of the staged file. *)
Definition names_file (staged path : string) : Prop := exists els, path = PathJoin ("/" ++ Join els "/") (Base (Clean (TrimSpace staged))).

(** The checks of a bundle, in their order: no merge was pending; the bundle was
    staged and verified against the tree; its pack was scanned within the bounds
    before git unpacked it into the quarantine; the quarantine's inventory is
    within the bounds; it advertises exactly the ref of the brief; that ref was
    fetched and resolved to [head]; the dispatched tip is its ancestor; and every
    path changed between the two is in scope. *)
Inductive examined (inflate : list Z -> option zstream) (t : Integrator) (req : IntegrationRequest) (head : string) : trace treeE -> Prop :=
| Examined ref staged p1 p2 p3 p4 file ctxErr scratch objects l inv o1 o2 o3 out h o4 printed diff :
    resultRefFor (ir_BriefID req) = Ok ref -> Forall (names_file staged) [p1; p2; p3; p4] ->
    (scanBundlePack inflate ctxErr file artifactObjectLimits).2 = Ok tt ->
    li_end l = LinesClean -> inventory_lines artifactObjectLimits no_objects (li_lines l) = Ok inv -> over_inventory inv = None ->
    parse_heads (Split out newline) = Some [h] -> br_Name h = ref ->
    validOID (TrimSpace printed) = true -> head = ToLower (TrimSpace printed) ->
    Forall (fun path => Contains (it_scope t) path = true) (List.filter (fun r => negb (String.eqb r "")) (Split diff (chr 0))) ->
    examined inflate t req head
      [Ev (InGit (Git (it_Dir t) [] ["rev-parse"; "--verify"; "--quiet"; "MERGE_HEAD"])) (ExitCode 1);
       Ev (WriteFile staged (Bundle req)) true;
       ran (it_Dir t) ["bundle"; "verify"; "--quiet"; p1] o1;
       Ev (OpenBundle p2) (file, ctxErr);
       Ev (InGit (Git scratch ["GIT_OBJECT_DIRECTORY=" ++ objects] ["bundle"; "unbundle"; p2])) (Output o2);
       Ev (GitLines (it_Dir t) ["GIT_OBJECT_DIRECTORY=" ++ objects]
             ["cat-file"; "--batch-all-objects"; "--batch-check=%(objectname) %(objecttype) %(objectsize)"]) l;
       ran "" ["bundle"; "list-heads"; p3] out;
       ran (it_Dir t) ["fetch"; "--no-tags"; "--"; p4; ref] o3;
       ran (it_Dir t) ["rev-parse"; "--verify"; "--quiet"; "FETCH_HEAD^{commit}"] printed;
       ran (it_Dir t) ["merge-base"; "--is-ancestor"; DispatchedTip req; head] o4;
       ran (it_Dir t) ["diff"; "--no-renames"; "--name-only"; "-z"; DispatchedTip req; head] diff].

Lemma exec_bind_ok {E Er A B} (p : prog E (result Er A)) (f : A -> prog E (result Er B)) tr b :
  exec (bind_err p f) tr (Ok b) -> exists t1 t2 a, tr = (t1 ++ t2)%list /\ exec p t1 (Ok a) /\ exec (f a) t2 (Ok b).
Proof.
  intros H. unfold bind_err in H. apply exec_bind in H as (t1 & t2 & [a|e] & -> & H1 & H2); [by exists t1, t2, a|by destruct H2].
Qed.

(** The value of the first step, its trace and its execution. *)
Tactic Notation "eok" hyp(H) "as" ident(a) ident(t1) ident(Hn) :=
  let t2 := fresh "rest" in apply exec_bind_ok in H as (t1 & t2 & a & -> & Hn & H).

Lemma exec_wrapping_ok {A} msg (p : tree A) tr a : exec (wrapping msg p) tr (Ok a) -> exec p tr (Ok a).
Proof. intros H. ebind H as r t1 Hp. destruct r; apply exec_mret in H as [-> [=]]; subst. by rewrite app_nil_r. Qed.

Lemma exec_rejecting_ok {Er A} (c : Er -> string) (p : prog treeE (result Er A)) tr a : exec (rejecting c p) tr (Ok a) -> exec p tr (Ok a).
Proof. intros H. ebind H as r t1 Hp. destruct r; apply exec_mret in H as [-> [=]]; subst. by rewrite app_nil_r. Qed.

Lemma exec_scan_ok {A} (p : tree A) tr a : exec (scan_step p) tr (Ok a) -> exec p tr (Ok a).
Proof. intros H. ebind H as r t1 Hp. destruct r; apply exec_mret in H as [-> [=]]; subst. by rewrite app_nil_r. Qed.

Lemma exec_Hardened_ok dir args tr out : exec (Hardened dir args) tr (Ok out) -> tr = [ran dir args out].
Proof. intros H. ecall H as a. destruct a; apply exec_mret in H as [-> [=]]; by subst. Qed.

Lemma exec_path_ok p tr path : exec (localBundlePath p) tr (Ok path) -> names_file p path.
Proof.
  unfold localBundlePath. destruct (_ || _); [by intros [_ ?]|]. intros H. ecall H as parent. destruct parent as [els|]; [|by destruct H].
  ecall H as regular. destruct regular; [|by destruct H]. apply exec_mret in H as [_ [= ->]]. by exists els.
Qed.

Lemma exec_printed_ok out f tr o : exec (printed_oid out f) tr (Ok o) -> tr = [] /\ validOID (TrimSpace out) = true /\ o = ToLower (TrimSpace out).
Proof. unfold printed_oid. destruct (validOID _); cbn [negb]; [by intros [-> [= ->]]|by intros [_ ?]]. Qed.

Lemma exec_verdict_ok a f tr b : exec (exit_verdict a f) tr (Ok b) -> tr = [] /\ (b = true -> exists o, a = Output o) /\ (b = false -> a = ExitCode 1).
Proof.
  destruct a as [o|code|]; cbn [exit_verdict]; [intros [-> [= ->]]; naive_solver| |by intros [_ ?]].
  destruct (Z.eqb_spec code 1) as [->|]; [intros [-> [= ->]]; naive_solver|by intros [_ ?]].
Qed.

(** *** The steps, by what their success shows *)

(** [steps] occur in the trace, in their order. *)
Abbreviation shows steps tr := (sublist steps tr).

Lemma verify_shows repo p tr : exec (VerifyBundle repo p) tr (Ok tt) ->
  exists path o, names_file p path /\ shows [ran repo ["bundle"; "verify"; "--quiet"; path] o] tr.
Proof.
  intros H. eok H as path t1 Hp. eok H as o t2 Ho. apply exec_Hardened_ok in Ho as ->. apply exec_mret in H as [-> _].
  exists path, o. split; [by eapply exec_path_ok|]. apply sublist_inserts_l, sublist_skip, sublist_nil_l.
Qed.

Lemma unbundle_shows inflate objectDir p limits tr : exec (Unbundle inflate objectDir p limits) tr (Ok tt) ->
  exists path file ctxErr scratch o, names_file p path /\ (scanBundlePack inflate ctxErr file limits).2 = Ok tt /\
    shows [Ev (OpenBundle path) (file, ctxErr);
           Ev (InGit (Git scratch ["GIT_OBJECT_DIRECTORY=" ++ objectDir] ["bundle"; "unbundle"; path])) (Output o)] tr.
Proof.
  unfold Unbundle. destruct (validObjectLimits limits); [|by intros [_ ?]]. intros H. eok H as path t1 Hp. apply exec_scan_ok, exec_path_ok in Hp.
  ecall H as opened. destruct opened as [file ctxErr]. destruct (scanBundlePack _ _ _ _).2 as [[]|] eqn:Hs; [|by destruct H].
  ecall H as suffix. destruct suffix as [suffix|]; [|by destruct H]. eok H as o1 t2 Ho. ecall H as ans. destruct ans as [o| |]; try by destruct H.
  apply exec_mret in H as [-> _]. exists path, file, ctxErr, (PathJoin (Dir objectDir) ("courier-unbundle-" ++ suffix)), o. split; [done|]. split; [done|].
  apply sublist_inserts_l, sublist_skip, sublist_cons, sublist_inserts_l, sublist_skip, sublist_nil_l.
Qed.

Lemma inventory_shows repo objectDir limits tr inv : exec (InventoryObjects repo objectDir limits) tr (Ok inv) ->
  exists l, li_end l = LinesClean /\ inventory_lines limits no_objects (li_lines l) = Ok inv /\
    tr = [Ev (GitLines repo ["GIT_OBJECT_DIRECTORY=" ++ objectDir]
                ["cat-file"; "--batch-all-objects"; "--batch-check=%(objectname) %(objecttype) %(objectsize)"]) l].
Proof.
  unfold InventoryObjects. destruct (validObjectLimits limits); [|by intros [_ ?]]. intros H. ecall H as l. exists l.
  destruct (li_end l); try (by destruct H); (destruct (inventory_lines _ _ _) as [inv'|] eqn:Hi; [|by destruct H]); try (by destruct H).
  destruct (_ =? _); [by destruct H|]. apply exec_mret in H as [-> [= ->]]. done.
Qed.

Lemma budget_shows inflate t workDir p tr : exec (within_budget inflate t workDir p) tr (Ok tt) ->
  exists path file ctxErr scratch objects o l inv, names_file p path /\ (scanBundlePack inflate ctxErr file artifactObjectLimits).2 = Ok tt /\
    li_end l = LinesClean /\ inventory_lines artifactObjectLimits no_objects (li_lines l) = Ok inv /\ over_inventory inv = None /\
    shows [Ev (OpenBundle path) (file, ctxErr);
           Ev (InGit (Git scratch ["GIT_OBJECT_DIRECTORY=" ++ objects] ["bundle"; "unbundle"; path])) (Output o);
           Ev (GitLines (it_Dir t) ["GIT_OBJECT_DIRECTORY=" ++ objects]
                 ["cat-file"; "--batch-all-objects"; "--batch-check=%(objectname) %(objecttype) %(objectsize)"]) l] tr.
Proof.
  unfold within_budget. intros H. ecall H as made. destruct made; [|by destruct H]. cbn [negb] in H. eok H as u t1 Hu. destruct u.
  apply exec_rejecting_ok, unbundle_shows in Hu as (path & file & ctxErr & scratch & o & Hn & Hs & Hsub). eok H as inv t2 Hi.
  apply exec_rejecting_ok, inventory_shows in Hi as (l & Hc & Hl & ->). destruct (over_inventory inv) eqn:Ho; [by destruct H|].
  apply exec_mret in H as [-> _]. exists path, file, ctxErr, scratch, (PathJoin workDir "objects"), o, l, inv. split_and!; try done.
  apply sublist_cons. apply (sublist_app _ _ [_] _ Hsub). by rewrite app_nil_r.
Qed.

Lemma import_shows t p ref tip tr head : exec (import_head t p ref tip) tr (Ok head) ->
  exists p3 p4 out h o3 printed o4, Forall (names_file p) [p3; p4] /\ parse_heads (Split out newline) = Some [h] /\ br_Name h = ref /\
    validOID (TrimSpace printed) = true /\ head = ToLower (TrimSpace printed) /\
    shows [ran "" ["bundle"; "list-heads"; p3] out; ran (it_Dir t) ["fetch"; "--no-tags"; "--"; p4; ref] o3;
           ran (it_Dir t) ["rev-parse"; "--verify"; "--quiet"; "FETCH_HEAD^{commit}"] printed;
           ran (it_Dir t) ["merge-base"; "--is-ancestor"; tip; head] o4] tr.
Proof.
  intros H. eok H as heads t1 H1. apply exec_rejecting_ok in H1. destruct (negb _) eqn:Hh; [by destruct H|]. apply negb_false_iff in Hh.
  eok H1 as p3 u1 Hp3. apply exec_path_ok in Hp3. eok H1 as out u2 Ho. apply exec_Hardened_ok in Ho as ->.
  destruct (parse_heads _) as [[|h hs]|] eqn:Hpar; [by destruct H1| |by destruct H1]. apply exec_mret in H1 as [-> [= ->]].
  destruct hs; [|done]. apply String.eqb_eq in Hh. eok H as u t2 H2. destruct u. apply exec_rejecting_ok in H2. eok H2 as p4 u4 Hp4. apply exec_path_ok in Hp4.
  destruct (_ || _); [by destruct H2|]. eok H2 as o3 u5 Ho3. apply exec_Hardened_ok in Ho3 as ->. apply exec_mret in H2 as [-> _].
  eok H as hd t3 H3. apply exec_rejecting_ok in H3. unfold ResolveCommit in H3. cbn [String.eqb HasPrefix String.prefix orb] in H3.
  eok H3 as printed u6 Hpr. apply exec_Hardened_ok in Hpr as ->. apply exec_printed_ok in H3 as (-> & Hv & ->).
  eok H as anc t4 H4. apply exec_rejecting_ok in H4. destruct anc; [|by destruct H]. apply exec_mret in H as [-> [= ->]].
  unfold IsAncestor in H4. destruct (_ || _); [by destruct H4|]. ecall H4 as a. apply exec_verdict_ok in H4 as (-> & Ho4 & _). destruct (Ho4 eq_refl) as [o4 ->].
  exists p3, p4, out, h, o3, printed, o4. split_and!; [by repeat constructor|done|done|done|done|].
  rewrite <- !app_assoc. apply sublist_inserts_l, sublist_skip. cbn [app]. apply sublist_inserts_l, sublist_skip, sublist_skip, sublist_skip, sublist_nil_l.
Qed.

Lemma examine_shows inflate t req tr head : exec (examine inflate t req) tr (Ok head) ->
  exists steps, examined inflate t req head steps /\ shows steps tr.
Proof.
  unfold examine. destruct (negb _); [by intros [_ ?]|]. intros H. eok H as busy t1 H1. apply exec_wrapping_ok in H1. ecall H1 as a.
  apply exec_verdict_ok in H1 as (-> & _ & Ha). destruct busy; [by destruct H|]. rewrite (Ha eq_refl) in *. clear a Ha.
  eok H as hd t2 H2. eok H as paths t3 H3. apply exec_rejecting_ok in H3. destruct (existsb _ _) eqn:Hscope; [by destruct H|].
  apply exec_mret in H as [-> [= ->]]. unfold ChangedPaths in H3. destruct (_ || _); [by destruct H3|]. eok H3 as diff u3 Hd.
  apply exec_Hardened_ok in Hd as ->. apply exec_mret in H3 as [-> [= ->]].
  unfold validateAndImportArtifact in H2. destruct (resultRefFor _) as [ref|] eqn:Href; [|by destruct H2].
  destruct (String.eqb _ ""); [by destruct H2|]. destruct (_ <? _); [by destruct H2|]. eok H2 as wp t4 H4. destruct wp as [workDir p].
  unfold stage in H4. eok H4 as dir u4 Hdir. ecall H4 as written. destruct written; [|by destruct H4]. apply exec_mret in H4 as [-> [= -> ->]].
  eok H2 as u t5 H5. destruct u. apply exec_rejecting_ok, verify_shows in H5 as (p1 & o1 & Hp1 & Hs1).
  eok H2 as u t6 H6. destruct u. apply budget_shows in H6 as (p2 & file & ctxErr & scratch & objects & o2 & l & inv & Hp2 & Hscan & Hl1 & Hl2 & Hl3 & Hs2).
  apply import_shows in H2 as (p3 & p4 & out & h & o3 & printed & o4 & Hp34 & Hout & Hname & Hval & -> & Hs3).
  eexists. split.
  - eapply (Examined inflate t req _ ref (PathJoin dir "artifact.bundle") p1 p2 p3 p4 file ctxErr scratch objects l inv o1 o2 o3 out h o4 printed diff); try done.
    + apply Forall_cons_2; [done|]. by apply Forall_cons_2.
    + apply Forall_forall. intros path Hin. apply (existsb_none _ _ Hscope path) in Hin. by apply negb_false_iff in Hin.
  - cbn [app]. apply sublist_skip. rewrite <- !app_assoc. apply sublist_inserts_l. cbn [app]. apply sublist_skip.
    apply (sublist_app [_] _ (_ :: _ :: _ :: _) _ Hs1). apply (sublist_app [_; _; _] _ (_ :: _ :: _) _ Hs2).
    apply (sublist_app [_; _; _; _] _ [_] _ Hs3). done.
Qed.

(** *** The commit *)

(** What follows the checks: the head over the worktree, and at most one commit,
    of a message control composed. *)
Definition committing (t : Integrator) (req : IntegrationRequest) (head : string) (tr : trace treeE) (r : result herror Integration) : Prop :=
  exists a rest, tr = Ev (InGit (Git (it_Dir t) [] ["read-tree"; "--reset"; "-u"; head])) a :: rest /\
    ((Forall (fun ev => changing ev = false) rest /\ (forall i, r = Ok i -> Changed i = false)) \/
     exists message suffix c tail, integrationMessage req = Ok message /\ Forall (fun ev => changing ev = false) tail /\
       rest = (Ev (InGit (Git (it_Dir t) [] ["diff-index"; "--quiet"; "HEAD"])) (ExitCode 1) ::
               Ev (MessageFile (PathJoin (it_Dir t) ".git") message) (Some suffix) ::
               Ev (InGit (Git (it_Dir t) [] ["-c"; commitIdentityName; "-c"; commitIdentityEmail; "commit"; "--no-verify"; "--file";
                                           PathJoin (PathJoin (it_Dir t) ".git") ("COMMIT-MSG-" ++ suffix)])) c :: tail) /\
       (forall i, r = Ok i -> Changed i = true /\ exists o out, c = Output o /\ tail = [ran (it_Dir t) ["rev-parse"; "HEAD"] out] /\
                                in_Commit i = ToLower (TrimSpace out) /\ validOID (TrimSpace out) = true)).

Lemma exec_bind_err {E Er A B} (p : prog E (result Er A)) (f : A -> prog E (result Er B)) tr b :
  exec (bind_err p f) tr b -> (exists e, exec p tr (Err e) /\ b = Err e) \/ exists t1 t2 a, tr = (t1 ++ t2)%list /\ exec p t1 (Ok a) /\ exec (f a) t2 b.
Proof.
  intros H. unfold bind_err in H. apply exec_bind in H as (t1 & t2 & [a|e] & -> & H1 & H2); [right; by exists t1, t2, a|].
  left. destruct H2 as [-> ->]. exists e. by rewrite app_nil_r.
Qed.

Lemma exec_wrapping_err {A} msg (p : tree A) tr e : exec (wrapping msg p) tr (Err e) -> exists m, exec p tr (Err m).
Proof. intros H. ebind H as r t1 Hp. destruct r as [a|m]; apply exec_mret in H as [-> [=]]. exists m. by rewrite app_nil_r. Qed.

Lemma exec_Hardened dir args tr r : exec (Hardened dir args) tr r -> exists a, tr = [Ev (InGit (Git dir [] args)) a].
Proof. intros H. ecall H as a. exists a. by destruct a; apply exec_mret in H as [-> _]. Qed.

Lemma exec_read_tree dir tip tr r : exec (ReadTreeInto dir tip) tr r -> exists a, tr = [Ev (InGit (Git dir [] ["read-tree"; "--reset"; "-u"; tip])) a].
Proof.
  intros [(e & H & _)|(t1 & t2 & o & -> & H & H2)]%exec_bind_err; [by eapply exec_Hardened|]. apply exec_mret in H2 as [-> _].
  apply exec_Hardened in H as [a ->]. by exists a.
Qed.

Lemma exec_diff_index dir tr r : exec (DiffIndexQuiet dir) tr r ->
  exists a, tr = [Ev (InGit (Git dir [] ["diff-index"; "--quiet"; "HEAD"])) a] /\ (r = Ok false -> a = ExitCode 1).
Proof.
  intros H. ecall H as a. exists a. destruct a as [o|code|]; cbn [exit_verdict] in H; [by destruct H as [-> ->]| |by destruct H as [-> ->]].
  destruct (code =? 1) eqn:Hc; destruct H as [-> ->]; [|done]. apply Z.eqb_eq in Hc as ->. done.
Qed.

Lemma exec_head dir tr r : exec (HeadOID dir) tr r ->
  exists a, tr = [Ev (InGit (Git dir [] ["rev-parse"; "HEAD"])) a] /\
    (forall o, r = Ok o -> exists out, a = Output out /\ o = ToLower (TrimSpace out) /\ validOID (TrimSpace out) = true).
Proof.
  intros [(e & H & ->)|(t1 & t2 & o & -> & H & H2)]%exec_bind_err.
  - apply exec_Hardened in H as [a ->]. by exists a.
  - apply exec_Hardened_ok in H as ->. exists (Output o). unfold printed_oid in H2. destruct (validOID _) eqn:Hv; destruct H2 as [-> ->]; [|done].
    split; [done|]. intros o' [= <-]. by exists o.
Qed.

Lemma commit_shows t req head tr r : exec (commit_head t req head) tr r -> committing t req head tr r.
Proof.
  unfold committing. intros [(e & H & ->)|(t1 & t2 & u & -> & H1 & H)]%exec_bind_err.
  { apply exec_wrapping_err in H as [m H]. apply exec_read_tree in H as [a ->]. exists a, []. split; [done|]. left. by split; [constructor|]. }
  apply exec_wrapping_ok, exec_read_tree in H1 as [a ->]. exists a, t2. split; [done|].
  apply exec_bind_err in H as [(e & H & ->)|(t3 & t4 & q & -> & H1 & H)].
  { apply exec_wrapping_err in H as [m H]. apply exec_diff_index in H as (d & -> & _). left. by split; [constructor|]. }
  apply exec_wrapping_ok, exec_diff_index in H1 as (d & -> & Hd). destruct q.
  { apply exec_mret in H as [-> ->]. left. split; [by constructor|]. by intros i [= <-]. }
  rewrite (Hd eq_refl). clear d Hd. destruct (integrationMessage req) as [message|] eqn:Hm.
  2: { apply exec_mret in H as [-> ->]. left. by split; [constructor|]. }
  assert (Hcommit : exists r', exec (CommitIndexed (it_Dir t) message) t4 r' /\
    (forall i, r = Ok i -> Changed i = true /\ r' = Ok (in_Commit i))).
  { apply exec_bind_err in H as [(e & H & ->)|(t5 & t6 & c & -> & H & H2)].
    - apply exec_wrapping_err in H as [m H]. by exists (Err m).
    - apply exec_wrapping_ok in H. apply exec_mret in H2 as [-> ->]. rewrite app_nil_r. exists (Ok c). split; [done|]. by intros i [= <-]. }
  clear H. destruct Hcommit as (r' & H & Hr). unfold CommitIndexed in H. destruct (String.eqb _ "").
  { apply exec_mret in H as [-> ->]. left. split; [by constructor|]. intros i Hi. by destruct (Hr i Hi). }
  ecall H as suffix. destruct suffix as [suffix|].
  2: { apply exec_mret in H as [-> ->]. left. split; [by repeat constructor|]. intros i Hi. by destruct (Hr i Hi). }
  right. apply exec_bind_err in H as [(e & H & ->)|(t5 & t6 & c & -> & H1 & H)].
  - apply exec_Hardened in H as [c ->]. exists message, suffix, c, []. split_and!; [done|constructor|done|]. intros i Hi. by destruct (Hr i Hi).
  - apply exec_Hardened_ok in H1 as ->. apply exec_head in H as (h & -> & Hh). exists message, suffix, (Output c), [Ev (InGit (Git (it_Dir t) [] ["rev-parse"; "HEAD"])) h].
    split_and!; [done|by repeat constructor|done|]. intros i Hi. destruct (Hr i Hi) as [H1 H2]. split; [done|].
    destruct (Hh _ H2) as (out & -> & ? & ?). by exists c, out.
Qed.


(** ** A sample integration *)

Definition sample_oid : string := "0123456789abcdef0123456789abcdef01234567".

Definition sample_git (args : list string) : git_answer :=
  match args with
  | ["rev-parse"; "--verify"; "--quiet"; rev] => if String.eqb rev "MERGE_HEAD" then ExitCode 1 else Output (sample_oid ++ nl)
  | ["bundle"; "list-heads"; _] => Output (sample_oid ++ " refs/courier/briefs/b1" ++ nl)
  | ["diff-index"; _; _] => ExitCode 1
  | "diff" :: _ => Output ("src/main.go" ++ str1 0)
  | _ => Output (sample_oid ++ nl)
  end.

Definition sample_gitE (X : Type) (e : gitE X) : option (unit * X) :=
  match e with Git _ _ args => Some (tt, sample_git args) | _ => None end.

Definition sample_tree_world (X : Type) (e : treeE X) (u : unit) : option (unit * X) :=
  match e with
  | InGit g => sample_gitE _ g
  | GitLines _ _ _ => Some (tt, {| li_lines := [sample_oid ++ " blob 3"]; li_end := LinesClean |})
  | MkdirAll _ | WriteFile _ _ | RegularFile _ => Some (tt, true)
  | TempDir _ _ | MessageFile _ _ => Some (tt, Some "1")
  | EvalSymlinks _ => Some (tt, Some ["work"; "harness-artifact-1"])
  | OpenBundle _ => Some (tt, (bundle_of example_pack, no_ctx))
  | _ => None
  end.

Definition sample_integrator : Integrator := {| it_Dir := "/work/tree"; it_scope := ["src"]; it_baseTip := sample_oid |}.

Definition sample_request : IntegrationRequest :=
  {| ir_BriefID := "b1"; DispatchedTip := sample_oid; Bundle := "bundle";
     ir_Brief := {| b_ID := "b1"; b_Role := "coder"; Objective := "fix it"; Decisions := []; OwnedFiles := []; NonGoals := []; SuccessCheck := "tests" |}; ir_Summary := "fixed" |}.

Definition sample_integration : trace treeE * option (result herror Integration) :=
  play sample_tree_world (Integrate zlib_reader sample_integrator sample_request) tt.

Lemma sample_integration_run : sample_integration.2 = Some (Ok {| in_Commit := sample_oid; Changed := true |}).
Proof. vm_compute. reflexivity. Qed.

Lemma integration_arguments_trusted_witness : Forall (trusted_command "b1") sample_integration.1.
Proof.
  exact (proj1 (integration_arguments_trusted zlib_reader sample_integrator sample_request sample_integration.1 _ eq_refl
                  (play_exec sample_tree_world _ tt _ sample_integration_run))).
Defined.


(** ** The path policy, by the elements of paths *)

(** A relative path that stays below its root. *)
Definition below (path : string) : Prop := rooted path = false /\ ".." ∉ elements path.

Lemma prefix_split s p : HasPrefix s p = true <-> exists r, s = p ++ r.
Proof.
  unfold HasPrefix. revert s. induction p as [|c p IH]; intros s; [split; [by exists s|by destruct s]|]. destruct s as [|d s]; cbn [String.prefix].
  - split; [done|]. by intros [r ?].
  - destruct (ascii_dec c d) as [<-|Hne].
    + rewrite IH. split; intros [r Hr]; exists r; [rewrite sapp_cons; congruence|]. rewrite sapp_cons in Hr. congruence.
    + split; [done|]. intros [r Hr]. rewrite sapp_cons in Hr. congruence.
Qed.

Lemma Join_app es ks : es <> [] -> ks <> [] -> Join (es ++ ks)%list "/" = Join es "/" ++ String "/" (Join ks "/").
Proof.
  intros He Hk. induction es as [|e es IH]; [done|]. destruct es as [|e' es].
  - destruct ks as [|k ks]; [done|]. done.
  - change (Join ((e :: e' :: es) ++ ks)%list "/") with (e ++ String "/" (Join ((e' :: es) ++ ks)%list "/")).
    change (Join (e :: e' :: es) "/") with (e ++ String "/" (Join (e' :: es) "/")). rewrite IH by done. by rewrite sapp_assoc.
Qed.

Lemma Clean_relative path : rooted path = false -> Clean path = match elements path with [] => "." | els => Join els "/" end.
Proof. intros H. unfold Clean. rewrite H. by destruct (elements path). Qed.

(** A path that does not escape is exactly one below its root. *)
Lemma escapes_below path : escapes (Clean path) = false <-> below path.
Proof.
  unfold escapes, below. rewrite rooted_Clean. destruct (rooted path) eqn:Hr; [rewrite orb_true_r; naive_solver|]. rewrite orb_false_r, (Clean_relative path Hr).
  pose proof (elements_plain path) as Hp. destruct (elements_settled path) as (ups & names & He & Hu & Hn & _). rewrite rev_involutive in He.
  rewrite He in Hp |- *. destruct ups as [|u ups]; cbn [app].
  - assert (Hdd : ".." ∉ names) by (intros Hin; by apply (proj1 (Forall_forall _ _) Hn) in Hin).
    destruct names as [|n names]; [split; [|done]; intros _; split; [done|set_solver]|]. split; [done|]. intros _. apply orb_false_iff.
    apply Forall_cons in Hn as [Hn _]. apply Forall_cons in Hp as [(_ & _ & Hb) _]. destruct names as [|n' names].
    + cbn [Join]. split; [by apply String.eqb_neq|]. destruct (HasPrefix n "../") eqn:Hpre; [|done]. apply prefix_split in Hpre as [r ->]. done.
    + change (Join (n :: n' :: names) "/") with (n ++ String "/" (Join (n' :: names) "/")). split.
      * apply String.eqb_neq. intros H. apply (f_equal (fun s => Split s "/")) in H. rewrite Split_app, Split_single in H by done.
        destruct (Split_cons (Join (n' :: names) "/") "/") as (p & ps & Hps). rewrite Hps in H. done.
      * destruct (HasPrefix _ "../") eqn:Hpre; [|done]. apply prefix_split in Hpre as [r Hpre].
        change ("../" ++ r) with (".." ++ String "/" r) in Hpre. apply (f_equal (fun s => Split s "/")) in Hpre.
        rewrite !Split_app, (Split_single n), (Split_single "..") in Hpre by done. injection Hpre as Hpre _. done.
  - apply Forall_cons in Hu as [-> Hu]. split; [|by set_solver]. destruct (ups ++ names)%list as [|x rest] eqn:Hx; cbn [Join]; [done|].
    intros [_ H]%orb_false_iff. exfalso. apply not_true_iff_false in H. apply H. apply prefix_split. by exists (Join (x :: rest) "/").
Qed.

Lemma names_elements path : below path -> Forall (fun p => no_byte "/" p = true) (elements path).
Proof. intros _. eapply Forall_impl; [apply elements_plain|]. by intros p (_ & _ & ?). Qed.

(** Being the entry or below it, by elements. *)
Lemma within_entry entry path : below entry -> below path -> elements entry <> [] ->
  String.eqb (Clean path) (Clean entry) || HasPrefix (Clean path) (Clean entry ++ "/") = true <-> elements entry `prefix_of` elements path.
Proof.
  intros He Hp Hne. pose proof (names_elements entry He) as Hbe. pose proof (names_elements path Hp) as Hbp.
  rewrite (Clean_relative entry), (Clean_relative path) by apply He || apply Hp.
  destruct (elements entry) as [|e es] eqn:Hes; [done|]. rewrite orb_true_iff, String.eqb_eq, prefix_split. split.
  - intros [H|[r H]].
    + destruct (elements path) as [|p ps] eqn:Hps; [|exists []; rewrite app_nil_r; apply (f_equal (fun s => Split s "/")) in H; by rewrite !Split_join_slash in H].
      apply (f_equal (fun s => Split s "/")) in H. rewrite Split_join_slash in H by done. change (Split "." "/") with ["."] in H. injection H as <- <-.
      pose proof (elements_plain entry) as Hplain. rewrite Hes in Hplain. by apply Forall_cons in Hplain as [(_ & ? & _) _].
    + rewrite sapp_assoc in H. change ("/" ++ r) with (String "/" r) in H. apply (f_equal (fun s => Split s "/")) in H. rewrite Split_app, (Split_join_slash (e :: es)) in H by done.
      destruct (elements path) as [|p ps] eqn:Hps.
      * change (Split "." "/") with ["."] in H. destruct (Split_cons r "/") as (x & xs & Hx). rewrite Hx in H. by destruct es.
      * rewrite Split_join_slash in H by done. rewrite H. by exists (Split r "/").
  - intros [ks ->]. destruct ks as [|k ks]; [left; by rewrite app_nil_r|]. right. cbn [app]. change (e :: es ++ k :: ks)%list with ((e :: es) ++ k :: ks)%list.
    rewrite Join_app by done. exists (Join (k :: ks) "/"). by rewrite sapp_assoc.
Qed.

Lemma Clean_dot path : rooted path = false -> (String.eqb (Clean path) "" || String.eqb (Clean path) ".") = true <-> elements path = [].
Proof.
  intros Hr. rewrite (Clean_relative path Hr). destruct (elements path) as [|e es] eqn:He; [done|]. split; [|done]. intros H. exfalso.
  assert (Hs : Split (Join (e :: es) "/") "/" = e :: es).
  { apply Split_join_slash; [done|]. rewrite <- He. eapply Forall_impl; [apply elements_plain|]. by intros p (_ & _ & ?). }
  pose proof (elements_plain path) as Hplain. rewrite He in Hplain. apply Forall_cons in Hplain as [(H1 & H2 & _) _].
  apply orb_true_iff in H as [H|H]; apply String.eqb_eq in H; rewrite H in Hs; cbn in Hs; injection Hs as Hs _; congruence.
Qed.

Lemma NewPathScope_spec entries scope : NewPathScope entries = Some scope ->
  scope = Clean ∘ TrimSpace <$> List.filter (fun x => negb (String.eqb (Clean (TrimSpace x)) "" || String.eqb (Clean (TrimSpace x)) ".")) entries /\
  Forall (fun x => below (TrimSpace x)) entries.
Proof.
  revert scope. induction entries as [|x entries IH]; intros scope; cbn [NewPathScope List.filter]; [by intros [= <-]|].
  destruct (_ || _) eqn:Hdot; cbn [negb].
  { intros [-> H]%IH. split; [done|]. constructor; [|done]. destruct (rooted (TrimSpace x)) eqn:Hr; [|apply Clean_dot in Hdot; [|done]; split; [done|rewrite Hdot; set_solver]].
    exfalso. pose proof (rooted_Clean (TrimSpace x)) as Hc. rewrite Hr in Hc. by apply orb_true_iff in Hdot as [H'|H']; apply String.eqb_eq in H'; rewrite H' in Hc. }
  destruct (escapes _) eqn:He; [done|]. cbn [orb]. destruct (negb (no_byte _ _)); [done|]. destruct (NewPathScope entries) as [rest|]; [|done].
  intros [= <-]. destruct (IH _ eq_refl) as [-> H]. split; [done|]. constructor; [|done]. by apply escapes_below.
Qed.

(** The path policy is about directories, not about text: with the operator's
    entries, a changed path is in scope exactly when no entry names anything, or
    when the path is relative, never leaves the repository, and its elements
    begin with those of some entry. *)
Theorem path_scope_exact (entries scope : list string) (path : string) (Hscope : NewPathScope entries = Some scope) :
  Contains scope path = true <->
  Forall (fun x => elements (TrimSpace x) = []) entries \/
  below path /\ exists x, x ∈ entries /\ elements (TrimSpace x) <> [] /\ elements (TrimSpace x) `prefix_of` elements path.
Proof.
  destruct (NewPathScope_spec _ _ Hscope) as [-> Hent]. set (named := fun x => negb _). rewrite Forall_forall in Hent.
  assert (Hnamed : forall x, x ∈ entries -> named x = true <-> elements (TrimSpace x) <> []).
  { intros x Hx. unfold named. rewrite negb_true_iff, <- not_true_iff_false. by rewrite Clean_dot by apply (Hent x Hx). }
  assert (Hin : forall x, x ∈ List.filter named entries <-> x ∈ entries /\ elements (TrimSpace x) <> []).
  { intros x. rewrite list_elem_of_In, filter_In, <- list_elem_of_In. split; intros [H1 H2]; split; auto; by apply (Hnamed x H1). }
  destruct (List.filter named entries) as [|y ys] eqn:Hf.
  { split; [|done]. intros _. left. apply Forall_forall. intros x Hx. destruct (elements (TrimSpace x)) as [|e es] eqn:He; [done|].
    exfalso. apply (not_elem_of_nil x), Hin. split; [done|]. by rewrite He. }
  rewrite <- Hf in *. unfold Contains. rewrite Hf at 1. cbn [fmap list_fmap]. destruct (escapes (Clean path)) eqn:Hesc.
  - split; [done|]. intros [H|[H _]]; [|by apply escapes_below in H; congruence]. exfalso. rewrite Forall_forall in H.
    destruct (proj1 (Hin y)) as [H1 H2]; [rewrite Hf; by left|]. by apply H in H1.
  - apply escapes_below in Hesc. rewrite existsb_exists. split.
    + intros (z & Hz & Hw). right. split; [done|]. apply list_elem_of_In, list_elem_of_fmap_1 in Hz as (x & -> & Hx). apply Hin in Hx as [Hx Hne].
      exists x. split_and!; try done. by apply within_entry; [apply Hent| | |].
    + intros [H|(_ & x & Hx & Hne & Hpre)].
      * exfalso. rewrite Forall_forall in H. destruct (proj1 (Hin y)) as [H1 H2]; [rewrite Hf; by left|]. by apply H in H1.
      * exists (Clean (TrimSpace x)). split; [|by apply within_entry; [apply Hent| | |]]. apply list_elem_of_In.
        apply (list_elem_of_fmap_2 (Clean ∘ TrimSpace)). by apply Hin.
Qed.

Lemma path_scope_exact_witness : Contains ["src"; "docs"] "src/../src//main.go" = true.
Proof.
  apply (path_scope_exact [" src "; "./docs/"] ["src"; "docs"] "src/../src//main.go"); [reflexivity|]. right. split.
  - split; [reflexivity|]. vm_compute. intros H. repeat (apply elem_of_cons in H as [H|H]; [discriminate H|]). by apply not_elem_of_nil in H.
  - exists " src ". split; [by left|]. split; [vm_compute; discriminate|]. exists ["main.go"]. reflexivity.
Defined.

(** ** Two observations *)

(** A snapshot that advertises its work ref twice is taken for one that
    advertises it once. *)
Lemma seed_accepts_duplicates oid1 oid2 :
  snapshot_refs [{| br_OID := oid1; br_Name := snapshotWorkRef |}; {| br_OID := oid2; br_Name := snapshotWorkRef |}] = Some false.
Proof. vm_compute. reflexivity. Qed.

(** Bytes that are not UTF-8 are replaced after the cut, each by three. *)
Lemma message_outgrows_cut :
  slen (sanitizeMessage (String.concat "" (replicate maxCommitMessageBytes (str1 255)))) = 3 * Z.of_nat maxCommitMessageBytes.
Proof. vm_compute. reflexivity. Qed.
