(* ===== verification/BrokerClient.v ===== *)
(** * The control pod's broker client (internal/harness/broker.go,
      brokertoken.go)

    One typed request at a time, with the projected token read afresh for each.
    What the network answers is arbitrary; the client turns it into a value, a
    definite denial or a retryable failure.

    [encoding/json] on the three bodies is the class [BrokerCodec]. *)

From S2P Require Import Prelude Effects GoStrings Run HarnessStatus GitTransport HarnessErrors Session HarnessLedger HarnessWorld Integrator.
Local Open Scope string_scope.
Local Open Scope Z_scope.

(** ** Requests *)

(** A response: its status, its headers by canonical name, its body or a failed
    read. *)
Record response := { rsp_status : Z; rsp_header : gmap string string; rsp_body : option string }.

(** [TokenFile] reads the projected file; [Transport] says whether the CA could
    be read; [BuildRequest] whether the URL is well formed; [Exchange] answers
    [None] on a transport failure. *)
Inductive brokerCallE : Type -> Type :=
| TokenFile : brokerCallE (option string)
| Transport : brokerCallE bool
| BuildRequest (method path : string) : brokerCallE bool
| Exchange (method path token : string) (headers : list (string * string)) (body : string) : brokerCallE (option response).

Class BrokerCodec := {
  encode_publication : string -> string -> string;
  decode_publication : string -> option Publication;
  encode_patch : HarnessPatch -> option string;
  decode_control : string -> option ControlRequest
}.

Abbreviation bcall A := (prog brokerCallE (result herror A)).

Definition broker_fail {A} (status : Z) (category : string) (retryable : bool) : bcall A :=
  Ret (Err (broker_error {| StatusCode := status; Category := category; bc_Retryable := retryable |})).

Definition brokerPathSnapshot : string := "/v1/git/snapshot".
Definition brokerPathImport : string := "/v1/bundles/import".
Definition brokerPathPublish : string := "/v1/publication".
Definition brokerPathStatus : string := "/trusted/v1/status".
Definition brokerPathControlRequest : string := "/trusted/v1/control-request".

Definition headerSnapshotTip : string := "X-Courier-Snapshot-Tip".
Definition headerSnapshotBaseTip : string := "X-Courier-Snapshot-Base-Tip".
Definition headerSnapshotWorkRef : string := "X-Courier-Snapshot-Work-Ref-Exists".
Definition headerSnapshotAtAnchor : string := "X-Courier-Snapshot-At-Anchor".
Definition headerProposedOID : string := "X-Courier-Proposed-OID".
Definition headerExpectedTip : string := "X-Courier-Expected-Tip".

(** ** The exchange *)

(** [fileBrokerTokenSource.BrokerToken]: the trimmed bytes, if any. *)
Definition BrokerToken : prog brokerCallE (option string) :=
  raw ← call TokenFile;
  Ret (match raw with Some bytes => let token := TrimSpace bytes in if String.eqb token "" then None else Some token | None => None end).

Definition rotatedUnder (sent : string) : prog brokerCallE bool :=
  fresh ← BrokerToken; Ret (match fresh with Some token => negb (String.eqb token sent) | None => false end).

Definition okStatus (status : Z) : bool := (status =? 200) || (status =? 204).

Definition header_of (r : response) (name : string) : string := match rsp_header r !! name with Some v => v | None => "" end.

Definition do_call (method path : string) (headers : list (string * string)) (body : string) : bcall response :=
  token ← BrokerToken;
  match token with
  | None => broker_fail 0 "token is unavailable" true
  | Some token =>
      usable ← call Transport;
      if negb usable then broker_fail 0 "CA is unreadable" false else
      built ← call (BuildRequest method path);
      if negb built then broker_fail 0 "request is malformed" false else
      resp ← call (Exchange method path token headers body);
      match resp with
      | None => Ret (Err (broker_error brokerTransportError))
      | Some r =>
          if okStatus (rsp_status r) then Ret (Ok r) else
          rotated ← (if rsp_status r =? 401 then rotatedUnder token else Ret false);
          Ret (Err (broker_error (statusError (rsp_status r) rotated)))
      end
  end.

(** A body read under a limit. *)
Definition read_body (r : response) (limit : Z) : option string := stake (Z.to_nat limit) <$> rsp_body r.

(** ** The typed calls *)

Section Calls.
Context {BC : BrokerCodec}.

Record BrokerSnapshot := { bs_Data : string; bs_Tip : string; bs_BaseTip : string; bs_WorkRefExists : bool; bs_AtAnchor : bool }.

Definition broker_Snapshot : bcall BrokerSnapshot :=
  resp ←? do_call "GET" brokerPathSnapshot [] "" ;
  match read_body resp (MaxArtifactBundleBytes + 2 ^ 20) with
  | None => broker_fail 0 "snapshot response is unreadable" true
  | Some data =>
      if String.eqb data "" || (MaxArtifactBundleBytes <? slen data) then broker_fail 0 "snapshot exceeds the bundle bound" false else
      let tip := header_of resp headerSnapshotTip in
      let baseTip := header_of resp headerSnapshotBaseTip in
      if negb (validOID tip) || negb (validOID baseTip) then broker_fail 0 "snapshot observation is malformed" false else
      Ret (Ok {| bs_Data := data; bs_Tip := tip; bs_BaseTip := baseTip;
                 bs_WorkRefExists := String.eqb (header_of resp headerSnapshotWorkRef) "true";
                 bs_AtAnchor := String.eqb (header_of resp headerSnapshotAtAnchor) "true" |})
  end.

Definition broker_ImportBundle (bundle proposedOID expectedTip : string) : bcall unit :=
  _ ←? do_call "POST" brokerPathImport [(headerProposedOID, proposedOID); (headerExpectedTip, expectedTip)] bundle ; Ret (Ok tt).

Definition json_body : list (string * string) := [("Content-Type", "application/json")].

Definition broker_PostStatus (patch : HarnessPatch) : bcall unit :=
  match encode_patch patch with
  | None => broker_fail 0 "status request is malformed" false
  | Some body => _ ←? do_call "POST" brokerPathStatus json_body body ; Ret (Ok tt)
  end.

Definition broker_ControlRequest : bcall (option ControlRequest) :=
  r ← do_call "GET" brokerPathControlRequest [] "";
  match r with
  | Err e => Ret (if match errors_as as_broker e with Some c => StatusCode c =? 404 | None => false end then Ok None else Err e)
  | Ok resp =>
      match read_body resp (2 ^ 16) ≫= decode_control with
      | None => broker_fail 0 "control request response is malformed" true
      | Some request =>
          if String.eqb (cr_ID request) "" then broker_fail 0 "control request response is malformed" false else Ret (Ok (Some request))
      end
  end.

Definition broker_Publish (expectedWorkOID proposedOID : string) : bcall Publication :=
  resp ←? do_call "POST" brokerPathPublish json_body (encode_publication expectedWorkOID proposedOID) ;
  match read_body resp (2 ^ 20) ≫= decode_publication with
  | None => broker_fail 0 "publication response is malformed" true
  | Some p =>
      if negb (String.eqb (pub_OID p) proposedOID) then broker_fail 0 "publication response does not match the proposal" false else Ret (Ok p)
  end.
End Calls.
