(* ===== verification/Publisher.v ===== *)
(** * The publication engine (internal/harness/publisher.go)

    Trusted control's half of publication: it seeds its tree from the broker's
    observation, renders snapshots, integrates what delegates return and asks
    the broker to publish the head of its tree, citing the work tip it expects.
    When the broker refuses, it observes the world again and decides what it can
    vouch for; it never adopts a foreign tip.

    The engine's programs run over the tree's requests and the broker's.  They
    return the engine they leave, on every path. *)

From S2P Require Import Prelude Effects GoStrings GoPath Zlib GitTransport HarnessErrors Session HarnessLedger HarnessWorld GitTree Integrator BrokerClient.
Local Open Scope string_scope.
Local Open Scope Z_scope.

(** ** Requests and state *)

(** [RetryWait] answers the error of a context that ended first. *)
Inductive pubE : Type -> Type :=
| InTree X (e : treeE X) : pubE X
| InBroker X (e : brokerCallE X) : pubE X
| RetryWait : pubE (option herror).
Arguments InTree {X} e.
Arguments InBroker {X} e.

Record PublicationEngine := {
  pe_tree : Integrator; seeded : bool; seedTip : string; seedWorkRefExist : bool; seedAtAnchor : bool; lastConfirmed : string
}.

Definition EM (A : Type) : Type := PublicationEngine -> prog pubE (PublicationEngine * result herror A).

Definition eret {A} (r : result herror A) : EM A := fun e => Ret (e, r).

(** The early return on an error. *)
Definition em_bind {A B} (p : EM A) (f : A -> EM B) : EM B :=
  fun e => r ← p e; match r.2 with Ok a => f a r.1 | Err err => Ret (r.1, Err err) end.

Notation "x ←e p ; q" := (em_bind p (fun x => q))
  (at level 20, p at level 100, q at level 200, only parsing).

Definition efail {A} (msg : string) : EM A := eret (Err (new_error msg)).

Definition with_tree (e : PublicationEngine) (t : Integrator) : PublicationEngine :=
  {| pe_tree := t; seeded := seeded e; seedTip := seedTip e; seedWorkRefExist := seedWorkRefExist e; seedAtAnchor := seedAtAnchor e;
     lastConfirmed := lastConfirmed e |}.

Definition with_confirmed (e : PublicationEngine) (oid : string) : PublicationEngine :=
  {| pe_tree := pe_tree e; seeded := seeded e; seedTip := seedTip e; seedWorkRefExist := seedWorkRefExist e; seedAtAnchor := seedAtAnchor e;
     lastConfirmed := oid |}.

(** Operations of the tree: those that only read it, and those that move its
    base tip. *)
Definition on_tree {A} (p : Integrator -> hgit A) : EM A :=
  fun e => r ← lift (@InTree) (p (pe_tree e)); Ret (e, r).

Definition on_tree_state {A} (p : Integrator -> prog treeE (Integrator * result herror A)) : EM A :=
  fun e => r ← lift (@InTree) (p (pe_tree e)); Ret (with_tree e r.1, r.2).

(** A git step with its own texts. *)
Definition git_step {A} (p : Integrator -> tree A) : Integrator -> hgit A :=
  fun t => r ← p t; match r with Ok a => Ret (Ok a) | Err m => fail m end.

(** ** Retries and failures *)

Definition publishRetryRounds : nat := 3.
Definition worldReconcileRounds : nat := 3.

(** [retried]: up to [rounds] further attempts of a retryable failure. *)
Fixpoint retrying {A} (rounds : nat) (p : bcall A) : prog pubE (result herror A) :=
  r ← lift (@InBroker) p;
  match r with
  | Ok a => Ret (Ok a)
  | Err e =>
      match rounds with
      | O => Ret (Err e)
      | S rounds =>
          if negb (isBrokerRetryable e) then Ret (Err e) else
          ended ← call RetryWait;
          match ended with Some err => Ret (Err err) | None => retrying rounds p end
      end
  end.

Definition classify (err : herror) (what : string) : herror :=
  match errors_as as_blocked err with
  | Some blocked => blocked
  | None =>
      match errors_as as_broker err with
      | Some c =>
          if negb (bc_Retryable c) && definiteWorkerRejectionStatus (StatusCode c)
          then blocked_error ("the broker denied " ++ what ++ " (" ++ Category c ++ ")") (Some err)
          else transient_error err
      | None => transient_error err
      end
  end.

(** A broker call, with its retries and the classification of its failure. *)
Definition on_broker {A} (p : bcall A) (what : string) : EM A :=
  fun e => r ← retrying publishRetryRounds p; Ret (e, match r with Ok a => Ok a | Err err => Err (classify err what) end).

(** ** The engine *)

Section Engine.
Context {BC : BrokerCodec} (inflate : list Z -> option zstream).

Definition NewPublicationEngine (baseURL : string) (t : Integrator) : result string PublicationEngine :=
  if String.eqb (TrimSpace baseURL) "" then Err "harness: publication requires a broker client" else
  if negb (rooted (it_Dir t)) then Err "harness: publication requires an integration tree" else
  Ok {| pe_tree := t; seeded := false; seedTip := ""; seedWorkRefExist := false; seedAtAnchor := false; lastConfirmed := "" |}.

Definition with_seed (e : PublicationEngine) (tip : string) (snap : BrokerSnapshot) : PublicationEngine :=
  {| pe_tree := pe_tree e; seeded := true; seedTip := tip; seedWorkRefExist := bs_WorkRefExists snap; seedAtAnchor := bs_AtAnchor snap;
     lastConfirmed := "" |}.

Definition seed : EM Snapshot :=
  snap ←e on_broker broker_Snapshot "the seed snapshot read" ;
  tip ←e on_tree_state (fun t => Seed t (bs_Data snap)) ;
  if negb (String.eqb tip (bs_Tip snap)) then efail "harness: seeded tree does not match the observed snapshot tip" else
  fun e => let e := with_seed e tip snap in
    state ← lift (@InTree) (tree_ContractState (pe_tree e) tip);
    Ret (e, Ok {| sn_Data := bs_Data snap; sn_Tip := tip; sn_BaseTip := it_baseTip (pe_tree e); ContractState := state |}).

Definition PrepareSnapshot : EM Snapshot :=
  fun e => if seeded e then on_tree Render e else seed e.

Definition evidence (state branch head remote : string) : WorkspaceSafetyEvidence :=
  {| ws_State := state; ws_Branch := branch; ws_Head := head; ws_RemoteHead := remote |}.

Definition engine_CapacityWorkspaceSafety : EM WorkspaceSafetyEvidence :=
  state ←e on_tree (git_step (fun t => WorkState (it_Dir t) (it_baseTip t))) ;
  head ←e on_tree (git_step Head) ;
  branch ←e on_tree (git_step (fun t => CurrentBranch (it_Dir t))) ;
  if String.eqb state WorkStateDirty then eret (Ok (evidence "dirty" branch head "")) else
  if negb (String.eqb state WorkStateCommitted) && negb (String.eqb state WorkStateNone) then eret (Ok (evidence "unknown" branch head "")) else
  if negb (String.eqb branch "integration") then eret (Ok (evidence "unknown" branch head "")) else
  snap ←e on_broker broker_Snapshot "the capacity workspace proof" ;
  if String.eqb state WorkStateNone then eret (Ok (evidence "empty" branch head (bs_Tip snap))) else
  if negb (bs_WorkRefExists snap) || negb (String.eqb (bs_Tip snap) head) then eret (Ok (evidence "unknown" branch head "")) else
  eret (Ok (evidence "pushed" branch head (bs_Tip snap))).

Definition engine_WorkRefBeyondAnchor : EM bool :=
  snap ←e on_broker broker_Snapshot "the work-ref observation" ;
  eret (Ok (bs_WorkRefExists snap && negb (bs_AtAnchor snap))).

Definition engine_Integrate (req : IntegrationRequest) : EM Integration := on_tree (fun t => Integrate inflate t req).

Definition expectedTip (e : PublicationEngine) : string :=
  if negb (String.eqb (lastConfirmed e) "") then lastConfirmed e else if seedWorkRefExist e then seedTip e else "".

Definition foreign_tip (live expected : string) : herror :=
  blocked_error ("the live work tip advanced beyond this run's publication evidence (live " ++ live ++ ", expected " ++ expected ++
                 "); a foreign tip is never adopted") None.

(** The base moved: merge it, or undo the merge and stop. *)
Definition resync (snap : BrokerSnapshot) (expected : string) : EM string :=
  baseTip ←e on_tree_state (fun t => RefreshBase t (bs_Data snap)) ;
  fun e =>
    merged ← lift (@InTree) (MergeBase (pe_tree e) baseTip);
    match merged with
    | Ok _ => Ret (e, Ok expected)
    | Err err =>
        aborted ← lift (@InTree) (tree_AbortMerge (pe_tree e));
        Ret (e, Err (match aborted with
                     | Err m => new_error ("harness: conflicted base re-sync could not be aborted: " ++ m)
                     | Ok _ =>
                         match err with
                         | MergeConflict paths =>
                             blocked_error ("base re-sync merge conflicts in " ++ Itoa (Z.of_nat (length paths)) ++ " path(s); resolving them is human work") None
                         | MergeFailed m => new_error ("harness: base re-sync merge failed: " ++ m)
                         end
                     end))
    end.

(** One observation of the world: the tip the next attempt must cite. *)
Definition engine_reconcile (head expected : string) : EM string :=
  snap ←e on_broker broker_Snapshot "the world observation" ;
  tips ←e on_tree (fun t => Absorb t (bs_Data snap)) ;
  let '(live, baseTip) := tips in
  if negb (String.eqb live (bs_Tip snap)) || negb (String.eqb baseTip (bs_BaseTip snap))
  then efail "harness: the world snapshot does not match the broker's claimed observation" else
  if String.eqb live head then eret (Ok live) else
  behind ←e on_tree (fun t => wrapping "harness: world ancestry check failed" (IsAncestor (it_Dir t) live head)) ;
  fun e =>
    if negb (String.eqb (bs_BaseTip snap) (it_baseTip (pe_tree e))) then
      if bs_WorkRefExists snap && negb (String.eqb live expected) && negb (String.eqb live (seedTip e))
      then Ret (e, Err (foreign_tip live expected)) else resync snap expected e
    else if behind && (String.eqb live (lastConfirmed e) || String.eqb live (seedTip e)) then Ret (e, Ok live)
    else Ret (e, Err (foreign_tip live expected)).

(** The confirmed publication is recorded. *)
Definition confirm (p : Publication) : EM Publication := fun e => Ret (with_confirmed e (pub_OID p), Ok p).

(** The head is still the seeded tip. *)
Definition publish_seeded (head bundle expected : string) : EM Publication :=
  fun e =>
    if negb (seedWorkRefExist e) || seedAtAnchor e then Ret (e, Err ErrNothingToPublish) else
    (_ ←e on_broker (broker_ImportBundle bundle head expected) "the seeded publication confirmation import" ;
     result ←e on_broker (broker_Publish expected head) "the seeded publication confirmation" ;
     confirm result) e.

(** An import and a publication; [None] when either was refused. *)
Definition offer (head bundle expected : string) : prog pubE (option Publication) :=
  imported ← retrying publishRetryRounds (broker_ImportBundle bundle head expected);
  match imported with
  | Err _ => Ret None
  | Ok _ => published ← retrying publishRetryRounds (broker_Publish expected head); Ret (match published with Ok p => Some p | Err _ => None end)
  end.

Fixpoint publish_rounds (rounds : nat) (expected : string) : EM Publication :=
  match rounds with
  | O => eret (Err (blocked_error "the live work ref did not settle across reconciliation rounds; refusing to race it" None))
  | S rounds =>
      rendered ←e on_tree PublishBundle ;
      let '(head, bundle) := rendered in
      fun e =>
        if String.eqb head (seedTip e) then publish_seeded head bundle expected e else
        published ← offer head bundle expected;
        match published with
        | Some p => confirm p e
        | None => (expected ←e engine_reconcile head expected ; publish_rounds rounds expected) e
        end
  end.

Definition engine_Publish : EM Publication :=
  fun e =>
    (_ ←e (if seeded e then eret (Ok tt) else _ ←e seed ; eret (Ok tt)) ;
     fun e => publish_rounds (S worldReconcileRounds) (expectedTip e) e) e.
End Engine.

(** ** What the traces say *)

Section Evidence.
Context {BC : BrokerCodec} (D : string).

Abbreviation tree_ran args out := (Ev (InTree (InGit (Git D [] args))) (Output out)).

(** The head of the tree was [o]. *)
Definition head_in (tr : trace pubE) (o : string) : Prop := exists out, tree_ran ["rev-parse"; "HEAD"] out ∈ tr /\ o = ToLower (TrimSpace out).

(** The integration branch was seeded at [o]. *)
Definition seed_in (tr : trace pubE) (o : string) : Prop := exists out, tree_ran ["update-ref"; "--no-deref"; integrationBranch; o] out ∈ tr.

(** The broker confirmed the publication of [o]. *)
Definition confirmed_in (tr : trace pubE) (o : string) : Prop :=
  exists token expected resp p,
    Ev (InBroker (Exchange "POST" brokerPathPublish token json_body (encode_publication expected o))) (Some resp) ∈ tr /\
    okStatus (rsp_status resp) = true /\ read_body resp (2 ^ 20) ≫= decode_publication = Some p /\ pub_OID p = o.

(** The broker observed that the work ref does not exist. *)
Definition absent_in (tr : trace pubE) : Prop :=
  exists token resp, Ev (InBroker (Exchange "GET" brokerPathSnapshot token [] "")) (Some resp) ∈ tr /\
    okStatus (rsp_status resp) = true /\ header_of resp headerSnapshotWorkRef <> "true".

(** A tip this engine can vouch for. *)
Definition vouched (tr : trace pubE) (expected : string) : Prop :=
  (expected = "" /\ absent_in tr) \/ seed_in tr expected \/ confirmed_in tr expected \/ head_in tr expected.

(** A request that asks the broker to take a commit. *)
Definition is_offer (ev : event pubE) : bool :=
  match ev_op ev with
  | InBroker (Exchange _ path _ _ _) => String.eqb path brokerPathImport || String.eqb path brokerPathPublish
  | _ => false
  end.

Inductive offers (expected head : string) : event pubE -> Prop :=
| offers_import token bundle resp :
    offers expected head (Ev (InBroker (Exchange "POST" brokerPathImport token [(headerProposedOID, head); (headerExpectedTip, expected)] bundle)) resp)
| offers_publish token resp :
    offers expected head (Ev (InBroker (Exchange "POST" brokerPathPublish token json_body (encode_publication expected head))) resp).

(** Every offer is of a head of the tree, citing a tip the engine can vouch
    for, by what happened before it. *)
Definition sound (before : trace pubE) (tr : trace pubE) : Prop :=
  forall t1 ev t2, tr = (t1 ++ ev :: t2)%list -> is_offer ev = true ->
    exists expected head, offers expected head ev /\ head_in (before ++ t1)%list head /\ vouched (before ++ t1)%list expected.

Lemma vouched_mono t t' x : vouched t x -> vouched (t ++ t')%list x.
Proof.
  intros [(-> & tok & resp & Hin & Ho & Hh)|[(out & Hin)|[(tok & ex & resp & p & Hin & H)|(out & Hin & ->)]]].
  - left. split; [done|]. exists tok, resp. split; [|done]. apply elem_of_app. by left.
  - right. left. exists out. apply elem_of_app. by left.
  - right. right. left. exists tok, ex, resp, p. split; [|done]. apply elem_of_app. by left.
  - right. right. right. exists out. split; [|done]. apply elem_of_app. by left.
Qed.

Lemma head_in_mono t t' x : head_in t x -> head_in (t ++ t')%list x.
Proof. intros (out & Hin & ->). exists out. split; [|done]. apply elem_of_app. by left. Qed.

Lemma sound_quiet t0 t : Forall (fun ev => is_offer ev = false) t -> sound t0 t.
Proof.
  intros Hq t1 ev t2 -> Hev. apply Forall_app in Hq as [_ Hq]. apply Forall_cons in Hq as [Hq _]. congruence.
Qed.

Lemma sound_app t0 t t' : sound t0 t -> sound (t0 ++ t)%list t' -> sound t0 (t ++ t')%list.
Proof.
  intros H H' t1 ev t2 Heq Hev. apply app_eq_inv in Heq as [(k & -> & Hk)|(k & -> & Hk)].
  - destruct k as [|x k]; cbn [app] in Hk.
    + destruct (H' [] ev t2) as (ex & hd & Hof & Hh & Hv); [by rewrite <- Hk|done|]. exists ex, hd. rewrite !app_nil_r in *. done.
    + injection Hk as <- ->. by apply (H _ _ _ eq_refl).
  - destruct (H' k ev t2 Hk Hev) as (ex & hd & ?). exists ex, hd. by rewrite app_assoc.
Qed.

(** Offers of one proposal that may be made. *)
Lemma sound_offers t0 t expected head :
  head_in t0 head -> vouched t0 expected -> Forall (fun ev => is_offer ev = true -> offers expected head ev) t -> sound t0 t.
Proof.
  intros Hh Hv Ht t1 ev t2 -> Hev. apply Forall_app in Ht as [_ Ht]. apply Forall_cons in Ht as [Ht _].
  exists expected, head. split; [by apply Ht|]. split; [by apply head_in_mono|by apply vouched_mono].
Qed.

(** What the engine remembers is in the trace. *)
Record remembers (tr : trace pubE) (e : PublicationEngine) : Prop := {
  rm_dir : it_Dir (pe_tree e) = D;
  rm_confirmed : lastConfirmed e = "" \/ confirmed_in tr (lastConfirmed e);
  rm_seed : seeded e = true -> seed_in tr (seedTip e) /\ (seedWorkRefExist e = false -> absent_in tr)
}.

Lemma remembers_mono t t' e : remembers t e -> remembers (t ++ t')%list e.
Proof.
  intros [H1 H2 H3]. constructor; [done| |].
  - destruct H2 as [H2|(tok & ex & resp & p & Hin & H2)]; [by left|]. right. exists tok, ex, resp, p. split; [|done]. apply elem_of_app. by left.
  - intros Hs. destruct (H3 Hs) as [(out & Hin) Ha]. split; [exists out; apply elem_of_app; by left|]. intros Hw.
    destruct (Ha Hw) as (tok & resp & Hin' & H'). exists tok, resp. split; [|done]. apply elem_of_app. by left.
Qed.

(** *** Programs of the engine *)

(** From a trace and an engine that remembers it: offers are sound, the engine
    remembers, and [Q] holds of a value. *)
Definition safely {A} (t0 : trace pubE) (e : PublicationEngine) (p : EM A) (Q : trace pubE -> PublicationEngine -> A -> Prop) : Prop :=
  remembers t0 e -> forall t e' r, exec (p e) t (e', r) -> sound t0 t /\ remembers (t0 ++ t)%list e' /\ on_ok (Q (t0 ++ t)%list e') r.

Lemma safely_ret {A} t0 e (r : result herror A) Q : on_ok (Q t0 e) r -> safely t0 e (eret r) Q.
Proof. intros H Hr t e' r' [-> [= -> ->]]. rewrite app_nil_r. split; [by apply sound_quiet|done]. Qed.

Lemma safely_bind {A B} t0 e (p : EM A) (f : A -> EM B) Q R :
  safely t0 e p Q -> (forall t e' a, Q t e' a -> safely t e' (f a) R) -> safely t0 e (em_bind p f) R.
Proof.
  intros Hp Hf Hr t e' r Hex. unfold em_bind in Hex. apply exec_bind in Hex as (t1 & t2 & [e1 [a|err]] & -> & H1 & H2); cbn [fst snd] in H2.
  - destruct (Hp Hr _ _ _ H1) as (Hs & Hm & HQ). destruct (Hf _ _ _ HQ Hm _ _ _ H2) as (Hs' & Hm' & HR).
    rewrite <- app_assoc in Hm', HR. split; [by apply sound_app|done].
  - apply exec_mret in H2 as [-> [= -> ->]]. destruct (Hp Hr _ _ _ H1) as (Hs & Hm & _). by rewrite app_nil_r.
Qed.

(** An engine that returns at once. *)
Lemma safely_stop {A} t0 e (r0 : result herror A) t e' r (Q : trace pubE -> PublicationEngine -> A -> Prop) :
  remembers t0 e -> exec (Ret (e, r0)) t (e', r) -> on_ok (Q t0 e) r0 -> sound t0 t /\ remembers (t0 ++ t)%list e' /\ on_ok (Q (t0 ++ t)%list e') r.
Proof. intros Hr [-> [= -> ->]] HQ. rewrite app_nil_r. split; [by apply sound_quiet|done]. Qed.

Lemma safely_with {A} t0 e (p : EM A) Q : (remembers t0 e -> safely t0 e p Q) -> safely t0 e p Q.
Proof. intros H Hr. by apply H. Qed.

Lemma safely_weaken {A} t0 e (p : EM A) (Q R : trace pubE -> PublicationEngine -> A -> Prop) :
  (forall t e' a, Q t e' a -> R t e' a) -> safely t0 e p Q -> safely t0 e p R.
Proof. intros H Hp Hr t e' r Hex. destruct (Hp Hr _ _ _ Hex) as (? & ? & HQ). split_and!; try done. destruct r; [by apply H|done]. Qed.

Lemma lift_tree_quiet {A} (p : prog treeE A) t a : exec (lift (@InTree) p) t a -> Forall (fun ev => is_offer ev = false) t.
Proof. intros (u & -> & _)%lift_exec. apply Forall_fmap, Forall_forall. done. Qed.

(** A step of the tree: what its own trace shows. *)
Lemma safely_tree {A} t0 e (p : Integrator -> hgit A) (Q : trace pubE -> PublicationEngine -> A -> Prop) :
  (forall u a, exec (p (pe_tree e)) u (Ok a) -> Q (t0 ++ (inj_event (@InTree) <$> u))%list e a) -> safely t0 e (on_tree p) Q.
Proof.
  intros HQ Hr t e' r Hex. unfold on_tree in Hex. ebind Hex as x t1 H1. apply exec_mret in Hex as [-> [= -> ->]]. rewrite app_nil_r.
  split; [by eapply sound_quiet, lift_tree_quiet|]. split; [by apply remembers_mono|]. apply lift_exec in H1 as (u & -> & Hu).
  destruct x; [by apply HQ|done].
Qed.

Lemma safely_tree_state {A} t0 e (p : Integrator -> prog treeE (Integrator * result herror A)) (Q : trace pubE -> PublicationEngine -> A -> Prop) :
  (forall u t' r, exec (p (pe_tree e)) u (t', r) -> it_Dir t' = it_Dir (pe_tree e) /\
     on_ok (Q (t0 ++ (inj_event (@InTree) <$> u))%list (with_tree e t')) r) -> safely t0 e (on_tree_state p) Q.
Proof.
  intros HQ Hr t e' r Hex. unfold on_tree_state in Hex. ebind Hex as x t1 H1. apply exec_mret in Hex as [-> [= -> ->]]. rewrite app_nil_r.
  split; [by eapply sound_quiet, lift_tree_quiet|]. apply lift_exec in H1 as (u & -> & Hu). destruct x as [t' x]. destruct (HQ _ _ _ Hu) as [Hd Hx].
  split; [|done]. apply (remembers_mono _ (inj_event (@InTree) <$> u)) in Hr as [R1 R2 R3]. constructor; cbn; [congruence|done|done].
Qed.

(** *** Broker calls *)

(** The exchange of a call that succeeded is in its trace. *)
Lemma do_call_ok method path headers body u resp : exec (do_call method path headers body) u (Ok resp) ->
  exists token, Ev (Exchange method path token headers body) (Some resp) ∈ u /\ okStatus (rsp_status resp) = true.
Proof.
  unfold do_call. intros H. ebind H as token t1 Ht. destruct token as [token|]; [|by destruct H]. ecall H as usable. destruct usable; [|by destruct H].
  ecall H as built. destruct built; [|by destruct H]. ecall H as r. destruct r as [r|]; [|by destruct H]. destruct (okStatus _) eqn:Hok.
  - apply exec_mret in H as [-> [= ->]]. exists token. split; [|done]. apply elem_of_app. right. do 2 right. by left.
  - ebind H as rot t2 Hrot. by destruct H.
Qed.

(** The exchanges of a call are its own. *)
Definition own (method path : string) (headers : list (string * string)) (body : string) (ev : event brokerCallE) : Prop :=
  match ev_op ev with Exchange m p _ h b => m = method /\ p = path /\ h = headers /\ b = body | _ => True end.

Lemma own_token {A} m p h b (k : option string -> prog brokerCallE A) :
  (forall x, guarded (own m p h b) (k x) (fun _ => True)) -> guarded (own m p h b) (BrokerToken ≫= k) (fun _ => True).
Proof. intros Hk. apply guarded_call; [done|]. intros x. apply Hk. Qed.

Lemma do_call_own method path headers body : guarded (own method path headers body) (do_call method path headers body) (fun _ => True).
Proof.
  unfold do_call. apply own_token. intros [token|]; [|by apply guarded_ret]. apply guarded_call; [done|]. intros []; [|by apply guarded_ret].
  apply guarded_call; [done|]. intros []; [|by apply guarded_ret]. apply guarded_call; [done|]. intros [r|]; [|by apply guarded_ret].
  destruct (okStatus _); [by apply guarded_ret|]. eapply (guarded_bind _ _ _ (fun _ => True)).
  - destruct (_ =? 401); [|by apply guarded_ret]. apply own_token. intros x. by apply guarded_ret.
  - intros rot _. by apply guarded_ret.
Qed.

(** A typed call: its exchange, then a reading of the response. *)
Lemma call_own {A} m p h b (f : response -> bcall A) :
  (forall r, exists x, f r = Ret x) -> guarded (own m p h b) (bind_err (do_call m p h b) f) (fun _ => True).
Proof.
  intros Hf. eapply guarded_bind; [apply do_call_own|]. intros [r|e] _; [|by apply guarded_ret]. destruct (Hf r) as [x ->]. by apply guarded_ret.
Qed.

Lemma snapshot_own : guarded (own "GET" brokerPathSnapshot [] "") broker_Snapshot (fun _ => True).
Proof. apply call_own. intros r. unfold broker_fail. repeat case_match; eauto. Qed.

Lemma import_own bundle head expected :
  guarded (own "POST" brokerPathImport [(headerProposedOID, head); (headerExpectedTip, expected)] bundle) (broker_ImportBundle bundle head expected) (fun _ => True).
Proof. apply call_own. eauto. Qed.

Lemma publish_own expected head : guarded (own "POST" brokerPathPublish json_body (encode_publication expected head)) (broker_Publish expected head) (fun _ => True).
Proof. apply call_own. intros r. unfold broker_fail. repeat case_match; eauto. Qed.

(** Retrying repeats the call. *)
Definition on_call (P : event brokerCallE -> Prop) (ev : event pubE) : Prop :=
  match ev_op ev in pubE X return X -> Prop with
  | InBroker e => fun x => P (Ev e x)
  | InTree _ => fun _ => False
  | RetryWait => fun _ => True
  end (ev_ans ev).

Lemma retrying_own {A} rounds (p : bcall A) P : guarded P p (fun _ => True) -> guarded (on_call P) (retrying rounds p) (fun _ => True).
Proof.
  intros Hp. assert (Hl : guarded (on_call P) (lift (@InBroker) p) (fun _ => True)).
  { apply guarded_lift. eapply wp_mono; [|exact Hp]. intros t a [Ht _]. split; [|done]. eapply Forall_impl; [exact Ht|]. by intros [X op x]. }
  induction rounds as [|rounds IH]; cbn [retrying]; (eapply guarded_bind; [exact Hl|]); (intros [a|e] _; [by apply guarded_ret|]); [by apply guarded_ret|].
  destruct (negb _); [by apply guarded_ret|]. apply guarded_call; [done|]. intros [err|]; [by apply guarded_ret|exact IH].
Qed.

(** A success is a success of one of the calls. *)
Lemma retrying_ok {A} rounds (p : bcall A) t a : exec (retrying rounds p) t (Ok a) ->
  exists u, exec p u (Ok a) /\ forall ev, ev ∈ u -> inj_event (@InBroker) ev ∈ t.
Proof.
  assert (Hlift : forall t1 r, exec (lift (@InBroker) p) t1 r -> exists u, t1 = inj_event (@InBroker) <$> u /\ exec p u r).
  { intros t1 r H. by apply lift_exec in H. }
  revert t. induction rounds as [|rounds IH]; intros t H; cbn [retrying] in H; ebind H as r t1 H1;
    (apply Hlift in H1 as (u & -> & Hu); destruct r as [b|e]; [apply exec_mret in H as [-> [= ->]]; exists u; split; [done|];
      intros ev Hin; apply elem_of_app; left; by apply list_elem_of_fmap_2|]); [by destruct H|].
  destruct (negb _); [by destruct H|]. ecall H as ended. destruct ended; [by destruct H|]. apply IH in H as (u' & Hu' & Hin). exists u'. split; [done|].
  intros ev He. apply elem_of_app. right. apply elem_of_app. right. by apply Hin.
Qed.

Lemma own_quiet m p h b (ev : event pubE) : String.eqb p brokerPathImport || String.eqb p brokerPathPublish = false ->
  on_call (own m p h b) ev -> is_offer ev = false.
Proof. intros Hp. destruct ev as [X op x]. destruct op as [X e|X e|]; [done| |done]. destruct e; try done. intros (_ & -> & _). exact Hp. Qed.

Lemma own_import expected head bundle (ev : event pubE) :
  on_call (own "POST" brokerPathImport [(headerProposedOID, head); (headerExpectedTip, expected)] bundle) ev -> is_offer ev = true -> offers expected head ev.
Proof. destruct ev as [X op x]. destruct op as [X e|X e|]; [done| |done]. destruct e; try done. intros (-> & -> & -> & ->) _. constructor. Qed.

Lemma own_publish expected head (ev : event pubE) :
  on_call (own "POST" brokerPathPublish json_body (encode_publication expected head)) ev -> is_offer ev = true -> offers expected head ev.
Proof. destruct ev as [X op x]. destruct op as [X e|X e|]; [done| |done]. destruct e; try done. intros (-> & -> & -> & ->) _. constructor. Qed.

Lemma snapshot_ok u snap : exec broker_Snapshot u (Ok snap) ->
  validOID (bs_Tip snap) = true /\
  exists token resp, Ev (Exchange "GET" brokerPathSnapshot token [] "") (Some resp) ∈ u /\ okStatus (rsp_status resp) = true /\
    bs_Tip snap = header_of resp headerSnapshotTip /\
    bs_WorkRefExists snap = String.eqb (header_of resp headerSnapshotWorkRef) "true".
Proof.
  unfold broker_Snapshot. intros H. eok H as resp t1 H1. apply do_call_ok in H1 as (token & Hin & Hok).
  destruct (read_body _ _); [|by destruct H]. destruct (_ || _); [by destruct H|]. destruct (validOID (header_of resp headerSnapshotTip)) eqn:Hv; [|by destruct H].
  cbn [negb orb] in H. destruct (negb _); [by destruct H|]. apply exec_mret in H as [-> [= ->]]. split; [done|]. exists token, resp.
  split; [|done]. apply elem_of_app. by left.
Qed.

Lemma publish_ok u expected head p : exec (broker_Publish expected head) u (Ok p) ->
  pub_OID p = head /\ exists token resp, Ev (Exchange "POST" brokerPathPublish token json_body (encode_publication expected head)) (Some resp) ∈ u /\
    okStatus (rsp_status resp) = true /\ read_body resp (2 ^ 20) ≫= decode_publication = Some p.
Proof.
  unfold broker_Publish. intros H. eok H as resp t1 H1. apply do_call_ok in H1 as (token & Hin & Hok).
  destruct (_ ≫= _) as [q|] eqn:Hq; [|by destruct H]. destruct (String.eqb_spec (pub_OID q) head); [|by destruct H]. cbn [negb] in H.
  apply exec_mret in H as [-> [= ->]]. split; [done|]. exists token, resp. split; [apply elem_of_app; by left|done].
Qed.

Lemma confirmed_publish t0 t u expected head p :
  exec (broker_Publish expected head) u (Ok p) -> (forall ev, ev ∈ u -> inj_event (@InBroker) ev ∈ t) -> pub_OID p = head /\ confirmed_in (t0 ++ t)%list head.
Proof.
  intros (Hp & token & resp & Hin & Hok & Hd)%publish_ok Hsub. split; [done|]. exists token, expected, resp, p. split; [|done].
  apply elem_of_app. right. by apply Hsub in Hin.
Qed.

(** A broker call of the engine. *)
Lemma safely_broker {A} t0 e (p : bcall A) what P (Q : trace pubE -> PublicationEngine -> A -> Prop) :
  guarded P p (fun _ => True) -> (forall t, Forall (on_call P) t -> sound t0 t) ->
  (forall t u a, exec p u (Ok a) -> (forall ev, ev ∈ u -> inj_event (@InBroker) ev ∈ t) -> Q (t0 ++ t)%list e a) ->
  safely t0 e (on_broker p what) Q.
Proof.
  intros HP Hs HQ Hr t e' r Hex. unfold on_broker in Hex. ebind Hex as x t1 H1. apply exec_mret in Hex as [-> [= -> ->]]. rewrite app_nil_r.
  destruct (guarded_exec _ _ _ _ _ (retrying_own publishRetryRounds p P HP) H1) as [Hall _].
  split; [by apply Hs|]. split; [by apply remembers_mono|]. destruct x as [a|err]; [|done]. apply retrying_ok in H1 as (u & Hu & Hin). by eapply HQ.
Qed.

Lemma safely_snapshot t0 e what : safely t0 e (on_broker broker_Snapshot what)
  (fun t e' snap => e' = e /\ validOID (bs_Tip snap) = true /\ (bs_WorkRefExists snap = false -> absent_in t)).
Proof.
  eapply safely_broker; [apply snapshot_own| |].
  - intros t H. apply sound_quiet. eapply Forall_impl; [exact H|]. intros ev. by apply own_quiet.
  - intros t u snap (Hv & token & resp & Hin & Hok & _ & Hw)%snapshot_ok Hsub. split; [done|]. split; [done|]. intros Hf. exists token, resp.
    split; [apply elem_of_app; right; by apply Hsub in Hin|]. split; [done|]. rewrite Hw in Hf. by apply String.eqb_neq.
Qed.

Lemma safely_import t0 e what bundle head expected : head_in t0 head -> vouched t0 expected ->
  safely t0 e (on_broker (broker_ImportBundle bundle head expected) what) (fun t e' _ => e' = e /\ exists k, t = (t0 ++ k)%list).
Proof.
  intros Hh Hv. eapply safely_broker; [apply import_own| |].
  - intros t H. eapply (sound_offers t0 t expected head); try done. eapply Forall_impl; [exact H|]. intros ev. apply own_import.
  - intros t u a _ _. split; [done|]. by exists t.
Qed.

Lemma safely_publish t0 e what head expected : head_in t0 head -> vouched t0 expected ->
  safely t0 e (on_broker (broker_Publish expected head) what) (fun t e' p => e' = e /\ pub_OID p = head /\ confirmed_in t head /\ head_in t head).
Proof.
  intros Hh Hv. eapply safely_broker; [apply publish_own| |].
  - intros t H. eapply (sound_offers t0 t expected head); try done. eapply Forall_impl; [exact H|]. intros ev. apply own_publish.
  - intros t u a Hu Hsub. destruct (confirmed_publish t0 t _ _ _ _ Hu Hsub). split_and!; try done. by apply head_in_mono.
Qed.

(** *** The tree's operations *)

Lemma update_ref_ok dir ref oid u : exec (in_tree (UpdateRef dir ref oid)) u (Ok tt) -> exists out, u = [ran dir ["update-ref"; "--no-deref"; ref; oid] out].
Proof.
  intros (v & -> & H)%lift_exec. unfold UpdateRef in H. destruct (negb _); [by destruct H|]. eok H as o t1 H1. apply exec_mret in H as [-> _].
  unfold brokerGitRun in H1. ecall H1 as a. destruct a as [out| |]; apply exec_mret in H1 as [-> Hq]; try discriminate Hq. by exists out.
Qed.

Lemma head_ok t u o : exec (Head t) u (Ok o) -> exists out, ran (it_Dir t) ["rev-parse"; "HEAD"] out ∈ u /\ o = ToLower (TrimSpace out).
Proof. intros (a & -> & H)%exec_head. destruct (H o eq_refl) as (out & -> & -> & _). exists out. split; [by left|done]. Qed.

Lemma publish_bundle_ok t u head data : exec (PublishBundle t) u (Ok (head, data)) ->
  exists out, ran (it_Dir t) ["rev-parse"; "HEAD"] out ∈ u /\ head = ToLower (TrimSpace out).
Proof.
  unfold PublishBundle. intros H. eok H as h t1 H1. apply exec_wrapping_ok, head_ok in H1 as (out & Hin & ->). eok H as d t2 H2. eok H as v t3 H3.
  eok H as b t4 H4. apply exec_mret in H as [-> [= -> ->]]. exists out. split; [|done]. apply elem_of_app. by left.
Qed.

Lemma Seed_ok t bundle u t' r : exec (Seed t bundle) u (t', r) ->
  it_Dir t' = it_Dir t /\ (forall tip, r = Ok tip -> exists out, ran (it_Dir t) ["update-ref"; "--no-deref"; integrationBranch; tip] out ∈ u).
Proof.
  unfold Seed. intros H. ebind H as x t1 H1. apply exec_mret in H as [-> Heq]. destruct x as [[w b]|err]; injection Heq as -> ->; [|done].
  split; [done|]. intros tip [= <-]. rewrite app_nil_r. destruct (String.eqb bundle ""); [by destruct H1|]. destruct (_ <? _); [by destruct H1|].
  ecall H1 as made. destruct made; [|by destruct H1]. cbn [negb] in H1. eok H1 as o t2 H2. eok H1 as st t3 H3. destruct st as [dir path].
  eok H1 as tips t4 H4. destruct tips as [w' b']. eok H1 as v t5 H5. apply exec_mret in H1 as [-> [= -> ->]].
  unfold select_branch in H5. eok H5 as v1 u1 G1. destruct v1. apply exec_wrapping_ok, update_ref_ok in G1 as [out ->]. exists out.
  do 4 (apply elem_of_app; right). apply elem_of_app. left. by left.
Qed.

Lemma RefreshBase_dir t bundle u t' r : exec (RefreshBase t bundle) u (t', r) -> it_Dir t' = it_Dir t.
Proof. unfold RefreshBase. intros H. ebind H as x t1 H1. apply exec_mret in H as [_ Heq]. by destruct x; injection Heq as -> _. Qed.

Lemma in_tree_event t0 (u : trace treeE) ev : ev ∈ u -> inj_event (@InTree) ev ∈ (t0 ++ (inj_event (@InTree) <$> u))%list.
Proof. intros H. apply elem_of_app. right. by apply list_elem_of_fmap_2. Qed.

(** *** The engine's operations *)

Lemma safely_seed t0 e : safely t0 e seed (fun t e' _ => seeded e' = true).
Proof.
  unfold seed. eapply safely_bind; [apply safely_snapshot|]. intros t1 e1 snap (-> & _ & Hab).
  eapply (safely_bind _ _ _ _ (fun t e' tip => seed_in t tip /\ absent_in t \/ seed_in t tip /\ bs_WorkRefExists snap = true)).
  - apply safely_with. intros Hr. apply safely_tree_state. intros u t' r Hex. apply Seed_ok in Hex as [Hd Htip]. split; [done|]. destruct r as [tip|]; [|done].
    destruct (Htip _ eq_refl) as [out Hin]. rewrite (rm_dir _ _ Hr) in Hin. assert (Hs : seed_in (t1 ++ (inj_event (@InTree) <$> u))%list tip).
    { exists out. exact (in_tree_event t1 u _ Hin). }
    cbn. destruct (bs_WorkRefExists snap) eqn:Hw; [by right|]. left. split; [done|]. destruct (Hab eq_refl) as (tok & resp & Hin' & H'). exists tok, resp.
    split; [apply elem_of_app; by left|done].
  - intros t2 e2 tip Hseed. destruct (negb _); [by apply safely_ret|]. intros Hr t e' r Hex. ebind Hex as state t3 H3. apply exec_mret in Hex as [-> [= -> ->]].
    rewrite app_nil_r. split; [by eapply sound_quiet, lift_tree_quiet|]. split; [|done]. apply remembers_mono. destruct Hr as [R1 _ _].
    constructor; cbn; [done|by left|]. intros _. destruct Hseed as [[Hs Ha]|[Hs Hw]]; split; try done. intros H. congruence.
Qed.

Lemma expectedTip_vouched t e : remembers t e -> seeded e = true -> vouched t (expectedTip e).
Proof.
  intros [_ Hc Hs] Hseed. destruct (Hs Hseed) as [H1 H2]. unfold expectedTip. destruct (String.eqb_spec (lastConfirmed e) "") as [|Hne]; cbn [negb].
  - destruct (seedWorkRefExist e); [by right; left|]. left. split; [done|]. by apply H2.
  - destruct Hc as [|Hc]; [done|]. by right; right; left.
Qed.

(** The tip a reconciliation returns can be vouched for. *)
Lemma safely_resync t0 e snap expected : vouched t0 expected -> seeded e = true ->
  safely t0 e (resync snap expected) (fun t e' x => vouched t x /\ seeded e' = true).
Proof.
  intros Hv Hs. unfold resync. eapply (safely_bind _ _ _ _ (fun t e' _ => vouched t expected /\ seeded e' = true)).
  - apply safely_tree_state. intros u t' r Hex. split; [by eapply RefreshBase_dir|]. destruct r; [|done]. cbn. split; [by apply vouched_mono|done].
  - intros t1 e1 baseTip [Hv1 Hs1] Hr t e' r Hex. ebind Hex as merged u1 H1. apply lift_tree_quiet in H1. destruct merged as [m|err].
    + apply exec_mret in Hex as [-> [= -> ->]]. rewrite app_nil_r. split; [by apply sound_quiet|]. split; [by apply remembers_mono|]. cbn.
      split; [by apply vouched_mono|done].
    + ebind Hex as aborted u2 H2. apply lift_tree_quiet in H2. apply exec_mret in Hex as [-> [= -> ->]]. rewrite app_nil_r.
      split; [apply sound_quiet, Forall_app; done|]. split; [by apply remembers_mono|done].
Qed.

Lemma safely_reconcile t0 e head expected : head_in t0 head -> vouched t0 expected -> seeded e = true ->
  safely t0 e (engine_reconcile head expected) (fun t e' x => vouched t x /\ seeded e' = true).
Proof.
  intros Hh Hv Hs. unfold engine_reconcile.
  eapply (safely_bind _ _ _ _ (fun t e' snap => e' = e /\ validOID (bs_Tip snap) = true /\ head_in t head /\ vouched t expected)).
  { intros Hr t e' r Hex. destruct (safely_snapshot t0 e _ Hr t e' r Hex) as (H1 & H2 & H3). split_and!; try done. destruct r; [|done].
    destruct H3 as (-> & Ht & _). split_and!; [done|done|by apply head_in_mono|by apply vouched_mono]. }
  intros t1 e1 snap (-> & Hok & Hh1 & Hv1).
  eapply (safely_bind _ _ _ _ (fun t e' _ => e' = e /\ head_in t head /\ vouched t expected)).
  { apply safely_tree. intros u a _. split_and!; [done|by apply head_in_mono|by apply vouched_mono]. }
  intros t2 e2 [live baseTip] (-> & Hh2 & Hv2). destruct (String.eqb_spec live (bs_Tip snap)) as [->|]; [|by apply safely_ret]. cbn [negb orb].
  destruct (negb _); [by apply safely_ret|]. destruct (String.eqb_spec (bs_Tip snap) head) as [->|].
  { apply safely_ret. cbn. split; [by right; right; right|done]. }
  eapply (safely_bind _ _ _ _ (fun t e' _ => e' = e /\ vouched t expected)).
  { apply safely_tree. intros u a _. split; [done|by apply vouched_mono]. }
  intros t3 e3 behind [-> Hv3] Hr t e' r Hex. destruct (negb _).
  { destruct (_ && _ && _); [by apply (safely_stop _ _ _ _ _ _ (fun t e' x => vouched t x /\ seeded e' = true) Hr Hex)|]. by apply (safely_resync t3 e snap expected Hv3 Hs Hr). }
  destruct (behind && _) eqn:Hb; [|by apply (safely_stop _ _ _ _ _ _ (fun t e' x => vouched t x /\ seeded e' = true) Hr Hex)].
  apply (safely_stop _ _ _ _ _ _ (fun t e' x => vouched t x /\ seeded e' = true) Hr Hex). cbn. split; [|done].
  apply andb_true_iff in Hb as [_ [Hb|Hb]%orb_true_iff]; apply String.eqb_eq in Hb.
  - destruct (rm_confirmed _ _ Hr) as [Hc|Hc]; [|right; right; left; by rewrite Hb]. rewrite Hc in Hb. rewrite Hb in Hok. vm_compute in Hok. done.
  - destruct (rm_seed _ _ Hr Hs) as [H _]. right. left. by rewrite Hb.
Qed.

(** The result of a publication: confirmed, and a head of the tree. *)
Abbreviation published := (fun t e p => confirmed_in t (pub_OID p) /\ head_in t (pub_OID p) /\ lastConfirmed e = pub_OID p).

Lemma safely_confirm t0 e p : confirmed_in t0 (pub_OID p) -> head_in t0 (pub_OID p) -> safely t0 e (confirm p) published.
Proof.
  intros Hc Hh [R1 R2 R3] t e' r [-> [= -> ->]]. rewrite app_nil_r. split; [by apply sound_quiet|]. split; [|done]. constructor; cbn; [done|by right|done].
Qed.

Lemma safely_seeded t0 e head bundle expected : head_in t0 head -> vouched t0 expected ->
  safely t0 e (publish_seeded head bundle expected) published.
Proof.
  intros Hh Hv Hr t e' r Hex. unfold publish_seeded in Hex. destruct (_ || _); [by apply (safely_stop _ _ _ _ _ _ published Hr Hex)|].
  refine (safely_bind t0 e _ _ _ published (safely_import t0 e _ bundle head expected Hh Hv) _ Hr t e' r Hex). intros t1 e1 u (-> & k & ->).
  eapply safely_bind; [apply safely_publish; [by apply head_in_mono|by apply vouched_mono]|]. intros t2 e2 p (-> & <- & Hc & Hh2). by apply safely_confirm.
Qed.

Lemma offer_sound t0 t head bundle expected o : head_in t0 head -> vouched t0 expected -> exec (offer head bundle expected) t o ->
  sound t0 t /\ (forall p, o = Some p -> pub_OID p = head /\ confirmed_in (t0 ++ t)%list head).
Proof.
  intros Hh Hv H. unfold offer in H. ebind H as imported t1 H1.
  destruct (guarded_exec _ _ _ _ _ (retrying_own publishRetryRounds _ _ (import_own bundle head expected)) H1) as [Hi _].
  assert (Hs1 : sound t0 t1).
  { eapply (sound_offers t0 t1 expected head); try done. eapply Forall_impl; [exact Hi|]. intros ev. apply own_import. }
  destruct imported; [|apply exec_mret in H as [-> ->]; by rewrite app_nil_r]. ebind H as pub t2 H2. apply exec_mret in H as [-> ->]. rewrite app_nil_r.
  destruct (guarded_exec _ _ _ _ _ (retrying_own publishRetryRounds _ _ (publish_own expected head)) H2) as [Hp _]. split.
  - apply sound_app; [done|]. eapply (sound_offers _ t2 expected head); [by apply head_in_mono|by apply vouched_mono|].
    eapply Forall_impl; [exact Hp|]. intros ev. apply own_publish.
  - intros p Hpub. destruct pub as [p'|]; [|done]. injection Hpub as ->. apply retrying_ok in H2 as (u & Hu & Hsub).
    rewrite app_assoc. by eapply confirmed_publish.
Qed.

Lemma safely_rounds rounds t0 e expected : vouched t0 expected -> seeded e = true -> safely t0 e (publish_rounds rounds expected) published.
Proof.
  revert t0 e expected. induction rounds as [|rounds IH]; intros t0 e expected Hv Hs; cbn [publish_rounds]; [by apply safely_ret|].
  eapply (safely_bind _ _ _ _ (fun t e' r => e' = e /\ head_in t r.1 /\ vouched t expected)).
  { apply safely_with. intros Hr. apply safely_tree. intros u [head data] (out & Hin & ->)%publish_bundle_ok. split; [done|]. split; [|by apply vouched_mono].
    rewrite (rm_dir _ _ Hr) in Hin. exists out. split; [exact (in_tree_event t0 u _ Hin)|done]. }
  intros t1 e1 [head bundle] (-> & Hh & Hv1). cbn [fst] in Hh. intros Hr t e' r Hex. destruct (String.eqb head (seedTip e)).
  { by apply (safely_seeded t1 e head bundle expected Hh Hv1 Hr). }
  ebind Hex as pub u1 H1. destruct (offer_sound t1 u1 head bundle expected pub Hh Hv1 H1) as [Hs1 Hp].
  apply (remembers_mono _ u1) in Hr. assert (H : sound (t1 ++ u1)%list rest /\ remembers ((t1 ++ u1) ++ rest)%list e' /\ on_ok (published ((t1 ++ u1) ++ rest)%list e') r).
  { destruct pub as [p|].
    - destruct (Hp p eq_refl) as [<- Hc]. refine (safely_confirm _ e p _ _ Hr _ _ _ Hex); [done|]. by apply head_in_mono.
    - refine (safely_bind _ e _ _ _ published (safely_reconcile _ e head expected _ _ Hs) _ Hr _ _ _ Hex); [by apply head_in_mono|by apply vouched_mono|].
      intros t2 e2 x [Hx Hs2]. by apply IH. }
  rewrite <- app_assoc in H. split; [apply sound_app; tauto|tauto].
Qed.

Lemma safely_Publish t0 e : safely t0 e engine_Publish published.
Proof.
  intros Hr t e' r Hex. unfold engine_Publish in Hex. refine (safely_bind t0 e _ _ (fun t e' _ => seeded e' = true) published _ _ Hr t e' r Hex).
  - destruct (seeded e) eqn:Hs; [by apply safely_ret|]. eapply safely_bind; [apply safely_seed|]. intros t1 e1 a Ha. by apply safely_ret.
  - intros t1 e1 [] Hs. apply safely_with. intros Hr1. intros _ t2 e2 r2 Hex2. by apply (safely_rounds (S worldReconcileRounds) t1 e1 (expectedTip e1) (expectedTip_vouched _ _ Hr1 Hs) Hs Hr1).
Qed.
End Evidence.

(** ** The life of an engine *)

Section Life.
Context {BC : BrokerCodec} (inflate : list Z -> option zstream) (baseURL : string) (tree0 : Integrator).

(** Any sequence of the engine's operations, from its construction. *)
Inductive lives : trace pubE -> PublicationEngine -> Prop :=
| lives_new e : NewPublicationEngine baseURL tree0 = Ok e -> lives [] e
| lives_snapshot tr e u e' r : lives tr e -> exec (PrepareSnapshot e) u (e', r) -> lives (tr ++ u)%list e'
| lives_integrate tr e req u e' r : lives tr e -> exec (engine_Integrate inflate req e) u (e', r) -> lives (tr ++ u)%list e'
| lives_publish tr e u e' r : lives tr e -> exec (engine_Publish e) u (e', r) -> lives (tr ++ u)%list e'
| lives_beyond tr e u e' r : lives tr e -> exec (engine_WorkRefBeyondAnchor e) u (e', r) -> lives (tr ++ u)%list e'
| lives_safety tr e u e' r : lives tr e -> exec (engine_CapacityWorkspaceSafety e) u (e', r) -> lives (tr ++ u)%list e'.

Abbreviation D := (it_Dir tree0).
Abbreviation nothing := (fun _ _ _ => True).

Lemma safely_any_tree {A} t0 e (p : Integrator -> hgit A) : safely D t0 e (on_tree p) nothing.
Proof. by apply safely_tree. Qed.

Lemma safely_any_snapshot t0 e what : safely D t0 e (on_broker broker_Snapshot what) nothing.
Proof. eapply safely_weaken; [|apply safely_snapshot]. done. Qed.

Lemma safely_safety t0 e : safely D t0 e engine_CapacityWorkspaceSafety nothing.
Proof.
  unfold engine_CapacityWorkspaceSafety. eapply safely_bind; [apply safely_any_tree|]. intros t1 e1 state _.
  eapply safely_bind; [apply safely_any_tree|]. intros t2 e2 head _. eapply safely_bind; [apply safely_any_tree|]. intros t3 e3 branch _.
  destruct (String.eqb state _); [by apply safely_ret|]. destruct (_ && _); [by apply safely_ret|]. destruct (negb _); [by apply safely_ret|].
  eapply safely_bind; [apply safely_any_snapshot|]. intros t4 e4 snap _. destruct (String.eqb state _); [by apply safely_ret|].
  destruct (_ || _); by apply safely_ret.
Qed.

Lemma lives_remembers tr e : lives tr e -> sound D [] tr /\ remembers D tr e.
Proof.
  assert (Hstep : forall {A} (p : EM A) Q tr e u e' r, safely D tr e p Q -> sound D [] tr /\ remembers D tr e -> exec (p e) u (e', r) ->
    sound D [] (tr ++ u)%list /\ remembers D (tr ++ u)%list e').
  { intros A p Q t x u x' r Hp [Hs Hr] Hex. destruct (Hp Hr _ _ _ Hex) as (H1 & H2 & _). split; [by apply sound_app|done]. }
  induction 1 as [e Hnew|t x u x' r _ IH Hex|t x req u x' r _ IH Hex|t x u x' r _ IH Hex|t x u x' r _ IH Hex|t x u x' r _ IH Hex].
  - unfold NewPublicationEngine in Hnew. destruct (String.eqb _ ""); [done|]. destruct (negb _); [done|]. injection Hnew as <-.
    split; [by apply sound_quiet|]. constructor; cbn; [done|by left|done].
  - eapply (Hstep _ PrepareSnapshot nothing); [|done|exact Hex]. unfold PrepareSnapshot. intros Hr v y s Hv. destruct (seeded x).
    + by apply (safely_any_tree t x Render Hr).
    + eapply (safely_weaken D t x seed _ nothing); [|apply safely_seed|done|done]. done.
  - eapply (Hstep _ _ nothing); [apply safely_any_tree|done|exact Hex].
  - eapply Hstep; [apply safely_Publish|done|exact Hex].
  - eapply (Hstep _ _ nothing); [|done|exact Hex]. eapply safely_bind; [apply safely_any_snapshot|]. intros t1 e1 a _. by apply safely_ret.
  - eapply Hstep; [apply safely_safety|done|exact Hex].
Qed.
End Life.

(** C8: Control publishes only its own work, and never over a tip it cannot vouch
    for.  Over the whole life of an engine, whatever the broker, git and the file
    system answer: every commit it asks the broker to import or publish was the
    head of its tree, and the work tip it cites is one of those it can vouch for,
    that it seeded its branch from, that the broker confirmed as its own
    publication, or that was a head of its tree, or none when the broker had
    observed that the ref does not exist; in particular a foreign tip is never
    adopted.  A publication it reports was a head of its tree and was confirmed
    by the broker. *)
Theorem publication_vouched {BC : BrokerCodec} (inflate : list Z -> option zstream) (baseURL : string) (tree0 : Integrator)
    (tr : trace pubE) (e : PublicationEngine) (Hlife : lives inflate baseURL tree0 tr e) :
  sound (it_Dir tree0) [] tr /\
  (forall u e' p, exec (engine_Publish e) u (e', Ok p) ->
     sound (it_Dir tree0) tr u /\ confirmed_in (tr ++ u)%list (pub_OID p) /\ head_in (it_Dir tree0) (tr ++ u)%list (pub_OID p)).
Proof.
  destruct (lives_remembers _ _ _ _ _ Hlife) as [Hs Hr]. split; [done|]. intros u e' p Hex.
  destruct (safely_Publish (it_Dir tree0) tr e Hr u e' (Ok p) Hex) as (H1 & _ & H2 & H3 & _). done.
Qed.

(** ** How much a publication asks *)

Definition is_exchange (ev : event pubE) : bool := match ev_op ev with InBroker (Exchange _ _ _ _ _) => true | _ => false end.

Definition exchanges (tr : trace pubE) : nat := length (List.filter is_exchange tr).

Definition costs {A} (p : prog pubE A) (n : nat) : Prop := forall t a, exec p t a -> (exchanges t <= n)%nat.

Lemma exchanges_app t t' : exchanges (t ++ t')%list = (exchanges t + exchanges t')%nat.
Proof. unfold exchanges. by rewrite List.filter_app, length_app. Qed.

Lemma costs_ret {A} (a : A) n : costs (Ret a) n.
Proof. intros t b [-> _]. cbn. lia. Qed.

Lemma costs_bind {A B} (p : prog pubE A) (f : A -> prog pubE B) n m : costs p n -> (forall a, costs (f a) m) -> costs (p ≫= f) (n + m).
Proof. intros Hp Hf t b (t1 & t2 & a & -> & H1 & H2)%exec_bind. rewrite exchanges_app. specialize (Hp _ _ H1). specialize (Hf _ _ _ H2). lia. Qed.

Lemma costs_mono {A} (p : prog pubE A) n m : costs p n -> (n <= m)%nat -> costs p m.
Proof. intros Hp Hn t a Ht. specialize (Hp _ _ Ht). lia. Qed.

Lemma costs_quiet {A} (p : prog pubE A) : (forall t a, exec p t a -> Forall (fun ev => is_exchange ev = false) t) -> costs p 0.
Proof.
  intros H t a Ht. apply H in Ht. unfold exchanges. induction Ht as [|ev t Hev _ IH]; [done|]. cbn [List.filter]. by rewrite Hev.
Qed.

Lemma costs_tree {A} (p : prog treeE A) : costs (lift (@InTree) p) 0.
Proof. apply costs_quiet. intros t a (u & -> & _)%lift_exec. by apply Forall_fmap, Forall_forall. Qed.

(** A request of the broker client. *)
Lemma costs_step {X A} (e : brokerCallE X) (k : X -> prog brokerCallE A) (n : nat) :
  (forall x, costs (lift (@InBroker) (k x)) n) ->
  costs (lift (@InBroker) (Vis e k)) (n + match e with Exchange _ _ _ _ _ => 1 | _ => 0 end)%nat.
Proof.
  intros Hk t a (x & t' & -> & H). specialize (Hk _ _ _ H). unfold exchanges in *. cbn [List.filter is_exchange ev_op]. destruct e; cbn [length]; lia.
Qed.

Lemma costs_do_call m p h b : costs (lift (@InBroker) (do_call m p h b)) 1.
Proof.
  unfold do_call, BrokerToken. refine (costs_step TokenFile _ 1 _). intros raw. set (token := match raw with Some _ => _ | None => _ end). destruct token as [token|]; [|apply costs_ret].
  refine (costs_step Transport _ 1 _). intros []; [|apply costs_ret]. refine (costs_step (BuildRequest m p) _ 1 _). intros []; [|apply costs_ret].
  refine (costs_step (Exchange m p token h b) _ 0 _). intros [r|]; [|apply costs_ret]. destruct (okStatus _); [apply costs_ret|].
  destruct (_ =? 401); [|apply costs_ret]. refine (costs_step TokenFile _ 0 _). intros x. apply costs_ret.
Qed.

Lemma lift_bind {E F A B} (inj : forall X, E X -> F X) (p : prog E A) (f : A -> prog E B) t b :
  exec (lift inj (p ≫= f)) t b -> exec (lift inj p ≫= fun a => lift inj (f a)) t b.
Proof.
  revert t. induction p as [a|X e k IH]; intros t; [done|]. intros (x & t' & -> & H). exists x, t'. split; [done|]. by apply IH.
Qed.

Lemma costs_call {A} m p h b (f : response -> bcall A) : (forall r, exists x, f r = Ret x) -> costs (lift (@InBroker) (bind_err (do_call m p h b) f)) 1.
Proof.
  intros Hf t a Ht. apply lift_bind in Ht. refine (costs_bind _ _ 1 0 (costs_do_call m p h b) _ t a Ht).
  intros [r|e]; [|apply costs_ret]. destruct (Hf r) as [x ->]. apply costs_ret.
Qed.

Lemma costs_snapshot {BC : BrokerCodec} : costs (lift (@InBroker) broker_Snapshot) 1.
Proof. apply costs_call. intros r. unfold broker_fail. repeat case_match; eauto. Qed.

Lemma costs_import {BC : BrokerCodec} b h x : costs (lift (@InBroker) (broker_ImportBundle b h x)) 1.
Proof. apply costs_call. eauto. Qed.

Lemma costs_publication {BC : BrokerCodec} x h : costs (lift (@InBroker) (broker_Publish x h)) 1.
Proof. apply costs_call. intros r. unfold broker_fail. repeat case_match; eauto. Qed.

Lemma costs_retrying {A} rounds (p : bcall A) : costs (lift (@InBroker) p) 1 -> costs (retrying rounds p) (S rounds).
Proof.
  intros Hp. induction rounds as [|rounds IH]; cbn [retrying].
  - refine (costs_bind _ _ 1 0 Hp _). intros [a|e]; apply costs_ret.
  - refine (costs_bind _ _ 1 (S rounds) Hp _). intros [a|e]; [apply costs_ret|]. destruct (negb _); [apply costs_ret|].
    refine (costs_bind _ _ 0 (S rounds) _ _); [apply costs_quiet; intros t a ->%exec_call; by repeat constructor|]. intros [err|]; [apply costs_ret|exact IH].
Qed.

(** Programs of the engine. *)
Abbreviation ecosts p n := (forall e, costs (p e) n).

Lemma ecosts_bind {A B} (p : EM A) (f : A -> EM B) n m : ecosts p n -> (forall a, ecosts (f a) m) -> ecosts (em_bind p f) (n + m).
Proof. intros Hp Hf e. apply costs_bind; [done|]. intros [e' [a|err]]; [apply Hf|apply costs_ret]. Qed.

Lemma ecosts_tree {A} (p : Integrator -> hgit A) : ecosts (on_tree p) 0.
Proof. intros e. refine (costs_bind _ _ 0 0 (costs_tree _) _). intros r. apply costs_ret. Qed.

Lemma ecosts_tree_state {A} (p : Integrator -> prog treeE (Integrator * result herror A)) : ecosts (on_tree_state p) 0.
Proof. intros e. refine (costs_bind _ _ 0 0 (costs_tree _) _). intros r. apply costs_ret. Qed.

Lemma ecosts_broker {A} (p : bcall A) what : costs (lift (@InBroker) p) 1 -> ecosts (on_broker p what) 4.
Proof. intros Hp e. refine (costs_bind _ _ 4 0 (costs_retrying publishRetryRounds p Hp) _). intros r. apply costs_ret. Qed.

Section Costs.
Context {BC : BrokerCodec}.

Lemma ecosts_seed : ecosts seed 4.
Proof.
  refine (ecosts_bind _ _ 4 0 (ecosts_broker _ _ costs_snapshot) _). intros snap. refine (ecosts_bind _ _ 0 0 (ecosts_tree_state _) _).
  intros tip. destruct (negb _); [intros e; apply costs_ret|]. intros e. refine (costs_bind _ _ 0 0 (costs_tree _) _). intros s. apply costs_ret.
Qed.

Lemma ecosts_resync snap x : ecosts (resync snap x) 0.
Proof.
  refine (ecosts_bind _ _ 0 0 (ecosts_tree_state _) _). intros base e. refine (costs_bind _ _ 0 0 (costs_tree _) _). intros [|err]; [apply costs_ret|].
  refine (costs_bind _ _ 0 0 (costs_tree _) _). intros a. apply costs_ret.
Qed.

Lemma ecosts_reconcile head x : ecosts (engine_reconcile head x) 4.
Proof.
  refine (ecosts_bind _ _ 4 0 (ecosts_broker _ _ costs_snapshot) _). intros snap. refine (ecosts_bind _ _ 0 0 (ecosts_tree _) _). intros [live base].
  destruct (_ || _); [intros e; apply costs_ret|]. destruct (String.eqb live head); [intros e; apply costs_ret|].
  refine (ecosts_bind _ _ 0 0 (ecosts_tree _) _). intros behind e. destruct (negb _); [destruct (_ && _ && _); [apply costs_ret|apply ecosts_resync]|].
  destruct (behind && _); apply costs_ret.
Qed.

Lemma ecosts_rounds rounds x : ecosts (publish_rounds rounds x) (12 * rounds).
Proof.
  revert x. induction rounds as [|rounds IH]; intros x; cbn [publish_rounds]; [intros e; apply costs_ret|].
  replace (12 * S rounds)%nat with (0 + (8 + (4 + 12 * rounds)))%nat by lia. apply ecosts_bind; [apply ecosts_tree|]. intros [head bundle] e.
  destruct (String.eqb head _).
  - unfold publish_seeded. destruct (_ || _); [apply costs_ret|]. refine (costs_mono _ (4 + 4) _ _ _); [|lia].
    refine (ecosts_bind _ _ 4 4 (ecosts_broker _ _ (costs_import _ _ _)) _ e). intros _.
    refine (ecosts_bind _ _ 4 0 (ecosts_broker _ _ (costs_publication _ _)) _). intros p e'. apply costs_ret.
  - apply costs_bind.
    + refine (costs_bind _ _ 4 4 (costs_retrying publishRetryRounds _ (costs_import _ _ _)) _). intros [u|err]; [|apply costs_ret].
      refine (costs_bind _ _ 4 0 (costs_retrying publishRetryRounds _ (costs_publication _ _)) _). intros r. apply costs_ret.
    + intros [p|]; [apply costs_ret|]. by apply ecosts_bind; [apply ecosts_reconcile|].
Qed.
End Costs.

(** A publication asks the broker at most fifty-two times, whatever happens: four
    attempts for each of the seed's snapshot and, in each of four rounds, an
    import, a publication and an observation. *)
Theorem publish_bounded {BC : BrokerCodec} (e e' : PublicationEngine) (tr : trace pubE) (r : result herror Publication)
    (Hex : exec (engine_Publish e) tr (e', r)) : (exchanges tr <= 52)%nat.
Proof.
  refine (costs_mono (engine_Publish e) (4 + 48) 52 _ _ _ _ Hex); [|lia]. unfold engine_Publish. refine (ecosts_bind _ _ 4 48 _ _ e).
  - intros e0. destruct (seeded e); [apply costs_ret|]. refine (ecosts_bind _ _ 4 0 ecosts_seed _ e0). intros s e1. apply costs_ret.
  - intros [] e1. apply (ecosts_rounds 4).
Qed.

(** ** A sample publication *)

(** Bodies that are the object ID itself. *)
#[local] Instance sample_codec : BrokerCodec := {|
  encode_publication := fun expected proposed => (expected ++ " " ++ proposed)%string;
  decode_publication := fun body => Some {| pub_OID := body; AlreadyPublished := false |};
  encode_patch := fun _ => None;
  decode_control := fun _ => None
|}.

Definition sample_head : string := "89abcdef0123456789abcdef0123456789abcdef".

Definition sample_pub_git (args : list string) : git_answer :=
  match args with
  | ["rev-parse"; "HEAD"] => Output (sample_head ++ nl)
  | ["bundle"; "list-heads"; _] => Output (sample_oid ++ " " ++ snapshotWorkRef ++ nl ++ sample_oid ++ " " ++ snapshotBaseRef ++ nl)
  | _ => Output (sample_oid ++ nl)
  end.

Definition sample_pub_gitE (X : Type) (e : gitE X) : option X :=
  match e with Git _ _ args => Some (sample_pub_git args) | BundleSize _ => Some (Some 6) | _ => None end.

Definition sample_pub_tree (X : Type) (e : treeE X) : option X :=
  match e with
  | InGit g => sample_pub_gitE _ g
  | ReadBytes _ => Some (Some "bundle")
  | MkdirAll _ | WriteFile _ _ => Some true
  | TempDir _ _ => Some (Some "1")
  | EvalSymlinks _ => Some (Some ["work"; "harness-artifact-1"])
  | RegularFile _ => Some true
  | _ => None
  end.

(** The broker refuses the first import and accepts the second. *)
Definition sample_response (path : string) (imports : nat) : nat * response :=
  let answer status body := {| rsp_status := status; rsp_body := Some body;
    rsp_header := {[ headerSnapshotTip := sample_oid; headerSnapshotBaseTip := sample_oid; headerSnapshotWorkRef := "true" ]} |} in
  if String.eqb path brokerPathImport then (S imports, answer (match imports with O => 409 | _ => 204 end) "") else
  if String.eqb path brokerPathPublish then (imports, answer 200 sample_head) else (imports, answer 200 "bundle").

Definition sample_pub_broker (X : Type) (e : brokerCallE X) (imports : nat) : option (nat * X) :=
  match e with
  | TokenFile => Some (imports, Some "token")
  | Transport | BuildRequest _ _ => Some (imports, true)
  | Exchange _ path _ _ _ => let '(imports, r) := sample_response path imports in Some (imports, Some r)
  end.

Definition sample_pub_world (X : Type) (e : pubE X) (imports : nat) : option (nat * X) :=
  match e with
  | InTree t => match sample_pub_tree _ t with Some x => Some (imports, x) | None => None end
  | InBroker b => sample_pub_broker _ b imports
  | RetryWait => Some (imports, None)
  end.

Definition sample_engine : PublicationEngine :=
  {| pe_tree := sample_integrator; seeded := false; seedTip := ""; seedWorkRefExist := false; seedAtAnchor := false; lastConfirmed := "" |}.

Definition sample_engine_after : PublicationEngine :=
  {| pe_tree := sample_integrator; seeded := true; seedTip := sample_oid; seedWorkRefExist := true; seedAtAnchor := false; lastConfirmed := sample_head |}.

Definition sample_publication : trace pubE * option (PublicationEngine * result herror Publication) :=
  play sample_pub_world (engine_Publish sample_engine) 0%nat.

Lemma sample_publication_run :
  sample_publication.2 = Some (sample_engine_after, Ok {| pub_OID := sample_head; AlreadyPublished := false |}).
Proof. vm_compute. reflexivity. Qed.

Lemma sample_publication_exec :
  exec (engine_Publish sample_engine) sample_publication.1 (sample_engine_after, Ok {| pub_OID := sample_head; AlreadyPublished := false |}).
Proof. exact (play_exec sample_pub_world _ 0%nat _ sample_publication_run). Qed.

Lemma sample_life : lives zlib_reader "https://broker" sample_integrator [] sample_engine.
Proof. by apply lives_new. Qed.

Lemma publication_vouched_witness :
  sound "/work/tree" [] sample_publication.1 /\ length (List.filter is_offer sample_publication.1) = 3%nat /\
  confirmed_in sample_publication.1 sample_head /\ head_in "/work/tree" sample_publication.1 sample_head.
Proof.
  destruct (publication_vouched zlib_reader "https://broker" sample_integrator [] sample_engine sample_life) as [_ H].
  destruct (H _ _ _ sample_publication_exec) as (H1 & H2 & H3). split; [exact H1|]. split; [vm_compute; reflexivity|]. split; [exact H2|exact H3].
Defined.

Lemma publish_bounded_witness : exchanges sample_publication.1 = 5%nat /\ (exchanges sample_publication.1 <= 52)%nat.
Proof. split; [vm_compute; reflexivity|]. exact (publish_bounded _ _ _ _ sample_publication_exec). Defined.
